(* ===== verification/_CoqProject ===== *)
-Q . S2P
Prelude.v
Bitfield.v
RV32Insn.v
RV32Decode.v
GuestState.v
Interp.v
InterpProofs.v
RV32Isa.v
InterpRefine.v
VOperand.v
Qir.v
QirSem.v
QirBuilder.v
RV32Translator.v
TranslatorEmit.v
TranslatorSim.v
TranslatorCorrect.v
TranslatorRegion.v
TranslatorMain.v
ArchTraits.v
QSel.v
QSelCorrect.v
QRegAlloc.v
QRegAllocInv.v
QRegAllocSteps.v
QRegAllocOps.v
QRegAllocCorrect.v
QRegAllocRegion.v
QSelWf.v
TranslatorWf.v
Common.v
Arena.v
BranchSlot.v
Tcache.v
Execute.v
ExecuteProofs.v
IList.v
ModuleGraph.v
ModuleGraphInv.v
ModuleGraphDfs.v
DomTree.v
ModuleGraphDom.v
ModuleGraphRegions.v
Analyser.v
Aot.v
AotPages.v
Mmu.v
ObjProf.v
FsManager.v
UKernel.v
UKernelProofs.v
UKernelElf.v
UKernelStack.v
Amd64.v
QEmit.v
QEmitInst.v
QEmitCorrect.v
QCompile.v
InterpTrap.v
Jit.v
JitExec.v
JitFrames.v
AotSymbol.v
QirPrinter.v
Logs.v
AotFile.v
Programs.v
LlvmIr.v
LlvmGen.v
LlvmGenCorrect.v
LlvmExpand.v
LlvmCompile.v
LlvmAot.v
