(* ===== verification/Prelude.v ===== *)
(** * rvdbt: a verification development

    rvdbt is a dynamic binary translator and user-mode emulator: it runs
    RV32IA Linux programs on amd64.  This library models the program's own
    logic and proves it correct, from the bit fields of an instruction word
    to the machine code the execution loop runs, the system calls of the guest
    and the files of the ahead-of-time compilers.  Paths are relative to
    [src/dbt/].

    ** How the program fits together

    Guest code is executed in one of two ways.  The interpreter
    ([guest/rv32_interp.cpp]) decodes and executes instruction by
    instruction.  The translator ([guest/rv32_qir.cpp]) decodes a range of
    guest code into a region of QuickIR ([qmc/qir.h], built by
    [qmc/qir_builder.h] and folded by [qmc/qir_opt.cpp]); operand selection
    ([qmc/qcg/qsel.cpp]) and register allocation ([qmc/qcg/qra.cpp]) turn it
    into IR over host registers and frame slots, under the constraint tables
    of [qmc/qcg/arch_traits.cpp]; the emitter ([qmc/qcg/qemit.cpp]) writes the
    host code, which is entered by a trampoline and calls runtime stubs
    ([qmc/qcg/jitabi.cpp]).  The execution loop ([execute.cpp]) looks regions
    up in the translation cache ([tcache/tcache.cpp]), compiles what is missing
    and patches branch slots ([qmc/qcg/jitabi.h]) so that regions jump to each
    other.  The blocks that
    were executed are recorded in a profile ([tcache/objprof.cpp]); the
    ahead-of-time compiler ([aot/aot.cpp]) rebuilds from it the control-flow
    graph of a page ([guest/rv32_analyser.cpp], [aot/aot_module.cpp]), splits
    it into single-entry regions and compiles these with the same back end
    ([aot/aot_file.cpp]) or through LLVM IR ([qmc/llvmgen/llvmgen.cpp],
    [aot/llvmaot.cpp]) into an object that the next start boots
    ([aot/aot_boot.cpp]).  The user-mode kernel ([ukernel.cpp]) loads the guest
    program and runs its system calls over the guest memory ([mmu.cpp]); a
    thread of its own opens the cache files ([util/fsmanager.cpp]).

    ** Files

    Foundations.
    - [Prelude] (this file): integers of a width ([uN], [sN], [cast]), the
      tactics [zlia] and [bits], the hint databases and shared lemmas.
    - [Bitfield]: [util/bitfield.h].
    - [Common]: the result types [pres] (a value or [Panic]) and [lres] (also
      "out of fuel") with their binds, [roundup], [rounddown], [MakeHexStr].
    - [IList]: the intrusive list [qmc/ilist.h] over a store of link fields.
    - [Arena]: [arena.h], [arena.cpp].

    The guest.
    - [RV32Insn], [RV32Decode]: formats, immediates, flags, the decoder, and
      the opcode tables of the ISA manual it is compared with.
    - [GuestState]: [CPUState] and guest memory, a finite map from addresses
      to bytes whose domain is what is mapped.
    - [Interp]: every handler of the interpreter as a computation of the
      monad [Hm] (return, trap, fault, undefined), the dispatch loop [Execute]
      with fuel, the stub entries.
    - [RV32Isa]: the reference semantics of RV32I.  It translates no code.
    - [InterpProofs], [InterpRefine]: invariant of the interpreter, and its
      refinement of the reference semantics.

    QuickIR and the translator.
    - [VOperand], [Qir], [QirSem], [QirBuilder]: operands (packed word and
      abstract view), instructions, blocks and regions, the semantics of
      regions, builder and folder.
    - [RV32Translator]: the translator as a state monad [TM].
    - [TranslatorEmit], [TranslatorSim], [TranslatorCorrect],
      [TranslatorRegion], [TranslatorMain]: what is emitted per instruction,
      simulation per instruction, per block and per region.

    The back end.
    - [ArchTraits], [QSel], [QRegAlloc]: constraint tables, operand
      selection, register allocation (monad [RA] with panic and hang).
    - [QSelCorrect]; [QRegAllocInv], [QRegAllocSteps], [QRegAllocOps],
      [QRegAllocCorrect], [QRegAllocRegion]: both passes preserve the
      behaviour of regions.  [QSelWf], [TranslatorWf]: the regions the
      translator and selection build are well formed.
    - [Amd64]: the host instructions the emitter uses, with a semantics.
    - [QEmit]: the emitter as a monad [EM] that hands instructions and labels
      to the assembler, and the driver [qcg_GenerateCode]; [QEmitInst],
      [QEmitCorrect], [QCompile]: its correctness per instruction, per region
      and of the whole back end.
    - [InterpTrap], [Jit]: translation and code generation composed, against
      the interpreter.

    The runtime.
    - [BranchSlot], [Tcache], [Execute], [ExecuteProofs]: patched code bytes,
      the block map with its two direct-mapped caches, the loop and the stubs
      as a step function on the state of caches, slots and code.  The code
      generator is the class [CodeGen] (layout) with the law [RegionSound]
      (generated code follows the guest).
    - [JitExec]: the instances of [CodeGen] and [RegionSound] for the
      translator and the back end, so that the theorems about the loop hold of
      the code it really runs.
    - [JitFrames]: the assembly of the trampoline, of the escape and link stubs
      and of the trace stub as host instructions, and the trace ring.
    - [Mmu]: guest pages, the search for free ranges, [mmap].
    - [FsManager]: worker, clients and [Destroy] as steps of threads over two
      mutexes and a condition variable; the opening of a cache file.

    The guest's kernel.
    - [UKernel]: the trap loop, every system call with the table of numbers,
      [brk] and [mmap], loading of segments, the initial stack, as a monad [KM]
      over the kernel's state with the host's calls as a parameter.  The state
      has the protection of the guest's pages, which the kernel's own accesses
      respect; translated code sees only which bytes are mapped.
      [UKernelProofs], [UKernelElf], [UKernelStack]: their theorems.

    Ahead-of-time compilation.
    - [ObjProf]: the profile and its update from the translation cache.
    - [ModuleGraph] with [ModuleGraphInv], [ModuleGraphDfs], [DomTree],
      [ModuleGraphDom], [ModuleGraphRegions]: the graph, its traversals,
      dominators, frontiers and the partition into regions.
    - [Analyser], [Aot], [AotPages]: the pass that records branches, the driver
      that turns a profile into compiler jobs, and the entries of a page.
    - [AotSymbol], [AotFile]: names of regions; the object file with its code
      and symbols, the table and the header patch of the linked file, and its
      boot into the translation cache.
    - [LlvmIr]: the LLVM IR the generator uses, with a semantics in which
      shifts by 32 or more, unaligned accesses and accesses through the null
      pointer, which is guest address 0, are undefined.
    - [LlvmGen]: [llvmgen.cpp] as a monad [GM] that builds a function, and the
      expansion of the branch intrinsics; [LlvmGenCorrect], [LlvmExpand],
      [LlvmCompile]: their correctness; [LlvmAot]: the module of a profile.

    Texts and programs.
    - [QirPrinter]: the printer of regions; [Logs]: operands of instructions,
      register traces, log streams and the line buffer; [Programs]: command
      lines, names of cache files and the opening of the profile.

    ** What the theorems show

    - Guest semantics: [Decode_spec] (the decoder against the manual's tables,
      with the bits it ignores), [immediates_isa],
      [Interpreter_Execute_refines_isa] (a run of the interpreter ends as the
      reference machine does) and [Interpreter_Execute_invariant].
    - Translation: [Translate_total] (the loop ends and no assertion fails),
      [Translate_wf] (the region is well formed), [Translate_correct] (every
      way a region is left is one the interpreter reaches, which fetches from
      its current memory) and
      [Translate_progress] (the region is left when the interpreter stops),
      [fold_inst_correct], [unpack_pack].
    - Back end: [QSelPass_correct], [QRegAllocPass_correct],
      [QCodegen_Run_correct] and their composition
      [qcg_GenerateCode_correct]; [compiled_code_correct]: the host code of
      guest ranges does what the interpreter does.
    - Runtime: [Execute_refines] and [Execute_safe] for every code generator
      that satisfies its law; [Execute_compiled_correct] and
      [Execute_compiled_finishes] for the real one: the loop over compiled
      code shows the interpreter's states, traps and faults, and comes to the
      interpreter's trap.  [jit_frame_roundtrip] (the frames the stubs build
      and leave), [Lookup_refines], [Link_jumps],
      [GetCompilationIPRange_bounds], [Allocate_all_disjoint],
      [IList_refines], [mmap_returns].
    - File-system manager: [SendTask_once] and [SendTask_returns] (under every
      schedule), [OpenCacheFile_resources].
    - Kernel: [SyscallLinux_correct], [linux_brk_correct],
      [load_segment_correct], [InitAVectors_roundtrip].
    - Ahead of time: [ComputeDomTree_dominators], [ComputeRegions_partition],
      [AOTCompilePage_correct], [UpdateProfile_records]; [AOT_roundtrip]
      (compile, link and boot); [QIRToLLVM_Run_correct],
      [ExpandIntrinsics_correct], [llvm_code_correct] and
      [LLVMAOT_module_correct] for the LLVM path.
    - Texts: [PrinterPass_run_injective], [print_insn_injective],
      [DumpTrace_injective], [commit_write_whole], [SplitArgs_spec],
      [MakeCachePath_injective], [Announce_elf_spec].
    - Defects: theorems that exhibit what the code does where it departs from
      its intention: [load_x0_clobbers_base], [CallOp_hangs],
      [brind_zero_jumps_null], [ComputeDomTree_aborts],
      [MarkUsedPages_forgets], [InvalidatePage_null_l1], [ebreak_hangs],
      [llvm_undefined], [SendTask_after_Destroy_blocks],
      [commit_printf_retried].

    The correctness theorems carry the defects as hypotheses.  [code_ok] of
    the translator excludes loads into [x0] with offset 0 from the translated
    ranges; a region has at most 255 virtual registers, a graph fewer than 256
    nodes; indirect branches do not go to address 0; an LLVM function is
    compared up to the first undefined shift or access.  Translated code is
    never invalidated when the guest stores to it.  The reference is always
    [Interp.dispatch] on the current guest memory: [goes_bad] describes the
    runs on which, inside the translated ranges, it comes to an instruction
    that is no longer the translated one (or traps on a misaligned jump, which
    translated code does not check, or leaves the contract of the atomics), and
    the theorems about regions except them.  [guest_ok] of [JitExec] says that
    the guest has no such run; the loop then compiles each range from the
    guest memory of that moment and the result is [Interpreter_Execute]'s.

    ** Conventions, bounds and fuel

    Machine integers are elements of [Z] with every conversion written out.
    A null pointer is [None] where the code tests for it, and dereferencing
    one is [PPanic].  Loops without a structural measure take fuel:
    [Interpreter_Execute] and [exec_region] run programs, so their theorems
    speak of every fuel, and [Translate_progress] gives a number of blocks
    that is enough; [translate_loop] takes the number of words of its range;
    [dfs_fuel] is the number of nodes and edges, [climb_fuel], [dom_fuel] and
    [idf_fuel] are bounds on chains, on the total depth of the tree and on
    worklist pushes: the theorems about the module graph prove a result is
    returned with them, so they never run out.  [CallOp] allows its [u8] loop
    257 tests, which [CallOp_hangs] proves to be enough whenever it ends.  The two attempts that
    [commit_write] needs are enough by [commit_write_whole].

    Parameters stand for what is not in the sources: the host's [mmap] and
    [munmap] ([Mmu], [Arena]) and its system calls ([UKernel]), the answers of
    the file calls ([FsManager]), the order in which [std::set] of pointers
    iterates ([host_order] of [ModuleGraph]), the key a read behind [end()] of
    a map finds ([end_key] of [ObjProf]), the values a helper call leaves in
    call-clobbered registers ([clobber] of [QirSem]), the size of assembled
    code ([asm_size]), the linker ([ld] with [linked_ok]) and the loader
    ([same_bytes]) of [AotFile], the callees of the assembly stubs ([sysv] of
    [JitFrames]), the option parser, the digest and [dlopen] of [Programs].
    What is assumed of them is stated as a hypothesis of the theorems, and a
    witness instantiates each.

    ** Not modelled

    - The encoding of host instructions by the assembler library, and the code
      LLVM generates and optimises from the module.
    - [aot/llvmaot_stackmaps.cpp], which has no caller.
    - The unwinding of the C++ runtime when a stub raises a trap: the model
      returns to the loop at once.
    - The binding of [uthread] to its host thread: the kernel has a main thread
      and no other.
    - The graph dumps of [aot/aot_module.cpp] and [tcache/cflow_dump.h], the
      order of the calls in the two [main] functions, and log calls and the
      [dump_trace] build inside the components. *)

From stdpp Require Import base tactics numbers list gmap.

(** ** Machine integers

    A C++ integer of width [w] is an element of [Z] together with the
    conversion the language performs when a value is stored in it:
    [uN w] is the conversion to an unsigned type of [w] bits and [sN w] the
    conversion to a two's complement signed type. *)

Declare Scope rvdbt_scope.
Delimit Scope rvdbt_scope with rv.
Open Scope Z_scope.

Definition uN (w z : Z) : Z := z mod 2 ^ w.
Definition sN (w z : Z) : Z := (z + 2 ^ (w - 1)) mod 2 ^ w - 2 ^ (w - 1).

(** An integer type of the source ([u8] .. [i64]) as a template argument. *)
Record ity := ITy { ibits : Z; isigned : bool }.

Definition cast (t : ity) (z : Z) : Z :=
  if isigned t then sN (ibits t) z else uN (ibits t) z.
Definition make_unsigned (t : ity) : ity := ITy (ibits t) false.
Definition make_signed (t : ity) : ity := ITy (ibits t) true.

Definition Tu8 := ITy 8 false.
Definition Tu16 := ITy 16 false.
Definition Tu32 := ITy 32 false.
Definition Tu64 := ITy 64 false.
Definition Ti8 := ITy 8 true.
Definition Ti16 := ITy 16 true.
Definition Ti32 := ITy 32 true.
Definition Ti64 := ITy 64 true.
Definition Tbool := ITy 1 false.

(** The conversions used by value-level code. *)
Abbreviation u8 := (uN 8).
Abbreviation u16 := (uN 16).
Abbreviation u32 := (uN 32).
Abbreviation u64 := (uN 64).
Abbreviation i8 := (sN 8).
Abbreviation i16 := (sN 16).
Abbreviation i32 := (sN 32).
Abbreviation i64 := (sN 64).

Definition in_u (w z : Z) : Prop := 0 <= z < 2 ^ w.
Definition in_s (w z : Z) : Prop := - 2 ^ (w - 1) <= z < 2 ^ (w - 1).

Create HintDb rvdbt.
Create Rewrite HintDb rvconv.
Create Rewrite HintDb rvbits.

(** *** Automation

    [zlia] exposes [mod]/[div] to [lia]; [bits] proves an equality of
    integers bit by bit after the test-bit equations of [rvbits]. *)
Ltac zlia := Z.div_mod_to_equations; lia.

Ltac case_if_all :=
  repeat match goal with
    | |- context [if ?b then _ else _] => destruct b eqn:?
    | H : context [if ?b then _ else _] |- _ => destruct b eqn:?
    end.

Ltac bool_to_prop :=
  repeat match goal with
    | H : (_ && _)%bool = true |- _ => apply andb_true_iff in H; destruct H
    | H : (_ || _)%bool = false |- _ => apply orb_false_iff in H; destruct H
    | H : (_ <? _) = true |- _ => apply Z.ltb_lt in H
    | H : (_ <? _) = false |- _ => apply Z.ltb_ge in H
    | H : (_ <=? _) = true |- _ => apply Z.leb_le in H
    | H : (_ <=? _) = false |- _ => apply Z.leb_gt in H
    | H : (_ =? _) = true |- _ => apply Z.eqb_eq in H
    | H : (_ =? _) = false |- _ => apply Z.eqb_neq in H
    | H : bool_decide _ = true |- _ => apply bool_decide_eq_true in H
    | H : bool_decide _ = false |- _ => apply bool_decide_eq_false in H
    end.

(** *** Ranges and idempotence of the conversions *)
Lemma pow2_pos (w : Z) : 0 <= w -> 0 < 2 ^ w.
Proof. intros; apply Z.pow_pos_nonneg; lia. Qed.

Lemma pow2_split (w : Z) : 0 < w -> 2 ^ w = 2 * 2 ^ (w - 1).
Proof. intros. rewrite <- Z.pow_succ_r by lia. f_equal. lia. Qed.

Lemma uN_range (w z : Z) : 0 <= w -> in_u w (uN w z).
Proof. intros. apply Z.mod_pos_bound, pow2_pos; lia. Qed.

Lemma sN_range (w z : Z) : 0 < w -> in_s w (sN w z).
Proof.
  intros. unfold in_s, sN. pose proof (pow2_split w H).
  pose proof (Z.mod_pos_bound (z + 2 ^ (w - 1)) (2 ^ w) (pow2_pos w ltac:(lia))). lia.
Qed.

Lemma uN_id (w z : Z) : in_u w z -> uN w z = z.
Proof. intros. apply Z.mod_small, H. Qed.

Lemma sN_id (w z : Z) : 0 < w -> in_s w z -> sN w z = z.
Proof.
  unfold in_s, sN. intros Hw H. pose proof (pow2_split w Hw).
  rewrite Z.mod_small; lia.
Qed.

Lemma uN_uN (w z : Z) : uN w (uN w z) = uN w z.
Proof. apply Zmod_mod. Qed.

Lemma uN_sN (w z : Z) : uN w (sN w z) = uN w z.
Proof.
  unfold uN, sN. rewrite Zminus_mod_idemp_l. f_equal. lia.
Qed.

Lemma sN_uN (w z : Z) : sN w (uN w z) = sN w z.
Proof. unfold uN, sN. by rewrite Zplus_mod_idemp_l. Qed.

Lemma uN_add (w a b : Z) : uN w (uN w a + uN w b) = uN w (a + b).
Proof. unfold uN. by rewrite <- Zplus_mod. Qed.

Lemma uN_add_l (w a b : Z) : uN w (uN w a + b) = uN w (a + b).
Proof. unfold uN. by rewrite Zplus_mod_idemp_l. Qed.

Lemma uN_add_r (w a b : Z) : uN w (a + uN w b) = uN w (a + b).
Proof. unfold uN. by rewrite Zplus_mod_idemp_r. Qed.

Lemma uN_sub (w a b : Z) : uN w (uN w a - uN w b) = uN w (a - b).
Proof. unfold uN. by rewrite <- Zminus_mod. Qed.

Lemma uN_0 (w : Z) : uN w 0 = 0.
Proof. apply Zmod_0_l. Qed.

#[export] Hint Resolve uN_range sN_range : rvdbt.
#[export] Hint Rewrite uN_uN uN_sN sN_uN uN_add_l uN_add_r uN_0 : rvconv.

(** *** Bits of the conversions *)
Lemma testbit_uN (w z n : Z) :
  0 <= w -> 0 <= n -> Z.testbit (uN w z) n = ((n <? w) && Z.testbit z n)%bool.
Proof.
  intros. unfold uN. destruct (Z.ltb_spec n w).
  - by rewrite Z.mod_pow2_bits_low by lia.
  - by rewrite Z.mod_pow2_bits_high by lia.
Qed.

Lemma testbit_sign (w y n : Z) :
  0 < w -> in_s w y -> w - 1 <= n -> Z.testbit y n = (y <? 0).
Proof.
  unfold in_s. intros Hw Hy Hn.
  assert (2 ^ (w - 1) <= 2 ^ n) by (apply Z.pow_le_mono_r; lia).
  rewrite Z.testbit_odd, Z.shiftr_div_pow2 by lia.
  destruct (Z.ltb_spec y 0).
  - replace (y / 2 ^ n) with (-1); [done|].
    apply (Z.div_unique _ _ _ (y + 2 ^ n)); lia.
  - rewrite Z.div_small by lia. done.
Qed.

Lemma testbit_sN (w z n : Z) :
  0 < w -> 0 <= n -> Z.testbit (sN w z) n = Z.testbit z (if n <? w then n else w - 1).
Proof.
  intros Hw Hn.
  assert (Hlow : forall k, 0 <= k < w -> Z.testbit (sN w z) k = Z.testbit z k).
  { intros k Hk. rewrite <- (Z.mod_pow2_bits_low (sN w z) w k) by lia.
    rewrite <- (Z.mod_pow2_bits_low z w k) by lia. f_equal. apply uN_sN. }
  destruct (Z.ltb_spec n w); [apply Hlow; lia|].
  rewrite <- Hlow by lia. pose proof (sN_range w z Hw).
  rewrite (testbit_sign w), (testbit_sign w _ (w - 1)); auto; lia.
Qed.

Lemma testbit_shiftl (z k n : Z) :
  0 <= n -> Z.testbit (Z.shiftl z k) n = ((0 <=? n - k) && Z.testbit z (n - k))%bool.
Proof.
  intros. rewrite Z.shiftl_spec by lia. destruct (Z.leb_spec 0 (n - k)); [done|].
  by rewrite Z.testbit_neg_r by lia.
Qed.

Lemma testbit_ones (k n : Z) :
  0 <= k -> 0 <= n -> Z.testbit (Z.ones k) n = (n <? k).
Proof.
  intros. destruct (Z.ltb_spec n k).
  - apply Z.ones_spec_low; lia.
  - apply Z.ones_spec_high; lia.
Qed.

Lemma testbit_high (w z n : Z) : in_u w z -> 0 <= w -> w <= n -> Z.testbit z n = false.
Proof. intros H ??. rewrite <- (uN_id w z H), testbit_uN by lia. by destruct (Z.ltb_spec n w); [lia|]. Qed.

Lemma land_ones_uN (w z : Z) : 0 <= w -> Z.land z (Z.ones w) = uN w z.
Proof. intros. by rewrite Z.land_ones. Qed.

#[export] Hint Rewrite Z.lor_spec Z.land_spec Z.lxor_spec Z.bits_0 : rvbits.
#[export] Hint Rewrite Z.lnot_spec Z.shiftr_spec testbit_shiftl testbit_uN testbit_sN testbit_ones
  using lia : rvbits.

(** Split every comparison that a test-bit equation left in the goal. *)
Ltac split_cmp :=
  repeat (match goal with
    | |- context [?a <? ?b] => destruct (Z.ltb_spec a b)
    | |- context [?a <=? ?b] => destruct (Z.leb_spec a b)
    | |- context [?a =? ?b] => destruct (Z.eqb_spec a b)
    end; try lia).

Ltac bits_norm :=
  repeat (autorewrite with rvbits; split_cmp; cbn [andb orb negb xorb]).

Ltac bits :=
  apply Z.bits_inj'; let n := fresh "n" in let Hn := fresh "Hn" in intros n Hn;
  split_cmp; bits_norm;
  rewrite ?Bool.andb_true_r, ?Bool.andb_false_r, ?Bool.orb_false_r;
  try done; try (f_equal; lia); try lia.

(** ** Lists, options *)
Lemma list_lookup_total_insert_any {A} `{Inhabited A} (l : list A) (i j : nat) (x : A) :
  <[i:=x]> l !!! j = if bool_decide (i = j /\ (j < length l)%nat) then x else l !!! j.
Proof.
  case_bool_decide as Hb.
  - destruct Hb as [-> Hj]. by apply list_lookup_total_insert_eq.
  - destruct (decide (i = j)) as [->|Hne].
    + rewrite list_insert_ge; [done|]. apply Nat.nlt_ge. tauto.
    + by apply list_lookup_total_insert_ne.
Qed.

(** A functional update of an existing element is an insert. *)
Lemma list_alter_is_insert {A} (f : A -> A) (l : list A) (i : nat) (x : A) :
  l !! i = Some x -> alter f i l = <[i := f x]> l.
Proof.
  revert i. induction l as [|y l IH]; intros [|i]; cbn; try done.
  - by intros [= ->].
  - intros H. f_equal. by apply IH.
Qed.
