(* ===== verification/Bitfield.v ===== *)
(** * Bit fields (src/dbt/util/bitfield.h)

    [bf_range<T, l, h>] is the template of one contiguous field and
    [bf_seq<T, P...>] the template that glues several fields together, low
    part first.  The instruction formats of the guest and the packed
    [VOperand] of QuickIR are both built from them.  The functions below are
    the bodies of the templates with the template arguments as parameters:
    [T] is the result type, [C] the type of the container word. *)

From stdpp Require Import base tactics numbers list.
From S2P Require Import Prelude.

Module bf_range.

(** [static constexpr size_t size = h - l + 1]. *)
Definition size (l h : Z) : Z := h - l + 1.

(** [decode_bits]: shift the field to the top of the container and back. *)
Definition decode_bits (T : ity) (l h : Z) (C : ity) (c : Z) : Z :=
  let u_msb := ibits C - 1 in
  cast T (Z.shiftr (cast C (Z.shiftl c (u_msb - h))) (u_msb - h + l)).

(** [decode]: the two overloads, selected by the signedness of [T]. *)
Definition decode (T : ity) (l h : Z) (C : ity) (c : Z) : Z :=
  if isigned T
  then decode_bits T l h (make_signed C) (cast (make_signed C) c)
  else decode_bits T l h (make_unsigned C) (cast (make_unsigned C) c).

(** [mask] is a [size_t]. *)
Definition mask (l h : Z) : Z := u64 (Z.shiftl (u64 (Z.shiftl 1 (size l h)) - 1) l).

(** [encode_bits] on a container of 64 bits or less. *)
Definition encode_bits (l h : Z) (C : ity) (c t : Z) : Z :=
  let u_msb := ibits C - 1 in
  let UC := make_unsigned C in
  let fval := Z.shiftr (cast UC (Z.shiftl (cast UC t) (u_msb - h + l))) (u_msb - h) in
  cast C (Z.lor (Z.land c (Z.lnot (mask l h))) fval).

Definition encode (l h : Z) (C : ity) (c t : Z) : Z := encode_bits l h C c t.

(** The static assertions of the template. *)
Definition wf (T : ity) (l h : Z) (C : ity) : Prop :=
  0 <= l <= h /\ h < ibits C /\ size l h <= ibits T.

Section facts.
Context (T C : ity) (l h : Z) (Hwf : wf T l h C).

(** An unsigned field is the slice [h..l] of the container. *)
Lemma decode_unsigned (c : Z) :
  isigned T = false -> decode T l h C c = uN (size l h) (Z.shiftr c l).
Proof using Hwf.
  destruct Hwf as ((Hl & Hlh) & Hh & HT). unfold size in *.
  intros HU. unfold decode, decode_bits. rewrite HU.
  unfold cast. rewrite HU. cbn [isigned make_unsigned ibits]. unfold size.
  bits.
Qed.

(** A signed field is the slice, sign-extended from its own top bit. *)
Lemma decode_signed (c : Z) :
  isigned T = true -> decode T l h C c = sN (size l h) (Z.shiftr c l).
Proof using Hwf.
  destruct Hwf as ((Hl & Hlh) & Hh & HT). unfold size in *.
  intros HU. unfold decode, decode_bits. rewrite HU.
  unfold cast. rewrite HU. cbn [isigned make_signed ibits]. unfold size.
  bits.
Qed.

Lemma decode_range (c : Z) : isigned T = false -> in_u (size l h) (decode T l h C c).
Proof using Hwf.
  intros HU. rewrite decode_unsigned by done. apply uN_range.
  destruct Hwf as ((? & ?) & _). unfold size. lia.
Qed.
End facts.

Lemma testbit_mask (l h n : Z) :
  0 <= l <= h -> h < 64 -> 0 <= n ->
  Z.testbit (mask l h) n = ((l <=? n) && (n <=? h))%bool.
Proof.
  intros Hl Hh Hn. unfold mask, size.
  destruct (Z.eqb_spec (h - l + 1) 64) as [E|E].
  - replace l with 0 by lia. replace h with 63 by lia. vm_compute (u64 _ - 1).
    change (-1) with (Z.lnot 0). autorewrite with rvbits. split_cmp; done.
  - assert (Hp : in_u 64 (Z.shiftl 1 (h - l + 1))).
    { rewrite Z.shiftl_1_l. split; [apply Z.pow_nonneg; lia|].
      apply Z.pow_lt_mono_r; lia. }
    rewrite (uN_id 64 _ Hp).
    replace (Z.shiftl 1 (h - l + 1) - 1) with (Z.ones (h - l + 1))
      by (rewrite Z.ones_equiv, Z.shiftl_1_l; lia).
    autorewrite with rvbits. split_cmp; autorewrite with rvbits; split_cmp; done.
Qed.

Section encode_facts.
Context (T C : ity) (l h : Z) (Hwf : wf T l h C).
Context (HC : ibits C <= 64) (HCu : isigned C = false).

Lemma testbit_encode (c t n : Z) :
  0 <= n -> Z.testbit (encode l h C c t) n =
    ((n <? ibits C) &&
     (if (l <=? n) && (n <=? h) then Z.testbit t (n - l) else Z.testbit c n))%bool.
Proof using Hwf HC HCu.
  destruct Hwf as ((Hl & Hlh) & Hh & HT). unfold size in *. intros Hn.
  unfold encode, encode_bits, cast. rewrite HCu. cbn [isigned make_unsigned ibits].
  autorewrite with rvbits. rewrite testbit_mask by lia.
  split_cmp; autorewrite with rvbits; split_cmp; simpl;
    rewrite ?Bool.andb_true_r, ?Bool.andb_false_r, ?Bool.orb_false_r; try done;
    try (f_equal; lia); rewrite ?orb_false_l; try (f_equal; lia).
Qed.

(** Reading back the field just written. *)
Lemma decode_encode (c t : Z) :
  isigned T = false -> in_u (size l h) t -> decode T l h C (encode l h C c t) = t.
Proof using Hwf HC HCu.
  intros HU Ht. rewrite (decode_unsigned T C) by done.
  destruct Hwf as ((Hl & Hlh) & Hh & HT). unfold size in *.
  apply Z.bits_inj'. intros n Hn. autorewrite with rvbits.
  destruct (Z.ltb_spec n (h - l + 1)).
  - rewrite testbit_encode by lia. split_cmp. simpl. f_equal; lia.
  - rewrite (testbit_high (h - l + 1) t n Ht) by lia. done.
Qed.

(** Writing a field leaves a disjoint field alone. *)
Lemma decode_encode_disjoint (T' : ity) (l' h' c t : Z) :
  wf T' l' h' C -> isigned T' = false -> h' < l \/ h < l' ->
  decode T' l' h' C (encode l h C c t) = decode T' l' h' C c.
Proof using Hwf HC HCu.
  intros Hwf' HU Hdis. rewrite !(decode_unsigned T' C) by done.
  destruct Hwf as ((Hl & Hlh) & Hh & HT), Hwf' as ((Hl' & Hlh') & Hh' & HT').
  unfold size in *. apply Z.bits_inj'. intros n Hn. autorewrite with rvbits.
  rewrite testbit_encode by lia. split_cmp; done.
Qed.

Lemma encode_range (c t : Z) : 0 <= ibits C -> in_u (ibits C) (encode l h C c t).
Proof using HCu.
  intros. unfold encode, encode_bits, cast. rewrite HCu. by apply uN_range.
Qed.
End encode_facts.
End bf_range.

(** ** Sequences of fields *)
Module bf_seq.

(** [bf_pt<l, h>]. *)
Record bf_pt := Pt { pl : Z; ph : Z }.

(** [bf_seq<T, P, Args...>::decode]: the operands of [|] are promoted to a
    type of 32 bits ([int] for the 16 bit [T], [u32] for the 32 bit one), and
    the result is converted back to [T]; the last field is read with the
    signedness of [T] itself. *)
Fixpoint decode (T : ity) (P : bf_pt) (Args : list bf_pt) (C : ity) (c : Z) : Z :=
  match Args with
  | [] => bf_range.decode T (pl P) (ph P) C c
  | P' :: Args' =>
      cast T (Z.lor (bf_range.decode (make_unsigned T) (pl P) (ph P) C c)
                    (u32 (Z.shiftl (decode T P' Args' C c) (bf_range.size (pl P) (ph P)))))
  end.

End bf_seq.
