(* ===== verification/RV32Insn.v ===== *)
(** * Guest instructions (src/dbt/guest/rv32_insn.h, rv32_ops.h, rv32_insn.cpp)

    The opcode list, the instruction formats with their bit fields and
    immediates, the per-opcode flags, and what the immediates mean in terms of
    the RISC-V encoding. *)

From stdpp Require Import base tactics numbers list strings.
From S2P Require Import Prelude Bitfield.

Module insn.

(** ** Opcodes, in the order of [RV32_OPCODE_LIST] *)
Inductive Op :=
| _ill
| _lui | _auipc | _jal | _jalr
| _beq | _bne | _blt | _bge | _bltu | _bgeu
| _lb | _lh | _lw | _lbu | _lhu
| _sb | _sh | _sw
| _addi | _slti | _sltiu | _xori | _ori | _andi
| _slli | _srai | _srli
| _sub | _add | _sll | _slt | _sltu | _xor | _sra | _srl | _or | _and
| _fence | _fencei | _ecall | _ebreak
| _lrw | _scw | _amoswapw | _amoaddw | _amoxorw | _amoandw | _amoorw
| _amominw | _amomaxw | _amominuw | _amomaxuw.

#[global] Instance Op_eq_dec : EqDecision Op.
Proof. solve_decision. Defined.

Definition all_ops : list Op :=
  [ _ill; _lui; _auipc; _jal; _jalr; _beq; _bne; _blt; _bge; _bltu; _bgeu;
    _lb; _lh; _lw; _lbu; _lhu; _sb; _sh; _sw;
    _addi; _slti; _sltiu; _xori; _ori; _andi; _slli; _srai; _srli;
    _sub; _add; _sll; _slt; _sltu; _xor; _sra; _srl; _or; _and;
    _fence; _fencei; _ecall; _ebreak;
    _lrw; _scw; _amoswapw; _amoaddw; _amoxorw; _amoandw; _amoorw;
    _amominw; _amomaxw; _amominuw; _amomaxuw ].

Lemma all_ops_complete (op : Op) : op ∈ all_ops.
Proof. destruct op; apply list_elem_of_In; cbn; tauto. Qed.

(** ** Formats and flags *)
(** The format structs [Base], [R], [I], [IS], [S], [B], [U], [J], [A]. *)
Inductive Format := FBase | FR | FI | FIS | FS | FB | FU | FJ | FA.

Module Flags.
Definition None : Z := 0.
Definition Branch : Z := Z.shiftl 1 1.
Definition MayTrap : Z := Z.shiftl 1 2.
Definition Trap : Z := Z.shiftl 1 3.
Definition HasRd : Z := Z.shiftl 1 4.
End Flags.

(** [format_] column of the opcode list. *)
Definition format (op : Op) : Format :=
  match op with
  | _ill | _fence | _fencei | _ecall | _ebreak => FBase
  | _lui | _auipc => FU
  | _jal => FJ
  | _beq | _bne | _blt | _bge | _bltu | _bgeu => FB
  | _jalr | _lb | _lh | _lw | _lbu | _lhu
  | _addi | _slti | _sltiu | _xori | _ori | _andi => FI
  | _slli | _srai | _srli => FIS
  | _sb | _sh | _sw => FS
  | _sub | _add | _sll | _slt | _sltu | _xor | _sra | _srl | _or | _and => FR
  | _lrw | _scw | _amoswapw | _amoaddw | _amoxorw | _amoandw | _amoorw
  | _amominw | _amomaxw | _amominuw | _amomaxuw => FA
  end.

(** [flags_] column of the opcode list. *)
Definition flags_ (op : Op) : Z :=
  match op with
  | _ill | _ecall | _ebreak => Flags.Trap
  | _jal | _jalr | _beq | _bne | _blt | _bge | _bltu | _bgeu => Flags.Branch
  | _lb | _lh | _lw | _lbu | _lhu | _sb | _sh | _sw => Flags.MayTrap
  | _ => 0
  end.

(** [gen_flags] of each format. *)
Definition gen_flags (f : Format) : Z :=
  match f with
  | FBase | FS | FB => Flags.None
  | FR | FI | FIS | FU | FJ => Flags.HasRd
  | FA => Z.lor Flags.HasRd Flags.MayTrap
  end.

(** [Insn_##name::flags]. *)
Definition flags (op : Op) : Z := Z.lor (flags_ op) (gen_flags (format op)).

Definition has_flag (op : Op) (f : Z) : bool := negb (Z.land (flags op) f =? 0).

(** ** Fields of the 32-bit instruction word *)
Definition opcode (raw : Z) : Z := bf_range.decode Tu8 0 6 Tu32 raw.
Definition rd (raw : Z) : Z := bf_range.decode Tu8 7 11 Tu32 raw.
Definition rs1 (raw : Z) : Z := bf_range.decode Tu8 15 19 Tu32 raw.
Definition rs2 (raw : Z) : Z := bf_range.decode Tu8 20 24 Tu32 raw.
Definition funct3 (raw : Z) : Z := bf_range.decode Tu8 12 14 Tu32 raw.
Definition funct7 (raw : Z) : Z := bf_range.decode Tu8 25 31 Tu32 raw.
Definition funct12 (raw : Z) : Z := bf_range.decode Tu16 20 31 Tu32 raw.

Import bf_seq.

(** [I::_imm], an [i16]. *)
Definition I_imm (raw : Z) : Z := bf_seq.decode Ti16 (Pt 20 30) [Pt 31 31] Tu32 raw.
(** [IS::_imm], a [u8]. *)
Definition IS_imm (raw : Z) : Z := bf_range.decode Tu8 20 24 Tu32 raw.
(** [S::_imm], an [i16]. *)
Definition S_imm (raw : Z) : Z :=
  bf_seq.decode Ti16 (Pt 7 11) [Pt 25 30; Pt 31 31] Tu32 raw.
(** [B::imm()]: the [i16] is promoted to [int] and scaled by 1. *)
Definition B_imm (raw : Z) : Z :=
  i32 (Z.shiftl (bf_seq.decode Ti16 (Pt 8 11) [Pt 25 30; Pt 7 7; Pt 31 31] Tu32 raw) 1).
(** [U::imm()]: a [u32] scaled by 12. *)
Definition U_imm (raw : Z) : Z := u32 (Z.shiftl (bf_range.decode Tu32 12 31 Tu32 raw) 12).
(** [J::imm()]: an [i32] scaled by 1. *)
Definition J_imm (raw : Z) : Z :=
  i32 (Z.shiftl (bf_seq.decode Ti32 (Pt 21 30) [Pt 20 20; Pt 12 19; Pt 31 31] Tu32 raw) 1).

(** [A::rlaq] and its two halves. *)
Definition A_rl (raw : Z) : Z := bf_range.decode Tu8 25 25 Tu32 raw.
Definition A_aq (raw : Z) : Z := bf_range.decode Tu8 26 26 Tu32 raw.
Definition A_rlaq (raw : Z) : Z := bf_range.decode Tu8 25 26 Tu32 raw.

(** ** Register names ([gpr_names], [GRPToName]) *)
Definition gpr_names : list string :=
  [ "zr"; "ra"; "sp"; "gp"; "tp"; "t0"; "t1"; "t2";
    "fp"; "s1"; "a0"; "a1"; "a2"; "a3"; "a4"; "a5";
    "a6"; "a7"; "s2"; "s3"; "s4"; "s5"; "s6"; "s7";
    "s8"; "s9"; "s10"; "s11"; "t3"; "t4"; "t5"; "t6" ]%string.
Definition GRPToName (r : Z) : string := gpr_names !!! Z.to_nat r.

(** ** What the fields are *)

(** The slice [h..l] of a word, the notation of the ISA manual. *)
Definition slice (h l z : Z) : Z := uN (h - l + 1) (Z.shiftr z l).

Ltac field_wf := unfold bf_range.wf, bf_range.size; cbn; lia.

Lemma opcode_slice raw : opcode raw = slice 6 0 raw.
Proof. unfold opcode. rewrite (bf_range.decode_unsigned Tu8 Tu32) by (field_wf || done). done. Qed.
Lemma rd_slice raw : rd raw = slice 11 7 raw.
Proof. unfold rd. rewrite (bf_range.decode_unsigned Tu8 Tu32) by (field_wf || done). done. Qed.
Lemma rs1_slice raw : rs1 raw = slice 19 15 raw.
Proof. unfold rs1. rewrite (bf_range.decode_unsigned Tu8 Tu32) by (field_wf || done). done. Qed.
Lemma rs2_slice raw : rs2 raw = slice 24 20 raw.
Proof. unfold rs2. rewrite (bf_range.decode_unsigned Tu8 Tu32) by (field_wf || done). done. Qed.
Lemma funct3_slice raw : funct3 raw = slice 14 12 raw.
Proof. unfold funct3. rewrite (bf_range.decode_unsigned Tu8 Tu32) by (field_wf || done). done. Qed.
Lemma funct7_slice raw : funct7 raw = slice 31 25 raw.
Proof. unfold funct7. rewrite (bf_range.decode_unsigned Tu8 Tu32) by (field_wf || done). done. Qed.
Lemma funct12_slice raw : funct12 raw = slice 31 20 raw.
Proof. unfold funct12. rewrite (bf_range.decode_unsigned Tu16 Tu32) by (field_wf || done). done. Qed.

Lemma slice_range h l z : l <= h + 1 -> in_u (h - l + 1) (slice h l z).
Proof. intros. apply uN_range. lia. Qed.

Lemma rd_range raw : 0 <= rd raw < 32.
Proof. rewrite rd_slice. apply (slice_range 11 7); lia. Qed.
Lemma rs1_range raw : 0 <= rs1 raw < 32.
Proof. rewrite rs1_slice. apply (slice_range 19 15); lia. Qed.
Lemma rs2_range raw : 0 <= rs2 raw < 32.
Proof. rewrite rs2_slice. apply (slice_range 24 20); lia. Qed.
Lemma IS_imm_range raw : 0 <= IS_imm raw < 32.
Proof. apply rs2_range. Qed.
#[export] Hint Resolve rd_range rs1_range rs2_range IS_imm_range : rvdbt.

(** The concatenations of the ISA manual, sign-extended. *)
Definition isa_imm_I (z : Z) : Z := sN 12 (slice 31 20 z).
Definition isa_imm_S (z : Z) : Z :=
  sN 12 (Z.lor (Z.shiftl (slice 31 25 z) 5) (slice 11 7 z)).
Definition isa_imm_B (z : Z) : Z :=
  sN 13 (Z.lor (Z.shiftl (slice 31 31 z) 12) (Z.lor (Z.shiftl (slice 7 7 z) 11)
        (Z.lor (Z.shiftl (slice 30 25 z) 5) (Z.shiftl (slice 11 8 z) 1)))).
Definition isa_imm_U (z : Z) : Z := Z.shiftl (slice 31 12 z) 12.
Definition isa_imm_J (z : Z) : Z :=
  sN 21 (Z.lor (Z.shiftl (slice 31 31 z) 20) (Z.lor (Z.shiftl (slice 19 12 z) 12)
        (Z.lor (Z.shiftl (slice 20 20 z) 11) (Z.shiftl (slice 30 21 z) 1)))).

Ltac unfold_fields :=
  unfold I_imm, S_imm, B_imm, U_imm, J_imm, isa_imm_I, isa_imm_S, isa_imm_B, isa_imm_U, isa_imm_J;
  cbn [bf_seq.decode pl ph];
  repeat rewrite bf_range.decode_unsigned by (field_wf || done);
  repeat rewrite bf_range.decode_signed by (field_wf || done);
  unfold cast, slice, bf_range.size; cbn [isigned ibits make_unsigned Ti16 Ti32 Tu32].

Lemma I_imm_isa raw : I_imm raw = isa_imm_I raw.
Proof. unfold_fields. bits. Qed.

Lemma S_imm_isa raw : S_imm raw = isa_imm_S raw.
Proof. unfold_fields. bits. Qed.

Lemma U_imm_isa raw : U_imm raw = isa_imm_U raw.
Proof. unfold_fields. bits. Qed.
Lemma B_imm_isa raw : B_imm raw = isa_imm_B raw.
Proof. unfold_fields. bits. Qed.
Lemma J_imm_isa raw : J_imm raw = isa_imm_J raw.
Proof. unfold_fields. bits. Qed.

Ltac imm_bound := unfold isa_imm_I, isa_imm_S, isa_imm_B, isa_imm_J;
  match goal with |- context [sN ?w ?z] => pose proof (sN_range w z ltac:(lia)) end;
  unfold in_s in *; cbn in *; lia.

Lemma I_imm_range raw : -2048 <= I_imm raw < 2048.
Proof. rewrite I_imm_isa. imm_bound. Qed.
Lemma S_imm_range raw : -2048 <= S_imm raw < 2048.
Proof. rewrite S_imm_isa. imm_bound. Qed.
Lemma B_imm_range raw : -4096 <= B_imm raw < 4096.
Proof. rewrite B_imm_isa. imm_bound. Qed.
Lemma J_imm_range raw : -1048576 <= J_imm raw < 1048576.
Proof. rewrite J_imm_isa. imm_bound. Qed.
Lemma U_imm_range raw : in_u 32 (U_imm raw).
Proof. apply uN_range. lia. Qed.
#[export] Hint Resolve I_imm_range S_imm_range B_imm_range J_imm_range U_imm_range : rvdbt.

(** The immediates assembled by the [bf_range]/[bf_seq] descriptions of
    the formats are the sign-extended concatenations of the ISA manual, for
    every instruction word. *)
Theorem immediates_isa (raw : Z) :
  I_imm raw = isa_imm_I raw /\ S_imm raw = isa_imm_S raw /\ B_imm raw = isa_imm_B raw /\
  U_imm raw = isa_imm_U raw /\ J_imm raw = isa_imm_J raw.
Proof. auto using I_imm_isa, S_imm_isa, B_imm_isa, U_imm_isa, J_imm_isa. Qed.

End insn.
