(* ===== verification/RV32Decode.v ===== *)
(** * The instruction decoder (src/dbt/guest/rv32_decode.h)

    [Decoder<Provider>::Decode] is one nest of [switch] statements over the
    fields of the instruction word.  The interpreter, the translator and the
    analyser instantiate the same template with different providers, so the
    model returns the opcode itself ([Decoder<insn::Op>]). *)

From stdpp Require Import base tactics numbers list.
From S2P Require Import Prelude Bitfield RV32Insn.

Import insn.

(** A C++ [switch] with returning cases. *)
Fixpoint switch {A} (z : Z) (cases : list (Z * A)) (dflt : A) : A :=
  match cases with
  | [] => dflt
  | (k, a) :: cs => if z =? k then a else switch z cs dflt
  end.

Module Decoder.

Definition decode_bcc (in_ : Z) : Op :=
  switch (funct3 in_)
    [(0, _beq); (1, _bne); (4, _blt); (5, _bge); (6, _bltu); (7, _bgeu)] _ill.

Definition decode_load (in_ : Z) : Op :=
  switch (funct3 in_) [(0, _lb); (1, _lh); (2, _lw); (4, _lbu); (5, _lhu)] _ill.

Definition decode_store (in_ : Z) : Op :=
  switch (funct3 in_) [(0, _sb); (1, _sh); (2, _sw)] _ill.

Definition decode_arithm_i (in_ : Z) : Op :=
  switch (funct3 in_)
    [(0, _addi); (2, _slti); (3, _sltiu); (4, _xori); (6, _ori); (7, _andi); (1, _slli);
     (5, switch (funct7 in_) [(0, _srli); (32, _srai)] _ill)] _ill.

Definition decode_arithm_r (in_ : Z) : Op :=
  switch (funct3 in_)
    [(0, switch (funct7 in_) [(0, _add); (32, _sub)] _ill);
     (1, _sll); (2, _slt); (3, _sltu); (4, _xor);
     (5, switch (funct7 in_) [(0, _srl); (32, _sra)] _ill);
     (6, _or); (7, _and)] _ill.

Definition decode_fence (in_ : Z) : Op :=
  switch (funct3 in_) [(0, _fence); (1, _fencei)] _ill.

Definition decode_system (in_ : Z) : Op :=
  switch (Z.lor (Z.lor (funct3 in_) (rd in_)) (rs1 in_))
    [(0, switch (funct12 in_) [(0, _ecall); (1, _ebreak)] _ill)] _ill.

Definition decode_amo (in_ : Z) : Op :=
  switch (funct3 in_)
    [(2, switch (Z.shiftr (funct7 in_) 2)
           [(2, _lrw); (3, _scw); (1, _amoswapw); (0, _amoaddw); (4, _amoxorw);
            (12, _amoandw); (8, _amoorw); (16, _amominw); (20, _amomaxw);
            (24, _amominuw); (28, _amomaxuw)] _ill)] _ill.

Definition Decode (in_ : Z) : Op :=
  switch (opcode in_)
    [(0x37, _lui); (0x17, _auipc); (0x6f, _jal);
     (0x67, switch (funct3 in_) [(0, _jalr)] _ill);
     (0x63, decode_bcc in_);
     (0x03, decode_load in_);
     (0x23, decode_store in_);
     (0x13, decode_arithm_i in_);
     (0x33, decode_arithm_r in_);
     (0x0f, decode_fence in_);
     (0x73, decode_system in_);
     (0x2f, decode_amo in_)] _ill.

(** ** The encodings of the ISA manual

    The instruction listings of the RISC-V manual (RV32I, Zifencei, RV32A) give
    the fixed bits of each instruction; [isa_mask] are their positions and
    [isa_match] their values, written here as in the manual's opcode tables and
    not from the decoder.  The [R]-type instructions and the shifts by an
    immediate fix [funct7], [ecall] and [ebreak] all bits, [lr.w] has a zero
    in place of [rs2], and the atomics leave [aq] and [rl] free. *)
Definition isa_mask (op : Op) : Z :=
  match op with
  | _ill => 0
  | _lui | _auipc | _jal => 0x7f
  | _jalr | _beq | _bne | _blt | _bge | _bltu | _bgeu
  | _lb | _lh | _lw | _lbu | _lhu | _sb | _sh | _sw
  | _addi | _slti | _sltiu | _xori | _ori | _andi | _fence | _fencei => 0x707f
  | _slli | _srli | _srai
  | _add | _sub | _sll | _slt | _sltu | _xor | _srl | _sra | _or | _and => 0xfe00707f
  | _ecall | _ebreak => 0xffffffff
  | _lrw => 0xf9f0707f
  | _scw | _amoswapw | _amoaddw | _amoxorw | _amoandw | _amoorw
  | _amominw | _amomaxw | _amominuw | _amomaxuw => 0xf800707f
  end.

Definition isa_match (op : Op) : Z :=
  match op with
  | _ill => 0
  | _lui => 0x37 | _auipc => 0x17 | _jal => 0x6f | _jalr => 0x67
  | _beq => 0x63 | _bne => 0x1063 | _blt => 0x4063 | _bge => 0x5063
  | _bltu => 0x6063 | _bgeu => 0x7063
  | _lb => 0x3 | _lh => 0x1003 | _lw => 0x2003 | _lbu => 0x4003 | _lhu => 0x5003
  | _sb => 0x23 | _sh => 0x1023 | _sw => 0x2023
  | _addi => 0x13 | _slti => 0x2013 | _sltiu => 0x3013 | _xori => 0x4013
  | _ori => 0x6013 | _andi => 0x7013
  | _slli => 0x1013 | _srai => 0x40005013 | _srli => 0x5013
  | _sub => 0x40000033 | _add => 0x33 | _sll => 0x1033 | _slt => 0x2033
  | _sltu => 0x3033 | _xor => 0x4033 | _sra => 0x40005033 | _srl => 0x5033
  | _or => 0x6033 | _and => 0x7033
  | _fence => 0xf | _fencei => 0x100f | _ecall => 0x73 | _ebreak => 0x100073
  | _lrw => 0x1000202f | _scw => 0x1800202f | _amoswapw => 0x800202f
  | _amoaddw => 0x202f | _amoxorw => 0x2000202f | _amoandw => 0x6000202f
  | _amoorw => 0x4000202f | _amominw => 0x8000202f | _amomaxw => 0xa000202f
  | _amominuw => 0xc000202f | _amomaxuw => 0xe000202f
  end.

(** The word is an encoding of [op]. *)
Definition isa_matches (op : Op) (raw : Z) : bool := Z.land raw (isa_mask op) =? isa_match op.

(** The fixed bits the decoder does not look at: [funct7] of seven
    instructions and the zero in place of [rs2] of [lr.w]. *)
Definition ignored (op : Op) : Z :=
  match op with
  | _sll | _slt | _sltu | _xor | _or | _and | _slli => 0xfe000000
  | _lrw => 0x01f00000
  | _ => 0
  end.
(** The word has the other fixed bits of [op]. *)
Definition checked (op : Op) : Z := Z.ldiff (isa_mask op) (ignored op).
Definition accepts (op : Op) (raw : Z) : bool := Z.land raw (checked op) =? isa_match op.

Lemma isa_matches_accepts op raw :
  isa_matches op raw = accepts op raw && (Z.land raw (ignored op) =? 0).
Proof.
  unfold isa_matches, accepts. assert (E : Z.land raw (isa_mask op) = Z.lor (Z.land raw (checked op)) (Z.land raw (ignored op))).
  { rewrite <- Z.land_lor_distr_r. f_equal. by destruct op. }
  assert (Hm : Z.land (isa_match op) (checked op) = isa_match op /\ Z.land (isa_match op) (ignored op) = 0 /\ Z.land (checked op) (ignored op) = 0)
    by (by destruct op). destruct Hm as (Hm1 & Hm2 & Hm3).
  rewrite E. apply Bool.eq_iff_eq_true. rewrite andb_true_iff, !Z.eqb_eq. split; [|intros [-> ->]; apply Z.lor_0_r].
  intros Hr. split.
  - rewrite <- Hm1, <- Hr, Z.land_lor_distr_l, <- !Z.land_assoc, Z.land_diag, (Z.land_comm (ignored op)), Hm3, Z.land_0_r. by rewrite Z.lor_0_r.
  - rewrite <- Hm2, <- Hr, Z.land_lor_distr_l, <- !Z.land_assoc, Z.land_diag, Hm3, Z.land_0_r. done.
Qed.

(** The checked bits as fields. *)
Definition checked_fields (op : Op) : list (Z * Z) :=
  match op with
  | _ill => []
  | _lui | _auipc | _jal => [(6, 0)]
  | _srli | _srai | _add | _sub | _srl | _sra => [(6, 0); (14, 12); (31, 25)]
  | _ecall | _ebreak => [(6, 0); (14, 12); (11, 7); (19, 15); (31, 20)]
  | _lrw | _scw | _amoswapw | _amoaddw | _amoxorw | _amoandw | _amoorw
  | _amominw | _amomaxw | _amominuw | _amomaxuw => [(6, 0); (14, 12); (31, 27)]
  | _ => [(6, 0); (14, 12)]
  end.
Fixpoint fields_mask (fs : list (Z * Z)) : Z :=
  match fs with
  | [] => 0
  | (h, l) :: fs => Z.lor (Z.shiftl (Z.ones (h - l + 1)) l) (fields_mask fs)
  end.
Lemma checked_mask op : fields_mask (checked_fields op) = checked op.
Proof. by destruct op. Qed.

Lemma land_field_eq (h l x y : Z) :
  0 <= l <= h ->
  Z.land x (Z.shiftl (Z.ones (h - l + 1)) l) = Z.land y (Z.shiftl (Z.ones (h - l + 1)) l)
  <-> slice h l x = slice h l y.
Proof.
  intros Hl. unfold slice. split; intros E; apply Z.bits_inj'; intros n Hn.
  - assert (E' := f_equal (fun z => Z.testbit z (n + l)) E). cbv beta in E'. revert E'.
    bits_norm; rewrite ?Bool.andb_true_r; done.
  - destruct (decide (l <= n <= h)) as [Hin|Hout].
    + assert (E' := f_equal (fun z => Z.testbit z (n - l)) E). cbv beta in E'. revert E'.
      bits_norm. replace (n - l + l) with n by lia. by intros ->.
    + bits_norm; by rewrite ?Bool.andb_false_r.
Qed.

Lemma land_lor_eq (x y a b : Z) :
  Z.land x (Z.lor a b) = Z.land y (Z.lor a b)
  <-> Z.land x a = Z.land y a /\ Z.land x b = Z.land y b.
Proof.
  rewrite !Z.land_lor_distr_r. split; [|by intros [-> ->]].
  intros E. split; apply Z.bits_inj'; intros n Hn;
    assert (E' := f_equal (fun z => Z.testbit z n) E); cbv beta in E'; revert E';
    autorewrite with rvbits; destruct (Z.testbit x n), (Z.testbit y n), (Z.testbit a n),
      (Z.testbit b n); done.
Qed.

Lemma land_fields_eq (fs : list (Z * Z)) (x y : Z) :
  Forall (fun f => 0 <= snd f <= fst f) fs ->
  Z.land x (fields_mask fs) = Z.land y (fields_mask fs)
  <-> Forall (fun f => slice (fst f) (snd f) x = slice (fst f) (snd f) y) fs.
Proof.
  induction 1 as [|[h l] fs Hf Hfs IH]; cbn [fields_mask].
  - rewrite !Z.land_0_r. split; [constructor|done].
  - rewrite land_lor_eq, land_field_eq, IH, Forall_cons by done. done.
Qed.

Lemma accepts_fields (op : Op) (raw : Z) :
  accepts op raw = true <->
  Forall (fun f => slice (fst f) (snd f) raw = slice (fst f) (snd f) (isa_match op)) (checked_fields op).
Proof.
  unfold accepts. rewrite <- checked_mask, Z.eqb_eq.
  rewrite <- land_fields_eq by (destruct op; repeat constructor; cbn; lia).
  by replace (Z.land (isa_match op) (fields_mask (checked_fields op))) with (isa_match op)
    by (by destruct op).
Qed.

Lemma slice_funct7_amo (raw : Z) : Z.shiftr (funct7 raw) 2 = slice 31 27 raw.
Proof. rewrite funct7_slice. unfold slice. bits. Qed.

Lemma lor3_zero (a b c : Z) :
  0 <= a -> 0 <= b -> 0 <= c -> Z.lor (Z.lor a b) c = 0 <-> a = 0 /\ b = 0 /\ c = 0.
Proof. intros. rewrite !Z.lor_eq_0_iff. tauto. Qed.

Lemma system_fields (raw : Z) :
  Z.lor (Z.lor (funct3 raw) (rd raw)) (rs1 raw) = 0
  <-> slice 14 12 raw = 0 /\ slice 11 7 raw = 0 /\ slice 19 15 raw = 0.
Proof.
  rewrite funct3_slice, rd_slice, rs1_slice.
  apply lor3_zero; apply slice_range; lia.
Qed.

(** What the nest of switches has established when it returns [op]. *)
Definition decoded (raw : Z) (op : Op) : Prop := op = _ill \/ accepts op raw = true.

Lemma decoded_fields (raw : Z) (op : Op) :
  Forall (fun f => slice (fst f) (snd f) raw = slice (fst f) (snd f) (isa_match op)) (checked_fields op) ->
  decoded raw op.
Proof. right. by apply accepts_fields. Qed.

(** Descend one [switch], turning the taken case into a field equation. *)
Ltac decode_switch :=
  cbn [switch];
  repeat match goal with
    | |- decoded _ (if ?z =? ?k then _ else _) => destruct (Z.eqb_spec z k) as [?|_]
    end;
  try match goal with |- decoded _ _ill => left; reflexivity end;
  repeat match goal with
    | H : _ = _ |- _ =>
        progress rewrite ?opcode_slice, ?slice_funct7_amo, ?system_fields, ?funct3_slice,
          ?funct7_slice, ?funct12_slice in H
    end.

Ltac decode_leaf :=
  apply decoded_fields; cbn [checked_fields]; rewrite !Forall_cons, Forall_nil; cbn [fst snd];
  repeat match goal with H : _ /\ _ |- _ => destruct H end;
  repeat split;
  match goal with H : slice ?h ?l ?x = _ |- slice ?h ?l ?x = _ => rewrite H; reflexivity end.

Lemma Decode_sound (raw : Z) : decoded raw (Decode raw).
Proof.
  unfold Decode. decode_switch; try decode_leaf;
    unfold decode_bcc, decode_load, decode_store, decode_arithm_i, decode_arithm_r,
      decode_fence, decode_system, decode_amo;
    decode_switch; try decode_leaf.
Qed.

Lemma Decode_complete (op : Op) (raw : Z) :
  op <> _ill -> accepts op raw = true -> Decode raw = op.
Proof.
  intros Hop H%accepts_fields.
  unfold Decode, decode_bcc, decode_load, decode_store, decode_arithm_i, decode_arithm_r,
    decode_fence, decode_system, decode_amo.
  destruct op; try done; cbn [checked_fields] in H; rewrite ?Forall_cons in H; cbn [fst snd] in H;
    repeat match goal with H : _ /\ _ |- _ => destruct H end;
    rewrite ?opcode_slice, ?slice_funct7_amo, ?funct12_slice, ?funct7_slice, ?funct3_slice, ?rd_slice, ?rs1_slice;
    repeat match goal with H : slice _ _ raw = _ |- _ => rewrite H; clear H end; reflexivity.
Qed.

Lemma Decode_accepts (raw : Z) (op : Op) : op <> _ill -> Decode raw = op <-> accepts op raw = true.
Proof.
  intros Hop. split; [|by apply Decode_complete]. intros <-. by destruct (Decode_sound raw).
Qed.
Lemma Decode_ill (raw : Z) : Decode raw = _ill <-> forall op, op <> _ill -> accepts op raw = false.
Proof.
  split.
  - intros E op Hop. apply not_true_is_false. intros Hm. by rewrite (Decode_complete op raw Hop Hm) in E.
  - intros H. destruct (decide (Decode raw = _ill)) as [|Hne]; [done|]. destruct (Decode_sound raw) as [E|E]; [done|]. by rewrite (H _ Hne) in E.
Qed.

(** No instruction of the manual has this encoding. *)
Definition reserved (raw : Z) : Prop := forall op, op <> _ill -> isa_matches op raw = false.

(** C32 The decoder against the opcode tables of the ISA manual (RV32I,
    Zifencei and RV32A).  Every encoding of an instruction decodes to that
    instruction; a word that decodes to an instruction has all its fixed bits
    except those of [ignored], and is its encoding or reserved; it is its
    encoding for every instruction but the seven whose [funct7] and [lr.w],
    whose [rs2] the decoder does not look at; and [ill] is the answer only for
    reserved words. *)
Theorem Decode_spec (raw : Z) (op : Op) :
  (op <> _ill -> isa_matches op raw = true -> Decode raw = op) /\
  (op <> _ill -> Decode raw = op <-> Z.land raw (Z.ldiff (isa_mask op) (ignored op)) = isa_match op) /\
  (Decode raw = op -> isa_matches op raw = true \/ reserved raw) /\
  (op ∉ [_ill; _slli; _sll; _slt; _sltu; _xor; _or; _and; _lrw] -> Decode raw = op <-> isa_matches op raw = true) /\
  (Decode raw = _ill -> reserved raw).
Proof.
  assert (Himp : forall op', op' <> _ill -> isa_matches op' raw = true -> Decode raw = op').
  { intros op' Hop' Hm. rewrite isa_matches_accepts in Hm. apply andb_true_iff in Hm as [Hm _]. by apply Decode_complete. }
  split; [by apply Himp|]. split; [|split; [|split]].
  - intros Hop. rewrite (Decode_accepts raw op Hop). unfold accepts, checked. by rewrite Z.eqb_eq.
  - intros <-. destruct (isa_matches (Decode raw) raw) eqn:E; [by left|]. right. intros op' Hop'. apply not_true_is_false.
    intros Hm. by rewrite (Himp op' Hop' Hm), Hm in E.
  - intros Hnot. assert (Hop : op <> _ill) by (intros ->; apply Hnot, list_elem_of_here). rewrite (Decode_accepts raw op Hop).
    rewrite isa_matches_accepts. assert (E : ignored op = 0) by (destruct op; try done; exfalso; apply Hnot, (bool_decide_unpack _); vm_compute; exact I).
    by rewrite E, Z.land_0_r, andb_true_r.
  - intros E op' Hop'. apply not_true_is_false. intros Hm. by rewrite (Himp op' Hop' Hm) in E.
Qed.

(** The words of the M extension (opcode [0x33], [funct7 = 1]) with
    [funct3 = 4] ([div]) decode as [xor]: the decoder does not look at
    [funct7] there. *)
Lemma Decode_ignores_funct7 (raw : Z) :
  opcode raw = 0x33 -> funct7 raw = 1 -> funct3 raw = 4 -> Decode raw = _xor.
Proof.
  intros Ho _ H3. unfold Decode. rewrite Ho. cbn [switch Z.eqb Pos.eqb].
  unfold decode_arithm_r. rewrite H3. reflexivity.
Qed.

Lemma Decode_ignores_funct7_witness : Decode 0x02c5c533 = _xor.
Proof. apply (Decode_ignores_funct7 0x02c5c533); reflexivity. Defined.

End Decoder.
