(* ===== verification/GuestState.v ===== *)
(** * Guest state (src/dbt/guest/rv32_cpu.h, the unaligned accesses of
    src/dbt/util/common.h)

    The architectural part of [CPUStateImpl] and the guest memory.  Guest
    memory is the host memory seen from [mmu::base]: a finite map from the
    byte offset to the byte, whose domain is what is mapped.  An access whose
    bytes are not all mapped is the [SIGSEGV] path of the program. *)

From stdpp Require Import base tactics numbers list gmap.
From S2P Require Import Prelude.

(** ** CPUStateImpl *)
Inductive TrapCode := NONE | UNALIGNED_IP | ILLEGAL_INSN | EBREAK | ECALL.

#[export] Instance TrapCode_eq_dec : EqDecision TrapCode.
Proof. solve_decision. Defined.

Definition gpr_num : nat := 32.
Definition TB_MAX_INSNS : Z := 64.

Record CPUState := mkCPU { gpr : list Z; ip : Z; trapno : TrapCode }.

(** [gpr{}], [ip{}], [trapno{}]. *)
Definition CPUState_init : CPUState := mkCPU (replicate gpr_num 0) 0 NONE.

Definition set_gpr (r v : Z) (s : CPUState) : CPUState :=
  mkCPU (<[Z.to_nat r := v]> (gpr s)) (ip s) (trapno s).
Definition set_ip (v : Z) (s : CPUState) : CPUState := mkCPU (gpr s) v (trapno s).
Definition set_trapno (t : TrapCode) (s : CPUState) : CPUState := mkCPU (gpr s) (ip s) t.
Definition get_gpr (s : CPUState) (r : Z) : Z := gpr s !!! Z.to_nat r.

(** [IsTrapPending]: the test as written, [trapno == TrapCode::NONE]. *)
Definition IsTrapPending (s : CPUState) : bool := bool_decide (trapno s = NONE).

(** Well-formed states: 32 registers of 32 bits, [x0] reads as zero. *)
Record cpu_wf (s : CPUState) : Prop := {
  wf_len : length (gpr s) = gpr_num;
  wf_gpr : Forall (in_u 32) (gpr s);
  wf_x0 : get_gpr s 0 = 0;
  wf_ip : in_u 32 (ip s) }.

Lemma cpu_wf_init : cpu_wf CPUState_init.
Proof.
  split; try done.
  - cbn [gpr CPUState_init]. apply Forall_replicate. unfold in_u. lia.
Qed.

Lemma get_gpr_range (s : CPUState) (r : Z) : Forall (in_u 32) (gpr s) -> in_u 32 (get_gpr s r).
Proof.
  intros H. unfold get_gpr. destruct (gpr s !! Z.to_nat r) as [v|] eqn:E.
  - rewrite (list_lookup_total_correct _ _ _ E). eapply Forall_lookup_1; eauto.
  - rewrite list_lookup_total_alt, E. split; vm_compute; congruence.
Qed.

Lemma get_set_gpr (s : CPUState) (r r' v : Z) :
  length (gpr s) = gpr_num -> 0 <= r < 32 -> 0 <= r' ->
  get_gpr (set_gpr r v s) r' = if bool_decide (r = r') then v else get_gpr s r'.
Proof.
  intros Hl Hr Hr'. unfold get_gpr, set_gpr. cbn [gpr].
  rewrite list_lookup_total_insert_any, Hl.
  do 2 case_bool_decide; try done; unfold gpr_num in *; lia.
Qed.

(** ** Memory *)
Notation mem := (gmap Z Z).

(** Little-endian read of [n] bytes. *)
Fixpoint load_le (n : nat) (m : mem) (a : Z) : option Z :=
  match n with
  | O => Some 0
  | S n => b ← m !! a; r ← load_le n m (a + 1); Some (Z.lor b (Z.shiftl r 8))
  end.

Fixpoint mapped (n : nat) (m : mem) (a : Z) : bool :=
  match n with
  | O => true
  | S n => bool_decide (is_Some (m !! a)) && mapped n m (a + 1)
  end.

Fixpoint put_le (n : nat) (m : mem) (a v : Z) : mem :=
  match n with
  | O => m
  | S n => put_le n (<[a := u8 v]> m) (a + 1) (Z.shiftr v 8)
  end.

(** A store either writes all its bytes or faults. *)
Definition store_le (n : nat) (m : mem) (a v : Z) : option mem :=
  if mapped n m a then Some (put_le n m a v) else None.

Definition isize (T : ity) : nat := Z.to_nat (ibits T / 8).

(** [unaligned_load<T>] and [unaligned_store<T>]. *)
Definition unaligned_load (T : ity) (m : mem) (a : Z) : option Z :=
  cast T <$> load_le (isize T) m a.
Definition unaligned_store (T : ity) (m : mem) (a v : Z) : option mem :=
  store_le (isize T) m a (cast T v).

(** Every mapped cell holds a byte. *)
Definition mem_wf (m : mem) : Prop := map_Forall (fun _ b => in_u 8 b) m.

Lemma mapped_lookup n m a k :
  mapped n m a = true -> 0 <= k < Z.of_nat n -> is_Some (m !! (a + k)).
Proof.
  revert a k. induction n as [|n IH]; intros a k H Hk; [lia|].
  cbn [mapped] in H. bool_to_prop. destruct (decide (k = 0)) as [->|].
  - by rewrite Z.add_0_r.
  - replace (a + k) with (a + 1 + (k - 1)) by lia. apply IH; [done|lia].
Qed.

Lemma mapped_ext n m m' a :
  (forall k, is_Some (m !! k) <-> is_Some (m' !! k)) -> mapped n m a = mapped n m' a.
Proof.
  intros H. revert a. induction n as [|n IH]; intros a; [done|].
  cbn [mapped]. rewrite IH. f_equal. by apply bool_decide_ext.
Qed.

Lemma put_le_lookup_ne n m a v b :
  b < a \/ a + Z.of_nat n <= b -> put_le n m a v !! b = m !! b.
Proof.
  revert m a v. induction n as [|n IH]; intros m a v Hb; [done|].
  cbn [put_le]. rewrite IH by lia. apply lookup_insert_ne. lia.
Qed.

Lemma load_le_ext n m m' a :
  (forall b, a <= b < a + Z.of_nat n -> m !! b = m' !! b) -> load_le n m a = load_le n m' a.
Proof.
  revert a. induction n as [|n IH]; intros a H; [done|].
  cbn [load_le]. rewrite H by lia. rewrite (IH (a + 1)); [done|]. intros; apply H; lia.
Qed.

(** A store is invisible to a load of other bytes. *)
Lemma load_le_put_ne n k m a b v :
  a + Z.of_nat n <= b \/ b + Z.of_nat k <= a -> load_le k (put_le n m a v) b = load_le k m b.
Proof. intros. apply load_le_ext. intros. apply put_le_lookup_ne. lia. Qed.

(** A load returns the low bytes of what was stored there. *)
Lemma load_le_put n m a v : load_le n (put_le n m a v) a = Some (uN (8 * Z.of_nat n) v).
Proof.
  revert m a v. induction n as [|n IH]; intros m a v.
  - cbn. f_equal. unfold uN. change (2 ^ _) with 1. by rewrite Z.mod_1_r.
  - cbn [load_le put_le]. rewrite put_le_lookup_ne by lia.
    rewrite lookup_insert_eq, IH. cbn [mbind option_bind]. f_equal. bits.
Qed.

Lemma mem_wf_put n m a v : mem_wf m -> mem_wf (put_le n m a v).
Proof.
  revert m a v. induction n as [|n IH]; intros m a v H; [done|].
  cbn [put_le]. apply IH. apply map_Forall_insert_2; [|done]. apply uN_range. lia.
Qed.

Lemma load_le_range n m a v :
  mem_wf m -> load_le n m a = Some v -> in_u (8 * Z.of_nat n) v.
Proof.
  intros Hm. revert a v. induction n as [|n IH]; intros a v.
  - cbn. intros [= <-]. split; [lia|]. apply pow2_pos. lia.
  - cbn [load_le]. intros H. apply bind_Some in H as (b & Hb & H).
    apply bind_Some in H as (r & Hr & [= <-]).
    pose proof (Hm _ _ Hb : in_u 8 b) as Hb8. pose proof (IH _ _ Hr) as Hr'.
    replace (Z.lor b (Z.shiftl r 8)) with (uN (8 * Z.of_nat (S n)) (Z.lor b (Z.shiftl r 8))).
    { apply uN_range. lia. }
    apply Z.bits_inj'. intros k Hk. autorewrite with rvbits.
    destruct (Z.ltb_spec k (8 * Z.of_nat (S n))); [done|].
    rewrite (testbit_high 8 b) by (done || lia).
    rewrite (testbit_high (8 * Z.of_nat n) r) by (done || lia). split_cmp; done.
Qed.

Lemma load_le_mapped n m a : mapped n m a = true <-> is_Some (load_le n m a).
Proof.
  revert a. induction n as [|n IH]; intros a; cbn [mapped load_le]; [by split|].
  rewrite andb_true_iff, bool_decide_eq_true, IH. split.
  - intros [[b ->] [r ->]]. by eexists.
  - intros [v H]. apply bind_Some in H as (b & Hb & H).
    apply bind_Some in H as (r & Hr & _). rewrite Hb, Hr. by split; eexists.
Qed.

Lemma store_le_Some n m a v m' :
  store_le n m a v = Some m' <-> mapped n m a = true /\ m' = put_le n m a v.
Proof. unfold store_le. destruct (mapped n m a); split; [by intros [= <-]|by intros [_ ->]|done|by intros []]. Qed.

(** A memory image: the words [ws] from [base] on. *)
Fixpoint mem_of_words (base : Z) (ws : list Z) : mem :=
  match ws with
  | [] => ∅
  | w :: ws => put_le 4 (mem_of_words (base + 4) ws) base w
  end.

Lemma mem_of_words_wf base ws : mem_wf (mem_of_words base ws).
Proof.
  revert base. induction ws as [|w ws IH]; intros base; [by apply map_Forall_empty|].
  cbn [mem_of_words]. by apply mem_wf_put.
Qed.
