(* ===== verification/Interp.v ===== *)
(** * The interpreter (src/dbt/guest/rv32_interp.cpp)

    One handler per opcode.  A handler works on the [CPUState], on the local
    copy [gip] of the guest program counter and on guest memory, and either
    returns, leaves through [RaiseTrap] (a [siglongjmp] to [Execute]), or
    touches unmapped memory (the [SIGSEGV] handler, which panics).  Calls
    outside the contract of a [std::atomic_ref] member are [Undefined]. *)

From stdpp Require Import base tactics numbers list gmap.
From S2P Require Import Prelude Bitfield RV32Insn RV32Decode GuestState.

Import insn.

(** ** The handler monad *)
Record hstate := mkH { h_cpu : CPUState; h_gip : Z; h_mem : mem }.

Inductive outcome (A : Type) :=
| Ret (a : A) (σ : hstate)
| Raised (σ : hstate)
| Faulted (σ : hstate)
| Undefined.
Arguments Ret {_} _ _.
Arguments Raised {_} _.
Arguments Faulted {_} _.
Arguments Undefined {_}.

Definition Hm (A : Type) : Type := hstate -> outcome A.

#[export] Instance Hm_ret : MRet Hm := fun A a σ => Ret a σ.
#[export] Instance Hm_bind : MBind Hm := fun A B f c σ =>
  match c σ with
  | Ret a σ' => f a σ'
  | Raised σ' => Raised σ'
  | Faulted σ' => Faulted σ'
  | Undefined => Undefined
  end.

Definition h_get : Hm hstate := fun σ => Ret σ σ.
Definition h_put (σ : hstate) : Hm unit := fun _ => Ret tt σ.
Definition h_undefined {A} : Hm A := fun _ => Undefined.

(** [s->gpr[r]] read and written, [GET_GIP], [SET_GIP], [s->ip = ...]. *)
Definition GPR (r : Z) : Hm Z := σ ← h_get; mret (get_gpr (h_cpu σ) r).
Definition SET_GPR (r v : Z) : Hm unit :=
  σ ← h_get; h_put (mkH (set_gpr r (u32 v) (h_cpu σ)) (h_gip σ) (h_mem σ)).
Definition GET_GIP : Hm Z := σ ← h_get; mret (h_gip σ).
Definition SET_GIP (v : Z) : Hm unit :=
  σ ← h_get; h_put (mkH (h_cpu σ) (u32 v) (h_mem σ)).
Definition STATE_IP_GIP : Hm unit :=
  σ ← h_get; h_put (mkH (set_ip (h_gip σ) (h_cpu σ)) (h_gip σ) (h_mem σ)).

(** [RAISE_TRAP]: [s->ip = gip; s->trapno = t; RaiseTrap()]. *)
Definition RaiseTrap {A} : Hm A := fun σ => Raised σ.
Definition RAISE_TRAP (t : TrapCode) : Hm unit :=
  STATE_IP_GIP;;
  (σ ← h_get; h_put (mkH (set_trapno t (h_cpu σ)) (h_gip σ) (h_mem σ)));;
  RaiseTrap.

Definition load_mem (T : ity) (a : Z) : Hm Z := fun σ =>
  match unaligned_load T (h_mem σ) a with
  | Some v => Ret v σ
  | None => Faulted σ
  end.
Definition store_mem (T : ity) (a v : Z) : Hm unit := fun σ =>
  match unaligned_store T (h_mem σ) a v with
  | Some m => Ret tt (mkH (h_cpu σ) (h_gip σ) m)
  | None => Faulted σ
  end.

(** ** Handler bodies

    [HANDLER_BCC(name, type, cond)]. *)
Definition HANDLER_BCC (T : ity) (cond : Z -> Z -> bool) (i : Z) : Hm unit :=
  a ← GPR (rs1 i); b ← GPR (rs2 i);
  let pred := cond (cast T a) (cast T b) in
  if negb pred then
    gip ← GET_GIP; SET_GIP (gip + 4)
  else
    (if negb (Z.rem (B_imm i) 4 =? 0) then RAISE_TRAP UNALIGNED_IP else mret tt);;
    gip ← GET_GIP; SET_GIP (gip + B_imm i).

Definition HANDLER_Load (T : ity) (i : Z) : Hm unit :=
  a ← GPR (rs1 i);
  v ← load_mem T (u32 (a + I_imm i));
  SET_GPR (rd i) v.

Definition HANDLER_Store (T : ity) (i : Z) : Hm unit :=
  a ← GPR (rs1 i); v ← GPR (rs2 i);
  store_mem T (u32 (a + S_imm i)) v.

Definition HANDLER_ArithmRR (T : ity) (op : Z -> Z -> Z) (i : Z) : Hm unit :=
  a ← GPR (rs1 i); b ← GPR (rs2 i);
  SET_GPR (rd i) (op (cast T a) (cast T b)).

Definition HANDLER_ArithmRI (T : ity) (op : Z -> Z -> Z) (i : Z) : Hm unit :=
  a ← GPR (rs1 i);
  SET_GPR (rd i) (op (cast T a) (cast T (I_imm i))).

Definition HANDLER_Unimpl (i : Z) : Hm unit := RAISE_TRAP ILLEGAL_INSN.

(** The C operators the handlers are instantiated with; a comparison gives
    an [int]. *)
Definition b2z (b : bool) : Z := if b then 1 else 0.
Definition op_lt (a b : Z) : Z := b2z (a <? b).
Definition neqb (a b : Z) : bool := negb (a =? b).
Definition gebZ (a b : Z) : bool := b <=? a.

Definition Impl_lui (i : Z) : Hm unit := SET_GPR (rd i) (U_imm i).
Definition Impl_auipc (i : Z) : Hm unit :=
  gip ← GET_GIP; SET_GPR (rd i) (U_imm i + gip).
Definition Impl_jal (i : Z) : Hm unit :=
  (if negb (Z.rem (J_imm i) 4 =? 0) then RAISE_TRAP UNALIGNED_IP else mret tt);;
  gip ← GET_GIP;
  SET_GPR (rd i) (gip + 4);;
  SET_GIP (gip + J_imm i).
Definition Impl_jalr (i : Z) : Hm unit :=
  a ← GPR (rs1 i);
  let target := Z.land (u32 (a + I_imm i)) (u32 (Z.lnot 1)) in
  (if negb (Z.rem target 4 =? 0) then RAISE_TRAP UNALIGNED_IP else mret tt);;
  gip ← GET_GIP;
  SET_GPR (rd i) (gip + 4);;
  SET_GIP target.
Definition Impl_slli (i : Z) : Hm unit :=
  a ← GPR (rs1 i); SET_GPR (rd i) (u32 (Z.shiftl (u32 a) (IS_imm i))).
Definition Impl_srai (i : Z) : Hm unit :=
  a ← GPR (rs1 i); SET_GPR (rd i) (Z.shiftr (i32 a) (IS_imm i)).
Definition Impl_srli (i : Z) : Hm unit :=
  a ← GPR (rs1 i); SET_GPR (rd i) (Z.shiftr (u32 a) (IS_imm i)).
Definition Impl_sll (i : Z) : Hm unit :=
  a ← GPR (rs1 i); b ← GPR (rs2 i); SET_GPR (rd i) (u32 (Z.shiftl (u32 a) (Z.land b 31))).
Definition Impl_sra (i : Z) : Hm unit :=
  a ← GPR (rs1 i); b ← GPR (rs2 i); SET_GPR (rd i) (Z.shiftr (i32 a) (Z.land b 31)).
Definition Impl_srl (i : Z) : Hm unit :=
  a ← GPR (rs1 i); b ← GPR (rs2 i); SET_GPR (rd i) (Z.shiftr (u32 a) (Z.land b 31)).
Definition Impl_ecall (i : Z) : Hm unit := RAISE_TRAP ECALL;; RaiseTrap.
Definition Impl_ebreak (i : Z) : Hm unit := RAISE_TRAP EBREAK;; RaiseTrap.

(** ** The A extension

    [std::atomic_ref] on a [u32]: the object must be aligned, and a load
    (store) must not be given a releasing (acquiring) order. *)
Inductive memory_order := mo_relaxed | mo_release | mo_acquire | mo_acq_rel.

Definition ApplyInsnA (h : memory_order -> Hm unit) (i : Z) : Hm unit :=
  switch (A_rlaq i)
    [(0, h mo_relaxed); (1, h mo_release); (2, h mo_acquire); (3, h mo_acq_rel)] h_undefined.

Definition atomic_ref (a : Z) : Hm Z := if a mod 4 =? 0 then mret a else h_undefined.

Definition atomic_load (mo : memory_order) (a : Z) : Hm Z :=
  match mo with
  | mo_release | mo_acq_rel => h_undefined
  | _ => load_mem Tu32 a
  end.
Definition atomic_store (mo : memory_order) (a v : Z) : Hm unit :=
  match mo with
  | mo_acquire | mo_acq_rel => h_undefined
  | _ => store_mem Tu32 a v
  end.
Definition atomic_exchange (mo : memory_order) (a v : Z) : Hm Z :=
  old ← load_mem Tu32 a; store_mem Tu32 a v;; mret old.
Definition atomic_fetch_add (mo : memory_order) (a v : Z) : Hm Z :=
  old ← load_mem Tu32 a; store_mem Tu32 a (u32 (old + v));; mret old.

(** [compare_exchange_weak(cur, val)]: [weak] says whether this call fails
    spuriously; a failing call reloads [cur]. *)
Definition compare_exchange_weak (weak : bool) (a cur val : Z) : Hm (bool * Z) :=
  old ← load_mem Tu32 a;
  if (old =? cur) && negb weak then store_mem Tu32 a val;; mret (true, cur)
  else mret (false, old).

(** [while (!a.compare_exchange_weak(cur, std::max(cur, rhs), MO));] with the
    spurious failures of the successive calls as [weaks]; the call after the
    listed ones does not fail spuriously. *)
Fixpoint amomax_loop (weaks : list bool) (a cur rhs : Z) : Hm unit :=
  '(ok, cur') ← compare_exchange_weak (default false (head weaks)) a cur (Z.max cur rhs);
  if ok : bool then mret tt
  else match weaks with
       | [] => h_undefined
       | _ :: weaks' => amomax_loop weaks' a cur' rhs
       end.

Definition Impl_lrw (i : Z) : Hm unit :=
  ApplyInsnA (fun mo => p ← GPR (rs1 i); a ← atomic_ref p;
                        v ← atomic_load mo a; SET_GPR (rd i) v) i.
Definition Impl_scw (i : Z) : Hm unit :=
  ApplyInsnA (fun mo => p ← GPR (rs1 i); a ← atomic_ref p;
                        v ← GPR (rs2 i); atomic_store mo a v;; SET_GPR (rd i) 0) i.
Definition Impl_amoswapw (i : Z) : Hm unit :=
  ApplyInsnA (fun mo => p ← GPR (rs1 i); a ← atomic_ref p;
                        v ← GPR (rs2 i); old ← atomic_exchange mo a v; SET_GPR (rd i) old) i.
Definition Impl_amoaddw (i : Z) : Hm unit :=
  ApplyInsnA (fun mo => p ← GPR (rs1 i); a ← atomic_ref p;
                        v ← GPR (rs2 i); old ← atomic_fetch_add mo a v; SET_GPR (rd i) old) i.
Definition Impl_amomaxuw (weaks : list bool) (i : Z) : Hm unit :=
  ApplyInsnA (fun mo => p ← GPR (rs1 i); a ← atomic_ref p;
                        cur ← atomic_load mo a; rhs ← GPR (rs2 i);
                        amomax_loop weaks a cur rhs) i.

(** ** Dispatch *)
Definition Impl (weaks : list bool) (op : Op) : Z -> Hm unit :=
  match op with
  | _ill => HANDLER_Unimpl
  | _lui => Impl_lui
  | _auipc => Impl_auipc
  | _jal => Impl_jal
  | _jalr => Impl_jalr
  | _beq => HANDLER_BCC Tu32 Z.eqb
  | _bne => HANDLER_BCC Tu32 neqb
  | _blt => HANDLER_BCC Ti32 Z.ltb
  | _bge => HANDLER_BCC Ti32 gebZ
  | _bltu => HANDLER_BCC Tu32 Z.ltb
  | _bgeu => HANDLER_BCC Tu32 gebZ
  | _lb => HANDLER_Load Ti8
  | _lh => HANDLER_Load Ti16
  | _lw => HANDLER_Load Ti32
  | _lbu => HANDLER_Load Tu8
  | _lhu => HANDLER_Load Tu16
  | _sb => HANDLER_Store Tu8
  | _sh => HANDLER_Store Tu16
  | _sw => HANDLER_Store Tu32
  | _addi => HANDLER_ArithmRI Tu32 Z.add
  | _slti => HANDLER_ArithmRI Ti32 op_lt
  | _sltiu => HANDLER_ArithmRI Tu32 op_lt
  | _xori => HANDLER_ArithmRI Tu32 Z.lxor
  | _ori => HANDLER_ArithmRI Tu32 Z.lor
  | _andi => HANDLER_ArithmRI Tu32 Z.land
  | _slli => Impl_slli
  | _srai => Impl_srai
  | _srli => Impl_srli
  | _sub => HANDLER_ArithmRR Tu32 Z.sub
  | _add => HANDLER_ArithmRR Tu32 Z.add
  | _sll => Impl_sll
  | _slt => HANDLER_ArithmRR Ti32 op_lt
  | _sltu => HANDLER_ArithmRR Tu32 op_lt
  | _xor => HANDLER_ArithmRR Tu32 Z.lxor
  | _sra => Impl_sra
  | _srl => Impl_srl
  | _or => HANDLER_ArithmRR Tu32 Z.lor
  | _and => HANDLER_ArithmRR Tu32 Z.land
  | _fence | _fencei => fun _ => mret tt
  | _ecall => Impl_ecall
  | _ebreak => Impl_ebreak
  | _lrw => Impl_lrw
  | _scw => Impl_scw
  | _amoswapw => Impl_amoswapw
  | _amoaddw => Impl_amoaddw
  | _amoxorw | _amoandw | _amoorw | _amominw | _amomaxw | _amominuw => HANDLER_Unimpl
  | _amomaxuw => Impl_amomaxuw weaks
  end.

(** [H_##name]: what the [HANDLER] macro puts around a body. *)
Definition Handler (weaks : list bool) (op : Op) (insn_raw : Z) : Hm unit :=
  (if has_flag op Flags.Trap || has_flag op Flags.MayTrap then STATE_IP_GIP else mret tt);;
  Impl weaks op insn_raw;;
  (if has_flag op Flags.HasRd then SET_GPR 0 0 else mret tt);;
  if has_flag op Flags.Branch then STATE_IP_GIP
  else gip ← GET_GIP; SET_GIP (gip + 4).

(** [qcgstub_rv32_##name]: the entry translated code calls. *)
Definition qcgstub_rv32 (weaks : list bool) (op : Op) (insn_raw : Z) (s : CPUState) (m : mem)
  : outcome unit :=
  match Handler weaks op insn_raw (mkH s (ip s) m) with
  | Ret _ σ => Ret tt (mkH (set_ip (h_gip σ) (h_cpu σ)) (h_gip σ) (h_mem σ))
  | o => o
  end.

(** ** Interpreter::Execute

    One turn of the dispatch loop: fetch at [vmem + gip], decode, run the
    handler. *)
Definition fetch (m : mem) (gip : Z) : option Z := load_le 4 m gip.

Definition dispatch (weaks : list bool) : Hm unit := fun σ =>
  match fetch (h_mem σ) (h_gip σ) with
  | None => Faulted σ
  | Some raw => Handler weaks (Decoder.Decode raw) raw σ
  end.

(** The loop leaves only through a trap or a fault: [None] says that [fuel]
    turns were made without leaving. *)
Fixpoint interp_loop (fuel : nat) (weaks : list bool) (σ : hstate) : option (outcome unit) :=
  match fuel with
  | O => None
  | S fuel =>
      match dispatch weaks σ with
      | Ret _ σ' => interp_loop fuel weaks σ'
      | o => Some o
      end
  end.

Definition Interpreter_Execute (fuel : nat) (weaks : list bool) (s : CPUState) (m : mem)
  : option (outcome unit) :=
  interp_loop fuel weaks (mkH s (ip s) m).
