(* ===== verification/InterpProofs.v ===== *)
(** * Correctness of the interpreter

    [triple] is the partial-correctness judgement of the handler monad, with
    one condition per way out; [Handler_triple] shows that the
    well-formedness of the CPU state (32 registers of 32 bits, [x0] zero) and
    of memory survives every handler, and [Interpreter_Execute_invariant] that
    it survives the loop. *)

From stdpp Require Import base tactics numbers list gmap.
From S2P Require Import Prelude Bitfield RV32Insn RV32Decode GuestState Interp.

Import insn.

(** ** A small program logic for the handler monad *)
Definition triple {A} (P : hstate -> Prop) (c : Hm A) (Q : A -> hstate -> Prop)
  (E : hstate -> Prop) : Prop :=
  forall σ, P σ -> match c σ with
                   | Ret a σ' => Q a σ'
                   | Raised σ' | Faulted σ' => E σ'
                   | Undefined => True
                   end.

Lemma triple_bind {A B} P (c : Hm A) (k : A -> Hm B) R Q E :
  triple P c R E -> (forall a, triple (R a) (k a) Q E) -> triple P (c ≫= k) Q E.
Proof.
  intros Hc Hk σ HP. specialize (Hc σ HP). unfold mbind, Hm_bind.
  destruct (c σ); [by apply Hk|done..].
Qed.

Lemma triple_ret {A} (a : A) (P : hstate -> Prop) Q E :
  (forall σ, P σ -> Q a σ) -> triple P (mret a) Q E.
Proof. intros HPQ σ HP. by apply HPQ. Qed.

Lemma triple_weaken {A} (P P' : hstate -> Prop) (c : Hm A) Q E :
  (forall σ, P σ -> P' σ) -> triple P' c Q E -> triple P c Q E.
Proof. intros HP Hc σ Hσ. by apply Hc, HP. Qed.

Lemma triple_if {A} (b : bool) P (c1 c2 : Hm A) Q E :
  triple P c1 Q E -> triple P c2 Q E -> triple P (if b then c1 else c2) Q E.
Proof. by destruct b. Qed.

(** [hinv]: everything well-formed; [hweak]: [x0] may hold a value until the
    [HasRd] epilogue resets it. *)
Definition hweak (σ : hstate) : Prop :=
  length (gpr (h_cpu σ)) = gpr_num /\ Forall (in_u 32) (gpr (h_cpu σ)) /\
  in_u 32 (ip (h_cpu σ)) /\ in_u 32 (h_gip σ) /\ mem_wf (h_mem σ).
Definition hinv (σ : hstate) : Prop := hweak σ /\ get_gpr (h_cpu σ) 0 = 0.

Lemma hinv_wf σ : hinv σ <-> cpu_wf (h_cpu σ) /\ in_u 32 (h_gip σ) /\ mem_wf (h_mem σ).
Proof.
  split; [intros ((Hl & Hg & Hi & Hp & Hm) & H0)|intros ([Hl Hg H0 Hi] & Hp & Hm)];
    repeat match goal with |- _ /\ _ => split | |- cpu_wf _ => split | |- hinv _ => split
      | |- hweak _ => split end; assumption.
Qed.

(** Run the primitive operations of the monad. *)
Ltac hunfold :=
  cbv beta iota zeta delta
    [mbind Hm_bind mret Hm_ret h_get h_put GPR SET_GPR GET_GIP SET_GIP STATE_IP_GIP RAISE_TRAP
     RaiseTrap h_undefined h_cpu h_gip h_mem gpr ip trapno set_gpr set_ip set_trapno].

(** Rebuild the invariant of a state whose untouched parts are hypotheses. *)
Ltac inv_split :=
  repeat match goal with
    | H : hinv _ |- _ => destruct H as [? ?]
    | H : hweak _ |- _ => destruct H as (? & ? & ? & ? & ?)
    end;
  hunfold;
  repeat match goal with |- _ /\ _ => split | |- hinv _ => split | |- hweak _ => split end;
  cbn [h_cpu h_gip h_mem gpr ip trapno set_gpr set_ip set_trapno]; try assumption.

Lemma SET_GPR_triple r v E : triple hweak (SET_GPR r v) (fun _ => hweak) E.
Proof.
  intros σ Hσ. inv_split.
  - by rewrite length_insert.
  - apply Forall_insert; [done|]. apply uN_range; lia.
Qed.

Lemma SET_GIP_triple (P : hstate -> Prop) v E :
  (P = hweak \/ P = hinv) -> triple P (SET_GIP v) (fun _ => P) E.
Proof. intros [-> | ->] σ Hσ; inv_split; apply uN_range; lia. Qed.

Lemma STATE_IP_GIP_triple (P : hstate -> Prop) E :
  (P = hweak \/ P = hinv) -> triple P STATE_IP_GIP (fun _ => P) E.
Proof. intros [-> | ->] σ Hσ; inv_split. Qed.

Lemma RAISE_TRAP_triple (P : hstate -> Prop) t Q : (P = hweak \/ P = hinv) -> triple P (RAISE_TRAP t) Q P.
Proof. intros [-> | ->] σ Hσ; inv_split. Qed.

Lemma load_mem_triple (P : hstate -> Prop) T a : triple P (load_mem T a) (fun _ => P) P.
Proof. intros σ Hσ. unfold load_mem. by destruct (unaligned_load T (h_mem σ) a). Qed.

Lemma store_mem_triple (P : hstate -> Prop) T a v :
  (P = hweak \/ P = hinv) -> triple P (store_mem T a v) (fun _ => P) P.
Proof.
  intros HP σ Hσ. unfold store_mem, unaligned_store.
  destruct (store_le _ _ _ _) as [m|] eqn:E; [|done].
  apply store_le_Some in E as [_ ->].
  destruct HP as [-> | ->]; inv_split; by apply mem_wf_put.
Qed.

Lemma undefined_triple {A} P (Q : A -> hstate -> Prop) E : triple P h_undefined Q E.
Proof. by intros σ _. Qed.

Lemma hinv_hweak σ : hinv σ -> hweak σ.
Proof. by intros [? _]. Qed.
#[export] Hint Resolve hinv_hweak : rvdbt.

(** The two preconditions a handler is run under. *)
Definition pre (P : hstate -> Prop) : Prop := P = hweak \/ P = hinv.
Lemma pre_hweak (P : hstate -> Prop) σ : pre P -> P σ -> hweak σ.
Proof. intros [-> | ->]; auto with rvdbt. Qed.

(** A body keeps its precondition on exceptional exits and gives at least
    [hweak]. *)
Definition body_ok (c : Hm unit) : Prop := forall P, pre P -> triple P c (fun _ => hweak) P.

(** The composition rules the handler bodies are proved with: the precondition
    holds up to the first register write and [hweak] after it. *)

Lemma bind_GPR {B} r (k : Z -> Hm B) P Q E :
  (forall v, triple P (k v) Q E) -> triple P (GPR r ≫= k) Q E.
Proof. intros Hk σ Hσ. apply (Hk _ σ Hσ). Qed.

Lemma bind_GIP {B} (k : Z -> Hm B) P Q E :
  (forall v, triple P (k v) Q E) -> triple P (GET_GIP ≫= k) Q E.
Proof. intros Hk σ Hσ. apply (Hk _ σ Hσ). Qed.

Lemma bind_SET_GPR {B} r v (k : unit -> Hm B) P Q E :
  pre P -> triple hweak (k tt) Q E -> triple P (SET_GPR r v ≫= k) Q E.
Proof.
  intros HP Hk. apply (triple_bind _ _ _ (fun _ => hweak)); [|by intros []].
  eapply triple_weaken; [intros; by eapply pre_hweak|apply SET_GPR_triple].
Qed.

Lemma bind_load {B} T a (k : Z -> Hm B) P Q :
  (forall v, triple P (k v) Q P) -> triple P (load_mem T a ≫= k) Q P.
Proof. intros Hk. eapply triple_bind; [apply load_mem_triple|apply Hk]. Qed.

Lemma bind_store {B} T a v (k : unit -> Hm B) P Q :
  pre P -> triple P (k tt) Q P -> triple P (store_mem T a v ≫= k) Q P.
Proof.
  intros HP Hk. apply (triple_bind _ _ _ (fun _ => P)); [|by intros []].
  by apply store_mem_triple.
Qed.

Lemma bind_check {B} (b : bool) t (k : unit -> Hm B) P Q :
  pre P -> triple P (k tt) Q P ->
  triple P ((if b then RAISE_TRAP t else mret tt) ≫= k) Q P.
Proof.
  intros HP Hk. apply (triple_bind _ _ _ (fun _ => P)); [|by intros []].
  apply triple_if; [by apply RAISE_TRAP_triple|by apply triple_ret].
Qed.

Lemma bind_raise {B} t (k : unit -> Hm B) P Q : pre P -> triple P (RAISE_TRAP t ≫= k) Q P.
Proof. intros HP σ Hσ. apply (RAISE_TRAP_triple P t (fun _ _ => True) HP σ Hσ). Qed.

Lemma ok_SET_GPR r v P E : pre P -> triple P (SET_GPR r v) (fun _ => hweak) E.
Proof. intros HP. eapply triple_weaken; [intros; by eapply pre_hweak|apply SET_GPR_triple]. Qed.

Lemma ok_SET_GIP v P E : pre P -> triple P (SET_GIP v) (fun _ => hweak) E.
Proof. intros HP. eapply triple_weaken; [intros; by eapply pre_hweak|by apply SET_GIP_triple; left]. Qed.

Lemma ok_store T a v P : pre P -> triple P (store_mem T a v) (fun _ => hweak) P.
Proof.
  intros HP σ Hσ. pose proof (store_mem_triple P T a v HP σ Hσ).
  destruct (store_mem T a v σ); try done. by eapply pre_hweak.
Qed.

Lemma ok_ret P E : pre P -> triple P (mret tt) (fun _ => hweak) E.
Proof. intros HP. apply triple_ret. intros σ. by apply pre_hweak. Qed.

Lemma pre_left : pre hweak.
Proof. by left. Qed.
Lemma pre_right : pre hinv.
Proof. by right. Qed.
#[export] Hint Resolve pre_left pre_right : rvdbt.

Lemma ok_bind_ret {A B} (a : A) (k : A -> Hm B) P Q E :
  triple P (k a) Q E -> triple P (mret a ≫= k) Q E.
Proof. done. Qed.

Lemma bind_assoc {A B C} (c : Hm A) (f : A -> Hm B) (g : B -> Hm C) P Q E :
  triple P (c ≫= fun a => f a ≫= g) Q E -> triple P ((c ≫= f) ≫= g) Q E.
Proof.
  intros Hc σ Hσ. specialize (Hc σ Hσ). unfold mbind, Hm_bind in *.
  by destruct (c σ).
Qed.

Lemma bind_undefined {A B} (k : A -> Hm B) P Q E : triple P (h_undefined ≫= k) Q E.
Proof. by intros σ _. Qed.

Lemma triple_if_bind {A B} (b : bool) P (c1 c2 : Hm A) (k : A -> Hm B) Q E :
  triple P (c1 ≫= k) Q E -> triple P (c2 ≫= k) Q E ->
  triple P ((if b then c1 else c2) ≫= k) Q E.
Proof. by destruct b. Qed.

(** One rule per head symbol of the command, so that no rule is tried by
    conversion. *)
Ltac hoare_step :=
  cbv beta match;
  lazymatch goal with
  | |- forall _, _ => intros
  | |- triple _ ((_ ≫= _) ≫= _) _ _ => simple apply bind_assoc
  | |- triple _ (GPR _ ≫= _) _ _ => simple apply bind_GPR
  | |- triple _ (GET_GIP ≫= _) _ _ => simple apply bind_GIP
  | |- triple _ (load_mem _ _ ≫= _) _ _ => simple apply bind_load
  | |- triple _ (store_mem _ _ _ ≫= _) _ _ => simple apply bind_store; [solve [auto with rvdbt]|]
  | |- triple _ (SET_GPR _ _ ≫= _) _ _ => simple apply bind_SET_GPR; [solve [auto with rvdbt]|]
  | |- triple _ (RAISE_TRAP _ ≫= _) _ _ => simple apply bind_raise; auto with rvdbt
  | |- triple _ (h_undefined ≫= _) _ _ => simple apply bind_undefined
  | |- triple _ (mret ?a ≫= ?k) ?Q ?E => refine (ok_bind_ret a k _ Q E _)
  | |- triple _ ((if _ then RAISE_TRAP _ else mret tt) ≫= _) _ _ => simple apply bind_check; [solve [auto with rvdbt]|]
  | |- triple _ ((if _ then _ else _) ≫= _) _ _ => simple apply triple_if_bind
  | |- triple _ (if _ then _ else _) _ _ => simple apply triple_if
  | |- triple _ (SET_GPR _ _) _ _ => simple apply ok_SET_GPR; auto with rvdbt
  | |- triple _ (SET_GIP _) _ _ => simple apply ok_SET_GIP; auto with rvdbt
  | |- triple _ (store_mem _ _ _) _ _ => simple apply ok_store; auto with rvdbt
  | |- triple _ (RAISE_TRAP _) _ _ => simple apply RAISE_TRAP_triple; auto with rvdbt
  | |- triple _ (mret tt) _ _ => simple apply ok_ret; auto with rvdbt
  | |- triple _ h_undefined _ _ => simple apply undefined_triple
  end.

Lemma amomax_loop_eq weaks a cur rhs :
  amomax_loop weaks a cur rhs =
  ('(ok, cur') ← compare_exchange_weak (default false (head weaks)) a cur (Z.max cur rhs);
   if ok : bool then mret tt
   else match weaks with
        | [] => h_undefined
        | _ :: weaks' => amomax_loop weaks' a cur' rhs
        end).
Proof. by destruct weaks. Qed.

Lemma amomax_loop_ok weaks a cur rhs : body_ok (amomax_loop weaks a cur rhs).
Proof.
  unfold body_ok. intros P HP. revert cur. induction weaks as [|w weaks IH]; intros cur;
    rewrite amomax_loop_eq; unfold compare_exchange_weak; repeat hoare_step.
  apply IH.
Qed.

Lemma ApplyInsnA_ok h i : (forall mo, body_ok (h mo)) -> body_ok (ApplyInsnA h i).
Proof.
  intros Hh. unfold ApplyInsnA. cbn [switch]. unfold body_ok in *. intros P HP.
  repeat (apply triple_if; [by apply Hh|]). apply undefined_triple.
Qed.

Lemma Impl_ok weaks op i : body_ok (Impl weaks op i).
Proof.
  destruct op; cbn [Impl];
    unfold HANDLER_Unimpl, HANDLER_BCC, HANDLER_Load, HANDLER_Store, HANDLER_ArithmRR,
      HANDLER_ArithmRI, Impl_lui, Impl_auipc, Impl_jal, Impl_jalr, Impl_slli, Impl_srai, Impl_srli,
      Impl_sll, Impl_sra, Impl_srl, Impl_ecall, Impl_ebreak, Impl_lrw, Impl_scw, Impl_amoswapw,
      Impl_amoaddw, Impl_amomaxuw, atomic_ref, atomic_exchange, atomic_fetch_add;
    lazymatch goal with
    | |- body_ok (ApplyInsnA _ _) => apply ApplyInsnA_ok; intros []
    | _ => idtac
    end; unfold body_ok; intros P HP; cbn [atomic_load atomic_store]; repeat hoare_step;
    by apply amomax_loop_ok.
Qed.

(** ** The invariant through the whole handler *)

(** An opcode without [HasRd] never writes a register. *)
Lemma Impl_no_rd weaks op i :
  has_flag op Flags.HasRd = false -> triple hinv (Impl weaks op i) (fun _ => hinv) hinv.
Proof.
  destruct op; intros Hf; try discriminate Hf; cbn [Impl]; clear Hf;
    unfold HANDLER_Unimpl, HANDLER_BCC, HANDLER_Store, Impl_ecall, Impl_ebreak;
    repeat lazymatch goal with
    | |- triple _ (SET_GIP _) _ _ => simple apply SET_GIP_triple; auto
    | |- triple _ (store_mem _ _ _) _ _ => simple apply store_mem_triple; auto
    | |- triple _ (mret tt) _ _ => by apply triple_ret
    | _ => hoare_step
    end.
Qed.

Lemma SET_GPR_0_triple : triple hweak (SET_GPR 0 0) (fun _ => hinv) hinv.
Proof.
  intros σ Hσ. pose proof (proj1 Hσ) as Hl. inv_split; [by rewrite length_insert| |].
  - apply Forall_insert; [done|]. apply uN_range; lia.
  - unfold get_gpr. cbn [gpr]. rewrite list_lookup_total_insert_any.
    case_bool_decide as Hb; [done|]. exfalso. apply Hb. split; [done|].
    destruct σ as [[] ? ?]. cbn in *. rewrite Hl. unfold gpr_num. lia.
Qed.

Lemma Handler_triple weaks op i : triple hinv (Handler weaks op i) (fun _ => hinv) hinv.
Proof.
  unfold Handler. apply (triple_bind _ _ _ (fun _ => hinv)); [|intros []].
  { apply triple_if; [apply STATE_IP_GIP_triple; auto|by apply triple_ret]. }
  assert (Hend : triple hinv (if has_flag op Flags.Branch then STATE_IP_GIP
                              else gip ← GET_GIP; SET_GIP (gip + 4)) (fun _ => hinv) hinv).
  { apply triple_if; [apply STATE_IP_GIP_triple; auto|].
    apply bind_GIP. intros v. apply SET_GIP_triple; auto. }
  destruct (has_flag op Flags.HasRd) eqn:Hrd.
  - apply (triple_bind _ _ _ (fun _ => hweak)); [apply Impl_ok; auto with rvdbt|intros []].
    apply (triple_bind _ _ _ (fun _ => hinv)); [apply SET_GPR_0_triple|intros []; done].
  - apply (triple_bind _ _ _ (fun _ => hinv)); [by apply Impl_no_rd|intros []].
    by apply (triple_bind _ _ _ (fun _ => hinv)); [apply triple_ret|intros []].
Qed.

(** The ranges alone survive too, also when [x0] holds a value. *)
Lemma Handler_weak weaks op i : triple hweak (Handler weaks op i) (fun _ => hweak) hweak.
Proof.
  unfold Handler. apply (triple_bind _ _ _ (fun _ => hweak)); [|intros []].
  { apply triple_if; [apply STATE_IP_GIP_triple; auto|by apply triple_ret]. }
  apply (triple_bind _ _ _ (fun _ => hweak)); [apply Impl_ok; auto with rvdbt|intros []].
  apply (triple_bind _ _ _ (fun _ => hweak)); [|intros []].
  { apply triple_if; [apply SET_GPR_triple|by apply triple_ret]. }
  apply triple_if; [apply STATE_IP_GIP_triple; auto|].
  apply bind_GIP. intros v. apply SET_GIP_triple; auto.
Qed.

Lemma dispatch_triple weaks : triple hinv (dispatch weaks) (fun _ => hinv) hinv.
Proof.
  intros σ Hσ. unfold dispatch. destruct (fetch _ _); [|done]. by apply Handler_triple.
Qed.

(** C20 The interpreter keeps the guest state well formed: whatever code it
    runs and for however long, when [Execute] leaves its loop by a trap or by
    a memory fault there are 32 registers of 32 bits, [x0] is zero, [ip] is a
    32-bit value and guest memory holds bytes. *)
Theorem Interpreter_Execute_invariant fuel weaks s m o :
  cpu_wf s -> mem_wf m -> Interpreter_Execute fuel weaks s m = Some o ->
  match o with
  | Raised σ | Faulted σ => cpu_wf (h_cpu σ) /\ mem_wf (h_mem σ)
  | Undefined => True
  | Ret _ _ => False
  end.
Proof.
  intros Hs Hm. unfold Interpreter_Execute.
  assert (Hi : hinv (mkH s (ip s) m)) by (apply hinv_wf; split_and!; try done; apply Hs).
  revert Hi. generalize (mkH s (ip s) m). induction fuel as [|fuel IH]; intros σ Hi; [done|].
  cbn [interp_loop]. pose proof (dispatch_triple weaks σ Hi) as Hd.
  destruct (dispatch weaks σ); [by apply IH|intros [= <-]..]; try done;
    apply hinv_wf in Hd; tauto.
Qed.
