(* ===== verification/RV32Isa.v ===== *)
(** * The RV32I reference semantics

    What the ISA manual says of each base instruction, on an abstract state:
    a register file with a hard-wired [x0], the program counter and the
    memory.  Values are integers modulo [2^32]; shifts are multiplications and
    divisions by powers of two; memory values are sums of bytes.  Nothing here
    translates code: it is the specification the interpreter and the
    translator are compared with. *)

From stdpp Require Import base tactics numbers list gmap.
From S2P Require Import Prelude Bitfield RV32Insn RV32Decode GuestState.

Import insn.

Record isa_state := mkIsa { xreg : Z -> Z; pc : Z; dmem : mem }.

Inductive isa_result :=
| Next (s : isa_state)
| Trap (t : TrapCode)
| AccessFault.

Definition rx (s : isa_state) (r : Z) : Z := if r =? 0 then 0 else xreg s r.
Definition wx (r v : Z) (s : isa_state) : isa_state :=
  mkIsa (fun k => if k =? r then v mod 2 ^ 32 else xreg s k) (pc s) (dmem s).
Definition goto (t : Z) (s : isa_state) : isa_state := mkIsa (xreg s) (t mod 2 ^ 32) (dmem s).
Definition step_pc (s : isa_state) : isa_state := goto (pc s + 4) s.

(** The [n]-byte unsigned value at [a]; [None] when a byte is not mapped. *)
Fixpoint isa_read (n : nat) (m : mem) (a : Z) : option Z :=
  match n with
  | O => Some 0
  | S n => b ← m !! a; r ← isa_read n m (a + 1); Some (b + 256 * r)
  end.

(** Write the low [n] bytes of [v]. *)
Fixpoint isa_put (n : nat) (m : mem) (a v : Z) : mem :=
  match n with
  | O => m
  | S n => isa_put n (<[a := v mod 256]> m) (a + 1) (v / 256)
  end.
Definition isa_write (n : nat) (m : mem) (a v : Z) : option mem :=
  match isa_read n m a with Some _ => Some (isa_put n m a v) | None => None end.

Definition signed (v : Z) : Z := sN 32 v.

(** The binary operation of a register-register or register-immediate
    opcode. *)
Definition isa_alu (op : Op) (a b : Z) : option Z :=
  match op with
  | _add | _addi => Some (a + b)
  | _sub => Some (a - b)
  | _slt | _slti => Some (if signed a <? signed b then 1 else 0)
  | _sltu | _sltiu => Some (if a <? b then 1 else 0)
  | _xor | _xori => Some (Z.lxor a b)
  | _or | _ori => Some (Z.lor a b)
  | _and | _andi => Some (Z.land a b)
  | _sll | _slli => Some (a * 2 ^ (b mod 32))
  | _srl | _srli => Some (a / 2 ^ (b mod 32))
  | _sra | _srai => Some (signed a / 2 ^ (b mod 32))
  | _ => None
  end.

Definition isa_cond (op : Op) (a b : Z) : option bool :=
  match op with
  | _beq => Some (a =? b)
  | _bne => Some (negb (a =? b))
  | _blt => Some (signed a <? signed b)
  | _bge => Some (signed b <=? signed a)
  | _bltu => Some (a <? b)
  | _bgeu => Some (b <=? a)
  | _ => None
  end.

(** Width in bytes and extension of a load or store. *)
Definition isa_access (op : Op) : option (nat * bool) :=
  match op with
  | _lb => Some (1%nat, true) | _lh => Some (2%nat, true) | _lw => Some (4%nat, true)
  | _lbu | _sb => Some (1%nat, false) | _lhu | _sh => Some (2%nat, false)
  | _sw => Some (4%nat, false)
  | _ => None
  end.

Definition isa_jump (link target rd : Z) (s : isa_state) : isa_result :=
  if target mod 4 =? 0 then Next (goto target (wx rd link s)) else Trap UNALIGNED_IP.

Definition isa_load (op : Op) (raw : Z) (s : isa_state) : isa_result :=
  let a := (rx s (slice 19 15 raw) + isa_imm_I raw) mod 2 ^ 32 in
  match isa_access op with
  | Some (n, sgn) =>
      match isa_read n (dmem s) a with
      | Some v =>
          let v := if sgn : bool then sN (8 * Z.of_nat n) v else v in
          Next (step_pc (wx (slice 11 7 raw) v s))
      | None => AccessFault
      end
  | None => Trap ILLEGAL_INSN
  end.

Definition isa_store (op : Op) (raw : Z) (s : isa_state) : isa_result :=
  let a := (rx s (slice 19 15 raw) + isa_imm_S raw) mod 2 ^ 32 in
  match isa_access op with
  | Some (n, _) =>
      match isa_write n (dmem s) a (rx s (slice 24 20 raw)) with
      | Some m => Next (step_pc (mkIsa (xreg s) (pc s) m))
      | None => AccessFault
      end
  | None => Trap ILLEGAL_INSN
  end.

Definition isa_arith (op : Op) (raw b : Z) (s : isa_state) : isa_result :=
  match isa_alu op (rx s (slice 19 15 raw)) b with
  | Some v => Next (step_pc (wx (slice 11 7 raw) v s))
  | None => Trap ILLEGAL_INSN
  end.

Definition isa_branch (op : Op) (raw : Z) (s : isa_state) : isa_result :=
  match isa_cond op (rx s (slice 19 15 raw)) (rx s (slice 24 20 raw)) with
  | Some true =>
      let t := (pc s + isa_imm_B raw) mod 2 ^ 32 in
      if t mod 4 =? 0 then Next (goto t s) else Trap UNALIGNED_IP
  | Some false => Next (step_pc s)
  | None => Trap ILLEGAL_INSN
  end.

(** One base instruction; the formats select the operands. *)
Definition isa_exec (op : Op) (raw : Z) (s : isa_state) : isa_result :=
  match op with
  | _lui => Next (step_pc (wx (slice 11 7 raw) (isa_imm_U raw) s))
  | _auipc => Next (step_pc (wx (slice 11 7 raw) (pc s + isa_imm_U raw) s))
  | _jal => isa_jump (pc s + 4) ((pc s + isa_imm_J raw) mod 2 ^ 32) (slice 11 7 raw) s
  | _jalr =>
      let t := (rx s (slice 19 15 raw) + isa_imm_I raw) mod 2 ^ 32 in
      isa_jump (pc s + 4) (t - t mod 2) (slice 11 7 raw) s
  | _beq | _bne | _blt | _bge | _bltu | _bgeu => isa_branch op raw s
  | _lb | _lh | _lw | _lbu | _lhu => isa_load op raw s
  | _sb | _sh | _sw => isa_store op raw s
  | _addi | _slti | _sltiu | _xori | _ori | _andi =>
      isa_arith op raw (isa_imm_I raw mod 2 ^ 32) s
  | _slli | _srai | _srli => isa_arith op raw (slice 24 20 raw) s
  | _sub | _add | _sll | _slt | _sltu | _xor | _sra | _srl | _or | _and =>
      isa_arith op raw (rx s (slice 24 20 raw)) s
  | _fence | _fencei => Next (step_pc s)
  | _ecall => Trap ECALL
  | _ebreak => Trap EBREAK
  | _ => Trap ILLEGAL_INSN
  end.

(** The base instruction set: what [isa_exec] defines. *)
Definition isa_base (op : Op) : bool :=
  match format op with FA => false | _ => true end.

(** ** Facts the comparisons share *)
Lemma isa_read_load_le n m a : mem_wf m -> isa_read n m a = load_le n m a.
Proof.
  intros Hm. revert a. induction n as [|n IH]; intros a; [done|].
  cbn [isa_read load_le]. rewrite IH. destruct (m !! a) as [b|] eqn:Hb; [|done].
  pose proof (Hm _ _ Hb : in_u 8 b) as Hb8. cbn [mbind option_bind].
  destruct (load_le n m (a + 1)) as [r|]; [|done]. cbn [mbind option_bind]. f_equal.
  rewrite (Z.shiftl_mul_pow2 r 8) by lia. replace (256 * r) with (r * 2 ^ 8) by lia.
  rewrite <- (uN_id 8 b Hb8), <- Z.shiftl_mul_pow2 by lia.
  apply Z.add_nocarry_lor. bits.
Qed.

Lemma isa_put_put_le n m a v : isa_put n m a v = put_le n m a v.
Proof.
  revert m a v. induction n as [|n IH]; intros m a v; [done|].
  cbn [isa_put put_le]. by rewrite IH, Z.shiftr_div_pow2 by lia.
Qed.

Lemma isa_write_store_le n m a v : mem_wf m -> isa_write n m a v = store_le n m a v.
Proof.
  intros Hm. unfold isa_write, store_le. rewrite isa_read_load_le, isa_put_put_le by done.
  destruct (mapped n m a) eqn:E.
  - apply load_le_mapped in E as [v' ->]. done.
  - destruct (load_le n m a) eqn:E'; [|done].
    assert (mapped n m a = true) by (apply load_le_mapped; by eexists). congruence.
Qed.
