(* ===== verification/InterpRefine.v ===== *)
(** * The interpreter implements the reference semantics

    [R] relates a handler state with an abstract ISA state; [result_ok] says
    what each kind of ISA result means for a handler: the next state, a trap
    raised with the state untouched, or a memory fault with the state
    untouched.  [Handler_refines_isa] is the functional refinement, instruction
    by instruction, and [Interpreter_Execute_refines_isa] composes it with the
    decoder over whole executions. *)

From stdpp Require Import base tactics numbers list gmap.
From S2P Require Import Prelude Bitfield RV32Insn RV32Decode GuestState Interp InterpProofs RV32Isa.

Import insn.

Definition refines (c : CPUState) (s : isa_state) : Prop :=
  forall r, 0 <= r < 32 -> get_gpr c r = rx s r.

Definition R (σ : hstate) (s : isa_state) : Prop :=
  refines (h_cpu σ) s /\ h_gip σ = pc s /\ h_mem σ = dmem s.

Definition result_ok (o : outcome unit) (s : isa_state) (r : isa_result) : Prop :=
  match r with
  | Next s' => exists σ', o = Ret tt σ' /\ R σ' s'
  | Trap t => exists σ', o = Raised σ' /\ R σ' s /\ trapno (h_cpu σ') = t /\ ip (h_cpu σ') = pc s
  | AccessFault => exists σ', o = Faulted σ' /\ R σ' s /\ ip (h_cpu σ') = pc s
  end.

(** ** Stability of [refines] *)
Lemma refines_ip c s v : refines c s -> refines (set_ip v c) s.
Proof. done. Qed.
Lemma refines_trap c s t : refines c s -> refines (set_trapno t c) s.
Proof. done. Qed.
Lemma refines_goto c s t : refines c s -> refines c (goto t s).
Proof. done. Qed.
Lemma refines_mem c s m : refines c s -> refines c (mkIsa (xreg s) (pc s) m).
Proof. done. Qed.

(** A register write followed by the reset of [x0]. *)
Lemma refines_wx c s r v v' :
  length (gpr c) = gpr_num -> 0 <= r < 32 -> u32 v = v' mod 2 ^ 32 -> refines c s ->
  refines (set_gpr 0 (u32 0) (set_gpr r (u32 v) c)) (wx r v' s).
Proof.
  intros Hl Hr Hv Hc k Hk.
  rewrite get_set_gpr by (cbn [set_gpr gpr]; rewrite ?length_insert; lia || done).
  rewrite get_set_gpr by (done || lia). unfold rx, wx. cbn [xreg].
  specialize (Hc k Hk). unfold rx in Hc.
  repeat case_bool_decide; subst; rewrite ?Z.eqb_refl; try done;
    split_cmp; done.
Qed.
#[export] Hint Resolve refines_ip refines_trap refines_goto refines_mem refines_wx : rvdbt.

Lemma refines_rx c s r : refines c s -> 0 <= r < 32 -> get_gpr c r = rx s r.
Proof. auto. Qed.

(** ** Operators: the C expression and the reference agree modulo [2^32] *)
Section operators.
Context (a b : Z) (Ha : in_u 32 a) (Hb : in_u 32 b).

Lemma cast_u32_id : cast Tu32 a = a.
Proof using Ha. by apply (uN_id 32). Qed.

Lemma shiftl_isa k : 0 <= k < 32 -> u32 (u32 (Z.shiftl (u32 a) k)) = (a * 2 ^ (k mod 32)) mod 2 ^ 32.
Proof using Ha.
  intros Hk. autorewrite with rvconv. rewrite (uN_id 32 a Ha), Z.shiftl_mul_pow2 by lia.
  by rewrite (Z.mod_small k 32).
Qed.
Lemma shiftr_isa k : 0 <= k < 32 -> u32 (Z.shiftr (u32 a) k) = (a / 2 ^ (k mod 32)) mod 2 ^ 32.
Proof using Ha.
  intros Hk. rewrite (uN_id 32 a Ha), Z.shiftr_div_pow2 by lia. by rewrite (Z.mod_small k 32).
Qed.
Lemma sar_isa k : 0 <= k < 32 -> u32 (Z.shiftr (i32 a) k) = (signed a / 2 ^ (k mod 32)) mod 2 ^ 32.
Proof using Ha.
  intros Hk. rewrite Z.shiftr_div_pow2 by lia. by rewrite (Z.mod_small k 32).
Qed.
End operators.

Lemma land_31 b : Z.land b 31 = b mod 32.
Proof. apply (Z.land_ones b 5). lia. Qed.
Lemma mod_land_31 b : Z.land b 31 mod 32 = b mod 32.
Proof. by rewrite land_31, Zmod_mod. Qed.
Lemma IS_imm_slice raw : IS_imm raw = slice 24 20 raw.
Proof. apply rs2_slice. Qed.
Lemma land_31_range b : 0 <= Z.land b 31 < 32.
Proof. rewrite land_31. apply Z.mod_pos_bound. lia. Qed.

(** Alignment as the handlers test it. *)
Lemma rem4_mod4 z : (Z.rem z 4 =? 0) = (z mod 4 =? 0).
Proof.
  apply eq_bool_prop_intro. rewrite !Is_true_true, !Z.eqb_eq.
  rewrite Z.rem_divide, Z.mod_divide by lia. done.
Qed.

Lemma aligned_target gip imm :
  gip mod 4 = 0 -> (imm mod 4 =? 0) = (((gip + imm) mod 2 ^ 32) mod 4 =? 0).
Proof. intros. f_equal. change (2 ^ 32) with 4294967296. zlia. Qed.

Lemma clear_bit0 t : in_u 32 t -> Z.land t (u32 (Z.lnot 1)) = t - t mod 2.
Proof.
  intros Ht. transitivity (Z.shiftl (Z.shiftr t 1) 1).
  - rewrite <- (uN_id 32 t Ht). 
    replace (uN 32 (Z.lnot 1)) with (Z.shiftl (Z.ones 31) 1) by done. bits.
  - rewrite Z.shiftl_mul_pow2, Z.shiftr_div_pow2 by lia. zlia.
Qed.

(** ** Running a handler symbolically *)
Ltac flags_compute :=
  repeat match goal with
    | |- context [has_flag ?o ?f] =>
        let b := eval vm_compute in (has_flag o f) in change (has_flag o f) with b
    end.

Ltac run_handler :=
  unfold Handler; flags_compute;
  cbv beta iota zeta delta
    [orb Impl HANDLER_Unimpl HANDLER_BCC HANDLER_Load HANDLER_Store HANDLER_ArithmRR
     HANDLER_ArithmRI Impl_lui Impl_auipc Impl_jal Impl_jalr Impl_slli Impl_srai Impl_srli Impl_sll
     Impl_sra Impl_srl Impl_ecall Impl_ebreak load_mem store_mem
     mbind Hm_bind mret Hm_ret h_get h_put GPR SET_GPR GET_GIP SET_GIP STATE_IP_GIP RAISE_TRAP
     RaiseTrap h_cpu h_gip h_mem].

Lemma put_le_uN n m a v : put_le n m a (uN (8 * Z.of_nat n) v) = put_le n m a v.
Proof.
  revert m a v. induction n as [|n IH]; intros m a v; [done|]. cbn [put_le].
  rewrite <- (IH _ _ (Z.shiftr v 8)), <- IH. f_equal; [f_equal|]; bits.
Qed.

Section handlers.
Context (weaks : list bool) (raw : Z) (c : CPUState) (gip : Z) (m : mem) (s : isa_state).
Context (Hinv : hinv (mkH c gip m)) (HR : R (mkH c gip m) s).

Lemma inv_len : length (gpr c) = gpr_num.
Proof using Hinv. apply Hinv. Qed.
Lemma inv_gpr r : in_u 32 (get_gpr c r).
Proof using Hinv. apply get_gpr_range, Hinv. Qed.

Lemma rx_rs1 : rx s (slice 19 15 raw) = get_gpr c (rs1 raw).
Proof using HR. rewrite <- rs1_slice. symmetry. apply HR, rs1_range. Qed.
Lemma rx_rs2 : rx s (slice 24 20 raw) = get_gpr c (rs2 raw).
Proof using HR. rewrite <- rs2_slice. symmetry. apply HR, rs2_range. Qed.

(** The exit of a handler that writes [rd] and falls through. *)
Lemma ret_rd_ok c' v v' :
  gpr c' = gpr c -> u32 v = v' mod 2 ^ 32 ->
  result_ok (Ret tt (mkH (set_gpr 0 (u32 0) (set_gpr (rd raw) (u32 v) c')) (u32 (gip + 4)) m))
    s (Next (step_pc (wx (slice 11 7 raw) v' s))).
Proof using Hinv HR.
  intros Hc' Hv. destruct HR as (Hc & Hg & Hm). cbn in Hc, Hg, Hm.
  eexists; split; [done|]. split_and!; cbn; [|by subst|done].
  rewrite <- rd_slice. unfold step_pc. apply refines_goto, refines_wx; auto with rvdbt.
  - rewrite Hc'. apply inv_len.
  - intros r Hr. unfold get_gpr. rewrite Hc'. by apply Hc.
Qed.

(** The exit of a handler that only falls through. *)
Lemma ret_next_ok c' :
  gpr c' = gpr c -> result_ok (Ret tt (mkH c' (u32 (gip + 4)) m)) s (Next (step_pc s)).
Proof using HR.
  intros Hc'. destruct HR as (Hc & Hg & Hm). cbn in Hc, Hg, Hm.
  eexists; split; [done|]. split_and!; [|by cbn; rewrite Hg|done].
  intros r Hr. cbn. unfold get_gpr. rewrite Hc'. by apply Hc.
Qed.

Lemma arith_refines op :
  isa_alu op 0 0 <> None -> result_ok (Handler weaks op raw (mkH c gip m)) s (isa_exec op raw s).
Proof using Hinv HR.
  intros Hop. pose proof (inv_gpr (rs1 raw)) as H1. pose proof (inv_gpr (rs2 raw)) as H2.
  pose proof (land_31_range (get_gpr c (rs2 raw))). pose proof (IS_imm_range raw).
  destruct op; try (exfalso; by apply Hop); clear Hop; run_handler;
    cbn [isa_exec]; unfold isa_arith; cbn [isa_alu]; apply ret_rd_ok; try done;
    rewrite rx_rs1, ?rx_rs2, <- ?IS_imm_slice, <- ?I_imm_isa, ?cast_u32_id by done; try reflexivity;
    rewrite <- ?(mod_land_31 (get_gpr c (rs2 raw)));
    auto using shiftl_isa, shiftr_isa, sar_isa.
  unfold signed, op_lt, b2z. change (I_imm raw mod 2 ^ 32) with (u32 (I_imm raw)).
  by rewrite sN_uN.
Qed.

Lemma upper_refines op :
  format op = FU -> result_ok (Handler weaks op raw (mkH c gip m)) s (isa_exec op raw s).
Proof using Hinv HR.
  intros Hf. destruct op; try discriminate Hf; clear Hf; run_handler; cbn [isa_exec]; apply ret_rd_ok;
    try reflexivity; rewrite <- U_imm_isa; [reflexivity|].
  destruct HR as (_ & <- & _). cbn [h_gip]. rewrite Z.add_comm. reflexivity.
Qed.

(** Loads and stores: one argument for every width. *)
Lemma load_result T n :
  isize T = n -> ibits T = 8 * Z.of_nat n ->
  result_ok
    ((STATE_IP_GIP;; HANDLER_Load T raw;; SET_GPR 0 0;;
      gip ← GET_GIP; SET_GIP (gip + 4)) (mkH c gip m)) s
    match load_le n m ((get_gpr c (rs1 raw) + I_imm raw) mod 2 ^ 32) with
    | Some v => Next (step_pc (wx (slice 11 7 raw)
                                 (if isigned T then sN (8 * Z.of_nat n) v else v) s))
    | None => AccessFault
    end.
Proof using Hinv HR.
  intros Hn Hb. run_handler. unfold unaligned_load. rewrite Hn.
  change (get_gpr (set_ip gip c)) with (get_gpr c).
  change ((get_gpr c (rs1 raw) + I_imm raw) mod 2 ^ 32) with (u32 (get_gpr c (rs1 raw) + I_imm raw)).
  destruct (load_le n m _) as [v|] eqn:Hl; cbn [fmap option_fmap option_map].
  - apply ret_rd_ok; [done|]. unfold cast. rewrite Hb.
    destruct (isigned T); [done|]. rewrite (uN_id _ v); [done|].
    eapply load_le_range, Hl. apply Hinv.
  - eexists; split_and!; [done|apply HR..].
Qed.

Lemma store_result T n :
  isize T = n -> ibits T = 8 * Z.of_nat n -> isigned T = false ->
  result_ok
    ((STATE_IP_GIP;; HANDLER_Store T raw;; mret tt;; gip ← GET_GIP; SET_GIP (gip + 4))
       (mkH c gip m)) s
    match store_le n m ((get_gpr c (rs1 raw) + S_imm raw) mod 2 ^ 32) (get_gpr c (rs2 raw)) with
    | Some m' => Next (step_pc (mkIsa (xreg s) (pc s) m'))
    | None => AccessFault
    end.
Proof using Hinv HR.
  intros Hn Hb Hs. run_handler. unfold unaligned_store, cast. rewrite Hn, Hs, Hb.
  change (get_gpr (set_ip gip c)) with (get_gpr c).
  change ((get_gpr c (rs1 raw) + S_imm raw) mod 2 ^ 32) with (u32 (get_gpr c (rs1 raw) + S_imm raw)).
  unfold store_le. destruct (mapped n m _).
  - rewrite put_le_uN. eexists; split_and!; [done|split_and!; [apply HR| |done]].
    destruct HR as (_ & <- & _). done.
  - eexists; split_and!; [done|apply HR..].
Qed.

Lemma mem_refines op :
  isa_access op <> None -> result_ok (Handler weaks op raw (mkH c gip m)) s (isa_exec op raw s).
Proof using Hinv HR.
  intros Hop. assert (Hmw : mem_wf (dmem s)) by (destruct HR as (_ & _ & <-); apply Hinv).
  destruct op; try (exfalso; by apply Hop); clear Hop;
    cbn [isa_exec]; unfold isa_load, isa_store; cbn [isa_access];
    rewrite rx_rs1, ?rx_rs2, <- ?I_imm_isa, <- ?S_imm_isa, ?isa_read_load_le,
      ?isa_write_store_le by exact Hmw;
    replace (dmem s) with m by apply HR; unfold Handler; flags_compute; cbn [orb Impl].
  - exact (load_result Ti8 1 eq_refl eq_refl).
  - exact (load_result Ti16 2 eq_refl eq_refl).
  - exact (load_result Ti32 4 eq_refl eq_refl).
  - exact (load_result Tu8 1 eq_refl eq_refl).
  - exact (load_result Tu16 2 eq_refl eq_refl).
  - exact (store_result Tu8 1 eq_refl eq_refl eq_refl).
  - exact (store_result Tu16 2 eq_refl eq_refl eq_refl).
  - exact (store_result Tu32 4 eq_refl eq_refl eq_refl).
Qed.

Lemma trap_refines op t :
  Impl weaks op raw = RAISE_TRAP t \/ Impl weaks op raw = (RAISE_TRAP t;; RaiseTrap) ->
  result_ok (Handler weaks op raw (mkH c gip m)) s (Trap t).
Proof using Hinv HR.
  intros HI. unfold Handler. destruct (has_flag op _ || has_flag op _)%bool, HI as [-> | ->];
    run_handler; eexists; split_and!; done || apply HR.
Qed.

Lemma fence_refines op :
  op = _fence \/ op = _fencei ->
  result_ok (Handler weaks op raw (mkH c gip m)) s (Next (step_pc s)).
Proof using Hinv HR.
  intros [-> | ->]; run_handler; by apply ret_next_ok.
Qed.

(** Control transfers: the handlers test the alignment of the offset, the
    manual that of the target; they agree when [gip] is aligned. *)
Context (Hal : gip mod 4 = 0).

Lemma branch_result T cond :
  result_ok ((mret tt;; HANDLER_BCC T cond raw;; mret tt;; STATE_IP_GIP) (mkH c gip m)) s
    (if cond (cast T (get_gpr c (rs1 raw))) (cast T (get_gpr c (rs2 raw))) then
       let t := (gip + B_imm raw) mod 2 ^ 32 in
       if t mod 4 =? 0 then Next (goto t s) else Trap UNALIGNED_IP
     else Next (step_pc s)).
Proof using Hinv HR Hal.
  run_handler. destruct (cond _ _); cbn [negb].
  - cbv zeta. rewrite rem4_mod4, (aligned_target gip) by done.
    destruct (_ =? 0) eqn:E; cbn [negb].
    + eexists; split; [done|]. split_and!; try apply HR. cbn. symmetry. apply Zmod_mod.
    + eexists; split_and!; done || apply HR.
  - by apply ret_next_ok.
Qed.

Lemma branch_refines op :
  format op = FB -> result_ok (Handler weaks op raw (mkH c gip m)) s (isa_exec op raw s).
Proof using Hinv HR Hal.
  intros Hf. pose proof (inv_gpr (rs1 raw)) as H1. pose proof (inv_gpr (rs2 raw)) as H2.
  destruct op; try discriminate Hf; clear Hf; cbn [isa_exec]; unfold isa_branch; cbn [isa_cond];
    rewrite rx_rs1, rx_rs2, <- B_imm_isa; replace (pc s) with gip by apply HR;
    unfold Handler; flags_compute; cbn [orb Impl].
  1: pose proof (branch_result Tu32 Z.eqb) as Hb.
  2: pose proof (branch_result Tu32 neqb) as Hb.
  3: exact (branch_result Ti32 Z.ltb).
  3: exact (branch_result Ti32 gebZ).
  3: pose proof (branch_result Tu32 Z.ltb) as Hb.
  4: pose proof (branch_result Tu32 gebZ) as Hb.
  all: rewrite !cast_u32_id in Hb by done; exact Hb.
Qed.

Lemma jump_ok link t t' :
  u32 t = t' mod 2 ^ 32 ->
  result_ok (Ret tt (mkH (set_ip (u32 t) (set_gpr 0 (u32 0) (set_gpr (rd raw) (u32 link) c)))
                       (u32 t) m))
    s (Next (goto t' (wx (slice 11 7 raw) link s))).
Proof using Hinv HR.
  intros Ht. eexists; split; [done|]. split_and!; [|done|apply HR].
  rewrite <- rd_slice. apply refines_goto, refines_ip, refines_wx; auto with rvdbt.
  - apply inv_len.
  - apply HR.
Qed.

Lemma jump_refines op :
  op = _jal \/ op = _jalr -> result_ok (Handler weaks op raw (mkH c gip m)) s (isa_exec op raw s).
Proof using Hinv HR Hal.
  intros [-> | ->]; run_handler; cbn [isa_exec]; rewrite ?rx_rs1, <- ?I_imm_isa, <- ?J_imm_isa;
    unfold isa_jump; replace (pc s) with gip by apply HR.
  - rewrite rem4_mod4, (aligned_target gip) by done. destruct (_ =? 0) eqn:E; cbn [negb].
    + apply jump_ok. symmetry. apply Zmod_mod.
    + eexists; split_and!; done || apply HR.
  - rewrite clear_bit0 by (apply uN_range; lia). cbv zeta. rewrite rem4_mod4.
    destruct (_ =? 0) eqn:E; cbn [negb].
    + by apply jump_ok.
    + eexists; split_and!; done || apply HR.
Qed.

Lemma Handler_refines_base op :
  isa_base op = true -> result_ok (Handler weaks op raw (mkH c gip m)) s (isa_exec op raw s).
Proof using Hinv HR Hal.
  intros Hb. destruct op; try discriminate Hb;
    first [ by apply arith_refines | by apply mem_refines | by apply upper_refines
          | by apply branch_refines | by apply jump_refines; auto
          | apply trap_refines; by auto | apply fence_refines; by auto ].
Qed.
End handlers.

(** Every handler of a base instruction implements the reference
    semantics: from related states the handler computes the state the manual
    prescribes, or raises the prescribed trap with registers and memory
    untouched and [ip] at the instruction, or faults on an unmapped access
    with the state untouched. *)
Theorem Handler_refines_isa weaks op raw σ s :
  cpu_wf (h_cpu σ) -> in_u 32 (h_gip σ) -> mem_wf (h_mem σ) -> h_gip σ mod 4 = 0 ->
  isa_base op = true -> R σ s ->
  result_ok (Handler weaks op raw σ) s (isa_exec op raw s).
Proof.
  intros Hc Hg Hm Hal Hb HR. assert (Hi : hinv σ) by (by apply hinv_wf).
  destruct σ as [c gip m]. by apply Handler_refines_base.
Qed.

(** ** Whole executions *)

(** The opcode of the word, by search of the tables: that of the manual for
    every encoding, and for a reserved word the opcode whose fixed bits it has
    up to those of [Decoder.ignored]. *)
Definition isa_decode (raw : Z) : Op :=
  default _ill (head (filter (fun op => op <> _ill /\ Decoder.accepts op raw = true) all_ops)).

Lemma isa_decode_Decode raw : isa_decode raw = Decoder.Decode raw.
Proof.
  unfold isa_decode.
  destruct (filter _ all_ops) as [|op l] eqn:E; cbn [head from_option id].
  - destruct (Decoder.Decode_sound raw) as [->|H]; [done|].
    destruct (decide (Decoder.Decode raw = _ill)) as [->|Hne]; [done|].
    assert (Hin : Decoder.Decode raw ∈ filter (fun op => op <> _ill /\ Decoder.accepts op raw = true) all_ops).
    { apply list_elem_of_filter. split; [done|apply all_ops_complete]. }
    rewrite E in Hin. by apply not_elem_of_nil in Hin.
  - assert (Hin : op ∈ filter (fun op => op <> _ill /\ Decoder.accepts op raw = true) all_ops)
      by (rewrite E; left).
    apply list_elem_of_filter in Hin as [[? ?] _]. symmetry. by apply Decoder.Decode_complete.
Qed.

(** Every encoding of the manual is decoded as the manual says. *)
Lemma isa_decode_encoding op raw : op <> _ill -> Decoder.isa_matches op raw = true -> isa_decode raw = op.
Proof.
  intros Hop Hm. rewrite isa_decode_Decode. rewrite Decoder.isa_matches_accepts in Hm.
  apply andb_true_iff in Hm as [Hm _]. by apply Decoder.Decode_complete.
Qed.

(** Fetch, decode by the tables, execute.  [None]: not a base instruction. *)
Definition isa_step (s : isa_state) : option isa_result :=
  match isa_read 4 (dmem s) (pc s) with
  | None => Some AccessFault
  | Some raw => if isa_base (isa_decode raw) then Some (isa_exec (isa_decode raw) raw s) else None
  end.

(** Run to the first trap or fault; the state it happens in is returned. *)
Fixpoint isa_run (fuel : nat) (s : isa_state) : option (isa_state * isa_result) :=
  match fuel with
  | O => None
  | S fuel => r ← isa_step s;
              match r with Next s' => isa_run fuel s' | _ => Some (s, r) end
  end.

Lemma isa_exec_aligned op raw s s' :
  pc s mod 4 = 0 -> isa_exec op raw s = Next s' -> pc s' mod 4 = 0.
Proof.
  intros Hal. assert (Hs : (pc s + 4) mod 2 ^ 32 mod 4 = 0) by (change (2 ^ 32) with 4294967296; zlia).
  assert (Hgo : forall t, t mod 4 = 0 -> (t mod 2 ^ 32) mod 4 = 0)
    by (intros; change (2 ^ 32) with 4294967296; zlia).
  destruct op; cbn [isa_exec]; unfold isa_jump, isa_branch, isa_load, isa_store, isa_arith;
    cbn [isa_access isa_alu isa_cond]; try discriminate;
    repeat (case_match; try discriminate); intros [= <-]; bool_to_prop; cbn; auto.
Qed.

Lemma isa_step_aligned s s' : pc s mod 4 = 0 -> isa_step s = Some (Next s') -> pc s' mod 4 = 0.
Proof.
  intros Hal. unfold isa_step. destruct (isa_read _ _ _) as [raw|]; [|done].
  destruct (isa_base _); [|done]. intros Hs%(inj Some). by eapply isa_exec_aligned.
Qed.

Lemma dispatch_refines weaks σ s :
  hinv σ -> pc s mod 4 = 0 -> R σ s ->
  forall r, isa_step s = Some r ->
  match r with
  | AccessFault => exists σ', dispatch weaks σ = Faulted σ' /\ R σ' s
  | _ => result_ok (dispatch weaks σ) s r
  end.
Proof.
  intros Hi Hal HR r. unfold isa_step, dispatch, fetch.
  destruct σ as [c gip m]. pose proof HR as (_ & Hg & Hm). cbn in Hg, Hm. subst gip m. cbn [h_gip h_mem].
  rewrite isa_read_load_le by apply Hi. destruct (load_le _ _ _) as [raw|].
  - rewrite isa_decode_Decode. destruct (isa_base _) eqn:Hb; [|done]. intros <-%(inj Some).
    pose proof (Handler_refines_base weaks raw c (pc s) (dmem s) s Hi HR Hal _ Hb) as Hok.
    destruct (isa_exec _ _ _); [done..|]. destruct Hok as (σ' & -> & ? & _). by exists σ'.
  - intros [= <-]. by eexists.
Qed.

(** C3 The interpreter runs programs as the ISA says: when the reference
    machine, started in a related state, reaches a trap (or an access fault)
    within [fuel] instructions having executed base instructions only, the
    interpreter's loop leaves with that trap and the reference registers,
    program counter and memory (or in the fault path, with the same state). *)
Theorem Interpreter_Execute_refines_isa fuel weaks c m s s' r :
  cpu_wf c -> mem_wf m -> ip c mod 4 = 0 -> R (mkH c (ip c) m) s ->
  isa_run fuel s = Some (s', r) ->
  match r with
  | Trap t => exists σ, Interpreter_Execute fuel weaks c m = Some (Raised σ) /\ R σ s' /\
                        trapno (h_cpu σ) = t /\ ip (h_cpu σ) = pc s'
  | AccessFault => exists σ, Interpreter_Execute fuel weaks c m = Some (Faulted σ) /\ R σ s'
  | Next _ => False
  end.
Proof.
  intros Hc Hm Hal HR. unfold Interpreter_Execute.
  assert (Hi : hinv (mkH c (ip c) m)) by (apply hinv_wf; split_and!; try done; apply Hc).
  assert (Hal' : pc s mod 4 = 0) by (destruct HR as (_ & <- & _); done).
  revert Hi HR Hal'. generalize (mkH c (ip c) m). revert s.
  induction fuel as [|fuel IH]; intros s σ Hi HR Hal'; [done|]. cbn [isa_run interp_loop].
  intros (r' & Hr & Hs)%bind_Some.
  pose proof (dispatch_refines weaks σ s Hi Hal' HR r' Hr) as Hd.
  pose proof (dispatch_triple weaks σ Hi) as Hd'. destruct r' as [s1|t|].
  - destruct Hd as (σ1 & E & HR1). rewrite E in *. apply (IH s1); try done.
    by eapply isa_step_aligned.
  - injection Hs as <- <-. destruct Hd as (σ1 & -> & ?). by exists σ1.
  - injection Hs as <- <-. destruct Hd as (σ1 & -> & ?). by exists σ1.
Qed.

(** A concrete program: [li a0, 5; addi a1, a0, -7; sw a1, 0x100(zero);
    lbu a2, 0x103(zero); bltu a0, a1, +8; ebreak; ecall]. *)
Definition demo_mem : mem :=
  mem_of_words 0 ([0x00500513; 0xff950593; 0x10b02023; 0x10304603; 0x00b56463; 0x00100073; 0x00000073]
                  ++ replicate 64 0).
Definition demo_isa : isa_state := mkIsa (fun _ => 0) 0 demo_mem.

Lemma demo_R : R (mkH CPUState_init 0 demo_mem) demo_isa.
Proof.
  split_and!; [|done|done]. intros r Hr. unfold rx, get_gpr.
  change (gpr _) with (replicate gpr_num 0). rewrite lookup_total_replicate_2 by (unfold gpr_num; lia).
  by case_match.
Qed.

Lemma Handler_refines_isa_witness :
  result_ok (Handler [] _addi 0xff950593 (mkH CPUState_init 0 demo_mem)) demo_isa
    (isa_exec _addi 0xff950593 demo_isa).
Proof.
  apply (Handler_refines_isa [] _addi 0xff950593 (mkH CPUState_init 0 demo_mem) demo_isa);
    [apply cpu_wf_init|split; cbn; lia|apply mem_of_words_wf|reflexivity|reflexivity|apply demo_R].
Defined.

(** The reference machine stops at the [ecall] with [a2 = 0xff]. *)
Lemma demo_run :
  match isa_run 7 demo_isa with
  | Some (s', Trap ECALL) => (pc s' =? 24) && (rx s' 12 =? 0xff)
  | _ => false
  end = true.
Proof. vm_compute. reflexivity. Qed.

Lemma Interpreter_Execute_refines_isa_witness :
  exists σ, Interpreter_Execute 7 [] CPUState_init demo_mem = Some (Raised σ) /\
    trapno (h_cpu σ) = ECALL /\ ip (h_cpu σ) = 24 /\ get_gpr (h_cpu σ) 12 = 0xff.
Proof.
  pose proof demo_run as Hd.
  destruct (isa_run 7 demo_isa) as [[s' [|[]|]]|] eqn:E; try discriminate Hd.
  pose proof (Interpreter_Execute_refines_isa 7 [] CPUState_init demo_mem demo_isa s' (Trap ECALL)
    cpu_wf_init (mem_of_words_wf _ _) eq_refl demo_R E) as (σ & Hx & HR & Ht & Hip).
  apply andb_true_iff in Hd as [Hpc%Z.eqb_eq Ha2%Z.eqb_eq].
  exists σ. split; [exact Hx|]. split; [exact Ht|]. split; [exact (eq_trans Hip Hpc)|].
  refine (eq_trans (proj1 HR 12 _) Ha2). lia.
Defined.

Lemma demo_exec :
  match Interpreter_Execute 7 [] CPUState_init demo_mem with Some (Raised _) => true | _ => false end
  = true.
Proof. vm_compute. reflexivity. Qed.

Lemma Interpreter_Execute_invariant_witness :
  exists σ, Interpreter_Execute 7 [] CPUState_init demo_mem = Some (Raised σ) /\
    cpu_wf (h_cpu σ) /\ mem_wf (h_mem σ).
Proof.
  pose proof demo_exec as Hd.
  destruct (Interpreter_Execute 7 [] CPUState_init demo_mem) as [[|σ| |]|] eqn:E; try discriminate Hd.
  exists σ. split; [reflexivity|].
  exact (Interpreter_Execute_invariant 7 [] CPUState_init demo_mem (Raised σ)
    cpu_wf_init (mem_of_words_wf _ _) E).
Defined.
