(* ===== verification/VOperand.v ===== *)
(** * QuickIR operands (VOperand of src/dbt/qmc/qir.h)

    An operand is one 64-bit word built from bit fields.  [Packed] models the
    word and the static constructors and accessors that work on it; the
    inductive type [VOperand] is the abstract view that the rest of the
    development uses, and [Packed.unpack_pack] shows that the accessors of
    the word read back exactly that view. *)

From stdpp Require Import base tactics numbers list.
From S2P Require Import Prelude Bitfield.

Inductive VType := UNDEF | I8 | I16 | I32.

#[export] Instance VType_eq_dec : EqDecision VType.
Proof. solve_decision. Defined.

(** [VTypeToSize]; [UNDEF] reaches [unreachable]. *)
Definition VTypeToSize (t : VType) : option Z :=
  match t with
  | I8 => Some 1
  | I16 => Some 2
  | I32 => Some 4
  | UNDEF => None
  end.

Inductive VSign := VSign_U | VSign_S.

#[export] Instance VSign_eq_dec : EqDecision VSign.
Proof. solve_decision. Defined.

(** [RegN] is a [u16] and [RegNBad] its all-ones value. *)
Definition RegNBad : Z := u16 (-1).

Inductive VOperand :=
| VConst (t : VType) (c : Z)
| VGPR (t : VType) (r : Z)
| PGPR (t : VType) (r : Z)
| VSlot (is_glob : bool) (t : VType) (offs : Z)
| VBad.

#[export] Instance VOperand_eq_dec : EqDecision VOperand.
Proof. solve_decision. Defined.

(** The values the fields can hold. *)
Definition voperand_wf (v : VOperand) : Prop :=
  match v with
  | VConst _ c => in_u 32 c
  | VGPR _ r | PGPR _ r => in_u 16 r
  | VSlot _ _ offs => in_u 16 offs
  | VBad => True
  end.

Module Packed.

Definition Kind_CONST : Z := 0.
Definition Kind_GPR : Z := 1.
Definition Kind_SLOT : Z := 2.
Definition Kind_BAD : Z := 3.
Definition Kind_Count : Z := 4.
Definition VType_Count : Z := 4.

(** [to_underlying] of the enums. *)
Definition vtype_num (t : VType) : Z :=
  match t with UNDEF => 0 | I8 => 1 | I16 => 2 | I32 => 3 end.
Definition vtype_of_num (z : Z) : VType :=
  if z =? 1 then I8 else if z =? 2 then I16 else if z =? 3 then I32 else UNDEF.

(** [enum_bits(e) = std::bit_width(to_underlying(e) - 1u)]. *)
Definition bit_width (z : Z) : Z := if z =? 0 then 0 else Z.log2 z + 1.
Definition enum_bits (e : Z) : Z := bit_width (u32 (e - 1)).

(** A field: result type, low and high bit; [next] starts after [f]. *)
Record field := Field { f_T : ity; f_l : Z; f_h : Z }.
Definition bf_first (T : ity) (sz : Z) : field := Field T 0 (sz - 1).
Definition next (f : field) (T : ity) (sz : Z) : field := Field T (f_h f + 1) (f_h f + sz).

Definition f_kind : field := bf_first Tu8 (enum_bits Kind_Count).
Definition f_type : field := next f_kind Tu8 (enum_bits VType_Count).
Definition f_is_virtual : field := next f_type Tbool 1.
Definition f_reg : field := next f_is_virtual Tu16 16.
Definition f_const : field := next f_is_virtual Tu32 32.
Definition f_slot_offs : field := next f_is_virtual Tu16 16.
Definition f_slot_is_global : field := next f_slot_offs Tbool 1.

(** [f::encode(value, x)] and [f::decode(value)] on a [uptr]. *)
Definition enc (f : field) (value x : Z) : Z := bf_range.encode (f_l f) (f_h f) Tu64 value x.
Definition dec (f : field) (value : Z) : Z := bf_range.decode (f_T f) (f_l f) (f_h f) Tu64 value.
Definition b2z (b : bool) : Z := if b then 1 else 0.

(** ** Constructors *)
Definition MakeBad : Z := enc f_kind 0 Kind_BAD.
Definition MakeVGPR (type : VType) (reg : Z) : Z :=
  let value := 0 in
  let value := enc f_kind value Kind_GPR in
  let value := enc f_type value (vtype_num type) in
  let value := enc f_is_virtual value (b2z true) in
  enc f_reg value reg.
Definition MakePGPR (type : VType) (reg : Z) : Z :=
  let value := 0 in
  let value := enc f_kind value Kind_GPR in
  let value := enc f_type value (vtype_num type) in
  enc f_reg value reg.
Definition MakeConst (type : VType) (cval : Z) : Z :=
  let value := 0 in
  let value := enc f_kind value Kind_CONST in
  let value := enc f_type value (vtype_num type) in
  enc f_const value cval.
Definition MakeSlot (is_glob : bool) (type : VType) (offs : Z) : Z :=
  let value := 0 in
  let value := enc f_kind value Kind_SLOT in
  let value := enc f_type value (vtype_num type) in
  let value := enc f_slot_offs value offs in
  enc f_slot_is_global value (b2z is_glob).

(** ** Accessors; a violated assertion is [None] *)
Definition GetKind (value : Z) : Z := dec f_kind value.
Definition FlagV (value : Z) : bool := negb (dec f_is_virtual value =? 0).
Definition GetType (value : Z) : VType := vtype_of_num (dec f_type value).
Definition IsConst (value : Z) : bool := GetKind value =? Kind_CONST.
Definition IsGPR (value : Z) : bool := GetKind value =? Kind_GPR.
Definition IsSlot (value : Z) : bool := GetKind value =? Kind_SLOT.
Definition IsV (value : Z) : option bool := if IsGPR value then Some (FlagV value) else None.
Definition IsPGPR (value : Z) : bool := IsGPR value && negb (FlagV value).
Definition IsVGPR (value : Z) : bool := IsGPR value && FlagV value.
Definition IsGSlot (value : Z) : bool := IsSlot value && negb (dec f_slot_is_global value =? 0).
Definition IsLSlot (value : Z) : bool := IsSlot value && (dec f_slot_is_global value =? 0).
Definition GetConst (value : Z) : option Z :=
  if IsConst value then Some (dec f_const value) else None.
Definition GetPGPR (value : Z) : option Z :=
  if IsPGPR value then Some (dec f_reg value) else None.
Definition GetVGPR (value : Z) : option Z :=
  if IsVGPR value then Some (dec f_reg value) else None.
Definition GetSlotOffs (value : Z) : option Z :=
  if IsSlot value then Some (dec f_slot_offs value) else None.

(** ** The abstract view of a word *)
Definition pack (v : VOperand) : Z :=
  match v with
  | VConst t c => MakeConst t c
  | VGPR t r => MakeVGPR t r
  | PGPR t r => MakePGPR t r
  | VSlot g t offs => MakeSlot g t offs
  | VBad => MakeBad
  end.

Definition unpack (value : Z) : VOperand :=
  if IsConst value then VConst (GetType value) (dec f_const value)
  else if IsVGPR value then VGPR (GetType value) (dec f_reg value)
  else if IsPGPR value then PGPR (GetType value) (dec f_reg value)
  else if IsSlot value then VSlot (IsGSlot value) (GetType value) (dec f_slot_offs value)
  else VBad.

Definition field_ok (f : field) : Prop := bf_range.wf (f_T f) (f_l f) (f_h f) Tu64 /\ isigned (f_T f) = false.

Lemma dec_enc f value x :
  field_ok f -> in_u (f_h f - f_l f + 1) x -> dec f (enc f value x) = x.
Proof. intros [Hw Hs] Hx. by apply (bf_range.decode_encode (f_T f) Tu64). Qed.

Lemma dec_enc_ne f f' value x :
  field_ok f -> field_ok f' -> f_h f < f_l f' \/ f_h f' < f_l f -> dec f (enc f' value x) = dec f value.
Proof.
  intros [Hw Hs] [Hw' Hs'] Hd.
  by apply (bf_range.decode_encode_disjoint (f_T f') Tu64 (f_l f') (f_h f') Hw').
Qed.

Lemma dec_0 f : field_ok f -> dec f 0 = 0.
Proof.
  intros [Hw Hs]. unfold dec. rewrite (bf_range.decode_unsigned (f_T f) Tu64) by done.
  rewrite Z.shiftr_0_l. apply uN_0.
Qed.

(** Read a field of a freshly built word. *)
Ltac ok := split; [vm_compute; repeat split; congruence|reflexivity].
Ltac field_read :=
  repeat match goal with
    | |- context [dec ?f 0] => rewrite (dec_0 f) by ok
    | |- context [dec ?f (enc ?f ?v ?x)] =>
        rewrite (dec_enc f v x) by first [ok | assumption | split; vm_compute; congruence]
    | |- context [dec ?f (enc ?g ?v ?x)] =>
        rewrite (dec_enc_ne f g v x)
          by first [ok | left; vm_compute; reflexivity | right; vm_compute; reflexivity]
    end.

Lemma vtype_num_range t : in_u (f_h f_type - f_l f_type + 1) (vtype_num t).
Proof. destruct t; split; vm_compute; congruence. Qed.
Lemma vtype_num_inv t : vtype_of_num (vtype_num t) = t.
Proof. by destruct t. Qed.

(** C33 Packing an operand into its 64-bit word and reading the word back with
    the accessors is the identity: kind, type, register number, constant and
    slot offset of every operand whose fields fit survive. *)
Theorem unpack_pack v : voperand_wf v -> unpack (pack v) = v.
Proof.
  pose proof vtype_num_range as Ht.
  destruct v as [t c|t r|t r|g t offs|]; cbn [voperand_wf pack]; intros Hv;
    unfold unpack, IsConst, IsVGPR, IsPGPR, IsGSlot, IsSlot, IsGPR, FlagV, GetKind, GetType,
      MakeConst, MakeVGPR, MakePGPR, MakeSlot, MakeBad; cbv zeta;
    try specialize (Ht t).
  - field_read. rewrite vtype_num_inv. reflexivity.
  - field_read. rewrite vtype_num_inv. reflexivity.
  - field_read. rewrite vtype_num_inv. reflexivity.
  - destruct g; field_read; rewrite vtype_num_inv; reflexivity.
  - field_read. reflexivity.
Qed.

Lemma unpack_pack_witness : unpack (pack (VSlot true I32 128)) = VSlot true I32 128.
Proof. apply (unpack_pack (VSlot true I32 128)). split; vm_compute; congruence. Defined.

End Packed.
