(* ===== verification/Qir.v ===== *)
(** * QuickIR (src/dbt/qmc/qir.h, qir_ops.h, qir.cpp, runtime_stubs.h)

    Instructions, blocks, virtual registers and regions.  Blocks are named by
    their id, which is their position in the region's list: [CreateBlock]
    numbers blocks consecutively and appends them. *)

From stdpp Require Import base tactics numbers list strings.
From S2P Require Import Prelude VOperand RV32Insn.

(** ** Runtime stubs *)
Inductive RuntimeStubId :=
| id_escape_link | id_escape_brind | id_link_branch_jit | id_link_branch_aot
| id_link_branch_llvmaot | id_brind | id_raise | id_trace | id_nevercalled
| id_rv32_ill | id_rv32_fence | id_rv32_fencei | id_rv32_ecall | id_rv32_ebreak
| id_rv32_lrw | id_rv32_scw | id_rv32_amoswapw | id_rv32_amoaddw | id_rv32_amoxorw
| id_rv32_amoandw | id_rv32_amoorw | id_rv32_amominw | id_rv32_amomaxw
| id_rv32_amominuw | id_rv32_amomaxuw.

#[global] Instance RuntimeStubId_eq_dec : EqDecision RuntimeStubId.
Proof. solve_decision. Defined.

Definition all_stubs : list RuntimeStubId :=
  [ id_escape_link; id_escape_brind; id_link_branch_jit; id_link_branch_aot;
    id_link_branch_llvmaot; id_brind; id_raise; id_trace; id_nevercalled;
    id_rv32_ill; id_rv32_fence; id_rv32_fencei; id_rv32_ecall; id_rv32_ebreak;
    id_rv32_lrw; id_rv32_scw; id_rv32_amoswapw; id_rv32_amoaddw; id_rv32_amoxorw;
    id_rv32_amoandw; id_rv32_amoorw; id_rv32_amominw; id_rv32_amomaxw;
    id_rv32_amominuw; id_rv32_amomaxuw ].

(** [to_underlying(id)] and [RuntimeStubTab::offs]. *)
Definition stub_num (id : RuntimeStubId) : Z :=
  from_option (fun p => Z.of_nat p.1) 0 (list_find (fun x => x = id) all_stubs).
Definition RuntimeStubTab_offs (id : RuntimeStubId) : Z := 8 * stub_num id.

(** The handler behind a guest stub ([qcgstub_rv32_##name]). *)
Definition stub_rv32 (id : RuntimeStubId) : option insn.Op :=
  match id with
  | id_rv32_ill => Some insn._ill
  | id_rv32_fence => Some insn._fence
  | id_rv32_fencei => Some insn._fencei
  | id_rv32_ecall => Some insn._ecall
  | id_rv32_ebreak => Some insn._ebreak
  | id_rv32_lrw => Some insn._lrw
  | id_rv32_scw => Some insn._scw
  | id_rv32_amoswapw => Some insn._amoswapw
  | id_rv32_amoaddw => Some insn._amoaddw
  | id_rv32_amoxorw => Some insn._amoxorw
  | id_rv32_amoandw => Some insn._amoandw
  | id_rv32_amoorw => Some insn._amoorw
  | id_rv32_amominw => Some insn._amominw
  | id_rv32_amomaxw => Some insn._amomaxw
  | id_rv32_amominuw => Some insn._amominuw
  | id_rv32_amomaxuw => Some insn._amomaxuw
  | _ => None
  end.

Module qir.

(** ** Opcodes *)
Inductive Op :=
| _hcall | _br | _brcc | _gbr | _gbrind | _vmload | _vmstore | _setcc
| _mov
| _add | _sub | _and | _or | _xor | _sra | _srl | _sll.

#[global] Instance Op_eq_dec : EqDecision Op.
Proof. solve_decision. Defined.

Definition op_num (op : Op) : Z :=
  match op with
  | _hcall => 0 | _br => 1 | _brcc => 2 | _gbr => 3 | _gbrind => 4 | _vmload => 5
  | _vmstore => 6 | _setcc => 7 | _mov => 8 | _add => 9 | _sub => 10 | _and => 11
  | _or => 12 | _xor => 13 | _sra => 14 | _srl => 15 | _sll => 16
  end.

(** [HasOpcode] of the two instruction classes: opcode ranges. *)
Definition InstUnop_HasOpcode (op : Op) : bool :=
  (op_num _mov <=? op_num op) && (op_num op <=? op_num _mov).
Definition InstBinop_HasOpcode (op : Op) : bool :=
  (op_num _add <=? op_num op) && (op_num op <=? op_num _sll).

(** [Inst::Flags]. *)
Definition SIDEEFF : Z := Z.shiftl 1 0.
Definition REXIT : Z := Z.shiftl 1 1.
Definition HAS_CALLS : Z := Z.shiftl 1 2.

Definition GetOpFlags (op : Op) : Z :=
  match op with
  | _hcall => Z.lor SIDEEFF HAS_CALLS
  | _gbr | _gbrind => REXIT
  | _vmload | _vmstore => SIDEEFF
  | _ => 0
  end.

(** [op_info[op].n_out], [op_info[op].n_in]. *)
Definition n_out (op : Op) : nat :=
  match op with
  | _hcall | _br | _brcc | _gbr | _gbrind | _vmstore => 0
  | _ => 1
  end.
Definition n_in (op : Op) : nat :=
  match op with
  | _br | _gbr => 0
  | _hcall | _gbrind | _vmload | _mov => 1
  | _ => 2
  end.

(** ** Condition codes *)
Inductive CondCode := EQ | NE | LE | LT | GE | GT | LEU | LTU | GEU | GTU.

#[global] Instance CondCode_eq_dec : EqDecision CondCode.
Proof. solve_decision. Defined.

Definition InverseCC (cc : CondCode) : CondCode :=
  match cc with
  | EQ => NE | NE => EQ | LE => GT | LT => GE | GE => LT | GT => LE
  | LEU => GTU | LTU => GEU | GEU => LTU | GTU => LEU
  end.

Definition SwapCC (cc : CondCode) : CondCode :=
  match cc with
  | EQ => EQ | NE => NE | LE => GE | LT => GT | GE => LE | GT => LT
  | LEU => GEU | LTU => GTU | GEU => LEU | GTU => LTU
  end.

(** ** Instructions: the classes [Inst*] with their payload *)
Inductive Inst :=
| InstHcall (stub : RuntimeStubId) (arg : VOperand)
| InstBr
| InstBrcc (cc : CondCode) (s1 s2 : VOperand)
| InstGBr (tpc : VOperand)
| InstGBrind (tpc : VOperand)
| InstVMLoad (sz : VType) (sgn : VSign) (d ptr : VOperand)
| InstVMStore (sz : VType) (sgn : VSign) (ptr val : VOperand)
| InstSetcc (cc : CondCode) (d sl sr : VOperand)
| InstUnop (op : Op) (d s : VOperand)
| InstBinop (op : Op) (d sl sr : VOperand).

#[global] Instance Inst_eq_dec : EqDecision Inst.
Proof. solve_decision. Defined.

Definition GetOpcode (i : Inst) : Op :=
  match i with
  | InstHcall _ _ => _hcall
  | InstBr => _br
  | InstBrcc _ _ _ => _brcc
  | InstGBr _ => _gbr
  | InstGBrind _ => _gbrind
  | InstVMLoad _ _ _ _ => _vmload
  | InstVMStore _ _ _ _ => _vmstore
  | InstSetcc _ _ _ _ => _setcc
  | InstUnop op _ _ => op
  | InstBinop op _ _ _ => op
  end.

(** [outputs()] and [inputs()]. *)
Definition outputs (i : Inst) : list VOperand :=
  match i with
  | InstVMLoad _ _ d _ | InstSetcc _ d _ _ | InstUnop _ d _ | InstBinop _ d _ _ => [d]
  | _ => []
  end.
Definition inputs (i : Inst) : list VOperand :=
  match i with
  | InstHcall _ a => [a]
  | InstGBrind t => [t]
  | InstBrcc _ a b | InstVMStore _ _ a b | InstSetcc _ _ a b | InstBinop _ _ a b => [a; b]
  | InstVMLoad _ _ _ p => [p]
  | InstUnop _ _ s => [s]
  | InstBr | InstGBr _ => []
  end.

(** The assertions of the constructors. *)
Definition inst_ok (i : Inst) : bool :=
  match i with
  | InstUnop op _ _ => InstUnop_HasOpcode op
  | InstBinop op _ _ _ => InstBinop_HasOpcode op
  | InstGBr (VConst _ _) => true
  | InstGBr _ => false
  | _ => true
  end.

(** Store new operands through [o(k)] and [i(k)]. *)
Definition set_outputs (i : Inst) (os : list VOperand) : Inst :=
  match i, os with
  | InstVMLoad sz sg _ p, [d] => InstVMLoad sz sg d p
  | InstSetcc cc _ a b, [d] => InstSetcc cc d a b
  | InstUnop op _ s, [d] => InstUnop op d s
  | InstBinop op _ a b, [d] => InstBinop op d a b
  | _, _ => i
  end.
Definition set_inputs (i : Inst) (vs : list VOperand) : Inst :=
  match i, vs with
  | InstHcall st _, [a] => InstHcall st a
  | InstGBrind _, [t] => InstGBrind t
  | InstBrcc cc _ _, [a; b] => InstBrcc cc a b
  | InstVMStore sz sg _ _, [a; b] => InstVMStore sz sg a b
  | InstSetcc cc d _ _, [a; b] => InstSetcc cc d a b
  | InstBinop op d _ _, [a; b] => InstBinop op d a b
  | InstVMLoad sz sg d _, [p] => InstVMLoad sz sg d p
  | InstUnop op d _, [s] => InstUnop op d s
  | _, _ => i
  end.

Lemma operand_counts i :
  inst_ok i = true ->
  length (outputs i) = n_out (GetOpcode i) /\ length (inputs i) = n_in (GetOpcode i).
Proof. by destruct i as [| | | | | | | |[]|[]]. Qed.

(** A list node: the instruction with its id and flags. *)
Record Node := mkNode { n_id : Z; n_flags : Z; n_inst : Inst }.

(** ** Blocks, virtual registers, regions *)
Record Block := mkBlock { ilist : list Node; succs : list nat; preds : list nat }.

Record StateReg := mkStateReg { state_offs : Z; sr_type : VType; sr_name : string }.
Abbreviation StateInfo := (list StateReg).
Definition GetStateReg (si : StateInfo) (idx : Z) : option StateReg :=
  if idx <? Z.of_nat (length si) then si !! Z.to_nat idx else None.

Record VRegsInfo := mkVRegs { glob_info : StateInfo; loc_info : list VType }.
Definition NumGlobals (v : VRegsInfo) : Z := Z.of_nat (length (glob_info v)).
Definition NumLocals (v : VRegsInfo) : Z := Z.of_nat (length (loc_info v)).
Definition NumAll (v : VRegsInfo) : Z := NumGlobals v + NumLocals v.
Definition IsGlobal (v : VRegsInfo) (idx : Z) : bool := idx <? NumGlobals v.
Definition IsLocal (v : VRegsInfo) (idx : Z) : bool := negb (IsGlobal v idx).
Definition GetGlobalInfo (v : VRegsInfo) (idx : Z) : option StateReg :=
  if IsGlobal v idx then glob_info v !! Z.to_nat idx else None.
Definition GetLocalType (v : VRegsInfo) (idx : Z) : option VType :=
  if IsLocal v idx then loc_info v !! Z.to_nat (idx - NumGlobals v) else None.
(** The new index is returned as a [RegN]. *)
Definition AddLocal (v : VRegsInfo) (type : VType) : VRegsInfo * Z :=
  (mkVRegs (glob_info v) (loc_info v ++ [type]), u16 (NumLocals v + NumGlobals v)).

Record Region := mkRegion {
  blist : list Block; vregs_info : VRegsInfo; inst_id_counter : Z; bb_id_counter : Z }.

Definition Region_init (si : StateInfo) : Region := mkRegion [] (mkVRegs si []) 0 0.

Definition GetNumBlocks (rn : Region) : Z := bb_id_counter rn.

(** [CreateBlock]: the id is the counter, which is the length of the list. *)
Definition CreateBlock (rn : Region) : Region * nat :=
  (mkRegion (blist rn ++ [mkBlock [] [] []]) (vregs_info rn) (inst_id_counter rn)
     (u32 (bb_id_counter rn + 1)),
   length (blist rn)).

(** [Region::Create]: a node with a fresh id, not yet linked. *)
Definition Create (rn : Region) (flags : Z) (i : Inst) : Region * Node :=
  (mkRegion (blist rn) (vregs_info rn) (u32 (inst_id_counter rn + 1)) (bb_id_counter rn),
   mkNode (inst_id_counter rn) flags i).

Definition upd_block (f : Block -> Block) (b : nat) (rn : Region) : Region :=
  mkRegion (alter f b (blist rn)) (vregs_info rn) (inst_id_counter rn) (bb_id_counter rn).
Definition upd_ilist (f : list Node -> list Node) : nat -> Region -> Region :=
  upd_block (fun b => mkBlock (f (ilist b)) (succs b) (preds b)).

(** [Block::AddSucc]. *)
Definition AddSucc (b succ : nat) (rn : Region) : Region :=
  upd_block (fun x => mkBlock (ilist x) (succs x) (preds x ++ [b])) succ
    (upd_block (fun x => mkBlock (ilist x) (succs x ++ [succ]) (preds x)) b rn).

(** [Region::GetVRegsInfo()->AddLocal]. *)
Definition Region_AddLocal (rn : Region) (type : VType) : Region * Z :=
  let '(v, idx) := AddLocal (vregs_info rn) type in
  (mkRegion (blist rn) v (inst_id_counter rn) (bb_id_counter rn), idx).

End qir.
