(* ===== verification/QirSem.v ===== *)
(** * Semantics of QuickIR

    QuickIR has no document of its own: an instruction means what the amd64
    code emitted for it does (src/dbt/qmc/qcg/qemit.cpp), so shift amounts
    count modulo 32, a load extends by its sign flag and a helper call runs
    the [qcgstub_rv32_*] function of the interpreter on the [CPUState].  One
    semantics serves every stage of the back end: a virtual register is a
    field of [CPUState] (a global) or a temporary (a local), a physical
    register and a frame slot are storage of their own.  An operand of 8 or 16
    bits reads the low bits of its storage; written to a physical register it
    leaves the other bits alone.  A frame slot is a byte range: writing one
    destroys the slots it overlaps.  Reading storage that was never written is
    [QStuck]. *)

From stdpp Require Import base tactics numbers list strings gmap.
From S2P Require Import Prelude Bitfield RV32Insn RV32Decode GuestState Interp VOperand Qir.

Import qir.

Record qstate := mkQ {
  q_cpu : CPUState; q_loc : gmap Z Z; q_pgpr : gmap Z Z; q_frame : gmap Z (Z * Z); q_mem : mem }.

Definition q_set_cpu (c : CPUState) (s : qstate) : qstate :=
  mkQ c (q_loc s) (q_pgpr s) (q_frame s) (q_mem s).
Definition q_set_loc (r v : Z) (s : qstate) : qstate :=
  mkQ (q_cpu s) (<[r := v]> (q_loc s)) (q_pgpr s) (q_frame s) (q_mem s).
Definition q_set_pgpr (r v : Z) (s : qstate) : qstate :=
  mkQ (q_cpu s) (q_loc s) (<[r := v]> (q_pgpr s)) (q_frame s) (q_mem s).
Definition q_set_frame (f : gmap Z (Z * Z)) (s : qstate) : qstate :=
  mkQ (q_cpu s) (q_loc s) (q_pgpr s) f (q_mem s).
Definition q_set_mem (m : mem) (s : qstate) : qstate :=
  mkQ (q_cpu s) (q_loc s) (q_pgpr s) (q_frame s) m.

(** Layout of [CPUState]: [gpr] at offset 0, [ip] behind it. *)
Definition offs_ip : Z := 128.
Definition cpu_read (c : CPUState) (offs : Z) : option Z :=
  if (0 <=? offs) && (offs <? offs_ip) && (offs mod 4 =? 0) then Some (get_gpr c (offs / 4))
  else if offs =? offs_ip then Some (ip c) else None.
Definition cpu_write (c : CPUState) (offs v : Z) : option CPUState :=
  if (0 <=? offs) && (offs <? offs_ip) && (offs mod 4 =? 0) then Some (set_gpr (offs / 4) v c)
  else if offs =? offs_ip then Some (set_ip v c) else None.

(** ** Widths *)
Definition trunc (t : VType) (x : Z) : Z :=
  match t with I8 => u8 x | I16 => u16 x | _ => x end.
Definition narrow (t : VType) (o : option Z) : option Z :=
  match t with I8 => u8 <$> o | I16 => u16 <$> o | _ => o end.
(** A register after a write of type [t]. *)
Definition merge_reg (t : VType) (old : option Z) (x : Z) : Z :=
  let old := default 0 old in
  match t with
  | I8 => Z.shiftl (Z.shiftr old 8) 8 + u8 x
  | I16 => Z.shiftl (Z.shiftr old 16) 16 + u16 x
  | _ => x
  end.

(** The spill frame: slots by offset, each with its size and value. *)
Definition slot_size (t : VType) : Z := default 4 (VTypeToSize t).
Definition frame_read (t : VType) (o : Z) (f : gmap Z (Z * Z)) : option Z :=
  match f !! o with
  | Some (n, x) => if n =? slot_size t then Some x else None
  | None => None
  end.
Definition frame_write (t : VType) (o x : Z) (f : gmap Z (Z * Z)) : gmap Z (Z * Z) :=
  let n := slot_size t in
  <[o := (n, x)]> (filter (fun '(o', (n', _)) => o' + n' <= o \/ o + n <= o') f).

Lemma narrow_Some t x : narrow t (Some x) = Some (trunc t x).
Proof. by destruct t. Qed.
Lemma trunc_trunc t x : trunc t (trunc t x) = trunc t x.
Proof. destruct t; cbn; rewrite ?uN_uN by lia; done. Qed.
Lemma narrow_fmap t o : narrow t o = trunc t <$> o.
Proof. by destruct t, o. Qed.
Lemma narrow_Some_inv t o x : narrow t o = Some x -> exists y, o = Some y /\ x = trunc t y.
Proof. rewrite narrow_fmap. intros (y & -> & ->)%fmap_Some. by exists y. Qed.

Lemma trunc_merge t old x : trunc t (merge_reg t old x) = trunc t x.
Proof.
  assert (H : forall n y, 0 <= n -> uN n (Z.shiftl (Z.shiftr y n) n + uN n x) = uN n x).
  { intros n y Hn. rewrite Z.shiftl_mul_pow2 by done. unfold uN. rewrite Z.add_comm, Z.mod_add, Z.mod_mod; lia. }
  destruct t; cbn; try done; by apply H.
Qed.
Lemma narrow_merge t old x : narrow t (Some (merge_reg t old x)) = narrow t (Some x).
Proof. by rewrite !narrow_Some, trunc_merge. Qed.
Lemma narrow_narrow t ty o : slot_size t <= slot_size ty -> narrow t (narrow ty o) = narrow t o.
Proof.
  intros H. rewrite !narrow_fmap. destruct o as [x|]; [|done]. cbn. f_equal.
  destruct t, ty; cbn in *; try done; try (unfold slot_size in H; cbn in H; lia); symmetry; unfold uN;
    symmetry; apply Zmod_mod || (rewrite <- Znumtheory.Zmod_div_mod; [done|lia..|]).
  all: exists (2 ^ 8); lia.
Qed.
Lemma narrow_idem t o : narrow t (narrow t o) = narrow t o.
Proof. apply narrow_narrow. lia. Qed.

Lemma frame_read_write t o x f : frame_read t o (frame_write t o x f) = Some x.
Proof. unfold frame_read, frame_write. by rewrite lookup_insert_eq, Z.eqb_refl. Qed.
Lemma frame_read_other t o x f t' o' :
  o' + slot_size t' <= o \/ o + slot_size t <= o' -> 1 <= slot_size t -> 1 <= slot_size t' ->
  frame_read t' o' (frame_write t o x f) = frame_read t' o' f.
Proof.
  intros Hd H1 H2. unfold frame_read, frame_write. rewrite lookup_insert_ne by lia.
  rewrite map_lookup_filter. destruct (f !! o') as [[n y]|] eqn:E; [|done]. cbn.
  destruct (Z.eqb_spec n (slot_size t')) as [->|Hn].
  - rewrite option_guard_True by done. cbn. by rewrite Z.eqb_refl.
  - case_guard; cbn; [|done]. by destruct (Z.eqb_spec n (slot_size t')).
Qed.

(** ** Operators *)
Definition eval_cc (cc : CondCode) (a b : Z) : bool :=
  match cc with
  | EQ => a =? b
  | NE => negb (a =? b)
  | LE => i32 a <=? i32 b
  | LT => i32 a <? i32 b
  | GE => i32 b <=? i32 a
  | GT => i32 b <? i32 a
  | LEU => a <=? b
  | LTU => a <? b
  | GEU => b <=? a
  | GTU => b <? a
  end.

Definition eval_binop (op : Op) (a b : Z) : option Z :=
  match op with
  | _add => Some (u32 (a + b))
  | _sub => Some (u32 (a - b))
  | _and => Some (Z.land a b)
  | _or => Some (Z.lor a b)
  | _xor => Some (Z.lxor a b)
  | _sra => Some (u32 (Z.shiftr (i32 a) (b mod 32)))
  | _srl => Some (Z.shiftr a (b mod 32))
  | _sll => Some (u32 (Z.shiftl a (b mod 32)))
  | _ => None
  end.

(** Type of a memory access. *)
Definition access_ity (sz : VType) (sgn : VSign) : option ity :=
  match VTypeToSize sz with
  | Some n => Some (ITy (8 * n) (match sgn with VSign_S => true | VSign_U => false end))
  | None => None
  end.

Lemma store_trunc sz sgn T m a v :
  access_ity sz sgn = Some T -> unaligned_store T m a (trunc sz v) = unaligned_store T m a v.
Proof.
  unfold access_ity, unaligned_store. destruct sz; cbn; intros [= <-]; [..|done]; f_equal;
    destruct sgn; unfold cast; cbn; by rewrite ?sN_uN, ?uN_uN by lia.
Qed.

(** ** Operands *)
Section operands.
Context (si : StateInfo).

Definition read_opnd (v : VOperand) (s : qstate) : option Z :=
  match v with
  | VConst _ c => Some c
  | VGPR t r =>
      narrow t
        match GetStateReg si r with
        | Some sr => cpu_read (q_cpu s) (state_offs sr)
        | None => q_loc s !! r
        end
  | PGPR t r => narrow t (q_pgpr s !! r)
  | VSlot true t offs => narrow t (cpu_read (q_cpu s) offs)
  | VSlot false t offs => narrow t (frame_read t offs (q_frame s))
  | VBad => None
  end.

Definition write_opnd (v : VOperand) (x : Z) (s : qstate) : option qstate :=
  match v with
  | VGPR _ r =>
      match GetStateReg si r with
      | Some sr => (fun c => q_set_cpu c s) <$> cpu_write (q_cpu s) (state_offs sr) x
      | None => Some (q_set_loc r x s)
      end
  | PGPR t r => Some (q_set_pgpr r (merge_reg t (q_pgpr s !! r) x) s)
  | VSlot true _ offs => (fun c => q_set_cpu c s) <$> cpu_write (q_cpu s) offs x
  | VSlot false t offs => Some (q_set_frame (frame_write t offs x (q_frame s)) s)
  | VConst _ _ | VBad => None
  end.
End operands.

(** ** Execution *)
Inductive qres :=
| QNext (s : qstate)
| QJump (succ : nat) (s : qstate)
| QExit (tpc : Z) (s : qstate)
| QRaised (s : qstate)
| QFaulted (s : qstate)
| QUndef
| QStuck.

Definition or_stuck {A} (o : option A) (k : A -> qres) : qres :=
  match o with Some a => k a | None => QStuck end.

Section exec.
(** [clob r] is what a helper call leaves in physical register [r]; [None]
    says that the call preserves the register. *)
Context (si : StateInfo) (clob : Z -> option Z) (weaks : list bool).

Definition clobber (s : qstate) : qstate :=
  mkQ (q_cpu s) (q_loc s) (map_imap (fun r v => Some (match clob r with Some j => u32 j | None => v end)) (q_pgpr s)) (q_frame s) (q_mem s).

Definition exec_hcall (stub : RuntimeStubId) (arg : Z) (s : qstate) : qres :=
  match stub_rv32 stub with
  | None => QStuck
  | Some op =>
      match qcgstub_rv32 weaks op arg (q_cpu s) (q_mem s) with
      | Ret _ σ => QNext (clobber (q_set_mem (h_mem σ) (q_set_cpu (h_cpu σ) s)))
      | Raised σ => QRaised (q_set_mem (h_mem σ) (q_set_cpu (h_cpu σ) s))
      | Faulted σ => QFaulted (q_set_mem (h_mem σ) (q_set_cpu (h_cpu σ) s))
      | Undefined => QUndef
      end
  end.

Definition exec_inst (i : Inst) (s : qstate) : qres :=
  let rd v k := or_stuck (read_opnd si v s) k in
  let wr d x := or_stuck (write_opnd si d x s) QNext in
  match i with
  | InstHcall stub arg => rd arg (fun a => exec_hcall stub a s)
  | InstBr => QJump 0 s
  | InstBrcc cc s1 s2 => rd s1 (fun a => rd s2 (fun b => QJump (if eval_cc cc a b then 0 else 1) s))
  | InstGBr tpc => rd tpc (fun t => QExit t s)
  | InstGBrind tpc => rd tpc (fun t => QExit t s)
  | InstVMLoad sz sgn d ptr =>
      rd ptr (fun a => or_stuck (access_ity sz sgn) (fun T =>
        match unaligned_load T (q_mem s) a with
        | Some v => wr d (u32 v)
        | None => QFaulted s
        end))
  | InstVMStore sz sgn ptr val =>
      rd ptr (fun a => rd val (fun v => or_stuck (access_ity sz sgn) (fun T =>
        match unaligned_store T (q_mem s) a v with
        | Some m => QNext (q_set_mem m s)
        | None => QFaulted s
        end)))
  | InstSetcc cc d sl sr => rd sl (fun a => rd sr (fun b => wr d (if eval_cc cc a b then 1 else 0)))
  | InstUnop op d v => if InstUnop_HasOpcode op then rd v (fun a => wr d a) else QStuck
  | InstBinop op d sl sr => rd sl (fun a => rd sr (fun b => or_stuck (eval_binop op a b) (wr d)))
  end.

(** A block falls off its end only when it is ill-formed. *)
Fixpoint exec_list (l : list Inst) (s : qstate) : qres :=
  match l with
  | [] => QNext s
  | i :: l => match exec_inst i s with QNext s' => exec_list l s' | r => r end
  end.

Definition exec_block (b : Block) (s : qstate) : qres := exec_list (n_inst <$> ilist b) s.

(** Run a region from block [b]: [None] when [fuel] blocks were entered
    without leaving the region. *)
Fixpoint exec_region (fuel : nat) (rn : Region) (b : nat) (s : qstate) : option qres :=
  match fuel with
  | O => None
  | S fuel =>
      match blist rn !! b with
      | None => Some QStuck
      | Some bb =>
          match exec_block bb s with
          | QJump k s' =>
              match succs bb !! k with
              | Some b' => exec_region fuel rn b' s'
              | None => Some QStuck
              end
          | QNext _ => Some QStuck
          | r => Some r
          end
      end
  end.

Lemma exec_list_app l1 l2 s :
  exec_list (l1 ++ l2) s = match exec_list l1 s with QNext s' => exec_list l2 s' | r => r end.
Proof.
  revert s. induction l1 as [|i l1 IH]; intros s; cbn [exec_list app]; [done|].
  destruct (exec_inst i s); try done.
Qed.
End exec.

(** Two runs of a region related by [R]: they end after the same number of
    blocks, or both go on.  A run that gets stuck is related to every other. *)
Definition region_rel (R : qres -> qres -> Prop) (o o' : option qres) : Prop :=
  match o with
  | Some QStuck => True
  | Some r => exists r', o' = Some r' /\ R r r'
  | None => o' = None
  end.
Lemma qres_stuck_dec (r : qres) : {r = QStuck} + {r <> QStuck}.
Proof. destruct r; first [by left|by right]. Defined.
Lemma region_rel_Some (R : qres -> qres -> Prop) r r' : R r r' -> region_rel R (Some r) (Some r').
Proof. intros H. destruct r; try done; by eexists. Qed.
Lemma region_rel_end (R : qres -> qres -> Prop) o o' r :
  region_rel R o o' -> o = Some r -> r <> QStuck -> exists r', o' = Some r' /\ R r r'.
Proof. intros H -> Hns. by destruct r. Qed.

(** ** Condition codes *)

(** [InverseCC] computes the code of the negated condition and [SwapCC]
    the code for exchanged operands, for all ten codes and all operands. *)
Theorem cc_transforms cc a b :
  eval_cc (InverseCC cc) a b = negb (eval_cc cc a b) /\ eval_cc (SwapCC cc) a b = eval_cc cc b a.
Proof.
  destruct cc; cbn [InverseCC SwapCC eval_cc]; rewrite ?negb_involutive, 1?Z.eqb_sym;
    rewrite <- ?Z.ltb_antisym, <- ?Z.leb_antisym; auto.
Qed.
