(* ===== verification/QirBuilder.v ===== *)
(** * Building QuickIR (src/dbt/qmc/qir_builder.h, qir_opt.cpp)

    A [Builder] is a block and an insertion point; every created instruction
    goes in front of the insertion point and then through the folder.  The
    insertion point is the position of the node it points to, so inserting
    moves it by one. *)

From stdpp Require Import base tactics numbers list strings gmap.
From S2P Require Import Prelude Bitfield RV32Insn RV32Decode GuestState Interp VOperand Qir QirSem.

Import qir.

Definition insert_at {A} (l : list A) (pos : nat) (x : A) : list A := take pos l ++ x :: drop pos l.
Definition erase_at {A} (l : list A) (pos : nat) : list A := take pos l ++ drop (S pos) l.

Record Builder := mkBuilder { b_bb : nat; b_it : nat }.

(** [Builder(bb)]: the insertion point is the end of the block. *)
Definition Builder_at_end (rn : Region) (b : nat) : Builder :=
  mkBuilder b (from_option (fun x => length (ilist x)) 0%nat (blist rn !! b)).

(** ** The folder

    [visit_add] swaps a constant first operand to the second place and turns
    a sum of constants or a sum with zero into a [mov]; the result is the
    instruction as it was left and the [mov] created for it, if any. *)
Definition visit_add (vd vs0 vs1 : VOperand) : Inst * option Inst :=
  match vs0, vs1 with
  | VConst _ c0, VConst _ c1 =>
      (InstBinop _add vd vs0 vs1, Some (InstUnop _mov vd (VConst I32 (u32 (c0 + c1)))))
  | _, _ =>
      let '(vs0, vs1) := match vs0 with VConst _ _ => (vs1, vs0) | _ => (vs0, vs1) end in
      match vs1 with
      | VConst _ c1 =>
          if c1 =? 0 then (InstBinop _add vd vs0 vs1, Some (InstUnop _mov vd vs0))
          else (InstBinop _add vd vs0 vs1, None)
      | _ => (InstBinop _add vd vs0 vs1, None)
      end
  end.

Definition FolderVisitor_visit (i : Inst) : Inst * option Inst :=
  match i with
  | InstBinop _add vd vs0 vs1 => visit_add vd vs0 vs1
  | _ => (i, None)
  end.

(** [ApplyFolder] on the node at [pos]: a created [mov] is linked in front of
    the node (the folder leaves a [mov] alone) and the node is unlinked. *)
Definition ApplyFolder (rn : Region) (b pos : nat) : Region :=
  match blist rn !! b ≫= (fun x => ilist x !! pos) with
  | None => rn
  | Some node =>
      match FolderVisitor_visit (n_inst node) with
      | (i', None) => upd_ilist (fun l => <[pos := mkNode (n_id node) (n_flags node) i']> l) b rn
      | (_, Some mov) =>
          let '(rn, mnode) := Create rn (GetOpFlags _mov) mov in
          upd_ilist (fun l => erase_at (insert_at l pos mnode) (S pos)) b rn
      end
  end.

(** [Builder::Create] with the flags of the opcode list. *)
Definition Builder_Create (i : Inst) (qb : Builder) (rn : Region) : Builder * Region :=
  let '(rn, node) := Create rn (GetOpFlags (GetOpcode i)) i in
  let rn := upd_ilist (fun l => insert_at l (b_it qb) node) (b_bb qb) rn in
  (mkBuilder (b_bb qb) (S (b_it qb)), ApplyFolder rn (b_bb qb) (b_it qb)).

Definition CreateVGPR (type : VType) (rn : Region) : Region * Z := Region_AddLocal rn type.

(** ** What the folder leaves in the block *)
Definition fold_inst (i : Inst) : Inst :=
  match FolderVisitor_visit i with (i', None) => i' | (_, Some mov) => mov end.

(** States whose storage holds 32-bit values. *)
Record qwf (s : qstate) : Prop := {
  qwf_cpu : cpu_wf (q_cpu s);
  qwf_loc : map_Forall (fun _ v => in_u 32 v) (q_loc s);
  qwf_pgpr : map_Forall (fun _ v => in_u 32 v) (q_pgpr s);
  qwf_frame : map_Forall (fun _ v => in_u 32 v.2) (q_frame s);
  qwf_mem : mem_wf (q_mem s) }.

Lemma cpu_read_range c offs v : cpu_wf c -> cpu_read c offs = Some v -> in_u 32 v.
Proof.
  intros [_ Hg _ Hip]. unfold cpu_read. repeat case_match; intros [= <-]; [|done].
  by apply get_gpr_range.
Qed.

Lemma read_opnd_range si v s x :
  qwf s -> voperand_wf v -> read_opnd si v s = Some x -> in_u 32 x.
Proof.
  intros [Hc Hl Hp Hf _] Hv.
  assert (HN : forall t o y, (forall z, o = Some z -> in_u 32 z) -> narrow t o = Some y -> in_u 32 y).
  { intros t o y Ho (z & Hz & ->)%narrow_Some_inv. specialize (Ho z Hz).
    destruct t; cbn; try done; pose proof (uN_range 8 z); pose proof (uN_range 16 z); unfold in_u in *; lia. }
  destruct v as [t c|t r|t r|[] t o|]; cbn; try done; try apply HN.
  - by intros [= <-].
  - intros z. case_match; [by apply cpu_read_range|apply Hl].
  - apply Hp.
  - intros z. by apply cpu_read_range.
  - intros z. unfold frame_read. destruct (q_frame s !! o) as [[n y]|] eqn:E; [|done]. case_match; [|done].
    intros [= <-]. exact (Hf o (n, y) E).
Qed.

Lemma u32_add_0_r a : in_u 32 a -> u32 (a + 0) = a.
Proof. intros. rewrite Z.add_0_r. by apply uN_id. Qed.

Lemma exec_add_comm si clob weaks vd a b s :
  exec_inst si clob weaks (InstBinop _add vd a b) s =
  exec_inst si clob weaks (InstBinop _add vd b a) s.
Proof.
  cbn. destruct (read_opnd si a s), (read_opnd si b s); cbn; try done. by rewrite Z.add_comm.
Qed.

Lemma exec_add_0 si clob weaks vd a t s :
  qwf s -> voperand_wf a ->
  exec_inst si clob weaks (InstUnop _mov vd a) s =
  exec_inst si clob weaks (InstBinop _add vd a (VConst t 0)) s.
Proof.
  intros Hs Ha. cbn. destruct (read_opnd si a s) as [x|] eqn:E; cbn; [|done].
  by rewrite u32_add_0_r by (by eapply read_opnd_range).
Qed.

Lemma fold_inst_exec si clob weaks i s :
  qwf s -> Forall voperand_wf (inputs i) ->
  exec_inst si clob weaks (fold_inst i) s = exec_inst si clob weaks i s.
Proof.
  intros Hs Hi. destruct i as [| | | | | | | | |op d a b]; try done.
  destruct op; try done. cbn in Hi. apply Forall_cons in Hi as [Ha [Hb _]%Forall_cons].
  unfold fold_inst. cbn [FolderVisitor_visit]. unfold visit_add.
  destruct a as [ta ca| | | |] eqn:Ea, b as [tb cb| | | |] eqn:Eb; try done;
    try (match goal with |- context [?c =? 0] => destruct (Z.eqb_spec c 0); subst end);
    rewrite 1?(exec_add_comm _ _ _ d (VConst _ _)); try done; by apply exec_add_0.
Qed.

(** The peephole folder preserves behaviour: the instruction that stays in
    the block after [ApplyFolder] does to every well-formed state exactly what
    the created one would have done. *)
Theorem fold_inst_correct si clob weaks i s :
  qwf s -> Forall voperand_wf (inputs i) ->
  exec_inst si clob weaks (fold_inst i) s = exec_inst si clob weaks i s.
Proof. apply fold_inst_exec. Qed.

Lemma fold_inst_correct_witness :
  exec_inst [] (fun _ => None) [] (fold_inst (InstBinop _add (VGPR I32 3) (VConst I32 5) (VConst I32 7)))
    (mkQ CPUState_init ∅ ∅ ∅ ∅)
  = exec_inst [] (fun _ => None) [] (InstBinop _add (VGPR I32 3) (VConst I32 5) (VConst I32 7))
    (mkQ CPUState_init ∅ ∅ ∅ ∅).
Proof.
  apply (fold_inst_correct [] (fun _ => None) [] (InstBinop _add (VGPR I32 3) (VConst I32 5) (VConst I32 7))
    (mkQ CPUState_init ∅ ∅ ∅ ∅)).
  - split; [apply cpu_wf_init|apply map_Forall_empty..].
  - repeat constructor; vm_compute; congruence.
Defined.
