(* ===== verification/RV32Translator.v ===== *)
(** * The RV32 to QuickIR translator (src/dbt/guest/rv32_qir.cpp, rv32_qir.h)

    [RV32Translator] reads guest code and builds a region.  Its state is the
    record [TState]; its methods are computations of the state monad [TM]
    whose failure ([None]) is a host fault while fetching code or a failed
    assertion.  [code] is the guest memory the instructions are fetched from.
    The log calls ([cflow_dump], [LogInsn]) and the [dump_trace] build are
    left out. *)

From stdpp Require Import base tactics numbers list strings gmap.
From S2P Require Import Prelude Bitfield RV32Insn RV32Decode GuestState Interp VOperand Qir QirSem QirBuilder.

Import qir.

(** ** Global registers *)
Module GlobalRegId.
Definition GPR_START : Z := 0.
Definition GPR_END : Z := 31.
Definition IP : Z := GPR_END.
Definition END : Z := 32.
End GlobalRegId.

(** [RV32Translator::GetStateInfo]: [offsetof(CPUState, gpr)] is 0 and
    [offsetof(CPUState, ip)] is 128. *)
Definition state_info : StateInfo :=
  map (fun i => mkStateReg (0 + 4 * i) I32 (insn.GRPToName i)) (seqZ 1 31) ++
  [mkStateReg offs_ip I32 "ip"].

Inductive Control := NEXT | BRANCH | TB_OVF.

Record TState := mkT {
  t_rn : Region; t_qb : Builder; ip2bb : gmap Z nat; control : Control; insn_ip : Z; bb_ip : Z }.

Definition TM (A : Type) : Type := TState -> option (A * TState).
#[export] Instance TM_ret : MRet TM := fun A a t => Some (a, t).
#[export] Instance TM_bind : MBind TM := fun A B f c t => '(a, t') ← c t; f a t'.

Definition t_get : TM TState := fun t => Some (t, t).
Definition t_modify (f : TState -> TState) : TM unit := fun t => Some (tt, f t).
Definition t_fail {A} : TM A := fun _ => None.
Definition t_assert (b : bool) : TM unit := if b then mret tt else t_fail.

Definition set_rn (rn : Region) (t : TState) : TState :=
  mkT rn (t_qb t) (ip2bb t) (control t) (insn_ip t) (bb_ip t).
Definition set_qb (qb : Builder) (t : TState) : TState :=
  mkT (t_rn t) qb (ip2bb t) (control t) (insn_ip t) (bb_ip t).
Definition set_control (c : Control) (t : TState) : TState :=
  mkT (t_rn t) (t_qb t) (ip2bb t) c (insn_ip t) (bb_ip t).
Definition set_insn_ip (ip : Z) (t : TState) : TState :=
  mkT (t_rn t) (t_qb t) (ip2bb t) (control t) ip (bb_ip t).
Definition set_bb_ip (ip : Z) (t : TState) : TState :=
  mkT (t_rn t) (t_qb t) (ip2bb t) (control t) (insn_ip t) ip.

(** [qb.Create_...(...)]. *)
Definition qb_Create (i : Inst) : TM unit :=
  t_modify (fun t => let '(qb, rn) := Builder_Create i (t_qb t) (t_rn t) in set_qb qb (set_rn rn t)).
(** [qb.GetBlock()->AddSucc(b)]. *)
Definition qb_AddSucc (b : nat) : TM unit :=
  t_modify (fun t => set_rn (AddSucc (b_bb (t_qb t)) b (t_rn t)) t).
(** [qb = Builder(b)]. *)
Definition qb_set (b : nat) : TM unit :=
  t_modify (fun t => set_qb (Builder_at_end (t_rn t) b) t).
(** [qb.CreateBlock()]. *)
Definition qb_CreateBlock : TM nat := fun t =>
  let '(rn, b) := CreateBlock (t_rn t) in Some (b, set_rn rn t).

(** ** Operands *)
Definition vgpr (id : Z) (type : VType) : TM VOperand :=
  t_assert (negb (id =? 0));; mret (VGPR type (GlobalRegId.GPR_START + id - 1)).
Definition vconst (val : Z) (type : VType) : VOperand := VConst type (u32 val).
Definition vtemp (type : VType) : TM VOperand := fun t =>
  let '(rn, r) := CreateVGPR type (t_rn t) in Some (VGPR type r, set_rn rn t).
Definition gprop (id : Z) (type : VType) : TM VOperand :=
  if id =? 0 then mret (vconst 0 type) else vgpr id type.

(** ** Translation helpers *)
Definition PreSideeff : TM unit :=
  t ← t_get;
  match GetStateReg state_info GlobalRegId.IP with
  | None => t_fail
  | Some sr => qb_Create (InstUnop _mov (VSlot true I32 (state_offs sr)) (vconst (insn_ip t) I32))
  end.

Definition MakeGBr (ip : Z) : TM unit :=
  t ← t_get;
  match ip2bb t !! ip with
  | Some b => qb_Create InstBr;; qb_AddSucc b
  | None => qb_Create (InstGBr (vconst ip I32))
  end.

(** The lambda [make_target] of [TranslateBrcc]. *)
Definition make_target (ip : Z) : TM nat :=
  t ← t_get;
  match ip2bb t !! ip with
  | Some b => mret b
  | None => b ← qb_CreateBlock; qb_set b;; qb_Create (InstGBr (vconst ip I32));; mret b
  end.

Definition TranslateBrcc (i : Z) (cc : CondCode) : TM unit :=
  t ← t_get;
  let bb_src := b_bb (t_qb t) in
  bb_f ← make_target (u32 (insn_ip t + 4));
  bb_t ← make_target (u32 (insn_ip t + insn.B_imm i));
  qb_set bb_src;;
  s1 ← gprop (insn.rs1 i) I32; s2 ← gprop (insn.rs2 i) I32;
  qb_Create (InstBrcc cc s1 s2);;
  qb_AddSucc bb_t;;
  qb_AddSucc bb_f.

Definition TranslateSetcc_R (i : Z) (cc : CondCode) : TM unit :=
  if negb (insn.rd i =? 0) then
    d ← vgpr (insn.rd i) I32; a ← gprop (insn.rs1 i) I32; b ← gprop (insn.rs2 i) I32;
    qb_Create (InstSetcc cc d a b)
  else mret tt.

Definition TranslateSetcc_I (i : Z) (cc : CondCode) : TM unit :=
  if negb (insn.rd i =? 0) then
    d ← vgpr (insn.rd i) I32; a ← gprop (insn.rs1 i) I32;
    qb_Create (InstSetcc cc d a (vconst (insn.I_imm i) I32))
  else mret tt.

(** The address operand shared by loads and stores. *)
Definition translate_addr (addr : VOperand) (imm : Z) : TM VOperand :=
  if negb (imm =? 0) then
    tmp ← vtemp I32; qb_Create (InstBinop _add tmp addr (vconst imm I32));; mret tmp
  else mret addr.

Definition TranslateLoad (i : Z) (type : VType) (sgn : VSign) : TM unit :=
  addr ← gprop (insn.rs1 i) I32;
  addr ← translate_addr addr (insn.I_imm i);
  if negb (insn.rd i =? 0) then
    d ← vgpr (insn.rd i) I32; qb_Create (InstVMLoad type sgn d addr)
  else qb_Create (InstVMLoad type sgn addr addr).

Definition TranslateStore (i : Z) (type : VType) (sgn : VSign) : TM unit :=
  addr ← gprop (insn.rs1 i) I32;
  addr ← translate_addr addr (insn.S_imm i);
  v ← gprop (insn.rs2 i) type;
  qb_Create (InstVMStore type sgn addr v).

Definition TranslateHelper (i : Z) (stub : RuntimeStubId) : TM unit :=
  qb_Create (InstHcall stub (vconst i I32)).

Definition TRANSLATOR_ArithmRI (op : Op) (imm : Z -> Z) (i : Z) : TM unit :=
  if negb (insn.rd i =? 0) then
    d ← vgpr (insn.rd i) I32; a ← gprop (insn.rs1 i) I32;
    qb_Create (InstBinop op d a (vconst (imm i) I32))
  else mret tt.

Definition TRANSLATOR_ArithmRR (op : Op) (i : Z) : TM unit :=
  if negb (insn.rd i =? 0) then
    d ← vgpr (insn.rd i) I32; a ← gprop (insn.rs1 i) I32; b ← gprop (insn.rs2 i) I32;
    qb_Create (InstBinop op d a b)
  else mret tt.

Definition V_lui (i : Z) : TM unit :=
  if negb (insn.rd i =? 0) then
    d ← vgpr (insn.rd i) I32; qb_Create (InstUnop _mov d (vconst (insn.U_imm i) I32))
  else mret tt.

Definition V_auipc (i : Z) : TM unit :=
  t ← t_get;
  if negb (insn.rd i =? 0) then
    d ← vgpr (insn.rd i) I32; qb_Create (InstUnop _mov d (vconst (insn.U_imm i + insn_ip t) I32))
  else mret tt.

(** The link register of [jal] and [jalr]. *)
Definition translate_link (i : Z) : TM unit :=
  t ← t_get;
  if negb (insn.rd i =? 0) then
    d ← vgpr (insn.rd i) I32; qb_Create (InstUnop _mov d (vconst (insn_ip t + 4) I32))
  else mret tt.

Definition V_jal (i : Z) : TM unit :=
  t ← t_get;
  translate_link i;;
  MakeGBr (u32 (insn_ip t + insn.J_imm i)).

Definition V_jalr (i : Z) : TM unit :=
  tgt ← vtemp I32;
  a ← gprop (insn.rs1 i) I32;
  qb_Create (InstBinop _add tgt a (vconst (insn.I_imm i) I32));;
  qb_Create (InstBinop _and tgt tgt (vconst (Z.lnot 1) I32));;
  translate_link i;;
  qb_Create (InstGBrind tgt).

(** [V_##name]. *)
Definition V (op : insn.Op) : Z -> TM unit :=
  match op with
  | insn._lui => V_lui
  | insn._auipc => V_auipc
  | insn._jal => V_jal
  | insn._jalr => V_jalr
  | insn._beq => fun i => TranslateBrcc i EQ
  | insn._bne => fun i => TranslateBrcc i NE
  | insn._blt => fun i => TranslateBrcc i LT
  | insn._bge => fun i => TranslateBrcc i GE
  | insn._bltu => fun i => TranslateBrcc i LTU
  | insn._bgeu => fun i => TranslateBrcc i GEU
  | insn._lb => fun i => TranslateLoad i I8 VSign_S
  | insn._lh => fun i => TranslateLoad i I16 VSign_S
  | insn._lw => fun i => TranslateLoad i I32 VSign_S
  | insn._lbu => fun i => TranslateLoad i I8 VSign_U
  | insn._lhu => fun i => TranslateLoad i I16 VSign_U
  | insn._sb => fun i => TranslateStore i I8 VSign_U
  | insn._sh => fun i => TranslateStore i I16 VSign_U
  | insn._sw => fun i => TranslateStore i I32 VSign_U
  | insn._addi => TRANSLATOR_ArithmRI _add insn.I_imm
  | insn._slti => fun i => TranslateSetcc_I i LT
  | insn._sltiu => fun i => TranslateSetcc_I i LTU
  | insn._xori => TRANSLATOR_ArithmRI _xor insn.I_imm
  | insn._ori => TRANSLATOR_ArithmRI _or insn.I_imm
  | insn._andi => TRANSLATOR_ArithmRI _and insn.I_imm
  | insn._slli => TRANSLATOR_ArithmRI _sll insn.IS_imm
  | insn._srai => TRANSLATOR_ArithmRI _sra insn.IS_imm
  | insn._srli => TRANSLATOR_ArithmRI _srl insn.IS_imm
  | insn._sub => TRANSLATOR_ArithmRR _sub
  | insn._add => TRANSLATOR_ArithmRR _add
  | insn._sll => TRANSLATOR_ArithmRR _sll
  | insn._slt => fun i => TranslateSetcc_R i LT
  | insn._sltu => fun i => TranslateSetcc_R i LTU
  | insn._xor => TRANSLATOR_ArithmRR _xor
  | insn._sra => TRANSLATOR_ArithmRR _sra
  | insn._srl => TRANSLATOR_ArithmRR _srl
  | insn._or => TRANSLATOR_ArithmRR _or
  | insn._and => TRANSLATOR_ArithmRR _and
  | insn._fence => fun i => TranslateHelper i id_rv32_fence
  | insn._fencei => fun i => TranslateHelper i id_rv32_fencei
  | insn._ecall => fun i => TranslateHelper i id_rv32_ecall
  | insn._ebreak => fun i => TranslateHelper i id_rv32_ebreak
  | insn._ill => fun i => TranslateHelper i id_rv32_ill
  | insn._lrw => fun i => TranslateHelper i id_rv32_lrw
  | insn._scw => fun i => TranslateHelper i id_rv32_scw
  | insn._amoswapw => fun i => TranslateHelper i id_rv32_amoswapw
  | insn._amoaddw => fun i => TranslateHelper i id_rv32_amoaddw
  | insn._amoxorw => fun i => TranslateHelper i id_rv32_amoxorw
  | insn._amoandw => fun i => TranslateHelper i id_rv32_amoandw
  | insn._amoorw => fun i => TranslateHelper i id_rv32_amoorw
  | insn._amominw => fun i => TranslateHelper i id_rv32_amominw
  | insn._amomaxw => fun i => TranslateHelper i id_rv32_amomaxw
  | insn._amominuw => fun i => TranslateHelper i id_rv32_amominuw
  | insn._amomaxuw => fun i => TranslateHelper i id_rv32_amomaxuw
  end.

(** [H_##name]: what the [TRANSLATOR] macro puts around [V_##name]. *)
Definition H (op : insn.Op) (i : Z) : TM unit :=
  (if insn.has_flag op insn.Flags.Trap || insn.has_flag op insn.Flags.MayTrap
   then PreSideeff else mret tt);;
  V op i;;
  (if insn.has_flag op insn.Flags.Branch || insn.has_flag op insn.Flags.Trap
   then t_modify (set_control BRANCH) else mret tt);;
  t_modify (fun t => set_insn_ip (u32 (insn_ip t + 4)) t).

Section translate.
Context (code : mem).

Definition TranslateInsn : TM unit :=
  t ← t_get;
  match load_le 4 code (insn_ip t) with
  | None => t_fail
  | Some raw => H (Decoder.Decode raw) raw
  end.

(** The loop of [TranslateIPRange] from [num_insns] on. *)
Fixpoint translate_loop (fuel : nat) (num_insns boundary_ip : Z) : TM unit :=
  match fuel with
  | O => t_fail
  | S fuel =>
      TranslateInsn;;
      let num_insns := u32 (num_insns + 1) in
      t ← t_get;
      match control t with
      | NEXT =>
          if (num_insns =? TB_MAX_INSNS) || (boundary_ip <=? insn_ip t) then
            t_modify (set_control TB_OVF);; MakeGBr (insn_ip t)
          else translate_loop fuel num_insns boundary_ip
      | _ => mret tt
      end
  end.

(** At most [TB_MAX_INSNS] instructions are translated. *)
Definition TranslateIPRange (ip boundary_ip : Z) : TM unit :=
  t_modify (fun t => set_bb_ip ip (set_insn_ip ip t));;
  t_assert (negb (boundary_ip =? 0));;
  t ← t_get;
  match ip2bb t !! ip with
  | None => t_fail
  | Some b =>
      qb_set b;;
      t_modify (set_control NEXT);;
      translate_loop (Z.to_nat TB_MAX_INSNS) 0 boundary_ip
  end.

(** The two loops of [Translate].  [std::map::insert] keeps the first entry
    of a key. *)
Fixpoint create_blocks (ipranges : list (Z * Z)) : TM unit :=
  match ipranges with
  | [] => mret tt
  | (first, _) :: rs =>
      b ← qb_CreateBlock;
      t_modify (fun t => mkT (t_rn t) (t_qb t)
        (match ip2bb t !! first with Some _ => ip2bb t | None => <[first := b]> (ip2bb t) end)
        (control t) (insn_ip t) (bb_ip t));;
      create_blocks rs
  end.

Fixpoint translate_ranges (ipranges : list (Z * Z)) : TM unit :=
  match ipranges with
  | [] => mret tt
  | (first, second) :: rs => TranslateIPRange first second;; translate_ranges rs
  end.

Definition T_init : TState := mkT (Region_init state_info) (mkBuilder 0 0) ∅ NEXT 0 0.

Definition Translate (ipranges : list (Z * Z)) : option TState :=
  snd <$> (create_blocks ipranges;; translate_ranges ipranges) T_init.
End translate.
