(* ===== verification/TranslatorEmit.v ===== *)
(** * What the translator emits

    [emits t t' l]: from state [t] the translator went to [t'] by appending
    the instructions [l] to its current block.  [emit] lists, for every
    opcode that does not transfer control, the instructions its translation
    creates; [V_emits] shows that the translator appends exactly these, folded. *)

From stdpp Require Import base tactics numbers list strings gmap.
From S2P Require Import Prelude Bitfield RV32Insn RV32Decode GuestState Interp VOperand Qir QirSem QirBuilder RV32Translator.

Import qir.

(** ** Appending to the current block *)
Definition insts (b : Block) : list Inst := n_inst <$> ilist b.

Definition next_local (t : TState) : Z := u16 (NumAll (vregs_info (t_rn t))).

Record emits (t t' : TState) (l : list Inst) : Prop := {
  em_bb : b_bb (t_qb t') = b_bb (t_qb t);
  em_ip2bb : ip2bb t' = ip2bb t;
  em_ip : insn_ip t' = insn_ip t;
  em_control : control t' = control t;
  em_glob : glob_info (vregs_info (t_rn t')) = glob_info (vregs_info (t_rn t));
  em_loc : (length (loc_info (vregs_info (t_rn t))) <= length (loc_info (vregs_info (t_rn t'))))%nat;
  em_blk : exists b b', blist (t_rn t) !! b_bb (t_qb t) = Some b /\
    b_it (t_qb t) = length (ilist b) /\
    blist (t_rn t') = <[b_bb (t_qb t) := b']> (blist (t_rn t)) /\
    b_it (t_qb t') = length (ilist b') /\
    insts b' = insts b ++ l /\ succs b' = succs b }.

(** The builder stands at the end of an existing block. *)
Definition at_end (t : TState) : Prop :=
  exists b, blist (t_rn t) !! b_bb (t_qb t) = Some b /\ b_it (t_qb t) = length (ilist b).

Lemma emits_refl t : at_end t -> emits t t [].
Proof.
  intros (b & Hb & Hit). split; try done. exists b, b.
  rewrite app_nil_r, list_insert_id by done. done.
Qed.

Lemma emits_at_end t t' l : emits t t' l -> at_end t'.
Proof.
  intros [Hbb _ _ _ _ _ (b & b' & Hb & _ & Hl & Hit & _)]. exists b'. rewrite Hbb, Hl.
  split; [|done]. apply list_lookup_insert_eq. by eapply lookup_lt_Some.
Qed.

Lemma emits_at_start t t' l : emits t t' l -> at_end t.
Proof. intros [_ _ _ _ _ _ (b & b' & Hb & Hit & _)]. by exists b. Qed.

Lemma emits_trans t1 t2 t3 l1 l2 : emits t1 t2 l1 -> emits t2 t3 l2 -> emits t1 t3 (l1 ++ l2).
Proof.
  intros [A1 A2 A3 A4 A5 A6 (b & b' & Hb & Hit & Hl & Hit' & Hi & Hs)]
         [B1 B2 B3 B4 B5 B6 (c & c' & Hc & Hjt & Hk & Hjt' & Hj & Hr)].
  split; try congruence; [lia|]. rewrite A1, Hl in Hc.
  rewrite list_lookup_insert_eq in Hc by (by eapply lookup_lt_Some). injection Hc as <-.
  exists b, c'. split_and!; try done.
  - rewrite Hk, A1, Hl. apply list_insert_insert_eq.
  - rewrite Hj, Hi. by rewrite app_assoc.
  - congruence.
Qed.

(** ** The builder at the end of a block appends one instruction *)
Lemma insert_at_end {A} (l : list A) x : insert_at l (length l) x = l ++ [x].
Proof. unfold insert_at. by rewrite take_ge, drop_ge by lia. Qed.

Lemma erase_insert_last {A} (l : list A) x y :
  erase_at (insert_at (l ++ [x]) (length l) y) (S (length l)) = l ++ [y].
Proof.
  unfold insert_at, erase_at. rewrite take_app_length, drop_app_length.
  rewrite (cons_middle y l [x]), (app_assoc l [y] [x]).
  rewrite take_app_length', drop_ge, app_nil_r; [done|..]; rewrite ?length_app; cbn; lia.
Qed.

(** Nodes carry the flags of their opcode. *)
Definition flag_ok (n : Node) : Prop := n_flags n = GetOpFlags (GetOpcode (n_inst n)).

Lemma fold_flag_ok id flags i i' :
  FolderVisitor_visit i = (i', None) -> flag_ok (mkNode id flags i) -> flag_ok (mkNode id flags i').
Proof.
  unfold flag_ok. cbn [n_flags n_inst]. intros E ->.
  destruct i as [| | | | | | | | |[] d a b]; cbn in E; try (by injection E as <-).
  revert E. unfold visit_add. destruct a, b; repeat case_match; intros [= <-]; done.
Qed.
Lemma fold_mov i i' mov : FolderVisitor_visit i = (i', Some mov) -> GetOpcode mov = _mov.
Proof.
  destruct i as [| | | | | | | | |[] d a b]; try done. cbn. unfold visit_add.
  destruct a, b; repeat case_match; intros [= _ <-]; done.
Qed.

Lemma ApplyFolder_last rn b blk l n :
  blist rn !! b = Some blk -> ilist blk = l ++ [n] -> flag_ok n ->
  exists n', n_inst n' = fold_inst (n_inst n) /\ flag_ok n' /\
    blist (ApplyFolder rn b (length l)) =
      <[b := mkBlock (l ++ [n']) (succs blk) (preds blk)]> (blist rn) /\
    vregs_info (ApplyFolder rn b (length l)) = vregs_info rn.
Proof.
  intros Hb Hl Hf. unfold ApplyFolder. rewrite Hb. cbn [mbind option_bind]. rewrite Hl.
  rewrite lookup_app_r, Nat.sub_diag by lia. cbn [lookup list_lookup]. unfold fold_inst.
  destruct (FolderVisitor_visit (n_inst n)) as [i' [mov|]] eqn:E.
  - eexists (mkNode _ _ mov). split; [done|]. split; [unfold flag_ok; cbn; by rewrite (fold_mov _ _ _ E)|]. split; [|done]. cbn.
    rewrite (list_alter_is_insert _ _ _ _ Hb). by rewrite Hl, erase_insert_last.
  - exists (mkNode (n_id n) (n_flags n) i'). split; [done|]. split; [apply (fold_flag_ok _ _ _ _ E); by destruct n|]. split; [|done]. cbn.
    rewrite (list_alter_is_insert _ _ _ _ Hb), Hl.
    by rewrite insert_app_r_alt, Nat.sub_diag by lia.
Qed.

Lemma qb_Create_node i t b :
  blist (t_rn t) !! b_bb (t_qb t) = Some b -> b_it (t_qb t) = length (ilist b) ->
  exists n rn, n_inst n = fold_inst i /\ flag_ok n /\
    qb_Create i t = Some (tt, set_qb (mkBuilder (b_bb (t_qb t)) (S (b_it (t_qb t)))) (set_rn rn t)) /\
    blist rn = <[b_bb (t_qb t) := mkBlock (ilist b ++ [n]) (succs b) (preds b)]> (blist (t_rn t)) /\
    vregs_info rn = vregs_info (t_rn t).
Proof.
  intros Hb Hit. unfold qb_Create, t_modify, Builder_Create, Create. cbv beta iota.
  set (n := mkNode _ _ i).
  set (rn1 := upd_ilist _ _ _).
  assert (H1 : blist rn1 = <[b_bb (t_qb t) := mkBlock (ilist b ++ [n]) (succs b) (preds b)]> (blist (t_rn t))).
  { subst rn1. unfold upd_ilist, upd_block. cbn [blist]. rewrite (list_alter_is_insert _ _ _ _ Hb).
    by rewrite Hit, insert_at_end. }
  assert (Hb1 : blist rn1 !! b_bb (t_qb t) = Some (mkBlock (ilist b ++ [n]) (succs b) (preds b))).
  { rewrite H1. apply list_lookup_insert_eq. by eapply lookup_lt_Some. }
  destruct (ApplyFolder_last rn1 _ _ (ilist b) n Hb1 eq_refl eq_refl) as (n' & Hn & Hf & Hl & Hv).
  exists n'. eexists. split; [done|]. split; [done|]. split; [done|]. rewrite Hit. split; [|done].
  by rewrite Hl, H1, list_insert_insert_eq.
Qed.

Lemma qb_Create_emits i t :
  at_end t -> exists t', qb_Create i t = Some (tt, t') /\ emits t t' [fold_inst i] /\
    vregs_info (t_rn t') = vregs_info (t_rn t).
Proof.
  intros (b & Hb & Hit). destruct (qb_Create_node i t b Hb Hit) as (n & rn & Hn & _ & E & Hl & Hv).
  eexists. split; [exact E|]. split; [split; cbn; try done; rewrite ?Hv; try done|done].
  exists b. eexists. split; [done|]. split; [done|]. split; [exact Hl|].
  cbn. split; [rewrite length_app; cbn; lia|]. split; [|done].
  unfold insts. cbn. rewrite fmap_app. cbn. by rewrite Hn.
Qed.

(** ** Monadic steps *)
Definition gpr_opnd (id : Z) (type : VType) : VOperand :=
  if id =? 0 then VConst type 0 else VGPR type (id - 1).

Lemma bind_gprop {B} id type (k : VOperand -> TM B) t :
  (gprop id type ≫= k) t = k (gpr_opnd id type) t.
Proof.
  unfold gprop, gpr_opnd, vgpr, t_assert. destruct (id =? 0); [done|].
  cbn. unfold GlobalRegId.GPR_START. by replace (0 + id - 1) with (id - 1) by lia.
Qed.

Lemma bind_vgpr {B} id type (k : VOperand -> TM B) t :
  id <> 0 -> (vgpr id type ≫= k) t = k (VGPR type (id - 1)) t.
Proof.
  intros Hid. unfold vgpr, t_assert. destruct (Z.eqb_spec id 0); [done|].
  cbn. unfold GlobalRegId.GPR_START. by replace (0 + id - 1) with (id - 1) by lia.
Qed.

Lemma bind_get {B} (k : TState -> TM B) t : (t_get ≫= k) t = k t t.
Proof. done. Qed.

(** [wp c t l]: [c] succeeds from [t] and appends [l]. *)
Definition appends (c : TM unit) (t : TState) (l : list Inst) : Prop :=
  exists t', c t = Some (tt, t') /\ emits t t' l.

Lemma appends_ret t : at_end t -> appends (mret tt) t [].
Proof. intros. exists t. split; [done|]. by apply emits_refl. Qed.

Lemma appends_Create i t : at_end t -> appends (qb_Create i) t [fold_inst i].
Proof. intros (t' & H1 & H2 & _)%(qb_Create_emits i). by exists t'. Qed.

Lemma appends_bind (c : TM unit) (k : unit -> TM unit) t l1 l2 :
  appends c t l1 -> (forall t', emits t t' l1 -> appends (k tt) t' l2) -> appends (c ≫= k) t (l1 ++ l2).
Proof.
  intros (t1 & E1 & H1) Hk. destruct (Hk t1 H1) as (t2 & E2 & H2).
  exists t2. split; [|by eapply emits_trans]. unfold mbind, TM_bind. rewrite E1. done.
Qed.

Lemma appends_vtemp (k : VOperand -> TM unit) t l :
  at_end t ->
  (forall t', emits t t' [] ->
     length (loc_info (vregs_info (t_rn t'))) = S (length (loc_info (vregs_info (t_rn t)))) ->
     appends (k (VGPR I32 (next_local t))) t' l) ->
  appends (vtemp I32 ≫= k) t l.
Proof.
  intros (b & Hb & Hit) Hk.
  assert (Hv : exists t', vtemp I32 t = Some (VGPR I32 (next_local t), t') /\ emits t t' [] /\
    length (loc_info (vregs_info (t_rn t'))) = S (length (loc_info (vregs_info (t_rn t))))).
  { unfold vtemp, CreateVGPR, Region_AddLocal, AddLocal. cbv beta iota. eexists. split.
    { unfold next_local, NumAll. by rewrite Z.add_comm. }
    split; [|cbn; rewrite length_app; cbn; lia].
    split; cbn; try done; [rewrite length_app; lia|]. exists b, b.
    rewrite app_nil_r, list_insert_id by done. done. }
  destruct Hv as (t1 & E1 & H1 & Hl). destruct (Hk t1 H1 Hl) as (t2 & E2 & H2).
  exists t2. split; [unfold mbind, TM_bind; rewrite E1; done|].
  rewrite <- (app_nil_l l). by eapply emits_trans.
Qed.

(** ** The instructions of each opcode *)
Definition mov_rd (i v : Z) : list Inst :=
  if insn.rd i =? 0 then [] else [InstUnop _mov (VGPR I32 (insn.rd i - 1)) (VConst I32 (u32 v))].
Definition binop_rd (op : Op) (i : Z) (b : VOperand) : list Inst :=
  if insn.rd i =? 0 then []
  else [InstBinop op (VGPR I32 (insn.rd i - 1)) (gpr_opnd (insn.rs1 i) I32) b].
Definition setcc_rd (cc : CondCode) (i : Z) (b : VOperand) : list Inst :=
  if insn.rd i =? 0 then []
  else [InstSetcc cc (VGPR I32 (insn.rd i - 1)) (gpr_opnd (insn.rs1 i) I32) b].
Definition addr_insts (a : VOperand) (imm tmp : Z) : list Inst :=
  if imm =? 0 then [] else [InstBinop _add (VGPR I32 tmp) a (VConst I32 (u32 imm))].
Definition addr_opnd (a : VOperand) (imm tmp : Z) : VOperand :=
  if imm =? 0 then a else VGPR I32 tmp.
Definition load_insts (sz : VType) (sgn : VSign) (i tmp : Z) : list Inst :=
  let a := gpr_opnd (insn.rs1 i) I32 in
  let p := addr_opnd a (insn.I_imm i) tmp in
  addr_insts a (insn.I_imm i) tmp ++
  [InstVMLoad sz sgn (if insn.rd i =? 0 then p else VGPR I32 (insn.rd i - 1)) p].
Definition store_insts (sz : VType) (sgn : VSign) (i tmp : Z) : list Inst :=
  let a := gpr_opnd (insn.rs1 i) I32 in
  addr_insts a (insn.S_imm i) tmp ++
  [InstVMStore sz sgn (addr_opnd a (insn.S_imm i) tmp) (gpr_opnd (insn.rs2 i) sz)].

Definition stub_of (op : insn.Op) : option RuntimeStubId :=
  list_find (fun st => stub_rv32 st = Some op) all_stubs ≫= fun p => Some p.2.

Definition emit (op : insn.Op) (i ip tmp : Z) : option (list Inst) :=
  match op with
  | insn._lui => Some (mov_rd i (insn.U_imm i))
  | insn._auipc => Some (mov_rd i (insn.U_imm i + ip))
  | insn._lb => Some (load_insts I8 VSign_S i tmp)
  | insn._lh => Some (load_insts I16 VSign_S i tmp)
  | insn._lw => Some (load_insts I32 VSign_S i tmp)
  | insn._lbu => Some (load_insts I8 VSign_U i tmp)
  | insn._lhu => Some (load_insts I16 VSign_U i tmp)
  | insn._sb => Some (store_insts I8 VSign_U i tmp)
  | insn._sh => Some (store_insts I16 VSign_U i tmp)
  | insn._sw => Some (store_insts I32 VSign_U i tmp)
  | insn._addi => Some (binop_rd _add i (VConst I32 (u32 (insn.I_imm i))))
  | insn._slti => Some (setcc_rd LT i (VConst I32 (u32 (insn.I_imm i))))
  | insn._sltiu => Some (setcc_rd LTU i (VConst I32 (u32 (insn.I_imm i))))
  | insn._xori => Some (binop_rd _xor i (VConst I32 (u32 (insn.I_imm i))))
  | insn._ori => Some (binop_rd _or i (VConst I32 (u32 (insn.I_imm i))))
  | insn._andi => Some (binop_rd _and i (VConst I32 (u32 (insn.I_imm i))))
  | insn._slli => Some (binop_rd _sll i (VConst I32 (u32 (insn.IS_imm i))))
  | insn._srai => Some (binop_rd _sra i (VConst I32 (u32 (insn.IS_imm i))))
  | insn._srli => Some (binop_rd _srl i (VConst I32 (u32 (insn.IS_imm i))))
  | insn._sub => Some (binop_rd _sub i (gpr_opnd (insn.rs2 i) I32))
  | insn._add => Some (binop_rd _add i (gpr_opnd (insn.rs2 i) I32))
  | insn._sll => Some (binop_rd _sll i (gpr_opnd (insn.rs2 i) I32))
  | insn._slt => Some (setcc_rd LT i (gpr_opnd (insn.rs2 i) I32))
  | insn._sltu => Some (setcc_rd LTU i (gpr_opnd (insn.rs2 i) I32))
  | insn._xor => Some (binop_rd _xor i (gpr_opnd (insn.rs2 i) I32))
  | insn._sra => Some (binop_rd _sra i (gpr_opnd (insn.rs2 i) I32))
  | insn._srl => Some (binop_rd _srl i (gpr_opnd (insn.rs2 i) I32))
  | insn._or => Some (binop_rd _or i (gpr_opnd (insn.rs2 i) I32))
  | insn._and => Some (binop_rd _and i (gpr_opnd (insn.rs2 i) I32))
  | insn._jal | insn._jalr | insn._beq | insn._bne | insn._blt | insn._bge
  | insn._bltu | insn._bgeu => None
  | _ => st ← stub_of op; Some [InstHcall st (VConst I32 (u32 i))]
  end.

Lemma link_appends i t :
  at_end t -> appends (translate_link i) t (fold_inst <$> mov_rd i (insn_ip t + 4)).
Proof.
  intros Ht. unfold translate_link, mov_rd, appends. rewrite bind_get.
  destruct (Z.eqb_spec (insn.rd i) 0); cbn [negb]; [by apply appends_ret|].
  rewrite bind_vgpr by done. by apply appends_Create.
Qed.

Lemma addr_appends a imm (k : VOperand -> TM unit) t l :
  at_end t ->
  (forall t', emits t t' (fold_inst <$> addr_insts a imm (next_local t)) ->
     appends (k (addr_opnd a imm (next_local t))) t' l) ->
  appends (translate_addr a imm ≫= k) t ((fold_inst <$> addr_insts a imm (next_local t)) ++ l).
Proof.
  intros Ht Hk. unfold translate_addr, addr_insts, addr_opnd in *.
  destruct (imm =? 0); cbn [negb fmap list_fmap app] in *.
  - apply Hk. by apply emits_refl.
  - unfold appends.
    assert (Hm : forall t0, (((tmp ← vtemp I32; qb_Create (InstBinop _add tmp a (vconst imm I32));; mret tmp) : TM VOperand) ≫= k) t0
       = (vtemp I32 ≫= fun tmp => qb_Create (InstBinop _add tmp a (vconst imm I32)) ≫= fun _ => k tmp) t0).
    { intros t0. unfold mbind, TM_bind. cbn. destruct (vtemp I32 t0) as [[v t1]|]; done. }
    rewrite Hm. apply appends_vtemp; [done|]. intros t1 H1 _.
    apply (appends_bind _ _ _ [_]); [apply appends_Create; by eapply emits_at_end|].
    intros t2 H2. apply Hk. apply (emits_trans _ _ _ [] _ H1 H2).
Qed.

Lemma V_emits op i t l :
  at_end t -> emit op i (insn_ip t) (next_local t) = Some l -> appends (V op i) t (fold_inst <$> l).
Proof.
  intros Ht. destruct op; cbn [emit V]; intros Hl; try discriminate Hl;
    try (vm_compute (stub_of _) in Hl; cbn [mbind option_bind] in Hl); injection Hl as <-;
    unfold V_lui, V_auipc, TRANSLATOR_ArithmRI, TRANSLATOR_ArithmRR, TranslateSetcc_I, TranslateSetcc_R,
      TranslateHelper, mov_rd, binop_rd, setcc_rd, appends;
    rewrite ?bind_get;
    try (destruct (Z.eqb_spec (insn.rd i) 0); cbn [negb];
         [by apply appends_ret|rewrite bind_vgpr, ?bind_gprop by done; by apply appends_Create]);
    try by apply appends_Create.
  all: unfold TranslateLoad, TranslateStore; rewrite bind_gprop; unfold load_insts, store_insts; cbv zeta;
    rewrite fmap_app; apply addr_appends; [done|]; intros t' Ht'%emits_at_end.
  all: unfold appends; rewrite ?bind_gprop; try by apply appends_Create.
  all: destruct (Z.eqb_spec (insn.rd i) 0); cbn [negb]; rewrite ?bind_vgpr by done; by apply appends_Create.
Qed.
