(* ===== verification/TranslatorSim.v ===== *)
(** * One guest instruction: emitted QuickIR against the interpreter

    [sim] relates a QuickIR state with a handler state: same registers, trap
    number and memory; the [ip] field of the translated side is only
    meaningful at side effects.  [insn_sim] says that running the emitted
    instructions does what the handler does: same next state, same trap
    state, same fault state. *)

From stdpp Require Import base tactics numbers list strings gmap.
From S2P Require Import Prelude Bitfield RV32Insn RV32Decode GuestState Interp InterpProofs RV32Isa InterpRefine.
From S2P Require Import VOperand Qir QirSem QirBuilder RV32Translator TranslatorEmit.

Import qir.

Record sim (s : qstate) (σ : hstate) : Prop := {
  sim_qwf : qwf s;
  sim_hinv : hinv σ;
  sim_gpr : gpr (q_cpu s) = gpr (h_cpu σ);
  sim_trap : trapno (q_cpu s) = trapno (h_cpu σ);
  sim_mem : q_mem s = h_mem σ }.

(** ** Registers of the state description *)
Lemma state_reg_gpr id :
  1 <= id < 32 -> exists nm, GetStateReg state_info (id - 1) = Some (mkStateReg (4 * id) I32 nm).
Proof.
  intros Hid. unfold GetStateReg. change (Z.of_nat (length state_info)) with 32.
  destruct (Z.ltb_spec (id - 1) 32); [|lia].
  assert (Hn : exists k : nat, (k < 31)%nat /\ id = Z.of_nat k + 1) by (exists (Z.to_nat (id - 1)); lia).
  destruct Hn as (k & Hk & ->). replace (Z.to_nat (Z.of_nat k + 1 - 1)) with k by lia.
  exists (insn.GRPToName (Z.of_nat k + 1)).
  do 31 (destruct k as [|k]; [reflexivity|]). lia.
Qed.

Lemma state_reg_local r : 32 <= r -> GetStateReg state_info r = None.
Proof.
  intros. unfold GetStateReg. change (Z.of_nat (length state_info)) with 32.
  by destruct (Z.ltb_spec r 32); [lia|].
Qed.

Lemma cpu_read_gpr c id : 0 <= id < 32 -> cpu_read c (4 * id) = Some (get_gpr c id).
Proof.
  intros. unfold cpu_read, offs_ip. replace (4 * id / 4) with id by zlia.
  replace (4 * id mod 4 =? 0) with true by (symmetry; apply Z.eqb_eq; zlia).
  destruct (Z.leb_spec 0 (4 * id)), (Z.ltb_spec (4 * id) 128); try lia. done.
Qed.

Lemma cpu_write_gpr c id v : 0 <= id < 32 -> cpu_write c (4 * id) v = Some (set_gpr id v c).
Proof.
  intros. unfold cpu_write, offs_ip. replace (4 * id / 4) with id by zlia.
  replace (4 * id mod 4 =? 0) with true by (symmetry; apply Z.eqb_eq; zlia).
  destruct (Z.leb_spec 0 (4 * id)), (Z.ltb_spec (4 * id) 128); try lia. done.
Qed.

Lemma read_gpr_narrow id ty s :
  0 <= id < 32 -> get_gpr (q_cpu s) 0 = 0 ->
  read_opnd state_info (gpr_opnd id ty) s = Some (trunc ty (get_gpr (q_cpu s) id)).
Proof.
  intros Hid H0. unfold gpr_opnd. destruct (Z.eqb_spec id 0) as [->|].
  - cbn. rewrite H0. by destruct ty.
  - destruct (state_reg_gpr id) as [nm E]; [lia|]. cbn. rewrite E. cbn [state_offs].
    rewrite cpu_read_gpr by lia. apply narrow_Some.
Qed.
Lemma read_gpr_opnd id s :
  0 <= id < 32 -> get_gpr (q_cpu s) 0 = 0 ->
  read_opnd state_info (gpr_opnd id I32) s = Some (get_gpr (q_cpu s) id).
Proof. apply (read_gpr_narrow id I32). Qed.

Lemma write_gpr id ty x s :
  1 <= id < 32 ->
  write_opnd state_info (VGPR ty (id - 1)) x s = Some (q_set_cpu (set_gpr id x (q_cpu s)) s).
Proof.
  intros Hid. destruct (state_reg_gpr id) as [nm E]; [lia|]. cbn. rewrite E. cbn [state_offs].
  rewrite cpu_write_gpr by lia. done.
Qed.

Lemma gpr_opnd_wf id ty : 0 <= id < 32 -> voperand_wf (gpr_opnd id ty).
Proof. intros. unfold gpr_opnd. destruct (Z.eqb_spec id 0); split; cbn; lia. Qed.

(** ** Writing a register that may be [x0] *)
Definition wr_gpr (r v : Z) (c : CPUState) : CPUState := if r =? 0 then c else set_gpr r v c.

Lemma reset_x0 c r v :
  length (gpr c) = gpr_num -> get_gpr c 0 = 0 -> 0 <= r < 32 ->
  set_gpr 0 (u32 0) (set_gpr r v c) = wr_gpr r v c.
Proof.
  intros Hl H0 Hr. unfold wr_gpr, set_gpr. destruct c as [g i t]. unfold get_gpr in H0. cbn in *.
  destruct g as [|z g]; [done|]. assert (z = 0) as -> by exact H0.
  destruct (Z.eqb_spec r 0) as [->|]; [done|].
  destruct (Z.to_nat r) as [|k] eqn:E; [lia|]. done.
Qed.

Lemma cpu_wf_wr c r v : cpu_wf c -> 0 <= r < 32 -> in_u 32 v -> cpu_wf (wr_gpr r v c).
Proof.
  intros [Hl Hg H0 Hi] Hr Hv. unfold wr_gpr. destruct (Z.eqb_spec r 0); [done|]. split; cbn.
  - by rewrite length_insert.
  - by apply Forall_insert.
  - rewrite get_set_gpr by (done || lia). case_bool_decide; [lia|done].
  - done.
Qed.

Lemma cpu_wf_set_ip c v : cpu_wf c -> in_u 32 v -> cpu_wf (set_ip v c).
Proof. intros [? ? ? ?] ?. by split. Qed.

Lemma sim_cpu_wf s σ : sim s σ -> cpu_wf (h_cpu σ).
Proof. intros H. apply hinv_wf, H. Qed.
Lemma sim_x0 s σ : sim s σ -> get_gpr (q_cpu s) 0 = 0.
Proof. intros H. apply (qwf_cpu _ (sim_qwf _ _ H)). Qed.
Lemma sim_get s σ r : sim s σ -> get_gpr (q_cpu s) r = get_gpr (h_cpu σ) r.
Proof. intros H. unfold get_gpr. by rewrite (sim_gpr _ _ H). Qed.
Lemma sim_get_range s σ r : sim s σ -> in_u 32 (get_gpr (h_cpu σ) r).
Proof. intros H. apply get_gpr_range, (sim_cpu_wf _ _ H). Qed.

(** The state after writing a register and stepping over the instruction;
    [s'] may also have gained a temporary. *)
Lemma sim_wr s σ r v g :
  sim s σ -> 0 <= r < 32 -> in_u 32 v -> in_u 32 g ->
  sim (q_set_cpu (wr_gpr r v (q_cpu s)) s) (mkH (wr_gpr r v (h_cpu σ)) g (h_mem σ)).
Proof.
  intros [[Hc Hl Hp Hf Hm] Hi Hg Ht Hme] Hr Hv Hgi. split.
  - split; cbn; try done. by apply cpu_wf_wr.
  - apply hinv_wf in Hi as (Hc' & _ & Hm'). apply hinv_wf. cbn. split_and!; try done. by apply cpu_wf_wr.
  - cbn. unfold wr_gpr. destruct (r =? 0); [done|]. cbn. by rewrite Hg.
  - cbn. unfold wr_gpr. by destruct (r =? 0).
  - done.
Qed.

Lemma sim_loc s σ r v : sim s σ -> in_u 32 v -> sim (q_set_loc r v s) σ.
Proof.
  intros [[Hc Hl Hp Hf Hm] Hi Hg Ht Hme] Hv. split; try done. split; try done. cbn.
  by apply map_Forall_insert_2.
Qed.

Lemma sim_ip s σ v v' :
  sim s σ -> in_u 32 v -> in_u 32 v' -> 
  sim (q_set_cpu (set_ip v (q_cpu s)) s) (mkH (set_ip v' (h_cpu σ)) (h_gip σ) (h_mem σ)).
Proof.
  intros [[Hc Hl Hp Hf Hm] Hi Hg Ht Hme] Hv Hv'. split; try done.
  - split; try done. by apply cpu_wf_set_ip.
  - apply hinv_wf in Hi as (Hc' & ? & ?). apply hinv_wf. split_and!; try done. by apply cpu_wf_set_ip.
Qed.

Lemma sim_gip s σ g : sim s σ -> in_u 32 g -> sim s (mkH (h_cpu σ) g (h_mem σ)).
Proof.
  intros [? Hi ? ? ?] Hg. split; try done. apply hinv_wf in Hi as (? & ? & ?). by apply hinv_wf.
Qed.

Lemma sim_mem_set s σ m : sim s σ -> mem_wf m -> sim (q_set_mem m s) (mkH (h_cpu σ) (h_gip σ) m).
Proof.
  intros [[? ? ? ? ?] Hi ? ? ?] Hm. split; try done.
  apply hinv_wf in Hi as (? & ? & ?). by apply hinv_wf.
Qed.
#[export] Hint Resolve sim_wr sim_loc sim_ip sim_gip sim_mem_set : rvdbt.

(** ** Straight-line instructions *)
Section straight.
Context (clob : Z -> option Z) (weaks : list bool).

Notation run := (exec_list state_info clob weaks).

Definition insn_sim (l : list Inst) (σ : hstate) (o : outcome unit) : Prop :=
  forall s, sim s σ ->
  match o with
  | Ret _ σ' => exists s', run l s = QNext s' /\ sim s' σ'
  | Raised σ' => exists s', run l s = QRaised s' /\ q_cpu s' = h_cpu σ' /\ q_mem s' = h_mem σ'
  | Faulted σ' => exists s', run l s = QFaulted s' /\ q_cpu s' = h_cpu σ' /\ q_mem s' = h_mem σ'
  | Undefined => True
  end.

Lemma run_fold i l s :
  qwf s -> Forall voperand_wf (inputs i) -> run (fold_inst i :: l) s = run (i :: l) s.
Proof. intros. cbn [exec_list]. by rewrite fold_inst_exec. Qed.

Lemma run_mov_rd i v s :
  run (fold_inst <$> mov_rd i v) s = QNext (q_set_cpu (wr_gpr (insn.rd i) (u32 v) (q_cpu s)) s).
Proof.
  unfold mov_rd, wr_gpr. pose proof (insn.rd_range i).
  destruct (Z.eqb_spec (insn.rd i) 0); cbn [fmap list_fmap]; [by destruct s|].
  cbn [exec_list]. change (fold_inst ?x) with x.
  cbn [exec_inst InstUnop_HasOpcode op_num Z.leb Z.compare Pos.compare Pos.compare_cont andb read_opnd or_stuck].
  by rewrite write_gpr by lia.
Qed.

Lemma run_binop_rd op i o b v s :
  qwf s -> voperand_wf o -> read_opnd state_info o s = Some b ->
  eval_binop op (get_gpr (q_cpu s) (insn.rs1 i)) b = Some v ->
  run (fold_inst <$> binop_rd op i o) s = QNext (q_set_cpu (wr_gpr (insn.rd i) v (q_cpu s)) s).
Proof.
  intros Hs Ho Hb Hv. unfold binop_rd, wr_gpr. pose proof (insn.rd_range i).
  pose proof (insn.rs1_range i).
  destruct (Z.eqb_spec (insn.rd i) 0); cbn [fmap list_fmap]; [by destruct s|].
  rewrite run_fold; [|done|apply Forall_cons_2; [by apply gpr_opnd_wf|by apply Forall_singleton]].
  cbn [exec_list exec_inst]. rewrite read_gpr_opnd by (done || apply Hs). cbn [or_stuck].
  rewrite Hb. cbn [or_stuck]. rewrite Hv. cbn [or_stuck]. by rewrite write_gpr by lia.
Qed.

Lemma run_setcc_rd cc i o b s :
  qwf s -> read_opnd state_info o s = Some b ->
  run (fold_inst <$> setcc_rd cc i o) s =
  QNext (q_set_cpu (wr_gpr (insn.rd i) (b2z (eval_cc cc (get_gpr (q_cpu s) (insn.rs1 i)) b)) (q_cpu s)) s).
Proof.
  intros Hs Hb. unfold setcc_rd, wr_gpr. pose proof (insn.rd_range i). pose proof (insn.rs1_range i).
  destruct (Z.eqb_spec (insn.rd i) 0); cbn [fmap list_fmap]; [by destruct s|].
  cbn [exec_list]. change (fold_inst ?x) with x. cbn [exec_inst].
  rewrite read_gpr_opnd by (done || apply Hs). cbn [or_stuck]. rewrite Hb. cbn [or_stuck].
  rewrite write_gpr by lia. done.
Qed.

(** A handler that writes [rd] and steps, against a list that writes it. *)
Lemma rd_insn_sim l i σ x :
  (forall s, sim s σ -> run l s = QNext (q_set_cpu (wr_gpr (insn.rd i) (u32 x) (q_cpu s)) s)) ->
  insn_sim l σ (Ret tt (mkH (set_gpr 0 (u32 0) (set_gpr (insn.rd i) (u32 x) (h_cpu σ)))
                            (u32 (h_gip σ + 4)) (h_mem σ))).
Proof.
  intros Hl s Hs. rewrite Hl by done. pose proof (sim_cpu_wf _ _ Hs) as Hc.
  rewrite reset_x0 by (apply Hc || apply insn.rd_range). eexists; split; [done|].
  apply sim_wr; [done|apply insn.rd_range|apply uN_range; lia..].
Qed.

(** The QuickIR operators compute what the handlers' C expressions do. *)
Lemma land_mod32 b : Z.land b 31 = b mod 32.
Proof. apply (Z.land_ones b 5). lia. Qed.

Lemma cast_u32 a : in_u 32 a -> cast Tu32 a = a.
Proof. intros. by apply (uN_id 32). Qed.

Lemma u32_bits z : (forall n, 32 <= n -> Z.testbit z n = false) -> u32 z = z.
Proof.
  intros Hz. apply Z.bits_inj'. intros n Hn. rewrite testbit_uN by lia.
  destruct (Z.ltb_spec n 32); [done|]. by rewrite Hz.
Qed.

Lemma in_u32_high a n : in_u 32 a -> 32 <= n -> Z.testbit a n = false.
Proof. intros Ha Hn. apply (testbit_high 32); done || lia. Qed.

Lemma u32_shiftr a k : in_u 32 a -> 0 <= k -> u32 (Z.shiftr a k) = Z.shiftr a k.
Proof.
  intros Ha Hk. apply u32_bits. intros n Hn. rewrite Z.shiftr_spec by lia. apply in_u32_high; done || lia.
Qed.

Lemma b2z_range b : in_u 32 (b2z b).
Proof. destruct b; split; cbn; lia. Qed.

Ltac bitop_range := symmetry; apply u32_bits; intros; autorewrite with rvbits;
  rewrite ?in_u32_high by (assumption || lia); reflexivity.

Lemma eval_arith a b :
  in_u 32 a -> in_u 32 b ->
  eval_binop _add a b = Some (u32 (cast Tu32 a + cast Tu32 b)) /\
  eval_binop _sub a b = Some (u32 (cast Tu32 a - cast Tu32 b)) /\
  eval_binop _xor a b = Some (u32 (Z.lxor (cast Tu32 a) (cast Tu32 b))) /\
  eval_binop _or a b = Some (u32 (Z.lor (cast Tu32 a) (cast Tu32 b))) /\
  eval_binop _and a b = Some (u32 (Z.land (cast Tu32 a) (cast Tu32 b))).
Proof.
  intros Ha Hb. rewrite !cast_u32 by done. cbn [eval_binop].
  split_and!; try reflexivity; f_equal; bitop_range.
Qed.

Lemma eval_shift a k :
  in_u 32 a -> 0 <= k ->
  eval_binop _sll a k = Some (u32 (u32 (Z.shiftl (u32 a) (k mod 32)))) /\
  eval_binop _srl a k = Some (u32 (Z.shiftr (u32 a) (k mod 32))) /\
  eval_binop _sra a k = Some (u32 (Z.shiftr (i32 a) (k mod 32))).
Proof.
  intros Ha Hk. pose proof (Z.mod_pos_bound k 32). rewrite (uN_id 32 a Ha). cbn [eval_binop].
  rewrite uN_uN, (u32_shiftr a (k mod 32)) by (done || lia). done.
Qed.

Lemma eval_shift_imm a k :
  in_u 32 a -> 0 <= k < 32 ->
  eval_binop _sll a k = Some (u32 (u32 (Z.shiftl (u32 a) k))) /\
  eval_binop _srl a k = Some (u32 (Z.shiftr (u32 a) k)) /\
  eval_binop _sra a k = Some (u32 (Z.shiftr (i32 a) k)).
Proof.
  intros Ha Hk. pose proof (eval_shift a k Ha (proj1 Hk)) as E. by rewrite !(Z.mod_small k 32 Hk) in E.
Qed.

(** A comparison or operation sees an immediate modulo [2^32]. *)
Lemma cast_imm z : cast Tu32 (u32 z) = cast Tu32 z /\ cast Ti32 (u32 z) = cast Ti32 z.
Proof. split; [apply uN_uN|apply sN_uN]. Qed.

Lemma eval_cmp a b :
  in_u 32 a -> in_u 32 b ->
  b2z (eval_cc LT a b) = u32 (op_lt (cast Ti32 a) (cast Ti32 b)) /\
  b2z (eval_cc LTU a b) = u32 (op_lt (cast Tu32 a) (cast Tu32 b)).
Proof.
  intros Ha Hb. rewrite !cast_u32 by done. unfold op_lt.
  rewrite !(uN_id 32) by apply b2z_range. done.
Qed.

(** The two kinds of second operand. *)
Definition snd_opnd (σ : hstate) (i : Z) (o : VOperand) (b : Z) : Prop :=
  voperand_wf o /\ in_u 32 b /\ forall s, sim s σ -> read_opnd state_info o s = Some b.

Lemma snd_imm σ i imm : snd_opnd σ i (VConst I32 (u32 imm)) (u32 imm).
Proof. split_and!; try done; apply uN_range; lia. Qed.
Lemma snd_rs2 s0 σ i : sim s0 σ ->
  snd_opnd σ i (gpr_opnd (insn.rs2 i) I32) (get_gpr (h_cpu σ) (insn.rs2 i)).
Proof.
  intros H0. pose proof (insn.rs2_range i). split_and!.
  - by apply gpr_opnd_wf.
  - by eapply sim_get_range.
  - intros s Hs. rewrite read_gpr_opnd by (done || by eapply sim_x0). by rewrite (sim_get s σ).
Qed.

Lemma binop_insn_sim op i σ o b x :
  snd_opnd σ i o b ->
  (in_u 32 (get_gpr (h_cpu σ) (insn.rs1 i)) -> in_u 32 b ->
   eval_binop op (get_gpr (h_cpu σ) (insn.rs1 i)) b = Some (u32 x)) ->
  insn_sim (fold_inst <$> binop_rd op i o) σ
    (Ret tt (mkH (set_gpr 0 (u32 0) (set_gpr (insn.rd i) (u32 x) (h_cpu σ)))
                 (u32 (h_gip σ + 4)) (h_mem σ))).
Proof.
  intros (Ho & Hb & Hr) Hx. apply rd_insn_sim. intros s Hs.
  eapply run_binop_rd; [apply Hs|done|by apply Hr|].
  rewrite (sim_get s σ) by done. apply Hx; [by eapply sim_get_range|done].
Qed.

Lemma setcc_insn_sim cc i σ o b x :
  snd_opnd σ i o b ->
  (in_u 32 (get_gpr (h_cpu σ) (insn.rs1 i)) -> in_u 32 b ->
   b2z (eval_cc cc (get_gpr (h_cpu σ) (insn.rs1 i)) b) = u32 x) ->
  insn_sim (fold_inst <$> setcc_rd cc i o) σ
    (Ret tt (mkH (set_gpr 0 (u32 0) (set_gpr (insn.rd i) (u32 x) (h_cpu σ)))
                 (u32 (h_gip σ + 4)) (h_mem σ))).
Proof.
  intros (Ho & Hb & Hr) Hx. apply rd_insn_sim. intros s Hs.
  erewrite run_setcc_rd; [|apply Hs|by apply Hr].
  rewrite (sim_get s σ) by done. rewrite Hx; [done|by eapply sim_get_range|done].
Qed.

Ltac solve_alu :=
  first [ refine (proj1 (eval_arith _ _ _ _))
        | refine (proj1 (proj2 (eval_arith _ _ _ _)))
        | refine (proj1 (proj2 (proj2 (eval_arith _ _ _ _))))
        | refine (proj1 (proj2 (proj2 (proj2 (eval_arith _ _ _ _)))))
        | refine (proj2 (proj2 (proj2 (proj2 (eval_arith _ _ _ _)))))
        | refine (proj1 (eval_cmp _ _ _ _))
        | refine (proj2 (eval_cmp _ _ _ _))
        | refine (proj1 (eval_shift _ _ _ _))
        | refine (proj1 (proj2 (eval_shift _ _ _ _)))
        | refine (proj2 (proj2 (eval_shift _ _ _ _)))
        | refine (proj1 (eval_shift_imm _ _ _ _))
        | refine (proj1 (proj2 (eval_shift_imm _ _ _ _)))
        | refine (proj2 (proj2 (eval_shift_imm _ _ _ _))) ]; assumption.

Lemma insn_sim_intro l σ o : (forall s, sim s σ -> insn_sim l σ o) -> insn_sim l σ o.
Proof. intros H s Hs. by apply (H s). Qed.

Lemma arith_sim op i ip tmp l σ :
  isa_alu op 0 0 <> None -> emit op i ip tmp = Some l ->
  insn_sim (fold_inst <$> l) σ (Handler weaks op i σ).
Proof.
  intros Hop Hl. apply insn_sim_intro. intros s0 Hs0. pose proof (snd_rs2 s0 σ i Hs0) as H2.
  pose proof (insn.IS_imm_range i) as His.
  assert (His' : u32 (insn.IS_imm i) = insn.IS_imm i) by (apply uN_id; unfold in_u; lia).
  assert (Hz : 0 <= get_gpr (h_cpu σ) (insn.rs2 i)) by apply H2.
  destruct op; try (exfalso; by apply Hop); clear Hop; injection Hl as <-; destruct σ as [c gip m];
    run_handler;
    first [ eapply (binop_insn_sim _ _ (mkH c gip m)) | eapply (setcc_insn_sim _ _ (mkH c gip m)) ];
    try apply snd_imm; try exact H2; intros Ha Hb; cbn [h_cpu] in *;
    rewrite ?land_mod32, ?His', <- ?(proj1 (cast_imm (insn.I_imm i))), <- ?(proj2 (cast_imm (insn.I_imm i)));
    solve_alu.
Qed.

Lemma upper_sim op i tmp l σ :
  insn.format op = insn.FU -> emit op i (h_gip σ) tmp = Some l ->
  insn_sim (fold_inst <$> l) σ (Handler weaks op i σ).
Proof.
  intros Hf Hl. destruct op; try discriminate Hf; injection Hl as <-; destruct σ as [c gip m];
    run_handler; apply (rd_insn_sim _ _ (mkH c gip m)); intros s Hs; apply run_mov_rd.
Qed.

(** ** Instructions with side effects: [ip] is stored first *)
Definition pre_insts (op : insn.Op) (ip : Z) : list Inst :=
  if insn.has_flag op insn.Flags.Trap || insn.has_flag op insn.Flags.MayTrap
  then [InstUnop _mov (VSlot true I32 offs_ip) (VConst I32 (u32 ip))] else [].

Lemma cpu_eq c1 c2 v : gpr c1 = gpr c2 -> trapno c1 = trapno c2 -> set_ip v c1 = set_ip v c2.
Proof. destruct c1, c2; cbn. by intros -> ->. Qed.

Lemma run_pre op ip l s :
  insn.has_flag op insn.Flags.Trap || insn.has_flag op insn.Flags.MayTrap = true -> in_u 32 ip ->
  run (pre_insts op ip ++ l) s = run l (q_set_cpu (set_ip ip (q_cpu s)) s).
Proof.
  intros Hf Hip. unfold pre_insts. rewrite Hf. rewrite (uN_id 32 ip Hip). by destruct s.
Qed.

(** The address computation of loads and stores. *)
Lemma run_addr i imm tmp s σ :
  sim s σ -> 32 <= tmp ->
  exists s', run (fold_inst <$> addr_insts (gpr_opnd (insn.rs1 i) I32) imm tmp) s = QNext s' /\
    sim s' σ /\ q_cpu s' = q_cpu s /\ q_mem s' = q_mem s /\
    read_opnd state_info (addr_opnd (gpr_opnd (insn.rs1 i) I32) imm tmp) s' =
      Some (u32 (get_gpr (h_cpu σ) (insn.rs1 i) + imm)).
Proof.
  intros Hs Htmp. pose proof (insn.rs1_range i) as Hr. pose proof (sim_get_range s σ (insn.rs1 i) Hs) as Ha.
  unfold addr_insts, addr_opnd. destruct (Z.eqb_spec imm 0) as [->|Hne]; cbn [fmap list_fmap].
  - exists s. split_and!; try done. rewrite read_gpr_opnd by (done || by eapply sim_x0).
    rewrite (sim_get s σ) by done. by rewrite u32_add_0_r.
  - rewrite run_fold; [|apply Hs|].
    2:{ apply Forall_cons_2; [by apply gpr_opnd_wf|]. apply Forall_singleton, uN_range. lia. }
    cbn [exec_list exec_inst]. rewrite read_gpr_opnd by (done || by eapply sim_x0).
    cbn [or_stuck read_opnd write_opnd eval_binop]. rewrite (state_reg_local tmp Htmp). cbn [or_stuck].
    eexists; split; [done|]. split; [apply sim_loc; [done|apply uN_range; lia]|].
    cbn. split_and!; try done. rewrite (sim_get s σ) by done.
    rewrite lookup_insert_eq. by rewrite uN_add_r.
Qed.

(** No load into [x0] with a zero offset. *)
Definition load_ok (i : Z) : bool := negb ((insn.rd i =? 0) && (insn.I_imm i =? 0)).

Lemma load_sim sz sgn T op i tmp σ :
  access_ity sz sgn = Some T -> load_ok i = true -> 32 <= tmp -> in_u 32 (h_gip σ) ->
  insn.has_flag op insn.Flags.Trap || insn.has_flag op insn.Flags.MayTrap = true ->
  insn_sim (pre_insts op (h_gip σ) ++ (fold_inst <$> load_insts sz sgn i tmp)) σ
    ((STATE_IP_GIP;; HANDLER_Load T i;; SET_GPR 0 0;; gip ← GET_GIP; SET_GIP (gip + 4)) σ).
Proof.
  intros HT Hok Htmp Hip Hf s Hs. rewrite run_pre by done.
  pose proof (sim_ip s σ _ _ Hs Hip Hip) as Hs1. destruct σ as [c gip m]. cbn [h_cpu h_gip h_mem] in *.
  set (s1 := q_set_cpu _ s) in *. unfold load_insts. rewrite fmap_app, exec_list_app.
  destruct (run_addr i (insn.I_imm i) tmp s1 _ Hs1 Htmp) as (s2 & -> & Hs2 & Hc2 & Hm2 & Hp). 
  cbn [h_cpu] in Hp. cbn [fmap list_fmap exec_list]. change (fold_inst ?x) with x.
  cbn [exec_inst]. rewrite Hp. cbn [or_stuck]. rewrite HT. cbn [or_stuck].
  rewrite (sim_mem _ _ Hs2). run_handler.
  destruct (unaligned_load T m _) as [v|] eqn:Hv.
  - pose proof (insn.rd_range i) as Hrd. pose proof (sim_cpu_wf _ _ Hs) as Hcw. cbn [h_cpu] in Hcw.
    rewrite reset_x0 by (apply Hcw || apply insn.rd_range). unfold load_ok in Hok.
    destruct (Z.eqb_spec (insn.rd i) 0) as [E|E]; cbn [andb negb] in Hok.
    + unfold addr_opnd. destruct (insn.I_imm i =? 0); [done|]. cbn [write_opnd].
      rewrite (state_reg_local tmp Htmp). cbn [or_stuck]. eexists; split; [done|].
      unfold wr_gpr. rewrite E. cbn [Z.eqb].
      apply (sim_gip _ (mkH (set_ip gip c) gip m)); [|apply uN_range; lia].
      apply sim_loc; [done|apply uN_range; lia].
    + rewrite write_gpr by lia. cbn [or_stuck]. eexists; split; [done|].
      pose proof (sim_wr s2 _ (insn.rd i) (u32 v) (u32 (gip + 4)) Hs2 Hrd) as Hw. cbn [h_cpu h_mem] in Hw.
      unfold wr_gpr in Hw |- *. destruct (Z.eqb_spec (insn.rd i) 0); [done|].
      apply Hw; apply uN_range; lia.
  - eexists; split; [done|]. rewrite Hc2, (sim_mem _ _ Hs2). subst s1. cbn. split; [|done].
    apply cpu_eq; apply Hs.
Qed.

Lemma store_sim sz T op i tmp σ :
  access_ity sz VSign_U = Some T -> 32 <= tmp -> in_u 32 (h_gip σ) ->
  insn.has_flag op insn.Flags.Trap || insn.has_flag op insn.Flags.MayTrap = true ->
  insn_sim (pre_insts op (h_gip σ) ++ (fold_inst <$> store_insts sz VSign_U i tmp)) σ
    ((STATE_IP_GIP;; HANDLER_Store T i;; mret tt;; gip ← GET_GIP; SET_GIP (gip + 4)) σ).
Proof.
  intros HT Htmp Hip Hf s Hs. rewrite run_pre by done.
  pose proof (sim_ip s σ _ _ Hs Hip Hip) as Hs1. destruct σ as [c gip m]. cbn [h_cpu h_gip h_mem] in *.
  set (s1 := q_set_cpu _ s) in *. unfold store_insts. rewrite fmap_app, exec_list_app.
  destruct (run_addr i (insn.S_imm i) tmp s1 _ Hs1 Htmp) as (s2 & -> & Hs2 & Hc2 & Hm2 & Hp).
  cbn [h_cpu] in Hp. cbn [fmap list_fmap exec_list]. change (fold_inst ?x) with x.
  cbn [exec_inst]. rewrite Hp. cbn [or_stuck].
  rewrite read_gpr_narrow by (apply insn.rs2_range || by eapply sim_x0). cbn [or_stuck]. rewrite HT.
  cbn [or_stuck]. rewrite (store_trunc _ _ _ _ _ _ HT). rewrite (sim_mem _ _ Hs2), (sim_get s2 _ _ Hs2). run_handler.
  destruct (unaligned_store T m _ _) as [m'|] eqn:Hv.
  - eexists; split; [done|]. unfold unaligned_store in Hv. apply store_le_Some in Hv as [_ ->].
    apply (sim_gip _ (mkH (set_ip gip c) gip _)); [|apply uN_range; lia].
    apply (sim_mem_set s2 (mkH (set_ip gip c) gip m)); [done|]. apply mem_wf_put.
    pose proof (sim_hinv _ _ Hs2) as Hh. apply hinv_wf in Hh. apply Hh.
  - eexists; split; [done|]. rewrite Hc2, (sim_mem _ _ Hs2). subst s1. cbn. split; [|done].
    apply cpu_eq; apply Hs.
Qed.

(** ** Helper calls *)
Lemma Handler_set_ip op i c gip m :
  insn.has_flag op insn.Flags.Trap || insn.has_flag op insn.Flags.MayTrap = true ->
  Handler weaks op i (mkH (set_ip gip c) gip m) = Handler weaks op i (mkH c gip m).
Proof. intros Hf. unfold Handler. rewrite Hf. done. Qed.

Lemma clobber_range (m : gmap Z Z) :
  map_Forall (fun _ v => in_u 32 v) m ->
  map_Forall (fun _ v => in_u 32 v)
    (map_imap (fun r v => Some (match clob r with Some j => u32 j | None => v end)) m).
Proof.
  intros Hm k v Hk. rewrite map_lookup_imap in Hk. apply bind_Some in Hk as (w & Hw & [= <-]).
  destruct (clob k); [apply uN_range; lia|by apply (Hm k)].
Qed.

Lemma sim_clobber s σ c g :
  qwf s -> hinv σ -> c = h_cpu σ -> in_u 32 g ->
  sim (clobber clob (q_set_mem (h_mem σ) (q_set_cpu (set_ip g c) s))) σ.
Proof.
  intros [Hc Hl Hp Hf Hm] Hi -> Hg. apply hinv_wf in Hi as Hi'. destruct Hi' as (? & ? & ?).
  split; try done. split; cbn; try done.
  - by apply cpu_wf_set_ip.
  - by apply clobber_range.
Qed.

Lemma hcall_trap_sim st op i σ :
  stub_rv32 st = Some op -> in_u 32 i -> in_u 32 (h_gip σ) ->
  insn.has_flag op insn.Flags.Trap || insn.has_flag op insn.Flags.MayTrap = true ->
  insn_sim (pre_insts op (h_gip σ) ++ [InstHcall st (VConst I32 (u32 i))]) σ (Handler weaks op i σ).
Proof.
  intros Hst Hi Hip Hf s Hs. rewrite run_pre by done. destruct σ as [c gip m]. cbn [h_gip] in *.
  cbn [exec_list exec_inst read_opnd or_stuck]. unfold exec_hcall. rewrite Hst, (uN_id 32 i Hi).
  unfold qcgstub_rv32. cbn [q_cpu q_set_cpu q_mem ip set_ip].
  rewrite (cpu_eq (q_cpu s) c gip) by apply Hs. rewrite (sim_mem _ _ Hs). cbn [h_mem].
  rewrite Handler_set_ip by done.
  pose proof (Handler_triple weaks op i (mkH c gip m) (sim_hinv _ _ Hs)) as HT.
  destruct (Handler weaks op i (mkH c gip m)) as [[] σ'|σ'|σ'|]; try done.
  - eexists; split; [done|]. refine (sim_clobber (q_set_cpu (set_ip gip c) s) σ' (h_cpu σ') (h_gip σ') _ _ _ _); try done.
    + destruct (sim_qwf _ _ Hs). split; try done. apply cpu_wf_set_ip; [|done].
      apply (sim_cpu_wf _ _ Hs).
    + by apply hinv_wf in HT as (_ & ? & _).
  - by eexists.
  - by eexists.
Qed.

Lemma hcall_fence_sim st op i σ :
  stub_rv32 st = Some op -> op = insn._fence \/ op = insn._fencei ->
  insn_sim [InstHcall st (VConst I32 (u32 i))] σ (Handler weaks op i σ).
Proof.
  intros Hst Hop s Hs. destruct σ as [c gip m].
  cbn [exec_list exec_inst read_opnd or_stuck]. unfold exec_hcall. rewrite Hst.
  unfold qcgstub_rv32. destruct Hop as [-> | ->]; run_handler; eexists; (split; [done|]).
  all: destruct Hs as [[Hc Hl Hp Hf Hm] Hi Hg Ht Hme]; apply hinv_wf in Hi as (? & ? & ?); split; try done.
  all: try (split; cbn; try done; [apply cpu_wf_set_ip; [done|apply uN_range; lia]|by apply clobber_range]).
  all: apply hinv_wf; split_and!; try done; apply uN_range; lia.
Qed.

(** ** All opcodes that do not transfer control *)
Definition insn_ok (op : insn.Op) (i : Z) : bool :=
  match op with
  | insn._lb | insn._lh | insn._lw | insn._lbu | insn._lhu => load_ok i
  | _ => true
  end.

Lemma straight_sim op i tmp l σ :
  emit op i (h_gip σ) tmp = Some l -> insn_ok op i = true -> in_u 32 i -> 32 <= tmp ->
  insn_sim (pre_insts op (h_gip σ) ++ (fold_inst <$> l)) σ (Handler weaks op i σ).
Proof.
  intros Hl Hok Hi Htmp. apply insn_sim_intro. intros s0 Hs0.
  assert (Hip : in_u 32 (h_gip σ)) by (apply (sim_hinv _ _ Hs0)).
  destruct op; try discriminate Hl;
    lazymatch goal with
    | |- context [Handler _ ?o _ _] =>
        lazymatch eval vm_compute in (insn.has_flag o insn.Flags.Trap || insn.has_flag o insn.Flags.MayTrap,
                                      bool_decide (stub_of o = None)) with
        | (false, true) =>
            change (pre_insts o (h_gip σ) ++ (fold_inst <$> l)) with (fold_inst <$> l);
            lazymatch eval vm_compute in (insn.format o) with
            | insn.FU => by apply (upper_sim _ _ tmp)
            | _ => by apply (arith_sim _ _ (h_gip σ) tmp)
            end
        | (_, false) =>
            let so := eval vm_compute in (stub_of o) in
            lazymatch so with
            | Some ?st =>
                change (Some [InstHcall st (VConst I32 (u32 i))] = Some l) in Hl;
                apply (inj Some) in Hl; subst l;
                first [ exact (hcall_fence_sim st o i σ eq_refl (or_introl eq_refl))
                      | exact (hcall_fence_sim st o i σ eq_refl (or_intror eq_refl))
                      | exact (hcall_trap_sim st o i σ eq_refl Hi Hip eq_refl) ]
            end
        | _ => idtac
        end
    end; apply (inj Some) in Hl; subst l; cbn [insn_ok] in Hok.
  - exact (load_sim I8 VSign_S Ti8 insn._lb i tmp σ eq_refl Hok Htmp Hip eq_refl).
  - exact (load_sim I16 VSign_S Ti16 insn._lh i tmp σ eq_refl Hok Htmp Hip eq_refl).
  - exact (load_sim I32 VSign_S Ti32 insn._lw i tmp σ eq_refl Hok Htmp Hip eq_refl).
  - exact (load_sim I8 VSign_U Tu8 insn._lbu i tmp σ eq_refl Hok Htmp Hip eq_refl).
  - exact (load_sim I16 VSign_U Tu16 insn._lhu i tmp σ eq_refl Hok Htmp Hip eq_refl).
  - exact (store_sim I8 Tu8 insn._sb i tmp σ eq_refl Htmp Hip eq_refl).
  - exact (store_sim I16 Tu16 insn._sh i tmp σ eq_refl Htmp Hip eq_refl).
  - exact (store_sim I32 Tu32 insn._sw i tmp σ eq_refl Htmp Hip eq_refl).
Qed.
End straight.
