(* ===== verification/TranslatorCorrect.v ===== *)
(** * Correctness of translated regions

    The translator's state between instructions: [view] is what a block
    holds, [tframe] what later translation leaves alone, [reaches] where an
    edge of the graph leads.  [jal_sim], [jalr_sim] and [brcc_sim] compare the
    instructions that end a block with the handlers. *)

From stdpp Require Import base tactics numbers list strings gmap.
From S2P Require Import Prelude Bitfield RV32Insn RV32Decode GuestState Interp InterpProofs RV32Isa InterpRefine.
From S2P Require Import VOperand Qir QirSem QirBuilder RV32Translator TranslatorEmit TranslatorSim.

Import qir.

(** ** What execution sees of a region *)
Definition view (rn : Region) (b : nat) : option (list Inst * list nat) :=
  (fun x => (insts x, succs x)) <$> blist rn !! b.

Lemma view_Some rn b l ss :
  view rn b = Some (l, ss) <-> exists x, blist rn !! b = Some x /\ insts x = l /\ succs x = ss.
Proof.
  unfold view. rewrite fmap_Some. split.
  - intros (x & Hx & [= -> ->]). by exists x.
  - intros (x & Hx & <- & <-). by exists x.
Qed.

(** Everything but the current block keeps its code. *)
Record tframe (t t' : TState) : Prop := {
  tf_ip2bb : ip2bb t' = ip2bb t;
  tf_glob : glob_info (vregs_info (t_rn t')) = glob_info (vregs_info (t_rn t));
  tf_loc : (length (loc_info (vregs_info (t_rn t))) <= length (loc_info (vregs_info (t_rn t'))))%nat;
  tf_view : forall b, b <> b_bb (t_qb t) -> is_Some (view (t_rn t) b) ->
            view (t_rn t') b = view (t_rn t) b }.

Lemma tframe_refl t : tframe t t.
Proof. by split. Qed.

Lemma tframe_trans t1 t2 t3 :
  tframe t1 t2 -> b_bb (t_qb t2) = b_bb (t_qb t1) -> tframe t2 t3 -> tframe t1 t3.
Proof.
  intros [A1 A2 A3 A4] Hb [B1 B2 B3 B4]. split; try congruence; [lia|].
  intros b Hne Hs. rewrite B4, A4; try done; [congruence|by rewrite A4].
Qed.

Lemma emits_view t t' l :
  emits t t' l -> tframe t t' /\
  exists l0 ss, view (t_rn t) (b_bb (t_qb t)) = Some (l0, ss) /\
                view (t_rn t') (b_bb (t_qb t)) = Some (l0 ++ l, ss).
Proof.
  intros [A1 A2 A3 A4 A5 A6 (b & b' & Hb & Hit & Hl & Hit' & Hi & Hs)]. split.
  - split; try done. intros k Hk _. unfold view. rewrite Hl. by rewrite list_lookup_insert_ne.
  - exists (insts b), (succs b). split; [apply view_Some; by exists b|].
    apply view_Some. exists b'. rewrite Hl, list_lookup_insert_eq by (by eapply lookup_lt_Some). done.
Qed.

Lemma view_AddSucc rn b s k :
  view (AddSucc b s rn) k =
  if bool_decide (k = b) then (fun p => (p.1, p.2 ++ [s])) <$> view rn k else view rn k.
Proof.
  unfold view, AddSucc, upd_block. cbn [blist].
  destruct (decide (k = s)) as [->|Hs].
  - rewrite list_lookup_alter_eq. case_bool_decide as Hb.
    + subst. rewrite list_lookup_alter_eq. by destruct (blist rn !! b).
    + rewrite list_lookup_alter_ne by done. by destruct (blist rn !! s).
  - rewrite list_lookup_alter_ne by done. case_bool_decide as Hb.
    + subst. rewrite list_lookup_alter_eq. by destruct (blist rn !! b).
    + by rewrite list_lookup_alter_ne by done.
Qed.

Lemma view_CreateBlock rn k :
  view (CreateBlock rn).1 k = if bool_decide (k = length (blist rn)) then Some ([], []) else view rn k.
Proof.
  unfold view, CreateBlock. cbn [fst blist]. case_bool_decide as Hk.
  - subst. by rewrite list_lookup_middle.
  - destruct (decide (k < length (blist rn))%nat).
    + by rewrite lookup_app_l by done.
    + rewrite (lookup_ge_None_2 (blist rn)) by lia.
      rewrite lookup_ge_None_2; [done|]. rewrite length_app. cbn. lia.
Qed.

(** ** Terminators *)

(** Block [b] continues at guest address [ip]. *)
Definition reaches (t : TState) (b : nat) (ip : Z) : Prop :=
  ip2bb t !! ip = Some b \/ view (t_rn t) b = Some ([InstGBr (VConst I32 ip)], []).

Lemma MakeGBr_spec ip t l0 ss :
  at_end t -> view (t_rn t) (b_bb (t_qb t)) = Some (l0, ss) -> in_u 32 ip ->
  exists t', MakeGBr ip t = Some (tt, t') /\ tframe t t' /\
    ((ip2bb t !! ip = None /\ view (t_rn t') (b_bb (t_qb t)) = Some (l0 ++ [InstGBr (VConst I32 ip)], ss))
     \/ exists b', ip2bb t !! ip = Some b' /\
        view (t_rn t') (b_bb (t_qb t)) = Some (l0 ++ [InstBr], ss ++ [b'])).
Proof.
  intros Ht Hv Hip. unfold MakeGBr. rewrite bind_get.
  destruct (ip2bb t !! ip) as [b'|] eqn:Hb.
  - destruct (qb_Create_emits InstBr t Ht) as (t1 & E1 & H1 & _).
    destruct (emits_view _ _ _ H1) as (F1 & l1 & s1 & V1 & V1'). rewrite Hv in V1. injection V1 as <- <-.
    unfold mbind, TM_bind. rewrite E1. cbn. eexists; split; [done|]. split.
    + apply (tframe_trans _ t1); [done|apply H1|]. split; try done.
      intros b Hne Hs. cbn. rewrite view_AddSucc. by case_bool_decide.
    + right. exists b'. split; [done|]. cbn. rewrite view_AddSucc.
      rewrite (em_bb _ _ _ H1), bool_decide_eq_true_2 by done. by rewrite V1'.
  - destruct (qb_Create_emits (InstGBr (vconst ip I32)) t Ht) as (t1 & E1 & H1 & _).
    destruct (emits_view _ _ _ H1) as (F1 & l1 & s1 & V1 & V1'). rewrite Hv in V1. injection V1 as <- <-.
    eexists; split; [done|]. split; [done|]. left. split; [done|]. rewrite V1'.
    unfold vconst. by rewrite (uN_id 32 ip Hip).
Qed.

Lemma qb_set_at_end b t : is_Some (view (t_rn t) b) -> at_end (set_qb (Builder_at_end (t_rn t) b) t).
Proof.
  intros [[l ss] (x & Hx & _ & _)%view_Some]. exists x. unfold Builder_at_end. cbn. by rewrite Hx.
Qed.

Lemma view_lt rn b : is_Some (view rn b) -> (b < length (blist rn))%nat.
Proof. unfold view. rewrite fmap_is_Some. apply lookup_lt_is_Some_1. Qed.

(** [make_target] leaves all existing blocks alone. *)
Lemma make_target_spec ip t :
  in_u 32 ip ->
  exists b t', make_target ip t = Some (b, t') /\
    (ip2bb t !! ip = Some b \/
     (view (t_rn t) b = None /\ view (t_rn t') b = Some ([InstGBr (VConst I32 ip)], []))) /\
    ip2bb t' = ip2bb t /\ insn_ip t' = insn_ip t /\ control t' = control t /\
    vregs_info (t_rn t') = vregs_info (t_rn t) /\
    forall k, is_Some (view (t_rn t) k) -> view (t_rn t') k = view (t_rn t) k.
Proof.
  intros Hip. unfold make_target. rewrite bind_get.
  destruct (ip2bb t !! ip) as [b|] eqn:Hb.
  - exists b, t. split_and!; try done. by left.
  - set (n := length (blist (t_rn t))).
    set (t1 := set_rn (CreateBlock (t_rn t)).1 t).
    assert (V1 : forall k, view (t_rn t1) k = if bool_decide (k = n) then Some ([], []) else view (t_rn t) k)
      by apply view_CreateBlock.
    set (t2 := set_qb (Builder_at_end (t_rn t1) n) t1).
    assert (H2 : at_end t2).
    { apply qb_set_at_end. rewrite V1, bool_decide_eq_true_2 by done. by eexists. }
    destruct (qb_Create_emits (InstGBr (vconst ip I32)) t2 H2) as (t3 & E3 & H3 & Hvr).
    destruct (emits_view _ _ _ H3) as (F3 & l3 & s3 & V3 & V3').
    change (b_bb (t_qb t2)) with n in *. change (t_rn t2) with (t_rn t1) in *.
    rewrite V1, bool_decide_eq_true_2 in V3 by done. injection V3 as <- <-.
    unfold vconst in E3, V3'. rewrite (uN_id 32 ip Hip) in V3'.
    exists n, t3. split_and!; try done.
    + change ((('(_, t3) ← qb_Create (InstGBr (VConst I32 (u32 ip))) t2; Some (n, t3)) : option (nat * TState))
                = Some (n, t3)). by rewrite E3.
    + right. split; [|done]. unfold view. subst n. by rewrite lookup_ge_None_2.
    + by rewrite (em_ip2bb _ _ _ H3).
    + by rewrite (em_ip _ _ _ H3).
    + by rewrite (em_control _ _ _ H3).
    + intros k Hk. pose proof (view_lt _ _ Hk). rewrite (tf_view _ _ F3).
      * change (t_rn t2) with (t_rn t1). rewrite V1, bool_decide_eq_false_2; [done|]. subst n. lia.
      * change (b_bb (t_qb t2)) with n. subst n. lia.
      * change (t_rn t2) with (t_rn t1). rewrite V1, bool_decide_eq_false_2; [done|]. subst n. lia.
Qed.

Lemma reaches_frame t t' b ip :
  tframe t t' -> b <> b_bb (t_qb t) \/ ip2bb t !! ip = Some b -> reaches t b ip -> reaches t' b ip.
Proof.
  intros F Hb [H|H]; [left; by rewrite (tf_ip2bb _ _ F)|].
  destruct Hb as [Hb|Hb]; [|left; by rewrite (tf_ip2bb _ _ F)].
  right. rewrite (tf_view _ _ F); [done|done|]. rewrite H. by eexists.
Qed.

Lemma TranslateBrcc_spec i cc t l0 ss :
  at_end t -> view (t_rn t) (b_bb (t_qb t)) = Some (l0, ss) ->
  exists t' bt bf, TranslateBrcc i cc t = Some (tt, t') /\ tframe t t' /\
    insn_ip t' = insn_ip t /\
    view (t_rn t') (b_bb (t_qb t)) =
      Some (l0 ++ [InstBrcc cc (gpr_opnd (insn.rs1 i) I32) (gpr_opnd (insn.rs2 i) I32)], ss ++ [bt; bf]) /\
    reaches t' bt (u32 (insn_ip t + insn.B_imm i)) /\ reaches t' bf (u32 (insn_ip t + 4)).
Proof.
  intros Ht Hv. set (src := b_bb (t_qb t)) in *. set (ipf := u32 (insn_ip t + 4)).
  set (ipt := u32 (insn_ip t + insn.B_imm i)).
  assert (Hipf : in_u 32 ipf) by (apply uN_range; lia).
  assert (Hipt : in_u 32 ipt) by (apply uN_range; lia).
  destruct (make_target_spec ipf t Hipf) as (bf & t1 & E1 & R1 & A1 & A2 & A3 & A4 & A5).
  destruct (make_target_spec ipt t1 Hipt) as (bt & t2 & E2 & R2 & B1 & B2 & B3 & B4 & B5).
  assert (V1 : view (t_rn t1) src = Some (l0, ss)) by (rewrite A5; [done|by rewrite Hv]).
  assert (V2 : view (t_rn t2) src = Some (l0, ss)) by (rewrite B5; [done|by rewrite V1]).
  set (t3 := set_qb (Builder_at_end (t_rn t2) src) t2).
  assert (H3 : at_end t3) by (apply qb_set_at_end; by rewrite V2).
  set (br := InstBrcc cc (gpr_opnd (insn.rs1 i) I32) (gpr_opnd (insn.rs2 i) I32)).
  destruct (qb_Create_emits br t3 H3) as (t4 & E4 & H4 & _).
  destruct (emits_view _ _ _ H4) as (F4 & l4 & s4 & V4 & V4').
  change (b_bb (t_qb t3)) with src in *. change (t_rn t3) with (t_rn t2) in V4.
  rewrite V2 in V4. injection V4 as <- <-.
  set (t5 := set_rn (AddSucc src bt (t_rn t4)) t4).
  set (t6 := set_rn (AddSucc src bf (t_rn t5)) t5).
  assert (Hbb4 : b_bb (t_qb t4) = src) by apply H4.
  assert (V6 : forall k, k <> src -> view (t_rn t6) k = view (t_rn t4) k).
  { intros k Hk. subst t6 t5. cbn. rewrite !view_AddSucc. by repeat case_bool_decide. }
  assert (V46 : forall k, k <> src -> is_Some (view (t_rn t2) k) -> view (t_rn t6) k = view (t_rn t2) k).
  { intros k Hk Hs. rewrite V6 by done. by apply (tf_view _ _ F4). }
  assert (P6 : ip2bb t6 = ip2bb t).
  { change (ip2bb t4 = ip2bb t). rewrite (em_ip2bb _ _ _ H4). change (ip2bb t2 = ip2bb t). congruence. }
  exists t6, bt, bf. split_and!.
  - unfold TranslateBrcc. rewrite bind_get. fold ipf ipt src.
    change ((('(bf, t1) ← make_target ipf t; '(bt, t2) ← make_target ipt t1;
             ((qb_set src;; s1 ← gprop (insn.rs1 i) I32; s2 ← gprop (insn.rs2 i) I32;
               qb_Create (InstBrcc cc s1 s2);; qb_AddSucc bt;; qb_AddSucc bf) : TM unit) t2)
             : option (unit * TState)) = Some ((), t6)).
    rewrite E1. cbn [mbind option_bind]. rewrite E2. cbn [mbind option_bind].
    change ((((s1 ← gprop (insn.rs1 i) I32; s2 ← gprop (insn.rs2 i) I32;
               qb_Create (InstBrcc cc s1 s2);; qb_AddSucc bt;; qb_AddSucc bf) : TM unit) t3) = Some ((), t6)).
    rewrite bind_gprop, bind_gprop. fold br. unfold mbind at 1, TM_bind at 1. rewrite E4.
    subst t6 t5. rewrite <- Hbb4. reflexivity.
  - split.
    + done.
    + cbn. rewrite (em_glob _ _ _ H4). cbn. by rewrite B4, A4.
    + cbn. pose proof (em_loc _ _ _ H4) as Hl. cbn in Hl. rewrite B4, A4 in Hl. done.
    + intros k Hk Hs. rewrite V46; [by rewrite B5, A5; rewrite ?A5|done|]. by rewrite B5, A5; rewrite ?A5.
  - cbn. rewrite (em_ip _ _ _ H4). cbn. by rewrite B2, A2.
  - subst t6 t5. cbn. rewrite !view_AddSucc, !bool_decide_eq_true_2, V4' by done. cbn.
    by rewrite <- app_assoc.
  - destruct R2 as [R2|[R2 R2']].
    + left. rewrite P6, <- A1. done.
    + right. rewrite V46; [done| |by rewrite R2']. intros ->. by rewrite V1 in R2.
  - destruct R1 as [R1|[R1 R1']].
    + left. by rewrite P6.
    + right. rewrite V46; [rewrite B5; rewrite R1'; done| |rewrite B5; by rewrite R1'].
      intros ->. by rewrite Hv in R1.
Qed.

(** ** Control transfers against their handlers *)
Section control.
Context (clob : Z -> option Z) (weaks : list bool).
Notation run := (exec_list state_info clob weaks).

(** The interpreter either traps on a misaligned target or goes to [ip]. *)
Definition jumps (o : outcome unit) (P : hstate -> Prop) : Prop :=
  match o with
  | Ret _ σ' => P σ'
  | Raised σ' => trapno (h_cpu σ') = UNALIGNED_IP
  | _ => False
  end.

Lemma jal_sim i s σ :
  sim s σ ->
  jumps (Handler weaks insn._jal i σ) (fun σ' => exists s',
    run (fold_inst <$> mov_rd i (h_gip σ + 4)) s = QNext s' /\ sim s' σ' /\
    h_gip σ' = u32 (h_gip σ + insn.J_imm i)).
Proof.
  intros Hs. destruct σ as [c gip m]. run_handler. destruct (negb _); [done|]. cbn [jumps].
  pose proof (sim_cpu_wf _ _ Hs) as Hc. cbn [h_cpu] in Hc.
  rewrite reset_x0 by (apply Hc || apply insn.rd_range). eexists. split; [apply run_mov_rd|].
  split; [|done]. pose proof (insn.rd_range i) as Hr.
  assert (Hu : forall z, in_u 32 (u32 z)) by (intros; apply uN_range; lia).
  pose proof (sim_wr s _ (insn.rd i) (u32 (gip + 4)) (u32 (gip + insn.J_imm i)) Hs Hr (Hu _) (Hu _)) as Hw.
  pose proof Hw as [[? ? ? ? ?] Hh ? ? ?]. split; try done.
  apply hinv_wf in Hh as (? & ? & ?). apply hinv_wf. split_and!; try done. by apply cpu_wf_set_ip.
Qed.

(** The instructions of [jalr]. *)
Definition jalr_insts (i ip tmp : Z) : list Inst :=
  [fold_inst (InstBinop _add (VGPR I32 tmp) (gpr_opnd (insn.rs1 i) I32) (VConst I32 (u32 (insn.I_imm i))));
   InstBinop _and (VGPR I32 tmp) (VGPR I32 tmp) (VConst I32 (u32 (Z.lnot 1)))] ++
  (fold_inst <$> mov_rd i (ip + 4)) ++ [InstGBrind (VGPR I32 tmp)].

Lemma jalr_sim i tmp s σ :
  sim s σ -> 32 <= tmp ->
  jumps (Handler weaks insn._jalr i σ) (fun σ' => exists s',
    run (jalr_insts i (h_gip σ) tmp) s = QExit (h_gip σ') s' /\ sim s' σ').
Proof.
  intros Hs Htmp. destruct σ as [c gip m]. run_handler. destruct (negb _); [done|]. cbn [jumps].
  pose proof (sim_cpu_wf _ _ Hs) as Hc. cbn [h_cpu] in Hc. pose proof (insn.rd_range i) as Hr.
  rewrite reset_x0 by (apply Hc || done).
  assert (Hu : forall z, in_u 32 (u32 z)) by (intros; apply uN_range; lia).
  set (tg := u32 (get_gpr c (insn.rs1 i) + insn.I_imm i)).
  set (tgt := Z.land tg (u32 (Z.lnot 1))).
  assert (Htgt : in_u 32 tgt).
  { subst tgt. replace (Z.land tg (u32 (Z.lnot 1))) with (u32 (Z.land tg (Z.lnot 1))); [apply Hu|].
    subst tg. bits. }
  unfold jalr_insts. cbn [app].
  rewrite run_fold; [|apply Hs|].
  2:{ apply Forall_cons_2; [apply gpr_opnd_wf, insn.rs1_range|]. apply Forall_singleton, Hu. }
  cbn [exec_list exec_inst]. rewrite read_gpr_opnd by (apply insn.rs1_range || by eapply sim_x0).
  rewrite (sim_get s _ _ Hs). cbn [h_cpu or_stuck read_opnd write_opnd eval_binop narrow].
  rewrite uN_add_r. fold tg.
  rewrite !(state_reg_local tmp Htmp). cbn [or_stuck q_loc q_set_loc].
  rewrite lookup_insert_eq. cbn [or_stuck]. fold tgt.
  set (s2 := q_set_loc tmp tgt _).
  assert (Hs2 : sim s2 (mkH c gip m)) by (apply sim_loc; [apply sim_loc; [done|apply Hu]|done]).
  rewrite exec_list_app, run_mov_rd. cbn [exec_list exec_inst read_opnd narrow].
  rewrite !(state_reg_local tmp Htmp). cbn [narrow q_loc q_set_cpu]. subst s2. cbn [q_loc q_set_loc].
  rewrite lookup_insert_eq. cbn [or_stuck]. rewrite (uN_id 32 tgt Htgt). eexists; split; [done|].
  pose proof (sim_wr _ _ (insn.rd i) (u32 (gip + 4)) tgt Hs2 Hr (Hu _) Htgt) as Hw. cbn [h_cpu h_mem] in Hw.
  pose proof Hw as [Hq Hh ? ? ?]. split; try done.
  apply hinv_wf in Hh as (? & ? & ?). apply hinv_wf. split_and!; try done. by apply cpu_wf_set_ip.
Qed.

Definition op_cc (op : insn.Op) : option CondCode :=
  match op with
  | insn._beq => Some EQ | insn._bne => Some NE | insn._blt => Some LT
  | insn._bge => Some GE | insn._bltu => Some LTU | insn._bgeu => Some GEU
  | _ => None
  end.

Lemma brcc_sim op cc i s σ :
  op_cc op = Some cc -> sim s σ ->
  jumps (Handler weaks op i σ) (fun σ' => sim s σ' /\ exists k,
    run [InstBrcc cc (gpr_opnd (insn.rs1 i) I32) (gpr_opnd (insn.rs2 i) I32)] s = QJump k s /\
    ((k = 0%nat /\ h_gip σ' = u32 (h_gip σ + insn.B_imm i)) \/
     (k = 1%nat /\ h_gip σ' = u32 (h_gip σ + 4)))).
Proof.
  intros Hop Hs. cbn [exec_list exec_inst].
  rewrite (read_gpr_opnd (insn.rs1 i) s (insn.rs1_range i) (sim_x0 s σ Hs)).
  rewrite (read_gpr_opnd (insn.rs2 i) s (insn.rs2_range i) (sim_x0 s σ Hs)).
  rewrite !(sim_get s σ _ Hs). cbn [or_stuck].
  pose proof (sim_get_range s σ (insn.rs1 i) Hs) as Ha. pose proof (sim_get_range s σ (insn.rs2 i) Hs) as Hb.
  destruct σ as [c gip m]. cbn [h_cpu h_gip] in *.
  assert (Hsim : forall g, in_u 32 g -> sim s (mkH (set_ip g c) g m)).
  { intros g Hg. pose proof Hs as [? Hh ? ? ?]. split; try done.
    apply hinv_wf in Hh as (? & ? & ?). apply hinv_wf. split_and!; try done. by apply cpu_wf_set_ip. }
  assert (HT : forall T cond,
    eval_cc cc (get_gpr c (insn.rs1 i)) (get_gpr c (insn.rs2 i)) =
      cond (cast T (get_gpr c (insn.rs1 i))) (cast T (get_gpr c (insn.rs2 i))) ->
    jumps ((mret tt;; HANDLER_BCC T cond i;; mret tt;; STATE_IP_GIP) (mkH c gip m))
      (fun σ' => sim s σ' /\ exists k,
         QJump (if eval_cc cc (get_gpr c (insn.rs1 i)) (get_gpr c (insn.rs2 i)) then 0 else 1) s = QJump k s /\
         ((k = 0%nat /\ h_gip σ' = u32 (gip + insn.B_imm i)) \/ (k = 1%nat /\ h_gip σ' = u32 (gip + 4))))).
  { intros T cond E. rewrite E. run_handler. destruct (cond _ _); cbn [negb].
    - destruct (negb _); [done|]. cbn [jumps]. split; [apply Hsim, uN_range; lia|].
      eexists; split; [done|]. by left.
    - cbn [jumps]. split; [apply Hsim, uN_range; lia|]. eexists; split; [done|]. by right. }
  destruct op; try discriminate Hop; injection Hop as <-; unfold Handler; flags_compute;
    cbn [orb Impl]; apply HT; cbn [eval_cc]; rewrite ?(cast_u32 _ Ha), ?(cast_u32 _ Hb); reflexivity.
Qed.
End control.
