(* ===== verification/TranslatorRegion.v ===== *)
(** * Blocks and regions against the interpreter

    [isteps] is a run of the interpreter's dispatch loop, which fetches every
    instruction from the guest memory of the moment; a region is translated
    from the guest memory [code] of an earlier moment.  [matches] relates the
    way a block is left with a run of the interpreter ([rsteps]: a run within
    the translated instructions).  The only runs without a counterpart are
    those on which the interpreter, still within the region, comes to an
    instruction that was modified since the translation, traps on a misaligned
    jump target, which the translator does not check, or leaves the contract
    of an atomic operation ([goes_bad]). *)

From stdpp Require Import base tactics numbers list strings gmap.
From S2P Require Import Prelude Bitfield RV32Insn RV32Decode GuestState Interp InterpProofs RV32Isa InterpRefine.
From S2P Require Import VOperand Qir QirSem QirBuilder RV32Translator TranslatorEmit TranslatorSim TranslatorCorrect.

Import qir.

(** ** Handlers of opcodes that do not branch fall through *)
Definition keeps_gip {A} (c : Hm A) : Prop :=
  forall σ, match c σ with Ret _ σ' => h_gip σ' = h_gip σ | _ => True end.

Lemma keeps_bind {A B} (c : Hm A) (k : A -> Hm B) :
  keeps_gip c -> (forall a, keeps_gip (k a)) -> keeps_gip (c ≫= k).
Proof.
  intros Hc Hk σ. unfold mbind, Hm_bind. specialize (Hc σ). destruct (c σ) as [a σ1| | |]; try done.
  specialize (Hk a σ1). destruct (k a σ1); try done. congruence.
Qed.
Lemma keeps_if {A} (b : bool) (c1 c2 : Hm A) :
  keeps_gip c1 -> keeps_gip c2 -> keeps_gip (if b then c1 else c2).
Proof. by destruct b. Qed.
Lemma keeps_ret {A} (a : A) : keeps_gip (mret a).
Proof. by intros σ. Qed.
Lemma keeps_GPR r : keeps_gip (GPR r).
Proof. by intros σ. Qed.
Lemma keeps_GET : keeps_gip GET_GIP.
Proof. by intros σ. Qed.
Lemma keeps_SET r v : keeps_gip (SET_GPR r v).
Proof. by intros σ. Qed.
Lemma keeps_raise t : keeps_gip (RAISE_TRAP t).
Proof. by intros σ. Qed.
Lemma keeps_RaiseTrap : keeps_gip (@RaiseTrap unit).
Proof. by intros σ. Qed.
Lemma keeps_undef {A} : keeps_gip (@h_undefined A).
Proof. by intros σ. Qed.
Lemma keeps_load T a : keeps_gip (load_mem T a).
Proof. intros σ. unfold load_mem. by destruct (unaligned_load _ _ _). Qed.
Lemma keeps_store T a v : keeps_gip (store_mem T a v).
Proof. intros σ. unfold store_mem. by destruct (unaligned_store _ _ _ _). Qed.

Ltac keeps :=
  repeat lazymatch goal with
  | |- forall _, _ => intros
  | |- keeps_gip (_ ≫= _) => apply keeps_bind
  | |- keeps_gip (if _ then _ else _) => apply keeps_if
  | |- keeps_gip (mret _) => apply keeps_ret
  | |- keeps_gip (GPR _) => apply keeps_GPR
  | |- keeps_gip GET_GIP => apply keeps_GET
  | |- keeps_gip (SET_GPR _ _) => apply keeps_SET
  | |- keeps_gip (RAISE_TRAP _) => apply keeps_raise
  | |- keeps_gip RaiseTrap => apply keeps_RaiseTrap
  | |- keeps_gip h_undefined => apply keeps_undef
  | |- keeps_gip (load_mem _ _) => apply keeps_load
  | |- keeps_gip (store_mem _ _ _) => apply keeps_store
  end.

Lemma keeps_amomax weaks a cur rhs : keeps_gip (amomax_loop weaks a cur rhs).
Proof.
  revert cur. induction weaks as [|w weaks IH]; intros cur; rewrite amomax_loop_eq;
    unfold compare_exchange_weak; keeps; match goal with p : bool * Z |- _ => destruct p as [[] ?] end; keeps.
  apply IH.
Qed.

Lemma keeps_ApplyInsnA h i : (forall mo, keeps_gip (h mo)) -> keeps_gip (ApplyInsnA h i).
Proof.
  intros Hh. unfold ApplyInsnA. cbn [switch]. repeat (apply keeps_if; [apply Hh|]). apply keeps_undef.
Qed.

Lemma Impl_keeps_gip weaks op i :
  insn.has_flag op insn.Flags.Branch = false -> keeps_gip (Impl weaks op i).
Proof.
  destruct op; intros Hf; try discriminate Hf; cbn [Impl];
    unfold HANDLER_Unimpl, HANDLER_Load, HANDLER_Store, HANDLER_ArithmRR,
      HANDLER_ArithmRI, Impl_lui, Impl_auipc, Impl_slli, Impl_srai, Impl_srli,
      Impl_sll, Impl_sra, Impl_srl, Impl_ecall, Impl_ebreak, Impl_lrw, Impl_scw, Impl_amoswapw,
      Impl_amoaddw, Impl_amomaxuw, atomic_ref, atomic_exchange, atomic_fetch_add;
    lazymatch goal with
    | |- keeps_gip (ApplyInsnA _ _) => apply keeps_ApplyInsnA; intros []
    | _ => idtac
    end; cbn [atomic_load atomic_store]; keeps; apply keeps_amomax.
Qed.

Lemma Handler_gip weaks op i σ σ' :
  insn.has_flag op insn.Flags.Branch = false -> Handler weaks op i σ = Ret tt σ' ->
  h_gip σ' = u32 (h_gip σ + 4).
Proof.
  intros Hf. unfold Handler. rewrite Hf. unfold mbind, Hm_bind.
  assert (H1 : forall b : bool, keeps_gip (if b then STATE_IP_GIP else mret tt)) by (by intros []).
  assert (H3 : forall b : bool, keeps_gip (if b then SET_GPR 0 0 else mret tt)) by (by intros []).
  pose proof (Impl_keeps_gip weaks op i Hf) as H2.
  specialize (H1 (insn.has_flag op insn.Flags.Trap || insn.has_flag op insn.Flags.MayTrap) σ).
  destruct ((if insn.has_flag op insn.Flags.Trap || insn.has_flag op insn.Flags.MayTrap
             then STATE_IP_GIP else mret tt) σ) as [? σ1| | |]; try done.
  specialize (H2 σ1). destruct (Impl weaks op i σ1) as [? σ2| | |]; try done.
  specialize (H3 (insn.has_flag op insn.Flags.HasRd) σ2).
  destruct ((if insn.has_flag op insn.Flags.HasRd then SET_GPR 0 0 else mret tt) σ2) as [? σ3| | |]; try done.
  intros [= <-]. cbn. congruence.
Qed.

(** More fuel does not change a result. *)
Lemma exec_region_more si clob weaks k fuel rn b s r :
  exec_region si clob weaks fuel rn b s = Some r -> exec_region si clob weaks (k + fuel) rn b s = Some r.
Proof.
  revert b s. induction fuel as [|fuel IH]; intros b s; [done|]. rewrite Nat.add_succ_r. cbn [exec_region].
  destruct (blist rn !! b); [|done]. destruct (exec_block _ _ _ _ _); try done.
  destruct (succs _ !! _); [|done]. apply IH.
Qed.

(** ** Runs of the interpreter *)
Inductive isteps (weaks : list bool) : nat -> hstate -> hstate -> Prop :=
| isteps_O σ : isteps weaks 0 σ σ
| isteps_S n σ σ1 σ2 : dispatch weaks σ = Ret tt σ1 -> isteps weaks n σ1 σ2 -> isteps weaks (S n) σ σ2.

Lemma isteps_trans weaks n m σ1 σ2 σ3 :
  isteps weaks n σ1 σ2 -> isteps weaks m σ2 σ3 -> isteps weaks (n + m) σ1 σ3.
Proof. induction 1; [done|]. intros. cbn. econstructor; eauto. Qed.

Lemma isteps_det weaks n m σ σ1 σ2 :
  isteps weaks n σ σ1 -> isteps weaks m σ σ2 -> (n <= m)%nat -> isteps weaks (m - n) σ1 σ2.
Proof.
  intros Hn. revert m. induction Hn as [σ|n σ σa σ1 E Hn IH]; intros m Hm Hle; [by rewrite Nat.sub_0_r|].
  destruct Hm as [|m σ σb σ2 E' Hm]; [lia|]. rewrite E in E'. injection E' as <-.
  apply IH; [done|lia].
Qed.

(** The interpreter's loop returns what the state at the end of a run is left
    with, and only that. *)
Lemma isteps_loop weaks n σ σ1 :
  isteps weaks n σ σ1 -> (forall σ2, dispatch weaks σ1 <> Ret tt σ2) ->
  interp_loop (S n) weaks σ = Some (dispatch weaks σ1).
Proof.
  induction 1 as [σ|n σ σ1 σ2 E Hn IH]; intros Hstop.
  - cbn [interp_loop]. destruct (dispatch weaks σ) as [[] σ2| | |] eqn:Ed; try done. by destruct (Hstop σ2).
  - cbn [interp_loop]. rewrite E. by apply IH.
Qed.
Lemma isteps_loop_add weaks n fuel σ σ1 :
  isteps weaks n σ σ1 -> interp_loop (n + fuel) weaks σ = interp_loop fuel weaks σ1.
Proof. induction 1 as [σ|n σ σ1 σ2 E Hn IH]; [done|]. cbn [Nat.add interp_loop]. by rewrite E. Qed.
Lemma loop_isteps weaks fuel σ o :
  interp_loop fuel weaks σ = Some o ->
  exists n σ1, (n < fuel)%nat /\ isteps weaks n σ σ1 /\ dispatch weaks σ1 = o /\ forall σ2, o <> Ret tt σ2.
Proof.
  revert σ. induction fuel as [|fuel IH]; intros σ; [done|]. cbn [interp_loop].
  destruct (dispatch weaks σ) as [[] σ'| | |] eqn:Ed.
  1:{ intros (n & σ1 & Hlt & Hn & Ho)%IH. exists (S n), σ1. split; [lia|]. split; [by econstructor|done]. }
  all: intros [= <-]; exists 0%nat, σ; split_and!; try done; try lia; constructor.
Qed.

(** ** The instructions of a range

    [translate_loop] looks at no other words: it stops at the upper bound and
    after [TB_MAX_INSNS] instructions. *)
Definition in_range (r : Z * Z) (ip : Z) : Prop :=
  exists k, 0 <= k < TB_MAX_INSNS /\ ip = u32 (r.1 + 4 * k) /\ forall j, 0 < j <= k -> u32 (r.1 + 4 * j) < r.2.
Definition in_ranges (rs : list (Z * Z)) (ip : Z) : Prop := exists r, r ∈ rs /\ in_range r ip.

Lemma in_range_first r : in_u 32 r.1 -> in_range r r.1.
Proof. intros H. exists 0. unfold TB_MAX_INSNS. split; [lia|]. rewrite Z.mul_0_r, Z.add_0_r, uN_id by done. split; [done|lia]. Qed.

Section region.
Context (clob : Z -> option Z) (weaks : list bool) (code : mem) (inside : Z -> Prop).
Context (Hcode_wf : mem_wf code).
(** No load into [x0] with a zero offset in the code that is translated (see
    [load_ok]). *)
Context (Hcode_ok : forall ip raw, inside ip -> load_le 4 code ip = Some raw -> insn_ok (Decoder.Decode raw) raw = true).

Notation run := (exec_list state_info clob weaks).
Notation interp_step := (dispatch weaks).

(** A run of the interpreter within the translated instructions. *)
Inductive rsteps : nat -> hstate -> hstate -> Prop :=
| rsteps_O σ : rsteps 0 σ σ
| rsteps_S n σ σ1 σ2 : inside (h_gip σ) -> interp_step σ = Ret tt σ1 -> rsteps n σ1 σ2 -> rsteps (S n) σ σ2.

(** The instruction at hand is not the one that was translated. *)
Definition modified (σ : hstate) : Prop := fetch (h_mem σ) (h_gip σ) <> fetch code (h_gip σ).
Definition bad (σ : hstate) : Prop :=
  modified σ \/ interp_step σ = Undefined \/ exists σ2, interp_step σ = Raised σ2 /\ trapno (h_cpu σ2) = UNALIGNED_IP.
Definition goes_bad (σ : hstate) : Prop := exists n σ1, rsteps n σ σ1 /\ inside (h_gip σ1) /\ bad σ1.

Lemma rsteps_isteps n σ σ' : rsteps n σ σ' -> isteps weaks n σ σ'.
Proof. induction 1; by econstructor. Qed.
Lemma rsteps_trans n m σ1 σ2 σ3 : rsteps n σ1 σ2 -> rsteps m σ2 σ3 -> rsteps (n + m) σ1 σ3.
Proof. induction 1; [done|]. intros. cbn. econstructor; eauto. Qed.
Lemma rsteps_one σ σ' : inside (h_gip σ) -> interp_step σ = Ret tt σ' -> rsteps 1 σ σ'.
Proof. intros. econstructor; [done..|constructor]. Qed.

(** What is fetched is what was translated, or the run is excused. *)
Lemma istep_code σ raw :
  inside (h_gip σ) -> load_le 4 code (h_gip σ) = Some raw ->
  goes_bad σ \/ interp_step σ = Handler weaks (Decoder.Decode raw) raw σ.
Proof.
  intros Hin Hraw. destruct (decide (fetch (h_mem σ) (h_gip σ) = fetch code (h_gip σ))) as [E|E].
  - right. unfold dispatch. rewrite E. unfold fetch. by rewrite Hraw.
  - left. exists 0%nat, σ. split; [constructor|]. split; [done|by left].
Qed.

Definition same_arch (s : qstate) (σ : hstate) : Prop := q_cpu s = h_cpu σ /\ q_mem s = h_mem σ.

Definition matches (t : TState) (ss : list nat) (r : qres) (σ : hstate) : Prop :=
  goes_bad σ \/
  match r with
  | QJump k s' => exists n b' σ', ss !! k = Some b' /\ rsteps (S n) σ σ' /\ sim s' σ' /\
                                  reaches t b' (h_gip σ')
  | QExit ip s' => exists n σ', rsteps (S n) σ σ' /\ sim s' σ' /\ h_gip σ' = ip
  | QRaised s' => exists n σ1 σ2, rsteps n σ σ1 /\ interp_step σ1 = Raised σ2 /\ same_arch s' σ2
  | QFaulted s' => exists n σ1 σ2, rsteps n σ σ1 /\ interp_step σ1 = Faulted σ2 /\ same_arch s' σ2
  | _ => False
  end.

Lemma goes_bad_steps n σ σ' : rsteps n σ σ' -> goes_bad σ' -> goes_bad σ.
Proof.
  intros Hn (m & σ2 & Hm & H). exists (n + m)%nat, σ2. split; [by eapply rsteps_trans|done].
Qed.

Lemma matches_step t ss r σ σ1 :
  inside (h_gip σ) -> interp_step σ = Ret tt σ1 -> matches t ss r σ1 -> matches t ss r σ.
Proof.
  intros Hin E [H|H]; [left; eapply goes_bad_steps; [by apply rsteps_one|done]|right].
  destruct r; try done.
  - destruct H as (n & b' & σ' & ? & ? & ?). exists (S n), b', σ'. split_and!; try apply H1; try done.
    by econstructor.
  - destruct H as (n & σ' & ? & ?). exists (S n), σ'. split; [by econstructor|done].
  - destruct H as (n & σa & σb & ? & ?). exists (S n), σa, σb. split; [by econstructor|done].
  - destruct H as (n & σa & σb & ? & ?). exists (S n), σa, σb. split; [by econstructor|done].
Qed.

(** The trap of a misaligned target. *)
Lemma jumps_bad σ raw P :
  inside (h_gip σ) -> load_le 4 code (h_gip σ) = Some raw -> jumps (Handler weaks (Decoder.Decode raw) raw σ) P ->
  goes_bad σ \/ exists σ', interp_step σ = Ret tt σ' /\ P σ'.
Proof.
  intros Hin Hraw H. destruct (istep_code σ raw Hin Hraw) as [?|E]; [by left|]. rewrite <- E in H.
  destruct (interp_step σ) as [[] σ'|σ'| |] eqn:Es; try done; [right; by exists σ'|].
  left. exists 0%nat, σ. split; [constructor|]. split; [done|]. right. right. by exists σ'.
Qed.

(** ** One instruction *)

(** What translating one instruction adds to the current block: [l] and
    [ss], and how executing [l] relates to the interpreter.  [nxt] says that
    translation goes on behind the instruction. *)
Definition step_ok (t t' : TState) (l : list Inst) (ss : list nat) (nxt : bool) : Prop :=
  forall s σ, sim s σ -> h_gip σ = insn_ip t ->
  if nxt then
    match run l s with
    | QNext s' => goes_bad σ \/ exists σ', interp_step σ = Ret tt σ' /\ sim s' σ' /\ h_gip σ' = insn_ip t'
    | r => forall t'' ss'', matches t'' ss'' r σ
    end
  else matches t' ss (run l s) σ.

Definition no_wrap (t : TState) : Prop :=
  NumAll (vregs_info (t_rn t)) < 2 ^ 16.

Lemma insn_sim_step t' l ss σ raw s :
  inside (h_gip σ) -> load_le 4 code (h_gip σ) = Some raw ->
  insn_sim clob weaks l σ (Handler weaks (Decoder.Decode raw) raw σ) -> sim s σ ->
  match run l s with
  | QNext s' => goes_bad σ \/ exists σ', interp_step σ = Ret tt σ' /\ Handler weaks (Decoder.Decode raw) raw σ = Ret tt σ' /\ sim s' σ'
  | r => matches t' ss r σ
  end.
Proof.
  intros Hin Hf Hsim Hs. specialize (Hsim s Hs).
  destruct (istep_code σ raw Hin Hf) as [Hb|E]; [destruct (run l s); by left|].
  destruct (Handler weaks _ raw σ) as [[] σ'|σ'|σ'|] eqn:Hh.
  - destruct Hsim as (s' & -> & ?). right. by exists σ'.
  - destruct Hsim as (s' & -> & ?). right. exists 0%nat, σ, σ'. split_and!; try done. constructor.
  - destruct Hsim as (s' & -> & ?). right. exists 0%nat, σ, σ'. split_and!; try done. constructor.
  - assert (Hb : goes_bad σ) by (exists 0%nat, σ; split; [constructor|split; [done|right; by left]]).
    destruct (run l s); by left.
Qed.

(** What [H] does to the translator state. *)
Definition finish (op : insn.Op) (t : TState) : TState :=
  set_insn_ip (u32 (insn_ip t + 4))
    (if insn.has_flag op insn.Flags.Branch || insn.has_flag op insn.Flags.Trap
     then set_control BRANCH t else t).

Lemma H_eq op i t t1 t2 :
  (if insn.has_flag op insn.Flags.Trap || insn.has_flag op insn.Flags.MayTrap
   then PreSideeff else mret tt) t = Some (tt, t1) ->
  V op i t1 = Some (tt, t2) -> H op i t = Some (tt, finish op t2).
Proof.
  intros E1 E2. unfold H, finish.
  destruct (insn.has_flag op insn.Flags.Branch || insn.has_flag op insn.Flags.Trap);
    unfold mbind, TM_bind; rewrite E1; cbn [mbind option_bind]; rewrite E2; reflexivity.
Qed.

Lemma pre_appends op t :
  at_end t -> exists t1,
    (if insn.has_flag op insn.Flags.Trap || insn.has_flag op insn.Flags.MayTrap
     then PreSideeff else mret tt) t = Some (tt, t1) /\
    emits t t1 (pre_insts op (insn_ip t)) /\ next_local t1 = next_local t.
Proof.
  intros Ht. unfold pre_insts. destruct (_ || _).
  - unfold PreSideeff. rewrite bind_get. cbn [GetStateReg]. 
    destruct (qb_Create_emits (InstUnop _mov (VSlot true I32 offs_ip) (vconst (insn_ip t) I32)) t Ht)
      as (t1 & E & He & Hv).
    exists t1. split_and!; [exact E|done|]. unfold next_local. by rewrite Hv.
  - exists t. split_and!; [done|by apply emits_refl|done].
Qed.

Lemma H_straight op i t l :
  at_end t -> emit op i (insn_ip t) (next_local t) = Some l ->
  exists t1, H op i t = Some (tt, finish op t1) /\
    emits t t1 (pre_insts op (insn_ip t) ++ (fold_inst <$> l)).
Proof.
  intros Ht Hl. destruct (pre_appends op t Ht) as (t1 & E1 & H1 & Hn).
  destruct (V_emits op i t1 l) as (t2 & E2 & H2).
  - by eapply emits_at_end.
  - by rewrite (em_ip _ _ _ H1), Hn.
  - exists t2. split; [by eapply H_eq|by eapply emits_trans].
Qed.

Lemma next_local_ge t t' :
  glob_info (vregs_info (t_rn t)) = state_info ->
  glob_info (vregs_info (t_rn t')) = glob_info (vregs_info (t_rn t)) ->
  (length (loc_info (vregs_info (t_rn t))) <= length (loc_info (vregs_info (t_rn t'))))%nat ->
  no_wrap t' -> 32 <= next_local t.
Proof.
  unfold no_wrap, next_local, NumAll, NumGlobals, NumLocals. intros Hg Hg' Hl Hw.
  rewrite Hg', Hg in Hw. rewrite Hg. change (Z.of_nat (length state_info)) with 32 in *.
  rewrite (uN_id 16); [lia|]. unfold in_u. lia.
Qed.

Lemma trap_never_returns op i σ σ' :
  insn.has_flag op insn.Flags.Trap = true -> Handler weaks op i σ <> Ret tt σ'.
Proof.
  destruct op; intros Hf; try discriminate Hf; destruct σ; run_handler; discriminate.
Qed.

(** One instruction, whatever its opcode. *)
Definition insn_done (raw : Z) (t t' : TState) (l0 : list Inst) (ss0 : list nat) : Prop :=
  exists l ss nxt, tframe t t' /\
    view (t_rn t') (b_bb (t_qb t)) = Some (l0 ++ l, ss0 ++ ss) /\
    insn_ip t' = u32 (insn_ip t + 4) /\
    (if nxt : bool then control t' = control t /\ at_end t' /\ b_bb (t_qb t') = b_bb (t_qb t) /\ ss = []
     else control t' = BRANCH) /\
    (no_wrap t' -> insn_ok (Decoder.Decode raw) raw = true -> step_ok t t' l ss nxt).

Section insn.
Context (raw : Z) (t : TState) (l0 : list Inst) (ss0 : list nat).
Context (Ht : at_end t) (Hv : view (t_rn t) (b_bb (t_qb t)) = Some (l0, ss0)).
Context (Hg : glob_info (vregs_info (t_rn t)) = state_info) (Hip : in_u 32 (insn_ip t)).
Context (Hraw : load_le 4 code (insn_ip t) = Some raw) (Hin : inside (insn_ip t)).

Lemma raw_range : in_u 32 raw.
Proof using Hcode_wf Hraw. exact (load_le_range 4 code _ _ Hcode_wf Hraw). Qed.

Lemma at_code σ : h_gip σ = insn_ip t -> inside (h_gip σ) /\ load_le 4 code (h_gip σ) = Some raw.
Proof using Hraw Hin. intros ->. done. Qed.

Lemma straight_done l :
  emit (Decoder.Decode raw) raw (insn_ip t) (next_local t) = Some l ->
  insn.has_flag (Decoder.Decode raw) insn.Flags.Branch = false ->
  exists t', H (Decoder.Decode raw) raw t = Some (tt, t') /\ insn_done raw t t' l0 ss0.
Proof using Hcode_wf Ht Hv Hg Hip Hraw Hin.
  intros Hl Hnb. set (op := Decoder.Decode raw) in *.
  destruct (H_straight op raw t l Ht Hl) as (t1 & E & He).
  destruct (emits_view _ _ _ He) as (F & l1 & s1 & V1 & V1'). rewrite Hv in V1. injection V1 as <- <-.
  exists (finish op t1). split; [done|].
  exists (pre_insts op (insn_ip t) ++ (fold_inst <$> l)), [], (negb (insn.has_flag op insn.Flags.Trap)).
  assert (Hrn : t_rn (finish op t1) = t_rn t1) by (unfold finish; by destruct (_ || _)).
  assert (Hqb : t_qb (finish op t1) = t_qb t1) by (unfold finish; by destruct (_ || _)).
  split; [|split; [|split; [|split]]].
  - destruct F. split; rewrite ?Hrn; try done. unfold finish. by destruct (_ || _).
  - by rewrite Hrn, app_nil_r.
  - unfold finish. cbn. by rewrite (em_ip _ _ _ He).
  - unfold finish. rewrite Hnb. cbn [orb]. destruct (insn.has_flag op insn.Flags.Trap); cbn [negb]; [done|].
    split_and!; [apply He|exact (emits_at_end _ _ _ He)|apply He|done].
  - intros Hw Hok s σ Hs Hgip.
    assert (Htmp : 32 <= next_local t).
    { apply (next_local_ge t (finish op t1)); rewrite ?Hrn; try done; apply F. }
    rewrite <- Hgip in Hl |- *.
    pose proof (straight_sim clob weaks op raw (next_local t) l σ Hl Hok raw_range Htmp) as Hsim.
    destruct (at_code σ Hgip) as [Hin' Hf].
    pose proof (fun t'' ss'' => insn_sim_step t'' _ ss'' σ raw s Hin' Hf Hsim Hs) as Hm. fold op in Hm.
    clear Hsim Hl. generalize dependent (pre_insts op (h_gip σ) ++ (fold_inst <$> l)). intros L Hm.
    destruct (insn.has_flag op insn.Flags.Trap) eqn:Htr; cbn [negb].
    + specialize (Hm (finish op t1) []). destruct (run L s) as [s'| | | | | |]; try exact Hm.
      left. destruct Hm as [Hm|(σ' & _ & Hm & _)]; [done|]. exfalso. by eapply trap_never_returns.
    + destruct (run L s) as [s'| | | | | |]; try exact Hm.
      destruct (Hm t []) as [Hb|(σ' & Hr' & Hr & Hs')]; [by left|]. right. exists σ'.
      split; [done|]. split; [done|].
      rewrite (Handler_gip _ _ _ _ _ Hnb Hr), Hgip. unfold finish. cbn. by rewrite (em_ip _ _ _ He).
Qed.

(** A branch opcode: no side effect before it, [BRANCH] after it. *)
Lemma branch_done t2 l ss :
  insn.has_flag (Decoder.Decode raw) insn.Flags.Branch = true ->
  insn.has_flag (Decoder.Decode raw) insn.Flags.Trap || insn.has_flag (Decoder.Decode raw) insn.Flags.MayTrap = false ->
  V (Decoder.Decode raw) raw t = Some (tt, t2) -> tframe t t2 -> insn_ip t2 = insn_ip t ->
  view (t_rn t2) (b_bb (t_qb t)) = Some (l0 ++ l, ss0 ++ ss) ->
  (no_wrap t2 -> forall s σ, sim s σ -> h_gip σ = insn_ip t -> matches t2 ss (run l s) σ) ->
  exists t', H (Decoder.Decode raw) raw t = Some (tt, t') /\ insn_done raw t t' l0 ss0.
Proof using Type.
  intros Hb Hnt E F Hip2 V2 Hm. set (op := Decoder.Decode raw) in *.
  assert (Hfin : finish op t2 = set_insn_ip (u32 (insn_ip t2 + 4)) (set_control BRANCH t2))
    by (unfold finish; by rewrite Hb).
  exists (finish op t2). split.
  - apply (H_eq op raw t t t2); [|done]. by rewrite Hnt.
  - rewrite Hfin. exists l, ss, false. destruct F. split; [by split|]. split; [done|].
    split; [cbn; by rewrite Hip2|]. split; [done|]. intros Hw _ s σ Hs Hgip.
    destruct (Hm Hw s σ Hs Hgip) as [?|Hm']; [by left|right]. by destruct (run l s).
Qed.

Lemma jal_done :
  Decoder.Decode raw = insn._jal ->
  exists t', H (Decoder.Decode raw) raw t = Some (tt, t') /\ insn_done raw t t' l0 ss0.
Proof using Hcode_wf Ht Hv Hg Hip Hraw Hin.
  intros Hop. pose proof Hip as Hip'. destruct (link_appends raw t Ht) as (t1 & E1 & H1).
  destruct (emits_view _ _ _ H1) as (F1 & l1 & s1 & V1 & V1'). rewrite Hv in V1. injection V1 as <- <-.
  rewrite <- (em_bb _ _ _ H1) in V1'.
  set (tgt := u32 (insn_ip t + insn.J_imm raw)).
  destruct (MakeGBr_spec tgt t1 _ _ (emits_at_end _ _ _ H1) V1') as (t2 & E2 & F2 & Hcase).
  { apply uN_range. lia. }
  rewrite (em_bb _ _ _ H1) in Hcase. rewrite (em_ip2bb _ _ _ H1) in Hcase.
  assert (E : V (Decoder.Decode raw) raw t = Some (tt, t2)).
  { rewrite Hop. cbn [V]. unfold V_jal. rewrite bind_get. fold tgt. unfold mbind, TM_bind. by rewrite E1. }
  assert (F : tframe t t2) by (eapply tframe_trans; [exact F1|apply H1|exact F2]).
  assert (Hip2 : insn_ip t2 = insn_ip t).
  { rewrite <- (em_ip _ _ _ H1). revert E2. unfold MakeGBr. rewrite bind_get.
    destruct (ip2bb t1 !! tgt); unfold qb_Create, qb_AddSucc, t_modify, mbind, TM_bind; cbn;
      repeat case_match; intros [= <-]; done. }
  assert (Hsim : forall s σ, sim s σ -> h_gip σ = insn_ip t ->
    goes_bad σ \/ exists σ' s', interp_step σ = Ret tt σ' /\ sim s' σ' /\ h_gip σ' = tgt /\
      run (fold_inst <$> mov_rd raw (insn_ip t + 4)) s = QNext s').
  { intros s σ Hs Hgip. pose proof (jal_sim clob weaks raw s σ Hs) as Hj. rewrite <- Hop in Hj.
    destruct (at_code σ Hgip) as [Hin' Hf].
    destruct (jumps_bad σ _ _ Hin' Hf Hj) as [|(σ' & Hr & s' & Hrun & Hs' & Hg')]; [by left|right].
    exists σ', s'. rewrite Hgip in Hrun, Hg'.
    split; [exact Hr|]. split; [exact Hs'|]. split; [exact Hg'|exact Hrun]. }
  destruct Hcase as [[Hn V2]|(b' & Hb' & V2)]; rewrite <- app_assoc in V2.
  - rewrite <- (app_nil_r ss0) in V2.
    refine (branch_done t2 _ [] _ _ E F Hip2 V2 _); [by rewrite Hop|by rewrite Hop|].
    intros Hw s σ Hs Hgip. destruct (Hsim s σ Hs Hgip) as [?|(σ' & s' & Hr & Hs' & Hg' & Hrun)]; [by left|].
    rewrite exec_list_app, Hrun. right. exists 0%nat, σ'.
    split; [by apply rsteps_one; [apply at_code|]|]. split; [exact Hs'|exact Hg'].
  - refine (branch_done t2 _ [b'] _ _ E F Hip2 V2 _); [by rewrite Hop|by rewrite Hop|].
    intros Hw s σ Hs Hgip. destruct (Hsim s σ Hs Hgip) as [?|(σ' & s' & Hr & Hs' & Hg' & Hrun)]; [by left|].
    rewrite exec_list_app, Hrun. right. exists 0%nat, b', σ'. split; [reflexivity|].
    split; [by apply rsteps_one; [apply at_code|]|]. split; [exact Hs'|].
    left. rewrite (tf_ip2bb _ _ F), Hg'. exact Hb'.
Qed.

Lemma jalr_done :
  Decoder.Decode raw = insn._jalr ->
  exists t', H (Decoder.Decode raw) raw t = Some (tt, t') /\ insn_done raw t t' l0 ss0.
Proof using Hcode_wf Ht Hv Hg Hip Hraw Hin.
  intros Hop.
  assert (Ha : appends (V (Decoder.Decode raw) raw) t (jalr_insts raw (insn_ip t) (next_local t))).
  { rewrite Hop. cbn [V]. unfold V_jalr, jalr_insts. apply appends_vtemp; [exact Ht|]. intros t1 H1 _.
    unfold appends. rewrite bind_gprop.
    apply (appends_bind _ _ _ [_]); [apply appends_Create; by eapply emits_at_end|]. intros t2 H2.
    apply (appends_bind _ _ _ [_]); [apply appends_Create; by eapply emits_at_end|]. intros t3 H3.
    apply appends_bind.
    - rewrite <- (em_ip _ _ _ H1), <- (em_ip _ _ _ H2), <- (em_ip _ _ _ H3).
      apply link_appends. by eapply emits_at_end.
    - intros t4 H4. apply appends_Create. by eapply emits_at_end. }
  destruct Ha as (t2 & E & He).
  destruct (emits_view _ _ _ He) as (F & l1 & s1 & V1 & V1'). rewrite Hv in V1. injection V1 as <- <-.
  rewrite <- (app_nil_r ss0) in V1'.
  refine (branch_done t2 _ [] _ _ E F (em_ip _ _ _ He) V1' _); [by rewrite Hop|by rewrite Hop|].
  intros Hw s σ Hs Hgip.
  assert (Htmp : 32 <= next_local t) by (apply (next_local_ge t t2); [exact Hg|apply F|apply F|exact Hw]).
  pose proof (jalr_sim clob weaks raw (next_local t) s σ Hs Htmp) as Hj. rewrite <- Hop in Hj.
  destruct (at_code σ Hgip) as [Hin' Hf].
  destruct (jumps_bad σ _ _ Hin' Hf Hj) as [|(σ' & Hr & s' & Hrun & Hs')]; [by left|right].
  rewrite Hgip in Hrun. rewrite Hrun. exists 0%nat, σ'.
  split; [by apply rsteps_one|]. split; [exact Hs'|reflexivity].
Qed.

Lemma brcc_done cc :
  op_cc (Decoder.Decode raw) = Some cc ->
  exists t', H (Decoder.Decode raw) raw t = Some (tt, t') /\ insn_done raw t t' l0 ss0.
Proof using Hcode_wf Ht Hv Hg Hip Hraw Hin.
  intros Hcc. destruct (TranslateBrcc_spec raw cc t l0 ss0 Ht Hv)
    as (t2 & bt & bf & E2 & F & Hip2 & V2 & Rt & Rf).
  assert (E : V (Decoder.Decode raw) raw t = Some (tt, t2)).
  { rewrite <- E2. destruct (Decoder.Decode raw); try discriminate Hcc; injection Hcc as <-; reflexivity. }
  refine (branch_done t2 _ [bt; bf] _ _ E F Hip2 V2 _).
  1,2: destruct (Decoder.Decode raw); try discriminate Hcc; reflexivity.
  intros Hw s σ Hs Hgip.
  pose proof (brcc_sim clob weaks _ cc raw s σ Hcc Hs) as Hj.
  destruct (at_code σ Hgip) as [Hin' Hf].
  destruct (jumps_bad σ _ _ Hin' Hf Hj) as [|(σ' & Hr & Hs' & k & Hrun & Hk)]; [by left|right].
  rewrite Hrun. rewrite Hgip in Hk.
  destruct Hk as [[-> Hk]|[-> Hk]]; eexists 0%nat, _, σ';
    (split; [reflexivity|]); (split; [by apply rsteps_one|]); (split; [exact Hs'|]);
    rewrite Hk; assumption.
Qed.

Lemma H_done :
  exists t', H (Decoder.Decode raw) raw t = Some (tt, t') /\ insn_done raw t t' l0 ss0.
Proof using Hcode_wf Ht Hv Hg Hip Hraw Hin.
  destruct (op_cc (Decoder.Decode raw)) as [cc|] eqn:Hcc; [by eapply brcc_done|].
  destruct (decide (Decoder.Decode raw = insn._jal)); [by apply jal_done|].
  destruct (decide (Decoder.Decode raw = insn._jalr)); [by apply jalr_done|].
  assert (He : exists l, emit (Decoder.Decode raw) raw (insn_ip t) (next_local t) = Some l /\
    insn.has_flag (Decoder.Decode raw) insn.Flags.Branch = false).
  { destruct (Decoder.Decode raw); try discriminate Hcc; try done; by eexists. }
  destruct He as (l & Hl & Hb). by eapply straight_done.
Qed.
End insn.

(** ** The loop over the instructions of a range *)
Lemma no_wrap_frame t t' : tframe t t' -> no_wrap t' -> no_wrap t.
Proof.
  intros [_ Hgl Hl _]. unfold no_wrap, NumAll, NumGlobals, NumLocals. rewrite Hgl. lia.
Qed.

Definition range_ok (t t' : TState) (l : list Inst) (ss : list nat) : Prop :=
  no_wrap t' -> forall s σ, sim s σ -> h_gip σ = insn_ip t -> matches t' ss (run l s) σ.

Lemma step_then t t1 t' l l2 ss :
  inside (insn_ip t) -> step_ok t t1 l [] true -> range_ok t1 t' l2 ss -> range_ok t t' (l ++ l2) ss.
Proof.
  intros Hin H1 H2 Hw s σ Hs Hgip. rewrite exec_list_app. specialize (H1 s σ Hs Hgip). cbn [step_ok] in H1.
  destruct (run l s) as [s'| | | | | |]; try apply H1.
  destruct H1 as [?|(σ' & Hr & Hs' & Hg')]; [by left|].
  eapply matches_step; [by rewrite Hgip|exact Hr|]. by apply H2.
Qed.

(** The end of a range that does not branch: go to the next address. *)
Lemma step_then_gbr t t1 t' l i ss :
  inside (insn_ip t) -> step_ok t t1 l [] true ->
  (i = InstBr /\ (exists b, ss = [b] /\ reaches t' b (insn_ip t1)) \/
   i = InstGBr (VConst I32 (insn_ip t1))) ->
  range_ok t t' (l ++ [i]) ss.
Proof.
  intros Hin H1 Hi Hw s σ Hs Hgip. rewrite exec_list_app. specialize (H1 s σ Hs Hgip). cbn [step_ok] in H1.
  destruct (run l s) as [s'| | | | | |]; try apply H1.
  destruct H1 as [?|(σ' & Hr & Hs' & Hg')]; [by left|]. right.
  destruct Hi as [[-> (b & -> & Hb)]| ->]; cbn [exec_list exec_inst read_opnd or_stuck].
  - exists 0%nat, b, σ'. split; [reflexivity|]. split; [apply rsteps_one; [by rewrite Hgip|exact Hr]|].
    split; [exact Hs'|]. by rewrite Hg'.
  - exists 0%nat, σ'. split; [apply rsteps_one; [by rewrite Hgip|exact Hr]|]. by split.
Qed.

Lemma translate_loop_eq fuel num bnd t :
  translate_loop code (S fuel) num bnd t =
  match load_le 4 code (insn_ip t) with
  | None => None
  | Some raw =>
      match H (Decoder.Decode raw) raw t with
      | None => None
      | Some (_, t1) =>
          match control t1 with
          | NEXT =>
              if (u32 (num + 1) =? TB_MAX_INSNS) || (bnd <=? insn_ip t1)
              then MakeGBr (insn_ip t1) (set_control TB_OVF t1)
              else translate_loop code fuel (u32 (num + 1)) bnd t1
          | _ => Some (tt, t1)
          end
      end
  end.
Proof.
  cbn [translate_loop]. unfold TranslateInsn, mbind, TM_bind, t_get. cbn [mbind option_bind].
  destruct (load_le 4 code (insn_ip t)) as [raw|]; [|reflexivity].
  destruct (H (Decoder.Decode raw) raw t) as [[[] t1]|]; [|reflexivity]. cbn [mbind option_bind].
  destruct (control t1); try reflexivity. by destruct (_ || _).
Qed.

Lemma overflow_done t t1 l0 ss0 l :
  inside (insn_ip t) ->
  at_end t1 -> b_bb (t_qb t1) = b_bb (t_qb t) -> tframe t t1 -> in_u 32 (insn_ip t1) ->
  view (t_rn t1) (b_bb (t_qb t)) = Some (l0 ++ l, ss0) ->
  (no_wrap t1 -> step_ok t t1 l [] true) ->
  exists t', MakeGBr (insn_ip t1) (set_control TB_OVF t1) = Some (tt, t') /\
  exists l ss, tframe t t' /\ view (t_rn t') (b_bb (t_qb t)) = Some (l0 ++ l, ss0 ++ ss) /\
    range_ok t t' l ss.
Proof.
  intros Hin Ht1 Hbb F Hip V1 Hst. rewrite <- Hbb in V1.
  destruct (MakeGBr_spec (insn_ip t1) (set_control TB_OVF t1) _ _ Ht1 V1 Hip) as (t' & E & F' & Hcase).
  change (b_bb (t_qb (set_control TB_OVF t1))) with (b_bb (t_qb t1)) in Hcase. rewrite Hbb in Hcase.
  assert (F1 : tframe t1 t') by (destruct F'; by split).
  assert (F2 : tframe t t') by (by eapply tframe_trans).
  exists t'. split; [exact E|].
  destruct Hcase as [[Hn V2]|(b' & Hb' & V2)]; rewrite <- app_assoc in V2.
  - exists (l ++ [InstGBr (VConst I32 (insn_ip t1))]), []. rewrite app_nil_r. split; [done|]. split; [done|].
    intros Hw. apply (step_then_gbr t t1); [done|apply Hst; by eapply no_wrap_frame|by right|done].
  - exists (l ++ [InstBr]), [b']. split; [done|]. split; [done|].
    intros Hw. apply (step_then_gbr t t1); [done|apply Hst; by eapply no_wrap_frame| |done].
    left. split; [done|]. exists b'. split; [done|]. left. rewrite (tf_ip2bb _ _ F1). exact Hb'.
Qed.

(** The instructions a loop with [fuel] turns ahead of it looks at. *)
Definition ahead (fuel : nat) (bnd ip : Z) : Prop :=
  forall k, 0 <= k < Z.of_nat fuel -> (forall j, 0 < j <= k -> u32 (ip + 4 * j) < bnd) -> inside (u32 (ip + 4 * k)).
Lemma ahead_now fuel bnd ip : in_u 32 ip -> ahead (S fuel) bnd ip -> inside ip.
Proof.
  intros Hip Ha. specialize (Ha 0). rewrite Z.mul_0_r, Z.add_0_r, uN_id in Ha by done. apply Ha; lia.
Qed.
Lemma ahead_next fuel bnd ip : u32 (ip + 4) < bnd -> ahead (S fuel) bnd ip -> ahead fuel bnd (u32 (ip + 4)).
Proof.
  intros Hlt Ha k Hk Hj. rewrite uN_add_l. replace (ip + 4 + 4 * k) with (ip + 4 * (k + 1)) by lia.
  apply Ha; [lia|]. intros j Hj'. destruct (decide (j = 1)) as [->|Hne]; [done|].
  specialize (Hj (j - 1) ltac:(lia)). rewrite uN_add_l in Hj. by replace (ip + 4 + 4 * (j - 1)) with (ip + 4 * j) in Hj by lia.
Qed.

Lemma loop_done fuel num bnd t t' l0 ss0 :
  ahead fuel bnd (insn_ip t) ->
  at_end t -> view (t_rn t) (b_bb (t_qb t)) = Some (l0, ss0) ->
  glob_info (vregs_info (t_rn t)) = state_info -> in_u 32 (insn_ip t) -> control t = NEXT ->
  translate_loop code fuel num bnd t = Some (tt, t') ->
  exists l ss, tframe t t' /\ view (t_rn t') (b_bb (t_qb t)) = Some (l0 ++ l, ss0 ++ ss) /\
    range_ok t t' l ss.
Proof using Hcode_wf Hcode_ok.
  revert num t l0 ss0. induction fuel as [|fuel IH]; intros num t l0 ss0 Ha Ht Hv Hg Hip Hc; [done|].
  rewrite translate_loop_eq. destruct (load_le 4 code (insn_ip t)) as [raw|] eqn:Hraw; [|done].
  pose proof (ahead_now _ _ _ Hip Ha) as Hin.
  destruct (H_done raw t l0 ss0 Ht Hv Hg Hip Hraw Hin) as (t1 & E1 & l1 & s1 & nxt & F1 & V1 & Hip1 & Hn & Hst).
  assert (Hst' : no_wrap t1 -> step_ok t t1 l1 s1 nxt) by (intros; apply Hst; [done|by eapply Hcode_ok]).
  clear Hst. rename Hst' into Hst. rewrite E1. assert (Hip1' : in_u 32 (insn_ip t1)) by (rewrite Hip1; apply uN_range; lia).
  destruct nxt.
  - destruct Hn as (Hc1 & Ht1 & Hbb & ->). rewrite app_nil_r in V1. rewrite Hc1, Hc.
    destruct ((_ =? _) || _) eqn:Hov.
    + destruct (overflow_done t t1 l0 ss0 l1 Hin Ht1 Hbb F1 Hip1' V1 Hst) as (t2 & E2 & Hd).
      rewrite E2. intros [= <-]. exact Hd.
    + intros E2. rewrite <- Hbb in V1. apply orb_false_iff in Hov as [_ Hov%Z.leb_gt].
      assert (Ha1 : ahead fuel bnd (insn_ip t1)) by (rewrite Hip1 in Hov |- *; by apply ahead_next).
      destruct (IH (u32 (num + 1)) t1 _ _ Ha1 Ht1 V1) as (l2 & s2 & F2 & V2 & Hr2); try done.
      { by rewrite (tf_glob _ _ F1). }
      { by rewrite Hc1. }
      exists (l1 ++ l2), s2. rewrite Hbb in V2. rewrite app_assoc.
      split; [by eapply tframe_trans|]. split; [done|].
      intros Hw. apply (step_then t t1); [done|apply Hst; by eapply no_wrap_frame|done|done].
  - rewrite Hn. intros [= <-]. exists l1, s1. split; [done|]. split; [done|].
    intros Hw s σ Hs Hgip. by apply (Hst Hw).
Qed.

(** ** Ranges and regions *)
Lemma TranslateIPRange_eq ip bnd t :
  TranslateIPRange code ip bnd t =
  if bnd =? 0 then None else
  match ip2bb t !! ip with
  | None => None
  | Some b =>
      translate_loop code (Z.to_nat TB_MAX_INSNS) 0 bnd
        (set_control NEXT (set_qb (Builder_at_end (t_rn t) b) (set_bb_ip ip (set_insn_ip ip t))))
  end.
Proof.
  unfold TranslateIPRange, mbind, TM_bind, t_modify, t_assert, t_get, qb_set. cbn [mbind option_bind].
  destruct (bnd =? 0); [reflexivity|]. cbn [negb mret TM_ret mbind option_bind].
  change (ip2bb (set_bb_ip ip (set_insn_ip ip t))) with (ip2bb t).
  by destruct (ip2bb t !! ip).
Qed.

(** Block [b] of [t] implements guest address [ip]. *)
Definition block_ok (t : TState) (b : nat) (ip : Z) : Prop :=
  exists l ss, view (t_rn t) b = Some (l, ss) /\
    (no_wrap t -> forall s σ, sim s σ -> h_gip σ = ip -> matches t ss (run l s) σ).

Lemma range_done ip bnd t t' b :
  (forall a, in_range (ip, bnd) a -> inside a) ->
  ip2bb t !! ip = Some b -> view (t_rn t) b = Some ([], []) ->
  glob_info (vregs_info (t_rn t)) = state_info -> in_u 32 ip ->
  TranslateIPRange code ip bnd t = Some (tt, t') ->
  block_ok t' b ip /\ ip2bb t' = ip2bb t /\
  glob_info (vregs_info (t_rn t')) = state_info /\
  (length (loc_info (vregs_info (t_rn t))) <= length (loc_info (vregs_info (t_rn t'))))%nat /\
  forall k, k <> b -> is_Some (view (t_rn t) k) -> view (t_rn t') k = view (t_rn t) k.
Proof using Hcode_wf Hcode_ok.
  intros Hr0 Hb Hv Hg Hip. rewrite TranslateIPRange_eq. destruct (bnd =? 0); [done|]. rewrite Hb.
  set (t1 := set_control NEXT _). intros E.
  assert (Ht1 : at_end t1) by (apply (qb_set_at_end b (set_bb_ip ip (set_insn_ip ip t))); by eexists).
  assert (Ha : ahead (Z.to_nat TB_MAX_INSNS) bnd (insn_ip t1)) by (intros k Hk Hj; apply Hr0; by exists k).
  destruct (loop_done _ 0 bnd t1 t' [] [] Ha Ht1 Hv Hg Hip eq_refl E) as (l & ss & F & V & Hr).
  split; [exists l, ss; split; [exact V|exact Hr]|]. split; [apply F|].
  split; [rewrite (tf_glob _ _ F); exact Hg|]. split; [apply F|]. intros k Hk Hs. by apply (tf_view _ _ F).
Qed.

(** ** All ranges of a job *)
Lemma matches_mono t t' ss r σ :
  (forall b ip, reaches t b ip -> reaches t' b ip) -> matches t ss r σ -> matches t' ss r σ.
Proof.
  intros Hr [H|H]; [by left|right]. destruct r; try exact H.
  destruct H as (n & b' & σ' & ? & ? & ? & ?). exists n, b', σ'. split_and!; auto.
Qed.

(** The map of [create_blocks]: distinct empty blocks. *)
Record fresh_blocks (t : TState) : Prop := {
  fb_view : forall ip b, ip2bb t !! ip = Some b -> view (t_rn t) b = Some ([], []);
  fb_inj : forall ip ip' b, ip2bb t !! ip = Some b -> ip2bb t !! ip' = Some b -> ip = ip';
  fb_glob : glob_info (vregs_info (t_rn t)) = state_info }.

Lemma create_blocks_step first t :
  fresh_blocks t ->
  let rn := (CreateBlock (t_rn t)).1 in let b := length (blist (t_rn t)) in
  fresh_blocks (mkT rn (t_qb t)
    (match ip2bb t !! first with Some _ => ip2bb t | None => <[first := b]> (ip2bb t) end)
    (control t) (insn_ip t) (bb_ip t)).
Proof.
  intros [Hv Hi Hg] rn b.
  assert (Hlt : forall ip k, ip2bb t !! ip = Some k -> (k < b)%nat).
  { intros ip k Hk. apply view_lt. rewrite (Hv _ _ Hk). by eexists. }
  assert (Hold : forall ip k, ip2bb t !! ip = Some k -> view rn k = Some ([], [])).
  { intros ip k Hk. subst rn. rewrite view_CreateBlock, bool_decide_eq_false_2; [by eapply Hv|].
    pose proof (Hlt _ _ Hk). subst b. lia. }
  split; cbn [ip2bb t_rn]; [| |exact Hg]; destruct (ip2bb t !! first) eqn:Hf; try assumption.
  - intros ip k. destruct (decide (ip = first)) as [->|Hne].
    + rewrite lookup_insert_eq. intros [= <-]. subst rn. by rewrite view_CreateBlock, bool_decide_eq_true_2.
    + rewrite lookup_insert_ne by done. apply Hold.
  - intros ip ip' k. destruct (decide (ip = first)) as [->|Hne], (decide (ip' = first)) as [->|Hne']; try done;
      rewrite ?lookup_insert_eq, ?lookup_insert_ne by done.
    + intros [= <-] Hk. pose proof (Hlt _ _ Hk). lia.
    + intros Hk [= <-]. pose proof (Hlt _ _ Hk). lia.
    + apply Hi.
Qed.

Lemma create_blocks_done rs t t' :
  fresh_blocks t -> create_blocks rs t = Some (tt, t') ->
  fresh_blocks t' /\ (forall ip b, ip2bb t !! ip = Some b -> ip2bb t' !! ip = Some b) /\
  (forall ip, ip ∈ rs.*1 -> is_Some (ip2bb t' !! ip)) /\
  (forall ip, is_Some (ip2bb t' !! ip) -> is_Some (ip2bb t !! ip) \/ ip ∈ rs.*1).
Proof.
  revert t. induction rs as [|[first second] rs IH]; intros t Hf.
  - intros [= <-]. split_and!; try done; [by intros ip ?%not_elem_of_nil|by left].
  - intros E. pose proof (create_blocks_step first t Hf) as Hf1. cbv zeta in Hf1.
    match type of Hf1 with fresh_blocks ?x => set (t1 := x) in * end.
    assert (E' : create_blocks rs t1 = Some (tt, t')) by exact E.
    destruct (IH t1 Hf1 E') as (Hf' & Hk & Hin & Hall).
    assert (H1 : is_Some (ip2bb t1 !! first)).
    { subst t1. cbn. destruct (ip2bb t !! first) eqn:Hb; [by rewrite Hb|rewrite lookup_insert_eq; by eexists]. }
    assert (H2 : forall ip b, ip2bb t !! ip = Some b -> ip2bb t1 !! ip = Some b).
    { intros ip b Hb. subst t1. cbn. destruct (ip2bb t !! first) eqn:Hb'; [done|].
      rewrite lookup_insert_ne; [done|]. intros ->. congruence. }
    split_and!; try done; [by auto| |].
    + intros ip [->|Hip]%elem_of_cons; [|by apply Hin]. destruct H1 as [b Hb]. exists b. by apply Hk.
    + intros ip [?|?]%Hall; [|right; by right].
      destruct (decide (ip = first)) as [->|Hne]; [right; left|]. left.
      revert H. subst t1. cbn. destruct (ip2bb t !! first); [done|]. by rewrite lookup_insert_ne.
Qed.

Lemma ranges_done rs t t' :
  (forall ip b, ip2bb t !! ip = Some b -> ip ∈ rs.*1 -> view (t_rn t) b = Some ([], [])) ->
  (forall ip b, ip2bb t !! ip = Some b -> ip ∉ rs.*1 -> block_ok t b ip) ->
  (forall ip ip' b, ip2bb t !! ip = Some b -> ip2bb t !! ip' = Some b -> ip = ip') ->
  glob_info (vregs_info (t_rn t)) = state_info ->
  NoDup rs.*1 -> Forall (fun r => in_u 32 r.1) rs -> (forall a, in_ranges rs a -> inside a) ->
  translate_ranges code rs t = Some (tt, t') ->
  ip2bb t' = ip2bb t /\ glob_info (vregs_info (t_rn t')) = state_info /\
  forall ip b, ip2bb t' !! ip = Some b -> block_ok t' b ip.
Proof using Hcode_wf Hcode_ok.
  revert t. induction rs as [|[first second] rs IH]; intros t Hnew Hold Hinj Hg Hnd Hall Hin.
  - intros [= <-]. split_and!; try done. intros ip b Hb. apply Hold; [done|]. apply not_elem_of_nil.
  - apply NoDup_cons in Hnd as [Hn Hnd]. apply Forall_cons in Hall as [Hip Hall]. cbn in Hip.
    change (translate_ranges code ((first, second) :: rs) t) with
      ('(_, t1) ← TranslateIPRange code first second t; translate_ranges code rs t1).
    intros ((? & t1) & E1 & E2)%bind_Some. destruct u.
    assert (Hb : exists b, ip2bb t !! first = Some b).
    { revert E1. rewrite TranslateIPRange_eq. destruct (second =? 0); [done|].
      destruct (ip2bb t !! first); [by eexists|done]. }
    destruct Hb as (b & Hb).
    assert (Hvb : view (t_rn t) b = Some ([], [])) by (apply (Hnew first); [done|left]).
    assert (Hin1 : forall a, in_range (first, second) a -> inside a) by (intros a ?; apply Hin; exists (first, second); split; [left|done]).
    assert (Hin2 : forall a, in_ranges rs a -> inside a) by (intros a (r & ? & ?); apply Hin; exists r; split; [by right|done]).
    destruct (range_done first second t t1 b Hin1 Hb Hvb Hg Hip E1) as (Hok & Hm & Hg1 & Hl & Hk).
    assert (Hreach : forall k ip, reaches t k ip -> reaches t1 k ip).
    { intros k ip [?|Hgb]; [left; by rewrite Hm|right]. rewrite Hk; [done| |by rewrite Hgb].
      intros ->. rewrite Hvb in Hgb. done. }
    assert (Hw : no_wrap t1 -> no_wrap t).
    { unfold no_wrap, NumAll, NumGlobals, NumLocals. rewrite Hg, Hg1. lia. }
    destruct (IH t1) as (Hm' & Hg' & Hall'); try done.
    + intros ip k Hik Hin'. rewrite Hm in Hik. assert (ip <> first) by (intros ->; done).
      assert (k <> b) by (intros ->; by pose proof (Hinj _ _ _ Hik Hb)).
      rewrite Hk; [apply (Hnew ip); [done|by right]|done|]. rewrite (Hnew ip k); [by eexists|done|by right].
    + intros ip k Hik Hin'. rewrite Hm in Hik.
      destruct (decide (ip = first)) as [->|Hne]; [rewrite Hb in Hik; by injection Hik as <-|].
      assert (k <> b) by (intros ->; by pose proof (Hinj _ _ _ Hik Hb)).
      destruct (Hold ip k Hik) as (l & ss & V & Hmt); [by intros [?|?]%elem_of_cons|].
      exists l, ss. rewrite Hk by (done || by rewrite V). split; [done|].
      intros Hw1 s σ Hs Hgip. eapply matches_mono; [exact Hreach|]. apply Hmt; auto.
    + intros ip ip' k. rewrite Hm. apply Hinj.
    + split_and!; [congruence|exact Hg'|exact Hall'].
Qed.

Lemma Translate_blocks rs t :
  NoDup rs.*1 -> Forall (fun r => in_u 32 r.1) rs -> (forall a, in_ranges rs a -> inside a) -> Translate code rs = Some t ->
  (forall ip, ip ∈ rs.*1 <-> is_Some (ip2bb t !! ip)) /\
  forall ip b, ip2bb t !! ip = Some b -> block_ok t b ip.
Proof using Hcode_wf Hcode_ok.
  intros Hnd Hall Hins. unfold Translate.
  change ((create_blocks rs;; translate_ranges code rs) T_init) with
    ('(_, t1) ← create_blocks rs T_init; translate_ranges code rs t1).
  intros (((), t') & E & ->)%fmap_Some. apply bind_Some in E as (((), t1) & E1 & E2). cbn [snd].
  assert (Hemp : forall ip, ip2bb T_init !! ip = None) by (intros; apply lookup_empty).
  destruct (create_blocks_done rs T_init t1) as ([Hv Hi Hg] & _ & Hin & Hin'); [|done|].
  { split; try done; intros *; by rewrite !Hemp. }
  destruct (ranges_done rs t1 t') as (Hm & _ & Hok); try done.
  - intros ip b Hb _. by apply (Hv ip).
  - intros ip b Hb Hn. destruct (Hin' ip) as [[? Hl]|?]; [by eexists| |done].
    by rewrite Hemp in Hl.
  - split; [|exact Hok]. intros ip. rewrite Hm. split; [apply Hin|].
    intros [[? Hl]|?]%Hin'; [by rewrite Hemp in Hl|done].
Qed.

(** ** Running a region *)
Definition region_result (r : qres) (σ : hstate) : Prop :=
  match r with
  | QExit ip s' => exists n σ', rsteps n σ σ' /\ sim s' σ' /\ h_gip σ' = ip
  | QRaised s' => exists n σ1 σ2, rsteps n σ σ1 /\ interp_step σ1 = Raised σ2 /\ same_arch s' σ2
  | QFaulted s' => exists n σ1 σ2, rsteps n σ σ1 /\ interp_step σ1 = Faulted σ2 /\ same_arch s' σ2
  | _ => False
  end.

Lemma region_result_steps r n σ σ' : rsteps n σ σ' -> region_result r σ' -> region_result r σ.
Proof.
  intros Hn. destruct r; try done.
  - intros (m & σ1 & ? & ?). exists (n + m)%nat, σ1. split; [by eapply rsteps_trans|done].
  - intros (m & σ1 & σ2 & ? & ?). exists (n + m)%nat, σ1, σ2. split; [by eapply rsteps_trans|done].
  - intros (m & σ1 & σ2 & ? & ?). exists (n + m)%nat, σ1, σ2. split; [by eapply rsteps_trans|done].
Qed.

Section run.
Context (t : TState).
Context (Hblocks : forall ip b, ip2bb t !! ip = Some b -> block_ok t b ip).
Context (Hwrap : no_wrap t).

Lemma exec_region_view fuel b s l ss :
  view (t_rn t) b = Some (l, ss) ->
  exec_region state_info clob weaks (S fuel) (t_rn t) b s =
  match run l s with
  | QJump k s' => match ss !! k with
                  | Some b' => exec_region state_info clob weaks fuel (t_rn t) b' s'
                  | None => Some QStuck
                  end
  | QNext _ => Some QStuck
  | r => Some r
  end.
Proof.
  intros (x & Hx & <- & <-)%view_Some. cbn [exec_region]. rewrite Hx. unfold exec_block. reflexivity.
Qed.

Lemma region_sound fuel b ip s σ r :
  reaches t b ip -> sim s σ -> h_gip σ = ip ->
  exec_region state_info clob weaks fuel (t_rn t) b s = Some r ->
  goes_bad σ \/ region_result r σ.
Proof using Hblocks Hwrap.
  revert b ip s σ. induction fuel as [|fuel IH]; intros b ip s σ Hre Hs Hgip; [done|].
  destruct Hre as [Hb|Hv].
  - destruct (Hblocks _ _ Hb) as (l & ss & V & Hm). rewrite (exec_region_view _ _ _ _ _ V).
    specialize (Hm Hwrap s σ Hs Hgip). destruct Hm as [?|Hm]; [by left|].
    destruct (run l s) as [|k s'|tpc s'|s'|s'| |]; try done.
    + destruct Hm as (n & b' & σ' & Hk & Hn & Hs' & Hre). rewrite Hk. intros E.
      destruct (IH b' _ s' σ' Hre Hs' eq_refl E) as [?|?];
        [left; by eapply goes_bad_steps|right; by eapply region_result_steps].
    + intros [= <-]. right. destruct Hm as (n & σ' & ? & ?). by exists (S n), σ'.
    + intros [= <-]. by right.
    + intros [= <-]. by right.
  - rewrite (exec_region_view _ _ _ _ _ Hv). cbn [exec_list exec_inst read_opnd or_stuck].
    intros [= <-]. right. exists 0%nat, σ. split; [constructor|done].
Qed.

(** From the block of a guest address, control leaves behind at least one
    instruction. *)
Definition region_moves (r : qres) (σ : hstate) : Prop :=
  match r with
  | QExit ip s' => exists n σ', rsteps (S n) σ σ' /\ sim s' σ' /\ h_gip σ' = ip
  | r => region_result r σ
  end.
Lemma region_sound_entry fuel b ip s σ r :
  ip2bb t !! ip = Some b -> sim s σ -> h_gip σ = ip ->
  exec_region state_info clob weaks fuel (t_rn t) b s = Some r -> goes_bad σ \/ region_moves r σ.
Proof using Hblocks Hwrap.
  intros Hb Hs Hgip E. destruct (region_sound fuel b ip s σ r (or_introl Hb) Hs Hgip E) as [?|Hres]; [by left|].
  destruct r as [|k s1|tpc s1|s1|s1| |]; try by right. destruct fuel as [|fuel]; [done|].
  destruct (Hblocks _ _ Hb) as (l & ss & V & Hm). rewrite (exec_region_view _ _ _ _ _ V) in E.
  specialize (Hm Hwrap s σ Hs Hgip). destruct Hm as [?|Hm]; [by left|].
  destruct (run l s) as [|k s'|tpc' s'|s'|s'| |]; try done.
  - destruct Hm as (n & b' & σ' & Hk & Hn & Hs' & Hre). rewrite Hk in E.
    destruct (region_sound fuel b' _ s' σ' _ Hre Hs' eq_refl E) as [?|(m & σ2 & Hm & H)]; [left; by eapply goes_bad_steps|].
    right. exists (n + m)%nat, σ2. split; [|done]. exact (rsteps_trans (S n) m _ _ _ Hn Hm).
  - injection E as <- <-. right. destruct Hm as (n & σ' & ? & ?). by exists n, σ'.
Qed.

Lemma region_progress n : forall b ip s σ σ1,
  reaches t b ip -> sim s σ -> h_gip σ = ip -> ~ goes_bad σ ->
  isteps weaks n σ σ1 -> (forall σ2, interp_step σ1 <> Ret tt σ2) ->
  exists r, exec_region state_info clob weaks (S (S n)) (t_rn t) b s = Some r.
Proof using Hblocks Hwrap.
  induction (lt_wf n) as [n _ IH]. intros b ip s σ σ1 Hre Hs Hgip Hnb Hn Hstop.
  destruct Hre as [Hb|Hv]; [|rewrite (exec_region_view _ _ _ _ _ Hv); by eexists].
  destruct (Hblocks _ _ Hb) as (l & ss & V & Hm). rewrite (exec_region_view _ _ _ _ _ V).
  specialize (Hm Hwrap s σ Hs Hgip). destruct Hm as [?|Hm]; [done|].
  destruct (run l s) as [|k s'|tpc s'|s'|s'| |]; try (by eexists).
  destruct Hm as (m & b' & σ' & Hk & Hrm & Hs' & Hre). rewrite Hk. pose proof (rsteps_isteps _ _ _ Hrm) as Hm.
  assert (Hle : (S m <= n)%nat).
  { destruct (le_lt_dec (S m) n) as [|Hlt]; [done|]. exfalso.
    pose proof (isteps_det _ _ _ _ _ _ Hn Hm ltac:(lia)) as Hd.
    destruct (S m - n)%nat eqn:E; [lia|]. inversion Hd; subst. by eapply Hstop. }
  pose proof (isteps_det _ _ _ _ _ _ Hm Hn Hle) as Hd.
  destruct (IH (n - S m)%nat ltac:(lia) b' _ s' σ' σ1 Hre Hs' eq_refl) as [r Hr]; try done.
  { intros Hbad. apply Hnb. by eapply goes_bad_steps. }
  exists r. replace (S n) with (m + S (S (n - S m)))%nat by lia. by apply exec_region_more.
Qed.
End run.
End region.
