(* ===== verification/TranslatorMain.v ===== *)
(** * The translator: main theorems

    Soundness of whole regions, their progress, totality of the translation,
    and the miscompiled load. *)

From stdpp Require Import base tactics numbers list strings gmap.
From S2P Require Import Prelude Bitfield RV32Insn RV32Decode GuestState Interp InterpProofs RV32Isa InterpRefine.
From S2P Require Import VOperand Qir QirSem QirBuilder RV32Translator TranslatorEmit TranslatorSim TranslatorCorrect TranslatorRegion.

Import qir.

(** Ranges of code without a load into [x0] at offset zero. *)
Definition code_ok (code : mem) (rs : list (Z * Z)) : Prop :=
  forall ip raw, in_ranges rs ip -> load_le 4 code ip = Some raw -> insn_ok (Decoder.Decode raw) raw = true.

(** A sufficient test: no such word anywhere; only mapped addresses matter. *)
Definition code_okb (code : mem) : bool :=
  forallb (fun k => match load_le 4 code k with
                    | Some raw => insn_ok (Decoder.Decode raw) raw
                    | None => true
                    end) (map_to_list code).*1.

Lemma code_okb_ok code rs : code_okb code = true -> code_ok code rs.
Proof.
  unfold code_okb. rewrite forallb_forall. intros H ip raw _ Hr.
  assert (Hin : ip ∈ (map_to_list code).*1).
  { cbn [load_le] in Hr. apply bind_Some in Hr as (b & Hb & _).
    apply list_elem_of_fmap. exists (ip, b). split; [done|]. by apply elem_of_map_to_list. }
  specialize (H ip (proj1 (list_elem_of_In _ _) Hin)). by rewrite Hr in H.
Qed.

(** The ranges of a job: distinct 32-bit starting addresses. *)
Definition ranges_wf (rs : list (Z * Z)) : Prop := NoDup rs.*1 /\ Forall (fun r => in_u 32 r.1) rs.

(** C4 Translated regions are sound.  A region is translated from the guest
    memory [code] and entered later, in any state that agrees with a state [σ]
    of the interpreter, at the block of a translated address.  However it is
    left, with a guest address, a trap or a fault, the interpreter, which
    fetches from its own memory, comes there within the translated
    instructions, with the same registers and memory; it never gets stuck.
    The exceptions are runs on which the interpreter, within the region, comes
    to an instruction modified since the translation, traps on a misaligned
    jump target or leaves the contract of an atomic operation ([goes_bad]).
    The ranges must hold no load into [x0] at offset zero ([code_ok]) and the
    number of virtual registers must fit [RegN] ([no_wrap]). *)
Theorem Translate_correct clob weaks code rs t ip b s σ fuel r :
  mem_wf code -> code_ok code rs -> ranges_wf rs -> Translate code rs = Some t -> no_wrap t ->
  ip2bb t !! ip = Some b -> sim s σ -> h_gip σ = ip ->
  exec_region state_info clob weaks fuel (t_rn t) b s = Some r ->
  goes_bad weaks code (in_ranges rs) σ \/ region_result weaks (in_ranges rs) r σ.
Proof.
  intros Hw Hok [Hnd Hall] Ht Hnw Hb Hs Hg Hex.
  destruct (Translate_blocks clob weaks code _ Hw Hok rs t Hnd Hall ltac:(done) Ht) as [_ Hblk].
  eapply (region_sound clob weaks code _ t Hblk Hnw fuel b ip); try done. by left.
Qed.

(** Translated regions make progress: when the interpreter comes to a trap
    or fault after [n] instructions, the region is left after at most [n + 2]
    blocks. *)
Theorem Translate_progress clob weaks code rs t ip b s σ σ1 n :
  mem_wf code -> code_ok code rs -> ranges_wf rs -> Translate code rs = Some t -> no_wrap t ->
  ip2bb t !! ip = Some b -> sim s σ -> h_gip σ = ip -> ~ goes_bad weaks code (in_ranges rs) σ ->
  isteps weaks n σ σ1 -> (forall σ2, dispatch weaks σ1 <> Ret tt σ2) ->
  exists r, exec_region state_info clob weaks (S (S n)) (t_rn t) b s = Some r.
Proof.
  intros Hw Hok [Hnd Hall] Ht Hnw Hb Hs Hg Hnb Hn Hstop.
  destruct (Translate_blocks clob weaks code _ Hw Hok rs t Hnd Hall ltac:(done) Ht) as [_ Hblk].
  eapply (region_progress clob weaks code _ t Hblk Hnw n b ip); try done. by left.
Qed.

(** ** Totality *)
Definition still_built (t t' : TState) : Prop :=
  tframe t t' /\ is_Some (view (t_rn t') (b_bb (t_qb t))).

Lemma overflow_total t t1 l ss :
  at_end t1 -> b_bb (t_qb t1) = b_bb (t_qb t) -> tframe t t1 -> in_u 32 (insn_ip t1) ->
  view (t_rn t1) (b_bb (t_qb t)) = Some (l, ss) ->
  exists t', MakeGBr (insn_ip t1) (set_control TB_OVF t1) = Some (tt, t') /\ still_built t t'.
Proof.
  intros Ht1 Hbb F Hip V. rewrite <- Hbb in V.
  destruct (MakeGBr_spec (insn_ip t1) (set_control TB_OVF t1) l ss Ht1 V Hip) as (t' & E & F' & Hc).
  exists t'. split; [exact E|]. split.
  - eapply tframe_trans; [exact F|exact Hbb|]. destruct F'. by split.
  - change (b_bb (t_qb (set_control TB_OVF t1))) with (b_bb (t_qb t1)) in Hc. rewrite <- Hbb.
    destruct Hc as [[_ ->]|(b' & _ & ->)]; by eexists.
Qed.

Lemma loop_total code fuel num bnd t l0 ss0 :
  mem_wf code -> 0 <= num -> num + Z.of_nat fuel = TB_MAX_INSNS -> (0 < fuel)%nat ->
  at_end t -> view (t_rn t) (b_bb (t_qb t)) = Some (l0, ss0) ->
  glob_info (vregs_info (t_rn t)) = state_info -> in_u 32 (insn_ip t) -> control t = NEXT ->
  (forall k, 0 <= k < Z.of_nat fuel -> is_Some (load_le 4 code (u32 (insn_ip t + 4 * k)))) ->
  exists t', translate_loop code fuel num bnd t = Some (tt, t') /\ still_built t t'.
Proof.
  intros Hw. revert num t l0 ss0.
  induction fuel as [|fuel IH]; intros num t l0 ss0 Hn Hf Hpos Ht Hv Hg Hip Hc Hm; [lia|].
  rewrite translate_loop_eq.
  destruct (Hm 0 ltac:(lia)) as [raw Hraw]. rewrite Z.mul_0_r, Z.add_0_r, (uN_id 32 _ Hip) in Hraw.
  rewrite Hraw.
  destruct (H_done (fun _ => None) [] code (fun _ => True) Hw raw t l0 ss0 Ht Hv Hg Hip Hraw I)
    as (t1 & E1 & l1 & s1 & nxt & F1 & V1 & Hip1 & Hx & _).
  rewrite E1. assert (Hip1' : in_u 32 (insn_ip t1)) by (rewrite Hip1; apply uN_range; lia).
  unfold TB_MAX_INSNS in *.
  assert (Hnum : u32 (num + 1) = num + 1) by (apply uN_id; unfold in_u; lia).
  destruct nxt; [|rewrite Hx; exists t1; split; [done|]; split; [done|]; rewrite V1; by eexists].
  destruct Hx as (Hc1 & Ht1 & Hbb & ->). rewrite Hc1, Hc, Hnum.
  destruct ((num + 1 =? 64) || (bnd <=? insn_ip t1)) eqn:Hov; [by eapply overflow_total|].
  apply orb_false_iff in Hov as [He%Z.eqb_neq _].
  destruct (IH (num + 1) t1 (l0 ++ l1) (ss0 ++ [])) as (t' & E & F & Hvb); try done; try lia.
  - by rewrite Hbb.
  - by rewrite (tf_glob _ _ F1).
  - by rewrite Hc1.
  - intros k Hk. rewrite Hip1, uN_add_l.
    replace (insn_ip t + 4 + 4 * k) with (insn_ip t + 4 * (k + 1)) by lia. apply Hm. lia.
  - exists t'. split; [exact E|]. split; [by eapply tframe_trans|by rewrite <- Hbb].
Qed.

(** The code of a range that translation may look at. *)
Definition range_mapped (code : mem) (r : Z * Z) : Prop :=
  in_u 32 r.1 /\ r.2 <> 0 /\ forall k, 0 <= k < TB_MAX_INSNS -> is_Some (load_le 4 code (u32 (r.1 + 4 * k))).

Definition mapped_blocks (t : TState) : Prop :=
  glob_info (vregs_info (t_rn t)) = state_info /\
  forall ip b, ip2bb t !! ip = Some b -> is_Some (view (t_rn t) b).

Lemma ranges_total code rs t :
  mem_wf code -> Forall (range_mapped code) rs -> mapped_blocks t ->
  (forall ip, ip ∈ rs.*1 -> is_Some (ip2bb t !! ip)) ->
  exists t', translate_ranges code rs t = Some (tt, t').
Proof.
  intros Hw. revert t. induction rs as [|[first second] rs IH]; intros t Hall [Hg Hv] Hin; [by eexists|].
  apply Forall_cons in Hall as [(Hip & Hb & Hm) Hall]. cbn [fst snd] in *.
  destruct (Hin first) as [b Hfb]; [left|]. destruct (Hv _ _ Hfb) as [[l ss] Hvb].
  set (t0 := set_control NEXT (set_qb (Builder_at_end (t_rn t) b) (set_bb_ip first (set_insn_ip first t)))).
  destruct (loop_total code (Z.to_nat TB_MAX_INSNS) 0 second t0 l ss) as (t1 & E1 & F & Hs1); try done.
  { unfold TB_MAX_INSNS. lia. }
  { apply (qb_set_at_end b (set_bb_ip first (set_insn_ip first t))). by eexists. }
  assert (E : TranslateIPRange code first second t = Some (tt, t1)).
  { rewrite TranslateIPRange_eq. destruct (Z.eqb_spec second 0); [done|]. by rewrite Hfb. }
  destruct (IH t1) as [t' E']; [done| | |].
  - split; [by rewrite (tf_glob _ _ F)|]. intros ip k Hk. rewrite (tf_ip2bb _ _ F) in Hk.
    destruct (decide (k = b)) as [->|Hne]; [exact Hs1|].
    rewrite (tf_view _ _ F); [by apply (Hv ip)|done|by apply (Hv ip)].
  - intros ip Hip'. rewrite (tf_ip2bb _ _ F). apply Hin. by right.
  - exists t'. cbn [translate_ranges]. unfold mbind, TM_bind. rewrite E. exact E'.
Qed.

Lemma create_blocks_total rs t : exists t', create_blocks rs t = Some (tt, t').
Proof.
  revert t. induction rs as [|[first second] rs IH]; intros t; [by eexists|]. apply (IH _).
Qed.

(** C19 Translation is total: when the up to 64 instruction words behind each
    starting address are mapped and no boundary is zero, [Translate]
    terminates and returns a region, whatever the words are. *)
Theorem Translate_total code rs :
  mem_wf code -> Forall (range_mapped code) rs -> exists t, Translate code rs = Some t.
Proof.
  intros Hw Hall. destruct (create_blocks_total rs T_init) as [t1 E1].
  destruct (create_blocks_done rs T_init t1) as ([Hv _ Hg] & _ & Hin & _); [|done|].
  { split; try done; intros ip *; change (ip2bb T_init) with (∅ : gmap Z nat); by rewrite !lookup_empty. }
  destruct (ranges_total code rs t1 Hw Hall) as [t E2]; [|done|].
  { split; [done|]. intros ip b Hb. rewrite (Hv _ _ Hb). by eexists. }
  exists t. unfold Translate. unfold mbind, TM_bind. rewrite E1. cbn [mbind option_bind]. by rewrite E2.
Qed.

(** ** Witnesses *)
Definition demo_ranges : list (Z * Z) := [(0, 16); (16, 24); (24, 28)].

Lemma demo_code_ok : code_ok demo_mem demo_ranges.
Proof. apply code_okb_ok. vm_compute. reflexivity. Qed.

Lemma demo_ranges_wf : ranges_wf demo_ranges.
Proof.
  split; [|repeat constructor; vm_compute; congruence].
  apply (bool_decide_unpack _). vm_compute. reflexivity.
Qed.

Lemma sim_init m : mem_wf m -> sim (mkQ CPUState_init ∅ ∅ ∅ m) (mkH CPUState_init 0 m).
Proof.
  intros Hm. split; [| |reflexivity..].
  - split; [apply cpu_wf_init|apply map_Forall_empty..|exact Hm].
  - apply hinv_wf. split_and!; [apply cpu_wf_init|unfold in_u; cbn [h_gip]; lia|exact Hm].
Qed.

Definition demo_q : qstate := mkQ CPUState_init ∅ ∅ ∅ demo_mem.

(** The region of the demo program runs to its [ecall] with [a2 = 0xff]. *)
Lemma demo_region :
  match Translate demo_mem demo_ranges with
  | Some t =>
      match ip2bb t !! 0 with
      | Some b =>
          match exec_region state_info (fun _ => None) [] 8 (t_rn t) b demo_q with
          | Some (QRaised s') =>
              (NumAll (vregs_info (t_rn t)) <? 2 ^ 16) && (get_gpr (q_cpu s') 12 =? 0xff)
          | _ => false
          end
      | None => false
      end
  | None => false
  end = true.
Proof. vm_compute. reflexivity. Qed.

Lemma Translate_correct_witness :
  exists t b s', Translate demo_mem demo_ranges = Some t /\
    exec_region state_info (fun _ => None) [] 8 (t_rn t) b demo_q = Some (QRaised s') /\
    (goes_bad [] demo_mem (in_ranges demo_ranges) (mkH CPUState_init 0 demo_mem) \/
     region_result [] (in_ranges demo_ranges) (QRaised s') (mkH CPUState_init 0 demo_mem)).
Proof.
  pose proof demo_region as Hd.
  destruct (Translate demo_mem demo_ranges) as [t|] eqn:Et; [|discriminate Hd].
  destruct (ip2bb t !! 0) as [b|] eqn:Eb; [|discriminate Hd].
  destruct (exec_region state_info (fun _ => None) [] 8 (t_rn t) b demo_q) as [[| | |s'| | |]|] eqn:Ex;
    try discriminate Hd.
  apply andb_true_iff in Hd as [Hw%Z.ltb_lt _].
  exists t, b, s'. split; [reflexivity|]. split; [exact Ex|].
  exact (Translate_correct (fun _ => None) [] demo_mem demo_ranges t 0 b demo_q _ 8 _
    (mem_of_words_wf _ _) demo_code_ok demo_ranges_wf Et Hw Eb (sim_init _ (mem_of_words_wf _ _)) eq_refl Ex).
Defined.

(** A one-instruction program: [ecall]. *)
Definition ecall_mem : mem := mem_of_words 0 [0x73].

Lemma ecall_dispatch σ :
  h_gip σ = 0 -> h_mem σ = ecall_mem -> dispatch [] σ = Handler [] insn._ecall 0x73 σ.
Proof.
  intros E Em. unfold dispatch, fetch. rewrite E, Em.
  change (load_le 4 ecall_mem 0) with (Some 0x73). reflexivity.
Qed.

Lemma ecall_stops σ σ2 : h_gip σ = 0 -> h_mem σ = ecall_mem -> dispatch [] σ <> Ret tt σ2.
Proof. intros E Em. rewrite ecall_dispatch by done. by apply trap_never_returns. Qed.

Lemma ecall_not_bad inside σ : h_gip σ = 0 -> h_mem σ = ecall_mem -> ~ goes_bad [] ecall_mem inside σ.
Proof.
  intros Hg Hm (n & σ1 & Hn & _ & Hbad).
  assert (σ1 = σ) as -> by (inversion Hn as [|? ? ? ? _ E _]; [done|]; exfalso; by eapply ecall_stops; [..|exact E]).
  destruct Hbad as [Hbad|Hbad]; [by destruct Hbad; rewrite Hm|].
  rewrite ecall_dispatch in Hbad by done. destruct σ. destruct Hbad as [Hbad|(σ2 & Hr & Ht)].
  - revert Hbad. run_handler. discriminate.
  - revert Hr. run_handler. intros [= <-]. discriminate Ht.
Qed.

Lemma Translate_progress_witness :
  exists t b r, Translate ecall_mem [(0, 4)] = Some t /\ 
    exec_region state_info (fun _ => None) [] 2 (t_rn t) b (mkQ CPUState_init ∅ ∅ ∅ ecall_mem) = Some r.
Proof.
  destruct (Translate ecall_mem [(0, 4)]) as [t|] eqn:Et; [|vm_compute in Et; discriminate Et].
  assert (Hw : NumAll (vregs_info (t_rn t)) < 2 ^ 16) by (vm_compute in Et; injection Et as <-; reflexivity).
  assert (Hb : ip2bb t !! 0 = Some 0%nat) by (vm_compute in Et; injection Et as <-; reflexivity).
  exists t, 0%nat.
  destruct (Translate_progress (fun _ => None) [] ecall_mem [(0, 4)] t 0 0%nat
    (mkQ CPUState_init ∅ ∅ ∅ ecall_mem) (mkH CPUState_init 0 ecall_mem) (mkH CPUState_init 0 ecall_mem) 0)
    as [r Hr].
  - apply mem_of_words_wf.
  - apply code_okb_ok. vm_compute. reflexivity.
  - split; [apply (bool_decide_unpack _); vm_compute; reflexivity|repeat constructor; vm_compute; congruence].
  - exact Et.
  - exact Hw.
  - exact Hb.
  - apply sim_init, mem_of_words_wf.
  - reflexivity.
  - by apply ecall_not_bad.
  - constructor.
  - intros σ2. by apply ecall_stops.
  - exists r. split; [reflexivity|exact Hr].
Defined.

Lemma demo_mapped :
  forallb (fun k => match load_le 4 demo_mem (u32 k) with Some _ => true | None => false end) (seqZ 0 281) = true.
Proof. vm_compute. reflexivity. Qed.

Lemma demo_range_mapped first second :
  0 <= first <= 28 -> second <> 0 -> range_mapped demo_mem (first, second).
Proof.
  intros Hf Hs. split; [unfold in_u; cbn [fst]; lia|]. split; [done|]. intros k Hk.
  unfold TB_MAX_INSNS in Hk. pose proof demo_mapped as Hm. rewrite forallb_forall in Hm.
  specialize (Hm ((first, second).1 + 4 * k)).
  destruct (load_le 4 demo_mem _); [by eexists|]. discriminate Hm.
  apply list_elem_of_In, elem_of_seqZ. cbn [fst]. lia.
Qed.

Lemma Translate_total_witness : exists t, Translate demo_mem demo_ranges = Some t.
Proof.
  apply (Translate_total demo_mem demo_ranges); [apply mem_of_words_wf|].
  apply Forall_cons_2; [apply demo_range_mapped; lia|].
  apply Forall_cons_2; [apply demo_range_mapped; lia|].
  apply Forall_cons_2; [apply demo_range_mapped; lia|]. apply Forall_nil_2.
Defined.

(** ** The load into [x0] *)

(** The loads, with the access they make. *)
Definition load_type (op : insn.Op) : option (VType * VSign * ity) :=
  match op with
  | insn._lb => Some (I8, VSign_S, Ti8)
  | insn._lh => Some (I16, VSign_S, Ti16)
  | insn._lw => Some (I32, VSign_S, Ti32)
  | insn._lbu => Some (I8, VSign_U, Tu8)
  | insn._lhu => Some (I16, VSign_U, Tu16)
  | _ => None
  end.

Lemma load_type_op weaks op sz sgn T i ip tmp σ :
  load_type op = Some (sz, sgn, T) ->
  access_ity sz sgn = Some T /\ emit op i ip tmp = Some (load_insts sz sgn i tmp) /\
  insn.has_flag op insn.Flags.Branch = false /\ insn.has_flag op insn.Flags.Trap = false /\
  insn.has_flag op insn.Flags.MayTrap = true /\
  Handler weaks op i σ = (STATE_IP_GIP;; HANDLER_Load T i;; SET_GPR 0 0;; gip ← GET_GIP; SET_GIP (gip + 4)) σ.
Proof. destruct op; try discriminate; intros [= <- <- <-]; by split_and!. Qed.

(** A load into [x0] in the interpreter: no register changes. *)
Lemma load_x0_interp T i σ v :
  hinv σ -> insn.rd i = 0 -> insn.I_imm i = 0 ->
  unaligned_load T (h_mem σ) (get_gpr (h_cpu σ) (insn.rs1 i)) = Some v ->
  exists σ', (STATE_IP_GIP;; HANDLER_Load T i;; SET_GPR 0 0;; gip ← GET_GIP; SET_GIP (gip + 4)) σ = Ret tt σ' /\
    h_gip σ' = u32 (h_gip σ + 4) /\ gpr (h_cpu σ') = gpr (h_cpu σ).
Proof.
  intros Hi Hrd Himm Hv. pose proof (proj1 (hinv_wf σ) Hi) as (Hcw & _). destruct σ as [c gip m]. cbn [h_cpu h_gip h_mem] in *.
  assert (Hr : in_u 32 (get_gpr c (insn.rs1 i))) by (apply get_gpr_range, Hcw).
  run_handler. rewrite Hrd, Himm, Z.add_0_r, (uN_id 32) by done.
  change (get_gpr (set_ip gip c) (insn.rs1 i)) with (get_gpr c (insn.rs1 i)).
  rewrite Hv. rewrite reset_x0 by (apply Hcw || lia). unfold wr_gpr. cbn [Z.eqb]. eexists. split; [reflexivity|]. by split.
Qed.

(** The same load in the block: the base register gets the loaded value. *)
Lemma load_x0_run clob weaks op sz sgn T i ip tmp s v rest :
  load_type op = Some (sz, sgn, T) -> insn.rd i = 0 -> insn.I_imm i = 0 -> insn.rs1 i <> 0 -> in_u 32 ip -> qwf s ->
  unaligned_load T (q_mem s) (get_gpr (q_cpu s) (insn.rs1 i)) = Some v ->
  exec_list state_info clob weaks (pre_insts op ip ++ (fold_inst <$> load_insts sz sgn i tmp) ++ rest) s =
  exec_list state_info clob weaks rest (q_set_cpu (set_gpr (insn.rs1 i) (u32 v) (set_ip ip (q_cpu s))) s).
Proof.
  intros Hl Hrd Himm Hrs Hip Hq Hv. pose proof (insn.rs1_range i) as Hr.
  destruct (load_type_op weaks op sz sgn T i ip tmp (mkH (q_cpu s) ip (q_mem s)) Hl) as (HT & _ & _ & _ & Hmt & _).
  rewrite run_pre by (by rewrite ?Hmt, ?orb_true_r). set (s1 := q_set_cpu _ s).
  unfold load_insts, addr_insts, addr_opnd. rewrite Hrd, Himm. cbn [Z.eqb app fmap list_fmap]. change (fold_inst (InstVMLoad ?a ?b ?c ?d)) with (InstVMLoad a b c d).
  cbn [app exec_list exec_inst]. rewrite read_gpr_opnd; [|done|subst s1; apply Hq].
  change (get_gpr (q_cpu s1) (insn.rs1 i)) with (get_gpr (q_cpu s) (insn.rs1 i)). cbn [or_stuck]. rewrite HT. cbn [or_stuck].
  change (q_mem s1) with (q_mem s). rewrite Hv. unfold gpr_opnd. destruct (Z.eqb_spec (insn.rs1 i) 0); [done|].
  rewrite write_gpr by lia. cbn [or_stuck]. done.
Qed.

(** The region of a range that is one straight-line instruction. *)
Lemma Translate_one code pc bnd raw l :
  in_u 32 pc -> load_le 4 code pc = Some raw -> bnd <> 0 -> bnd <= u32 (pc + 4) ->
  insn.has_flag (Decoder.Decode raw) insn.Flags.Branch = false -> insn.has_flag (Decoder.Decode raw) insn.Flags.Trap = false ->
  (forall tmp, emit (Decoder.Decode raw) raw pc tmp = Some (l tmp)) ->
  exists t tmp, Translate code [(pc, bnd)] = Some t /\
    view (t_rn t) 0 = Some (pre_insts (Decoder.Decode raw) pc ++ (fold_inst <$> l tmp) ++ [InstGBr (VConst I32 (u32 (pc + 4)))], []).
Proof.
  intros Hpc Hraw Hz Hb Hbr Htr Hl. set (op := Decoder.Decode raw) in *.
  destruct (create_blocks_total [(pc, bnd)] T_init) as [t1 E1].
  pose proof E1 as E1'. injection E1' as E1'.
  assert (Hmap : ip2bb t1 = {[pc := 0%nat]}) by (rewrite <- E1'; cbn; by rewrite lookup_empty).
  assert (Hv1 : view (t_rn t1) 0 = Some ([], [])) by (by rewrite <- E1').
  set (t2 := set_control NEXT (set_qb (Builder_at_end (t_rn t1) 0) (set_bb_ip pc (set_insn_ip pc t1)))).
  assert (Ht2 : at_end t2) by (apply (qb_set_at_end 0 (set_bb_ip pc (set_insn_ip pc t1))); by eexists).
  destruct (H_straight op raw t2 (l (next_local t2)) Ht2 (Hl _)) as (t3 & E3 & He).
  destruct (emits_view _ _ _ He) as (F & l1 & s1 & V1 & V1'). change (view (t_rn t2) (b_bb (t_qb t2))) with (view (t_rn t1) 0) in V1.
  rewrite Hv1 in V1. injection V1 as <- <-. cbn [app] in V1'.
  assert (Hfin : finish op t3 = set_insn_ip (u32 (pc + 4)) t3) by (unfold finish; rewrite Hbr, Htr; cbn; by rewrite (em_ip _ _ _ He)).
  rewrite Hfin in E3.
  assert (Ht3 : at_end (set_control TB_OVF (set_insn_ip (u32 (pc + 4)) t3))) by (exact (emits_at_end _ _ _ He)).
  rewrite <- (em_bb _ _ _ He) in V1'.
  destruct (MakeGBr_spec (u32 (pc + 4)) (set_control TB_OVF (set_insn_ip (u32 (pc + 4)) t3)) _ _ Ht3 V1') as (t4 & E4 & F4 & Hcase); [apply uN_range; lia|].
  exists t4, (next_local t2). split.
  - unfold Translate. change ((create_blocks [(pc, bnd)];; translate_ranges code [(pc, bnd)]) T_init) with
      ('(_, t1) ← create_blocks [(pc, bnd)] T_init; '(_, t') ← TranslateIPRange code pc bnd t1; translate_ranges code [] t').
    rewrite E1. cbn [mbind option_bind]. rewrite TranslateIPRange_eq. destruct (Z.eqb_spec bnd 0); [done|].
    rewrite Hmap, lookup_singleton_eq. fold t2. change (Z.to_nat TB_MAX_INSNS) with (S 63). rewrite translate_loop_eq.
    change (insn_ip t2) with pc. rewrite Hraw. fold op. rewrite E3. cbn [control set_insn_ip]. rewrite (em_control _ _ _ He). cbn [control set_control t2].
    change (insn_ip (set_insn_ip (u32 (pc + 4)) t3)) with (u32 (pc + 4)).
    destruct (Z.leb_spec bnd (u32 (pc + 4))); [|lia]. rewrite orb_true_r. rewrite E4. done.
  - assert (Hne : ip2bb (set_control TB_OVF (set_insn_ip (u32 (pc + 4)) t3)) !! u32 (pc + 4) = None).
    { cbn [ip2bb set_control set_insn_ip]. rewrite (em_ip2bb _ _ _ He). change (ip2bb t2) with (ip2bb t1). rewrite Hmap.
      apply lookup_singleton_ne. intros E. pose proof Hpc as [? ?]. unfold uN in E. revert E. zlia. }
    destruct Hcase as [[_ V4]|(b' & Hb' & _)]; [|congruence]. cbn [t_qb set_control set_insn_ip] in V4. rewrite (em_bb _ _ _ He) in V4.
    change (b_bb (t_qb t2)) with 0%nat in V4. rewrite <- app_assoc in V4. exact V4.
Qed.

(** C36 A load into [x0] at offset zero is miscompiled: for each of the five
    loads, with any base register but [x0], at any address, in any state in
    which the load does not fault, the region of the instruction overwrites
    the base register with the loaded value, where the interpreter leaves all
    registers alone; both go on behind the instruction. *)
Theorem load_x0_clobbers_base clob weaks code pc bnd raw sz sgn T s σ v :
  load_type (Decoder.Decode raw) = Some (sz, sgn, T) -> insn.rd raw = 0 -> insn.I_imm raw = 0 -> insn.rs1 raw <> 0 ->
  in_u 32 pc -> bnd <> 0 -> bnd <= u32 (pc + 4) -> load_le 4 code pc = Some raw ->
  sim s σ -> h_gip σ = pc -> fetch (h_mem σ) pc = Some raw ->
  unaligned_load T (h_mem σ) (get_gpr (h_cpu σ) (insn.rs1 raw)) = Some v ->
  exists t s' σ', Translate code [(pc, bnd)] = Some t /\
    exec_region state_info clob weaks 1 (t_rn t) 0 s = Some (QExit (u32 (pc + 4)) s') /\
    gpr (q_cpu s') = <[Z.to_nat (insn.rs1 raw) := u32 v]> (gpr (h_cpu σ)) /\
    dispatch weaks σ = Ret tt σ' /\ h_gip σ' = u32 (pc + 4) /\ gpr (h_cpu σ') = gpr (h_cpu σ).
Proof.
  intros Hl Hrd Himm Hrs Hpc Hz Hb Hraw Hs Hgip Hfetch Hv. 
  assert (He : forall tmp, emit (Decoder.Decode raw) raw pc tmp = Some (load_insts sz sgn raw tmp))
    by (intros tmp; by destruct (load_type_op weaks _ sz sgn T raw pc tmp σ Hl) as (_ & ? & _)).
  destruct (load_type_op weaks _ sz sgn T raw pc 0 σ Hl) as (_ & _ & Hbr & Htr & _ & Hh).
  destruct (Translate_one code pc bnd raw _ Hpc Hraw Hz Hb Hbr Htr He) as (t & tmp & Et & V).
  destruct (load_x0_interp T raw σ v (sim_hinv _ _ Hs) Hrd Himm Hv) as (σ' & Hd & Hg & Hgp).
  rewrite <- (sim_mem _ _ Hs), <- (sim_get s σ) in Hv by done.
  eexists t, _, σ'. split_and!; [done| | | |congruence|done].
  - rewrite (exec_region_view clob weaks t 0 0 s _ _ V).
    rewrite (load_x0_run clob weaks _ sz sgn T raw pc tmp s v _ Hl Hrd Himm Hrs Hpc (sim_qwf _ _ Hs) Hv).
    cbn [exec_list exec_inst read_opnd or_stuck]. reflexivity.
  - cbn. by rewrite (sim_gpr _ _ Hs).
  - unfold dispatch. by rewrite Hgip, Hfetch, Hh.
Qed.

(** [lw zero, 0(t0)] with [t0 = 0x100], where there is a 7. *)
Definition loadx0_mem : mem := mem_of_words 0 ([0x0002a003; 0x73] ++ replicate 64 7).
Definition loadx0_cpu : CPUState := set_gpr 5 0x100 CPUState_init.

Lemma load_x0_clobbers_base_witness : exists t s' σ', Translate loadx0_mem [(0, 4)] = Some t /\
  exec_region state_info (fun _ => None) [] 1 (t_rn t) 0 (mkQ loadx0_cpu ∅ ∅ ∅ loadx0_mem) = Some (QExit 4 s') /\
  get_gpr (q_cpu s') 5 = 7 /\ dispatch [] (mkH loadx0_cpu 0 loadx0_mem) = Ret tt σ' /\ get_gpr (h_cpu σ') 5 = 0x100.
Proof.
  assert (Hm : mem_wf loadx0_mem) by apply mem_of_words_wf.
  assert (Hw : cpu_wf loadx0_cpu) by (apply (cpu_wf_wr CPUState_init 5 0x100); [apply cpu_wf_init|lia|by split]).
  destruct (load_x0_clobbers_base (fun _ => None) [] loadx0_mem 0 4 0x0002a003 I32 VSign_S Ti32
    (mkQ loadx0_cpu ∅ ∅ ∅ loadx0_mem) (mkH loadx0_cpu 0 loadx0_mem) 7) as (t & s' & σ' & Et & Ex & Hg & Hd & _ & Hi).
  - reflexivity.
  - reflexivity.
  - reflexivity.
  - discriminate.
  - split; lia.
  - discriminate.
  - discriminate.
  - vm_compute. reflexivity.
  - split; [| |reflexivity..].
    + split; [exact Hw|apply map_Forall_empty..|exact Hm].
    + apply hinv_wf. split_and!; [exact Hw|unfold in_u; cbn [h_gip]; lia|exact Hm].
  - reflexivity.
  - vm_compute. reflexivity.
  - vm_compute. reflexivity.
  - exists t, s', σ'. split; [exact Et|]. split; [exact Ex|]. unfold get_gpr. rewrite Hg, Hi. split; [reflexivity|]. split; [exact Hd|reflexivity].
Defined.
