(* ===== verification/ArchTraits.v ===== *)
(** * Target description (src/dbt/qmc/qcg/arch_traits.h, arch_traits.cpp)

    Register masks, operand constraints and the constraint tables of the
    amd64 back end.  Registers are numbered as in the amd64 encoding. *)

From stdpp Require Import base tactics numbers list strings.
From S2P Require Import Prelude VOperand Qir.

Import qir.

(** ** RegMask: one bit per register in a [u32] *)
Module RegMask.
Definition Test (m r : Z) : bool := negb (Z.land m (Z.shiftl 1 r) =? 0).
Definition Set_ (m r : Z) : Z := Z.lor m (Z.shiftl 1 r).
Definition Clear (m r : Z) : Z := Z.land m (u32 (Z.lnot (Z.shiftl 1 r))).
(** [std::popcount]. *)
Definition count (m : Z) : Z :=
  Z.of_nat (length (filter (fun i => Z.testbit m (Z.of_nat i) = true) (seq 0 32))).
Definition and_ (a b : Z) : Z := Z.land a b.
Definition or_ (a b : Z) : Z := Z.lor a b.
Definition not_ (a : Z) : Z := u32 (Z.lnot a).

Lemma Test_testbit m r : 0 <= r -> Test m r = Z.testbit m r.
Proof.
  intros Hr. unfold Test. rewrite Z.shiftl_1_l.
  destruct (Z.testbit m r) eqn:E.
  - destruct (Z.eqb_spec (Z.land m (2 ^ r)) 0) as [H|]; [|done].
    assert (Hb : Z.testbit (Z.land m (2 ^ r)) r = true)
      by (rewrite Z.land_spec, E, Z.pow2_bits_true by lia; done).
    rewrite H, Z.bits_0 in Hb. done.
  - replace (Z.land m (2 ^ r)) with 0; [done|]. symmetry. apply Z.bits_inj'. intros n Hn.
    rewrite Z.land_spec, Z.bits_0. destruct (decide (n = r)) as [->|]; [by rewrite E|].
    rewrite Z.pow2_bits_false by lia. apply andb_false_r.
Qed.

Lemma Test_Set m r r' : 0 <= r -> 0 <= r' -> Test (Set_ m r) r' = bool_decide (r = r') || Test m r'.
Proof.
  intros Hr Hr'. rewrite !Test_testbit by done. unfold Set_. rewrite Z.lor_spec, Z.shiftl_1_l.
  case_bool_decide as E.
  - subst. rewrite Z.pow2_bits_true by lia. apply orb_true_r.
  - rewrite Z.pow2_bits_false by lia. apply orb_false_r.
Qed.

Lemma Test_and a b r : 0 <= r -> Test (and_ a b) r = Test a r && Test b r.
Proof. intros. by rewrite !Test_testbit, Z.land_spec by done. Qed.

Lemma Test_not a r : 0 <= r < 32 -> Test (not_ a) r = negb (Test a r).
Proof.
  intros Hr. rewrite !Test_testbit by lia. unfold not_. rewrite testbit_uN, Z.lnot_spec by lia.
  by destruct (Z.ltb_spec r 32); [|lia].
Qed.
End RegMask.

(** [RACtImm]. *)
Definition CtImm_NO : Z := 0.
Definition CtImm_ANY : Z := Z.shiftl 1 0.
Definition CtImm_S32 : Z := Z.shiftl 1 1.
Definition CtImm_U32 : Z := Z.shiftl 1 2.

Record RAOpCt := mkCt { cr : Z; ci : Z; has_alias : bool; alias : nat }.
Definition SetAlias (a : nat) (c : RAOpCt) : RAOpCt := mkCt (cr c) (ci c) true a.

Definition GPR_NUM : Z := 16.
Definition RAX := 0.
Definition RCX := 1.
Definition RDX := 2.
Definition RBX := 3.
Definition RSP := 4.
Definition RBP := 5.
Definition RSI := 6.
Definition RDI := 7.
Definition R8 := 8.
Definition R9 := 9.
Definition R10 := 10.
Definition R11 := 11.
Definition R12 := 12.
Definition R13 := 13.
Definition R14 := 14.
Definition R15 := 15.

(** [QMC_FIXED_REGS]. *)
Definition STATE := R13.
Definition MEMBASE := RBP.
Definition SP := RSP.

Definition mask_of (rs : list Z) : Z := foldl RegMask.Set_ 0 rs.
Definition GPR_FIXED : Z := mask_of [STATE; MEMBASE; SP].
Definition GPR_CALL_CLOBBER : Z := mask_of [RAX; RDI; RSI; RDX; RCX; R8; R9; R10; R11].
Definition GPR_ALL : Z := u32 (Z.shiftl 1 GPR_NUM) - 1.
Definition GPR_POOL : Z := RegMask.and_ GPR_ALL (RegMask.not_ GPR_FIXED).
Definition GPR_CALL_SAVED : Z := RegMask.and_ GPR_ALL (RegMask.not_ GPR_CALL_CLOBBER).
Definition spillframe_size : Z := 1024.

(** [match_gp_const(type, val, ct)] with [val] an [i64]. *)
Definition match_gp_const (type : VType) (val ct : Z) : bool :=
  if negb (Z.land ct CtImm_ANY =? 0) then true
  else if negb (Z.land ct CtImm_U32 =? 0) && (u32 val =? val) then true
  else if negb (Z.land ct CtImm_S32 =? 0) && (i32 val =? val) then true
  else false.

(** ** Constraint descriptions *)
Inductive CtDef :=
| DEF (cr ci : Z)
| ALIAS (a : nat).

Definition def_ct (d : CtDef) : RAOpCt :=
  match d with DEF r i => mkCt r i false 0 | ALIAS _ => mkCt 0 CtImm_NO false 0 end.

(** The loops of [InstCt::Make] that fill [ct]: the inputs one after the
    other, an alias copies its output's constraint and marks both. *)
Fixpoint fill_inputs (ct : list RAOpCt) (idefs : list CtDef) : list RAOpCt :=
  match idefs with
  | [] => ct
  | ALIAS a :: ds =>
      let iidx := length ct in
      let c := from_option id (mkCt 0 CtImm_NO false 0) (ct !! a) in
      fill_inputs (alter (SetAlias iidx) a ct ++ [SetAlias a c]) ds
  | d :: ds => fill_inputs (ct ++ [def_ct d]) ds
  end.

(** [order_ct]: [std::iota] and a sort by the number of registers; on at most
    two elements the sort is an insertion sort. *)
Fixpoint insert_order (key : nat -> Z) (x : nat) (l : list nat) : list nat :=
  match l with
  | [] => [x]
  | y :: l' => if key x <? key y then x :: l else y :: insert_order key x l'
  end.
Definition order_ct (ct : list RAOpCt) (start len : nat) : list nat :=
  foldl (fun acc x => insert_order (fun i => RegMask.count (from_option cr 0 (ct !! (i + start)%nat))) x acc)
    [] (seq 0 len).

Record InstCt := mkInstCt { ic_ct : list RAOpCt; ic_order : list nat }.
Definition InstCt_Make (odefs idefs : list CtDef) : InstCt :=
  let ct := fill_inputs (map def_ct odefs) idefs in
  mkInstCt ct (order_ct ct 0 (length odefs) ++ order_ct ct (length odefs) (length idefs)).

Definition Ct_R : Z := GPR_ALL.
Definition Ct_R8 : Z := GPR_ALL.
Definition Ct_CX : Z := mask_of [RCX].
Definition Ct_SI : Z := mask_of [RSI].

Definition ct_r_rs32 := InstCt_Make [] [DEF Ct_R CtImm_NO; DEF Ct_R CtImm_S32].
Definition ct_si := InstCt_Make [] [DEF Ct_SI CtImm_NO].
Definition ct_r_ru32 := InstCt_Make [DEF Ct_R CtImm_NO] [DEF Ct_R CtImm_U32].
Definition ct_r_ri := InstCt_Make [DEF Ct_R CtImm_NO] [DEF Ct_R CtImm_ANY].
Definition ct_ri_r := InstCt_Make [] [DEF Ct_R CtImm_ANY; DEF Ct_R CtImm_NO].
Definition ct_r8_r_rs32 := InstCt_Make [DEF Ct_R8 CtImm_NO] [DEF Ct_R CtImm_NO; DEF Ct_R CtImm_S32].
Definition ct_r_0_rs32 := InstCt_Make [DEF Ct_R CtImm_NO] [ALIAS 0; DEF Ct_R CtImm_S32].
Definition ct_r_0_ru32 := InstCt_Make [DEF Ct_R CtImm_NO] [ALIAS 0; DEF Ct_R CtImm_U32].
Definition ct_r_0_cxi := InstCt_Make [DEF Ct_R CtImm_NO] [ALIAS 0; DEF Ct_CX CtImm_ANY].

(** [ARCH_OP_CT_LIST] as installed by [ArchTraits::init]. *)
Definition op_ct (op : Op) : option InstCt :=
  match op with
  | _brcc => Some ct_r_rs32
  | _gbrind => Some ct_si
  | _vmload => Some ct_r_ru32
  | _vmstore => Some ct_ri_r
  | _setcc => Some ct_r8_r_rs32
  | _mov => Some ct_r_ri
  | _add | _sub | _or | _xor => Some ct_r_0_rs32
  | _and => Some ct_r_0_ru32
  | _sra | _srl | _sll => Some ct_r_0_cxi
  | _hcall | _br | _gbr => None
  end.

(** Everything an opcode's constraint entry has to satisfy. *)
Definition ct_coherent (op : Op) : bool :=
  match op_ct op with
  | None => true
  | Some c =>
      let ct := ic_ct c in
      let no := n_out op in
      let ni := n_in op in
      bool_decide (length ct = no + ni)%nat &&
      bool_decide (length (ic_order c) = no + ni)%nat &&
      bool_decide (Permutation (take no (ic_order c)) (seq 0 no)) &&
      bool_decide (Permutation (drop no (ic_order c)) (seq 0 ni)) &&
      forallb (fun i => from_option (fun x =>
                 negb (RegMask.and_ (cr x) GPR_POOL =? 0) &&
                 (negb (has_alias x) ||
                  from_option (fun y => has_alias y && bool_decide (alias y = i) && (cr y =? cr x))
                    false (ct !! alias x))) false (ct !! i))
        (seq 0 (no + ni)) &&
      forallb (fun i =>
        match ct !! (no + from_option id 0%nat (drop no (ic_order c) !! i))%nat,
              ct !! (no + from_option id 0%nat (drop no (ic_order c) !! S i))%nat with
        | Some x, Some y => RegMask.count (cr x) <=? RegMask.count (cr y)
        | _, _ => true
        end) (seq 0 (ni - 1))
  end.

(** The constraint tables are coherent with the opcode table and the
    register file: every constrained opcode has one constraint per operand
    and an operand order that is a permutation of its outputs and of its
    inputs, most constrained first; an aliased input and its output point at
    each other and accept the same registers; and every operand accepts an
    allocatable register. *)
Theorem op_ct_coherent op : ct_coherent op = true.
Proof. destruct op; vm_compute; reflexivity. Qed.
