(* ===== verification/QSel.v ===== *)
(** * Operand selection (src/dbt/qmc/qcg/qsel.cpp)

    [SelectOperands] makes an instruction meet its constraints: a two-address
    operation gets its first input moved into its output register, and a
    constant that the instruction cannot encode is moved into a temporary.
    The movs go in front of the instruction.  Builder, region counters and
    the temporaries are threaded as in the source. *)

From stdpp Require Import base tactics numbers list strings gmap.
From S2P Require Import Prelude Bitfield RV32Insn RV32Decode GuestState Interp VOperand Qir QirSem QirBuilder ArchTraits.

Import qir.

Definition vreg_of (v : VOperand) : option Z :=
  match v with VGPR _ r => Some r | _ => None end.
Definition type_of (v : VOperand) : VType :=
  match v with VConst t _ | VGPR t _ | PGPR t _ | VSlot _ t _ => t | VBad => UNDEF end.
Definition is_vgpr (v : VOperand) (r : Z) : bool := bool_decide (vreg_of v = Some r).

(** State of one selection: virtual registers, the movs created so far, the
    inputs. *)
Record SelState := mkSel { sel_vr : VRegsInfo; sel_movs : list Inst; sel_src : list VOperand }.

Definition sel_tmp (t : VType) (st : SelState) : SelState * VOperand :=
  let '(vr, r) := AddLocal (sel_vr st) t in (mkSel vr (sel_movs st) (sel_src st), VGPR t r).
Definition sel_mov (d v : VOperand) (st : SelState) : SelState :=
  mkSel (sel_vr st) (sel_movs st ++ [InstUnop _mov d v]) (sel_src st).
Definition sel_set (i : nat) (v : VOperand) (st : SelState) : SelState :=
  mkSel (sel_vr st) (sel_movs st) (<[i := v]> (sel_src st)).

(** One turn of the loop "satisfy aliases". *)
Definition sel_alias (ct : list RAOpCt) (dstl : list VOperand) (i : nat) (st : SelState) : option SelState :=
  c ← ct !! (length dstl + i)%nat;
  if negb (has_alias c) then Some st
  else
    src ← sel_src st !! i; dst ← dstl !! alias c;
    r ← vreg_of dst;
    if is_vgpr src r then Some st
    else
      let live_input :=
        existsb (fun k => negb (Nat.eqb k i) && from_option (fun v => is_vgpr v r) false (sel_src st !! k))
          (seq 0 (length (sel_src st))) in
      let st :=
        if live_input then
          let '(st, tmp) := sel_tmp (type_of dst) st in
          let st := sel_mov tmp dst st in
          mkSel (sel_vr st) (sel_movs st)
            (imap (fun k v => if negb (Nat.eqb k i) && is_vgpr v r then tmp else v) (sel_src st))
        else st in
      Some (sel_set i dst (sel_mov dst src st)).

(** One turn of the loop "lower constants". *)
Definition sel_const (ct : list RAOpCt) (dst_n i : nat) (st : SelState) : option SelState :=
  c ← ct !! (dst_n + i)%nat; src ← sel_src st !! i;
  match src with
  | VConst type val =>
      if negb (ci c =? CtImm_NO) && match_gp_const type val (ci c) then Some st
      else
        let '(st, tmp) := sel_tmp type st in
        Some (sel_set i tmp (sel_mov tmp src st))
  | _ => Some st
  end.

Fixpoint sel_loop (f : nat -> SelState -> option SelState) (is_ : list nat) (st : SelState) : option SelState :=
  match is_ with
  | [] => Some st
  | i :: is_ => st ← f i st; sel_loop f is_ st
  end.

Definition SelectOperands (vr : VRegsInfo) (ins : Inst) : option (VRegsInfo * list Inst * Inst) :=
  c ← op_ct (GetOpcode ins);
  let srcl := inputs ins in
  let dstl := outputs ins in
  st ← sel_loop (sel_alias (ic_ct c) dstl) (seq 0 (length srcl)) (mkSel vr [] srcl);
  st ← sel_loop (sel_const (ic_ct c) (length dstl)) (seq 0 (length srcl)) st;
  Some (sel_vr st, sel_movs st, set_inputs ins (sel_src st)).

(** [QSelVisitor]. *)
Definition QSel_visit (vr : VRegsInfo) (ins : Inst) : option (VRegsInfo * list Inst * Inst) :=
  match ins with
  | InstBr | InstGBr _ | InstHcall _ _ => Some (vr, [], ins)
  | _ => SelectOperands vr ins
  end.

(** The inner loop of [QSel::Run] over one block; a created [mov] takes the
    next instruction id. *)
Fixpoint number (id : Z) (l : list Inst) : list Node :=
  match l with
  | [] => []
  | i :: l => mkNode id (GetOpFlags (GetOpcode i)) i :: number (u32 (id + 1)) l
  end.

Fixpoint QSel_nodes (vr : VRegsInfo) (id : Z) (has_calls : bool) (l : list Node)
  : option (VRegsInfo * Z * bool * list Node) :=
  match l with
  | [] => Some (vr, id, has_calls, [])
  | n :: l =>
      '(vr, movs, ins) ← QSel_visit vr (n_inst n);
      let has_calls := has_calls || negb (Z.land (n_flags n) HAS_CALLS =? 0) in
      '(vr, id', has_calls, l') ← QSel_nodes vr (u32 (id + Z.of_nat (length movs))) has_calls l;
      Some (vr, id', has_calls, number id movs ++ mkNode (n_id n) (n_flags n) ins :: l')
  end.

Fixpoint QSel_blocks (vr : VRegsInfo) (id : Z) (has_calls : bool) (bs : list Block)
  : option (VRegsInfo * Z * bool * list Block) :=
  match bs with
  | [] => Some (vr, id, has_calls, [])
  | b :: bs =>
      '(vr, id, has_calls, l) ← QSel_nodes vr id has_calls (ilist b);
      '(vr, id, has_calls, bs') ← QSel_blocks vr id has_calls bs;
      Some (vr, id, has_calls, mkBlock l (succs b) (preds b) :: bs')
  end.

(** [QSelPass::run]: the region and [MachineRegionInfo::has_calls]. *)
Definition QSelPass_run (rn : Region) : option (Region * bool) :=
  '(vr, id, has_calls, bs) ← QSel_blocks (vregs_info rn) (inst_id_counter rn) false (blist rn);
  Some (mkRegion bs vr id (bb_id_counter rn), has_calls).
