(* ===== verification/QSelCorrect.v ===== *)
(** * Operand selection preserves behaviour

    Two states [agree N] when they differ at most in temporaries numbered
    [N] or more.  The instructions [SelectOperands] puts in place of one
    instruction do what that instruction does, up to fresh temporaries, and
    so does the selected block; the selected operands meet the constraints. *)

From stdpp Require Import base tactics numbers list strings gmap.
From S2P Require Import Prelude Bitfield RV32Insn RV32Decode GuestState Interp InterpProofs VOperand Qir QirSem QirBuilder ArchTraits QSel.

Import qir.

Record agree (N : Z) (s s' : qstate) : Prop := {
  ag_cpu : q_cpu s = q_cpu s';
  ag_pgpr : q_pgpr s = q_pgpr s';
  ag_frame : q_frame s = q_frame s';
  ag_mem : q_mem s = q_mem s';
  ag_loc : forall r, r < N -> q_loc s !! r = q_loc s' !! r }.

Lemma agree_refl N s : agree N s s.
Proof. by split. Qed.
Lemma agree_trans N s1 s2 s3 : agree N s1 s2 -> agree N s2 s3 -> agree N s1 s3.
Proof.
  intros [? ? ? ? H] [? ? ? ? H']. split; try congruence. intros r Hr. by rewrite H, H'.
Qed.
Lemma agree_le N M s s' : N <= M -> agree M s s' -> agree N s s'.
Proof. intros Hle [? ? ? ? H]. split; try done. intros r Hr. apply H. lia. Qed.
#[export] Hint Resolve agree_refl : rvdbt.

(** Results that differ at most in the states they carry. *)
Definition qres_agree (N : Z) (r r' : qres) : Prop :=
  match r, r' with
  | QNext s, QNext s' | QRaised s, QRaised s' | QFaulted s, QFaulted s' => agree N s s'
  | QJump k s, QJump k' s' => k = k' /\ agree N s s'
  | QExit t s, QExit t' s' => t = t' /\ agree N s s'
  | QUndef, QUndef | QStuck, QStuck => True
  | _, _ => False
  end.

Definition below (N : Z) (v : VOperand) : Prop :=
  match v with VGPR _ r => r < N | _ => True end.

Lemma below_le N M v : N <= M -> below N v -> below M v.
Proof. destruct v; cbn; lia. Qed.

Section sem.
Context (si : StateInfo) (clob : Z -> option Z) (weaks : list bool).
Notation read := (read_opnd si).
Notation write := (write_opnd si).
Notation run := (exec_list si clob weaks).
Notation exec := (exec_inst si clob weaks).

Lemma read_agree N v s s' : agree N s s' -> below N v -> read v s = read v s'.
Proof.
  intros [Hc Hp Hf Hm Hl] Hb. destruct v as [| | |[]|]; cbn in *; try congruence.
  f_equal. destruct (GetStateReg si r); [congruence|by apply Hl].
Qed.

Lemma write_agree N v x s s' :
  agree N s s' ->
  match write v x s, write v x s' with
  | Some a, Some b => agree N a b
  | None, None => True
  | _, _ => False
  end.
Proof.
  intros [Hc Hp Hf Hm Hl]. destruct v as [|t r|t r|[] t o|]; cbn; try done.
  - destruct (GetStateReg si r); cbn.
    + rewrite Hc. destruct (cpu_write _ _ _); cbn; [|done]. by split.
    + split; cbn; try done. intros k Hk. destruct (decide (k = r)) as [->|].
      * by rewrite !lookup_insert_eq.
      * rewrite !lookup_insert_ne by done. by apply Hl.
  - split; cbn; congruence || done.
  - rewrite Hc. destruct (cpu_write _ _ _); cbn; [|done]. by split.
  - split; cbn; congruence || done.
Qed.

(** What an instruction does once its inputs are read. *)
Definition sem (i : Inst) (vals : list Z) (s : qstate) : qres :=
  let wr d x := or_stuck (write d x s) QNext in
  match i, vals with
  | InstHcall stub _, [a] => exec_hcall clob weaks stub a s
  | InstBr, [] => QJump 0 s
  | InstBrcc cc _ _, [a; b] => QJump (if eval_cc cc a b then 0 else 1) s
  | InstGBr tpc, [] => or_stuck (read tpc s) (fun t => QExit t s)
  | InstGBrind _, [t] => QExit t s
  | InstVMLoad sz sgn d _, [a] =>
      or_stuck (access_ity sz sgn) (fun T =>
        match unaligned_load T (q_mem s) a with
        | Some v => wr d (u32 v)
        | None => QFaulted s
        end)
  | InstVMStore sz sgn _ _, [a; v] =>
      or_stuck (access_ity sz sgn) (fun T =>
        match unaligned_store T (q_mem s) a v with
        | Some m => QNext (q_set_mem m s)
        | None => QFaulted s
        end)
  | InstSetcc cc d _ _, [a; b] => wr d (if eval_cc cc a b then 1 else 0)
  | InstUnop op d _, [a] => if InstUnop_HasOpcode op then wr d a else QStuck
  | InstBinop op d _ _, [a; b] => or_stuck (eval_binop op a b) (wr d)
  | _, _ => QStuck
  end.

Definition reads (vs : list VOperand) (s : qstate) : option (list Z) := mapM (fun v => read v s) vs.

Lemma exec_sem i s :
  exec i s = match reads (inputs i) s with Some vals => sem i vals s | None => QStuck end.
Proof.
  destruct i; cbn; try done; repeat (destruct (read _ s); cbn; try done); by destruct (InstUnop_HasOpcode _).
Qed.

Lemma sem_set_inputs i vs vals s :
  length vs = length (inputs i) -> sem (set_inputs i vs) vals s = sem i vals s.
Proof. destruct i, vs as [|? [|? [|? ?]]]; done. Qed.
Lemma inputs_set_inputs i vs : length vs = length (inputs i) -> inputs (set_inputs i vs) = vs.
Proof. destruct i, vs as [|? [|? [|? ?]]]; done. Qed.

Lemma reads_agree N vs s s' : agree N s s' -> Forall (below N) vs -> reads vs s = reads vs s'.
Proof.
  intros Ha. induction 1 as [|v vs Hv Hvs IH]; [done|]. unfold reads in *. cbn.
  rewrite (read_agree N v s s') by done. destruct (read v s'); cbn; [|done]. by rewrite IH.
Qed.

Lemma wr_agree N d x s s' :
  agree N s s' -> qres_agree N (or_stuck (write d x s) QNext) (or_stuck (write d x s') QNext).
Proof.
  intros Ha. pose proof (write_agree N d x s s' Ha) as Hw.
  destruct (write d x s), (write d x s'); done.
Qed.

Lemma hcall_agree N st a s s' :
  agree N s s' -> qres_agree N (exec_hcall clob weaks st a s) (exec_hcall clob weaks st a s').
Proof.
  intros [Hc Hp Hf Hm Hl]. unfold exec_hcall. destruct (stub_rv32 st); [|done].
  rewrite Hc, Hm. destruct (qcgstub_rv32 _ _ _ _ _); cbn; try done; split; cbn; try done; by rewrite Hp.
Qed.

Lemma sem_agree N i vals s s' :
  agree N s s' -> (forall t, i = InstGBr t -> below N t) -> qres_agree N (sem i vals s) (sem i vals s').
Proof.
  intros Ha Hb. pose proof Ha as [Hc Hp Hf Hm Hl].
  destruct i, vals as [|a [|b [|? ?]]]; cbn [sem]; try done.
  - by apply hcall_agree.
  - rewrite (read_agree N tpc s s') by auto. by destruct (read tpc s').
  - destruct (access_ity sz sgn); cbn [or_stuck]; [|done]. rewrite Hm.
    destruct (unaligned_load _ _ _); [by apply wr_agree|done].
  - destruct (access_ity sz sgn); cbn [or_stuck]; [|done]. rewrite Hm.
    destruct (unaligned_store _ _ _ _); cbn; [|done]. by split.
  - by apply wr_agree.
  - destruct (InstUnop_HasOpcode op); [by apply wr_agree|done].
  - destruct (eval_binop op a b); cbn [or_stuck]; [by apply wr_agree|done].
Qed.

(** Writing twice is writing the second value. *)
Lemma write_write t r w v s s0 :
  write (VGPR t r) w s = Some s0 -> write (VGPR t r) v s0 = write (VGPR t r) v s.
Proof.
  assert (Hcpu : forall c o w v c0, cpu_write c o w = Some c0 -> cpu_write c0 o v = cpu_write c o v).
  { intros c o w' v' c0. unfold cpu_write. destruct (_ && _); [|destruct (_ =? _); [|done]]; intros [= <-]; [|done].
    f_equal. unfold set_gpr. cbn. by rewrite list_insert_insert_eq. }
  cbn. destruct (GetStateReg si r).
  - destruct (cpu_write _ _ w) eqn:E; [|done]. intros [= <-]. cbn. by rewrite (Hcpu _ _ _ v _ E).
  - intros [= <-]. unfold q_set_loc. cbn. by rewrite insert_insert_eq.
Qed.
End sem.

(** ** Reading back what was written

    Registers of the guest state are told apart by their offsets. *)
Section storage.
Context (si : StateInfo) (Hsi : NoDup (state_offs <$> si)).
Notation read := (read_opnd si).
Notation write := (write_opnd si).

Definition cpu_len (c : CPUState) : Prop := length (gpr c) = gpr_num.

Lemma cpu_read_write c o x c' o' :
  cpu_len c -> cpu_write c o x = Some c' ->
  cpu_read c' o' = if bool_decide (o = o') then Some x else cpu_read c o'.
Proof.
  unfold cpu_write, cpu_read, offs_ip. intros Hl H.
  destruct ((0 <=? o) && (o <? 128) && (o mod 4 =? 0)) eqn:Eo.
  - apply (inj Some) in H as <-. bool_to_prop.
    destruct ((0 <=? o') && (o' <? 128) && (o' mod 4 =? 0)) eqn:Eo'.
    + bool_to_prop. rewrite get_set_gpr by (done || zlia).
      do 2 case_bool_decide; try done; zlia.
    + case_bool_decide as E; [|done]. subst o'. apply not_true_iff_false in Eo'. destruct Eo'.
      apply andb_true_iff. split; [apply andb_true_iff; split|]; lia.
  - destruct (o =? 128) eqn:E; [|done]. apply (inj Some) in H as <-. bool_to_prop. subst o.
    destruct ((0 <=? o') && (o' <? 128) && (o' mod 4 =? 0)) eqn:Eo'.
    + bool_to_prop. rewrite bool_decide_false by lia. done.
    + destruct (Z.eqb_spec o' 128) as [->|]; [done|]. by rewrite bool_decide_false by lia.
Qed.

(** The operands a front end builds: constants of their type and the first
    [N] registers. *)
Definition vop_ok (N : Z) (v : VOperand) : Prop :=
  match v with VConst t c => in_u 32 c /\ trunc t c = c | VGPR _ r => 0 <= r < N | _ => False end.
Lemma vop_ok_below N v : vop_ok N v -> below N v.
Proof. destruct v; cbn; lia. Qed.
Lemma vop_ok_le N M v : N <= M -> vop_ok N v -> vop_ok M v.
Proof. destruct v; cbn; try done; lia. Qed.
(** Where a front end writes: a virtual register or a field of [CPUState]. *)
Definition out_ok (N : Z) (d : VOperand) : Prop :=
  match d with VGPR _ r => 0 <= r < N | VSlot true _ _ => True | _ => False end.

Lemma state_regs_distinct r r' sr sr' :
  0 <= r -> 0 <= r' -> GetStateReg si r = Some sr -> GetStateReg si r' = Some sr' ->
  state_offs sr = state_offs sr' -> r = r'.
Proof.
  unfold GetStateReg. intros Hr Hr'. case_match; [|done]. case_match; [|done]. intros Es Es' Ho.
  apply Z2Nat.inj; [done..|].
  apply (NoDup_lookup (state_offs <$> si) _ _ (state_offs sr) Hsi); rewrite list_lookup_fmap.
  - by apply (fmap_Some_2 _ _ sr).
  - rewrite Ho. by apply (fmap_Some_2 _ _ sr').
Qed.

Lemma read_write t t' r r' x s s' :
  0 <= r -> 0 <= r' -> cpu_len (q_cpu s) -> write (VGPR t r) x s = Some s' ->
  read (VGPR t' r') s' = if bool_decide (r = r') then narrow t' (Some x) else read (VGPR t' r') s.
Proof.
  intros Hr Hr' Hl. cbn.
  destruct (GetStateReg si r) as [sr|] eqn:E.
  - intros H. apply fmap_Some in H as (c & Hc & ->). cbn.
    destruct (GetStateReg si r') as [sr'|] eqn:E'; cbn.
    + rewrite (cpu_read_write _ _ _ _ _ Hl Hc). do 2 case_bool_decide; try done.
      * by destruct (state_regs_distinct r r' sr sr').
      * subst r'. naive_solver.
    + case_bool_decide; [subst; congruence|done].
  - intros <-%(inj Some). destruct (GetStateReg si r') as [sr'|] eqn:E'; cbn.
    + case_bool_decide; [subst; congruence|done].
    + case_bool_decide; [subst; by rewrite lookup_insert_eq|by rewrite lookup_insert_ne].
Qed.

Lemma write_total d x y s s' : write d x s = Some s' -> is_Some (write d y s).
Proof.
  assert (Hc : forall c o, is_Some (cpu_write c o x) -> is_Some (cpu_write c o y)).
  { intros c o. unfold cpu_write. repeat case_match; try done; by eexists. }
  destruct d as [|t r|t r|[] t o|]; cbn; try done; try (by eexists);
    [destruct (GetStateReg si r); [|by eexists]|];
    intros H; apply fmap_is_Some, Hc; apply fmap_Some in H as (c & ? & _); by exists c.
Qed.

Lemma cpu_write_len c o x c' : cpu_len c -> cpu_write c o x = Some c' -> cpu_len c'.
Proof.
  unfold cpu_len, cpu_write. intros Hl H.
  repeat case_match; try done; apply (inj Some) in H as <-; cbn; [by rewrite length_insert|done].
Qed.

Lemma write_cpu_len d x s s' : cpu_len (q_cpu s) -> write d x s = Some s' -> cpu_len (q_cpu s').
Proof.
  destruct d as [|t r|t r|[] t o|]; cbn; try done; intros Hl H.
  - destruct (GetStateReg si r); [|by apply (inj Some) in H as <-].
    apply fmap_Some in H as (c & Hc & ->). by apply (cpu_write_len _ _ _ _ Hl Hc).
  - by apply (inj Some) in H as <-.
  - apply fmap_Some in H as (c & Hc & ->). by apply (cpu_write_len _ _ _ _ Hl Hc).
  - by apply (inj Some) in H as <-.
Qed.
End storage.

(** ** Selecting the operands of one instruction

    Opcodes and types: [mov] copies within a type, a store takes its data at
    the size of the access and is unsigned, everything else works on 32 bits. *)
Definition types_ok (i : Inst) : bool :=
  match i with
  | InstUnop op d v => bool_decide (type_of d = type_of v) && bool_decide (type_of d <> UNDEF) && InstUnop_HasOpcode op
  | InstVMLoad sz _ d p => bool_decide (type_of d = I32) && bool_decide (type_of p = I32) && bool_decide (sz <> UNDEF)
  | InstVMStore sz sgn p v =>
      bool_decide (type_of p = I32) && bool_decide (type_of v = sz) && bool_decide (sz <> UNDEF) &&
      match sgn with VSign_U => true | VSign_S => false end
  | InstBinop op d a b => forallb (fun v => bool_decide (type_of v = I32)) [a; b; d] && InstBinop_HasOpcode op
  | _ => forallb (fun v => bool_decide (type_of v = I32)) (inputs i ++ outputs i)
  end.

(** The passes put [mov]s in front of an instruction and change operands,
    nothing else. *)
Inductive expands : list Inst -> list Inst -> Prop :=
| exp_nil : expands [] []
| exp_cons ms i i' l l' :
    Forall (fun m => GetOpcode m = _mov) ms -> GetOpcode i' = GetOpcode i -> expands l l' ->
    expands (i :: l) (ms ++ i' :: l').

Lemma is_vgpr_true v r : is_vgpr v r = true -> exists t, v = VGPR t r.
Proof. unfold is_vgpr. intros. bool_to_prop. destruct v; cbn in *; try done. naive_solver. Qed.

Section select.
Context (si : StateInfo) (clob : Z -> option Z) (weaks : list bool) (Hsi : NoDup (state_offs <$> si)).
Notation read := (read_opnd si).
Notation write := (write_opnd si).
Notation run := (exec_list si clob weaks).
Notation exec := (exec_inst si clob weaks).
Notation sem := (sem si clob weaks).
Notation reads := (reads si).

Lemma qres_agree_trans N r1 r2 r3 : qres_agree N r1 r2 -> qres_agree N r2 r3 -> qres_agree N r1 r3.
Proof.
  destruct r1, r2; cbn; try done; destruct r3; cbn; try done;
    [intros; by eapply agree_trans|intros [-> ?] [-> ?]; split; [done|by eapply agree_trans]..| |];
    intros; by eapply agree_trans.
Qed.

Lemma agree_fresh N M x s : N <= M -> agree N s (q_set_loc M x s).
Proof. intros. split; try done. intros r Hr. cbn. rewrite lookup_insert_ne by lia. done. Qed.

Lemma fresh_local vr : glob_info vr = si -> GetStateReg si (NumAll vr) = None.
Proof.
  intros H. unfold GetStateReg, NumAll, NumGlobals, NumLocals. rewrite H.
  by destruct (Z.ltb_spec (Z.of_nat (length si) + Z.of_nat (length (loc_info vr))) (Z.of_nat (length si))); [lia|].
Qed.

Lemma AddLocal_spec vr t vr' r :
  AddLocal vr t = (vr', r) -> NumAll vr' <= 2 ^ 16 ->
  glob_info vr' = glob_info vr /\ NumAll vr' = NumAll vr + 1 /\ r = NumAll vr /\ 0 <= r.
Proof.
  unfold AddLocal, NumAll, NumLocals, NumGlobals. intros [= <- <-]. cbn.
  rewrite length_app. cbn. intros Hle. repeat split; try lia.
  - rewrite uN_id; unfold in_u; lia.
  - apply uN_range. lia.
Qed.

Lemma AddLocal_num vr t : NumAll (AddLocal vr t).1 = NumAll vr + 1.
Proof. unfold NumAll, NumLocals, NumGlobals. cbn. rewrite length_app. cbn. lia. Qed.

(** Selection only adds locals. *)
Definition vr_le (a b : VRegsInfo) : Prop := glob_info a = glob_info b /\ loc_info a `prefix_of` loc_info b.
Lemma vr_le_refl a : vr_le a a.
Proof. by split. Qed.
Lemma vr_le_trans a b c : vr_le a b -> vr_le b c -> vr_le a c.
Proof. intros [? ?] [? ?]. split; [congruence|by etrans]. Qed.
Lemma vr_le_AddLocal vr t : vr_le vr (AddLocal vr t).1.
Proof. split; [done|]. by apply prefix_app_r. Qed.
Lemma vr_le_num a b : vr_le a b -> NumAll a <= NumAll b.
Proof. intros [Hg [k Hk]]. unfold NumAll, NumGlobals, NumLocals. rewrite Hg, Hk, length_app. lia. Qed.

Lemma sel_const_mono ct dn i st st' : sel_const ct dn i st = Some st' -> vr_le (sel_vr st) (sel_vr st').
Proof.
  unfold sel_const. intros H. apply bind_Some in H as (c & _ & H). apply bind_Some in H as (v & _ & H).
  destruct v; try (apply (inj Some) in H as <-; apply vr_le_refl).
  case_match; apply (inj Some) in H as <-; [apply vr_le_refl|]. apply (vr_le_AddLocal (sel_vr st) t).
Qed.

Lemma sel_alias_mono ct dstl i st st' : sel_alias ct dstl i st = Some st' -> vr_le (sel_vr st) (sel_vr st').
Proof.
  unfold sel_alias. intros H. apply bind_Some in H as (c & _ & H).
  destruct (negb (has_alias c)); [apply (inj Some) in H as <-; apply vr_le_refl|].
  apply bind_Some in H as (v & _ & H). apply bind_Some in H as (d & _ & H).
  apply bind_Some in H as (r & _ & H).
  destruct (is_vgpr v r); [apply (inj Some) in H as <-; apply vr_le_refl|].
  destruct (existsb _ _); apply (inj Some) in H as <-; [|apply vr_le_refl].
  apply (vr_le_AddLocal (sel_vr st) (type_of d)).
Qed.

Lemma sel_loop_mono f is_ st st' :
  (forall i st st', f i st = Some st' -> vr_le (sel_vr st) (sel_vr st')) ->
  sel_loop f is_ st = Some st' -> vr_le (sel_vr st) (sel_vr st').
Proof.
  intros Hf. revert st. induction is_ as [|i is_ IH]; intros st H.
  - apply (inj Some) in H as <-. apply vr_le_refl.
  - cbn in H. apply bind_Some in H as (st1 & H1 & H). apply Hf in H1. apply IH in H.
    by eapply vr_le_trans.
Qed.

(** The state of the selection of [ins]: the movs so far run from [s'] to
    [s1], where the selected inputs hold the values [vals] of the original
    ones and the instruction does what it does in [s]. *)
Record sel_inv (N : Z) (ins : Inst) (s s' : qstate) (vals : list Z) (st : SelState) (s1 : qstate) : Prop := {
  si_glob : glob_info (sel_vr st) = si;
  si_num : N <= NumAll (sel_vr st);
  si_run : run (sel_movs st) s' = QNext s1;
  si_src : Forall (vop_ok (NumAll (sel_vr st))) (sel_src st);
  si_vals : reads (sel_src st) s1 = Some vals;
  si_sem : qres_agree N (sem ins vals s) (sem ins vals s1) }.

Lemma reads_insert vs s vals i v x :
  reads vs s = Some vals -> vals !! i = Some x -> read v s = Some x ->
  reads (<[i := v]> vs) s = Some vals.
Proof.
  unfold reads. rewrite !mapM_Some. intros Hf Hi Hv.
  rewrite <- (list_insert_id vals i x Hi). by apply Forall2_insert.
Qed.

Lemma reads_lookup vs s vals i v :
  reads vs s = Some vals -> vs !! i = Some v -> exists x, vals !! i = Some x /\ read v s = Some x.
Proof. unfold reads. rewrite mapM_Some. intros Hf Hi. destruct (Forall2_lookup_l _ _ _ _ _ Hf Hi) as (x & ? & ?). eauto. Qed.

Lemma run_snoc l i s s1 : run l s = QNext s1 -> run (l ++ [i]) s = exec i s1.
Proof. intros H. rewrite exec_list_app, H. cbn. by destruct (exec i s1). Qed.

Lemma sel_const_inv N ins s s' vals ct dn i st st' s1 :
  (forall t, ins = InstGBr t -> below N t) ->
  sel_const ct dn i st = Some st' -> NumAll (sel_vr st') <= 2 ^ 16 ->
  sel_inv N ins s s' vals st s1 -> exists s2, sel_inv N ins s s' vals st' s2.
Proof.
  intros Hg H Hb [Hgl Hn Hr Hs Hv Hsem]. unfold sel_const in H.
  apply bind_Some in H as (c & _ & H). apply bind_Some in H as (v & Hi & H).
  destruct v as [t k| | | |]; try (apply (inj Some) in H as <-; exists s1; done).
  destruct (_ && _); [apply (inj Some) in H as <-; exists s1; done|].
  unfold sel_tmp in H. destruct (AddLocal (sel_vr st) t) as [vr2 r] eqn:E.
  apply (inj Some) in H as <-. cbn in Hb.
  destruct (AddLocal_spec _ _ _ _ E Hb) as (Hg2 & Hn2 & Er & Hr0).
  assert (Hfr : GetStateReg si r = None) by (rewrite Er; by apply fresh_local).
  assert (Hag : agree (NumAll (sel_vr st)) s1 (q_set_loc r k s1)) by (apply agree_fresh; lia).
  exists (q_set_loc r k s1). destruct (reads_lookup _ _ _ _ _ Hv Hi) as (x & Hx & [= <-]).
  split; cbn.
  - congruence.
  - lia.
  - rewrite (run_snoc _ _ _ _ Hr). cbn. by rewrite Hfr.
  - apply Forall_insert; [|cbn; lia]. eapply Forall_impl; [done|]. intros w. apply vop_ok_le. lia.
  - apply (reads_insert _ _ _ _ _ k); [|done|].
    + rewrite <- Hv. symmetry. eapply reads_agree; [done|].
      eapply Forall_impl; [done|]. intros w. apply vop_ok_below.
    + pose proof (Forall_lookup_1 _ _ _ _ Hs Hi) as Hk. cbn in Hk |- *.
      destruct Hk as [_ Hk]. by rewrite Hfr, lookup_insert_eq, narrow_Some, Hk.
  - eapply qres_agree_trans; [done|]. apply sem_agree; [|done]. by eapply agree_le.
Qed.

Lemma sel_consts_inv N ins s s' vals ct dn is_ st st' s1 :
  (forall t, ins = InstGBr t -> below N t) ->
  sel_loop (sel_const ct dn) is_ st = Some st' -> NumAll (sel_vr st') <= 2 ^ 16 ->
  sel_inv N ins s s' vals st s1 -> exists s2, sel_inv N ins s s' vals st' s2.
Proof.
  intros Hg. revert st s1. induction is_ as [|i is_ IH]; intros st s1 H Hb Hi.
  - apply (inj Some) in H as <-. by exists s1.
  - cbn in H. apply bind_Some in H as (st1 & H1 & H).
    pose proof (vr_le_num _ _ (sel_loop_mono _ _ _ _ (sel_const_mono ct dn) H)).
    destruct (sel_const_inv N ins s s' vals _ _ _ _ _ _ Hg H1 ltac:(lia) Hi) as [s2 H2].
    by apply (IH st1 s2).
Qed.

(** *** Aliases *)
Lemma alias_table op c :
  op_ct op = Some c ->
  if InstBinop_HasOpcode op then
    exists c0 c1 c2, ic_ct c = [c0; c1; c2] /\ has_alias c1 = true /\ alias c1 = 0%nat /\ has_alias c2 = false
  else Forall (fun x => has_alias x = false) (ic_ct c) /\ length (ic_ct c) = (n_out op + n_in op)%nat.
Proof.
  destruct op; cbn [op_ct]; intros H; try done; apply (inj Some) in H as <-; cbn -[ic_ct].
  all: first [ eexists _, _, _; split; [reflexivity|]; done
             | split; [repeat constructor|reflexivity] ].
Qed.

Lemma sel_alias_none ct dstl is_ st :
  Forall (fun x => has_alias x = false) ct -> Forall (fun i => length dstl + i < length ct)%nat is_ ->
  sel_loop (sel_alias ct dstl) is_ st = Some st.
Proof.
  intros Hct. induction 1 as [|i is_ Hi His IH]; [done|]. cbn [sel_loop].
  apply lookup_lt_is_Some in Hi as [c Hc].
  assert (sel_alias ct dstl i st = Some st) as ->; [|exact IH].
  unfold sel_alias. rewrite Hc. cbn. by rewrite (Forall_lookup_1 _ _ _ _ Hct Hc).
Qed.

(** The alias loop on a two-address operation [d = a op b]. *)
Lemma sel_alias_binop c0 c1 c2 vr d a b st :
  has_alias c1 = true -> alias c1 = 0%nat -> has_alias c2 = false ->
  sel_loop (sel_alias [c0; c1; c2] [d]) [0; 1]%nat (mkSel vr [] [a; b]) = Some st ->
  exists t r, d = VGPR t r /\
    let '(vr', k) := AddLocal vr t in
    st = if is_vgpr a r then mkSel vr [] [a; b]
         else if is_vgpr b r
         then mkSel vr' [InstUnop _mov (VGPR t k) d; InstUnop _mov d a] [d; VGPR t k]
         else mkSel vr [InstUnop _mov d a] [d; b].
Proof.
  intros H1 H2 H3. cbn. unfold sel_alias. cbn. rewrite H1, H2, H3. cbn.
  destruct d as [|t r| | |]; try done. cbn. intros H. exists t, r. split; [done|].
  destruct (is_vgpr a r); cbn in H; [by apply (inj Some) in H as <-|].
  destruct (is_vgpr b r); cbn in H; by apply (inj Some) in H as <-.
Qed.

(** Storing one input into the destination of a binop first changes neither
    the other values nor the effect. *)
Lemma binop_after_mov N op t r a b x y s s1 s2 :
  agree N s s1 -> write (VGPR t r) x s1 = Some s2 ->
  qres_agree N (sem (InstBinop op (VGPR t r) a b) [x; y] s)
               (sem (InstBinop op (VGPR t r) a b) [x; y] s2).
Proof.
  intros Ha Hw. cbn [QSelCorrect.sem]. destruct (eval_binop op x y) as [z|]; cbn [or_stuck]; [|done].
  rewrite (write_write si _ _ x z _ _ Hw). by apply wr_agree.
Qed.

Lemma reads_pair a b x y s :
  reads [a; b] s = Some [x; y] <-> read a s = Some x /\ read b s = Some y.
Proof.
  unfold reads. cbn. split.
  - intros H. apply bind_Some in H as (x' & Hx & H). apply bind_Some in H as (k & H & [= <- ->]).
    apply bind_Some in H as (y' & Hy & [= <-]). done.
  - by intros [-> ->].
Qed.

Lemma sel_alias_inv N op t r a b s s' x y vr st :
  t = I32 -> type_of b = I32 -> glob_info vr = si -> N <= NumAll vr -> cpu_len (q_cpu s) ->
  0 <= r < N -> vop_ok N a -> vop_ok N b ->
  agree N s s' -> reads [a; b] s = Some [x; y] -> is_Some (write (VGPR t r) x s) ->
  NumAll (sel_vr st) <= 2 ^ 16 ->
  (let '(vr', k) := AddLocal vr t in
   st = if is_vgpr a r then mkSel vr [] [a; b]
        else if is_vgpr b r
        then mkSel vr' [InstUnop _mov (VGPR t k) (VGPR t r); InstUnop _mov (VGPR t r) a] [VGPR t r; VGPR t k]
        else mkSel vr [InstUnop _mov (VGPR t r) a] [VGPR t r; b]) ->
  exists s1, sel_inv N (InstBinop op (VGPR t r) a b) s s' [x; y] st s1.
Proof.
  intros -> Htb Hgl HN Hl Hr Ha Hb Hag Hrd Hwr HM Hst.
  assert (Hs' : reads [a; b] s' = Some [x; y]).
  { rewrite <- Hrd. symmetry. eapply reads_agree; [done|]. repeat constructor; by apply vop_ok_below. }
  assert (Hl' : cpu_len (q_cpu s')) by (unfold cpu_len; by rewrite <- (ag_cpu _ _ _ Hag)).
  apply reads_pair in Hs' as [Hxa Hyb].
  assert (Hwrite : forall z s1, agree N s s1 -> is_Some (write (VGPR I32 r) z s1)).
  { intros z s1 H1. destruct Hwr as [sw Hwr]. destruct (write_total si _ x z _ _ Hwr) as [sz Hz].
    pose proof (write_agree si N (VGPR I32 r) z s s1 H1) as Hw. rewrite Hz in Hw.
    destruct (write (VGPR I32 r) z s1); [by eexists|done]. }
  destruct (AddLocal vr I32) as [vr' k] eqn:E.
  destruct (is_vgpr a r) eqn:Ea; [|destruct (is_vgpr b r) eqn:Eb]; subst st; cbn in HM.
  - exists s'. split; cbn; try done.
    + repeat constructor; eapply vop_ok_le; done.
    + by apply reads_pair.
    + apply (sem_agree si clob weaks N (InstBinop op (VGPR I32 r) a b) [x; y] s s' Hag). done.
  - destruct (AddLocal_spec _ _ _ _ E HM) as (Hg2 & Hn2 & Ek & Hk0).
    assert (Hfr : GetStateReg si k = None) by (rewrite Ek; by apply fresh_local).
    apply is_vgpr_true in Eb as [tb ->]. cbn in Htb. subst tb.
    assert (Hag1 : agree N s' (q_set_loc k y s')) by (apply agree_fresh; lia).
    destruct (Hwrite x (q_set_loc k y s')) as [s2 Hs2]; [by eapply agree_trans|].
    assert (Hra : read a (q_set_loc k y s') = Some x).
    { rewrite <- (read_agree si N a s' _ Hag1); [done|by apply vop_ok_below]. }
    exists s2. split; cbn [sel_vr sel_movs sel_src].
    + congruence.
    + lia.
    + assert (E1 : exec (InstUnop _mov (VGPR I32 k) (VGPR I32 r)) s' = QNext (q_set_loc k y s')).
      { cbn. cbn in Hyb. rewrite Hyb. cbn. by rewrite Hfr. }
      cbn [exec_list]. rewrite E1.
      assert (E2 : exec (InstUnop _mov (VGPR I32 r) a) (q_set_loc k y s') = QNext s2).
      { cbn [exec_inst InstUnop_HasOpcode]. cbn [andb]. rewrite Hra. cbn [or_stuck].
        by rewrite Hs2. }
      by rewrite E2.
    + repeat constructor; cbn; lia.
    + apply reads_pair. split.
      * rewrite (read_write si Hsi I32 I32 r r x (q_set_loc k y s') s2 ltac:(lia) ltac:(lia) Hl' Hs2). by rewrite bool_decide_true.
      * rewrite (read_write si Hsi I32 I32 r k x (q_set_loc k y s') s2 ltac:(lia) ltac:(lia) Hl' Hs2).
        rewrite bool_decide_false by lia. cbn. rewrite Hfr. by rewrite lookup_insert_eq.
    + eapply binop_after_mov; [|exact Hs2]. by eapply agree_trans.
  - destruct (Hwrite x s' Hag) as [s2 Hs2]. exists s2. split; cbn [sel_vr sel_movs sel_src]; try done.
    + cbn [exec_list exec_inst InstUnop_HasOpcode]. cbn [andb].
      rewrite Hxa. cbn [or_stuck]. by rewrite Hs2.
    + apply Forall_cons; split; [cbn; lia|]. apply Forall_singleton. by eapply vop_ok_le.
    + apply reads_pair. split.
      * rewrite (read_write si Hsi I32 I32 r r x _ _ ltac:(lia) ltac:(lia) Hl' Hs2). by rewrite bool_decide_true.
      * destruct b as [|tb rb| | |]; try done.
        rewrite (read_write si Hsi I32 tb r rb x _ _ ltac:(lia) ltac:(cbn in Hb; lia) Hl' Hs2).
        rewrite bool_decide_false; [done|]. intros ->. unfold is_vgpr in Eb. bool_to_prop. done.
    + eapply binop_after_mov; [|exact Hs2]. done.
Qed.

(** *** The instruction put in place of [ins] *)
Lemma SelectOperands_sim N vr ins vr' movs ins' s s' :
  SelectOperands vr ins = Some (vr', movs, ins') -> inst_ok ins = true ->
  Forall (out_ok N) (outputs ins) -> Forall (vop_ok N) (inputs ins) ->
  glob_info vr = si -> N <= NumAll vr -> NumAll vr' <= 2 ^ 16 ->
  types_ok ins = true -> cpu_len (q_cpu s) -> agree N s s' -> exec ins s <> QStuck ->
  qres_agree N (exec ins s) (run (movs ++ [ins']) s').
Proof.
  intros H Hok Hout Hin Hgl HN HM Hty Hl Hag Hns. unfold SelectOperands in H.
  apply bind_Some in H as (c & Hc & H). apply bind_Some in H as (st1 & H1 & H).
  apply bind_Some in H as (st2 & H2 & H). apply (inj Some) in H.
  injection H as <- <- <-.
  rewrite exec_sem in Hns. rewrite exec_sem.
  destruct (reads (inputs ins) s) as [vals|] eqn:Hrd; [|done].
  pose proof (length_mapM _ _ _ Hrd) as Hlr.
  assert (Hg : forall t, ins = InstGBr t -> below N t) by (intros [] ->; done).
  pose proof (vr_le_num _ _ (sel_loop_mono _ _ _ _ (sel_const_mono _ _) H2)) as Hmono.
  assert (Hinv : exists s1, sel_inv N ins s s' vals st1 s1).
  { pose proof (alias_table _ _ Hc) as Ht. destruct (InstBinop_HasOpcode (GetOpcode ins)) eqn:Eop.
    - destruct ins as [| | | | | | | |[]|op d a b]; try done.
      cbn [inputs outputs GetOpcode length seq] in *.
      destruct Ht as (c0 & c1 & c2 & Ect & Ha1 & Ha2 & Ha3). rewrite Ect in H1.
      destruct (sel_alias_binop c0 c1 c2 vr d a b st1 Ha1 Ha2 Ha3 H1) as (t & r & -> & Hst).
      apply Forall_cons in Hin as [Hva Hin]. apply Forall_inv in Hin, Hout.
      assert (exists x y, vals = [x; y]) as (x & y & ->).
      { destruct vals as [|x [|y [|]]]; try done. eauto. }
      cbn in Hty. bool_to_prop.
      apply (sel_alias_inv N op t r a b s s' x y vr st1); try done; [|lia].
      cbn [QSelCorrect.sem] in Hns. destruct (eval_binop op x y) as [z|]; [|done]. cbn [or_stuck] in Hns.
      destruct (write (VGPR t r) z s) eqn:Ew; [|done]. by apply (write_total si _ z x _ _ Ew).
    - destruct Ht as [Ht Hlen]. rewrite sel_alias_none in H1; [|done|].
      + apply (inj Some) in H1 as <-. exists s'. split; cbn; try done.
        * eapply Forall_impl; [done|]. intros w. by apply vop_ok_le.
        * rewrite <- Hrd. symmetry. eapply reads_agree; [done|].
          eapply Forall_impl; [done|]. intros w. apply vop_ok_below.
        * by apply sem_agree.
      + apply Forall_forall. intros i Hi. apply elem_of_seq in Hi.
        destruct (operand_counts ins Hok). lia. }
  destruct Hinv as [s1 Hinv].
  destruct (sel_consts_inv N ins s s' vals _ _ _ _ _ _ Hg H2 HM Hinv) as [s2 [_ _ Hr _ Hv Hsem]].
  rewrite (run_snoc _ _ _ _ Hr), exec_sem.
  assert (Hlen : length (sel_src st2) = length (inputs ins)).
  { apply length_mapM in Hv. lia. }
  rewrite inputs_set_inputs by done. rewrite Hv.
  by rewrite sem_set_inputs.
Qed.
End select.

(** ** Register file size through execution *)
Definition keeps_len {A} (c : Hm A) : Prop :=
  triple (fun σ => cpu_len (h_cpu σ)) c (fun _ σ => cpu_len (h_cpu σ)) (fun σ => cpu_len (h_cpu σ)).

Lemma kl_bind {A B} (c : Hm A) (k : A -> Hm B) :
  keeps_len c -> (forall a, keeps_len (k a)) -> keeps_len (c ≫= k).
Proof. intros. by eapply triple_bind. Qed.
Lemma kl_if {A} (b : bool) (c1 c2 : Hm A) :
  keeps_len c1 -> keeps_len c2 -> keeps_len (if b then c1 else c2).
Proof. by destruct b. Qed.
Lemma kl_ret {A} (a : A) : keeps_len (mret a).
Proof. by apply triple_ret. Qed.
Lemma kl_undef {A} : keeps_len (h_undefined : Hm A).
Proof. by intros ? _. Qed.
Lemma kl_GPR r : keeps_len (GPR r).
Proof. by intros σ H. Qed.
Lemma kl_GIP : keeps_len GET_GIP.
Proof. by intros σ H. Qed.
Lemma kl_SET_GPR r v : keeps_len (SET_GPR r v).
Proof. intros σ H. hunfold. unfold cpu_len in *. cbn. by rewrite length_insert. Qed.
Lemma kl_SET_GIP v : keeps_len (SET_GIP v).
Proof. by intros σ H. Qed.
Lemma kl_STATE_IP : keeps_len STATE_IP_GIP.
Proof. by intros σ H. Qed.
Lemma kl_RAISE t : keeps_len (RAISE_TRAP t).
Proof. by intros σ H. Qed.
Lemma kl_RaiseTrap {A} : keeps_len (RaiseTrap : Hm A).
Proof. by intros σ H. Qed.
Lemma kl_load T a : keeps_len (load_mem T a).
Proof. apply load_mem_triple. Qed.
Lemma kl_store T a v : keeps_len (store_mem T a v).
Proof. intros σ H. unfold store_mem. by destruct (unaligned_store _ _ _ _). Qed.

Ltac kl_step :=
  cbv beta match;
  lazymatch goal with
  | |- forall _, _ => intros
  | |- keeps_len (_ ≫= _) => apply kl_bind
  | |- keeps_len (if _ then _ else _) => apply kl_if
  | |- keeps_len (mret _) => apply kl_ret
  | |- keeps_len h_undefined => apply kl_undef
  | |- keeps_len (GPR _) => apply kl_GPR
  | |- keeps_len GET_GIP => apply kl_GIP
  | |- keeps_len (SET_GPR _ _) => apply kl_SET_GPR
  | |- keeps_len (SET_GIP _) => apply kl_SET_GIP
  | |- keeps_len STATE_IP_GIP => apply kl_STATE_IP
  | |- keeps_len (RAISE_TRAP _) => apply kl_RAISE
  | |- keeps_len RaiseTrap => apply kl_RaiseTrap
  | |- keeps_len (load_mem _ _) => apply kl_load
  | |- keeps_len (store_mem _ _ _) => apply kl_store
  | |- keeps_len (match ?p with (_, _) => _ end) => destruct p
  end.

Lemma kl_amomax weaks a cur rhs : keeps_len (amomax_loop weaks a cur rhs).
Proof.
  revert cur. induction weaks as [|w weaks IH]; intros cur; rewrite amomax_loop_eq;
    unfold compare_exchange_weak; repeat kl_step; apply IH.
Qed.

Lemma kl_ApplyInsnA h i : (forall mo, keeps_len (h mo)) -> keeps_len (ApplyInsnA h i).
Proof. intros Hh. unfold ApplyInsnA. cbn [switch]. repeat (apply kl_if; [apply Hh|]). apply kl_undef. Qed.

Lemma kl_Handler weaks op i : keeps_len (Handler weaks op i).
Proof.
  assert (HI : keeps_len (Impl weaks op i)).
  { destruct op; cbn [Impl];
      unfold HANDLER_Unimpl, HANDLER_BCC, HANDLER_Load, HANDLER_Store, HANDLER_ArithmRR,
        HANDLER_ArithmRI, Impl_lui, Impl_auipc, Impl_jal, Impl_jalr, Impl_slli, Impl_srai, Impl_srli,
        Impl_sll, Impl_sra, Impl_srl, Impl_ecall, Impl_ebreak, Impl_lrw, Impl_scw, Impl_amoswapw,
        Impl_amoaddw, Impl_amomaxuw, atomic_ref, atomic_exchange, atomic_fetch_add;
      lazymatch goal with
      | |- keeps_len (ApplyInsnA _ _) => apply kl_ApplyInsnA; intros []
      | _ => idtac
      end; cbn [atomic_load atomic_store]; repeat kl_step; apply kl_amomax. }
  unfold Handler. repeat kl_step. exact HI.
Qed.

(** ** Selecting a region *)

(** Instructions as the translator builds them: virtual registers below [N]
    and constants as inputs; a two-address operation writes a register. *)
Record inst_wf (N : Z) (i : Inst) : Prop := {
  iw_ok : inst_ok i = true;
  iw_in : Forall (vop_ok N) (inputs i);
  iw_out : Forall (out_ok N) (outputs i);
  iw_binop : forall op d a b, i = InstBinop op d a b -> is_Some (vreg_of d);
  iw_types : types_ok i = true }.
Definition region_wf (rn : Region) : Prop :=
  NoDup (state_offs <$> glob_info (vregs_info rn)) /\
  Forall (fun b => Forall (fun n => inst_wf (NumAll (vregs_info rn)) (n_inst n)) (ilist b)) (blist rn).

Lemma QSel_visit_mono vr ins vr' movs ins' : QSel_visit vr ins = Some (vr', movs, ins') -> vr_le vr vr'.
Proof.
  assert (HS : SelectOperands vr ins = Some (vr', movs, ins') -> vr_le vr vr').
  { unfold SelectOperands. intros H. apply bind_Some in H as (c & _ & H).
    apply bind_Some in H as (st1 & H1 & H). apply bind_Some in H as (st2 & H2 & H).
    apply (inj Some) in H. injection H as <- <- <-.
    apply sel_loop_mono in H1; [|apply sel_alias_mono].
    apply sel_loop_mono in H2; [|apply sel_const_mono]. by eapply vr_le_trans. }
  destruct ins; cbn [QSel_visit]; try exact HS; intros [= <- <- <-]; apply vr_le_refl.
Qed.

Lemma QSel_nodes_mono vr id hc l vr' id' hc' l' :
  QSel_nodes vr id hc l = Some (vr', id', hc', l') -> vr_le vr vr'.
Proof.
  revert vr id hc vr' id' hc' l'. induction l as [|n l IH]; intros vr id hc vr' id' hc' l'; cbn.
  - intros [= <- <- <- <-]. apply vr_le_refl.
  - intros H. apply bind_Some in H as ([[vr1 movs] ins1] & H1 & H).
    apply bind_Some in H as ([[[vr2 id2] hc2] l2] & H2 & [= <- <- <- <-]).
    eapply vr_le_trans; [by eapply QSel_visit_mono|by eapply IH].
Qed.

Lemma QSel_blocks_mono vr id hc l vr' id' hc' l' :
  QSel_blocks vr id hc l = Some (vr', id', hc', l') -> vr_le vr vr'.
Proof.
  revert vr id hc vr' id' hc' l'. induction l as [|n l IH]; intros vr id hc vr' id' hc' l'; cbn.
  - intros [= <- <- <- <-]. apply vr_le_refl.
  - intros H. apply bind_Some in H as ([[[vr1 id1] hc1] l1] & H1 & H).
    apply bind_Some in H as ([[[vr2 id2] hc2] l2] & H2 & [= <- <- <- <-]).
    eapply vr_le_trans; [by eapply QSel_nodes_mono|by eapply IH].
Qed.

Lemma n_inst_number id l : n_inst <$> number id l = l.
Proof. revert id. induction l as [|i l IH]; intros id; [done|]. cbn. f_equal. apply IH. Qed.

Section region.
Context (si : StateInfo) (clob : Z -> option Z) (weaks : list bool) (Hsi : NoDup (state_offs <$> si)).
Notation run := (exec_list si clob weaks).
Notation exec := (exec_inst si clob weaks).

(** The register file keeps its size wherever execution goes on. *)
Definition res_len (r : qres) : Prop :=
  match r with QNext s | QJump _ s => cpu_len (q_cpu s) | _ => True end.

Lemma exec_res_len i s :
  cpu_len (q_cpu s) -> res_len (exec i s).
Proof.
  intros Hl. rewrite exec_sem. destruct (reads _ _ _) as [vals|]; [|done].
  assert (Hw : forall d x, res_len (or_stuck (write_opnd si d x s) QNext)).
  { intros d x. destruct (write_opnd si d x s) eqn:E; [|done]. by apply (write_cpu_len si _ _ _ _ Hl E). }
  destruct i, vals as [|a [|b [|? ?]]]; cbn [sem]; try done; try by apply Hw.
  - unfold exec_hcall. destruct (stub_rv32 stub) as [op|]; [|done]. unfold qcgstub_rv32.
    pose proof (kl_Handler weaks op a (mkH (q_cpu s) (ip (q_cpu s)) (q_mem s)) Hl) as HH.
    by destruct (Handler _ _ _ _).
  - by destruct (read_opnd _ _ _).
  - destruct (access_ity _ _); [|done]. cbn [or_stuck]. destruct (unaligned_load _ _ _); [by apply Hw|done].
  - destruct (access_ity _ _); [|done]. cbn [or_stuck]. by destruct (unaligned_store _ _ _ _).
  - destruct (InstUnop_HasOpcode _); [by apply Hw|done].
  - destruct (eval_binop _ _ _); [by apply Hw|done].
Qed.

Lemma QSel_visit_sim N vr ins vr' movs ins' s s' :
  QSel_visit vr ins = Some (vr', movs, ins') -> inst_wf N ins ->
  glob_info vr = si -> N <= NumAll vr -> NumAll vr' <= 2 ^ 16 ->
  cpu_len (q_cpu s) -> agree N s s' -> exec ins s <> QStuck ->
  qres_agree N (exec ins s) (run (movs ++ [ins']) s').
Proof.
  intros H [Hok Hin Hout _ Hty] Hgl HN HM Hl Hag Hns.
  assert (Hid : qres_agree N (exec ins s) (run ([] ++ [ins]) s')).
  { cbn. assert (exec ins s' = match exec ins s' with QNext s'' => QNext s'' | r => r end) as <-
      by (by destruct (exec ins s')).
    rewrite !exec_sem. rewrite <- (reads_agree si N _ s s' Hag).
    - destruct (reads _ _ _); [|done]. apply sem_agree; [done|]. by intros [] ->.
    - eapply Forall_impl; [done|]. intros w. apply vop_ok_below. }
  destruct ins; cbn [QSel_visit] in H;
    first [ by eapply SelectOperands_sim | injection H as <- <- <-; exact Hid ].
Qed.

Lemma QSel_nodes_sim N vr id hc l vr' id' hc' l' s s' :
  QSel_nodes vr id hc l = Some (vr', id', hc', l') ->
  Forall (fun n => inst_wf N (n_inst n)) l ->
  glob_info vr = si -> N <= NumAll vr -> NumAll vr' <= 2 ^ 16 ->
  cpu_len (q_cpu s) -> agree N s s' -> run (n_inst <$> l) s <> QStuck ->
  qres_agree N (run (n_inst <$> l) s) (run (n_inst <$> l') s') /\ res_len (run (n_inst <$> l) s).
Proof.
  revert vr id hc vr' id' hc' l' s s'.
  induction l as [|n l IH]; intros vr id hc vr' id' hc' l' s s' H Hwf Hgl HN HM Hl Hag Hns; cbn in H.
  - injection H as <- <- <- <-. done.
  - apply bind_Some in H as ([[vr1 movs] ins1] & H1 & H).
    apply bind_Some in H as ([[[vr2 id2] hc2] l2] & H2 & [= <- <- <- <-]).
    apply Forall_cons in Hwf as [Hn Hwf].
    pose proof (QSel_visit_mono _ _ _ _ _ H1) as [Hg1 Hm1%(conj Hg1)%vr_le_num].
    pose proof (QSel_nodes_mono _ _ _ _ _ _ _ _ H2) as [Hg2 Hm2%(conj Hg2)%vr_le_num].
    assert (Hns1 : exec (n_inst n) s <> QStuck).
    { intros E. apply Hns. cbn. by rewrite E. }
    pose proof (QSel_visit_sim N _ _ _ _ _ s s' H1 Hn Hgl HN ltac:(lia) Hl Hag Hns1) as Hv.
    pose proof (exec_res_len (n_inst n) s Hl) as Hl1.
    rewrite fmap_app, n_inst_number, !fmap_cons. cbn [n_inst].
    rewrite (cons_middle ins1), app_assoc, exec_list_app.
    cbn [fmap list_fmap exec_list] in Hns |- *.
    destruct (exec (n_inst n) s) as [s1| | | | | |], (run (movs ++ [ins1]) s') as [s1'| | | | | |];
      cbn in Hv; try done.
    by eapply (IH vr1); [exact H2| | | | | | |]; try done; congruence || lia.
Qed.

(** Block [k] of the result is the selection of block [k]. *)
Lemma QSel_blocks_lookup vr id hc bs vr' id' hc' bs' k b :
  QSel_blocks vr id hc bs = Some (vr', id', hc', bs') -> bs !! k = Some b ->
  exists vr1 id1 hc1 vr2 id2 hc2 l, QSel_nodes vr1 id1 hc1 (ilist b) = Some (vr2, id2, hc2, l) /\
    bs' !! k = Some (mkBlock l (succs b) (preds b)) /\ vr_le vr vr1 /\ vr_le vr2 vr'.
Proof.
  revert vr id hc vr' id' hc' bs' k.
  induction bs as [|b0 bs IH]; intros vr id hc vr' id' hc' bs' k H Hk; [done|]. cbn in H.
  apply bind_Some in H as ([[[vr1 id1] hc1] l1] & H1 & H).
  apply bind_Some in H as ([[[vr2 id2] hc2] l2] & H2 & [= <- <- <- <-]).
  pose proof (QSel_nodes_mono _ _ _ _ _ _ _ _ H1). pose proof (QSel_blocks_mono _ _ _ _ _ _ _ _ H2).
  destruct k as [|k]; cbn in Hk.
  - injection Hk as ->. by exists vr, id, hc, vr1, id1, hc1, l1; split_and!; try apply vr_le_refl.
  - destruct (IH _ _ _ _ _ _ _ _ H2 Hk) as (a & ? & ? & ? & ? & ? & l & ? & ? & ? & ?).
    eexists a, _, _, _, _, _, l. split_and!; try done. by eapply vr_le_trans.
Qed.

Lemma QSel_blocks_none vr id hc bs vr' id' hc' bs' :
  QSel_blocks vr id hc bs = Some (vr', id', hc', bs') -> length bs' = length bs.
Proof.
  revert vr id hc vr' id' hc' bs'. induction bs as [|b0 bs IH]; intros vr id hc vr' id' hc' bs'; cbn.
  - by intros [= <- <- <- <-].
  - intros H. apply bind_Some in H as ([[[vr1 id1] hc1] l1] & H1 & H).
    apply bind_Some in H as ([[[vr2 id2] hc2] l2] & H2 & [= <- <- <- <-]). cbn. f_equal. by eapply IH.
Qed.

Lemma QSel_region_sim rn rn' hc fuel b s s' :
  let N := NumAll (vregs_info rn) in
  glob_info (vregs_info rn) = si ->
  Forall (fun b => Forall (fun n => inst_wf N (n_inst n)) (ilist b)) (blist rn) ->
  QSelPass_run rn = Some (rn', hc) -> NumAll (vregs_info rn') <= 2 ^ 16 ->
  cpu_len (q_cpu s) -> agree N s s' ->
  region_rel (qres_agree N) (exec_region si clob weaks fuel rn b s) (exec_region si clob weaks fuel rn' b s').
Proof.
  intros N Hgl Hwf H HM. unfold QSelPass_run in H.
  apply bind_Some in H as ([[[vr1 id1] hc1] bs1] & H & [= <- <-]). cbn in HM.
  revert b s s'. induction fuel as [|fuel IH]; intros b s s' Hl Hag; [done|].
  cbn [exec_region blist]. destruct (blist rn !! b) as [bb|] eqn:Eb; [|done]. unfold exec_block.
  destruct (qres_stuck_dec (run (n_inst <$> ilist bb) s)) as [->|Hns1]; [done|].
  destruct (QSel_blocks_lookup _ _ _ _ _ _ _ _ _ _ H Eb)
    as (va & ia & ha & vb & ib & hb & l & Hn & -> & [Hg1 Hle1%(conj Hg1)%vr_le_num] & [Hg2 Hle2%(conj Hg2)%vr_le_num]).
  destruct (QSel_nodes_sim N _ _ _ _ _ _ _ _ s s' Hn (Forall_lookup_1 _ _ _ _ Hwf Eb)
    ltac:(congruence) Hle1 ltac:(lia) Hl Hag Hns1) as [Hsim Hlen].
  cbn [ilist succs].
  destruct (run (n_inst <$> ilist bb) s) as [|k s1|t s1| | | |],
    (run (n_inst <$> l) s') as [|k' s1'|t' s1'| | | |]; cbn in Hsim; try done;
    try (by apply region_rel_Some).
  destruct Hsim as [<- Hag1]. destruct (succs bb !! k) as [b1|]; [|done]. by apply IH.
Qed.
End region.

Lemma QSelPass_sim rn rn' hc clob weaks fuel b s :
  region_wf rn -> QSelPass_run rn = Some (rn', hc) -> NumAll (vregs_info rn') <= 2 ^ 16 ->
  cpu_len (q_cpu s) ->
  region_rel (qres_agree (NumAll (vregs_info rn))) (exec_region (glob_info (vregs_info rn)) clob weaks fuel rn b s)
    (exec_region (glob_info (vregs_info rn)) clob weaks fuel rn' b s).
Proof.
  intros [Hsi Hwf] H HM Hl. by eapply QSel_region_sim.
Qed.

(** C6 Operand selection preserves behaviour: whatever a well-formed region
    does from one of its blocks, the region that [QSelPass] leaves does with
    the same number of block entries: it goes on as long, and it ends in the
    same guest state, memory, physical registers and frame; only temporaries
    the pass added may differ.  The bound is the width of a register number. *)
Theorem QSelPass_correct rn rn' hc clob weaks fuel b s :
  region_wf rn -> QSelPass_run rn = Some (rn', hc) -> NumAll (vregs_info rn') <= 2 ^ 16 ->
  cpu_len (q_cpu s) ->
  region_rel (qres_agree (NumAll (vregs_info rn))) (exec_region (glob_info (vregs_info rn)) clob weaks fuel rn b s)
    (exec_region (glob_info (vregs_info rn)) clob weaks fuel rn' b s).
Proof. apply QSelPass_sim. Qed.

(** ** The selected operands meet the constraints *)
Definition const_ok (c : RAOpCt) (v : VOperand) : bool :=
  match v with
  | VConst t k => negb (ci c =? CtImm_NO) && match_gp_const t k (ci c)
  | _ => true
  end.
Definition alias_ok (c : RAOpCt) (dstl : list VOperand) (v : VOperand) : bool :=
  negb (has_alias c) ||
  from_option (fun d => bool_decide (is_Some (vreg_of d) /\ vreg_of v = vreg_of d)) false (dstl !! alias c).
Definition meets_ct (i : Inst) : bool :=
  match op_ct (GetOpcode i) with
  | None => true
  | Some c =>
      forallb (fun k =>
        match ic_ct c !! (length (outputs i) + k)%nat, inputs i !! k with
        | Some x, Some v => alias_ok x (outputs i) v && const_ok x v
        | _, _ => false
        end) (seq 0 (length (inputs i)))
  end.

Lemma mov_meets d v : meets_ct (InstUnop _mov d v) = true.
Proof. by destruct v. Qed.

(** What one turn of the constant loop leaves. *)
Lemma sel_const_spec ct dn i vr movs src c v :
  ct !! (dn + i)%nat = Some c -> src !! i = Some v ->
  exists vr' movs' v', sel_const ct dn i (mkSel vr movs src) = Some (mkSel vr' (movs ++ movs') (<[i := v']> src)) /\
    Forall (fun m => meets_ct m = true) movs' /\ const_ok c v' = true /\
    (forall r, vreg_of v = Some r -> v' = v).
Proof.
  intros Hc Hv. unfold sel_const. rewrite Hc. cbn [mbind option_bind sel_src]. rewrite Hv.
  cbn [mbind option_bind]. destruct v as [t k| | | |].
  2-5: eexists vr, [], _; rewrite app_nil_r, (list_insert_id _ _ _ Hv); split_and!; done.
  destruct (negb (ci c =? CtImm_NO) && match_gp_const t k (ci c)) eqn:E.
  - exists vr, [], (VConst t k). by rewrite app_nil_r, (list_insert_id _ _ _ Hv).
  - eexists _, [_], _. split_and!; try done. apply Forall_singleton, mov_meets.
Qed.

Lemma sel_consts_spec ct dn n k vr movs src :
  length src = (k + n)%nat -> (dn + length src <= length ct)%nat ->
  exists vr' movs' src',
    sel_loop (sel_const ct dn) (seq k n) (mkSel vr movs src) = Some (mkSel vr' (movs ++ movs') src') /\
    length src' = length src /\ Forall (fun m => meets_ct m = true) movs' /\
    forall j, ((j < k)%nat -> src' !! j = src !! j) /\
      (forall v r, src !! j = Some v -> vreg_of v = Some r -> src' !! j = Some v) /\
      ((k <= j)%nat -> forall c v', ct !! (dn + j)%nat = Some c -> src' !! j = Some v' -> const_ok c v' = true).
Proof.
  revert k vr movs src. induction n as [|n IH]; intros k vr movs src Hlen Hct.
  - exists vr, [], src. rewrite app_nil_r. split_and!; try done. intros j. split_and!; try done.
    intros Hj c v' _ Hv. apply lookup_lt_Some in Hv. lia.
  - cbn [seq sel_loop].
    destruct (lookup_lt_is_Some_2 src k) as [v Hv]; [lia|].
    destruct (lookup_lt_is_Some_2 ct (dn + k)%nat) as [c Hc]; [lia|].
    destruct (sel_const_spec ct dn k vr movs src c v Hc Hv) as (vr1 & m1 & v1 & -> & Hm1 & Hok1 & Hk1).
    cbn [mbind option_bind].
    destruct (IH (S k) vr1 (movs ++ m1) (<[k := v1]> src)) as (vr2 & m2 & src2 & -> & Hl2 & Hm2 & HJ);
      [rewrite length_insert; lia..|].
    exists vr2, (m1 ++ m2), src2. rewrite app_assoc, Hl2, length_insert. split_and!; try done.
    { by apply Forall_app. }
    intros j. destruct (HJ j) as (Hlt & Hreg & Hge). split_and!.
    + intros Hj. rewrite Hlt by lia. apply list_lookup_insert_ne. lia.
    + intros w r Hw Hr. apply (Hreg w r); [|done]. destruct (decide (j = k)) as [->|].
      * rewrite list_lookup_insert_eq by lia. f_equal. assert (w = v) as -> by congruence. by apply (Hk1 r).
      * by rewrite list_lookup_insert_ne.
    + intros Hj c' v' Hc' Hv'. destruct (decide (j = k)) as [->|]; [|apply (Hge ltac:(lia) c'); done].
      rewrite Hlt, list_lookup_insert_eq in Hv' by lia. congruence.
Qed.

Lemma op_ct_length op c : op_ct op = Some c -> length (ic_ct c) = (n_out op + n_in op)%nat.
Proof. destruct op; cbn [op_ct]; intros H; try done; by apply (inj Some) in H as <-. Qed.

Lemma GetOpcode_set_inputs i vs : GetOpcode (set_inputs i vs) = GetOpcode i.
Proof. by destruct i, vs as [|? [|? [|? ?]]]. Qed.
Lemma outputs_set_inputs i vs : outputs (set_inputs i vs) = outputs i.
Proof. by destruct i, vs as [|? [|? [|? ?]]]. Qed.

Lemma SelectOperands_meets vr ins N :
  inst_wf N ins -> is_Some (op_ct (GetOpcode ins)) ->
  exists vr' movs ins', SelectOperands vr ins = Some (vr', movs, ins') /\
    Forall (fun m => meets_ct m = true) movs /\ meets_ct ins' = true.
Proof.
  intros [Hok _ _ Hbin] [c Hc]. unfold SelectOperands. rewrite Hc. cbn [mbind option_bind].
  assert (Ha : exists vr1 movs1 src1,
    sel_loop (sel_alias (ic_ct c) (outputs ins)) (seq 0 (length (inputs ins))) (mkSel vr [] (inputs ins))
      = Some (mkSel vr1 movs1 src1) /\ length src1 = length (inputs ins) /\
    Forall (fun m => meets_ct m = true) movs1 /\
    forall k x v, ic_ct c !! (length (outputs ins) + k)%nat = Some x -> src1 !! k = Some v ->
      has_alias x = true -> (is_Some (vreg_of v)) /\ alias_ok x (outputs ins) v = true).
  { pose proof (alias_table _ _ Hc) as Ht. destruct (InstBinop_HasOpcode (GetOpcode ins)) eqn:Eop.
    - destruct ins as [| | | | | | | |[]|op d a b]; try done. cbn [inputs outputs GetOpcode length seq] in *.
      destruct Ht as (c0 & c1 & c2 & -> & Ha1 & Ha2 & Ha3). pose proof (Hbin _ _ _ _ eq_refl) as Hout.
      destruct d as [|t r| | |]; try (by destruct Hout).
      destruct (sel_loop (sel_alias [c0; c1; c2] [VGPR t r]) [0%nat; 1%nat] (mkSel vr [] [a; b])) as [st|] eqn:E.
      + apply sel_alias_binop in E as (t' & r' & [= <- <-] & Hst); try done.
        destruct (AddLocal vr t) as [vr' q].
        assert (Hal : forall v, vreg_of v = Some r -> alias_ok c1 [VGPR t r] v = true).
        { intros v Hv. unfold alias_ok. rewrite Ha1, Ha2. cbn. rewrite Hv. by apply bool_decide_eq_true. }
        assert (Hk : forall v w k x u, vreg_of v = Some r -> [c0; c1; c2] !! (1 + k)%nat = Some x ->
          [v; w] !! k = Some u -> has_alias x = true -> is_Some (vreg_of u) /\ alias_ok x [VGPR t r] u = true).
        { intros v w [|[|k]] x u Hv; cbn; [|congruence|done]. intros [= <-] [= <-] _. split; [by rewrite Hv|auto]. }
        destruct st as [vs ms ss]. exists vs, ms, ss. split; [done|].
        destruct (is_vgpr a r) eqn:Ea; [|destruct (is_vgpr b r)]; injection Hst as -> -> ->; split; try done;
          (split; [repeat (first [apply Forall_nil; done|apply Forall_cons; split; [apply mov_meets|]])|]); intros k x v; apply Hk; try done.
        by apply is_vgpr_true in Ea as [? ->].
      + exfalso. revert E. cbn. unfold sel_alias. cbn. rewrite Ha1, Ha2, Ha3. cbn.
        by destruct (is_vgpr a r), (is_vgpr b r).
    - destruct Ht as [Ht Hlen]. rewrite sel_alias_none; [|done|].
      + eexists _, _, _. split; [reflexivity|]. split_and!; try done. intros k x v Hx _ E.
        pose proof (Forall_lookup_1 _ _ _ _ Ht Hx). cbn in *. congruence.
      + apply Forall_forall. intros i Hi. apply elem_of_seq in Hi.
        destruct (operand_counts ins Hok). lia. }
  destruct Ha as (vr1 & movs1 & src1 & -> & Hlen & Hmv & Hal). cbn [mbind option_bind].
  destruct (operand_counts ins Hok) as [Ho Hi].
  assert (Hct : length (ic_ct c) = (length (outputs ins) + length (inputs ins))%nat).
  { rewrite Ho, Hi. by apply op_ct_length. }
  destruct (sel_consts_spec (ic_ct c) (length (outputs ins)) (length (inputs ins)) 0 vr1 movs1 src1)
    as (vr2 & m2 & src2 & -> & Hl2 & Hm2 & HJ); [lia..|].
  cbn [mbind option_bind]. eexists _, _, _. split; [reflexivity|]. cbn [sel_movs sel_src].
  split; [by apply Forall_app|].
  unfold meets_ct. rewrite GetOpcode_set_inputs, outputs_set_inputs, inputs_set_inputs, Hc by lia.
  apply forallb_forall. intros k Hk. apply in_seq in Hk.
  destruct (lookup_lt_is_Some_2 src2 k) as [v Hv]; [lia|].
  destruct (lookup_lt_is_Some_2 (ic_ct c) (length (outputs ins) + k)%nat) as [x Hx]; [lia|].
  destruct (lookup_lt_is_Some_2 src1 k) as [v1 Hv1]; [lia|].
  rewrite Hv, Hx. destruct (HJ k) as (_ & Hreg & Hge). rewrite (Hge ltac:(lia) x v Hx Hv), andb_true_r.
  destruct (has_alias x) eqn:Ex; [|unfold alias_ok; by rewrite Ex].
  destruct (Hal k x v1 Hx Hv1 Ex) as [[r Hr] Hok1].
  pose proof (Hreg v1 r Hv1 Hr). assert (v = v1) as -> by congruence. exact Hok1.
Qed.

Lemma QSel_visit_meets vr ins N :
  inst_wf N ins ->
  exists vr' movs ins', QSel_visit vr ins = Some (vr', movs, ins') /\
    Forall (fun m => meets_ct m = true) movs /\ meets_ct ins' = true.
Proof.
  intros Hwf. pose proof Hwf as [Hok _ _ _].
  destruct ins as [| | | | | | | |[]|[]]; try done; cbn [QSel_visit];
    try (eapply SelectOperands_meets; [done|by eexists]); by eexists _, [], _.
Qed.

Definition node_has_calls (n : Node) : bool := negb (Z.land (n_flags n) HAS_CALLS =? 0).

Lemma number_meets id l :
  Forall (fun m => meets_ct m = true) l -> Forall (fun n => meets_ct (n_inst n) = true) (number id l).
Proof. intros H. revert id. induction H; intros id; constructor; auto. Qed.

Lemma QSel_nodes_meets vr id hc l N :
  Forall (fun n => inst_wf N (n_inst n)) l ->
  exists vr' id' l', QSel_nodes vr id hc l = Some (vr', id', hc || existsb node_has_calls l, l') /\
    Forall (fun n => meets_ct (n_inst n) = true) l'.
Proof.
  intros Hwf. revert vr id hc. induction Hwf as [|n l Hn Hl IH]; intros vr id hc.
  - exists vr, id, []. by rewrite orb_false_r.
  - cbn [QSel_nodes]. destruct (QSel_visit_meets vr _ N Hn) as (vr1 & movs & i1 & -> & Hm & Hi).
    cbn [mbind option_bind].
    destruct (IH vr1 (u32 (id + Z.of_nat (length movs))) (hc || node_has_calls n)) as (vr2 & id2 & l2 & E & H2).
    unfold node_has_calls in E. rewrite E. cbn [mbind option_bind]. eexists _, _, _. split.
    + cbn [existsb]. unfold node_has_calls. by rewrite orb_assoc.
    + apply Forall_app. split; [by apply number_meets|]. by constructor.
Qed.

Lemma QSel_blocks_meets vr id hc bs N :
  Forall (fun b => Forall (fun n => inst_wf N (n_inst n)) (ilist b)) bs ->
  exists vr' id' bs',
    QSel_blocks vr id hc bs = Some (vr', id', hc || existsb (fun b => existsb node_has_calls (ilist b)) bs, bs') /\
    Forall (fun b => Forall (fun n => meets_ct (n_inst n) = true) (ilist b)) bs' /\
    succs <$> bs' = succs <$> bs.
Proof.
  intros Hwf. revert vr id hc. induction Hwf as [|b bs Hb Hbs IH]; intros vr id hc.
  - exists vr, id, []. by rewrite orb_false_r.
  - cbn [QSel_blocks]. destruct (QSel_nodes_meets vr id hc _ N Hb) as (vr1 & id1 & l1 & -> & Hl1).
    cbn [mbind option_bind].
    destruct (IH vr1 id1 (hc || existsb node_has_calls (ilist b))) as (vr2 & id2 & bs2 & -> & H2 & Hs).
    cbn [mbind option_bind]. eexists _, _, _. split_and!.
    + cbn [existsb]. by rewrite orb_assoc.
    + by constructor.
    + cbn. by f_equal.
Qed.

Lemma QSelPass_meets rn :
  region_wf rn ->
  exists rn', QSelPass_run rn = Some (rn', existsb (fun b => existsb node_has_calls (ilist b)) (blist rn)) /\
    Forall (fun b => Forall (fun n => meets_ct (n_inst n) = true) (ilist b)) (blist rn') /\
    succs <$> blist rn' = succs <$> blist rn.
Proof.
  intros [_ Hwf]. unfold QSelPass_run.
  destruct (QSel_blocks_meets (vregs_info rn) (inst_id_counter rn) false _ _ Hwf) as (vr & id & bs & -> & H1 & H2).
  by eexists.
Qed.

(** [QSelPass] succeeds on every well-formed region, and in the region it
    leaves every constrained instruction, the movs it inserted included, can
    be encoded: an aliased input is the register of its output and a constant
    input fits the immediate of its operand.  The control-flow graph is the
    same and [has_calls] tells whether some instruction makes a call. *)
Theorem QSelPass_selects rn :
  region_wf rn ->
  exists rn', QSelPass_run rn = Some (rn', existsb (fun b => existsb node_has_calls (ilist b)) (blist rn)) /\
    Forall (fun b => Forall (fun n => meets_ct (n_inst n) = true) (ilist b)) (blist rn') /\
    succs <$> blist rn' = succs <$> blist rn.
Proof. apply QSelPass_meets. Qed.

(** ** A concrete region *)
Definition demo_si : StateInfo := [mkStateReg 4 I32 "x1"; mkStateReg 8 I32 "x2"].
Definition demo_qregion : Region :=
  let n id i := mkNode id (GetOpFlags (GetOpcode i)) i in
  mkRegion
    [ mkBlock [ n 0 (InstBinop _add (VGPR I32 0) (VGPR I32 1) (VGPR I32 0));
                n 1 (InstBinop _sub (VGPR I32 2) (VConst I32 5) (VGPR I32 0));
                n 2 (InstBinop _sll (VGPR I32 1) (VGPR I32 2) (VConst I32 3));
                n 3 (InstGBr (VConst I32 64)) ] [] [] ]
    (mkVRegs demo_si [I32]) 4 1.
Definition demo_qstate : qstate :=
  mkQ (mkCPU (<[1%nat := 7]> (<[2%nat := 11]> (replicate 32 0))) 0 NONE) ∅ ∅ ∅ ∅.

Lemma demo_qregion_wf : region_wf demo_qregion.
Proof.
  split; [apply (bool_decide_unpack _); vm_compute; exact I|].
  repeat constructor; cbn; try lia; try done; intros ? ? ? ?; try done; intros [= _ <- _ _]; by eexists.
Qed.

Lemma demo_qregion_run :
  match QSelPass_run demo_qregion with
  | Some (rn', false) =>
      bool_decide (NumAll (vregs_info rn') <= 2 ^ 16) &&
      match exec_region demo_si (fun _ => None) [] 1 demo_qregion 0 demo_qstate with
      | Some (QExit 64 s) => bool_decide (get_gpr (q_cpu s) 2 = u32 (Z.shiftl (u32 (5 - 18)) 3))
      | _ => false
      end
  | _ => false
  end = true.
Proof. vm_compute. reflexivity. Qed.

Lemma QSelPass_correct_witness :
  exists rn' r', QSelPass_run demo_qregion = Some (rn', false) /\
    exec_region demo_si (fun _ => None) [] 1 rn' 0 demo_qstate = Some r'.
Proof.
  pose proof demo_qregion_run as H.
  destruct (QSelPass_run demo_qregion) as [[rn' []]|] eqn:E; try discriminate H.
  apply andb_true_iff in H as [HM H]. apply bool_decide_eq_true in HM.
  destruct (exec_region demo_si (fun _ => None) [] 1 demo_qregion 0 demo_qstate) as [r|] eqn:Er; [|discriminate H].
  pose proof (QSelPass_correct demo_qregion rn' false (fun _ => None) [] 1 0 demo_qstate demo_qregion_wf E HM eq_refl) as Hrel.
  destruct (region_rel_end _ _ _ r Hrel Er) as (r' & Hr' & _).
  - intros ->. discriminate H.
  - by exists rn', r'.
Defined.

Lemma QSelPass_selects_witness :
  exists rn', QSelPass_run demo_qregion = Some (rn', false) /\ length (blist rn') = 1%nat.
Proof.
  destruct (QSelPass_selects demo_qregion demo_qregion_wf) as (rn' & H & _ & Hs).
  exists rn'. split; [exact H|]. apply (f_equal length) in Hs. rewrite !length_fmap in Hs. exact Hs.
Defined.
