(* ===== verification/QRegAlloc.v ===== *)
(** * Register allocation (src/dbt/qmc/qcg/qra.cpp)

    A linear allocator: it walks the blocks in list order, keeps for every
    virtual register where its value is ([RTrack]) and for every physical
    register which virtual register it holds ([p2v]), and puts movs between
    registers and spill slots in front of the instructions.  A physical
    register is a [nat] below [N_PREGS] and a virtual register an index into
    the tracks in use.  [Panic] and a failed assertion are [RA_panic]; a loop
    that has not ended when its fuel is used up is [RA_hang]. *)

From stdpp Require Import base tactics numbers list strings gmap.
From S2P Require Import Prelude Bitfield RV32Insn RV32Decode GuestState Interp VOperand Qir QirSem QirBuilder ArchTraits QSel.

Import qir.

(** ** State *)
Definition N_PREGS : nat := Z.to_nat GPR_NUM.
Definition MAX_VREGS : nat := 512.
Definition NO_SPILL : Z := u16 (-1).
Definition frame_size : Z := spillframe_size.

Inductive Location := DEAD | MEM | REG.

#[export] Instance Location_eq_dec : EqDecision Location.
Proof. solve_decision. Defined.

Record RTrack := mkTrack {
  rt_type : VType; rt_global : bool; rt_spill : Z; rt_p : nat; rt_loc : Location; rt_synced : bool }.

Definition RTrack_init : RTrack := mkTrack UNDEF false NO_SPILL 0 DEAD false.

Definition set_loc (l : Location) (v : RTrack) : RTrack :=
  mkTrack (rt_type v) (rt_global v) (rt_spill v) (rt_p v) l (rt_synced v).
Definition set_p (p : nat) (v : RTrack) : RTrack :=
  mkTrack (rt_type v) (rt_global v) (rt_spill v) p (rt_loc v) (rt_synced v).
Definition set_spill (o : Z) (v : RTrack) : RTrack :=
  mkTrack (rt_type v) (rt_global v) o (rt_p v) (rt_loc v) (rt_synced v).
Definition set_synced (b : bool) (v : RTrack) : RTrack :=
  mkTrack (rt_type v) (rt_global v) (rt_spill v) (rt_p v) (rt_loc v) b.

(** [vregs] up to [n_vregs], [p2v], [frame_cur], and the movs created in
    front of the instruction at hand. *)
Record RAState := mkRA {
  ra_vregs : list RTrack; ra_p2v : list (option nat); ra_frame : Z; ra_movs : list Inst }.

Inductive ra_res (A : Type) := RA_ok (a : A) (st : RAState) | RA_panic | RA_hang.
Arguments RA_ok {_} _ _.
Arguments RA_panic {_}.
Arguments RA_hang {_}.

Definition RA (A : Type) : Type := RAState -> ra_res A.
#[export] Instance RA_ret : MRet RA := fun A a st => RA_ok a st.
#[export] Instance RA_bind : MBind RA := fun A B f m st =>
  match m st with
  | RA_ok a st' => f a st'
  | RA_panic => RA_panic
  | RA_hang => RA_hang
  end.

Definition Panic {A} : RA A := fun _ => RA_panic.
Definition Hang {A} : RA A := fun _ => RA_hang.
Definition from_opt {A} (o : option A) : RA A := match o with Some a => mret a | None => Panic end.
Definition get_track (i : nat) : RA RTrack := fun st =>
  match ra_vregs st !! i with Some v => RA_ok v st | None => RA_panic end.
Definition upd_track (f : RTrack -> RTrack) (i : nat) : RA unit := fun st =>
  RA_ok tt (mkRA (alter f i (ra_vregs st)) (ra_p2v st) (ra_frame st) (ra_movs st)).
Definition get_p2v (p : nat) : RA (option nat) := fun st => RA_ok (mjoin (ra_p2v st !! p)) st.
Definition set_p2v (p : nat) (v : option nat) : RA unit := fun st =>
  RA_ok tt (mkRA (ra_vregs st) (<[p := v]> (ra_p2v st)) (ra_frame st) (ra_movs st)).
Definition n_vregs : RA nat := fun st => RA_ok (length (ra_vregs st)) st.
(** [qb.Create_mov]. *)
Definition EmitMov (d v : VOperand) : RA unit := fun st =>
  RA_ok tt (mkRA (ra_vregs st) (ra_p2v st) (ra_frame st) (ra_movs st ++ [InstUnop _mov d v])).

Fixpoint for_each {A} (l : list A) (f : A -> RA unit) : RA unit :=
  match l with
  | [] => mret tt
  | a :: l => f a;; for_each l f
  end.

Definition preg (t : VType) (p : nat) : VOperand := PGPR t (Z.of_nat p).
Definition slot (v : RTrack) : VOperand := VSlot (rt_global v) (rt_type v) (rt_spill v).

(** ** Spilling and filling *)
Definition bump_frame (i : nat) (slot_sz : Z) : RA unit := fun st =>
  let slot_offs := u16 ((ra_frame st + (slot_sz - 1)) / slot_sz * slot_sz) in
  if frame_size <? slot_offs + slot_sz then RA_panic
  else RA_ok tt (mkRA (alter (set_spill slot_offs) i (ra_vregs st)) (ra_p2v st)
                   (u16 (slot_offs + slot_sz)) (ra_movs st)).
Definition AllocFrameSlot (i : nat) : RA unit :=
  v ← get_track i;
  if negb (rt_spill v =? NO_SPILL) || rt_global v then Panic
  else slot_sz ← from_opt (VTypeToSize (rt_type v)); bump_frame i slot_sz.

Definition EmitSpill (i : nat) : RA unit :=
  v ← get_track i;
  (if negb (rt_global v) && (rt_spill v =? NO_SPILL) then AllocFrameSlot i else mret tt);;
  v ← get_track i;
  EmitMov (slot v) (preg (rt_type v) (rt_p v)).

Definition EmitFill (i : nat) : RA unit :=
  v ← get_track i;
  if rt_spill v =? NO_SPILL then Panic
  else EmitMov (preg (rt_type v) (rt_p v)) (slot v).

Definition SyncSpill (i : nat) : RA unit :=
  v ← get_track i;
  if rt_synced v then mret tt
  else
    match rt_loc v with
    | MEM => mret tt
    | REG => EmitSpill i;; upd_track (set_synced true) i
    | DEAD => Panic
    end.

Definition Release (kill : bool) (i : nat) : RA unit :=
  v ← get_track i;
  upd_track (set_loc (if rt_global v then MEM else if kill then DEAD else MEM)) i;;
  if bool_decide (rt_loc v = REG) then set_p2v (rt_p v) None else mret tt.

Definition Spill (i : nat) : RA unit := SyncSpill i;; Release false i.

(** [Spill(qir::RegN p)]. *)
Definition Spill_p (p : nat) : RA unit :=
  v ← get_p2v p;
  match v with None => mret tt | Some i => Spill i end.

Definition AllocPReg (desire avoid : Z) : RA nat :=
  let target := RegMask.and_ desire (RegMask.not_ avoid) in
  fun st =>
    match List.find (fun p => bool_decide (mjoin (ra_p2v st !! p) = None) && RegMask.Test target (Z.of_nat p))
            (seq 0 N_PREGS) with
    | Some p => RA_ok p st
    | None =>
        match List.find (fun p => RegMask.Test target (Z.of_nat p)) (seq 0 N_PREGS) with
        | Some p => (Spill_p p;; mret p) st
        | None => RA_panic
        end
    end.

Definition Fill (i : nat) (desire avoid : Z) : RA unit :=
  v ← get_track i;
  match rt_loc v with
  | MEM =>
      p ← AllocPReg desire avoid;
      upd_track (set_p p) i;;
      upd_track (set_loc REG) i;;
      set_p2v p (Some i);;
      upd_track (set_synced true) i;;
      EmitFill i
  | REG => mret tt
  | DEAD => Panic
  end.

(** ** Block and region boundaries, calls *)
Definition Prologue : RA unit :=
  n ← n_vregs;
  for_each (seq 0 n) (fun i => upd_track (fun v => set_loc (if rt_global v then MEM else DEAD) v) i).

Definition BlockBoundary : RA unit :=
  n ← n_vregs;
  for_each (seq 0 n) (fun i => v ← get_track i; if rt_global v then Spill i else mret tt).

Definition RegionBoundary : RA unit :=
  n ← n_vregs;
  for_each (seq 0 n) (fun i => v ← get_track i; if rt_global v then Spill i else Release false i).

(** The second loop of [CallOp] counts in a [u8], which wraps at 256; [fuel]
    tests of its condition are made. *)
Fixpoint globals_loop (fuel : nat) (i : Z) : RA unit :=
  match fuel with
  | O => Hang
  | S fuel =>
      n ← n_vregs;
      if i <? Z.of_nat n then
        v ← get_track (Z.to_nat i);
        (if rt_global v then Spill (Z.to_nat i) else mret tt);;
        globals_loop fuel (u8 (i + 1))
      else mret tt
  end.
Definition CallOp_fuel (fuel : nat) (use_globals : bool) : RA unit :=
  for_each (seq 0 N_PREGS)
    (fun p => if RegMask.Test GPR_CALL_CLOBBER (Z.of_nat p) then Spill_p p else mret tt);;
  if use_globals then globals_loop fuel 0 else mret tt.
(** The counter either gets to [n_vregs] before it wraps or never does. *)
Definition CallOp : bool -> RA unit := CallOp_fuel 257.

(** ** Operands of one instruction *)
Definition alloc_input (ct : list RAOpCt) (dst_n : nat) (acc : Z * list VOperand) (i : nat)
  : RA (Z * list VOperand) :=
  let '(avoid, srcl) := acc in
  c ← from_opt (ct !! (dst_n + i)%nat);
  opr ← from_opt (srcl !! i);
  match opr with
  | VGPR t r =>
      Fill (Z.to_nat r) (cr c) avoid;;
      src ← get_track (Z.to_nat r);
      p ← (if negb (RegMask.Test (cr c) (Z.of_nat (rt_p src))) then
             p ← AllocPReg (cr c) avoid;
             src ← get_track (Z.to_nat r);
             EmitMov (preg (rt_type src) p) (preg (rt_type src) (rt_p src));;
             mret p
           else mret (rt_p src));
      mret (RegMask.Set_ avoid (Z.of_nat p), <[i := preg t p]> srcl)
  | _ => mret acc
  end.

Definition alloc_output (ct : list RAOpCt) (acc : Z * list VOperand) (i : nat) : RA (Z * list VOperand) :=
  let '(avoid, dstl) := acc in
  c ← from_opt (ct !! i);
  opr ← from_opt (dstl !! i);
  match opr with
  | VGPR t r =>
      let r := Z.to_nat r in
      (if has_alias c then mret tt
       else
         p ← AllocPReg (cr c) avoid;
         dst ← get_track r;
         (if bool_decide (rt_loc dst = REG) then set_p2v (rt_p dst) None else mret tt);;
         upd_track (set_loc REG) r;;
         set_p2v p (Some r);;
         upd_track (set_p p) r);;
      upd_track (set_synced false) r;;
      dst ← get_track r;
      mret (RegMask.Set_ avoid (Z.of_nat (rt_p dst)), <[i := preg t (rt_p dst)]> dstl)
  | _ => mret acc
  end.

Fixpoint fold_ra {A} (f : A -> nat -> RA A) (acc : A) (l : list nat) : RA A :=
  match l with
  | [] => mret acc
  | i :: l => acc ← f acc i; fold_ra f acc l
  end.

(** The loop over the globals in front of an instruction with side effects. *)
Definition SyncGlobals : RA unit :=
  n ← n_vregs;
  for_each (seq 0 n) (fun i => v ← get_track i; if rt_global v then SyncSpill i else mret tt).

Definition AllocOp (flags : Z) (ins : Inst) : RA Inst :=
  c ← from_opt (op_ct (GetOpcode ins));
  let dst_n := length (outputs ins) in
  '(avoid, srcl) ← fold_ra (alloc_input (ic_ct c) dst_n) (GPR_FIXED, inputs ins)
                     (take (length (inputs ins)) (drop dst_n (ic_order c)));
  (if negb (Z.land flags SIDEEFF =? 0) then SyncGlobals else mret tt);;
  '(_, dstl) ← fold_ra (alloc_output (ic_ct c)) (avoid, outputs ins) (take dst_n (ic_order c));
  mret (set_outputs (set_inputs ins srcl) dstl).

(** [QRegAllocVisitor]. *)
Definition QRegAlloc_visit (flags : Z) (ins : Inst) : RA Inst :=
  match ins with
  | InstBr => BlockBoundary;; mret ins
  | InstBrcc _ _ _ => ins ← AllocOp flags ins; BlockBoundary;; mret ins
  | InstGBr _ => RegionBoundary;; mret ins
  | InstGBrind _ => ins ← AllocOp flags ins; RegionBoundary;; mret ins
  | InstHcall _ _ => CallOp true;; mret ins
  | _ => AllocOp flags ins
  end.

(** ** The pass

    The constructor [QRegAlloc]: globals first, then the locals. *)
Definition AddTrackGlobal (sr : StateReg) : RTrack :=
  mkTrack (sr_type sr) true (state_offs sr) 0 DEAD false.
Definition AddTrackLocal (t : VType) : RTrack := mkTrack t false NO_SPILL 0 DEAD false.
Definition QRegAlloc_init (vr : VRegsInfo) : ra_res unit :=
  if bool_decide (length (glob_info vr) + length (loc_info vr) <= MAX_VREGS)%nat then
    RA_ok tt (mkRA (map AddTrackGlobal (glob_info vr) ++ map AddTrackLocal (loc_info vr))
                (replicate N_PREGS None) 0 [])
  else RA_panic.

(** One block: the movs of an instruction go in front of it. *)
Fixpoint RA_nodes (id : Z) (l : list Node) : RA (Z * list Node) :=
  match l with
  | [] => mret (id, [])
  | n :: l => fun st =>
      match QRegAlloc_visit (n_flags n) (n_inst n) (mkRA (ra_vregs st) (ra_p2v st) (ra_frame st) []) with
      | RA_ok ins st' =>
          ('(id', l') ← RA_nodes (u32 (id + Z.of_nat (length (ra_movs st')))) l;
           mret (id', number id (ra_movs st') ++ mkNode (n_id n) (n_flags n) ins :: l')) st'
      | RA_panic => RA_panic
      | RA_hang => RA_hang
      end
  end.

Fixpoint RA_blocks (id : Z) (bs : list Block) : RA (Z * list Block) :=
  match bs with
  | [] => mret (id, [])
  | b :: bs =>
      '(id, l) ← RA_nodes id (ilist b);
      '(id, bs') ← RA_blocks id bs;
      mret (id, mkBlock l (succs b) (preds b) :: bs')
  end.

(** [QRegAllocPass::run]. *)
Definition QRegAllocPass_run (rn : Region) : ra_res Region :=
  match QRegAlloc_init (vregs_info rn) with
  | RA_ok _ st =>
      (Prologue;;
       '(id, bs) ← RA_blocks (inst_id_counter rn) (blist rn);
       mret (mkRegion bs (vregs_info rn) id (bb_id_counter rn))) st
  | RA_panic => RA_panic
  | RA_hang => RA_hang
  end.
