(* ===== verification/QRegAllocInv.v ===== *)
(** * Register allocation: invariant and spilling

    [W]: the tracks, the register table and the spill frame are coherent.
    [Live L]: the virtual registers in [L] have a value somewhere.  [Sem L]:
    a state [s'] of the allocated code represents a state [s] of the code
    with virtual registers, as far as the registers in [L] go.  [evolves]
    says what a step of the allocator guarantees: the movs it emitted run and
    lead to a state that still represents [s]. *)

From stdpp Require Import base tactics numbers list strings gmap.
From S2P Require Import Prelude Bitfield RV32Insn RV32Decode GuestState Interp InterpProofs VOperand Qir QirSem QirBuilder ArchTraits QSel QSelCorrect QRegAlloc.

Import qir.

Definition valid_offs (o : Z) : bool :=
  (0 <=? o) && (o <? offs_ip) && (o mod 4 =? 0) || (o =? offs_ip).

Lemma cpu_read_valid c o : valid_offs o = true -> is_Some (cpu_read c o).
Proof.
  unfold valid_offs, cpu_read. destruct (_ && _ && _); [by eexists|]. cbn. intros ->. by eexists.
Qed.
Lemma cpu_write_valid c o x : valid_offs o = true -> is_Some (cpu_write c o x).
Proof.
  unfold valid_offs, cpu_write. destruct (_ && _ && _); [by eexists|]. cbn. intros ->. by eexists.
Qed.

(** States of [CPUState] are determined by their fields. *)
Lemma cpu_ext c c' :
  cpu_len c -> cpu_len c' -> trapno c = trapno c' ->
  (forall o, cpu_read c o = cpu_read c' o) -> c = c'.
Proof.
  destruct c as [g i t], c' as [g' i' t']. unfold cpu_len. cbn. intros Hl Hl' -> Hr.
  assert (i = i') as -> by (pose proof (Hr 128) as H; cbn in H; congruence).
  f_equal. apply list_eq_same_length with gpr_num; [done..|]. intros k x y Hk Hx Hy.
  pose proof (Hr (4 * Z.of_nat k)) as H. unfold cpu_read, offs_ip in H. unfold gpr_num in Hk.
  replace ((0 <=? 4 * Z.of_nat k) && (4 * Z.of_nat k <? 128) && ((4 * Z.of_nat k) mod 4 =? 0)) with true in H.
  - replace (4 * Z.of_nat k / 4) with (Z.of_nat k) in H by zlia. unfold get_gpr in H. rewrite Nat2Z.id in H. cbn in H.
    rewrite (list_lookup_total_correct _ _ _ Hx), (list_lookup_total_correct _ _ _ Hy) in H. congruence.
  - symmetry. apply andb_true_iff. split; [apply andb_true_iff; split|]; zlia.
Qed.

Definition tsize (v : RTrack) : Z := slot_size (rt_type v).
Lemma tsize_bound v : 1 <= tsize v <= 4.
Proof. unfold tsize, slot_size. destruct (rt_type v); cbn; lia. Qed.

Definition has_slot (v : RTrack) : Prop := rt_global v = false /\ rt_spill v <> NO_SPILL.
#[export] Instance has_slot_dec v : Decision (has_slot v).
Proof. unfold has_slot. apply _. Defined.
Definition slots (l : list RTrack) : Z := Z.of_nat (length (filter has_slot l)).

Lemma slots_insert l i v v' :
  l !! i = Some v -> ~ has_slot v -> has_slot v' -> slots (<[i := v']> l) = slots l + 1.
Proof.
  intros Hi Hv Hv'. unfold slots.
  rewrite (insert_take_drop l i v') by (by eapply lookup_lt_Some).
  rewrite <- (take_drop_middle l i v Hi) at 3.
  rewrite !filter_app, !filter_cons, decide_True, decide_False, !length_app by done. cbn. lia.
Qed.
Lemma slots_insert_same l i v v' :
  l !! i = Some v -> (has_slot v <-> has_slot v') -> slots (<[i := v']> l) = slots l.
Proof.
  intros Hi Hv. unfold slots.
  rewrite (insert_take_drop l i v') by (by eapply lookup_lt_Some).
  rewrite <- (take_drop_middle l i v Hi) at 3. rewrite !filter_app, !filter_cons, !length_app.
  destruct (decide (has_slot v)), (decide (has_slot v')); cbn; try tauto; lia.
Qed.
Lemma slots_le l : slots l <= Z.of_nat (length l).
Proof. unfold slots. pose proof (length_filter has_slot l). lia. Qed.

(** Movs the allocator emits: within a type, between registers it may use and
    slots of the state or the frame. *)
Definition reg_ok (v : VOperand) : bool :=
  match v with
  | PGPR t p => (0 <=? p) && (p <? GPR_NUM) && negb (RegMask.Test GPR_FIXED p) && bool_decide (t <> UNDEF)
  | _ => false
  end.
Definition slot_ok (v : VOperand) : bool :=
  match v with
  | VSlot true t o => bool_decide (t = I32) && valid_offs o
  | VSlot false t o => bool_decide (t <> UNDEF) && (0 <=? o) && (o + slot_size t <=? spillframe_size)
  | _ => false
  end.
Definition ra_mov (i : Inst) : bool :=
  match i with
  | InstUnop _mov d v =>
      bool_decide (type_of d = type_of v) &&
      (reg_ok d && reg_ok v || slot_ok d && reg_ok v || reg_ok d && slot_ok v)
  | _ => false
  end.
Abbreviation movs_ok st := (Forall (fun i => ra_mov i = true) (ra_movs st)).

Section inv.
Context (si : StateInfo) (types : list VType) (clob : Z -> option Z) (weaks : list bool).
Notation read := (read_opnd si).
Notation write := (write_opnd si).
Notation run := (exec_list si clob weaks).
Notation n_all := (length si + length types)%nat.

(** What the pass assumes of the region's registers. *)
Record vregs_ok : Prop := {
  vo_nodup : NoDup (state_offs <$> si);
  vo_offs : Forall (fun sr => valid_offs (state_offs sr) = true) si;
  vo_types : Forall (fun t => t <> UNDEF) types;
  vo_gtypes : Forall (fun sr => sr_type sr = I32) si;
  vo_num : (n_all <= 255)%nat }.
Context (HV : vregs_ok).

Definition track_ok (i : nat) (v : RTrack) : Prop :=
  match si !! i with
  | Some sr => rt_global v = true /\ rt_spill v = state_offs sr /\ rt_loc v <> DEAD /\ rt_type v = sr_type sr
  | None => rt_global v = false /\ types !! (i - length si)%nat = Some (rt_type v)
  end.

(** The type of a virtual register. *)
Definition vtype (i : nat) : VType :=
  match si !! i with Some sr => sr_type sr | None => default UNDEF (types !! (i - length si)%nat) end.

(** The [ip] field is written through its slot and is never an operand. *)
Definition resv (i : nat) : Prop := exists sr, si !! i = Some sr /\ state_offs sr = offs_ip.

Record W (st : RAState) : Prop := {
  w_len : length (ra_vregs st) = n_all;
  w_plen : length (ra_p2v st) = N_PREGS;
  w_track : forall i v, ra_vregs st !! i = Some v -> track_ok i v;
  w_p2v : forall p i, ra_p2v st !! p = Some (Some i) ->
            exists v, ra_vregs st !! i = Some v /\ rt_loc v = REG /\ rt_p v = p;
  w_reg : forall i v, ra_vregs st !! i = Some v -> rt_loc v = REG -> ra_p2v st !! rt_p v = Some (Some i);
  w_pool : forall i v, ra_vregs st !! i = Some v -> rt_loc v = REG ->
             RegMask.Test GPR_FIXED (Z.of_nat (rt_p v)) = false;
  w_resv : forall i v, ra_vregs st !! i = Some v -> resv i -> rt_loc v = MEM;
  w_synced : forall i v, ra_vregs st !! i = Some v -> rt_loc v = REG -> rt_synced v = true ->
               rt_spill v <> NO_SPILL;
  w_slot : forall i v, ra_vregs st !! i = Some v -> has_slot v ->
             0 <= rt_spill v /\ rt_spill v + tsize v <= ra_frame st;
  w_disj : forall i j v w, ra_vregs st !! i = Some v -> ra_vregs st !! j = Some w -> i <> j ->
             has_slot v -> has_slot w ->
             rt_spill v + tsize v <= rt_spill w \/ rt_spill w + tsize w <= rt_spill v;
  w_frame : 0 <= ra_frame st <= 4 * slots (ra_vregs st) }.

Definition Live (L : nat -> Prop) (st : RAState) : Prop :=
  forall i, L i -> exists v, ra_vregs st !! i = Some v /\ rt_loc v <> DEAD /\
                             (rt_loc v = MEM -> rt_spill v <> NO_SPILL).

(** Value of a virtual register, and where a track says it is. *)
Definition vval (i : nat) (s : qstate) : option Z := read (VGPR I32 (Z.of_nat i)) s.
Definition holds (v : RTrack) (x : Z) (s' : qstate) : Prop :=
  match rt_loc v with
  | DEAD => False
  | MEM => read (slot v) s' = narrow (rt_type v) (Some x)
  | REG => narrow (rt_type v) (q_pgpr s' !! Z.of_nat (rt_p v)) = narrow (rt_type v) (Some x) /\
           (rt_synced v = true -> read (slot v) s' = narrow (rt_type v) (Some x))
  end.

Record Sem (L : nat -> Prop) (s : qstate) (st : RAState) (s' : qstate) : Prop := {
  sm_mem : q_mem s = q_mem s';
  sm_trap : trapno (q_cpu s) = trapno (q_cpu s');
  sm_len : cpu_len (q_cpu s);
  sm_len' : cpu_len (q_cpu s');
  sm_other : forall o, o ∉ (state_offs <$> si) -> cpu_read (q_cpu s) o = cpu_read (q_cpu s') o;
  sm_pgpr : forall p, (p < N_PREGS)%nat -> is_Some (q_pgpr s' !! Z.of_nat p);
  sm_val : forall i v, L i -> ra_vregs st !! i = Some v -> exists x, vval i s = Some x /\ holds v x s' }.

(** Every global in a register is up to date in [CPUState]. *)
Definition allsynced (st : RAState) : Prop :=
  forall i v, ra_vregs st !! i = Some v -> rt_global v = true -> rt_loc v = REG -> rt_synced v = true.

(** A step of the allocator: registers in [A] keep their track and those in
    [G] their contents; [Φ] holds of the state its movs lead to. *)
Record evolves (L A G : nat -> Prop) (st st' : RAState) (Φ : qstate -> qstate -> Prop) : Prop := {
  ev_W : W st';
  ev_live : Live L st';
  ev_p2v : forall p, A p -> ra_p2v st' !! p = ra_p2v st !! p;
  ev_sync : allsynced st -> allsynced st';
  ev_movs : exists new, ra_movs st' = ra_movs st ++ new /\
    forall s s', Sem L s st s' -> exists s'', run new s' = QNext s'' /\ Sem L s st' s'' /\
      (forall p, G p -> q_pgpr s'' !! Z.of_nat p = q_pgpr s' !! Z.of_nat p) /\
      (allsynced st -> q_cpu s'' = q_cpu s') /\ Φ s s'';
  ev_ok : movs_ok st -> movs_ok st' }.

Definition tt2 : qstate -> qstate -> Prop := fun _ _ => True.

Lemma evolves_refl L A G st : W st -> Live L st -> evolves L A G st st tt2.
Proof.
  intros HW HL. split; try done. exists []. rewrite app_nil_r. split; [done|].
  intros s s' H. exists s'. done.
Qed.

Lemma evolves_trans L A B G H st st1 st2 Φ Ψ :
  evolves L A G st st1 Φ -> evolves L B H st1 st2 Ψ ->
  (forall s s1 s2, Φ s s1 -> (forall p, H p -> q_pgpr s2 !! Z.of_nat p = q_pgpr s1 !! Z.of_nat p) -> Φ s s2) ->
  evolves L (fun p => A p /\ B p) (fun p => G p /\ H p) st st2 (fun s s' => Φ s s' /\ Ψ s s').
Proof.
  intros [W1 L1 P1 S1 (n1 & E1 & M1)] [W2 L2 P2 S2 (n2 & E2 & M2)] Hst. split; try done.
  - intros p [HA HB]. by rewrite P2, P1.
  - auto.
  - exists (n1 ++ n2). split; [by rewrite E2, E1, app_assoc|].
    intros s s' HS. destruct (M1 s s' HS) as (s1 & R1 & HS1 & G1 & C1 & F1).
    destruct (M2 s s1 HS1) as (s2 & R2 & HS2 & G2 & C2 & F2).
    exists s2. split; [by rewrite exec_list_app, R1|]. split; [done|]. split; [|split; [|split]].
    + intros p [HA HB]. by rewrite G2, G1.
    + intros Hs. by rewrite C2, C1 by auto.
    + by apply (Hst s s1 s2).
    + done.
  - auto.
Qed.

Lemma evolves_weaken L (A B G H : nat -> Prop) st st' (Φ Ψ : qstate -> qstate -> Prop) :
  (forall p, B p -> A p) -> (forall p, H p -> G p) -> (forall s s', Φ s s' -> Ψ s s') ->
  evolves L A G st st' Φ -> evolves L B H st st' Ψ.
Proof.
  intros HAB HGH HF [W1 L1 P1 S1 (n1 & E1 & M1)]. split; try done.
  - auto.
  - exists n1. split; [done|]. intros s s' HS. destruct (M1 s s' HS) as (s1 & R1 & HS1 & G1 & C1 & F1).
    exists s1. split_and!; auto.
Qed.

Lemma evolves_then L A G st st1 st2 Ψ :
  evolves L A G st st1 tt2 -> evolves L A G st1 st2 Ψ -> evolves L A G st st2 Ψ.
Proof.
  intros H1 H2. eapply evolves_weaken; [| | |eapply evolves_trans; [exact H1|exact H2|done]].
  - by intros p Hp.
  - by intros p Hp.
  - by intros s s' [_ ?].
Qed.

(** ** Spill slots *)
Lemma global_info st i v :
  W st -> ra_vregs st !! i = Some v -> rt_global v = true ->
  exists sr, si !! i = Some sr /\ rt_spill v = state_offs sr.
Proof.
  intros HW Hi Hg. pose proof (w_track st HW i v Hi) as Ht. unfold track_ok in Ht.
  destruct (si !! i) as [sr|]; [|by destruct Ht; congruence]. exists sr. tauto.
Qed.

Lemma slots_bound st : W st -> slots (ra_vregs st) <= 255.
Proof. intros HW. pose proof (slots_le (ra_vregs st)). rewrite (w_len st HW) in H. pose proof (vo_num HV). lia. Qed.

Lemma global_offs_valid st i v :
  W st -> ra_vregs st !! i = Some v -> rt_global v = true -> valid_offs (rt_spill v) = true.
Proof.
  intros HW Hi Hg. destruct (global_info st i v HW Hi Hg) as (sr & Hsr & ->).
  by apply (Forall_lookup_1 _ _ _ _ (vo_offs HV) Hsr).
Qed.

Lemma global_spill st i v :
  W st -> ra_vregs st !! i = Some v -> rt_global v = true -> rt_spill v <> NO_SPILL.
Proof.
  intros HW Hi Hg E. pose proof (global_offs_valid st i v HW Hi Hg) as Hv. rewrite E in Hv. discriminate Hv.
Qed.

Lemma slot_ne st i j v w :
  W st -> ra_vregs st !! i = Some v -> ra_vregs st !! j = Some w -> i <> j ->
  rt_spill v <> NO_SPILL -> rt_global v = rt_global w -> rt_spill v <> rt_spill w.
Proof.
  intros HW Hi Hj Hne Hs Hg. destruct (rt_global v) eqn:Eg.
  - destruct (global_info st i v HW Hi Eg) as (a & Ha & ->).
    destruct (global_info st j w HW Hj (eq_sym Hg)) as (b & Hb & ->). intros E. apply Hne.
    apply (NoDup_lookup (state_offs <$> si) _ _ (state_offs a) (vo_nodup HV)); rewrite list_lookup_fmap.
    + by apply (fmap_Some_2 _ _ a).
    + rewrite E. by apply (fmap_Some_2 _ _ b).
  - intros E. assert (has_slot v) by done. assert (has_slot w) by (split; congruence).
    pose proof (tsize_bound v). pose proof (tsize_bound w).
    destruct (w_disj st HW i j v w); try done; lia.
Qed.

(** What a write to the slot of track [i] does. *)
Record slot_step (st : RAState) (i : nat) (v : RTrack) (x : Z) (s' s'' : qstate) : Prop := {
  ss_self : read (slot v) s'' = narrow (rt_type v) (Some x);
  ss_other : forall j w, j <> i -> ra_vregs st !! j = Some w -> read (slot w) s'' = read (slot w) s';
  ss_pgpr : q_pgpr s'' = q_pgpr s';
  ss_mem : q_mem s'' = q_mem s';
  ss_len : cpu_len (q_cpu s'');
  ss_trap : trapno (q_cpu s'') = trapno (q_cpu s');
  ss_local : rt_global v = false -> q_cpu s'' = q_cpu s';
  ss_cpu : forall o, o ∉ (state_offs <$> si) -> cpu_read (q_cpu s'') o = cpu_read (q_cpu s') o }.

Lemma cpu_write_trap c o x c' : cpu_write c o x = Some c' -> trapno c' = trapno c.
Proof. unfold cpu_write. intros. repeat case_match; simplify_eq; done. Qed.

Lemma slot_write st i v x s' :
  W st -> ra_vregs st !! i = Some v -> rt_spill v <> NO_SPILL -> cpu_len (q_cpu s') ->
  exists s'', write (slot v) x s' = Some s'' /\ slot_step st i v x s' s''.
Proof.
  intros HW Hi Hs Hl. unfold slot. destruct (rt_global v) eqn:Eg; cbn.
  - destruct (cpu_write_valid (q_cpu s') (rt_spill v) x) as [c Hc]; [by eapply global_offs_valid|].
    rewrite Hc. cbn. eexists. split; [done|]. split; cbn; try done.
    + unfold slot. rewrite Eg. cbn. rewrite (cpu_read_write _ _ _ _ _ Hl Hc). by rewrite bool_decide_true.
    + intros j w Hne Hj. unfold slot. destruct (rt_global w) eqn:Egw; cbn; [|done].
      rewrite (cpu_read_write _ _ _ _ _ Hl Hc). rewrite bool_decide_false; [done|].
      eapply slot_ne; try done. congruence.
    + by eapply cpu_write_len.
    + by eapply cpu_write_trap.
    + congruence.
    + intros o Ho. rewrite (cpu_read_write _ _ _ _ _ Hl Hc). rewrite bool_decide_false; [done|].
      intros <-. apply Ho. destruct (global_info st i v HW Hi Eg) as (sr & Hsr & ->).
      apply list_elem_of_fmap. exists sr. split; [done|]. by eapply list_elem_of_lookup_2.
  - eexists. split; [done|]. split; cbn; try done.
    + unfold slot. rewrite Eg. cbn. by rewrite frame_read_write.
    + intros j w Hne Hj. unfold slot. destruct (rt_global w) eqn:Egw; cbn; [done|].
      destruct (decide (rt_spill w = NO_SPILL)) as [Hnw|].
      * f_equal. apply frame_read_other; [|apply tsize_bound..]. right.
        assert (Hv : has_slot v) by done. pose proof (w_slot st HW i v Hi Hv). pose proof (w_frame st HW).
        pose proof (slots_bound st HW). unfold tsize in *. change NO_SPILL with 65535 in Hnw. lia.
      * f_equal. apply frame_read_other; [|apply tsize_bound..].
        destruct (w_disj st HW i j v w); try done; [by right|by left].
Qed.

(** ** Operands of the emitted movs *)
Lemma track_type st i v :
  W st -> ra_vregs st !! i = Some v -> rt_type v <> UNDEF /\ (rt_global v = true -> rt_type v = I32).
Proof.
  intros HW Hi. pose proof (w_track st HW i v Hi) as T. unfold track_ok in T.
  destruct (si !! i) as [sr|] eqn:E.
  - destruct T as (_ & _ & _ & ->). pose proof (Forall_lookup_1 _ _ _ _ (vo_gtypes HV) E) as ->. done.
  - destruct T as [Hg T]. split; [by apply (Forall_lookup_1 _ _ _ _ (vo_types HV) T)|congruence].
Qed.

Lemma track_vtype st i v : W st -> ra_vregs st !! i = Some v -> rt_type v = vtype i.
Proof.
  intros HW Hi. pose proof (w_track st HW i v Hi) as T. unfold track_ok, vtype in *.
  destruct (si !! i); [tauto|]. destruct T as [_ ->]. done.
Qed.

Lemma preg_ok t p :
  (p < N_PREGS)%nat -> RegMask.Test GPR_FIXED (Z.of_nat p) = false -> t <> UNDEF -> reg_ok (preg t p) = true.
Proof.
  intros Hp Hf Ht. unfold reg_ok, preg. rewrite Hf, bool_decide_true by done. change N_PREGS with 16%nat in Hp.
  change GPR_NUM with 16. destruct (Z.leb_spec 0 (Z.of_nat p)), (Z.ltb_spec (Z.of_nat p) 16); done || lia.
Qed.

Lemma reg_track_ok st i v :
  W st -> ra_vregs st !! i = Some v -> rt_loc v = REG -> reg_ok (preg (rt_type v) (rt_p v)) = true.
Proof.
  intros HW Hi HR. apply preg_ok.
  - pose proof (w_reg _ HW i v Hi HR) as H. apply lookup_lt_Some in H. by rewrite (w_plen _ HW) in H.
  - by eapply w_pool.
  - by eapply track_type.
Qed.

Lemma slot_track_ok st i v :
  W st -> ra_vregs st !! i = Some v -> rt_spill v <> NO_SPILL -> slot_ok (slot v) = true.
Proof.
  intros HW Hi Hs. destruct (track_type st i v HW Hi) as [Ht Hg]. unfold slot_ok, slot.
  destruct (rt_global v) eqn:Eg.
  - rewrite Hg, bool_decide_true by done. by eapply global_offs_valid.
  - rewrite bool_decide_true by done. assert (Hv : has_slot v) by done.
    pose proof (w_slot st HW i v Hi Hv) as [H0 H1]. pose proof (w_frame st HW). pose proof (slots_bound st HW).
    change spillframe_size with 1024. unfold tsize in *.
    destruct (Z.leb_spec 0 (rt_spill v)), (Z.leb_spec (rt_spill v + slot_size (rt_type v)) 1024); lia.
Qed.

Lemma movs_ok_snoc (l : list Inst) d v :
  type_of d = type_of v -> reg_ok d && reg_ok v || slot_ok d && reg_ok v || reg_ok d && slot_ok v = true ->
  Forall (fun i => ra_mov i = true) l -> Forall (fun i => ra_mov i = true) (l ++ [InstUnop _mov d v]).
Proof.
  intros Ht Hd Hl. apply Forall_app. split; [done|]. apply Forall_singleton. unfold ra_mov.
  by rewrite bool_decide_true, Hd.
Qed.

(** ** Changing one track *)
Lemma W_set st i v v' p2v' movs' :
  W st -> ra_vregs st !! i = Some v ->
  rt_type v' = rt_type v -> rt_global v' = rt_global v -> rt_spill v' = rt_spill v ->
  (rt_global v = true -> rt_loc v' <> DEAD) -> (resv i -> rt_loc v' = MEM) -> length p2v' = N_PREGS ->
  (forall p j, p2v' !! p = Some (Some j) ->
     j = i /\ rt_loc v' = REG /\ rt_p v' = p \/ j <> i /\ ra_p2v st !! p = Some (Some j)) ->
  (rt_loc v' = REG -> p2v' !! rt_p v' = Some (Some i)) ->
  (rt_loc v' = REG -> RegMask.Test GPR_FIXED (Z.of_nat (rt_p v')) = false) ->
  (forall p j, j <> i -> ra_p2v st !! p = Some (Some j) -> p2v' !! p = Some (Some j)) ->
  (rt_loc v' = REG -> rt_synced v' = true -> rt_spill v' <> NO_SPILL) ->
  W (mkRA (<[i := v']> (ra_vregs st)) p2v' (ra_frame st) movs').
Proof.
  intros HW Hi Ht Hg Hs Hloc Hres Hl Ha Hb Hpool Hc Hd.
  assert (Hlt : (i < length (ra_vregs st))%nat) by (by eapply lookup_lt_Some).
  assert (Hsl : has_slot v' <-> has_slot v) by (unfold has_slot; by rewrite Hg, Hs).
  assert (Hsz : tsize v' = tsize v) by (unfold tsize; by rewrite Ht).
  assert (HI : forall j w, <[i := v']> (ra_vregs st) !! j = Some w ->
    j = i /\ w = v' \/ j <> i /\ ra_vregs st !! j = Some w).
  { intros j w H. apply list_lookup_insert_Some in H as [(? & ? & ?)|(? & ?)]; [left|right]; split; congruence. }
  destruct HW as [w1 w2 w3 w4 w5 wp wr w6 w7 w8 w9].
  split; cbn [ra_vregs ra_p2v ra_frame]; try done.
  - by rewrite length_insert.
  - intros j w [[-> ->]|[Hne Hj]]%HI; [|by apply w3]. specialize (w3 i v Hi). unfold track_ok in *.
    destruct (si !! i); rewrite Hg, ?Hs, ?Ht; tauto.
  - intros p j H. destruct (Ha p j H) as [(-> & ? & ?)|[Hne H']].
    + exists v'. by rewrite list_lookup_insert_eq.
    + destruct (w4 p j H') as (w & ? & ?). exists w. by rewrite list_lookup_insert_ne.
  - intros j w [[-> ->]|[Hne Hj]]%HI HR; [by apply Hb|]. apply Hc; [done|]. by apply w5.
  - intros j w [[-> ->]|[Hne Hj]]%HI; [done|]. by apply wp with j.
  - intros j w [[-> ->]|[Hne Hj]]%HI; [done|]. by apply (wr j).
  - intros j w [[-> ->]|[Hne Hj]]%HI; [done|]. by apply w6 with j.
  - intros j w [[-> ->]|[Hne Hj]]%HI HS; [|by apply w7 with j]. rewrite Hs, Hsz. apply w7 with i; tauto.
  - intros j k a b [[-> ->]|[Hnj Hj]]%HI [[-> ->]|[Hnk Hk]]%HI Hne HS1 HS2; try done;
      rewrite ?Hs, ?Hsz; eapply w8; try done; tauto.
  - rewrite (slots_insert_same _ _ v); [done..|tauto].
Qed.

Lemma Sem_set L s st s' st' s'' i v v' :
  Sem L s st s' -> ra_vregs st !! i = Some v -> ra_vregs st' = <[i := v']> (ra_vregs st) ->
  q_mem s'' = q_mem s' -> trapno (q_cpu s'') = trapno (q_cpu s') -> cpu_len (q_cpu s'') ->
  (forall o, o ∉ (state_offs <$> si) -> cpu_read (q_cpu s'') o = cpu_read (q_cpu s') o) ->
  (forall p, (p < N_PREGS)%nat -> is_Some (q_pgpr s'' !! Z.of_nat p)) ->
  (forall j w x, L j -> j <> i -> ra_vregs st !! j = Some w -> holds w x s' -> holds w x s'') ->
  (forall x, L i -> vval i s = Some x -> holds v x s' -> holds v' x s'') ->
  Sem L s st' s''.
Proof.
  intros [a1 a2 a3 a4 a5 a6 a7] Hi Hv Hm Ht Hl Ho Hp HO HI. split; try congruence; try done.
  - intros o H. rewrite Ho by done. auto.
  - intros j w HL Hj. rewrite Hv in Hj.
    apply list_lookup_insert_Some in Hj as [(-> & <- & _)|(Hne & Hj)].
    + destruct (a7 j v HL Hi) as (x & Hx & Hh). eauto.
    + destruct (a7 j w HL Hj) as (x & Hx & Hh). exists x. split; [done|]. by apply (HO j w x HL).
Qed.

Lemma Live_set L st st' i v v' :
  Live L st -> ra_vregs st !! i = Some v -> ra_vregs st' = <[i := v']> (ra_vregs st) ->
  (L i -> rt_loc v' <> DEAD /\ (rt_loc v' = MEM -> rt_spill v' <> NO_SPILL)) -> Live L st'.
Proof.
  intros HL Hi Hv Hi' j Hj. rewrite Hv. destruct (decide (j = i)) as [->|Hne].
  - exists v'. rewrite list_lookup_insert_eq by (by eapply lookup_lt_Some). destruct (Hi' Hj). done.
  - rewrite list_lookup_insert_ne by done. by apply HL.
Qed.

Lemma allsynced_set st st' i v v' :
  ra_vregs st !! i = Some v -> ra_vregs st' = <[i := v']> (ra_vregs st) ->
  (rt_global v' = true -> rt_loc v' = REG -> (rt_global v = true -> rt_loc v = REG -> rt_synced v = true) ->
   rt_synced v' = true) ->
  allsynced st -> allsynced st'.
Proof.
  intros Hi Hv Hv' Ha j w Hj Hg HR. rewrite Hv in Hj.
  apply list_lookup_insert_Some in Hj as [(-> & <- & _)|(Hne & Hj)]; [|by apply (Ha j)].
  apply Hv'; try done. by apply (Ha j).
Qed.
End inv.
