(* ===== verification/QRegAllocSteps.v ===== *)
(** * Register allocation: the steps of the allocator

    [SyncSpill], [Spill], [AllocPReg] and [Fill] succeed and preserve what
    the allocated code represents. *)

From stdpp Require Import base tactics numbers list strings gmap.
From S2P Require Import Prelude Bitfield RV32Insn RV32Decode GuestState Interp InterpProofs VOperand Qir QirSem QirBuilder ArchTraits QSel QSelCorrect QRegAlloc QRegAllocInv.

Import qir.

Section steps.
Context (si : StateInfo) (types : list VType) (clob : Z -> option Z) (weaks : list bool).
Context (HV : vregs_ok si types).
Notation read := (read_opnd si).
Notation write := (write_opnd si).
Notation run := (exec_list si clob weaks).
Notation W := (W si types).
Notation Sem := (Sem si).
Notation holds := (holds si).
Notation evolves := (evolves si types clob weaks).
Notation everywhere := (fun _ : nat => True).

Lemma holds_slot_step st i v x s' s'' j w y :
  slot_step si st i v x s' s'' -> ra_vregs st !! j = Some w -> j <> i -> holds w y s' -> holds w y s''.
Proof.
  intros HS Hj Hne. unfold QRegAllocInv.holds.
  destruct (rt_loc w); [done|by rewrite (ss_other _ _ _ _ _ _ _ HS j w)|].
  rewrite (ss_pgpr _ _ _ _ _ _ _ HS), (ss_other _ _ _ _ _ _ _ HS j w) by done. done.
Qed.

Lemma run_mov d v x s s' : read v s = Some x -> write d x s = Some s' -> run [InstUnop _mov d v] s = QNext s'.
Proof. intros Hr Hw. cbn [exec_list exec_inst InstUnop_HasOpcode]. cbn [andb]. rewrite Hr. cbn [or_stuck]. by rewrite Hw. Qed.

Lemma reg_lt st i v : W st -> ra_vregs st !! i = Some v -> rt_loc v = REG -> (rt_p v < N_PREGS)%nat.
Proof.
  intros HW Hi HR. pose proof (w_reg _ _ _ HW i v Hi HR) as H. apply lookup_lt_Some in H.
  by rewrite (w_plen _ _ _ HW) in H.
Qed.

Lemma p2v_self st i v p : W st -> ra_vregs st !! i = Some v -> ra_p2v st !! p = Some (Some i) -> rt_loc v = REG /\ rt_p v = p.
Proof. intros HW Hi Hp. destruct (w_p2v _ _ _ HW p i Hp) as (w & Hw & ? & ?). assert (w = v) as -> by congruence. done. Qed.

(** A change of track [i] that moves no register. *)
Lemma W_keep st i v v' movs' :
  W st -> ra_vregs st !! i = Some v ->
  rt_type v' = rt_type v -> rt_global v' = rt_global v -> rt_spill v' = rt_spill v ->
  rt_loc v' = rt_loc v -> rt_p v' = rt_p v ->
  (rt_loc v' = REG -> rt_synced v' = true -> rt_spill v' <> NO_SPILL) ->
  W (mkRA (<[i := v']> (ra_vregs st)) (ra_p2v st) (ra_frame st) movs').
Proof.
  intros HW Hi Ht Hg Hs Hl Hp Hsy. eapply W_set; try done.
  - intros HG. rewrite Hl. pose proof (w_track _ _ _ HW i v Hi) as T. unfold track_ok in T.
    destruct (si !! i); destruct T as [T1 T2]; [tauto|congruence].
  - rewrite Hl. by apply (w_resv _ _ _ HW).
  - apply HW.
  - intros p j Hj. destruct (decide (j = i)) as [->|]; [left|by right].
    destruct (p2v_self st i v p HW Hi Hj). split_and!; congruence.
  - intros HR. rewrite Hp. apply HW; congruence.
  - intros HR. rewrite Hp. eapply w_pool; [exact HW|exact Hi|congruence].
Qed.

(** Store a register in its slot. *)
Lemma spill_step L st i v :
  W st -> Live L st -> ra_vregs st !! i = Some v -> rt_loc v = REG -> rt_synced v = false ->
  rt_spill v <> NO_SPILL ->
  evolves L everywhere everywhere st
    (mkRA (<[i := set_synced true v]> (ra_vregs st)) (ra_p2v st) (ra_frame st)
       (ra_movs st ++ [InstUnop _mov (slot v) (preg (rt_type v) (rt_p v))])) tt2.
Proof.
  intros HW HL Hi HR Hns Hsp. split.
  - by eapply W_keep.
  - eapply Live_set; try done. intros _. cbn. by rewrite HR.
  - done.
  - by eapply allsynced_set.
  - eexists. split; [done|]. intros s s' HS.
    destruct (sm_pgpr _ _ _ _ _ HS (rt_p v) (reg_lt st i v HW Hi HR)) as [x0 Hx].
    assert (Hx' : read (preg (rt_type v) (rt_p v)) s' = Some (trunc (rt_type v) x0)) by (cbn; by rewrite Hx, narrow_Some).
    set (x := trunc (rt_type v) x0) in *.
    destruct (slot_write si types HV st i v x s' HW Hi Hsp (sm_len' _ _ _ _ _ HS)) as (s'' & Hw & Hst).
    pose proof Hst as [h1 h2 h3 h4 h5 h6 h7 h8]. exists s''. split; [by eapply run_mov|]. split_and!; try done.
    + eapply Sem_set; try done.
      * intros p Hp. rewrite h3. by apply HS.
      * intros j w y _ Hne Hj. by eapply holds_slot_step.
      * intros y _ _ Hh. unfold QRegAllocInv.holds in *. cbn. rewrite HR in *. destruct Hh as [Hh _].
        rewrite h3. split; [done|]. intros _. transitivity (narrow (rt_type v) (Some x)); [exact h1|].
        rewrite <- Hh, Hx. subst x. by rewrite <- narrow_Some, narrow_idem.
    + intros p _. by rewrite h3.
    + intros Has. apply h7. destruct (rt_global v) eqn:Eg; [|done]. pose proof (Has i v Hi Eg HR). congruence.
  - apply movs_ok_snoc; [done|]. rewrite (slot_track_ok si types HV st i v), (reg_track_ok si types HV st i v) by done.
    by rewrite orb_true_r.
Qed.

(** Give a local a slot in the spill frame. *)
Lemma frame_step L st i v :
  W st -> Live L st -> ra_vregs st !! i = Some v -> rt_global v = false -> rt_spill v = NO_SPILL ->
  rt_loc v = REG -> rt_synced v = false ->
  exists o st', AllocFrameSlot i st = RA_ok tt st' /\ o <> NO_SPILL /\
    ra_vregs st' = <[i := set_spill o v]> (ra_vregs st) /\ ra_p2v st' = ra_p2v st /\
    ra_movs st' = ra_movs st /\ evolves L everywhere everywhere st st' tt2.
Proof.
  intros HW HL Hi Hg Hs HR Hns. unfold AllocFrameSlot.
  assert (Hty : exists sz, VTypeToSize (rt_type v) = Some sz /\ tsize v = sz /\ (sz = 1 \/ sz = 2 \/ sz = 4)).
  { pose proof (w_track _ _ _ HW i v Hi) as T. unfold track_ok in T. destruct (si !! i); [destruct T; congruence|].
    destruct T as [_ T]. pose proof (Forall_lookup_1 _ _ _ _ (vo_types _ _ HV) T) as Hu.
    unfold tsize. destruct (rt_type v); try done; eexists; split; try reflexivity; cbn; lia. }
  destruct Hty as (sz & Hsz & Hts & Hcase).
  set (o := (ra_frame st + (sz - 1)) / sz * sz).
  assert (Hnos : ~ has_slot v) by (intros [_ ?]; congruence).
  pose proof (w_frame _ _ _ HW) as Hfr.
  assert (Hslots : slots (ra_vregs st) + 1 <= 255).
  { pose proof (slots_le (<[i := mkTrack I32 false 0 0 MEM false]> (ra_vregs st))) as H.
    rewrite (slots_insert _ _ v), length_insert, (w_len _ _ _ HW) in H; [pose proof (vo_num _ _ HV); lia|done..]. }
  assert (Ho : ra_frame st <= o /\ o + sz <= 4 * (slots (ra_vregs st) + 1)).
  { unfold o. destruct Hcase as [-> | [-> | ->]]; zlia. }
  assert (Hu : u16 o = o) by (apply uN_id; unfold in_u; lia).
  assert (Hu2 : u16 (o + sz) = o + sz) by (apply uN_id; unfold in_u; lia).
  assert (Hno : o <> NO_SPILL) by (change NO_SPILL with 65535; lia).
  set (st' := mkRA (<[i := set_spill o v]> (ra_vregs st)) (ra_p2v st) (o + sz) (ra_movs st)).
  exists o, st'. split.
  { unfold mbind, RA_bind, get_track. rewrite Hi, Hs, Hg. cbn [negb orb]. rewrite Z.eqb_refl. cbn [negb orb].
    rewrite Hsz. cbn [from_opt mret RA_ret]. unfold bump_frame. fold o. rewrite Hu, Hu2.
    destruct (Z.ltb_spec frame_size (o + sz)) as [Hlt|]; [change frame_size with 1024 in Hlt; lia|].
    by rewrite (list_alter_is_insert _ _ _ _ Hi). }
  split; [done|]. split; [done|]. split; [done|]. split; [done|].
  assert (HI : forall j w, <[i := set_spill o v]> (ra_vregs st) !! j = Some w ->
    j = i /\ w = set_spill o v \/ j <> i /\ ra_vregs st !! j = Some w).
  { intros j w H. apply list_lookup_insert_Some in H as [(? & ? & ?)|(? & ?)]; [left|right]; split; congruence. }
  split.
  - destruct HW as [w1 w2 w3 w4 w5 wp wr w6 w7 w8 w9]. split; cbn [st' ra_vregs ra_p2v ra_frame]; try done.
    + by rewrite length_insert.
    + intros j w [[-> ->]|[Hne Hj]]%HI; [|by apply w3]. specialize (w3 i v Hi). unfold track_ok in *.
      destruct (si !! i); [destruct w3; congruence|done].
    + intros p j H. destruct (w4 p j H) as (w & Hw & ? & ?). destruct (decide (j = i)) as [->|].
      * exists (set_spill o v). rewrite list_lookup_insert_eq by (by eapply lookup_lt_Some).
        assert (w = v) as -> by congruence. done.
      * exists w. by rewrite list_lookup_insert_ne.
    + intros j w [[-> ->]|[Hne Hj]]%HI; [|by apply w5]. intros _. exact (w5 i v Hi HR).
    + intros j w [[-> ->]|[Hne Hj]]%HI; [intros _; exact (wp i v Hi HR)|by apply wp with j].
    + intros j w [[-> ->]|[Hne Hj]]%HI; [exact (wr i v Hi)|by apply (wr j)].
    + intros j w [[-> ->]|[Hne Hj]]%HI; [done|by apply w6 with j].
    + intros j w [[-> ->]|[Hne Hj]]%HI HS; [cbn; change (tsize (set_spill o v)) with (tsize v); lia|].
      pose proof (w7 j w Hj HS). lia.
    + intros j k a b [[-> ->]|[Hnj Hj]]%HI [[-> ->]|[Hnk Hk]]%HI Hne HS1 HS2; try done.
      * right. pose proof (w7 k b Hk HS2). cbn. lia.
      * left. pose proof (w7 j a Hj HS1). cbn. lia.
      * by eapply w8.
    + rewrite (slots_insert _ _ v); [lia|done..].
  - eapply Live_set; try done. intros _. cbn. by rewrite HR.
  - done.
  - eapply allsynced_set; try done. cbn. congruence.
  - exists []. split; [by rewrite app_nil_r|]. intros s s' HS. exists s'. split; [done|]. split_and!; try done.
    eapply Sem_set; try done; try apply HS.
    intros x _ _. unfold QRegAllocInv.holds. cbn. rewrite HR, Hns. by intros [? _].
  - done.
Qed.

(** ** [SyncSpill] and [Spill] *)
Lemma upd_track_eq f i st v :
  ra_vregs st !! i = Some v ->
  upd_track f i st = RA_ok tt (mkRA (<[i := f v]> (ra_vregs st)) (ra_p2v st) (ra_frame st) (ra_movs st)).
Proof. intros Hi. unfold upd_track. by rewrite (list_alter_is_insert _ _ _ _ Hi). Qed.

Lemma SyncSpill_spec L st i v :
  W st -> Live L st -> ra_vregs st !! i = Some v -> rt_loc v <> DEAD ->
  exists st' v', SyncSpill i st = RA_ok tt st' /\ evolves L everywhere everywhere st st' tt2 /\
    ra_vregs st' = <[i := v']> (ra_vregs st) /\ ra_p2v st' = ra_p2v st /\
    rt_loc v' = rt_loc v /\ rt_p v' = rt_p v /\ rt_global v' = rt_global v /\
    (rt_loc v = REG -> rt_synced v' = true).
Proof.
  intros HW HL Hi Hd. unfold SyncSpill, mbind, RA_bind, get_track. rewrite Hi.
  assert (Hid : rt_loc v = MEM \/ rt_synced v = true ->
    exists st' v', @RA_ok unit tt st = RA_ok tt st' /\ evolves L everywhere everywhere st st' tt2 /\
    ra_vregs st' = <[i := v']> (ra_vregs st) /\ ra_p2v st' = ra_p2v st /\
    rt_loc v' = rt_loc v /\ rt_p v' = rt_p v /\ rt_global v' = rt_global v /\
    (rt_loc v = REG -> rt_synced v' = true)).
  { intros Hc. exists st, v. rewrite list_insert_id by done. split_and!; try done.
    - by apply evolves_refl.
    - destruct Hc; [congruence|done]. }
  destruct (rt_synced v) eqn:Esy; [apply Hid; auto|].
  destruct (rt_loc v) eqn:El; [done|apply Hid; auto|]. clear Hid.
  unfold EmitSpill, mbind, RA_bind, get_track. rewrite Hi.
  destruct (negb (rt_global v) && (rt_spill v =? NO_SPILL)) eqn:Es.
  - bool_to_prop. apply negb_true_iff in H.
    destruct (frame_step L st i v HW HL Hi H H0 El Esy) as (o & st1 & -> & Ho & E1 & E2 & E3 & Hev).
    assert (Hi1 : ra_vregs st1 !! i = Some (set_spill o v)).
    { rewrite E1, list_lookup_insert_eq; [done|]. by eapply lookup_lt_Some. }
    rewrite Hi1. cbn [EmitMov]. rewrite (upd_track_eq _ _ _ (set_spill o v)) by exact Hi1.
    cbn [ra_vregs ra_p2v ra_frame ra_movs].
    eexists _, (set_synced true (set_spill o v)). split; [reflexivity|]. split.
    + eapply evolves_then; [exact Hev|].
      apply (spill_step L st1 i (set_spill o v)); try done; apply Hev.
    + cbn. rewrite E1, list_insert_insert_eq. done.
  - unfold mret, RA_ret. rewrite Hi. cbn [EmitMov]. rewrite (upd_track_eq _ _ _ v) by exact Hi.
    cbn [ra_vregs ra_p2v ra_frame ra_movs].
    eexists _, (set_synced true v). split; [reflexivity|]. split.
    + apply spill_step; try done. destruct (rt_global v) eqn:Eg; [by eapply global_spill|].
      cbn in Es. bool_to_prop. done.
    + done.
Qed.

(** [Release<false>] of a track that is up to date in memory. *)
Definition released (v : RTrack) : RTrack := set_loc MEM v.
Definition release_p2v (st : RAState) (v : RTrack) : list (option nat) :=
  if bool_decide (rt_loc v = REG) then <[rt_p v := None]> (ra_p2v st) else ra_p2v st.

Lemma release_W st i v :
  W st -> ra_vregs st !! i = Some v ->
  W (mkRA (<[i := released v]> (ra_vregs st)) (release_p2v st v) (ra_frame st) (ra_movs st)).
Proof.
  intros HW Hi. eapply W_set; try done.
  - unfold release_p2v. case_bool_decide; rewrite ?length_insert; apply HW.
  - intros p j Hj. right. unfold release_p2v in Hj. case_bool_decide as HR.
    + apply list_lookup_insert_Some in Hj as [(_ & ? & _)|[Hne Hj]]; [done|]. split; [|done]. intros ->.
      destruct (p2v_self st i v p HW Hi Hj). congruence.
    + split; [|done]. intros ->. destruct (p2v_self st i v p HW Hi Hj). done.
  - intros p j Hne Hj. unfold release_p2v. case_bool_decide as HR; [|done].
    rewrite list_lookup_insert_ne; [done|]. intros <-.
    pose proof (w_reg _ _ _ HW i v Hi HR). congruence.
Qed.

Lemma Release_eq i st v :
  ra_vregs st !! i = Some v ->
  Release false i st = RA_ok tt (mkRA (<[i := released v]> (ra_vregs st)) (release_p2v st v) (ra_frame st) (ra_movs st)).
Proof.
  intros Hi. unfold Release, mbind, RA_bind, get_track, release_p2v. rewrite Hi.
  rewrite (upd_track_eq _ _ _ v Hi). destruct (rt_global v); by case_bool_decide.
Qed.

Lemma release_step L st i v :
  W st -> Live L st -> ra_vregs st !! i = Some v -> rt_loc v <> DEAD ->
  (rt_loc v = REG -> rt_synced v = true) ->
  evolves L (fun p => rt_loc v = REG -> p <> rt_p v) everywhere st
    (mkRA (<[i := released v]> (ra_vregs st)) (release_p2v st v) (ra_frame st) (ra_movs st)) tt2.
Proof.
  intros HW HL Hi Hd Hsy. split.
  - by apply release_W.
  - eapply Live_set; try done. intros HLi. split; [done|]. intros _.
    destruct (HL i HLi) as (w & Hw & _ & Hm). assert (w = v) as -> by congruence.
    destruct (rt_loc v) eqn:El; [done|by apply Hm|]. cbn. eapply w_synced; eauto.
  - intros p Hp. cbn. unfold release_p2v. case_bool_decide; [|done].
    rewrite list_lookup_insert_ne; [done|]. intros <-. by apply Hp.
  - by eapply allsynced_set.
  - exists []. split; [by rewrite app_nil_r|]. intros s s' HS. exists s'. split; [done|]. split_and!; try done.
    eapply Sem_set; try done; try apply HS.
    intros x _ _. unfold QRegAllocInv.holds. cbn. destruct (rt_loc v); [done..|]. intros [_ H]. by apply H, Hsy.
  - done.
Qed.

Lemma Spill_spec L st i v :
  W st -> Live L st -> ra_vregs st !! i = Some v -> rt_loc v <> DEAD ->
  exists st' v', Spill i st = RA_ok tt st' /\
    evolves L (fun p => rt_loc v = REG -> p <> rt_p v) everywhere st st' tt2 /\
    ra_vregs st' = <[i := v']> (ra_vregs st) /\ rt_loc v' = MEM /\ rt_global v' = rt_global v /\
    ra_p2v st' = release_p2v st v.
Proof.
  intros HW HL Hi Hd. unfold Spill, mbind, RA_bind.
  destruct (SyncSpill_spec L st i v HW HL Hi Hd) as (st1 & v1 & -> & Hev & E1 & E2 & El & Ep & Eg & Esy).
  assert (Hi1 : ra_vregs st1 !! i = Some v1).
  { rewrite E1, list_lookup_insert_eq; [done|]. by eapply lookup_lt_Some. }
  rewrite (Release_eq i st1 v1 Hi1). eexists _, (released v1). split; [reflexivity|]. split.
  - eapply evolves_then.
    + by eapply evolves_weaken; [| | |exact Hev].
    + pose proof (release_step L st1 i v1) as H. rewrite El, Ep in H.
      apply H; [apply Hev|apply Hev|done..].
  - cbn. rewrite E1, list_insert_insert_eq. split_and!; try done.
    unfold release_p2v. by rewrite El, Ep, E2.
Qed.

(** ** [AllocPReg] *)
Definition target (desire avoid : Z) (p : nat) : Prop :=
  (p < N_PREGS)%nat /\ RegMask.Test desire (Z.of_nat p) = true /\ RegMask.Test avoid (Z.of_nat p) = false.

Lemma target_test desire avoid p :
  (p < N_PREGS)%nat ->
  RegMask.Test (RegMask.and_ desire (RegMask.not_ avoid)) (Z.of_nat p) = true <->
  RegMask.Test desire (Z.of_nat p) = true /\ RegMask.Test avoid (Z.of_nat p) = false.
Proof.
  intros Hp. change N_PREGS with 16%nat in Hp.
  rewrite RegMask.Test_and, RegMask.Test_not, andb_true_iff, negb_true_iff by lia. done.
Qed.

Lemma AllocPReg_spec L st desire avoid :
  W st -> Live L st -> (exists p, target desire avoid p) ->
  exists p st', AllocPReg desire avoid st = RA_ok p st' /\ target desire avoid p /\
    evolves L (fun q => q <> p) everywhere st st' tt2 /\ ra_p2v st' !! p = Some None /\
    (forall j, ra_p2v st !! p <> Some (Some j) -> ra_vregs st' !! j = ra_vregs st !! j) /\
    (forall j v, ra_vregs st !! j = Some v -> exists v', ra_vregs st' !! j = Some v' /\
       rt_global v' = rt_global v /\ (rt_loc v = MEM -> v' = v)).
Proof.
  intros HW HL (p0 & Hp0 & Ht0). unfold AllocPReg.
  destruct (List.find _ _) as [p|] eqn:E1.
  - apply find_some in E1 as [Hin Ht]. apply in_seq in Hin. bool_to_prop.
    exists p, st. split; [done|]. split; [split; [lia|]; by apply target_test; [lia|]|].
    split; [by apply evolves_refl|]. split; [|by eauto].
    destruct (lookup_lt_is_Some_2 (ra_p2v st) p) as [o Ho]; [rewrite (w_plen _ _ _ HW); lia|].
    rewrite Ho in H |- *. cbn in H. by subst.
  - clear E1. destruct (List.find _ _) as [p|] eqn:E2.
    + apply find_some in E2 as [Hin Ht]. apply in_seq in Hin.
      unfold Spill_p, mbind, RA_bind, get_p2v.
      destruct (lookup_lt_is_Some_2 (ra_p2v st) p) as [o Ho]; [rewrite (w_plen _ _ _ HW); lia|].
      assert (Htg : target desire avoid p) by (split; [lia|]; by apply target_test; [lia|]).
      rewrite Ho. cbn [mjoin option_join]. destruct o as [i|].
      * destruct (w_p2v _ _ _ HW p i Ho) as (v & Hi & HR & Hp).
        destruct (Spill_spec L st i v HW HL Hi ltac:(congruence)) as (st' & v' & -> & Hev & E1 & Hl & Hg & E2).
        exists p, st'. split; [done|]. split; [done|]. split; [|split].
        -- eapply evolves_weaken; [| | |exact Hev]; [|done..]. intros q Hq _. congruence.
        -- rewrite E2. unfold release_p2v. rewrite bool_decide_true by done. rewrite Hp.
           apply list_lookup_insert_eq. rewrite (w_plen _ _ _ HW). lia.
        -- rewrite E1. split.
           ++ intros j Hj. rewrite list_lookup_insert_ne; [done|]. intros <-. by apply Hj.
           ++ intros j w Hw. destruct (decide (i = j)) as [->|].
              ** exists v'. rewrite list_lookup_insert_eq by (by eapply lookup_lt_Some).
                 assert (w = v) as -> by congruence. split_and!; congruence.
              ** exists w. by rewrite list_lookup_insert_ne.
      * exists p, st. split; [done|]. split; [done|]. split; [by apply evolves_refl|].
        split; [done|]. split; [done|]. eauto.
    + exfalso. assert (Hin : In p0 (seq 0 N_PREGS)) by (apply in_seq; lia).
      pose proof (find_none _ _ E2 p0 Hin) as Hf. cbn beta in Hf.
      rewrite (proj2 (target_test desire avoid p0 Hp0) Ht0) in Hf. done.
Qed.

(** ** [Fill], and copies into a free register *)
Lemma holds_set_pgpr st p x j w y s' :
  W st -> ra_p2v st !! p = Some None -> ra_vregs st !! j = Some w ->
  holds w y s' -> holds w y (q_set_pgpr (Z.of_nat p) x s').
Proof.
  intros HW Hp Hj. unfold QRegAllocInv.holds. destruct (rt_loc w) eqn:El; [done| |].
  - unfold slot. by destruct (rt_global w).
  - intros [H1 H2]. cbn. rewrite lookup_insert_ne.
    + split; [done|]. intros H. specialize (H2 H). unfold slot in *. by destruct (rt_global w).
    + pose proof (w_reg _ _ _ HW j w Hj El) as H. intros E. apply Nat2Z.inj in E. congruence.
Qed.

Lemma set_pgpr_total p x s' :
  (forall q, (q < N_PREGS)%nat -> is_Some (q_pgpr s' !! Z.of_nat q)) ->
  forall q, (q < N_PREGS)%nat -> is_Some (q_pgpr (q_set_pgpr (Z.of_nat p) x s') !! Z.of_nat q).
Proof.
  intros H q Hq. cbn. destruct (decide (Z.of_nat p = Z.of_nat q)) as [->|].
  - rewrite lookup_insert_eq. by eexists.
  - rewrite lookup_insert_ne by done. auto.
Qed.

Definition filled (p : nat) (v : RTrack) : RTrack :=
  mkTrack (rt_type v) (rt_global v) (rt_spill v) p REG true.

Lemma fill_step L st i v p :
  W st -> Live L st -> L i -> ~ resv si i -> ra_vregs st !! i = Some v -> rt_loc v = MEM ->
  ra_p2v st !! p = Some None -> RegMask.Test GPR_FIXED (Z.of_nat p) = false ->
  evolves L (fun q => q <> p) (fun q => q <> p) st
    (mkRA (<[i := filled p v]> (ra_vregs st)) (<[p := Some i]> (ra_p2v st)) (ra_frame st)
       (ra_movs st ++ [InstUnop _mov (preg (rt_type v) p) (slot v)])) tt2.
Proof.
  intros HW HL HLi Hnr Hi HM Hp Hfix.
  assert (Hplt : (p < length (ra_p2v st))%nat) by (by eapply lookup_lt_Some).
  destruct (HL i HLi) as (w & Hw & _ & Hsp). assert (w = v) as -> by congruence. specialize (Hsp HM).
  split.
  - eapply W_set; try done.
    + rewrite length_insert. apply HW.
    + intros q j Hj. apply list_lookup_insert_Some in Hj as [(<- & [= <-] & _)|[Hne Hj]]; [by left|].
      right. split; [|done]. intros ->. destruct (p2v_self st i v q HW Hi Hj). congruence.
    + intros _. by apply list_lookup_insert_eq.
    + intros q j Hne Hj. rewrite list_lookup_insert_ne; [done|]. intros <-. congruence.
  - eapply Live_set; try done.
  - intros q Hq. cbn. by rewrite list_lookup_insert_ne.
  - by eapply allsynced_set.
  - eexists. split; [done|]. intros s s' HS. destruct (sm_val _ _ _ _ _ HS i v HLi Hi) as (x & Hx & Hh).
    unfold QRegAllocInv.holds in Hh. rewrite HM in Hh.
    rewrite narrow_Some in Hh.
    exists (q_set_pgpr (Z.of_nat p) (merge_reg (rt_type v) (q_pgpr s' !! Z.of_nat p) (trunc (rt_type v) x)) s').
    split; [by eapply run_mov|]. split_and!; try done.
    + eapply Sem_set; try done; try apply HS.
      * apply set_pgpr_total, HS.
      * intros j w y _ Hne Hj. by eapply holds_set_pgpr.
      * intros y _ Hy _. assert (x = y) as <- by congruence. unfold QRegAllocInv.holds. cbn.
        rewrite lookup_insert_eq, narrow_merge, !narrow_Some, trunc_trunc. split; [done|]. intros _.
        unfold slot in *. cbn. by destruct (rt_global v).
    + intros q Hq. cbn. rewrite lookup_insert_ne; [done|]. intros E. apply Nat2Z.inj in E. congruence.
  - apply movs_ok_snoc; [done|]. rewrite (slot_track_ok si types HV st i v), preg_ok by
      (done || by eapply track_type || by rewrite <- (w_plen _ _ _ HW)). by rewrite orb_true_r.
Qed.

Lemma copy_step L st i v p :
  W st -> Live L st -> L i -> ra_vregs st !! i = Some v -> rt_loc v = REG -> ra_p2v st !! p = Some None ->
  RegMask.Test GPR_FIXED (Z.of_nat p) = false ->
  evolves L everywhere (fun q => q <> p) st
    (mkRA (ra_vregs st) (ra_p2v st) (ra_frame st)
       (ra_movs st ++ [InstUnop _mov (preg (rt_type v) p) (preg (rt_type v) (rt_p v))]))
    (fun s s'' => narrow (rt_type v) (q_pgpr s'' !! Z.of_nat p) = narrow (rt_type v) (vval si i s)).
Proof.
  intros HW HL HLi Hi HR Hp Hfix. split; try done.
  - by destruct HW.
  - eexists. split; [done|]. intros s s' HS. destruct (sm_val _ _ _ _ _ HS i v HLi Hi) as (x & Hx & Hh).
    unfold QRegAllocInv.holds in Hh. rewrite HR in Hh. destruct Hh as [Hh _]. rewrite narrow_Some in Hh.
    exists (q_set_pgpr (Z.of_nat p) (merge_reg (rt_type v) (q_pgpr s' !! Z.of_nat p) (trunc (rt_type v) x)) s').
    split; [by eapply run_mov|]. split_and!; try done.
    + destruct HS as [a1 a2 a3 a4 a5 a6 a7]. split; try done.
      * by apply set_pgpr_total.
      * intros j w HLj Hj. destruct (a7 j w HLj Hj) as (y & Hy & Hhy). exists y. split; [done|].
        by eapply holds_set_pgpr.
    + intros q Hq. cbn. rewrite lookup_insert_ne; [done|]. intros E. apply Nat2Z.inj in E. congruence.
    + rewrite Hx. cbn. by rewrite lookup_insert_eq, narrow_merge, !narrow_Some, trunc_trunc.
  - apply movs_ok_snoc; [done|]. rewrite (reg_track_ok si types HV st i v), preg_ok; try done.
    + rewrite <- (w_plen _ _ _ HW). by eapply lookup_lt_Some.
    + by eapply track_type.
Qed.

Lemma Fill_spec L st i desire avoid :
  W st -> Live L st -> L i -> ~ resv si i -> (exists p, target desire avoid p) ->
  (forall p, RegMask.Test GPR_FIXED (Z.of_nat p) = true -> RegMask.Test avoid (Z.of_nat p) = true) ->
  exists st' v', Fill i desire avoid st = RA_ok tt st' /\ ra_vregs st' !! i = Some v' /\ rt_loc v' = REG /\
    evolves L (fun q => RegMask.Test avoid (Z.of_nat q) = true) (fun q => RegMask.Test avoid (Z.of_nat q) = true)
      st st' tt2.
Proof.
  intros HW HL HLi Hnr Htg Hfix. destruct (HL i HLi) as (v & Hi & Hd & _).
  unfold Fill, mbind, RA_bind, get_track. rewrite Hi. destruct (rt_loc v) eqn:El; [done| |].
  - destruct (AllocPReg_spec L st desire avoid HW HL Htg) as (p & st1 & -> & (Hp16 & Hdes & Hav) & Hev & Hfree & _ & Hkeep).
    destruct (Hkeep i v Hi) as (v1 & Hi1 & _ & Hv1). rewrite (Hv1 El) in Hi1. clear Hv1 v1.
    assert (Hil : (i < length (ra_vregs st1))%nat) by (by eapply lookup_lt_Some).
    rewrite (upd_track_eq _ _ _ v Hi1). rewrite (upd_track_eq _ _ _ (set_p p v)) by (cbn; by apply list_lookup_insert_eq).
    cbn [set_p2v ra_vregs ra_p2v ra_frame ra_movs]. rewrite list_insert_insert_eq.
    rewrite (upd_track_eq _ _ _ (set_loc REG (set_p p v))) by (cbn; by apply list_lookup_insert_eq).
    cbn [ra_vregs ra_p2v ra_frame ra_movs]. rewrite list_insert_insert_eq.
    change (set_synced true (set_loc REG (set_p p v))) with (filled p v).
    assert (Hsp : rt_spill v <> NO_SPILL).
    { destruct (HL i HLi) as (w & Hw & _ & Hsp). assert (w = v) as -> by congruence. auto. }
    eexists _, (filled p v). split; [|split; [|split; [done|]]].
    + unfold EmitFill, mbind, RA_bind, get_track. cbn [ra_vregs]. rewrite list_lookup_insert_eq by done.
      cbn [filled rt_spill]. destruct (Z.eqb_spec (rt_spill v) NO_SPILL); [done|]. reflexivity.
    + cbn. by apply list_lookup_insert_eq.
    + eapply evolves_then.
      * eapply evolves_weaken; [| | |exact Hev]; [|done..]. intros q Hq ->. congruence.
      * eapply evolves_weaken; [| | |apply (fill_step L st1 i v p)]; try done; try apply Hev; try (intros q Hq ->; congruence).
        destruct (RegMask.Test GPR_FIXED (Z.of_nat p)) eqn:E; [|done]. apply Hfix in E. congruence.
  - exists st, v. split_and!; try done. by apply evolves_refl.
Qed.
End steps.
