(* ===== verification/QRegAllocOps.v ===== *)
(** * Register allocation: operands, boundaries and calls

    [AllocOp] finds a register for every operand, the loops over the globals
    bring [CPUState] up to date, and calls lose nothing that is live. *)

From stdpp Require Import base tactics numbers list strings gmap.
From S2P Require Import Prelude Bitfield RV32Insn RV32Decode GuestState Interp InterpProofs VOperand Qir QirSem QirBuilder ArchTraits QSel QSelCorrect QRegAlloc QRegAllocInv QRegAllocSteps.

Import qir.

(** ** The loop of [CallOp] over the virtual registers

    No operation changes the number of tracks, and none hangs but the loop. *)
Definition steady {A} (c : RA A) : Prop :=
  forall st, match c st with RA_ok _ st' => length (ra_vregs st') = length (ra_vregs st) | RA_panic => True | RA_hang => False end.
Lemma steady_bind {A B} (c : RA A) (k : A -> RA B) : steady c -> (forall a, steady (k a)) -> steady (c ≫= k).
Proof.
  intros Hc Hk st. unfold mbind, RA_bind. specialize (Hc st). destruct (c st) as [a st1| |]; try done.
  specialize (Hk a st1). destruct (k a st1) as [b st2| |]; try done. congruence.
Qed.
Lemma steady_if {A} (b : bool) (c1 c2 : RA A) : steady c1 -> steady c2 -> steady (if b then c1 else c2).
Proof. by destruct b. Qed.
Lemma steady_ret {A} (a : A) : steady (mret a).
Proof. by intros st. Qed.
Lemma steady_get i : steady (get_track i).
Proof. intros st. unfold get_track. by destruct (ra_vregs st !! i). Qed.
Lemma steady_upd f i : steady (upd_track f i).
Proof. intros st. cbn. by rewrite length_alter. Qed.
Lemma steady_bump i sz : steady (bump_frame i sz).
Proof. intros st. unfold bump_frame. destruct (_ <? _); [done|]. cbn. by rewrite length_alter. Qed.
Lemma steady_opt {A} (o : option A) : steady (from_opt o).
Proof. by destruct o. Qed.

Ltac steady :=
  repeat lazymatch goal with
  | |- forall _, _ => intros
  | |- steady (_ ≫= _) => apply steady_bind
  | |- steady (if _ then _ else _) => apply steady_if
  | |- steady (match rt_loc ?v with _ => _ end) => destruct (rt_loc v)
  | |- steady (match ?o with Some _ => _ | None => _ end) => destruct o
  | |- steady (mret _) => apply steady_ret
  | |- steady (get_track _) => apply steady_get
  | |- steady (upd_track _ _) => apply steady_upd
  | |- steady (bump_frame _ _) => apply steady_bump
  | |- steady (from_opt _) => apply steady_opt
  | |- steady (set_p2v _ _) => by intros st
  | |- steady (get_p2v _) => by intros st
  | |- steady (EmitMov _ _) => by intros st
  | |- steady Panic => by intros st
  end.

Lemma steady_Spill i : steady (Spill i).
Proof. unfold Spill, SyncSpill, EmitSpill, AllocFrameSlot, Release. steady. Qed.
Lemma steady_Spill_p p : steady (Spill_p p).
Proof. unfold Spill_p. apply steady_bind; [steady|]. intros [i|]; [apply steady_Spill|steady]. Qed.
Lemma steady_for_each {A} (l : list A) f : (forall a, steady (f a)) -> steady (for_each l f).
Proof. intros Hf. induction l as [|a l IH]; cbn [for_each]; [apply steady_ret|]. apply steady_bind; [apply Hf|done]. Qed.
Lemma steady_clobber :
  steady (for_each (seq 0 N_PREGS) (fun p => if RegMask.Test GPR_CALL_CLOBBER (Z.of_nat p) then Spill_p p else mret tt)).
Proof. apply steady_for_each. intros p. apply steady_if; [apply steady_Spill_p|apply steady_ret]. Qed.

(** The turn for one register, as in the loops of the block boundaries. *)
Definition spill_global (i : nat) : RA unit := v ← get_track i; if rt_global v then Spill i else mret tt.
Lemma steady_global i : steady (spill_global i).
Proof. apply steady_bind; [apply steady_get|]. intros v. apply steady_if; [apply steady_Spill|apply steady_ret]. Qed.

Lemma globals_loop_S fuel i st :
  globals_loop (S fuel) i st =
  if i <? Z.of_nat (length (ra_vregs st)) then (spill_global (Z.to_nat i);; globals_loop fuel (u8 (i + 1))) st else RA_ok tt st.
Proof.
  cbn [globals_loop]. unfold mbind at 1, RA_bind at 1, n_vregs. destruct (_ <? _); [|done].
  unfold spill_global, mbind, RA_bind. by destruct (get_track (Z.to_nat i) st).
Qed.

(** Up to 255 registers it is the loop over all of them. *)
Lemma globals_loop_eq m : forall k fuel st,
  length (ra_vregs st) = (k + m)%nat -> (k + m <= 255)%nat -> (m < fuel)%nat ->
  globals_loop fuel (Z.of_nat k) st = for_each (seq k m) spill_global st.
Proof.
  induction m as [|m IH]; intros k fuel st Hlen Hmax Hf; (destruct fuel as [|fuel]; [lia|]); rewrite globals_loop_S, Hlen.
  - destruct (Z.ltb_spec (Z.of_nat k) (Z.of_nat (k + 0))); [lia|]. done.
  - destruct (Z.ltb_spec (Z.of_nat k) (Z.of_nat (k + S m))); [|lia]. rewrite Nat2Z.id. cbn [seq for_each].
    pose proof (steady_global k st) as Hs. unfold mbind, RA_bind. destruct (spill_global k st) as [a st1| |]; try done.
    rewrite uN_id by (split; lia). replace (Z.of_nat k + 1) with (Z.of_nat (S k)) by lia. apply IH; lia.
Qed.

(** Above it never ends: the counter stays below 256. *)
Lemma globals_loop_never fuel : forall i st st',
  0 <= i < 256 -> (256 <= length (ra_vregs st))%nat -> globals_loop fuel i st <> RA_ok tt st'.
Proof.
  induction fuel as [|fuel IH]; intros i st st' Hi Hlen; [done|]. rewrite globals_loop_S.
  destruct (Z.ltb_spec i (Z.of_nat (length (ra_vregs st)))); [|lia].
  pose proof (steady_global (Z.to_nat i) st) as Hs. unfold mbind, RA_bind. destruct (spill_global _ st) as [a st1| |]; try done.
  apply IH; [exact (uN_range 8 (i + 1) ltac:(lia))|lia].
Qed.

(** A state in which every register is free and no global is in a register or
    dead, as at the start of a block. *)
Definition at_rest (st : RAState) : Prop :=
  (forall (p i : nat), ra_p2v st !! p <> Some (Some i)) /\
  forall (i : nat) v, ra_vregs st !! i = Some v -> rt_global v = true -> rt_loc v = MEM.
Lemma rest_Spill_p st p : at_rest st -> Spill_p p st = RA_ok tt st.
Proof.
  intros [Hp _]. unfold Spill_p, mbind, RA_bind, get_p2v. destruct (ra_p2v st !! p) as [[i|]|] eqn:E; try done. by destruct (Hp p i).
Qed.
Lemma rest_global st i : at_rest st -> (i < length (ra_vregs st))%nat -> spill_global i st = RA_ok tt st.
Proof.
  intros [_ Hg] Hi. apply lookup_lt_is_Some in Hi as [v Hv]. unfold spill_global, mbind, RA_bind, get_track. rewrite Hv.
  destruct (rt_global v) eqn:Eg; [|done]. pose proof (Hg i v Hv Eg) as El.
  assert (Hs : SyncSpill i st = RA_ok tt st)
    by (unfold SyncSpill, mbind, RA_bind, get_track; rewrite Hv, El; by destruct (rt_synced v)).
  unfold Spill, Release, mbind, RA_bind, get_track. rewrite Hs, Hv. unfold upd_track. rewrite El, Eg.
  assert (Ha : alter (set_loc MEM) i (ra_vregs st) = ra_vregs st).
  { apply list_eq. intros j. rewrite list_lookup_alter. case_decide as Ej; [subst j|done]. rewrite Hv. cbn. destruct v; cbn in *. by subst. }
  rewrite Ha. by destruct st.
Qed.
Lemma rest_clobber st l : at_rest st ->
  for_each l (fun p => if RegMask.Test GPR_CALL_CLOBBER (Z.of_nat p) then Spill_p p else mret tt) st = RA_ok tt st.
Proof.
  intros Hr. induction l as [|p l IH]; [done|]. cbn [for_each]. unfold mbind, RA_bind.
  destruct (RegMask.Test _ _); [rewrite rest_Spill_p by done|]; exact IH.
Qed.
Lemma globals_loop_rest fuel st : at_rest st -> (256 <= length (ra_vregs st))%nat ->
  forall i, 0 <= i < 256 -> globals_loop fuel i st = RA_hang.
Proof.
  intros Hr Hlen. induction fuel as [|fuel IH]; intros i Hi; [done|]. rewrite globals_loop_S.
  destruct (Z.ltb_spec i (Z.of_nat (length (ra_vregs st)))); [|lia]. unfold mbind, RA_bind. rewrite rest_global by (done || lia).
  apply IH. exact (uN_range 8 (i + 1) ltac:(lia)).
Qed.


(** ** There is always a register left *)
Definition free_in (mask avoid : Z) : bool :=
  existsb (fun p => RegMask.Test mask (Z.of_nat p) && negb (RegMask.Test avoid (Z.of_nat p))) (seq 0 N_PREGS).

Lemma free_in_target mask avoid : free_in mask avoid = true -> exists p, target mask avoid p.
Proof.
  intros H. apply existsb_exists in H as (p & Hp & H). apply in_seq in Hp. bool_to_prop.
  apply negb_true_iff in H0. exists p. split; [lia|done].
Qed.

(** Whatever registers the inputs get in this order, the next one and the
    outputs still find one. *)
Fixpoint feasible (ct : list RAOpCt) (dn : nat) (avoid : Z) (order : list nat) : bool :=
  match order with
  | [] => forallb (fun c => free_in (cr c) avoid) (take dn ct)
  | i :: order =>
      match ct !! (dn + i)%nat with
      | None => false
      | Some c =>
          free_in (cr c) avoid && feasible ct dn avoid order &&
          forallb (fun p => feasible ct dn (RegMask.Set_ avoid (Z.of_nat p)) order) (seq 0 N_PREGS)
      end
  end.

Definition in_order (op : Op) (c : InstCt) : list nat := take (n_in op) (drop (n_out op) (ic_order c)).

Lemma op_feasible op c :
  op_ct op = Some c -> feasible (ic_ct c) (n_out op) GPR_FIXED (in_order op c) = true.
Proof.
  assert (H : match op_ct op with
              | Some c => feasible (ic_ct c) (n_out op) GPR_FIXED (in_order op c)
              | None => true end = true) by (destruct op; vm_compute; reflexivity).
  intros E. by rewrite E in H.
Qed.

Lemma in_order_perm op c : op_ct op = Some c -> in_order op c ≡ₚ seq 0 (n_in op).
Proof.
  assert (H : match op_ct op with
              | Some c => bool_decide (in_order op c ≡ₚ seq 0 (n_in op))
              | None => true end = true) by (destruct op; vm_compute; reflexivity).
  intros E. rewrite E in H. by apply bool_decide_eq_true in H.
Qed.

Lemma out_order op c : op_ct op = Some c -> take (n_out op) (ic_order c) = seq 0 (n_out op).
Proof.
  assert (H : match op_ct op with
              | Some c => bool_decide (take (n_out op) (ic_order c) = seq 0 (n_out op))
              | None => true end = true) by (destruct op; vm_compute; reflexivity).
  intros E. rewrite E in H. by apply bool_decide_eq_true in H.
Qed.

Lemma GPR_ALL_test p : (p < N_PREGS)%nat -> RegMask.Test GPR_ALL (Z.of_nat p) = true.
Proof.
  intros Hp. assert (H : forallb (fun p => RegMask.Test GPR_ALL (Z.of_nat p)) (seq 0 N_PREGS) = true) by done.
  rewrite forallb_forall in H. apply H, in_seq. lia.
Qed.

Section ops.
Context (si : StateInfo) (types : list VType) (clob : Z -> option Z) (weaks : list bool).
Context (HV : vregs_ok si types).
Notation read := (read_opnd si).
Notation write := (write_opnd si).
Notation run := (exec_list si clob weaks).
Notation W := (W si types).
Notation Sem := (Sem si).
Notation holds := (holds si).
Notation evolves := (evolves si types clob weaks).
Notation everywhere := (fun _ : nat => True).
Notation avoided avoid := (fun q : nat => RegMask.Test avoid (Z.of_nat q) = true).

Definition covers_fixed (avoid : Z) : Prop :=
  forall p, RegMask.Test GPR_FIXED (Z.of_nat p) = true -> RegMask.Test avoid (Z.of_nat p) = true.

Lemma evolves_val L A G st st' i v :
  evolves L A G st st' tt2 -> L i -> ra_vregs st' !! i = Some v -> rt_loc v = REG ->
  evolves L A G st st' (fun s s'' =>
    narrow (rt_type v) (q_pgpr s'' !! Z.of_nat (rt_p v)) = narrow (rt_type v) (vval si i s)).
Proof.
  intros [e1 e2 e3 e4 (new & e5 & e6)] HL Hi HR. split; try done. exists new. split; [done|].
  intros s s' HS. destruct (e6 s s' HS) as (s'' & ? & HS' & ? & ? & _). exists s''. split_and!; try done.
  destruct (sm_val _ _ _ _ _ HS' i v HL Hi) as (x & -> & Hh). unfold QRegAllocInv.holds in Hh.
  rewrite HR in Hh. apply Hh.
Qed.

Lemma alloc_input_spec L ct dn avoid srcl i c t r st :
  slot_size t <= slot_size (vtype si types (Z.to_nat r)) -> W st -> Live L st -> L (Z.to_nat r) -> ~ resv si (Z.to_nat r) -> ct !! (dn + i)%nat = Some c -> srcl !! i = Some (VGPR t r) ->
  free_in (cr c) avoid = true -> covers_fixed avoid ->
  exists p st',
    alloc_input ct dn (avoid, srcl) i st = RA_ok (RegMask.Set_ avoid (Z.of_nat p), <[i := preg t p]> srcl) st' /\
    (p < N_PREGS)%nat /\ RegMask.Test (cr c) (Z.of_nat p) = true /\ RegMask.Test GPR_FIXED (Z.of_nat p) = false /\
    evolves L (avoided avoid) (avoided avoid) st st'
      (fun s s'' => narrow t (q_pgpr s'' !! Z.of_nat p) = narrow t (vval si (Z.to_nat r) s)) /\
    (cr c = GPR_ALL -> ra_p2v st' !! p = Some (Some (Z.to_nat r))).
Proof.
  intros Hsz HW HL HLr Hnr Hc Hi Hfree Hfix. apply free_in_target in Hfree as Htg.
  assert (Hty : forall o o', narrow (vtype si types (Z.to_nat r)) o = narrow (vtype si types (Z.to_nat r)) o' ->
    narrow t o = narrow t o').
  { intros o o' E. by rewrite <- (narrow_narrow t _ o Hsz), E, narrow_narrow. }
  unfold alloc_input, mbind, RA_bind. rewrite Hc, Hi. cbn [from_opt mret RA_ret].
  destruct (Fill_spec si types clob weaks HV L st (Z.to_nat r) (cr c) avoid HW HL HLr Hnr Htg Hfix)
    as (st1 & v1 & -> & Hv1 & HR1 & Hev1).
  unfold get_track at 1. rewrite Hv1.
  assert (Hlt : (rt_p v1 < N_PREGS)%nat) by (eapply reg_lt; [apply Hev1|done..]).
  destruct (RegMask.Test (cr c) (Z.of_nat (rt_p v1))) eqn:Et; cbn [negb].
  - exists (rt_p v1), st1. split; [done|]. split; [done|]. split; [done|]. split; [|split].
    + eapply w_pool; [apply Hev1|done..].
    + eapply evolves_weaken; [| | |by eapply evolves_val]; [done|done|]. intros s s'' E.
      apply Hty. by rewrite <- (track_vtype si types st1 _ v1 (ev_W _ _ _ _ _ _ _ _ _ _ Hev1) Hv1).
    + intros _. eapply w_reg; [apply Hev1|done..].
  - destruct (AllocPReg_spec si types clob weaks HV L st1 (cr c) avoid) as
      (p & st2 & -> & (Hp & Hd & Ha) & Hev2 & Hfr & Hsame & _); [apply Hev1|apply Hev1|done|].
    assert (Hv2 : ra_vregs st2 !! Z.to_nat r = Some v1).
    { rewrite Hsame; [done|]. intros E.
      destruct (p2v_self si types st1 (Z.to_nat r) v1 p (ev_W _ _ _ _ _ _ _ _ _ _ Hev1) Hv1 E). congruence. }
    unfold get_track. rewrite Hv2. cbn [EmitMov].
    assert (Hpf : RegMask.Test GPR_FIXED (Z.of_nat p) = false).
    { destruct (RegMask.Test GPR_FIXED (Z.of_nat p)) eqn:E; [|done]. apply Hfix in E. congruence. }
    eexists p, _. split; [reflexivity|]. split; [done|]. split; [done|]. split; [done|]. split.
    + eapply evolves_then; [exact Hev1|].
      eapply evolves_then.
      * eapply evolves_weaken; [| | |exact Hev2]; [|done..]. intros q Hq ->. congruence.
      * eapply evolves_weaken; [| | |apply (copy_step si types clob weaks HV L st2 (Z.to_nat r) v1 p)];
          try done; try apply Hev2; [intros q Hq ->; congruence|]. intros s s'' E. apply Hty.
        by rewrite <- (track_vtype si types st1 _ v1 (ev_W _ _ _ _ _ _ _ _ _ _ Hev1) Hv1).
    + intros E. rewrite E, GPR_ALL_test in Et by done. done.
Qed.

(** ** All inputs *)
Record inputs_inv (L : nat -> Prop) (ct : list RAOpCt) (dn : nat) (orig : list VOperand) (st0 : RAState)
    (done : list nat) (avoid : Z) (srcl : list VOperand) (st : RAState) : Prop := {
  in_ev : evolves L (fun _ => False) (fun _ => False) st0 st
            (fun s s'' => forall k v v0, k ∈ done -> srcl !! k = Some v -> orig !! k = Some v0 -> read v s'' = read v0 s);
  in_len : length srcl = length orig;
  in_rest : forall k, k ∉ done -> srcl !! k = orig !! k;
  in_done : forall k v, k ∈ done -> srcl !! k = Some v ->
              (exists t c, v = VConst t c /\ orig !! k = Some v) \/
              (exists t q, v = preg t q /\ RegMask.Test avoid (Z.of_nat q) = true /\ reg_ok v = true /\
                 exists c, ct !! (dn + k)%nat = Some c /\ RegMask.Test (cr c) (Z.of_nat q) = true);
  in_alias : forall k t r c, k ∈ done -> orig !! k = Some (VGPR t r) -> ct !! (dn + k)%nat = Some c ->
               cr c = GPR_ALL ->
               exists p, srcl !! k = Some (preg t p) /\ ra_p2v st !! p = Some (Some (Z.to_nat r)) /\
                         RegMask.Test avoid (Z.of_nat p) = true;
  in_types : type_of <$> srcl = type_of <$> orig;
  in_fixed : covers_fixed avoid }.

Lemma Test_Set_mono avoid p q :
  RegMask.Test avoid (Z.of_nat q) = true -> RegMask.Test (RegMask.Set_ avoid (Z.of_nat p)) (Z.of_nat q) = true.
Proof. intros H. rewrite RegMask.Test_Set by lia. rewrite H. apply orb_true_r. Qed.
Lemma Test_Set_self avoid p : RegMask.Test (RegMask.Set_ avoid (Z.of_nat p)) (Z.of_nat p) = true.
Proof. rewrite RegMask.Test_Set by lia. by rewrite bool_decide_true. Qed.

(** An input the allocator is given: a constant or a live register. *)
Definition in_ok (L : nat -> Prop) (v : VOperand) : Prop :=
  match v with
  | VConst t c => in_u 32 c /\ trunc t c = c
  | VGPR t r => 0 <= r /\ L (Z.to_nat r) /\ ~ resv si (Z.to_nat r) /\
      t <> UNDEF /\ slot_size t <= slot_size (vtype si types (Z.to_nat r))
  | _ => False
  end.

Lemma alloc_input_inv L ct dn orig st0 done avoid srcl st i v0 c :
  inputs_inv L ct dn orig st0 done avoid srcl st -> i ∉ done -> orig !! i = Some v0 -> in_ok L v0 ->
  ct !! (dn + i)%nat = Some c -> free_in (cr c) avoid = true ->
  exists avoid' srcl' st', alloc_input ct dn (avoid, srcl) i st = RA_ok (avoid', srcl') st' /\
    inputs_inv L ct dn orig st0 (i :: done) avoid' srcl' st' /\
    (avoid' = avoid \/ exists p, (p < N_PREGS)%nat /\ avoid' = RegMask.Set_ avoid (Z.of_nat p)).
Proof.
  intros [h1 h2 h3 h4 h5 ht h6] Hni Hv0 Hok Hc Hfree.
  assert (Hsi : srcl !! i = Some v0) by (by rewrite h3).
  destruct v0 as [t k|t r| | |]; try done.
  - exists avoid, srcl, st. split; [|split; [|by left]].
    { unfold alloc_input, mbind, RA_bind. by rewrite Hc, Hsi. }
    split; try done.
    + eapply evolves_weaken; [done|done| |exact h1]. intros s s'' H j v w [->|Hj]%elem_of_cons Hv Hw; [|by eapply H].
      assert (v = VConst t k) as -> by congruence. assert (w = VConst t k) as -> by congruence. done.
    + intros j Hj. apply h3. set_solver.
    + intros j v [->|Hj]%elem_of_cons Hv; [|by eapply h4]. left. exists t, k. split; congruence.
    + intros j t' r' c' [->|Hj]%elem_of_cons; [congruence|by apply h5].
  - destruct Hok as (Hr & HLr & Hnr & Htu & Hsz).
    destruct (alloc_input_spec L ct dn avoid srcl i c t r st Hsz (ev_W _ _ _ _ _ _ _ _ _ _ h1)
      (ev_live _ _ _ _ _ _ _ _ _ _ h1) HLr Hnr Hc Hsi Hfree h6) as (p & st' & E & Hp & Hcr & Hpf & Hev & Hal).
    exists (RegMask.Set_ avoid (Z.of_nat p)), (<[i := preg t p]> srcl), st'. split; [done|].
    split; [|right; by exists p].
    assert (Hl : (i < length srcl)%nat) by (by eapply lookup_lt_Some).
    split.
    + eapply evolves_weaken; [| | |eapply (evolves_trans _ _ _ _ L); [exact h1|exact Hev|]].
      * done.
      * done.
      * intros s s'' [H1 H2] j v w Hj Hv Hw. destruct (decide (j = i)) as [->|Hne].
        -- rewrite list_lookup_insert_eq in Hv by done. injection Hv as <-.
           assert (w = VGPR t r) as -> by congruence. cbn [preg read_opnd]. rewrite H2.
           unfold vval. cbn [read_opnd]. by rewrite Z2Nat.id.
        -- rewrite list_lookup_insert_ne in Hv by done. apply (H1 j v w); [set_solver|done..].
      * intros s s1 s2 H Hpg j v w Hj Hv Hw. rewrite <- (H j v w Hj Hv Hw).
        destruct (h4 j v Hj Hv) as [(t' & c' & -> & _)|(t' & q & -> & Hq & _)]; [done|]. cbn. f_equal. by apply Hpg.
    + by rewrite length_insert.
    + intros j Hj. rewrite list_lookup_insert_ne by set_solver. apply h3. set_solver.
    + intros j v Hj Hv. destruct (decide (j = i)) as [->|Hne].
      * rewrite list_lookup_insert_eq in Hv by done. injection Hv as <-. right. exists t, p. split; [done|].
        split; [apply Test_Set_self|]. split; [by apply preg_ok|]. by exists c.
      * rewrite list_lookup_insert_ne in Hv by done. destruct (h4 j v ltac:(set_solver) Hv) as [?|(t' & q & -> & Hq & ?)];
          [by left|right]. exists t', q. split; [done|]. split; [by apply Test_Set_mono|done].
    + intros j t' r' c' Hj Ho Hc' Hall. destruct (decide (j = i)) as [->|Hne].
      * assert (c' = c) as -> by congruence. rewrite Hv0 in Ho. injection Ho as <- <-.
        exists p. rewrite list_lookup_insert_eq by done. split_and!; [done|auto|apply Test_Set_self].
      * destruct (h5 j t' r' c' ltac:(set_solver) Ho Hc' Hall) as (q & H1 & H2 & H3). exists q.
        rewrite list_lookup_insert_ne by done. split_and!; [done| |by apply Test_Set_mono].
        rewrite (ev_p2v _ _ _ _ _ _ _ _ _ _ Hev) by done. done.
    + rewrite list_fmap_insert, ht. apply list_insert_id. by rewrite list_lookup_fmap, Hv0.
    + intros q Hq. by apply Test_Set_mono, h6.
Qed.

Lemma alloc_inputs L ct dn orig st0 order done avoid srcl st :
  inputs_inv L ct dn orig st0 done avoid srcl st -> NoDup order -> (forall i, i ∈ order -> i ∉ done) ->
  (forall i, i ∈ order -> exists v0, orig !! i = Some v0 /\ in_ok L v0) ->
  feasible ct dn avoid order = true ->
  exists avoid' srcl' st', fold_ra (alloc_input ct dn) (avoid, srcl) order st = RA_ok (avoid', srcl') st' /\
    inputs_inv L ct dn orig st0 (rev order ++ done) avoid' srcl' st' /\
    forallb (fun c => free_in (cr c) avoid') (take dn ct) = true.
Proof.
  revert done avoid srcl st. induction order as [|i order IH]; intros done avoid srcl st Hinv Hnd Hd Hor Hf.
  - exists avoid, srcl, st. done.
  - cbn [feasible] in Hf. destruct (ct !! (dn + i)%nat) as [c|] eqn:Hc; [|done]. bool_to_prop.
    rename H into Hfr, H1 into Hf1, H0 into Hf2. rewrite forallb_forall in Hf2.
    apply NoDup_cons in Hnd as [Hni Hnd]. destruct (Hor i ltac:(set_solver)) as (v0 & Hv0 & Hok).
    destruct (alloc_input_inv L ct dn orig st0 done avoid srcl st i v0 c Hinv (Hd i ltac:(set_solver)) Hv0 Hok Hc Hfr)
      as (a1 & s1 & st1 & E1 & Hinv1 & Ha1).
    destruct (IH (i :: done) a1 s1 st1 Hinv1 Hnd) as (a2 & s2 & st2 & E2 & Hinv2 & Hout).
    + intros j Hj. pose proof (Hd j ltac:(set_solver)). set_solver.
    + intros j Hj. apply Hor. set_solver.
    + destruct Ha1 as [-> | (p & Hp & ->)]; [done|]. apply Hf2, in_seq. lia.
    + exists a2, s2, st2. split; [|split; [|done]].
      * cbn [fold_ra]. unfold mbind, RA_bind. by rewrite E1.
      * cbn [rev]. rewrite <- app_assoc. exact Hinv2.
Qed.

(** ** Loops over the tracks *)
Definition is_glob (i : nat) : Prop := (i < length si)%nat.

Lemma track_global st i v : W st -> ra_vregs st !! i = Some v -> (rt_global v = true <-> is_glob i).
Proof.
  intros HW Hi. pose proof (w_track _ _ _ HW i v Hi) as T. unfold track_ok, is_glob in *.
  destruct (si !! i) eqn:E.
  - destruct T as [-> _]. split; [|done]. intros _. by eapply lookup_lt_Some.
  - destruct T as [-> _]. split; [done|]. intros H. apply lookup_ge_None in E. lia.
Qed.

Lemma global_alive st i v : W st -> ra_vregs st !! i = Some v -> rt_global v = true -> rt_loc v <> DEAD.
Proof.
  intros HW Hi Hg. pose proof (w_track _ _ _ HW i v Hi) as T. unfold track_ok in T.
  destruct (si !! i); destruct T as [T1 T2]; [tauto|congruence].
Qed.

(** A loop whose turn [i] only changes track [i], keeps [I] and establishes
    [P] of the track. *)
Lemma loop_tracks L A (I : RAState -> Prop) (body : nat -> RA unit) (P : RTrack -> Prop) :
  (forall i st v, W st -> Live L st -> I st -> ra_vregs st !! i = Some v ->
     exists st' v', body i st = RA_ok tt st' /\ evolves L A everywhere st st' tt2 /\ I st' /\
       ra_vregs st' = <[i := v']> (ra_vregs st) /\ P v') ->
  forall m k st, W st -> Live L st -> I st -> length (ra_vregs st) = (k + m)%nat ->
  (forall j v, (j < k)%nat -> ra_vregs st !! j = Some v -> P v) ->
  exists st', for_each (seq k m) body st = RA_ok tt st' /\ evolves L A everywhere st st' tt2 /\ I st' /\
    forall j v, ra_vregs st' !! j = Some v -> P v.
Proof.
  intros Hbody. induction m as [|m IH]; intros k st HW HL HI Hlen HP.
  - exists st. split; [done|]. split; [by apply evolves_refl|]. split; [done|].
    intros j v Hj. apply (HP j v); [|done]. apply lookup_lt_Some in Hj. lia.
  - cbn [seq for_each]. destruct (lookup_lt_is_Some_2 (ra_vregs st) k) as [v Hv]; [lia|].
    destruct (Hbody k st v HW HL HI Hv) as (st1 & v1 & E1 & Hev1 & HI1 & Hst1 & HP1).
    destruct (IH (S k) st1) as (st2 & E2 & Hev2 & HI2 & HP2); [apply Hev1|apply Hev1|done| | |].
    + rewrite Hst1, length_insert. lia.
    + intros j w Hj Hw. rewrite Hst1 in Hw. apply list_lookup_insert_Some in Hw as [(<- & <- & _)|[Hne Hw]]; [done|].
      apply (HP j w); [lia|done].
    + exists st2. split; [|split; [|done]].
      * unfold mbind, RA_bind. by rewrite E1.
      * by eapply evolves_then.
Qed.

Definition glob_synced (v : RTrack) : Prop := rt_global v = true -> rt_loc v = REG -> rt_synced v = true.
Definition glob_mem (v : RTrack) : Prop := rt_global v = true -> rt_loc v = MEM.

Lemma SyncGlobals_spec L st :
  W st -> Live L st ->
  exists st', SyncGlobals st = RA_ok tt st' /\ evolves L everywhere everywhere st st' tt2 /\ allsynced st'.
Proof.
  intros HW HL. unfold SyncGlobals, mbind at 1, RA_bind at 1, n_vregs.
  destruct (loop_tracks L everywhere (fun _ => True)
    (fun i => v ← get_track i; if rt_global v then SyncSpill i else mret tt) glob_synced) with (m := length (ra_vregs st)) (k := 0%nat) (st := st)
    as (st' & -> & Hev & _ & HP); try done; [|lia|].
  - intros i st1 v HW1 HL1 _ Hv. unfold mbind, RA_bind, get_track. rewrite Hv. destruct (rt_global v) eqn:Eg.
    + destruct (SyncSpill_spec si types clob weaks HV L st1 i v HW1 HL1 Hv) as (st2 & v2 & -> & Hev & E & _ & El & _ & _ & Hs);
        [by eapply global_alive|].
      exists st2, v2. split_and!; try done. intros _ HR. apply Hs. congruence.
    + exists st1, v. rewrite list_insert_id by done. split_and!; try done; [by apply evolves_refl|].
      unfold glob_synced. congruence.
  - exists st'. done.
Qed.

(** Registers in [A] are free and stay free. *)
Definition free_regs (A : nat -> Prop) (st : RAState) : Prop := forall p, A p -> ra_p2v st !! p = Some None.

Lemma spill_free L A st i v st' :
  W st -> ra_vregs st !! i = Some v -> free_regs A st ->
  evolves L (fun p => rt_loc v = REG -> p <> rt_p v) everywhere st st' tt2 ->
  evolves L A everywhere st st' tt2 /\ free_regs A st'.
Proof.
  intros HW Hi HA Hev.
  assert (Hev' : evolves L A everywhere st st' tt2).
  { eapply evolves_weaken; [| | |exact Hev]; [|done..]. intros p Hp HR ->.
    pose proof (w_reg _ _ _ HW i v Hi HR). pose proof (HA _ Hp). congruence. }
  split; [done|]. intros p Hp. rewrite (ev_p2v _ _ _ _ _ _ _ _ _ _ Hev') by done. auto.
Qed.

Lemma spill_globals_loop L A :
  forall m k st, W st -> Live L st -> free_regs A st -> length (ra_vregs st) = (k + m)%nat ->
  (forall j v, (j < k)%nat -> ra_vregs st !! j = Some v -> glob_mem v) ->
  exists st', for_each (seq k m) spill_global st = RA_ok tt st' /\
    evolves L A everywhere st st' tt2 /\ free_regs A st' /\ forall j v, ra_vregs st' !! j = Some v -> glob_mem v.
Proof.
  apply (loop_tracks L A (free_regs A)). intros i st v HW HL HA Hv. unfold spill_global, mbind, RA_bind, get_track. rewrite Hv.
  destruct (rt_global v) eqn:Eg.
  - destruct (Spill_spec si types clob weaks HV L st i v HW HL Hv) as (st2 & v2 & -> & Hev & E & El & _ & _);
      [by eapply global_alive|].
    destruct (spill_free L A st i v st2 HW Hv HA Hev). exists st2, v2. split_and!; try done. by intros _.
  - exists st, v. rewrite list_insert_id by done. split_and!; try done; [by apply evolves_refl|].
    unfold glob_mem. congruence.
Qed.

Lemma BlockBoundary_spec L st :
  W st -> Live L st ->
  exists st', BlockBoundary st = RA_ok tt st' /\ evolves L (fun _ => False) everywhere st st' tt2 /\
    forall j v, ra_vregs st' !! j = Some v -> glob_mem v.
Proof.
  intros HW HL. destruct (spill_globals_loop L (fun _ => False) (length (ra_vregs st)) 0 st)
    as (st' & E & Hev & _ & HP); try done; [by intros p []|intros j v Hj; lia|]. by exists st'.
Qed.

(** [CallOp]: afterwards nothing is in a register the callee may change. *)
Definition clobbered (p : nat) : Prop := (p < N_PREGS)%nat /\ RegMask.Test GPR_CALL_CLOBBER (Z.of_nat p) = true.

Lemma clobber_loop L m : forall k st,
  W st -> Live L st -> (k + m = N_PREGS)%nat -> free_regs (fun p => clobbered p /\ (p < k)%nat) st ->
  exists st', for_each (seq k m)
    (fun p => if RegMask.Test GPR_CALL_CLOBBER (Z.of_nat p) then Spill_p p else mret tt) st = RA_ok tt st' /\
    evolves L (fun _ => False) everywhere st st' tt2 /\ free_regs clobbered st'.
Proof.
  induction m as [|m IH]; intros k st HW HL Hk HA.
  - exists st. split; [done|]. split; [by apply evolves_refl|]. intros p Hp. apply HA. split; [done|].
    destruct Hp. lia.
  - cbn [seq for_each].
    assert (Hstep : exists st1, (if RegMask.Test GPR_CALL_CLOBBER (Z.of_nat k) then Spill_p k else mret tt) st = RA_ok tt st1 /\
      evolves L (fun _ => False) everywhere st st1 tt2 /\ free_regs (fun p => clobbered p /\ (p < S k)%nat) st1).
    { destruct (RegMask.Test GPR_CALL_CLOBBER (Z.of_nat k)) eqn:Ek.
      - unfold Spill_p, mbind, RA_bind, get_p2v.
        destruct (lookup_lt_is_Some_2 (ra_p2v st) k) as [o Ho]; [rewrite (w_plen _ _ _ HW); lia|].
        rewrite Ho. cbn [mjoin option_join]. destruct o as [i|].
        + destruct (w_p2v _ _ _ HW k i Ho) as (v & Hi & HR & Hp).
          destruct (Spill_spec si types clob weaks HV L st i v HW HL Hi ltac:(congruence)) as (st1 & v1 & -> & Hev & _ & _ & _ & E2).
          exists st1. split; [done|]. split; [by eapply evolves_weaken; [| | |exact Hev]|].
          intros p [Hc Hp1]. rewrite E2. unfold release_p2v. rewrite bool_decide_true by done. rewrite Hp.
          destruct (decide (p = k)) as [->|]; [apply list_lookup_insert_eq; by eapply lookup_lt_Some|].
          rewrite list_lookup_insert_ne by done. apply HA. split; [done|lia].
        + exists st. split; [done|]. split; [by apply evolves_refl|]. intros p [Hc Hp1].
          destruct (decide (p = k)) as [->|]; [done|]. apply HA. split; [done|lia].
      - exists st. split; [done|]. split; [by apply evolves_refl|]. intros p [Hc Hp1].
        destruct (decide (p = k)) as [->|]; [destruct Hc; congruence|]. apply HA. split; [done|lia]. }
    destruct Hstep as (st1 & E1 & Hev1 & HA1).
    destruct (IH (S k) st1) as (st2 & E2 & Hev2 & HA2); [apply Hev1|apply Hev1|lia|done|].
    exists st2. split; [|split; [by eapply evolves_then|done]]. unfold mbind, RA_bind. by rewrite E1.
Qed.

Lemma CallOp_spec L st :
  W st -> Live L st ->
  exists st', CallOp true st = RA_ok tt st' /\ evolves L (fun _ => False) everywhere st st' tt2 /\
    free_regs clobbered st' /\ forall j v, ra_vregs st' !! j = Some v -> glob_mem v.
Proof.
  intros HW HL. unfold CallOp, CallOp_fuel, mbind at 1, RA_bind at 1.
  destruct (clobber_loop L N_PREGS 0 st HW HL ltac:(lia)) as (st1 & -> & Hev1 & HA1); [intros p [_ Hp]; lia|].
  assert (Hlen : (length (ra_vregs st1) <= 255)%nat).
  { rewrite (w_len _ _ _ (ev_W _ _ _ _ _ _ _ _ _ _ Hev1)). apply HV. }
  change 0 with (Z.of_nat 0). rewrite (globals_loop_eq (length (ra_vregs st1)) 0) by lia.
  destruct (spill_globals_loop L clobbered (length (ra_vregs st1)) 0 st1) as (st2 & -> & Hev2 & HA2 & HP);
    [apply Hev1|apply Hev1|done|lia|intros j v Hj; lia|].
  exists st2. split; [done|]. split; [|done]. eapply evolves_then; [exact Hev1|].
  by eapply evolves_weaken; [| | |exact Hev2].
Qed.

Lemma RegionBoundary_spec st :
  W st -> Live is_glob st ->
  exists st', RegionBoundary st = RA_ok tt st' /\ evolves is_glob (fun _ => False) everywhere st st' tt2 /\
    forall j v, ra_vregs st' !! j = Some v -> glob_mem v.
Proof.
  intros HW HL. unfold RegionBoundary, mbind at 1, RA_bind at 1, n_vregs.
  destruct (loop_tracks is_glob (fun _ => False) (fun _ => True)
    (fun i => v ← get_track i; if rt_global v then Spill i else Release false i) glob_mem)
    with (m := length (ra_vregs st)) (k := 0%nat) (st := st) as (st' & -> & Hev & _ & HP);
    try done; [|lia|by exists st'].
  intros i st1 v HW1 HL1 _ Hv. unfold mbind, RA_bind, get_track. rewrite Hv. destruct (rt_global v) eqn:Eg.
  - destruct (Spill_spec si types clob weaks HV is_glob st1 i v HW1 HL1 Hv) as (st2 & v2 & -> & Hev & E & El & _ & _);
      [by eapply global_alive|].
    exists st2, v2. split_and!; try done; [by eapply evolves_weaken; [| | |exact Hev]|]. by intros _.
  - rewrite (Release_eq i st1 v Hv). eexists _, (released v). split; [reflexivity|]. split; [|split; [done|split; [done|]]].
    + assert (Hng : ~ is_glob i) by (rewrite <- (track_global st1 i v HW1 Hv); congruence).
      split; try done.
      * by apply release_W.
      * eapply Live_set; try done.
      * eapply allsynced_set; try done.
      * exists []. split; [by rewrite app_nil_r|]. intros s s' HS. exists s'. split; [done|]. split_and!; try done.
        eapply Sem_set; try done; try apply HS.
    + intros _. done.
Qed.
End ops.
