(* ===== verification/QRegAllocCorrect.v ===== *)
(** * Register allocation preserves behaviour

    Every instruction of the allocated code does in a state that represents
    [s] what the original instruction does in [s]; so does the whole region,
    for every region with at most 255 virtual registers whose locals are
    written before they are read in their block. *)

From stdpp Require Import base tactics numbers list strings gmap.
From S2P Require Import Prelude Bitfield RV32Insn RV32Decode GuestState Interp InterpProofs VOperand Qir QirSem QirBuilder ArchTraits QSel QSelCorrect QRegAlloc QRegAllocInv QRegAllocSteps QRegAllocOps.

Import qir.

Section correct.
Context (si : StateInfo) (types : list VType) (clob : Z -> option Z) (weaks : list bool).
Context (HV : vregs_ok si types).
Notation read := (read_opnd si).
Notation write := (write_opnd si).
Notation run := (exec_list si clob weaks).
Notation exec := (exec_inst si clob weaks).
Notation reads := (reads si).
Notation W := (W si types).
Notation Sem := (Sem si).
Notation holds := (holds si).
Notation evolves := (evolves si types clob weaks).
Notation n_all := (length si + length types)%nat.
Notation is_glob := (is_glob si).

Lemma Sem_mono (L L' : nat -> Prop) s st s' : (forall i, L' i -> L i) -> Sem L s st s' -> Sem L' s st s'.
Proof. intros H [a1 a2 a3 a4 a5 a6 a7]. split; auto. Qed.
Lemma Live_mono (L L' : nat -> Prop) st : (forall i, L' i -> L i) -> Live L st -> Live L' st.
Proof. intros H HL i Hi. auto. Qed.

Lemma vval_global i sr s : si !! i = Some sr -> vval si i s = cpu_read (q_cpu s) (state_offs sr).
Proof.
  intros H. unfold vval, read_opnd, GetStateReg.
  destruct (Z.ltb_spec (Z.of_nat i) (Z.of_nat (length si))) as [_|Hge].
  - rewrite Nat2Z.id. by rewrite H.
  - apply lookup_lt_Some in H. lia.
Qed.

(** Once the globals are in [CPUState], it is the one of the original code. *)
Lemma Sem_cpu_eq L s st s' :
  W st -> (forall i, is_glob i -> L i) -> Sem L s st s' -> allsynced st -> q_cpu s' = q_cpu s.
Proof.
  intros HW HG HS Hsy. symmetry. apply cpu_ext; try apply HS. intros o.
  destruct (decide (o ∈ (state_offs <$> si))) as [Hin|Hni]; [|by apply HS].
  apply list_elem_of_fmap in Hin as (sr & -> & Hin). apply list_elem_of_lookup in Hin as (i & Hi).
  assert (Hlt : (i < length si)%nat) by (by eapply lookup_lt_Some).
  destruct (lookup_lt_is_Some_2 (ra_vregs st) i) as [v Hv]; [rewrite (w_len _ _ _ HW); lia|].
  destruct (sm_val _ _ _ _ _ HS i v (HG i Hlt) Hv) as (x & Hx & Hh).
  rewrite <- (vval_global i sr s Hi), Hx.
  pose proof (w_track _ _ _ HW i v Hv) as T. unfold track_ok in T. rewrite Hi in T.
  destruct T as (Tg & Ts & _). pose proof (proj2 (track_type _ _ HV st i v HW Hv) Tg) as Tt.
  unfold QRegAllocInv.holds, slot in Hh. rewrite Tg, Tt in Hh. cbn in Hh.
  rewrite Ts in Hh. destruct (rt_loc v) eqn:El; [done|done|]. symmetry. apply Hh. by apply (Hsy i v).
Qed.

Lemma mem_allsynced st : (forall j v, ra_vregs st !! j = Some v -> glob_mem v) -> allsynced st.
Proof. intros H i v Hi Hg HR. specialize (H i v Hi Hg). congruence. Qed.

(** ** Writing the result *)
Lemma write_dst L st r v s s' t y s1 old :
  t = rt_type v -> W st -> ra_vregs st !! r = Some v -> rt_loc v = REG -> rt_synced v = false ->
  Sem (fun i => L i /\ i <> r) s st s' -> write (VGPR t (Z.of_nat r)) y s = Some s1 ->
  Sem (fun i => L i \/ i = r) s1 st (q_set_pgpr (Z.of_nat (rt_p v)) (merge_reg t old y) s').
Proof.
  intros Hty HW Hr HR Hns HS Hw.
  assert (Hrd : forall i, vval si i s1 = if bool_decide (r = i) then Some y else vval si i s).
  { intros i. unfold vval. rewrite (read_write si (vo_nodup _ _ HV) t I32 (Z.of_nat r) (Z.of_nat i) y s s1);
      [|lia|lia|apply HS|done]. do 2 case_bool_decide; try done; lia. }
  pose proof HS as [a1 a2 a3 a4 a5 a6 a7].
  assert (Hmt : q_mem s1 = q_mem s /\ trapno (q_cpu s1) = trapno (q_cpu s) /\
    forall o, o ∉ (state_offs <$> si) -> cpu_read (q_cpu s1) o = cpu_read (q_cpu s) o).
  { cbn in Hw. destruct (GetStateReg si (Z.of_nat r)) as [sr|] eqn:E; [|by apply (inj Some) in Hw as <-].
    apply fmap_Some in Hw as (c & Hc & ->). cbn. split; [done|]. split; [by eapply cpu_write_trap|].
    intros o Ho. rewrite (cpu_read_write _ _ _ _ _ a3 Hc). rewrite bool_decide_false; [done|]. intros <-.
    apply Ho. unfold GetStateReg in E. case_match; [|done]. apply list_elem_of_fmap. exists sr. split; [done|].
    by eapply list_elem_of_lookup_2. }
  destruct Hmt as (Hm & Ht & Hother). split; cbn [q_mem q_cpu q_set_pgpr]; try congruence.
  - by eapply (write_cpu_len si _ _ _ _ a3 Hw).
  - intros o Ho. rewrite Hother by done. by apply a5.
  - by apply set_pgpr_total.
  - intros i w HL Hi. rewrite Hrd. case_bool_decide as E.
    + subst i. exists y. split; [done|]. assert (w = v) as -> by congruence.
      unfold QRegAllocInv.holds. rewrite HR, Hns. cbn. rewrite lookup_insert_eq, Hty, narrow_merge. done.
    + destruct HL as [HL|HL]; [|congruence].
      destruct (a7 i w (conj HL (not_eq_sym E)) Hi) as (x & Hx & Hh). exists x. split; [done|].
      unfold QRegAllocInv.holds in *. destruct (rt_loc w) eqn:El; [done| |].
      * unfold slot in *. by destruct (rt_global w).
      * destruct Hh as [H1 H2]. cbn. rewrite lookup_insert_ne.
        -- split; [done|]. intros H. specialize (H2 H). unfold slot in *. by destruct (rt_global w).
        -- intros Ep. apply Nat2Z.inj in Ep. pose proof (w_reg _ _ _ HW r v Hr HR).
           pose proof (w_reg _ _ _ HW i w Hi El). congruence.
Qed.

Lemma cpu_write_some c c' o y : is_Some (cpu_write c o y) -> is_Some (cpu_write c' o y).
Proof. unfold cpu_write. intros [? H]. repeat case_match; try done; by eexists. Qed.

(** A write to the [ip] field through its slot. *)
Lemma write_field L st s s' t y s1 :
  W st -> Sem L s st s' -> write (VSlot true t offs_ip) y s = Some s1 ->
  exists s1', write (VSlot true t offs_ip) y s' = Some s1' /\ Sem L s1 st s1'.
Proof.
  intros HW [a1 a2 a3 a4 a5 a6 a7] Hw. cbn [write_opnd] in *. apply fmap_Some in Hw as (c & Hc & ->).
  destruct (cpu_write_some (q_cpu s) (q_cpu s') offs_ip y) as [c' Hc']; [by eexists|].
  rewrite Hc'. eexists. split; [reflexivity|]. split; cbn [q_mem q_cpu q_set_cpu q_pgpr]; try done.
  - rewrite (cpu_write_trap _ _ _ _ Hc), (cpu_write_trap _ _ _ _ Hc'). done.
  - exact (cpu_write_len _ _ _ _ a3 Hc).
  - exact (cpu_write_len _ _ _ _ a4 Hc').
  - intros o' Ho'. rewrite (cpu_read_write _ _ _ _ _ a3 Hc), (cpu_read_write _ _ _ _ _ a4 Hc').
    case_bool_decide; [done|]. by apply a5.
  - intros i w HL Hi. destruct (a7 i w HL Hi) as (x & Hx & Hh).
    pose proof (w_track _ _ _ HW i w Hi) as T. unfold track_ok in T.
    destruct (si !! i) as [sr|] eqn:E.
    + destruct T as (Tg & Ts & _). rewrite (vval_global i sr) by done. rewrite (vval_global i sr) in Hx by done.
      cbn [q_cpu q_set_cpu]. rewrite (cpu_read_write _ _ _ _ _ a3 Hc). case_bool_decide as Eo.
      * exists y. split; [done|]. assert (Hr : resv si i) by (by exists sr).
        unfold QRegAllocInv.holds, slot. rewrite (w_resv _ _ _ HW i w Hi Hr), Tg, Ts. cbn.
        rewrite (cpu_read_write _ _ _ _ _ a4 Hc'). by rewrite bool_decide_true.
      * exists x. split; [done|].
        assert (Hslot : forall z, read (slot w) s' = z -> read (slot w) (q_set_cpu c' s') = z).
        { intros z <-. unfold slot. rewrite Tg, Ts. cbn. by rewrite (cpu_read_write _ _ _ _ _ a4 Hc'), bool_decide_false. }
        unfold QRegAllocInv.holds in *. destruct (rt_loc w); [done|auto|]. destruct Hh as [H1 H2]. split; [done|]. auto.
    + destruct T as (Tg & _). exists x. split.
      * unfold vval in *. cbn [read_opnd q_cpu q_loc q_set_cpu] in *. unfold GetStateReg in *.
        destruct (Z.ltb_spec (Z.of_nat i) (Z.of_nat (length si))); [|done]. apply lookup_ge_None in E. lia.
      * unfold QRegAllocInv.holds in *. unfold slot in *. rewrite Tg in *. done.
Qed.

(** ** The output operand *)
Definition renamed (p : nat) (v : RTrack) : RTrack :=
  mkTrack (rt_type v) (rt_global v) (rt_spill v) p REG false.
Definition rename_p2v (st : RAState) (r p : nat) (v : RTrack) : list (option nat) :=
  <[p := Some r]> (release_p2v st v).

Lemma rename_W st r v p movs :
  W st -> ~ resv si r -> ra_vregs st !! r = Some v -> ra_p2v st !! p = Some None ->
  RegMask.Test GPR_FIXED (Z.of_nat p) = false ->
  W (mkRA (<[r := renamed p v]> (ra_vregs st)) (rename_p2v st r p v) (ra_frame st) movs).
Proof.
  intros HW Hnr Hr Hp Hfix.
  assert (Hlen : length (release_p2v st v) = N_PREGS).
  { unfold release_p2v. case_bool_decide; rewrite ?length_insert; apply HW. }
  assert (Hplt : (p < length (release_p2v st v))%nat).
  { rewrite Hlen, <- (w_plen _ _ _ HW). by eapply lookup_lt_Some. }
  eapply W_set; try done.
  - unfold rename_p2v. by rewrite length_insert.
  - intros q j Hj. unfold rename_p2v in Hj.
    apply list_lookup_insert_Some in Hj as [(<- & [= <-] & _)|[Hne Hj]]; [by left|right].
    unfold release_p2v in Hj. case_bool_decide as HR.
    + apply list_lookup_insert_Some in Hj as [(_ & ? & _)|[Hne' Hj]]; [done|]. split; [|done]. intros ->.
      destruct (p2v_self _ _ st r v q HW Hr Hj). congruence.
    + split; [|done]. intros ->. destruct (p2v_self _ _ st r v q HW Hr Hj). done.
  - intros _. unfold rename_p2v. by apply list_lookup_insert_eq.
  - intros q j Hne Hj. unfold rename_p2v. rewrite list_lookup_insert_ne by congruence.
    unfold release_p2v. case_bool_decide as HR; [|done]. rewrite list_lookup_insert_ne; [done|]. intros <-.
    pose proof (w_reg _ _ _ HW r v Hr HR). congruence.
Qed.

(** What [alloc_output] leaves of a destination register [r]. *)
Record output_ok (L : nat -> Prop) (avoid : Z) (r p : nat) (st st' : RAState) : Prop := {
  oo_track : exists v, ra_vregs st' !! r = Some v /\ rt_loc v = REG /\ rt_p v = p /\ rt_synced v = false;
  oo_W : W st';
  oo_live : Live (fun i => L i \/ i = r) st';
  oo_movs : exists new, ra_movs st' = ra_movs st ++ new /\
    forall s s', Sem L s st s' -> exists s'', run new s' = QNext s'' /\ Sem (fun i => L i /\ i <> r) s st' s'' /\
      (forall q, RegMask.Test avoid (Z.of_nat q) = true -> q_pgpr s'' !! Z.of_nat q = q_pgpr s' !! Z.of_nat q) /\
      (allsynced st -> q_cpu s'' = q_cpu s');
  oo_ok : movs_ok st -> movs_ok st' }.

Lemma Live_add L st st' r v v' :
  Live L st -> ra_vregs st !! r = Some v -> ra_vregs st' = <[r := v']> (ra_vregs st) -> rt_loc v' = REG ->
  Live (fun i => L i \/ i = r) st'.
Proof.
  intros HL Hr E HR i Hi. rewrite E. destruct (decide (i = r)) as [->|Hne].
  - exists v'. rewrite list_lookup_insert_eq by (by eapply lookup_lt_Some). rewrite HR. done.
  - rewrite list_lookup_insert_ne by done. destruct Hi; [by apply HL|done].
Qed.

Lemma Sem_except L s st s' st' r v v' :
  Sem L s st s' -> ra_vregs st !! r = Some v -> ra_vregs st' = <[r := v']> (ra_vregs st) ->
  Sem (fun i => L i /\ i <> r) s st' s'.
Proof.
  intros HS Hr E. eapply (Sem_set si (fun i => L i /\ i <> r) s st s'); try done; try apply HS.
  - by apply (Sem_mono L); [intros i []|].
  - by intros x [_ ?].
Qed.

Lemma alloc_output_alias L ct c avoid t r st p :
  W st -> Live L st -> ct !! 0%nat = Some c -> has_alias c = true ->
  ra_p2v st !! p = Some (Some (Z.to_nat r)) ->
  exists st', alloc_output ct (avoid, [VGPR t r]) 0 st = RA_ok (RegMask.Set_ avoid (Z.of_nat p), [preg t p]) st' /\
    output_ok L avoid (Z.to_nat r) p st st'.
Proof.
  intros HW HL Hc Ha Hp. destruct (w_p2v _ _ _ HW p _ Hp) as (v & Hr & HR & Ep).
  unfold alloc_output, mbind, RA_bind. rewrite Hc. cbn [from_opt mret RA_ret lookup list_lookup].
  rewrite Ha. cbn [mret RA_ret]. rewrite (upd_track_eq _ _ _ v Hr). unfold get_track. cbn [ra_vregs].
  rewrite list_lookup_insert_eq by (by eapply lookup_lt_Some).
  eexists. split; [cbn; by rewrite Ep|]. split.
  - exists (set_synced false v). cbn. rewrite list_lookup_insert_eq by (by eapply lookup_lt_Some). done.
  - by eapply W_keep.
  - by eapply Live_add.
  - exists []. split; [by rewrite app_nil_r|]. intros s s' HS. exists s'. split; [done|]. split_and!; try done.
    by eapply Sem_except.
  - done.
Qed.

Lemma alloc_output_fresh L ct c avoid t r st v :
  W st -> Live L st -> ct !! 0%nat = Some c -> has_alias c = false -> free_in (cr c) avoid = true ->
  covers_fixed avoid -> ~ resv si (Z.to_nat r) -> ra_vregs st !! Z.to_nat r = Some v ->
  exists p st', alloc_output ct (avoid, [VGPR t r]) 0 st = RA_ok (RegMask.Set_ avoid (Z.of_nat p), [preg t p]) st' /\
    RegMask.Test (cr c) (Z.of_nat p) = true /\ output_ok L avoid (Z.to_nat r) p st st'.
Proof.
  intros HW HL Hc Ha Hf Hfix Hnr Hv. apply free_in_target in Hf.
  unfold alloc_output, mbind, RA_bind. rewrite Hc. cbn [from_opt mret RA_ret lookup list_lookup].
  rewrite Ha.
  destruct (AllocPReg_spec si types clob weaks HV L st (cr c) avoid HW HL Hf) as
    (p & st1 & -> & (Hp & Hd & Hav) & Hev & Hfr & _ & Hk).
  destruct (Hk _ _ Hv) as (v1 & Hv1 & _). unfold get_track at 1. rewrite Hv1.
  assert (Hl1 : (Z.to_nat r < length (ra_vregs st1))%nat) by (by eapply lookup_lt_Some).
  assert (HW1 : W st1) by apply Hev.
  set (st' := mkRA (<[Z.to_nat r := renamed p v1]> (ra_vregs st1)) (rename_p2v st1 (Z.to_nat r) p v1)
                (ra_frame st1) (ra_movs st1)).
  exists p, st'. split; [|split; [done|]].
  - assert (Hstep : forall pv, 
      match upd_track (set_loc REG) (Z.to_nat r) (mkRA (ra_vregs st1) pv (ra_frame st1) (ra_movs st1)) with
      | RA_ok a st'0 =>
          match set_p2v p (Some (Z.to_nat r)) st'0 with
          | RA_ok a0 st'1 => upd_track (set_p p) (Z.to_nat r) st'1
          | RA_panic => RA_panic
          | RA_hang => RA_hang
          end
      | RA_panic => RA_panic
      | RA_hang => RA_hang
      end = RA_ok tt (mkRA (<[Z.to_nat r := set_p p (set_loc REG v1)]> (ra_vregs st1))
              (<[p := Some (Z.to_nat r)]> pv) (ra_frame st1) (ra_movs st1))).
    { intros pv. rewrite (upd_track_eq _ _ _ v1) by done. cbn [set_p2v ra_vregs ra_p2v ra_frame ra_movs].
      rewrite (upd_track_eq _ _ _ (set_loc REG v1)) by (cbn; by apply list_lookup_insert_eq).
      cbn [ra_vregs ra_p2v ra_frame ra_movs]. by rewrite list_insert_insert_eq. }
    assert (Hpv : (if bool_decide (rt_loc v1 = REG) then set_p2v (rt_p v1) None else mret tt) st1 =
      RA_ok tt (mkRA (ra_vregs st1) (release_p2v st1 v1) (ra_frame st1) (ra_movs st1))).
    { unfold release_p2v. case_bool_decide; [done|]. by destruct st1. }
    rewrite Hpv, Hstep. rewrite (upd_track_eq _ _ _ (set_p p (set_loc REG v1))) by (cbn; by apply list_lookup_insert_eq).
    cbn [ra_vregs ra_p2v ra_frame ra_movs]. rewrite list_insert_insert_eq.
    unfold get_track. cbn [ra_vregs]. rewrite list_lookup_insert_eq by done. reflexivity.
  - assert (Hpf : RegMask.Test GPR_FIXED (Z.of_nat p) = false).
    { destruct (RegMask.Test GPR_FIXED (Z.of_nat p)) eqn:E; [|done]. apply Hfix in E. congruence. }
    split.
    + exists (renamed p v1). cbn. rewrite list_lookup_insert_eq by done. done.
    + by apply rename_W.
    + eapply Live_add; [apply Hev|exact Hv1|done|done].
    + destruct Hev as [_ _ _ _ (new & E & Hrun)]. exists new. split; [done|]. intros s s' HS.
      destruct (Hrun s s' HS) as (s'' & Hr & HS'' & Hg & Hcpu & _). exists s''. split_and!; try done.
      * by eapply Sem_except.
      * intros q Hq. by apply Hg.
    + apply Hev.
Qed.

(** ** One instruction *)

(** What the allocator relies on for one instruction. *)
Definition ra_out_ok (op : Op) (d : VOperand) : Prop :=
  match d with
  | VGPR t r => 0 <= r < Z.of_nat n_all /\ ~ resv si (Z.to_nat r) /\ t = vtype si types (Z.to_nat r)
  | VSlot true t o => o = offs_ip /\ t = I32 /\ op = _mov
  | _ => False
  end.
Record ra_inst_wf (L : nat -> Prop) (flags : Z) (ins : Inst) : Prop := {
  rw_ok : inst_ok ins = true;
  rw_in : Forall (in_ok si types L) (inputs ins);
  rw_out : Forall (ra_out_ok (GetOpcode ins)) (outputs ins);
  rw_meets : meets_ct ins = true;
  rw_types : types_ok ins = true;
  rw_flags : Z.land (GetOpFlags (GetOpcode ins)) SIDEEFF <> 0 -> Z.land flags SIDEEFF <> 0;
  rw_hcall : forall stub a, ins = InstHcall stub a -> exists t c, a = VConst t c;
  rw_gbr : forall a, ins = InstGBr a -> exists t c, a = VConst t c /\ in_u 32 c }.

Definition dst_of (ins : Inst) : option nat :=
  match outputs ins with [VGPR _ r] => Some (Z.to_nat r) | _ => None end.
Definition with_dst (L : nat -> Prop) (ins : Inst) (i : nat) : Prop := L i \/ dst_of ins = Some i.

(** Operands as the emitter takes them: a constant where the instruction has
    an immediate for it, a register that the constraint allows; a tied input
    is in the register of its output. *)
Definition preg_of (v : VOperand) : option Z := match v with PGPR _ p => Some p | _ => None end.
Definition in_placed (c : RAOpCt) (v : VOperand) : bool :=
  match v with
  | VConst t k =>
      negb (ci c =? CtImm_NO) && match_gp_const t k (ci c) && (0 <=? k) && (k <? 2 ^ 32) && (trunc t k =? k)
  | PGPR _ p => reg_ok v && RegMask.Test (cr c) p
  | _ => false
  end.
Definition out_placed (op : Op) (c : RAOpCt) (v : VOperand) : bool :=
  match v with
  | PGPR _ p => reg_ok v && RegMask.Test (cr c) p
  | VSlot true _ _ => slot_ok v && bool_decide (op = _mov)
  | _ => false
  end.
Definition tied (c : RAOpCt) (dstl : list VOperand) (v : VOperand) : bool :=
  negb (has_alias c) || from_option (fun d => bool_decide (preg_of d = preg_of v)) false (dstl !! alias c).
Definition placed (i : Inst) : bool :=
  match op_ct (GetOpcode i) with
  | None => true
  | Some c =>
      forallb (fun k =>
        match ic_ct c !! (length (outputs i) + k)%nat, inputs i !! k with
        | Some x, Some v => in_placed x v && tied x (outputs i) v
        | _, _ => false
        end) (seq 0 (length (inputs i))) &&
      forallb (fun k =>
        match ic_ct c !! k, outputs i !! k with
        | Some x, Some v => out_placed (GetOpcode i) x v
        | _, _ => false
        end) (seq 0 (length (outputs i)))
  end.

(** The operands [AllocOp] chose, ready to execute. *)
Record alloc_ok (L : nat -> Prop) (flags : Z) (ins ins' : Inst) (st st' : RAState) : Prop := {
  al_ins : exists srcl dstl, ins' = set_outputs (set_inputs ins srcl) dstl /\ length srcl = length (inputs ins) /\
    Forall (fun v => (exists t c, v = VConst t c) \/ (exists t q, v = preg t q)) srcl /\
    match dst_of ins with
    | Some r => exists t v, outputs ins = [VGPR t (Z.of_nat r)] /\ dstl = [preg t (rt_p v)] /\
        ra_vregs st' !! r = Some v /\ rt_loc v = REG /\ rt_synced v = false /\ t = rt_type v
    | None => dstl = outputs ins
    end;
  al_W : W st';
  al_live : Live (with_dst L ins) st';
  al_movs : exists new, ra_movs st' = ra_movs st ++ new /\
    forall s s', Sem L s st s' -> exists s'', run new s' = QNext s'' /\
      Sem (fun i => L i /\ dst_of ins <> Some i) s st' s'' /\
      reads (inputs ins') s'' = reads (inputs ins) s /\
      (Z.land flags SIDEEFF <> 0 -> q_cpu s'' = q_cpu s);
  al_placed : placed ins' = true /\ types_ok ins' = true /\ GetOpcode ins' = GetOpcode ins;
  al_ok : movs_ok st -> movs_ok st' }.

Lemma reads_pointwise vs vs' s s' :
  length vs = length vs' ->
  (forall k v v0, vs !! k = Some v -> vs' !! k = Some v0 -> read v s = read v0 s') ->
  reads vs s = reads vs' s'.
Proof.
  revert vs'. induction vs as [|v vs IH]; intros [|v0 vs'] Hl H; try done.
  unfold QSelCorrect.reads in *. cbn. rewrite (H 0%nat v v0) by done. destruct (read v0 s'); cbn; [|done].
  rewrite (IH vs'); [done|by injection Hl|]. intros k. apply (H (S k)).
Qed.

Lemma alias_output op c c0 :
  op_ct op = Some c -> n_out op = 1%nat -> ic_ct c !! 0%nat = Some c0 -> has_alias c0 = true ->
  exists c1, ic_ct c !! 1%nat = Some c1 /\ has_alias c1 = true /\ alias c1 = 0%nat /\ cr c1 = GPR_ALL /\
    (0 < n_in op)%nat.
Proof.
  destruct op; cbn [op_ct n_out]; intros H; try done; apply (inj Some) in H as <-; intros _;
    intros [= <-]; intros Ha; try discriminate Ha; eexists; (split; [reflexivity|]); split_and!; try done; cbn; lia.
Qed.

Lemma meets_alias ins c c1 :
  op_ct (GetOpcode ins) = Some c -> meets_ct ins = true -> length (outputs ins) = 1%nat ->
  ic_ct c !! 1%nat = Some c1 -> has_alias c1 = true -> alias c1 = 0%nat -> (0 < length (inputs ins))%nat ->
  forall t r, outputs ins = [VGPR t r] -> exists t', inputs ins !! 0%nat = Some (VGPR t' r).
Proof.
  intros Hc Hm Ho Hc1 Ha Hz Hi t r Hout. unfold meets_ct in Hm. rewrite Hc, forallb_forall in Hm.
  specialize (Hm 0%nat ltac:(apply in_seq; lia)). rewrite Ho in Hm. cbn [Nat.add] in Hm. rewrite Hc1 in Hm.
  destruct (inputs ins !! 0%nat) as [v|]; [|done]. bool_to_prop. unfold alias_ok in H.
  rewrite Ha, Hz, Hout in H. cbn in H. bool_to_prop. destruct H as [_ H]. destruct v; cbn in H; try done.
  injection H as ->. by eexists.
Qed.

Lemma sync_step L flags st0 st Φ :
  (forall i, is_glob i -> L i) ->
  evolves L (fun _ => False) (fun _ => False) st0 st Φ ->
  (forall s s1 s2, Φ s s1 -> (forall p, q_pgpr s2 !! Z.of_nat p = q_pgpr s1 !! Z.of_nat p) -> Φ s s2) ->
  exists st', (if negb (Z.land flags SIDEEFF =? 0) then SyncGlobals else mret tt) st = RA_ok tt st' /\
    W st' /\ Live L st' /\ ra_p2v st' = ra_p2v st /\
    (Z.land flags SIDEEFF <> 0 -> allsynced st') /\
    exists new, ra_movs st' = ra_movs st0 ++ new /\
    (movs_ok st0 -> movs_ok st') /\
    forall s s', Sem L s st0 s' -> exists s'', run new s' = QNext s'' /\ Sem L s st' s'' /\ Φ s s'' /\
      (Z.land flags SIDEEFF <> 0 -> q_cpu s'' = q_cpu s).
Proof.
  intros HG Hev Hst. destruct (Z.eqb_spec (Z.land flags SIDEEFF) 0) as [E|E]; cbn [negb].
  - exists st. destruct Hev as [h1 h2 _ _ (new & h4 & h5) h6]. split; [done|]. split; [done|]. split; [done|].
    split; [done|]. split; [done|]. exists new. split; [done|]. split; [done|]. intros s s' HS.
    destruct (h5 s s' HS) as (s'' & ? & ? & _ & _ & ?). exists s''. done.
  - destruct (SyncGlobals_spec si types clob weaks HV L st) as (st1 & -> & Hev1 & Hsy); [apply Hev..|].
    exists st1. split; [done|]. split; [apply Hev1|]. split; [apply Hev1|]. split.
    { apply list_eq. intros p. by apply Hev1. }
    split; [done|].
    destruct (evolves_trans si types clob weaks _ _ _ _ _ _ _ _ _ _ Hev Hev1) as [e1 _ _ _ (new & e2 & e3) e4].
    { intros s s1 s2 H Hp. apply (Hst s s1 s2 H). intros p. by apply Hp. }
    exists new. split; [done|]. split; [done|]. intros s s' HS. destruct (e3 s s' HS) as (s'' & Hr & HS'' & _ & _ & [HF _]).
    exists s''. split_and!; try done. intros _. by eapply Sem_cpu_eq.
Qed.

Lemma inputs_set_outputs i ds : inputs (set_outputs i ds) = inputs i.
Proof. by destruct i, ds as [|? [|? ?]]. Qed.

Lemma outputs_le_1 i : (length (outputs i) <= 1)%nat.
Proof. destruct i; cbn; lia. Qed.

(** Replacing operands. *)
Lemma outputs_set i vs ds :
  length vs = length (inputs i) -> length ds = length (outputs i) -> outputs (set_outputs (set_inputs i vs) ds) = ds.
Proof. destruct i, vs as [|? [|? [|? ?]]], ds as [|? [|? ?]]; done. Qed.
Lemma opcode_set i vs ds : GetOpcode (set_outputs (set_inputs i vs) ds) = GetOpcode i.
Proof. destruct i, vs as [|? [|? [|? ?]]], ds as [|? [|? ?]]; done. Qed.
Lemma types_ok_set i vs ds :
  type_of <$> vs = type_of <$> inputs i -> type_of <$> ds = type_of <$> outputs i ->
  types_ok (set_outputs (set_inputs i vs) ds) = types_ok i.
Proof.
  destruct i, vs as [|? [|? [|? ?]]], ds as [|? [|? ?]]; cbn; intros H1 H2; try discriminate; try done;
    repeat match goal with H : _ :: _ = _ :: _ |- _ => injection H; clear H; intros end;
    repeat match goal with H : type_of _ = type_of _ |- _ => rewrite H; clear H end; done.
Qed.

Lemma alias_input op c k x :
  op_ct op = Some c -> (k < n_in op)%nat -> ic_ct c !! (n_out op + k)%nat = Some x -> has_alias x = true ->
  k = 0%nat /\ alias x = 0%nat /\ cr x = GPR_ALL /\ n_out op = 1%nat.
Proof.
  destruct op; cbn [op_ct n_out n_in]; intros H; try done; apply (inj Some) in H as <-; intros Hk;
    destruct k as [|[|k]]; try lia; intros [= <-]; intros Ha; try discriminate Ha; done.
Qed.

Lemma alias_cr op c c0 c1 :
  op_ct op = Some c -> n_out op = 1%nat -> ic_ct c !! 0%nat = Some c0 -> has_alias c0 = true ->
  ic_ct c !! 1%nat = Some c1 -> cr c0 = cr c1.
Proof.
  destruct op; cbn [op_ct n_out]; intros H; try done; apply (inj Some) in H as <-; intros _;
    intros [= <-]; intros Ha; try discriminate Ha; by intros [= <-].
Qed.
Lemma alias_back op c c0 c1 :
  op_ct op = Some c -> n_out op = 1%nat -> ic_ct c !! 0%nat = Some c0 -> ic_ct c !! 1%nat = Some c1 ->
  has_alias c1 = true -> has_alias c0 = true.
Proof.
  destruct op; cbn [op_ct n_out]; intros H; try done; apply (inj Some) in H as <-; intros _;
    intros [= <-] [= <-]; done.
Qed.

Lemma placed_intro L ins c srcl dstl :
  Forall (in_ok si types L) (inputs ins) -> op_ct (GetOpcode ins) = Some c -> meets_ct ins = true -> inst_ok ins = true ->
  length srcl = length (inputs ins) -> length dstl = length (outputs ins) ->
  (forall k v, srcl !! k = Some v -> (exists t c, v = VConst t c /\ inputs ins !! k = Some v) \/
     (exists t q, v = preg t q /\ reg_ok v = true /\
        exists c', ic_ct c !! (length (outputs ins) + k)%nat = Some c' /\ RegMask.Test (cr c') (Z.of_nat q) = true)) ->
  (forall k d, dstl !! k = Some d -> exists x, ic_ct c !! k = Some x /\ out_placed (GetOpcode ins) x d = true) ->
  (forall x, ic_ct c !! length (outputs ins) = Some x -> has_alias x = true -> alias x = 0%nat ->
     exists d v, dstl !! 0%nat = Some d /\ srcl !! 0%nat = Some v /\ preg_of d = preg_of v) ->
  placed (set_outputs (set_inputs ins srcl) dstl) = true.
Proof.
  intros Hin Hc Hm Hok Hs Hd Hsrc Hdst Hal. destruct (operand_counts ins Hok) as [Ho Hi]. unfold placed.
  rewrite opcode_set, Hc, outputs_set, inputs_set_outputs, inputs_set_inputs by done.
  apply andb_true_iff. split; apply forallb_forall; intros k Hk%in_seq.
  - destruct (lookup_lt_is_Some_2 srcl k) as [v Hv]; [lia|]. rewrite Hv, Hd.
    unfold meets_ct in Hm. rewrite Hc, forallb_forall in Hm. specialize (Hm k ltac:(apply in_seq; lia)).
    destruct (ic_ct c !! (length (outputs ins) + k)%nat) as [x|] eqn:Hx; [|done].
    destruct (inputs ins !! k) as [v0|] eqn:Hv0; [|done]. bool_to_prop. apply andb_true_iff. split.
    + destruct (Hsrc k v Hv) as [(t & k' & -> & E)|(t & q & -> & Hr & c' & Hc' & Ht)].
      * assert (v0 = VConst t k') as -> by congruence. pose proof (Forall_lookup_1 _ _ _ _ Hin Hv0) as Hr. cbn in Hr, H0 |- *.
        destruct Hr as [Hr ->]. unfold in_u in Hr. rewrite H0, Z.eqb_refl. destruct (Z.leb_spec 0 k'), (Z.ltb_spec k' (2 ^ 32)); done || lia.
      * assert (c' = x) as -> by congruence. cbn [in_placed preg]. by rewrite Ht, andb_true_r.
    + unfold tied. destruct (has_alias x) eqn:Ha; [|done].
      rewrite Ho in Hx. destruct (alias_input _ _ k x Hc ltac:(lia) Hx Ha) as (-> & Hz & _ & Hn).
      rewrite Nat.add_0_r, <- Ho in Hx. destruct (Hal x Hx Ha Hz) as (d & v' & Hdl & Hv' & E).
      rewrite Hz, Hdl. cbn. assert (v' = v) as -> by congruence. by rewrite bool_decide_true.
  - destruct (lookup_lt_is_Some_2 dstl k) as [d Hdk]; [lia|]. destruct (Hdst k d Hdk) as (x & -> & Hx).
    by rewrite Hdk.
Qed.

(** The inputs and the synchronisation of the globals. *)
(** What the allocation of the inputs, and the write-back before a side effect,
    achieve. *)
Record front_ok (L : nat -> Prop) (flags : Z) (ins : Inst) (c : InstCt) (avoid : Z) (srcl : list VOperand) (st st2 : RAState) : Prop := {
  fr_W : W st2;
  fr_live : Live L st2;
  fr_fixed : covers_fixed avoid;
  fr_free : forallb (fun c => free_in (cr c) avoid) (take (length (outputs ins)) (ic_ct c)) = true;
  fr_len : length srcl = length (inputs ins);
  fr_src k v : srcl !! k = Some v -> (exists t c, v = VConst t c /\ inputs ins !! k = Some v) \/
    (exists t q, v = preg t q /\ RegMask.Test avoid (Z.of_nat q) = true /\ reg_ok v = true /\
       exists c', ic_ct c !! (length (outputs ins) + k)%nat = Some c' /\ RegMask.Test (cr c') (Z.of_nat q) = true);
  fr_type : type_of <$> srcl = type_of <$> inputs ins;
  fr_alias k t r c' : inputs ins !! k = Some (VGPR t r) -> ic_ct c !! (length (outputs ins) + k)%nat = Some c' ->
    cr c' = GPR_ALL -> exists p, srcl !! k = Some (preg t p) /\ ra_p2v st2 !! p = Some (Some (Z.to_nat r));
  fr_sync : Z.land flags SIDEEFF <> 0 -> allsynced st2;
  fr_movs : exists new, ra_movs st2 = ra_movs st ++ new /\ (movs_ok st -> movs_ok st2) /\
    forall s s', Sem L s st s' -> exists s'', run new s' = QNext s'' /\ Sem L s st2 s'' /\
      reads srcl s'' = reads (inputs ins) s /\ (Z.land flags SIDEEFF <> 0 -> q_cpu s'' = q_cpu s) }.

Lemma AllocOp_front L flags ins c st :
  W st -> Live L st -> (forall i, is_glob i -> L i) -> ra_inst_wf L flags ins -> op_ct (GetOpcode ins) = Some c ->
  exists avoid srcl st1 st2,
    fold_ra (alloc_input (ic_ct c) (length (outputs ins))) (GPR_FIXED, inputs ins)
      (take (length (inputs ins)) (drop (length (outputs ins)) (ic_order c))) st = RA_ok (avoid, srcl) st1 /\
    (if negb (Z.land flags SIDEEFF =? 0) then SyncGlobals else mret tt) st1 = RA_ok tt st2 /\
    front_ok L flags ins c avoid srcl st st2.
Proof.
  intros HW HL HG Hwf Hc. destruct (operand_counts ins (rw_ok _ _ _ Hwf)) as [Ho Hi].
  rewrite Ho, Hi. fold (in_order (GetOpcode ins) c).
  pose proof (in_order_perm _ _ Hc) as Hperm.
  destruct (alloc_inputs si types clob weaks HV L (ic_ct c) (n_out (GetOpcode ins)) (inputs ins) st
    (in_order (GetOpcode ins) c) [] GPR_FIXED (inputs ins) st) as (avoid & srcl & st1 & E1 & Hinv & Hfree).
  - split; try done; [|by intros k v Hk; apply elem_of_nil in Hk|by intros k t r c' Hk; apply elem_of_nil in Hk|by intros q Hq].
    apply (evolves_weaken si types clob weaks L (fun _ => False) _ (fun _ => False) _ st st tt2); try done.
    + intros s s' _ k v v0 H. by apply elem_of_nil in H.
    + by apply evolves_refl.
  - rewrite Hperm. apply NoDup_ListNoDup, seq_NoDup.
  - intros i _ H. by apply elem_of_nil in H.
  - intros i Hin. rewrite Hperm in Hin. apply elem_of_seq in Hin.
    destruct (lookup_lt_is_Some_2 (inputs ins) i) as [v0 Hv0]; [lia|]. exists v0. split; [done|].
    by apply (Forall_lookup_1 _ _ _ _ (rw_in _ _ _ Hwf) Hv0).
  - by apply op_feasible.
  - pose proof Hinv as [h1 h2 h3 h4 h5 ht h6].
    assert (Hall : forall k, (k < length srcl)%nat -> k ∈ rev (in_order (GetOpcode ins) c) ++ []).
    { intros k Hk. rewrite app_nil_r, <- Permutation_rev, Hperm. apply elem_of_seq. lia. }
    destruct (sync_step L flags st st1 _ HG h1) as (st2 & E2 & HW2 & HL2 & Ep & Hsy & new & En & Hmv & Hrun).
    { intros s s1 s2 H Hp k v v0 Hk Hv Hv0. rewrite <- (H k v v0 Hk Hv Hv0).
      destruct (h4 k v Hk Hv) as [(t & k' & -> & _)|(t & q & -> & _)]; [done|]. cbn. f_equal. by apply Hp. }
    exists avoid, srcl, st1, st2. split; [done|]. split; [done|].
    split; [done|done|done|by rewrite Ho|lia| |done| |done|].
    + intros k v Hv. rewrite Ho. apply (h4 k v); [|done]. apply Hall. by eapply lookup_lt_Some.
    + intros k t r c' Hk Hc' Hcr. rewrite Ho in Hc'. destruct (h5 k t r c') as (p & Hs & Hp & _); try done.
      * apply Hall. rewrite h2. by eapply lookup_lt_Some.
      * exists p. by rewrite Ep.
    + exists new. split; [done|]. split; [done|]. intros s s' HS. destruct (Hrun s s' HS) as (s'' & Hr & HS'' & HF & Hcpu).
      exists s''. split_and!; try done. apply reads_pointwise; [done|]. intros k v v0 Hv Hv0.
      apply (HF k v v0); [|done..]. apply Hall. by eapply lookup_lt_Some.
Qed.

(** The rest of [AllocOp]: the output, after the inputs. *)
Section back.
Context (L : nat -> Prop) (flags : Z) (ins : Inst) (c : InstCt) (avoid : Z) (srcl : list VOperand) (st st2 : RAState).
Context (Hwf : ra_inst_wf L flags ins) (Hc : op_ct (GetOpcode ins) = Some c) (HF : front_ok L flags ins c avoid srcl st st2).

Lemma front_consts : Forall (fun v => (exists t c, v = VConst t c) \/ (exists t q, v = preg t q)) srcl.
Proof.
  apply Forall_lookup_2. intros k v Hv. destruct (fr_src _ _ _ _ _ _ _ _ HF k v Hv) as [(t & k' & -> & _)|(t & q & -> & _)]; eauto.
Qed.
Lemma front_placed dstl : length dstl = length (outputs ins) -> type_of <$> dstl = type_of <$> outputs ins ->
  (forall k d, dstl !! k = Some d -> exists x, ic_ct c !! k = Some x /\ out_placed (GetOpcode ins) x d = true) ->
  (forall x, ic_ct c !! length (outputs ins) = Some x -> has_alias x = true -> alias x = 0%nat ->
     exists d v, dstl !! 0%nat = Some d /\ srcl !! 0%nat = Some v /\ preg_of d = preg_of v) ->
  placed (set_outputs (set_inputs ins srcl) dstl) = true /\
  types_ok (set_outputs (set_inputs ins srcl) dstl) = true /\
  GetOpcode (set_outputs (set_inputs ins srcl) dstl) = GetOpcode ins.
Proof.
  intros H1 H2 H3 H4. pose proof (fr_len _ _ _ _ _ _ _ _ HF). pose proof (fr_type _ _ _ _ _ _ _ _ HF).
  split; [|split; [|apply opcode_set]].
  - eapply (placed_intro L); try done; [apply Hwf..|]. intros k v Hv.
    destruct (fr_src _ _ _ _ _ _ _ _ HF k v Hv) as [?|(t & q & ? & _ & ? & ?)]; [by left|right; eauto].
  - rewrite types_ok_set by done. apply Hwf.
Qed.

(** Without a destination register nothing more happens. *)
Lemma alloc_none : dst_of ins = None ->
  (forall k d, outputs ins !! k = Some d -> exists x, ic_ct c !! k = Some x /\ out_placed (GetOpcode ins) x d = true) ->
  (forall x, ic_ct c !! length (outputs ins) = Some x -> has_alias x = true -> alias x = 0%nat -> False) ->
  alloc_ok L flags ins (set_outputs (set_inputs ins srcl) (outputs ins)) st st2.
Proof.
  intros Hd Hop Hna. pose proof front_consts as Hpg. pose proof HF as [HW2 HL2 _ _ Hlen _ Hty _ _ (new & En & Hmv & Hrun)].
  split; [|done| | | |done].
  - exists srcl, (outputs ins). by rewrite Hd.
  - eapply Live_mono; [|exact HL2]. intros i [?|?]; [done|congruence].
  - exists new. split; [done|]. intros s s' HS. destruct (Hrun s s' HS) as (s'' & Hr & HS'' & Hrd & Hcpu).
    exists s''. rewrite inputs_set_outputs, inputs_set_inputs by done. split_and!; try done.
    eapply Sem_mono; [|exact HS'']. by intros i [].
  - apply front_placed; try done. intros x H1 H2 H3. by destruct (Hna x H1 H2 H3).
Qed.

(** A tied output needs a register destination. *)
Lemma alias_no_slot t o c0 x : outputs ins = [VSlot true t o] -> ic_ct c !! 0%nat = Some c0 -> ic_ct c !! 1%nat = Some x -> has_alias x = true -> False.
Proof.
  intros Eo Hc0 Hx Hxa. destruct (operand_counts ins (rw_ok _ _ _ Hwf)) as [Ho Hi]. rewrite Eo in Ho. cbn in Ho.
  pose proof (alias_back _ _ _ _ Hc (eq_sym Ho) Hc0 Hx Hxa) as Ha0.
  destruct (alias_output _ _ _ Hc (eq_sym Ho) Hc0 Ha0) as (c1 & Hc1 & Ha1 & Hz1 & _ & Hni).
  pose proof (rw_meets _ _ _ Hwf) as Hm. unfold meets_ct in Hm. rewrite Hc, forallb_forall in Hm.
  specialize (Hm 0%nat ltac:(apply in_seq; lia)). rewrite Eo in Hm. cbn [length Nat.add] in Hm. rewrite Hc1 in Hm.
  destruct (inputs ins !! 0%nat); [|done]. unfold alias_ok in Hm. rewrite Ha1, Hz1 in Hm. cbn in Hm. done.
Qed.

(** The register of the destination: that of the tied input, or a free one. *)
Lemma alloc_dst t r c0 v : outputs ins = [VGPR t r] -> ic_ct c !! 0%nat = Some c0 -> ~ resv si (Z.to_nat r) -> ra_vregs st2 !! Z.to_nat r = Some v ->
  exists p st3, alloc_output (ic_ct c) (avoid, [VGPR t r]) 0 st2 = RA_ok (RegMask.Set_ avoid (Z.of_nat p), [preg t p]) st3 /\
    output_ok L avoid (Z.to_nat r) p st2 st3 /\ RegMask.Test (cr c0) (Z.of_nat p) = true /\
    (has_alias c0 = true -> exists t', srcl !! 0%nat = Some (preg t' p)).
Proof.
  intros Eo Hc0 Hnr Hv. pose proof HF as [HW2 HL2 Hfix Hfree _ _ _ Hal _ _].
  destruct (operand_counts ins (rw_ok _ _ _ Hwf)) as [Ho Hi]. rewrite Eo in Ho, Hfree, Hal. cbn [length] in Ho. destruct (has_alias c0) eqn:Ea.
  - destruct (alias_output _ _ _ Hc (eq_sym Ho) Hc0 Ea) as (c1 & Hc1 & Ha1 & Hz & Hcr & Hni).
    destruct (meets_alias ins c c1 Hc (rw_meets _ _ _ Hwf) ltac:(by rewrite Eo) Hc1 Ha1 Hz ltac:(lia) t r Eo) as [t' Hin].
    destruct (Hal 0%nat t' r c1 Hin Hc1 Hcr) as (p & Hps & Hp). exists p.
    destruct (alloc_output_alias L (ic_ct c) c0 avoid t r st2 p) as (st3 & ? & ?); try done.
    exists st3. split_and!; try done; [|eauto].
    rewrite (alias_cr _ _ _ _ Hc (eq_sym Ho) Hc0 Ea Hc1), Hcr. apply GPR_ALL_test.
    apply lookup_lt_Some in Hp. by rewrite (w_plen _ _ _ HW2) in Hp.
  - destruct (alloc_output_fresh L (ic_ct c) c0 avoid t r st2 v HW2 HL2 Hc0 Ea) as (p & st3 & E & Hcrt & HO); try done.
    + rewrite forallb_forall in Hfree. apply Hfree. destruct (ic_ct c); [done|]. cbn in Hc0 |- *. left. congruence.
    + by exists p, st3.
Qed.
Lemma alloc_some t r c0 p st3 : outputs ins = [VGPR t r] -> ic_ct c !! 0%nat = Some c0 ->
  output_ok L avoid (Z.to_nat r) p st2 st3 -> RegMask.Test (cr c0) (Z.of_nat p) = true ->
  (has_alias c0 = true -> exists t', srcl !! 0%nat = Some (preg t' p)) ->
  alloc_ok L flags ins (set_outputs (set_inputs ins srcl) [preg t p]) st st3.
Proof.
  intros Eo Hc0 [(w & Hw & HR & Hp & Hns) HW3 HL3 (new3 & En3 & Hrun3) Hmv3] Hcrt Hals. pose proof front_consts as Hpg.
  pose proof HF as [_ _ _ _ Hlen Hsrc _ _ Hsy (new & En & Hmv & Hrun)].
  assert (Hd : dst_of ins = Some (Z.to_nat r)) by (unfold dst_of; by rewrite Eo).
  pose proof (rw_out _ _ _ Hwf) as Hout. rewrite Eo in Hout. apply Forall_inv in Hout as (Hout & Hnr & Hvt).
  destruct (operand_counts ins (rw_ok _ _ _ Hwf)) as [Ho Hi]. rewrite Eo in Ho. cbn [length] in Ho.
  split; [|done| | | |auto].
  - exists srcl, [preg t p]. rewrite Hd. split_and!; try done. exists t, w. rewrite Z2Nat.id by lia.
    split_and!; try done; [congruence|]. by rewrite Hvt, (track_vtype _ _ st3 _ w HW3 Hw).
  - eapply Live_mono; [|exact HL3]. unfold with_dst. rewrite Hd. intros i [?|[= ->]]; auto.
  - exists (new ++ new3). split; [by rewrite En3, En, app_assoc|]. intros s s' HS.
    destruct (Hrun s s' HS) as (s'' & Hr & HS'' & Hrd & Hcpu).
    destruct (Hrun3 s s'' HS'') as (s3 & Hr3 & HS3 & Hg3 & Hcpu3). exists s3.
    rewrite inputs_set_outputs, inputs_set_inputs by done. split_and!.
    + by rewrite exec_list_app, Hr.
    + eapply Sem_mono; [|exact HS3]. rewrite Hd. intros i [? ?]. split; [done|congruence].
    + rewrite <- Hrd. apply reads_pointwise; [done|]. intros k a b Ha Hb. assert (a = b) as -> by congruence.
      destruct (Hsrc k b Hb) as [(t' & k' & -> & _)|(t' & q & -> & Hq & _)]; [done|]. cbn. f_equal. by apply Hg3.
    + intros Hfl. rewrite Hcpu3 by auto. auto.
  - apply front_placed; try (by rewrite Eo).
    + intros [|k] d Hk; [|done]. injection Hk as <-. exists c0. split; [done|]. cbn [out_placed preg].
      rewrite Hcrt, andb_true_r. rewrite <- Hp, Hvt, <- (track_vtype _ _ st3 _ w HW3 Hw).
      by apply (reg_track_ok _ _ HV st3 (Z.to_nat r)).
    + intros x Hx Hxa Hz. rewrite Eo in Hx. pose proof (alias_back _ _ _ _ Hc (eq_sym Ho) Hc0 Hx Hxa) as Ha0.
      destruct (Hals Ha0) as [t' Hs0]. by exists (preg t p), (preg t' p).
Qed.
End back.

Lemma AllocOp_spec L flags ins st :
  W st -> Live L st -> (forall i, is_glob i -> L i) -> ra_inst_wf L flags ins -> is_Some (op_ct (GetOpcode ins)) ->
  exists ins' st', AllocOp flags ins st = RA_ok ins' st' /\ alloc_ok L flags ins ins' st st'.
Proof.
  intros HW HL HG Hwf [c Hc]. unfold AllocOp, mbind, RA_bind. rewrite Hc. cbn [from_opt mret RA_ret].
  destruct (AllocOp_front L flags ins c st HW HL HG Hwf Hc) as (avoid & srcl & st1 & st2 & -> & -> & HF).
  destruct (operand_counts ins (rw_ok _ _ _ Hwf)) as [Ho Hi]. rewrite Ho, (out_order _ _ Hc).
  pose proof (alloc_none L flags ins c avoid srcl st st2 Hwf Hc HF) as Hnone. pose proof (op_ct_length _ _ Hc) as Hctl. rewrite <- Ho in Hctl |- *.
  pose proof (outputs_le_1 ins) as Hle. destruct (outputs ins) as [|d [|? ?]] eqn:Eo; cbn in Hle, Ho; [|clear Hle|lia].
  { cbn [length seq fold_ra mret RA_ret]. eexists _, _. split; [reflexivity|]. apply Hnone; [unfold dst_of; by rewrite Eo|done|].
    intros x Hx Ha Hz. destruct (decide (0 < n_in (GetOpcode ins))%nat) as [Hn|Hn].
    - destruct (alias_input _ _ 0 x Hc Hn) as (_ & _ & _ & E); [by rewrite <- Ho|done|lia].
    - apply lookup_lt_Some in Hx. cbn in Hx, Hctl. lia. }
  cbn [length seq fold_ra] in *. unfold mbind, RA_bind.
  pose proof (rw_out _ _ _ Hwf) as Hout. rewrite Eo in Hout. apply Forall_inv in Hout.
  destruct (lookup_lt_is_Some_2 (ic_ct c) 0) as [c0 Hc0]; [lia|].
  destruct d as [|t r| |[] t o|]; try done.
  - destruct Hout as (Hout & Hnr & Hvt). destruct (lookup_lt_is_Some_2 (ra_vregs st2) (Z.to_nat r)) as [v Hv].
    { rewrite (w_len _ _ _ (fr_W _ _ _ _ _ _ _ _ HF)). lia. }
    destruct (alloc_dst L flags ins c avoid srcl st st2 Hwf Hc HF t r c0 v Eo Hc0 Hnr Hv) as (p & st3 & -> & HO & Hcrt & Hals).
    eexists _, _. split; [reflexivity|]. by apply (alloc_some L flags ins c avoid srcl st st2 Hwf Hc HF t r c0).
  - assert (E : alloc_output (ic_ct c) (avoid, [VSlot true t o]) 0 st2 = RA_ok (avoid, [VSlot true t o]) st2).
    { unfold alloc_output, mbind, RA_bind. by rewrite Hc0. }
    rewrite E. cbn [mret RA_ret]. destruct Hout as (-> & -> & Hmv0). eexists _, _. split; [reflexivity|].
    apply Hnone; [unfold dst_of; by rewrite Eo| |].
    + intros [|k] d Hk; [|done]. injection Hk as <-. exists c0. split; [done|]. cbn [out_placed]. by rewrite Hmv0.
    + intros x Hx Hxa _. by apply (alias_no_slot L flags ins c Hwf Hc I32 offs_ip c0 x).
Qed.

(** ** Results

    Control leaves a block with the guest state in [CPUState]. *)
Definition total_pgpr (s' : qstate) : Prop := forall p, (p < N_PREGS)%nat -> is_Some (q_pgpr s' !! Z.of_nat p).
Definition same_guest (s s' : qstate) : Prop := q_cpu s = q_cpu s' /\ q_mem s = q_mem s'.
Record handoff (s s' : qstate) : Prop := {
  ho_guest : same_guest s s'; ho_len : cpu_len (q_cpu s); ho_pgpr : total_pgpr s' }.

Definition res_rel (L : nat -> Prop) (st : RAState) (r r' : qres) : Prop :=
  match r, r' with
  | QNext s, QNext s' => Sem L s st s'
  | QJump k s, QJump k' s' => k = k' /\ handoff s s'
  | QExit t s, QExit t' s' => t = t' /\ handoff s s'
  | QRaised s, QRaised s' | QFaulted s, QFaulted s' => same_guest s s'
  | QUndef, QUndef => True
  | _, _ => False
  end.

(** What the allocation of one instruction achieves. *)
Record visit_ok (L L' : nat -> Prop) (ins ins' : Inst) (st st' : RAState) : Prop := {
  vi_W : W st';
  vi_live : Live L' st';
  vi_movs : exists new, ra_movs st' = ra_movs st ++ new /\
    forall s s', Sem L s st s' -> exec ins s <> QStuck ->
      res_rel L' st' (exec ins s) (run (new ++ [ins']) s');
  vi_placed : placed ins' = true /\ types_ok ins' = true /\ GetOpcode ins' = GetOpcode ins /\ (op_ct (GetOpcode ins) = None -> ins' = ins);
  vi_ok : movs_ok st -> movs_ok st' }.

Lemma run_then new i s s' : run new s = QNext s' -> run (new ++ [i]) s = exec i s'.
Proof. intros H. rewrite exec_list_app, H. cbn. by destruct (exec i s'). Qed.

Lemma Sem_set_mem L s st s' m : Sem L s st s' -> Sem L (q_set_mem m s) st (q_set_mem m s').
Proof.
  by intros [a1 a2 a3 a4 a5 a6 a7].
Qed.

Lemma Sem_handoff L s st s' :
  W st -> (forall i, is_glob i -> L i) -> Sem L s st s' -> (forall j v, ra_vregs st !! j = Some v -> glob_mem v) ->
  handoff s s'.
Proof.
  intros HW HG HS HM. split; [split; [|apply HS]|apply HS|exact (sm_pgpr _ _ _ _ _ HS)].
  symmetry. eapply Sem_cpu_eq; try done. by apply mem_allsynced.
Qed.

(** Writing the destination of an allocated instruction. *)
Lemma alloc_write L flags ins ins' st st' d s s'' y :
  alloc_ok L flags ins ins' st st' -> Forall (ra_out_ok (GetOpcode ins)) (outputs ins) -> outputs ins = [d] ->
  Sem (fun i => L i /\ dst_of ins <> Some i) s st' s'' ->
  or_stuck (write d y s) QNext <> QStuck ->
  exists d', outputs ins' = [d'] /\
    res_rel (with_dst L ins) st' (or_stuck (write d y s) QNext) (or_stuck (write d' y s'') QNext).
Proof.
  intros [(srcl & dstl & -> & Hlen & _ & Hdst) HW HL _] Hout Ho HS Hns.
  assert (Hos : forall l, length l = 1%nat -> outputs (set_outputs (set_inputs ins srcl) l) = l).
  { intros [|a [|]] H; try done. revert Ho.
    destruct ins, srcl as [|? [|? [|? ?]]]; cbn; intros E; simplify_eq; done. }
  rewrite Ho in Hout. apply Forall_inv in Hout.
  destruct (write d y s) as [s1|] eqn:Ew; [|done]. cbn [or_stuck].
  destruct d as [|t r| |[] t o|]; try done.
  - assert (Hd : dst_of ins = Some (Z.to_nat r)) by (unfold dst_of; by rewrite Ho). rewrite Hd in Hdst.
    destruct Hdst as (t' & v & Eo & -> & Hv & HR & Hs & Ht). rewrite Ho in Eo. injection Eo as <- Er.
    exists (preg t (rt_p v)). rewrite Hos by done. split; [done|]. cbn [write_opnd preg or_stuck res_rel].
    eapply Sem_mono; [|eapply (write_dst L st' (Z.to_nat r) v s s'' t y s1)]; try (by rewrite <- Er); try done.
    + unfold with_dst. rewrite Hd. intros i [?|[= ->]]; auto.
    + eapply Sem_mono; [|exact HS]. rewrite Hd. intros i [? ?]. split; [done|congruence].
  - assert (Hd : dst_of ins = None) by (unfold dst_of; by rewrite Ho). rewrite Hd in Hdst. subst dstl.
    exists (VSlot true t o). rewrite Hos by (by rewrite Ho). split; [done|].
    cbn in Hout. destruct Hout as [-> _]. destruct (write_field _ st' s s'' t y s1 HW HS Ew) as (s1' & -> & HS1). cbn [or_stuck res_rel].
    eapply Sem_mono; [|exact HS1]. unfold with_dst. rewrite Hd. intros i [?|?]; [split; congruence|done].
Qed.

(** Instructions that neither jump nor call. *)
Definition straight (ins : Inst) : bool :=
  match ins with
  | InstVMLoad _ _ _ _ | InstVMStore _ _ _ _ | InstSetcc _ _ _ _ | InstUnop _ _ _ | InstBinop _ _ _ _ => true
  | _ => false
  end.

Lemma straight_visit L flags ins ins' st st' :
  straight ins = true -> ra_inst_wf L flags ins -> (forall i, is_glob i -> L i) ->
  alloc_ok L flags ins ins' st st' -> visit_ok L (with_dst L ins) ins ins' st st'.
Proof.
  intros Hstr Hwf HG Hal. pose proof Hal as [(srcl & dstl & Hins & Hlen & _ & Hdst) HW HL (new & En & Hrun) (Hp1 & Hp2 & Hp3) Hmv].
  split; [done|done| | |done].
  2:{ split_and!; [done..|]. intros E. pose proof (rw_ok _ _ _ Hwf) as Hok.
      by destruct ins as [| | | | | | | |[]|[]]. }
  exists new. split; [done|]. intros s s' HS Hns.
  destruct (Hrun s s' HS) as (s'' & Hr & HS'' & Hrd & Hcpu). rewrite (run_then _ _ _ _ Hr).
  rewrite exec_sem in Hns. rewrite !exec_sem, Hrd. destruct (reads (inputs ins) s) as [vals|] eqn:Ev; [|done].
  pose proof (length_mapM _ _ _ Ev) as Hlv.
  assert (Hfault : Z.land (GetOpFlags (GetOpcode ins)) SIDEEFF <> 0 -> same_guest s s'').
  { intros Hf. split; [|apply HS'']. symmetry. by apply Hcpu, (rw_flags _ _ _ Hwf). }
  assert (HW1 : forall d y, outputs ins = [d] -> or_stuck (write d y s) QNext <> QStuck ->
    exists d', outputs ins' = [d'] /\
      res_rel (with_dst L ins) st' (or_stuck (write d y s) QNext) (or_stuck (write d' y s'') QNext)).
  { intros d y Ho Hn. eapply alloc_write; try done. apply Hwf. }
  destruct ins; try done; cbn [outputs] in HW1; cbn [inputs] in Hlv, Hlen;
    destruct srcl as [|a [|b [|? ?]]]; try discriminate Hlen;
    destruct vals as [|x [|z [|? ?]]]; try discriminate Hlv;
    subst ins'; cbn [set_inputs sem] in *.
  - destruct dstl as [|d1 [|]]; cbn [set_outputs outputs sem] in *;
      (destruct (access_ity sz sgn) as [T|]; [|done]); cbn [or_stuck] in *;
      rewrite (sm_mem _ _ _ _ _ HS'') in *;
      (destruct (unaligned_load T (q_mem s'') x) as [y|] eqn:El; [|by apply Hfault]);
      destruct (HW1 d (u32 y) eq_refl Hns) as (d' & Ho & Hres); by injection Ho as <-.
  - destruct dstl as [|d1 [|]]; cbn [set_outputs outputs sem] in *;
      (destruct (access_ity sz sgn) as [T|]; [|done]); cbn [or_stuck] in *;
      rewrite (sm_mem _ _ _ _ _ HS'') in *;
      (destruct (unaligned_store T (q_mem s'') x z); [|by apply Hfault]); cbn [res_rel]; apply Sem_set_mem;
      (eapply Sem_mono; [|exact HS'']); intros i [?|?]; try done; split; done.
  - destruct dstl as [|d1 [|]]; cbn [set_outputs outputs sem] in *;
      destruct (HW1 d (if eval_cc cc x z then 1 else 0) eq_refl Hns) as (d' & Ho & Hres); by injection Ho as <-.
  - destruct dstl as [|d1 [|]]; cbn [set_outputs outputs sem] in *; (destruct (InstUnop_HasOpcode op); [|done]);
      destruct (HW1 d x eq_refl Hns) as (d' & Ho & Hres); by injection Ho as <-.
  - destruct dstl as [|d1 [|]]; cbn [set_outputs outputs sem] in *;
      (destruct (eval_binop op x z) as [y|]; [|done]); cbn [or_stuck] in *;
      destruct (HW1 d y eq_refl Hns) as (d' & Ho & Hres); by injection Ho as <-.
Qed.

(** ** Calls, jumps and exits *)
Definition calls_save : Prop :=
  forall p, (p < N_PREGS)%nat -> RegMask.Test GPR_CALL_CLOBBER (Z.of_nat p) = false -> clob (Z.of_nat p) = None.

Lemma clobber_lookup s p :
  q_pgpr (clobber clob s) !! p = (fun v => match clob p with Some j => u32 j | None => v end) <$> q_pgpr s !! p.
Proof. cbn. rewrite map_lookup_imap. by destruct (q_pgpr s !! p). Qed.

Lemma clobber_sem L st s s'' c m :
  calls_save -> W st -> free_regs clobbered st -> (forall j v, ra_vregs st !! j = Some v -> glob_mem v) ->
  Sem L s st s'' -> cpu_len c ->
  Sem L (clobber clob (q_set_mem m (q_set_cpu c s))) st (clobber clob (q_set_mem m (q_set_cpu c s''))).
Proof.
  intros Hcs HW Hfr HM [a1 a2 a3 a4 a5 a6 a7] Hlen. split; try done.
  - intros p Hp. rewrite clobber_lookup. destruct (a6 p Hp) as [x Hx].
    change (q_pgpr (q_set_mem m (q_set_cpu c s''))) with (q_pgpr s''). rewrite Hx. by eexists.
  - intros i v HL Hi. destruct (a7 i v HL Hi) as (x & Hx & Hh).
    pose proof (w_track _ _ _ HW i v Hi) as T. unfold track_ok in T.
    destruct (si !! i) as [sr|] eqn:E.
    + destruct T as (Tg & Ts & _). rewrite (vval_global i sr) by done.
      destruct (cpu_read_valid c (state_offs sr)) as [y Hy].
      { by apply (Forall_lookup_1 _ _ _ _ (vo_offs _ _ HV) E). }
      exists y. split; [exact Hy|]. unfold QRegAllocInv.holds. rewrite (HM i v Hi Tg). unfold slot. rewrite Tg, Ts. cbn.
      by rewrite Hy.
    + destruct T as (Tg & _). exists x. split.
      { unfold vval in *. cbn [read_opnd] in *. unfold GetStateReg in *.
        destruct (Z.ltb_spec (Z.of_nat i) (Z.of_nat (length si))); [apply lookup_ge_None in E; lia|done]. }
      unfold QRegAllocInv.holds in *. unfold slot in *. rewrite Tg in *.
      destruct (rt_loc v) eqn:El; [done|done|]. destruct Hh as [H1 H2]. split; [|exact H2].
      rewrite <- H1, clobber_lookup. change (q_pgpr (q_set_mem m (q_set_cpu c s''))) with (q_pgpr s''). f_equal.
      assert (Hp : (rt_p v < N_PREGS)%nat) by (by eapply reg_lt). destruct (a6 _ Hp) as [z ->]. cbn.
      rewrite Hcs; [done..|]. destruct (RegMask.Test GPR_CALL_CLOBBER (Z.of_nat (rt_p v))) eqn:Et; [|done].
      pose proof (Hfr (rt_p v) (conj Hp Et)). pose proof (w_reg _ _ _ HW i v Hi El). congruence.
Qed.

Lemma hcall_visit L flags stub a st :
  calls_save -> W st -> Live L st -> (forall i, is_glob i -> L i) -> ra_inst_wf L flags (InstHcall stub a) ->
  exists st', CallOp true st = RA_ok tt st' /\ visit_ok L L (InstHcall stub a) (InstHcall stub a) st st' /\
    forall j v, ra_vregs st' !! j = Some v -> glob_mem v.
Proof.
  intros Hcs HW HL HG Hwf. destruct (CallOp_spec si types clob weaks HV L st HW HL) as (st' & E & Hev & Hfr & HM).
  exists st'. split; [done|]. split; [|done]. destruct Hev as [h1 h2 _ _ (new & En & Hrun) h6].
  split; [done|done| |split_and!; [done|apply Hwf|done|done]|done]. exists new. split; [done|]. intros s s' HS Hns.
  destruct (Hrun s s' HS) as (s'' & Hr & HS'' & _). rewrite (run_then _ _ _ _ Hr).
  destruct (rw_hcall _ _ _ Hwf stub a eq_refl) as (t & k & ->).
  assert (Hcpu : q_cpu s'' = q_cpu s) by (eapply Sem_cpu_eq; try done; by apply mem_allsynced).
  cbn [exec_inst read_opnd or_stuck] in *. unfold exec_hcall in *. destruct (stub_rv32 stub) as [op|]; [|done].
  rewrite Hcpu, <- (sm_mem _ _ _ _ _ HS''). unfold qcgstub_rv32 in *.
  pose proof (kl_Handler weaks op k (mkH (q_cpu s) (ip (q_cpu s)) (q_mem s)) (sm_len _ _ _ _ _ HS'')) as HH.
  destruct (Handler weaks op k _) as [[] σ|σ|σ|]; cbn [res_rel h_cpu h_mem] in *; try done.
  by apply clobber_sem.
Qed.

Definition is_term (ins : Inst) : bool :=
  match ins with InstBr | InstBrcc _ _ _ | InstGBr _ | InstGBrind _ => true | _ => false end.
Definition is_call (ins : Inst) : bool := match ins with InstHcall _ _ => true | _ => false end.
Definition next_live (L : nat -> Prop) (ins : Inst) : nat -> Prop :=
  if is_term ins then is_glob else with_dst L ins.

(** A boundary behind an allocated jump leaves its operands alone. *)
Lemma boundary_visit L flags ins ins1 st st1 st' :
  (forall i, is_glob i -> L i) -> outputs ins = [] -> alloc_ok L flags ins ins1 st st1 ->
  (exists M, (forall i, is_glob i -> M i) /\ (forall i, M i -> L i) /\
     evolves M (fun _ => False) (fun _ => True) st1 st' tt2) ->
  exists new, ra_movs st' = ra_movs st ++ new /\
    forall s s', Sem L s st s' -> exists s'', run new s' = QNext s'' /\ Sem is_glob s st' s'' /\
      reads (inputs ins1) s'' = reads (inputs ins) s.
Proof.
  intros HG Ho [(srcl & dstl & -> & Hlen & Hsrc & _) _ _ (n1 & E1 & R1)] (M & HM1 & HM2 & [_ _ _ _ (n2 & E2 & R2)]).
  exists (n1 ++ n2). split; [by rewrite E2, E1, app_assoc|]. intros s s' HS.
  destruct (R1 s s' HS) as (s1 & Hr1 & HS1 & Hrd & _).
  destruct (R2 s s1) as (s2 & Hr2 & HS2 & Hg & _).
  { eapply Sem_mono; [|exact HS1]. intros i Hi. split; [auto|]. unfold dst_of. by rewrite Ho. }
  exists s2. split; [by rewrite exec_list_app, Hr1|]. split; [by eapply Sem_mono|].
  rewrite <- Hrd. apply reads_pointwise; [done|]. intros k v v0 Hv Hv0. assert (v = v0) as -> by congruence.
  rewrite inputs_set_outputs, inputs_set_inputs in Hv0 by done.
  destruct (Forall_lookup_1 _ _ _ _ Hsrc Hv0) as [(t & c & ->)|(t & q & ->)]; [done|]. cbn. f_equal. by apply Hg.
Qed.

Lemma visit_spec L flags ins st :
  calls_save -> W st -> Live L st -> (forall i, is_glob i -> L i) -> ra_inst_wf L flags ins ->
  exists ins' st', QRegAlloc_visit flags ins st = RA_ok ins' st' /\ visit_ok L (next_live L ins) ins ins' st st' /\
    (is_term ins || is_call ins = true -> forall j v, ra_vregs st' !! j = Some v -> glob_mem v).
Proof.
  intros Hcs HW HL HG Hwf. unfold QRegAlloc_visit, next_live.
  assert (Hstr : straight ins = true ->
    exists ins' st', AllocOp flags ins st = RA_ok ins' st' /\ visit_ok L (with_dst L ins) ins ins' st st').
  { intros Hs. destruct (AllocOp_spec L flags ins st HW HL HG Hwf) as (ins' & st' & E & Hal).
    - pose proof (rw_ok _ _ _ Hwf) as Hok. destruct ins as [| | | | | | | |[]|[]]; try done; by eexists.
    - exists ins', st'. split; [done|]. by eapply straight_visit. }
  destruct ins as [stub a| |cc a b|t|t|sz sg d q|sz sg q v|cc d a b|op d a|op d a b]; cbn [is_term is_call orb];
    try (destruct (Hstr eq_refl) as (ins' & st' & E & Hv); exists ins', st'; done); clear Hstr;
    unfold mbind, RA_bind.
  - destruct (hcall_visit L flags stub a st Hcs HW HL HG Hwf) as (st' & -> & [h1 h2 h3 h4 h5] & HM).
    eexists _, st'. split; [reflexivity|]. split; [|done]. split; [done| | |done|done].
    + eapply Live_mono; [|exact h2]. by intros i [?|?].
    + destruct h3 as (new & En & Hrun). exists new. split; [done|]. intros s s' HS Hns. specialize (Hrun s s' HS Hns).
      destruct (exec _ s), (run _ s'); try done. eapply Sem_mono; [|exact Hrun]. by intros i [?|?].
  - destruct (BlockBoundary_spec si types clob weaks HV L st HW HL) as (st' & -> & [h1 h2 _ _ (new & En & Hrun) h6] & HM).
    eexists _, st'. split; [reflexivity|]. split; [|done].
    split; [done|by eapply Live_mono| |split_and!; [done|apply Hwf|done|done]|done].
    exists new. split; [done|]. intros s s' HS _. destruct (Hrun s s' HS) as (s'' & Hr & HS'' & _).
    rewrite (run_then _ _ _ _ Hr). split; [done|]. by eapply Sem_handoff.
  - destruct (AllocOp_spec L flags (InstBrcc cc a b) st HW HL HG Hwf) as (ins1 & st1 & -> & Hal); [by eexists|].
    destruct (BlockBoundary_spec si types clob weaks HV L st1) as (st' & -> & Hev & HM); [apply Hal| |].
    { eapply Live_mono; [|apply Hal]. intros i Hi. by left. }
    eexists _, st'. split; [reflexivity|]. split; [|done].
    destruct (boundary_visit L flags (InstBrcc cc a b) ins1 st st1 st' HG eq_refl Hal) as (new & En & Hrun); [by exists L|].
    split; [apply Hev|eapply Live_mono; [exact HG|apply Hev]| |split_and!; [apply Hal..|done]|by intros ?%Hal%Hev].
    exists new. split; [done|]. intros s s' HS Hns.
    destruct (Hrun s s' HS) as (s'' & Hr & HS'' & Hrd). rewrite (run_then _ _ _ _ Hr).
    rewrite exec_sem in Hns. rewrite !exec_sem, Hrd. destruct (reads _ s) as [vals|] eqn:Ev; [|done].
    pose proof (length_mapM _ _ _ Ev) as Hlv. cbn [inputs length] in Hlv.
    destruct Hal as [(srcl & dstl & -> & Hlen & _ & ->) _ _ _].
    destruct vals as [|x [|y [|]]]; try discriminate Hlv. destruct srcl as [|u [|w [|]]]; try discriminate Hlen.
    cbn [set_inputs set_outputs sem]. split; [done|]. eapply Sem_handoff; [apply Hev| |exact HS''|done]. done.
  - destruct (RegionBoundary_spec si types clob weaks HV st HW) as (st' & -> & [h1 h2 _ _ (new & En & Hrun) h6] & HM);
      [by eapply Live_mono|].
    eexists _, st'. split; [reflexivity|]. split; [|done].
    split; [done|done| |split_and!; [done|apply Hwf|done|done]|done].
    exists new. split; [done|]. intros s s' HS _. destruct (Hrun s s') as (s'' & Hr & HS'' & _); [by eapply Sem_mono|].
    rewrite (run_then _ _ _ _ Hr). pose proof (rw_ok _ _ _ Hwf) as Hok. destruct t; try done. split; [done|].
    exact (Sem_handoff is_glob s st' s'' h1 (fun _ H => H) HS'' HM).
  - destruct (AllocOp_spec L flags (InstGBrind t) st HW HL HG Hwf) as (ins1 & st1 & -> & Hal); [by eexists|].
    destruct (RegionBoundary_spec si types clob weaks HV st1) as (st' & -> & Hev & HM); [apply Hal| |].
    { eapply Live_mono; [|apply Hal]. intros i Hi. left. auto. }
    eexists _, st'. split; [reflexivity|]. split; [|done].
    destruct (boundary_visit L flags (InstGBrind t) ins1 st st1 st' HG eq_refl Hal) as (new & En & Hrun); [by exists is_glob|].
    split; [apply Hev|apply Hev| |split_and!; [apply Hal..|done]|by intros ?%Hal%Hev]. exists new. split; [done|]. intros s s' HS Hns.
    destruct (Hrun s s' HS) as (s'' & Hr & HS'' & Hrd). rewrite (run_then _ _ _ _ Hr).
    rewrite exec_sem in Hns. rewrite !exec_sem, Hrd. destruct (reads _ s) as [vals|] eqn:Ev; [|done].
    pose proof (length_mapM _ _ _ Ev) as Hlv. cbn [inputs length] in Hlv.
    destruct Hal as [(srcl & dstl & -> & Hlen & _ & ->) _ _ _].
    destruct vals as [|x [|]]; try discriminate Hlv. destruct srcl as [|u [|]]; try discriminate Hlen.
    cbn [set_inputs set_outputs sem]. split; [done|]. eapply Sem_handoff; [apply Hev| |exact HS''|done]. done.
Qed.
End correct.
