(* ===== verification/QRegAllocRegion.v ===== *)
(** * Register allocation of a region

    The allocator walks the blocks in list order, while execution follows the
    control-flow graph; between blocks the guest state is in [CPUState] and
    nothing else is assumed. *)

From stdpp Require Import base tactics numbers list strings gmap.
From S2P Require Import Prelude Bitfield RV32Insn RV32Decode GuestState Interp InterpProofs VOperand Qir QirSem QirBuilder ArchTraits QSel QSelCorrect QRegAlloc QRegAllocInv QRegAllocSteps QRegAllocOps QRegAllocCorrect.

Import qir.

(** ** What the emitter is given *)
Definition emit_ok (i : Inst) : bool :=
  ra_mov i ||
  placed i && types_ok i &&
  match i with
  | InstGBr (VConst _ c) | InstHcall _ (VConst _ c) => (0 <=? c) && (c <? 2 ^ 32)
  | InstGBr _ | InstHcall _ _ => false
  | _ => true
  end.

Lemma ra_mov_opcode m : ra_mov m = true -> GetOpcode m = _mov.
Proof. by destruct m as [| | | | | | | |[]|]. Qed.

(** A block and its allocated form. *)
Definition emit_block (b b' : Block) : Prop :=
  expands (n_inst <$> ilist b) (n_inst <$> ilist b') /\ Forall (fun i => emit_ok i = true) (n_inst <$> ilist b').

(** ** The outcome of a block *)
Definition blk_rel (r r' : qres) : Prop :=
  match r, r' with
  | QNext _, QNext _ | QUndef, QUndef => True
  | QJump k s, QJump k' s' => k = k' /\ handoff s s'
  | QExit t s, QExit t' s' => t = t' /\ handoff s s'
  | QRaised s, QRaised s' | QFaulted s, QFaulted s' => same_guest s s'
  | _, _ => False
  end.

Section region.
Context (si : StateInfo) (types : list VType).
Context (HV : vregs_ok si types).
Notation W := (W si types).
Notation is_glob := (is_glob si).

(** Instructions of a block, with the registers live in front of each. *)
Fixpoint nodes_wf (L : nat -> Prop) (l : list Node) : Prop :=
  match l with
  | [] => True
  | n :: l => ra_inst_wf si types L (n_flags n) (n_inst n) /\ nodes_wf (next_live si L (n_inst n)) l
  end.

(** A block ends with a jump, or with a call (of a stub that raises). *)
Definition ends_ok (l : list Node) : bool :=
  match last l with Some n => is_term (n_inst n) || is_call (n_inst n) | None => true end.

Definition all_mem (st : RAState) : Prop := forall j v, ra_vregs st !! j = Some v -> glob_mem v.
Definition no_movs (st : RAState) : RAState := mkRA (ra_vregs st) (ra_p2v st) (ra_frame st) [].

Lemma W_no_movs st : W st -> W (no_movs st).
Proof. by intros []. Qed.
Lemma Sem_no_movs L s st s' : Sem si L s st s' -> Sem si L s (no_movs st) s'.
Proof. by intros []. Qed.

Lemma next_live_glob (L : nat -> Prop) ins :
  (forall i, is_glob i -> L i) -> forall i, is_glob i -> next_live si L ins i.
Proof. intros H i Hi. unfold next_live. destruct (is_term ins); [done|]. left. auto. Qed.

Lemma emit_ok_visited L flags ins ins' :
  ra_inst_wf si types L flags ins ->
  placed ins' = true /\ types_ok ins' = true /\ GetOpcode ins' = GetOpcode ins /\
  (op_ct (GetOpcode ins) = None -> ins' = ins) -> emit_ok ins' = true.
Proof.
  intros Hwf (Hp & Ht & Hop & Hn). unfold emit_ok. rewrite Hp, Ht. apply orb_true_iff. right. cbn [andb].
  assert (HR : forall c, in_u 32 c -> (0 <=? c) && (c <? 2 ^ 32) = true).
  { intros c Hc. unfold in_u in Hc. destruct (Z.leb_spec 0 c), (Z.ltb_spec c (2 ^ 32)); done || lia. }
  destruct (op_ct (GetOpcode ins)) eqn:E.
  - destruct ins'; try done; rewrite <- Hop in E; discriminate E.
  - rewrite Hn by done. destruct ins as [stub a| |cc a b|t| | | | |op|op]; try done.
    + destruct (rw_hcall _ _ _ _ _ Hwf stub a eq_refl) as (t & c & ->). apply HR.
      exact (proj1 (Forall_inv (rw_in _ _ _ _ _ Hwf))).
    + destruct (rw_gbr _ _ _ _ _ Hwf t eq_refl) as (t' & c & -> & Hc). by apply HR.
Qed.

Lemma RA_nodes_spec clob weaks l : calls_save clob -> forall L id st,
  W st -> Live L st -> (forall i, is_glob i -> L i) -> nodes_wf L l ->
  (l = [] -> all_mem st) -> ends_ok l = true ->
  exists id' l' st', RA_nodes id l st = RA_ok (id', l') st' /\ W st' /\ all_mem st' /\
    expands (n_inst <$> l) (n_inst <$> l') /\ Forall (fun i => emit_ok i = true) (n_inst <$> l') /\
    forall s s', Sem si L s st s' -> exec_list si clob weaks (n_inst <$> l) s <> QStuck ->
      blk_rel (exec_list si clob weaks (n_inst <$> l) s) (exec_list si clob weaks (n_inst <$> l') s').
Proof.
  intros Hcs. induction l as [|n l IH]; intros L id st HW HL HG Hwf Hnil Hend.
  - exists id, [], st. split_and!; try done; [by auto|constructor].
  - destruct Hwf as [Hn Hwf].
    destruct (visit_spec si types clob weaks HV L (n_flags n) (n_inst n) (no_movs st) Hcs (W_no_movs st HW) HL HG Hn)
      as (ins & st1 & E1 & [h1 h2 (new & En & Hrun) h4 h5] & HM).
    cbn [RA_nodes]. change (mkRA (ra_vregs st) (ra_p2v st) (ra_frame st) []) with (no_movs st). rewrite E1.
    destruct (IH (next_live si L (n_inst n)) (u32 (id + Z.of_nat (length (ra_movs st1)))) st1 h1 h2
      (next_live_glob L (n_inst n) HG) Hwf) as (id2 & l2 & st2 & E2 & HW2 & HM2 & Hex2 & Hem2 & Hrun2).
    + intros ->. exact (HM Hend).
    + unfold ends_ok in *. by destruct l.
    + unfold mbind, RA_bind. rewrite E2. eexists _, _, _. split; [reflexivity|]. split; [done|]. split; [done|]. split; [|split].
      { rewrite fmap_app, n_inst_number, !fmap_cons. apply exp_cons; [|apply h4|done].
        eapply Forall_impl; [by apply h5|]. intros m Hm. by apply ra_mov_opcode. }
      { rewrite fmap_app, n_inst_number, fmap_cons. apply Forall_app. split; [|apply Forall_cons; split; [|done]].
        - eapply Forall_impl; [by apply h5|]. intros i Hi. unfold emit_ok. by rewrite Hi.
        - by eapply emit_ok_visited. }
      intros s s' HS Hns. cbn in En. rewrite En, fmap_app, n_inst_number, !fmap_cons. cbn [n_inst].
      rewrite (cons_middle ins), app_assoc, exec_list_app.
      rewrite fmap_cons in Hns. cbn [exec_list] in *.
      specialize (Hrun s s' (Sem_no_movs L s st s' HS)).
      destruct (exec_inst si clob weaks (n_inst n) s) eqn:Ex;
        try (specialize (Hrun ltac:(done)); destruct (exec_list si clob weaks (new ++ [ins]) s'); done).
      specialize (Hrun ltac:(done)). destruct (exec_list si clob weaks (new ++ [ins]) s'); try done.
      by apply Hrun2.
Qed.

(** ** Between blocks *)
Lemma entry_live st : W st -> all_mem st -> Live is_glob st.
Proof.
  intros HW HM i Hi. destruct (lookup_lt_is_Some_2 (ra_vregs st) i) as [v Hv].
  { rewrite (w_len _ _ _ HW). unfold QRegAllocOps.is_glob in Hi. lia. }
  exists v. split; [done|]. apply (track_global si types st i v HW Hv) in Hi. rewrite (HM i v Hv Hi).
  split; [done|]. intros _. by eapply global_spill.
Qed.

Lemma entry_sem st s s' : W st -> all_mem st -> handoff s s' -> Sem si is_glob s st s'.
Proof.
  intros HW HM [[Hc Hm] Hl Hp]. split; try congruence; try done.
  intros i v Hi Hv. assert (Hlt : (i < length si)%nat) by done.
  destruct (lookup_lt_is_Some_2 si i Hlt) as [sr Hsr].
  pose proof (w_track _ _ _ HW i v Hv) as T. unfold track_ok in T. rewrite Hsr in T. destruct T as (Tg & Ts & _).
  rewrite (vval_global si i sr) by done.
  destruct (cpu_read_valid (q_cpu s) (state_offs sr)) as [x Hx].
  { by apply (Forall_lookup_1 _ _ _ _ (vo_offs _ _ HV) Hsr). }
  exists x. split; [done|]. unfold holds. rewrite (HM i v Hv Tg). unfold slot. rewrite Tg, Ts. cbn. f_equal. congruence.
Qed.

Definition block_wf (b : Block) : Prop := nodes_wf is_glob (ilist b) /\ ends_ok (ilist b) = true.

Lemma RA_blocks_spec clob weaks bs : calls_save clob -> forall id st,
  W st -> all_mem st -> Forall block_wf bs ->
  exists id' bs' st', RA_blocks id bs st = RA_ok (id', bs') st' /\ succs <$> bs' = succs <$> bs /\
    Forall2 emit_block bs bs' /\
    forall k b, bs !! k = Some b -> exists l', bs' !! k = Some (mkBlock l' (succs b) (preds b)) /\
      forall s s', handoff s s' -> exec_list si clob weaks (n_inst <$> ilist b) s <> QStuck ->
        blk_rel (exec_list si clob weaks (n_inst <$> ilist b) s) (exec_list si clob weaks (n_inst <$> l') s').
Proof.
  intros Hcs. induction bs as [|b bs IH]; intros id st HW HM Hwf.
  - by exists id, [], st.
  - apply Forall_cons in Hwf as [[Hb He] Hwf]. cbn [RA_blocks]. unfold mbind, RA_bind.
    destruct (RA_nodes_spec clob weaks (ilist b) Hcs is_glob id st HW (entry_live st HW HM) ltac:(done) Hb ltac:(done) He)
      as (id1 & l1 & st1 & -> & HW1 & HM1 & Hx1 & He1 & Hrun1).
    destruct (IH id1 st1 HW1 HM1 Hwf) as (id2 & bs2 & st2 & -> & Hs & He2 & Hrun2).
    eexists _, _, _. split; [reflexivity|]. split; [cbn; by f_equal|]. split; [by constructor|]. intros [|k] b' Hk; cbn in Hk.
    + injection Hk as <-. exists l1. split; [done|]. intros s s' Hh. apply Hrun1. by apply entry_sem.
    + by apply Hrun2.
Qed.

(** ** The initial state *)
Lemma upd_loop f l2 : forall l1 p2v fr movs,
  for_each (seq (length l1) (length l2)) (fun i => upd_track f i) (mkRA (l1 ++ l2) p2v fr movs) =
  RA_ok tt (mkRA (l1 ++ map f l2) p2v fr movs).
Proof.
  induction l2 as [|v l2 IH]; intros l1 p2v fr movs; [done|]. cbn [length seq for_each]. unfold mbind, RA_bind.
  rewrite (upd_track_eq _ _ _ v) by (cbn; by rewrite list_lookup_middle).
  cbn [ra_vregs ra_p2v ra_frame ra_movs].
  replace (<[length l1 := f v]> (l1 ++ v :: l2)) with ((l1 ++ [f v]) ++ l2).
  - specialize (IH (l1 ++ [f v]) p2v fr movs). rewrite length_app in IH. cbn in IH.
    rewrite Nat.add_1_r in IH. rewrite IH. by rewrite <- app_assoc.
  - rewrite <- app_assoc. cbn. rewrite insert_app_r_alt by lia. by rewrite Nat.sub_diag.
Qed.

Definition start_tracks : list RTrack :=
  map (fun sr => set_loc MEM (AddTrackGlobal sr)) si ++ map AddTrackLocal types.
Definition start_state : RAState := mkRA start_tracks (replicate N_PREGS None) 0 [].

Lemma start_lookup i v :
  start_tracks !! i = Some v ->
  (exists sr, si !! i = Some sr /\ v = set_loc MEM (AddTrackGlobal sr)) \/
  (exists t, si !! i = None /\ types !! (i - length si)%nat = Some t /\ v = AddTrackLocal t).
Proof.
  unfold start_tracks. rewrite lookup_app_Some, length_map. intros [H|[Hge H]].
  - left. rewrite list_lookup_fmap in H. apply fmap_Some in H as (sr & ? & ->). by exists sr.
  - right. rewrite list_lookup_fmap in H. apply fmap_Some in H as (t & ? & ->). exists t. split_and!; try done.
    by apply lookup_ge_None.
Qed.

Lemma start_ok : W start_state /\ all_mem start_state.
Proof.
  assert (Hns : forall i v, start_tracks !! i = Some v -> ~ has_slot v /\ rt_loc v <> REG).
  { intros i v [(sr & _ & ->)|(t & _ & _ & ->)]%start_lookup; unfold has_slot; cbn; naive_solver. }
  split; [split|]; cbn [start_state ra_vregs ra_p2v ra_frame]; try (intros; exfalso; naive_solver).
  - unfold start_tracks. by rewrite length_app, !length_map.
  - done.
  - intros i v [(sr & H & ->)|(t & H & Ht & ->)]%start_lookup; unfold track_ok; rewrite H; done.
  - intros p i H. apply lookup_replicate in H as [H _]. done.
  - intros i v [(sr & H & ->)|(t & H & Ht & ->)]%start_lookup (sr' & Hsr & _); [done|congruence].
  - pose proof (slots_le start_tracks). unfold slots. lia.
  - intros j v [(sr & H & ->)|(t & H & Ht & ->)]%start_lookup; unfold glob_mem; done.
Qed.

Lemma QRegAlloc_start vr :
  glob_info vr = si -> loc_info vr = types ->
  exists st, QRegAlloc_init vr = RA_ok tt st /\ Prologue st = RA_ok tt start_state.
Proof.
  intros Hg Hl. unfold QRegAlloc_init. rewrite Hg, Hl. pose proof (vo_num _ _ HV).
  rewrite bool_decide_true by (unfold MAX_VREGS; lia). eexists. split; [done|].
  unfold Prologue, mbind, RA_bind, n_vregs. cbn [ra_vregs].
  set (l := map AddTrackGlobal si ++ map AddTrackLocal types).
  pose proof (upd_loop (fun v => set_loc (if rt_global v then MEM else DEAD) v) l []) as HU. cbn [length app] in HU.
  rewrite HU. unfold start_state, start_tracks, l. by rewrite map_app, !map_map.
Qed.
End region.

(** ** The pass *)
Definition ra_region_wf (rn : Region) : Prop :=
  let si := glob_info (vregs_info rn) in
  let types := loc_info (vregs_info rn) in
  vregs_ok si types /\ Forall (block_wf si types) (blist rn).

(** Outcomes of a region: same exit, same guest state. *)
Definition exit_rel (r r' : qres) : Prop :=
  match r, r' with
  | QExit t s, QExit t' s' => t = t' /\ same_guest s s'
  | QRaised s, QRaised s' | QFaulted s, QFaulted s' => same_guest s s'
  | QUndef, QUndef => True
  | _, _ => False
  end.

Lemma run_region si clob weaks rn rn' :
  (forall k b, blist rn !! k = Some b -> exists l', blist rn' !! k = Some (mkBlock l' (succs b) (preds b)) /\
     forall s s', handoff s s' -> exec_list si clob weaks (n_inst <$> ilist b) s <> QStuck ->
       blk_rel (exec_list si clob weaks (n_inst <$> ilist b) s) (exec_list si clob weaks (n_inst <$> l') s')) ->
  forall fuel b s s', handoff s s' ->
  region_rel exit_rel (exec_region si clob weaks fuel rn b s) (exec_region si clob weaks fuel rn' b s').
Proof.
  intros HB. induction fuel as [|fuel IH]; intros b s s' Hh; [done|].
  cbn [exec_region]. destruct (blist rn !! b) as [bb|] eqn:Eb; [|done].
  destruct (HB b bb Eb) as (l' & -> & Hrel). unfold exec_block. cbn [ilist succs].
  destruct (qres_stuck_dec (exec_list si clob weaks (n_inst <$> ilist bb) s)) as [->|Hns1]; [done|].
  specialize (Hrel s s' Hh Hns1).
  destruct (exec_list si clob weaks (n_inst <$> ilist bb) s) as [|k s1|t s1| | | |],
    (exec_list si clob weaks (n_inst <$> l') s') as [|k' s1'|t' s1'| | | |]; cbn in Hrel; try done;
    try (apply region_rel_Some; cbn; try done; naive_solver).
  - destruct Hrel as [<- Hh1]. destruct (succs bb !! k) as [b1|]; [|done]. by apply IH.
  - apply region_rel_Some. destruct Hrel as [-> [? _ _]]. done.
Qed.

Lemma QRegAllocPass_sim rn :
  ra_region_wf rn ->
  exists rn' st, QRegAllocPass_run rn = RA_ok rn' st /\ succs <$> blist rn' = succs <$> blist rn /\
    Forall2 emit_block (blist rn) (blist rn') /\
    forall clob weaks fuel b s s', calls_save clob -> handoff s s' ->
      region_rel exit_rel (exec_region (glob_info (vregs_info rn)) clob weaks fuel rn b s)
        (exec_region (glob_info (vregs_info rn)) clob weaks fuel rn' b s').
Proof.
  intros [HV Hwf]. set (si := glob_info (vregs_info rn)) in *. set (types := loc_info (vregs_info rn)) in *.
  destruct (QRegAlloc_start si types HV (vregs_info rn) eq_refl eq_refl) as (st0 & E0 & E1).
  destruct (start_ok si types) as [HW HM].
  unfold QRegAllocPass_run. rewrite E0. unfold mbind, RA_bind. rewrite E1.
  assert (HB : forall clob weaks, calls_save clob -> _) by
    exact (fun clob weaks Hcs => RA_blocks_spec si types HV clob weaks (blist rn) Hcs (inst_id_counter rn) _ HW HM Hwf).
  destruct (HB (fun _ => None) [] ltac:(done)) as (id & bs & st & E2 & Hs & He & _). rewrite E2.
  eexists _, _. split; [reflexivity|]. split; [exact Hs|]. split; [exact He|]. intros clob weaks fuel b s s' Hcs.
  apply run_region. destruct (HB clob weaks Hcs) as (id' & bs' & st' & E3 & _ & _ & Hrun).
  assert (bs' = bs) as -> by congruence. exact Hrun.
Qed.

(** C5 Register allocation is correct: on every region of at most 255
    virtual registers that operand selection may leave (constraints met,
    locals written before they are read in their block) the pass returns; it
    inserts only [mov]s, every instruction is one the emitter accepts, and the
    allocated region does what the region did: whatever block it starts
    in, with the guest state in [CPUState] and arbitrary other registers and
    spill frame, it leaves through the same exit with the same guest registers
    and memory after the same number of blocks, also through a helper that
    raises and through a faulting
    memory access; calls may overwrite every caller-saved register. *)
Theorem QRegAllocPass_correct rn :
  ra_region_wf rn ->
  exists rn' st, QRegAllocPass_run rn = RA_ok rn' st /\ succs <$> blist rn' = succs <$> blist rn /\
    Forall2 emit_block (blist rn) (blist rn') /\
    forall clob weaks fuel b s s', calls_save clob -> handoff s s' ->
      region_rel exit_rel (exec_region (glob_info (vregs_info rn)) clob weaks fuel rn b s)
        (exec_region (glob_info (vregs_info rn)) clob weaks fuel rn' b s').
Proof. apply QRegAllocPass_sim. Qed.

(** ** A concrete region: selection, then allocation *)
Definition demo_pgpr : gmap Z Z := list_to_map (map (fun p => (Z.of_nat p, 77)) (seq 0 N_PREGS)).
Definition demo_sel : Region :=
  match QSelPass_run demo_qregion with Some (rn, _) => rn | None => demo_qregion end.

Lemma demo_handoff : handoff demo_qstate (mkQ (q_cpu demo_qstate) ∅ demo_pgpr ∅ ∅).
Proof.
  split; [done|done|]. intros p Hp.
  assert (H : forallb (fun p => bool_decide (is_Some (demo_pgpr !! Z.of_nat p))) (seq 0 N_PREGS) = true)
    by (vm_compute; reflexivity).
  rewrite forallb_forall in H. specialize (H p ltac:(apply in_seq; lia)). by apply bool_decide_eq_true in H.
Qed.

(** *** A decision procedure for the premises *)
Section check.
Context (si : StateInfo) (types : list VType).
Notation n_all := (Z.of_nat (length si + length types)).

Definition resvb (i : nat) : bool := from_option (fun sr => state_offs sr =? offs_ip) false (si !! i).
Definition in_okb (D : list nat) (v : VOperand) : bool :=
  match v with
  | VConst t c => (0 <=? c) && (c <? 2 ^ 32) && (trunc t c =? c)
  | VGPR t r =>
      (0 <=? r) && (bool_decide (Z.to_nat r < length si)%nat || bool_decide (Z.to_nat r ∈ D)) &&
      negb (resvb (Z.to_nat r)) && bool_decide (t <> UNDEF) &&
      (slot_size t <=? slot_size (vtype si types (Z.to_nat r)))
  | _ => false
  end.
Definition out_okb (op : Op) (d : VOperand) : bool :=
  match d with
  | VGPR t r => (0 <=? r) && (r <? n_all) && negb (resvb (Z.to_nat r)) && bool_decide (t = vtype si types (Z.to_nat r))
  | VSlot true t o => (o =? offs_ip) && bool_decide (t = I32) && bool_decide (op = _mov)
  | _ => false
  end.
Definition ra_inst_wfb (D : list nat) (flags : Z) (ins : Inst) : bool :=
  inst_ok ins && forallb (in_okb D) (inputs ins) && forallb (out_okb (GetOpcode ins)) (outputs ins) && meets_ct ins &&
  ((Z.land (GetOpFlags (GetOpcode ins)) SIDEEFF =? 0) || negb (Z.land flags SIDEEFF =? 0)) &&
  types_ok ins &&
  match ins with
  | InstHcall _ (VConst _ _) => true
  | InstHcall _ _ => false
  | InstGBr (VConst _ c) => (0 <=? c) && (c <? 2 ^ 32)
  | InstGBr _ => false
  | _ => true
  end.
Fixpoint nodes_wfb (D : list nat) (l : list Node) : bool :=
  match l with
  | [] => true
  | n :: l =>
      ra_inst_wfb D (n_flags n) (n_inst n) &&
      nodes_wfb (if is_term (n_inst n) then []
                 else match dst_of (n_inst n) with Some r => r :: D | None => D end) l
  end.

Definition live_in (D : list nat) (i : nat) : Prop := is_glob si i \/ i ∈ D.

Lemma resvb_false i : resvb i = false -> ~ resv si i.
Proof. intros H (sr & Hsr & Ho). unfold resvb in H. rewrite Hsr in H. cbn in H. by rewrite Ho in H. Qed.

Lemma ra_inst_wf_mono (L L' : nat -> Prop) flags ins :
  (forall i, L i -> L' i) -> ra_inst_wf si types L flags ins -> ra_inst_wf si types L' flags ins.
Proof.
  intros H [h1 h2 h3 h4 h5 h6 h7 h8]. split; try done. eapply Forall_impl; [exact h2|]. intros [] Hv; try done.
  destruct Hv as (? & ? & ? & ? & ?). split_and!; auto.
Qed.

Lemma nodes_wf_mono l : forall (L L' : nat -> Prop),
  (forall i, L i -> L' i) -> nodes_wf si types L l -> nodes_wf si types L' l.
Proof.
  induction l as [|n l IH]; intros L L' H Hw; [done|]. destruct Hw as [Hn Hw].
  split; [by eapply ra_inst_wf_mono|]. eapply IH; [|exact Hw]. unfold next_live. destruct (is_term _); [done|].
  intros i [?|?]; [left; auto|by right].
Qed.

Lemma in_okb_sound D l : forallb (in_okb D) l = true -> Forall (in_ok si types (live_in D)) l.
Proof.
  intros H. apply Forall_forall. intros v Hv. rewrite forallb_forall in H. specialize (H v ltac:(by apply list_elem_of_In)).
  destruct v as [t c|t r| | |]; try done; cbn [in_okb in_ok] in H |- *; bool_to_prop; [by split|].
  match goal with X : negb (resvb _) = true |- _ => apply negb_true_iff, resvb_false in X end.
  match goal with X : bool_decide _ || _ = true |- _ => apply orb_true_iff in X as [X|X] end; bool_to_prop;
    split_and!; try done; [by left|by right].
Qed.
Lemma out_okb_sound op l : forallb (out_okb op) l = true -> Forall (ra_out_ok si types op) l.
Proof.
  intros H. apply Forall_forall. intros v Hv. rewrite forallb_forall in H. specialize (H v ltac:(by apply list_elem_of_In)).
  destruct v as [| | |[]|]; try done; cbn [out_okb ra_out_ok] in H |- *; bool_to_prop; [|done].
  match goal with X : negb (resvb _) = true |- _ => apply negb_true_iff, resvb_false in X end. done.
Qed.

Lemma ra_inst_wfb_sound D flags ins :
  ra_inst_wfb D flags ins = true -> ra_inst_wf si types (live_in D) flags ins.
Proof.
  unfold ra_inst_wfb. intros H. bool_to_prop. split; try done.
  - by apply in_okb_sound.
  - by apply out_okb_sound.
  - intros Hf. match goal with X : _ || _ = true |- _ => apply orb_true_iff in X as [X|X] end;
      [|match goal with X : negb _ = true |- _ => apply negb_true_iff in X end]; bool_to_prop; done.
  - intros stub a ->. destruct a; try done. eauto.
  - intros a ->. destruct a; try done. bool_to_prop. eexists _, _. split; [done|]. by split.
Qed.

Lemma nodes_wfb_sound l : forall D, nodes_wfb D l = true -> nodes_wf si types (live_in D) l.
Proof.
  induction l as [|n l IH]; intros D H; [done|]. cbn in H. bool_to_prop. split; [by apply ra_inst_wfb_sound|].
  eapply nodes_wf_mono; [|by apply IH]. unfold next_live. destruct (is_term _).
  - intros i [?|Hi]; [done|]. by apply elem_of_nil in Hi.
  - unfold with_dst. destruct (dst_of _); intros i [?|Hi]; try (left; by left); [|left; by right].
    apply elem_of_cons in Hi as [->|?]; [by right|left; by right].
Qed.

Definition vregs_okb : bool :=
  bool_decide (NoDup (state_offs <$> si)) && forallb (fun sr => valid_offs (state_offs sr)) si &&
  forallb (fun t => bool_decide (t <> UNDEF)) types && forallb (fun sr => bool_decide (sr_type sr = I32)) si && bool_decide (length si + length types <= 255)%nat.

Lemma vregs_okb_sound : vregs_okb = true -> vregs_ok si types.
Proof.
  unfold vregs_okb. intros H. bool_to_prop. split; try done; apply Forall_forall; intros x Hx;
    rewrite forallb_forall in *; apply list_elem_of_In in Hx; auto;
    repeat match goal with X : forall x, In x _ -> _ |- _ => specialize (X x Hx) end; by bool_to_prop.
Qed.
End check.

Definition ra_region_wfb (rn : Region) : bool :=
  let si := glob_info (vregs_info rn) in
  let types := loc_info (vregs_info rn) in
  vregs_okb si types && forallb (fun b => nodes_wfb si types [] (ilist b) && ends_ok (ilist b)) (blist rn).

Lemma ra_region_wfb_sound rn : ra_region_wfb rn = true -> ra_region_wf rn.
Proof.
  unfold ra_region_wfb. intros H. bool_to_prop. split; [by apply vregs_okb_sound|].
  apply Forall_forall. intros b Hb. rewrite forallb_forall in H0. specialize (H0 b ltac:(by apply list_elem_of_In)).
  bool_to_prop. split; [|done]. eapply nodes_wf_mono; [|by apply nodes_wfb_sound].
  intros i [?|Hi]; [done|]. by apply elem_of_nil in Hi.
Qed.

Lemma demo_sel_wf : ra_region_wf demo_sel.
Proof. apply ra_region_wfb_sound. vm_compute. reflexivity. Qed.

Definition demo_sel_si : StateInfo := glob_info (vregs_info demo_sel).
Lemma demo_sel_exits :
  match exec_region demo_sel_si (fun _ => None) [] 1 demo_sel 0 demo_qstate with
  | Some (QExit 64 _) => true
  | _ => false
  end = true.
Proof. vm_compute. reflexivity. Qed.

Lemma QRegAllocPass_correct_witness :
  exists rn' st r', QRegAllocPass_run demo_sel = RA_ok rn' st /\
    exec_region demo_sel_si (fun _ => None) [] 1 rn' 0 (mkQ (q_cpu demo_qstate) ∅ demo_pgpr ∅ ∅) = Some r'.
Proof.
  destruct (QRegAllocPass_correct demo_sel demo_sel_wf) as (rn' & st & E & _ & _ & H).
  pose proof demo_sel_exits as He. fold demo_sel_si in H. revert E H He. generalize demo_sel demo_sel_si.
  intros rn si E H He. exists rn', st.
  destruct (exec_region si (fun _ => None) [] 1 rn 0 demo_qstate) as [r|] eqn:Er; [|discriminate He].
  pose proof (H (fun _ => None) [] 1%nat 0%nat demo_qstate _ ltac:(done) demo_handoff) as Hrel.
  destruct (region_rel_end _ _ _ r Hrel Er) as (r' & Hr' & _).
  - intros ->. discriminate He.
  - exists r'. split; [exact E|exact Hr'].
Defined.

(** C37 The bound of 255 registers is the code's own: the loop of [CallOp]
    over the virtual registers counts in a [u8].  With up to 255 of them, in
    any state of the allocator, it does not hang, and more turns than [CallOp]
    allows make no difference; with 256 or more, in any state, it does not
    return after any number of turns, and from a state as at the start of a
    block it runs on forever without a failed assertion. *)
Theorem CallOp_hangs st :
  ((length (ra_vregs st) <= 255)%nat ->
     CallOp true st <> RA_hang /\ forall fuel, (257 <= fuel)%nat -> CallOp_fuel fuel true st = CallOp true st) /\
  ((256 <= length (ra_vregs st))%nat -> forall fuel,
     (forall st', CallOp_fuel fuel true st <> RA_ok tt st') /\ (at_rest st -> CallOp_fuel fuel true st = RA_hang)).
Proof.
  unfold CallOp, CallOp_fuel, mbind, RA_bind. pose proof (steady_clobber st) as Hc. split.
  - intros Hlen. destruct (for_each (seq 0 N_PREGS) _ st) as [a st1| |]; try done.
    assert (Heq : forall fuel, (257 <= fuel)%nat -> globals_loop fuel 0 st1 = for_each (seq 0 (length (ra_vregs st1))) spill_global st1).
    { intros fuel Hf. change 0 with (Z.of_nat 0). apply globals_loop_eq; lia. }
    rewrite (Heq 257%nat) by done. split; [|intros fuel Hf; by apply Heq].
    pose proof (steady_for_each (seq 0 (length (ra_vregs st1))) _ steady_global st1) as Hs. by destruct (for_each _ _ st1).
  - intros Hlen fuel. split.
    + intros st'. destruct (for_each (seq 0 N_PREGS) _ st) as [a st1| |]; try done. apply globals_loop_never; lia.
    + intros Hr. rewrite rest_clobber by done. apply globals_loop_rest; [done|done|lia].
Qed.
