(* ===== verification/QSelWf.v ===== *)
(** * From selection to allocation

    What the allocator relies on, apart from the operand constraints, is kept
    by operand selection: it holds of the region [QSelPass] leaves when it
    holds of the region it was given. *)

From stdpp Require Import base tactics numbers list strings gmap.
From S2P Require Import Prelude Bitfield RV32Insn RV32Decode GuestState Interp InterpProofs VOperand Qir QirSem QirBuilder ArchTraits QSel QSelCorrect QRegAlloc QRegAllocInv QRegAllocSteps QRegAllocOps QRegAllocCorrect QRegAllocRegion.

Import qir.

(** Constants fit their type, registers are live and not [ip], results go to
    registers (a [mov] may write the [ip] field). *)
Record pre_wf (si : StateInfo) (types : list VType) (L : nat -> Prop) (flags : Z) (ins : Inst) : Prop := {
  pw_ok : inst_ok ins = true;
  pw_in : Forall (in_ok si types L) (inputs ins);
  pw_out : Forall (ra_out_ok si types (GetOpcode ins)) (outputs ins);
  pw_types : types_ok ins = true;
  pw_flags : Z.land (GetOpFlags (GetOpcode ins)) SIDEEFF <> 0 -> Z.land flags SIDEEFF <> 0;
  pw_calls : is_call ins = true -> Z.land flags HAS_CALLS <> 0;
  pw_hcall : forall stub a, ins = InstHcall stub a -> exists t c, a = VConst t c;
  pw_gbr : forall a, ins = InstGBr a -> exists t c, a = VConst t c /\ in_u 32 c }.

Lemma pre_wf_ra si types L flags ins : pre_wf si types L flags ins -> meets_ct ins = true -> ra_inst_wf si types L flags ins.
Proof. by intros [] ?. Qed.

Fixpoint pre_nodes (si : StateInfo) (types : list VType) (L : nat -> Prop) (l : list Node) : Prop :=
  match l with
  | [] => True
  | n :: l => pre_wf si types L (n_flags n) (n_inst n) /\ pre_nodes si types (next_live si L (n_inst n)) l
  end.

Lemma pre_nodes_ra si types l : forall L,
  pre_nodes si types L l -> Forall (fun n => meets_ct (n_inst n) = true) l -> nodes_wf si types L l.
Proof.
  induction l as [|n l IH]; intros L; [done|]. intros [H Hl] [Hm Hms]%Forall_cons.
  split; [by apply pre_wf_ra|by apply IH].
Qed.

(** More live registers, more locals. *)
Lemma vtype_prefix si types types' i :
  types `prefix_of` types' -> (i < length si + length types)%nat -> vtype si types' i = vtype si types i.
Proof.
  intros [k ->] Hi. unfold vtype. destruct (si !! i) eqn:E; [done|]. apply lookup_ge_None in E.
  by rewrite lookup_app_l by lia.
Qed.
Lemma in_ok_mono si types (L L' : nat -> Prop) v : (forall i, L i -> L' i) -> in_ok si types L v -> in_ok si types L' v.
Proof. intros H. destruct v; try done. intros (? & ? & ? & ? & ?). split_and!; auto. Qed.
Lemma pre_wf_mono si types (L L' : nat -> Prop) flags ins :
  (forall i, L i -> L' i) -> pre_wf si types L flags ins -> pre_wf si types L' flags ins.
Proof.
  intros H []. split; try done. eapply Forall_impl; [done|]. intros v. by apply in_ok_mono.
Qed.
Lemma pre_nodes_mono si types l : forall (L L' : nat -> Prop),
  (forall i, L i -> L' i) -> pre_nodes si types L l -> pre_nodes si types L' l.
Proof.
  induction l as [|n l IH]; intros L L' H; [done|]. intros [Hn Hl]. split; [by eapply pre_wf_mono|].
  eapply IH; [|exact Hl]. unfold next_live. destruct (is_term _); [done|].
  intros i [?|?]; [left; auto|by right].
Qed.

(** ** The [mov]s of a selection *)
Section sel.
Context (si : StateInfo) (types : list VType).
Notation next := (next_live si).
Notation in_ok := (in_ok si types).

Definition mov_wf (L : nat -> Prop) (m : Inst) : Prop :=
  GetOpcode m = _mov /\ pre_wf si types L (GetOpFlags _mov) m.
Fixpoint movs_wf (L : nat -> Prop) (ms : list Inst) : Prop :=
  match ms with [] => True | m :: ms => mov_wf L m /\ movs_wf (next L m) ms end.
Fixpoint after (L : nat -> Prop) (ms : list Inst) : nat -> Prop :=
  match ms with [] => L | m :: ms => after (next L m) ms end.

Lemma movs_wf_snoc ms m : forall L, movs_wf L ms -> mov_wf (after L ms) m -> movs_wf L (ms ++ [m]).
Proof. induction ms as [|m0 ms IH]; intros L; cbn; [auto|]. intros [? ?] ?. split; auto. Qed.
Lemma after_snoc ms m : forall L, after L (ms ++ [m]) = next (after L ms) m.
Proof. induction ms as [|m0 ms IH]; intros L; cbn; auto. Qed.
Lemma movs_wf_opcode ms : forall L, movs_wf L ms -> Forall (fun m => GetOpcode m = _mov) ms.
Proof. induction ms as [|m ms IH]; intros L; [constructor|]. intros [[? _] ?]. constructor; [done|by eapply IH]. Qed.
Lemma pre_nodes_movs ms l : forall L id,
  movs_wf L ms -> pre_nodes si types (after L ms) l -> pre_nodes si types L (number id ms ++ l).
Proof.
  induction ms as [|m ms IH]; intros L id; cbn; [done|]. intros [[Hop Hm] Hms] Hl. split; [by rewrite Hop|]. auto.
Qed.

(** A [mov] to a register makes it live and keeps the others so. *)
Lemma mov_next L t r v i : next L (InstUnop _mov (VGPR t r) v) i <-> L i \/ Z.to_nat r = i.
Proof. unfold next_live, with_dst. cbn. naive_solver. Qed.

Lemma mov_wf_intro L t r v op :
  ra_out_ok si types op (VGPR t r) -> in_ok L v -> type_of v = t -> t <> UNDEF -> mov_wf L (InstUnop _mov (VGPR t r) v).
Proof.
  intros Hd Hv Ht HU. split; [done|]. split; try done.
  - by repeat constructor.
  - constructor; [done|constructor].
  - cbn. rewrite !bool_decide_true by done. done.
Qed.

(** State of a selection for [ins]: the [mov]s so far and the inputs are well
    formed where they stand. *)
Record sel_ok (L : nat -> Prop) (ins : Inst) (st : SelState) : Prop := {
  so_movs : movs_wf L (sel_movs st);
  so_src : Forall (in_ok (after L (sel_movs st))) (sel_src st);
  so_typ : type_of <$> sel_src st = type_of <$> inputs ins;
  so_live : forall i, L i -> after L (sel_movs st) i;
  so_loc : Forall (fun t => t <> UNDEF) (loc_info (sel_vr st)) }.

Lemma sel_ok_mov L ins st t r v op :
  sel_ok L ins st -> ra_out_ok si types op (VGPR t r) -> in_ok (after L (sel_movs st)) v -> type_of v = t -> t <> UNDEF ->
  sel_ok L ins (sel_mov (VGPR t r) v st) /\ after L (sel_movs (sel_mov (VGPR t r) v st)) (Z.to_nat r).
Proof.
  intros [] Hd Hv Ht HU. cbn [sel_mov sel_movs sel_src]. split; [split|]; cbn [sel_movs sel_src sel_mov].
  - apply movs_wf_snoc; [done|]. by eapply mov_wf_intro.
  - rewrite after_snoc. eapply Forall_impl; [done|]. intros w. apply in_ok_mono. intros i Hi. apply mov_next. by left.
  - done.
  - intros i Hi. rewrite after_snoc. apply mov_next. auto.
  - done.
  - rewrite after_snoc. apply mov_next. by right.
Qed.
Lemma sel_ok_set L ins st i v v0 :
  sel_ok L ins st -> sel_src st !! i = Some v0 -> in_ok (after L (sel_movs st)) v -> type_of v = type_of v0 ->
  sel_ok L ins (sel_set i v st).
Proof.
  intros [] Hi Hv Ht. split; cbn [sel_set sel_movs sel_src]; try done.
  - by apply Forall_insert.
  - rewrite list_fmap_insert, Ht, <- so_typ0. apply list_insert_id. by rewrite list_lookup_fmap, Hi.
Qed.

(** A fresh temporary. *)
Lemma fresh_tmp vr t vr' k :
  AddLocal vr t = (vr', k) -> glob_info vr = si -> loc_info vr' `prefix_of` types -> NumAll vr' <= 2 ^ 16 ->
  (forall op, ra_out_ok si types op (VGPR t k)) /\
  (forall L : nat -> Prop, L (Z.to_nat k) -> t <> UNDEF -> in_ok L (VGPR t k)).
Proof.
  unfold AddLocal. intros [= <- <-] Hg Hp Hn. cbn [loc_info] in Hp. unfold NumAll, NumGlobals, NumLocals in *. cbn in Hn. rewrite length_app in Hn. cbn in Hn.
  rewrite Hg in *. rewrite uN_id by (unfold in_u; lia). set (k := Z.of_nat (length (loc_info vr)) + Z.of_nat (length si)).
  assert (Hk : Z.to_nat k = (length si + length (loc_info vr))%nat) by lia.
  destruct Hp as [rest ->]. unfold QRegAllocCorrect.ra_out_ok, QRegAllocOps.in_ok.
  assert (Hr : ~ resv si (Z.to_nat k)).
  { intros (sr & Hsr & _). apply lookup_lt_Some in Hsr. lia. }
  assert (Hv : vtype si ((loc_info vr ++ [t]) ++ rest) (Z.to_nat k) = t).
  { unfold vtype. rewrite (proj2 (lookup_ge_None si _)) by lia. rewrite Hk.
    replace (length si + length (loc_info vr) - length si)%nat with (length (loc_info vr)) by lia.
    rewrite lookup_app_l by (rewrite length_app; cbn; lia). rewrite lookup_app_r by lia. by rewrite Nat.sub_diag. }
  split.
  - intros op. rewrite !length_app. cbn. split_and!; try done; lia.
  - intros L HL HU. rewrite Hv. split_and!; try done; lia.
Qed.

(** One turn of the constant loop. *)
Lemma sel_const_ok L ins ct dn i st st' :
  sel_const ct dn i st = Some st' -> glob_info (sel_vr st) = si -> loc_info (sel_vr st') `prefix_of` types ->
  NumAll (sel_vr st') <= 2 ^ 16 -> Forall (fun t => t <> UNDEF) (type_of <$> inputs ins) ->
  sel_ok L ins st -> sel_ok L ins st'.
Proof.
  unfold sel_const. intros H Hg Hp Hn HU Hok. apply bind_Some in H as (c & _ & H). apply bind_Some in H as (v & Hv & H).
  destruct v as [t val| | | |]; try (apply (inj Some) in H as <-; done). case_match; apply (inj Some) in H; [by subst st'|].
  destruct (AddLocal (sel_vr st) t) as [vr' k] eqn:Ea. pose proof Ea as Ea'. injection Ea' as Evr Ek. rewrite Evr, Ek in H. subst st'.
  cbn [sel_set sel_mov sel_vr] in Hp, Hn. destruct (fresh_tmp _ _ _ _ Ea Hg Hp Hn) as [Hout Hin].
  assert (Ht : t <> UNDEF).
  { rewrite <- (so_typ _ _ _ Hok) in HU. rewrite Forall_fmap in HU. exact (Forall_lookup_1 _ _ _ _ HU Hv). }
  assert (Hok1 : sel_ok L ins (mkSel vr' (sel_movs st) (sel_src st))).
  { destruct Hok. split; try done. rewrite <- Evr. cbn. by apply Forall_app, conj, Forall_singleton. }
  destruct (sel_ok_mov L ins _ t k (VConst t val) _mov Hok1) as [Hok2 Hlive]; try done.
  { exact (Forall_lookup_1 _ _ _ _ (so_src _ _ _ Hok) Hv). }
  eapply sel_ok_set; [exact Hok2|exact Hv| |done]. by apply Hin.
Qed.

Lemma sel_consts_ok L ins ct dn is_ : forall st st',
  sel_loop (sel_const ct dn) is_ st = Some st' -> glob_info (sel_vr st) = si -> loc_info (sel_vr st') `prefix_of` types ->
  NumAll (sel_vr st') <= 2 ^ 16 -> Forall (fun t => t <> UNDEF) (type_of <$> inputs ins) ->
  sel_ok L ins st -> sel_ok L ins st'.
Proof.
  induction is_ as [|i is_ IH]; intros st st'; cbn; [by intros [= <-]|].
  intros H Hg Hp Hn HU Hok. apply bind_Some in H as (st1 & H1 & H2).
  pose proof (sel_const_mono _ _ _ _ _ H1) as [Hg1 _].
  pose proof (sel_loop_mono _ _ _ _ (sel_const_mono _ _) H2) as Hx.
  eapply IH; try done; [congruence|]. eapply sel_const_ok; try done.
  - etrans; [apply Hx|done].
  - pose proof (vr_le_num _ _ Hx). lia.
Qed.

Lemma types_ok_inputs ins : types_ok ins = true -> Forall (fun t => t <> UNDEF) (type_of <$> inputs ins).
Proof.
  intros H. destruct ins; cbn in *; bool_to_prop; repeat constructor; congruence.
Qed.

Lemma is_vgpr_live L b r : is_vgpr b r = true -> in_ok L b -> L (Z.to_nat r).
Proof. intros H Hb. apply is_vgpr_true in H as [t ->]. by destruct Hb as (_ & ? & _). Qed.

Lemma out_in_ok (L : nat -> Prop) op t r : ra_out_ok si types op (VGPR t r) -> L (Z.to_nat r) -> t <> UNDEF -> in_ok L (VGPR t r).
Proof. intros (Hr & Hn & Ht) HL HU. split_and!; try done; [lia|]. rewrite <- Ht. lia. Qed.

(** The alias loop of a two-address operation. *)
Lemma sel_alias_ok L flags op d a b c0 c1 c2 vr st :
  has_alias c1 = true -> alias c1 = 0%nat -> has_alias c2 = false ->
  sel_loop (sel_alias [c0; c1; c2] [d]) [0; 1]%nat (mkSel vr [] [a; b]) = Some st ->
  pre_wf si types L flags (InstBinop op d a b) -> glob_info vr = si -> loc_info (sel_vr st) `prefix_of` types ->
  NumAll (sel_vr st) <= 2 ^ 16 -> Forall (fun t => t <> UNDEF) (loc_info vr) ->
  sel_ok L (InstBinop op d a b) st /\ vr_le vr (sel_vr st).
Proof.
  intros H1 H2 H3 H Hw Hg Hp Hn Hloc. destruct (sel_alias_binop c0 c1 c2 vr d a b st H1 H2 H3 H) as (t & r & -> & Hst).
  pose proof (pw_in _ _ _ _ _ Hw) as Hin. cbn [inputs] in Hin. apply Forall_cons in Hin as [Ha Hb]. apply Forall_inv in Hb.
  pose proof (pw_out _ _ _ _ _ Hw) as Hd. cbn [outputs GetOpcode] in Hd. apply Forall_inv in Hd.
  pose proof (pw_types _ _ _ _ _ Hw) as Ht. cbn [types_ok forallb type_of] in Ht. bool_to_prop. subst t.
  destruct (AddLocal vr I32) as [vr' k] eqn:Ea.
  assert (Hok0 : forall v, Forall (fun t => t <> UNDEF) (loc_info v) -> sel_ok L (InstBinop op (VGPR I32 r) a b) (mkSel v [] [a; b]))
    by (intros v ?; split; cbn; auto).
  assert (Hset0 : forall st, sel_ok L (InstBinop op (VGPR I32 r) a b) st -> after L (sel_movs st) (Z.to_nat r) ->
    sel_src st !! 0%nat = Some a -> sel_ok L (InstBinop op (VGPR I32 r) a b) (sel_set 0 (VGPR I32 r) st)).
  { intros st0 Hok Hl Hs0. eapply sel_ok_set; [done|done| |by cbn]. by eapply out_in_ok. }
  subst st. destruct (is_vgpr a r); [split; [by apply Hok0|done]|]. destruct (is_vgpr b r) eqn:Eb; cbn [sel_vr] in *.
  - split; [|injection Ea as <- <-; split; [done|by apply prefix_app_r]].
    destruct (fresh_tmp _ _ _ _ Ea Hg Hp Hn) as [Hout Hk].
    assert (Hloc' : Forall (fun t => t <> UNDEF) (loc_info vr')) by (injection Ea as <- <-; cbn; by apply Forall_app, conj, Forall_singleton).
    destruct (sel_ok_mov L _ _ I32 k (VGPR I32 r) _mov (Hok0 vr' Hloc')) as [Hok1 Hl1]; try done.
    { eapply out_in_ok; try done. by eapply is_vgpr_live. }
    assert (Hok2 : sel_ok L (InstBinop op (VGPR I32 r) a b) (sel_set 1 (VGPR I32 k) (sel_mov (VGPR I32 k) (VGPR I32 r) (mkSel vr' [] [a; b])))).
    { eapply sel_ok_set; [done|done| |done]. by apply Hk. }
    destruct (sel_ok_mov L _ _ I32 r a op Hok2) as [Hok3 Hl3]; try done.
    { eapply in_ok_mono; [|exact Ha]. apply Hok2. }
    exact (Hset0 _ Hok3 Hl3 eq_refl).
  - split; [|done]. destruct (sel_ok_mov L _ _ I32 r a op (Hok0 vr Hloc)) as [Hok1 Hl1]; try done.
    exact (Hset0 _ Hok1 Hl1 eq_refl).
Qed.

(** *** One instruction *)
Lemma set_inputs_wf ins vs :
  length vs = length (inputs ins) -> type_of <$> vs = type_of <$> inputs ins -> op_ct (GetOpcode ins) <> None ->
  inst_ok (set_inputs ins vs) = inst_ok ins /\ types_ok (set_inputs ins vs) = types_ok ins /\
  is_call (set_inputs ins vs) = false /\ is_term (set_inputs ins vs) = is_term ins /\
  dst_of (set_inputs ins vs) = dst_of ins /\ (forall a, set_inputs ins vs <> InstGBr a).
Proof.
  intros Hl Ht Hc. destruct ins; try (by destruct Hc); destruct vs as [|v0 [|v1 [|]]]; try done;
    cbn in *; try discriminate;
    repeat match goal with H : _ :: _ = _ :: _ |- _ => injection H; clear H; intros end;
    repeat match goal with H : type_of _ = type_of _ |- _ => rewrite H; clear H end; split_and!; done.
Qed.

Lemma pre_wf_set L L' flags ins vs :
  pre_wf si types L flags ins -> length vs = length (inputs ins) -> type_of <$> vs = type_of <$> inputs ins ->
  op_ct (GetOpcode ins) <> None -> Forall (in_ok L') vs -> pre_wf si types L' flags (set_inputs ins vs).
Proof.
  intros [] Hl Ht Hc Hin. destruct (set_inputs_wf ins vs Hl Ht Hc) as (E1 & E2 & E3 & E4 & E5 & E6).
  split; rewrite ?E1, ?E2, ?E3, ?GetOpcode_set_inputs, ?outputs_set_inputs, ?inputs_set_inputs by done; try done.
  - intros stub a E. rewrite E in E3. done.
  - intros a E. by destruct (E6 a).
Qed.

Lemma SelectOperands_ok L flags vr ins vr' movs ins' :
  SelectOperands vr ins = Some (vr', movs, ins') -> pre_wf si types L flags ins -> glob_info vr = si ->
  loc_info vr' `prefix_of` types -> NumAll vr' <= 2 ^ 16 -> Forall (fun t => t <> UNDEF) (loc_info vr) ->
  Forall (fun t => t <> UNDEF) (loc_info vr') /\ movs_wf L movs /\ pre_wf si types (after L movs) flags ins' /\ GetOpcode ins' = GetOpcode ins /\
  (forall i, next L ins i -> next (after L movs) ins' i).
Proof.
  unfold SelectOperands. intros H Hw Hg Hp Hn Hloc. apply bind_Some in H as (c & Hc & H).
  apply bind_Some in H as (st1 & H1 & H). apply bind_Some in H as (st2 & H2 & H). apply (inj Some) in H. injection H as <- <- <-.
  pose proof (sel_loop_mono _ _ _ _ (sel_const_mono _ _) H2) as Hx. pose proof (vr_le_num _ _ Hx) as Hxn.
  assert (Hok1 : sel_ok L ins st1 /\ glob_info (sel_vr st1) = si).
  { pose proof (alias_table _ _ Hc) as Ht. pose proof (pw_ok _ _ _ _ _ Hw) as Hio. destruct (InstBinop_HasOpcode (GetOpcode ins)) eqn:Eop.
    - destruct ins as [| | | | | | | |[]|op d a b]; try done.
      cbn [inputs outputs GetOpcode length seq] in *. destruct Ht as (c0 & c1 & c2 & Ect & Ha1 & Ha2 & Ha3). rewrite Ect in H1.
      destruct (sel_alias_ok L flags op d a b c0 c1 c2 vr st1 Ha1 Ha2 Ha3 H1 Hw Hg) as [? [? _]];
        [etrans; [apply Hx|done]|lia|done|]. split; [done|congruence].
    - destruct Ht as [Ht Hlen]. rewrite sel_alias_none in H1; [|done|].
      + apply (inj Some) in H1 as <-. split; [|done]. split; cbn; try done. apply Hw.
      + apply Forall_forall. intros i Hi. apply elem_of_seq in Hi. destruct (operand_counts ins Hio). lia. }
  destruct Hok1 as [Hok1 Hg1].
  pose proof (sel_consts_ok L ins _ _ _ _ _ H2 Hg1 Hp Hn (types_ok_inputs _ (pw_types _ _ _ _ _ Hw)) Hok1) as [Hm Hs Ht Hl Hloc2].
  assert (Hlen : length (sel_src st2) = length (inputs ins)).
  { apply (f_equal length) in Ht. by rewrite !length_fmap in Ht. }
  assert (Hne : op_ct (GetOpcode ins) <> None) by congruence.
  destruct (set_inputs_wf ins (sel_src st2) Hlen Ht Hne) as (_ & _ & _ & E4 & E5 & _).
  split_and!; [done|done|by eapply pre_wf_set|by apply GetOpcode_set_inputs|].
  intros i. unfold next_live. rewrite E4. destruct (is_term ins); [done|]. unfold with_dst. rewrite E5.
  intros [?|?]; [left; auto|by right].
Qed.

Lemma QSel_visit_ok L flags vr ins vr' movs ins' :
  QSel_visit vr ins = Some (vr', movs, ins') -> pre_wf si types L flags ins -> glob_info vr = si ->
  loc_info vr' `prefix_of` types -> NumAll vr' <= 2 ^ 16 -> Forall (fun t => t <> UNDEF) (loc_info vr) ->
  Forall (fun t => t <> UNDEF) (loc_info vr') /\ movs_wf L movs /\ pre_wf si types (after L movs) flags ins' /\ GetOpcode ins' = GetOpcode ins /\
  (forall i, next L ins i -> next (after L movs) ins' i).
Proof.
  intros H. destruct ins; cbn [QSel_visit] in H; try (apply SelectOperands_ok; exact H);
    injection H as <- <- <-; intros; by split_and!.
Qed.

Lemma QSel_nodes_ok l : forall L vr id hc vr' id' hc' l',
  QSel_nodes vr id hc l = Some (vr', id', hc', l') -> pre_nodes si types L l -> glob_info vr = si ->
  loc_info vr' `prefix_of` types -> NumAll vr' <= 2 ^ 16 -> Forall (fun t => t <> UNDEF) (loc_info vr) ->
  Forall (fun t => t <> UNDEF) (loc_info vr') /\ pre_nodes si types L l' /\ expands (n_inst <$> l) (n_inst <$> l').
Proof.
  induction l as [|n l IH]; intros L vr id hc vr' id' hc' l'; cbn [QSel_nodes].
  { intros [= <- <- <- <-] _ _ _ _ Hloc. split_and!; [done|done|constructor]. }
  intros H [Hw Hl] Hg Hp Hn Hloc. apply bind_Some in H as ([[vr1 movs] ins1] & H1 & H).
  apply bind_Some in H as ([[[vr2 id2] hc2] l2] & H2 & [= <- <- <- <-]).
  pose proof (QSel_visit_mono _ _ _ _ _ H1) as [Hg1 _]. pose proof (QSel_nodes_mono _ _ _ _ _ _ _ _ H2) as Hx.
  pose proof (vr_le_num _ _ Hx).
  destruct (QSel_visit_ok L (n_flags n) _ _ _ _ _ H1 Hw Hg) as (Hloc1 & Hm & Hi & Hop & Hlive); [etrans; [apply Hx|done]|lia|done|].
  destruct (IH (next (after L movs) ins1) _ _ _ _ _ _ _ H2) as (Hloc2 & Hl2 & He2); try done; [|congruence|].
  { eapply pre_nodes_mono; [exact Hlive|done]. }
  split_and!; [done| |].
  - apply pre_nodes_movs; [done|]. by split.
  - rewrite fmap_app, n_inst_number, !fmap_cons. apply exp_cons; [by eapply movs_wf_opcode|done|done].
Qed.

Lemma QSel_blocks_ok bs : forall vr id hc vr' id' hc' bs',
  QSel_blocks vr id hc bs = Some (vr', id', hc', bs') ->
  Forall (fun b => pre_nodes si types (is_glob si) (ilist b)) bs -> glob_info vr = si ->
  loc_info vr' `prefix_of` types -> NumAll vr' <= 2 ^ 16 -> Forall (fun t => t <> UNDEF) (loc_info vr) ->
  Forall (fun t => t <> UNDEF) (loc_info vr') /\ Forall (fun b => pre_nodes si types (is_glob si) (ilist b)) bs' /\
  Forall2 (fun b b' => succs b' = succs b /\ expands (n_inst <$> ilist b) (n_inst <$> ilist b')) bs bs'.
Proof.
  induction bs as [|b bs IH]; intros vr id hc vr' id' hc' bs'; cbn [QSel_blocks].
  { intros [= <- <- <- <-] _ _ _ _ Hloc. by split_and!. }
  intros H [Hb Hbs]%Forall_cons Hg Hp Hn Hloc. apply bind_Some in H as ([[[vr1 id1] hc1] l1] & H1 & H).
  apply bind_Some in H as ([[[vr2 id2] hc2] bs2] & H2 & [= <- <- <- <-]).
  pose proof (QSel_nodes_mono _ _ _ _ _ _ _ _ H1) as [Hg1 _]. pose proof (QSel_blocks_mono _ _ _ _ _ _ _ _ H2) as Hx.
  pose proof (vr_le_num _ _ Hx).
  destruct (QSel_nodes_ok _ _ _ _ _ _ _ _ _ H1 Hb Hg) as (Hloc1 & Hl1 & He1); [etrans; [apply Hx|done]|lia|done|].
  destruct (IH _ _ _ _ _ _ _ H2) as (Hloc2 & Hl2 & He2); try done; [congruence|].
  split_and!; [done|by apply Forall_cons|by constructor].
Qed.
End sel.

(** ** Shape *)
Definition ctl_op (op : Op) : bool := match op with _br | _brcc | _gbr | _gbrind => true | _ => false end.
Lemma is_term_op i : inst_ok i = true -> is_term i = ctl_op (GetOpcode i).
Proof. destruct i as [| | | | | | | |[]|[]]; try done. Qed.
Lemma is_call_op i : inst_ok i = true -> is_call i = bool_decide (GetOpcode i = _hcall).
Proof. destruct i as [| | | | | | | |[]|[]]; try done. Qed.

Lemma expands_nil l' : expands [] l' -> l' = [].
Proof. by inversion 1. Qed.
Lemma expands_Forall (P : Op -> Prop) l l' :
  P _mov -> expands l l' -> Forall (fun i => P (GetOpcode i)) l -> Forall (fun i => P (GetOpcode i)) l'.
Proof.
  intros HP. induction 1 as [|ms i i' l l' Hms Hop He IH]; [done|]. intros [Hi Hl]%Forall_cons.
  apply Forall_app. split; [eapply Forall_impl; [exact Hms|]; by intros m ->|]. apply Forall_cons. split; [by rewrite Hop|auto].
Qed.
Lemma expands_last l l' : expands l l' -> GetOpcode <$> last l' = GetOpcode <$> last l.
Proof.
  induction 1 as [|ms i i' l l' Hms Hop He IH]; [done|]. rewrite last_app_cons.
  destruct l as [|j l]; [apply expands_nil in He as ->; cbn; by rewrite Hop|].
  destruct l' as [|j' l']; [inversion He; by destruct ms0|]. done.
Qed.
Lemma expands_trans l l' l'' : expands l l' -> expands l' l'' -> expands l l''.
Proof.
  intros H. revert l''. induction H as [|ms i i' l l' Hms Hop He IH]; intros l'' H2; [done|].
  revert l'' H2. induction Hms as [|m ms Hm Hms IHms]; cbn; intros l'' H2.
  - inversion H2 as [|ms2 ? i2 ? l2 Hms2 Hop2 He2]; subst. apply exp_cons; [done|congruence|auto].
  - inversion H2 as [|ms2 ? i2 ? l2 Hms2 Hop2 He2]; subst. apply IHms in He2.
    inversion He2 as [|ms3 ? i3 ? l3 Hms3 Hop3 He3]; subst.
    replace (ms2 ++ i2 :: ms3 ++ i3 :: l3) with ((ms2 ++ i2 :: ms3) ++ i3 :: l3) by (by rewrite <- app_assoc).
    apply exp_cons; [|done|done]. apply Forall_app. split; [done|]. constructor; [congruence|done].
Qed.

(** Control flow: jumps come last, and the block has the successors they name. *)
Fixpoint jumps_op (l : list Op) : bool :=
  match l with [] => true | op :: l => (negb (ctl_op op) || bool_decide (l = [])) && jumps_op l end.
Definition succs_op (ss : list nat) (op : Op) : Prop :=
  match op with
  | _br => is_Some (ss !! 0%nat)
  | _brcc => is_Some (ss !! 0%nat) /\ is_Some (ss !! 1%nat)
  | _ => True
  end.

Lemma expands_jumps l l' : expands l l' -> jumps_op (GetOpcode <$> l) = true -> jumps_op (GetOpcode <$> l') = true.
Proof.
  induction 1 as [|ms i i' l l' Hms Hop He IH]; [done|]. cbn. intros [Hi Hl]%andb_true_iff.
  induction Hms as [|m ms Hm Hms IHms]; cbn.
  - rewrite Hop. apply andb_true_iff. split; [|auto]. apply orb_true_iff in Hi as [->|Hi]; [done|].
    apply bool_decide_eq_true, fmap_nil_inv in Hi. subst l. apply expands_nil in He as ->. apply orb_true_r.
  - by rewrite Hm.
Qed.

(** ** Regions *)
Record sel_region_wf (rn : Region) : Prop := {
  sr_nodup : NoDup (state_offs <$> glob_info (vregs_info rn));
  sr_offs : Forall (fun sr => valid_offs (state_offs sr) = true) (glob_info (vregs_info rn));
  sr_gtypes : Forall (fun sr => sr_type sr = I32) (glob_info (vregs_info rn));
  sr_types : Forall (fun t => t <> UNDEF) (loc_info (vregs_info rn));
  sr_nodes : Forall (fun b => pre_nodes (glob_info (vregs_info rn)) (loc_info (vregs_info rn))
    (is_glob (glob_info (vregs_info rn))) (ilist b)) (blist rn);
  sr_cfg : Forall (fun b => ends_ok (ilist b) = true /\ jumps_op (GetOpcode <$> (n_inst <$> ilist b)) = true /\
    Forall (fun i => succs_op (succs b) (GetOpcode i)) (n_inst <$> ilist b)) (blist rn);
  sr_blocks : blist rn <> [] }.

Lemma pre_nodes_ok si types l : forall L, pre_nodes si types L l -> Forall (fun n => inst_ok (n_inst n) = true) l.
Proof. induction l as [|n l IH]; intros L; [constructor|]. intros [H Hl]. constructor; [apply H|by eapply IH]. Qed.

(** Live registers are registers of the region. *)
Lemma pre_nodes_inst_wf si types l : forall L : nat -> Prop,
  (forall i, L i -> (i < length si + length types)%nat) -> pre_nodes si types L l ->
  Forall (fun n => inst_wf (Z.of_nat (length si + length types)) (n_inst n)) l.
Proof.
  induction l as [|n l IH]; intros L HL; [constructor|]. intros [Hn Hl]. constructor.
  - destruct Hn. split; try done.
    + eapply Forall_impl; [done|]. intros [t c|t r| | |] Hv; try done. destruct Hv as (? & Hr & _). apply HL in Hr. cbn. lia.
    + eapply Forall_impl; [done|]. intros [t c|t r| |[]|] Hv; try done. destruct Hv as (? & _). cbn. lia.
    + intros op d a b E. rewrite E in *. cbn [outputs GetOpcode] in pw_out0. apply Forall_inv in pw_out0.
      destruct d as [|t r| |[]|]; try done. destruct pw_out0 as (_ & _ & Hop).
      cbn [types_ok] in pw_types0. bool_to_prop. subst op. discriminate.
  - eapply IH; [|exact Hl]. intros i. unfold next_live. destruct (is_term _); [unfold is_glob; lia|].
    intros [Hi|Hi]; [auto|]. destruct Hn. unfold dst_of in Hi. destruct (outputs (n_inst n)) as [|[|t r| | |] [|]]; try done.
    injection Hi as <-. apply Forall_inv in pw_out0 as (? & _). lia.
Qed.

Lemma NumAll_length vr : NumAll vr = Z.of_nat (length (glob_info vr) + length (loc_info vr)).
Proof. unfold NumAll, NumGlobals, NumLocals. lia. Qed.

Lemma sel_region_region rn : sel_region_wf rn -> region_wf rn.
Proof.
  intros []. split; [done|]. eapply Forall_impl; [exact sr_nodes0|]. intros b Hb. rewrite NumAll_length.
  eapply pre_nodes_inst_wf; [|exact Hb]. intros i. unfold is_glob. lia.
Qed.

(** More locals. *)
Lemma pre_nodes_types si types types' l : types `prefix_of` types' -> forall L : nat -> Prop,
  (forall i, L i -> (i < length si + length types)%nat) -> pre_nodes si types L l -> pre_nodes si types' L l.
Proof.
  intros Hp. pose proof (prefix_length _ _ Hp). induction l as [|n l IH]; intros L HL; [done|]. intros [Hn Hl]. split.
  - destruct Hn. split; try done.
    + eapply Forall_impl; [done|]. intros [t c|t r| | |] Hv; try done. destruct Hv as (? & Hr & ? & ? & ?).
      split_and!; try done. rewrite (vtype_prefix _ _ _ _ Hp) by auto. done.
    + eapply Forall_impl; [done|]. intros [t c|t r| |[]|] Hv; try done. destruct Hv as (? & ? & ->).
      split_and!; try done; [lia|lia|]. rewrite (vtype_prefix _ _ _ _ Hp) by lia. done.
  - apply IH; [|exact Hl]. intros i. unfold next_live. destruct (is_term _); [unfold is_glob; lia|].
    intros [Hi|Hi]; [auto|]. destruct Hn. unfold dst_of in Hi. destruct (outputs (n_inst n)) as [|[|t r| | |] [|]]; try done.
    injection Hi as <-. apply Forall_inv in pw_out0 as (? & _). lia.
Qed.

(** Selection hands the allocator what it needs; the bound is the
    allocator's. *)
Lemma QSelPass_ra_wf rn rn' hc :
  sel_region_wf rn -> QSelPass_run rn = Some (rn', hc) -> NumAll (vregs_info rn') <= 255 ->
  ra_region_wf rn' /\ glob_info (vregs_info rn') = glob_info (vregs_info rn) /\
  hc = existsb (fun b => existsb node_has_calls (ilist b)) (blist rn) /\
  Forall2 (fun b b' => succs b' = succs b /\ expands (n_inst <$> ilist b) (n_inst <$> ilist b')) (blist rn) (blist rn').
Proof.
  intros Hwf H HN. pose proof (sel_region_region rn Hwf) as Hrw. destruct Hwf as [h1 h2 h3 h4 h5 h6 h7].
  destruct (QSelPass_meets rn Hrw) as (rn2 & H2 & Hmeets & _). rewrite H2 in H. injection H as -> <-.
  unfold QSelPass_run in H2. apply bind_Some in H2 as ([[[vr id] hc2] bs] & H & H2). apply (inj Some) in H2. injection H2 as <- _.
  cbn [vregs_info blist] in *. pose proof (QSel_blocks_mono _ _ _ _ _ _ _ _ H) as [Hg Hpre].
  assert (h5' : Forall (fun b => pre_nodes (glob_info (vregs_info rn)) (loc_info vr) (is_glob (glob_info (vregs_info rn))) (ilist b)) (blist rn)).
  { eapply Forall_impl; [exact h5|]. intros b Hb. eapply pre_nodes_types; [done| |exact Hb]. intros i. unfold is_glob. lia. }
  destruct (QSel_blocks_ok (glob_info (vregs_info rn)) (loc_info vr) _ _ _ _ _ _ _ _ H h5' eq_refl ltac:(done) ltac:(lia) h4) as (Hloc & Hnodes & Hexp).
  split_and!; try done. rewrite NumAll_length in HN. split; cbn [vregs_info blist]; rewrite <- Hg in *; [by split; try done; lia|].
  apply Forall_forall. intros b' Hb'. apply list_elem_of_lookup in Hb' as [k Hk].
  destruct (Forall2_lookup_r _ _ _ _ _ Hexp Hk) as (b & Hb & _ & He).
  pose proof (Forall_lookup_1 _ _ _ _ Hnodes Hk) as Hn. pose proof (Forall_lookup_1 _ _ _ _ Hmeets Hk) as Hm.
  destruct (Forall_lookup_1 _ _ _ _ h6 Hb) as (Hend & _ & _). split; [by apply pre_nodes_ra|].
  pose proof (expands_last _ _ He) as Hlast. rewrite !fmap_last in Hlast. unfold ends_ok in *.
  pose proof (pre_nodes_ok _ _ _ _ Hn) as Hok'. pose proof (pre_nodes_ok _ _ _ _ (Forall_lookup_1 _ _ _ _ h5 Hb)) as Hok.
  destruct (last (ilist b')) as [n'|] eqn:El'; [|done]. destruct (last (ilist b)) as [n|] eqn:El; [|done].
  cbn in Hlast. injection Hlast as Hop. rewrite last_lookup in El, El'.
  pose proof (Forall_lookup_1 _ _ _ _ Hok El) as Hi. pose proof (Forall_lookup_1 _ _ _ _ Hok' El') as Hi'. cbn in Hi, Hi'.
  rewrite is_term_op, is_call_op in * by done. by rewrite Hop.
Qed.

(** ** A decision procedure for the premises *)
Section check.
Context (si : StateInfo) (types : list VType).

Definition pre_wfb (D : list nat) (flags : Z) (ins : Inst) : bool :=
  inst_ok ins && forallb (in_okb si types D) (inputs ins) && forallb (out_okb si types (GetOpcode ins)) (outputs ins) &&
  types_ok ins && ((Z.land (GetOpFlags (GetOpcode ins)) SIDEEFF =? 0) || negb (Z.land flags SIDEEFF =? 0)) &&
  (negb (is_call ins) || negb (Z.land flags HAS_CALLS =? 0)) &&
  match ins with
  | InstHcall _ (VConst _ _) => true
  | InstHcall _ _ => false
  | InstGBr (VConst _ c) => (0 <=? c) && (c <? 2 ^ 32)
  | InstGBr _ => false
  | _ => true
  end.
Fixpoint pre_nodesb (D : list nat) (l : list Node) : bool :=
  match l with
  | [] => true
  | n :: l =>
      pre_wfb D (n_flags n) (n_inst n) &&
      pre_nodesb (if is_term (n_inst n) then []
                  else match dst_of (n_inst n) with Some r => r :: D | None => D end) l
  end.

Lemma pre_wfb_sound D flags ins : pre_wfb D flags ins = true -> pre_wf si types (live_in si D) flags ins.
Proof.
  unfold pre_wfb. intros H. bool_to_prop.
  repeat match goal with X : _ || negb _ = true |- _ => apply orb_true_iff in X; rewrite ?negb_true_iff, ?Z.eqb_eq, ?Z.eqb_neq in X end.
  split; try done.
  - by apply in_okb_sound.
  - by apply out_okb_sound.
  - naive_solver.
  - intros Hc. rewrite Hc in *. naive_solver.
  - intros stub a ->. destruct a; try done. eauto.
  - intros a ->. destruct a; try done. bool_to_prop. eexists _, _. split; [done|]. by split.
Qed.

Lemma pre_nodesb_sound l : forall D, pre_nodesb D l = true -> pre_nodes si types (live_in si D) l.
Proof.
  induction l as [|n l IH]; intros D H; [done|]. cbn in H. bool_to_prop. split; [by apply pre_wfb_sound|].
  eapply pre_nodes_mono; [|by apply IH]. unfold next_live. destruct (is_term _).
  - intros i [?|Hi]; [done|]. by apply elem_of_nil in Hi.
  - unfold with_dst. destruct (dst_of _); intros i [?|Hi]; try (left; by left); [|left; by right].
    apply elem_of_cons in Hi as [->|?]; [by right|left; by right].
Qed.
End check.

Definition succs_opb (ss : list nat) (op : Op) : bool :=
  match op with
  | _br => bool_decide (is_Some (ss !! 0%nat))
  | _brcc => bool_decide (is_Some (ss !! 0%nat)) && bool_decide (is_Some (ss !! 1%nat))
  | _ => true
  end.
Lemma succs_opb_sound ss op : succs_opb ss op = true -> succs_op ss op.
Proof. destruct op; try done; intros H; cbn in *; by bool_to_prop. Qed.

Definition sel_region_wfb (rn : Region) : bool :=
  let si := glob_info (vregs_info rn) in
  let types := loc_info (vregs_info rn) in
  bool_decide (NoDup (state_offs <$> si)) && forallb (fun sr => valid_offs (state_offs sr)) si &&
  forallb (fun sr => bool_decide (sr_type sr = I32)) si && forallb (fun t => bool_decide (t <> UNDEF)) types &&
  forallb (fun b => pre_nodesb si types [] (ilist b) && ends_ok (ilist b) && jumps_op (GetOpcode <$> (n_inst <$> ilist b)) &&
    forallb (fun i => succs_opb (succs b) (GetOpcode i)) (n_inst <$> ilist b)) (blist rn) &&
  bool_decide (blist rn <> []).

Lemma forallb_Forall_impl {A} (f : A -> bool) (P : A -> Prop) l :
  forallb f l = true -> (forall x, f x = true -> P x) -> Forall P l.
Proof. rewrite forallb_forall. intros H HP. apply Forall_forall. intros x Hx. apply HP, H. by apply list_elem_of_In. Qed.

Lemma sel_region_wfb_sound rn : sel_region_wfb rn = true -> sel_region_wf rn.
Proof.
  unfold sel_region_wfb. rewrite !andb_true_iff. intros [[[[[h1 h2] h3] h4] h5] h6]. bool_to_prop. split; try done.
  - by apply (forallb_Forall_impl _ _ _ h2).
  - apply (forallb_Forall_impl _ _ _ h3). intros x Hx. by bool_to_prop.
  - apply (forallb_Forall_impl _ _ _ h4). intros x Hx. by bool_to_prop.
  - apply (forallb_Forall_impl _ _ _ h5). intros b Hb. cbn in Hb. bool_to_prop.
    eapply pre_nodes_mono; [|by apply pre_nodesb_sound]. intros i [?|Hi]; [done|]. by apply elem_of_nil in Hi.
  - apply (forallb_Forall_impl _ _ _ h5). intros b Hb. cbn in Hb. bool_to_prop. split_and!; try done.
    eapply forallb_Forall_impl; [eassumption|]. intros i. apply succs_opb_sound.
Qed.
