(* ===== verification/TranslatorWf.v ===== *)
(** * Translated regions are well formed

    What operand selection, the allocator and the emitter ask of a region
    holds of every region the translator builds: operands are typed and in
    range, temporaries are written before they are read, jumps come last and
    have their successors.  The translator's methods are taken one by one with
    Hoare triples over its state. *)

From stdpp Require Import base tactics numbers list strings gmap.
From S2P Require Import Prelude Bitfield RV32Insn RV32Decode GuestState Interp InterpProofs RV32Isa InterpRefine VOperand Qir QirSem QirBuilder RV32Translator.
From S2P Require Import TranslatorEmit TranslatorSim TranslatorCorrect TranslatorRegion TranslatorMain.
From S2P Require Import ArchTraits QSel QSelCorrect QRegAlloc QRegAllocInv QRegAllocOps QRegAllocCorrect QRegAllocRegion QSelWf.

Import qir.

Section wf.
(** [N] is the number of temporaries of the finished region. *)
Context (N : nat) (HN : 32 + Z.of_nat N <= 2 ^ 16) (ctl : Control).
Notation si := state_info.
Notation types := (replicate N I32).
Notation glob := (is_glob state_info).
Notation good L i := (pre_wf si types L (GetOpFlags (GetOpcode i)) i).

(** ** Blocks *)

(** A finished block; one that is still written, in which [L] is live. *)
Definition closed (l : list Node) (ss : list nat) : Prop :=
  pre_nodes si types glob l /\ ends_ok l = true /\ jumps_op (GetOpcode <$> (n_inst <$> l)) = true /\
  Forall (fun i => succs_op ss (GetOpcode i)) (n_inst <$> l).
Definition opened (L : nat -> Prop) (l : list Node) (ss : list nat) : Prop :=
  ss = [] /\ Forall (fun n => ctl_op (GetOpcode (n_inst n)) = false) l /\
  forall ns, pre_nodes si types L ns -> pre_nodes si types glob (l ++ ns).
(** A block that was open before its last instruction [i]. *)
Definition ended (L : nat -> Prop) (i : Inst) (ss0 : list nat) (l : list Node) (ss : list nat) : Prop :=
  ss = ss0 /\ exists l0 n, l = l0 ++ [n] /\ n_inst n = i /\ opened L l0 [] /\ pre_wf si types L (n_flags n) i.

Lemma closed_nil : closed [] [].
Proof. by split_and!. Qed.
Lemma opened_nil : opened glob [] [].
Proof. split_and!; [done|apply Forall_nil_2|done]. Qed.
Lemma opened_mono (L L' : nat -> Prop) l ss : (forall i, L' i -> L i) -> opened L l ss -> opened L' l ss.
Proof. intros H (-> & Hc & Hl). split_and!; try done. intros ns Hns. apply Hl. by eapply pre_nodes_mono. Qed.

Lemma ended_opened L i l ss : ctl_op (GetOpcode i) = false -> ended L i [] l ss -> opened (next_live si L i) l ss.
Proof.
  intros Hc (-> & l0 & n & -> & <- & (_ & Hl & Hp) & Hn). split_and!; [done| |].
  - apply Forall_app. split; [done|]. by apply Forall_singleton.
  - intros ns Hns. rewrite <- app_assoc. by apply Hp.
Qed.

Lemma jumps_op_snoc l op : Forall (fun o => ctl_op o = false) l -> jumps_op (l ++ [op]) = true.
Proof.
  induction 1 as [|o l Ho Hl IH]; cbn; [by rewrite orb_true_r|]. by rewrite Ho, IH.
Qed.

Lemma ended_closed L i ss0 l ss :
  is_term i || is_call i = true -> succs_op ss0 (GetOpcode i) -> ended L i ss0 l ss -> closed l ss.
Proof.
  intros Ht Hs (-> & l0 & n & -> & <- & (_ & Hl & Hp) & Hn). split_and!.
  - by apply Hp.
  - unfold ends_ok. by rewrite last_snoc.
  - rewrite !fmap_app. cbn. apply jumps_op_snoc. by rewrite !Forall_fmap.
  - rewrite fmap_app. apply Forall_app. split; [|by apply Forall_singleton]. apply Forall_fmap.
    eapply Forall_impl; [exact Hl|]. intros m Hm. cbn in *. by destruct (GetOpcode (n_inst m)).
Qed.

(** ** States

    Every block but [o] is closed, and [B] holds of [o]. *)
Definition nloc (t : TState) : nat := length (loc_info (vregs_info (t_rn t))).
Record TJ (o : nat) (B : list Node -> list nat -> Prop) (t : TState) : Prop := {
  tj_glob : glob_info (vregs_info (t_rn t)) = si;
  tj_loc : Forall (fun ty => ty = I32) (loc_info (vregs_info (t_rn t)));
  tj_cur : exists b, blist (t_rn t) !! o = Some b /\ B (ilist b) (succs b);
  tj_other : forall k b, k <> o -> blist (t_rn t) !! k = Some b -> closed (ilist b) (succs b);
  tj_control : control t = ctl }.
(** The builder stands at the end of [o]. *)
Definition TA (o : nat) (B : list Node -> list nat -> Prop) (t : TState) : Prop :=
  TJ o B t /\ at_end t /\ b_bb (t_qb t) = o.
Record TD (t : TState) : Prop := {
  td_glob : glob_info (vregs_info (t_rn t)) = si;
  td_loc : Forall (fun ty => ty = I32) (loc_info (vregs_info (t_rn t)));
  td_blocks : forall k b, blist (t_rn t) !! k = Some b -> closed (ilist b) (succs b) }.

Lemma TJ_impl o (B B' : list Node -> list nat -> Prop) t : (forall l ss, B l ss -> B' l ss) -> TJ o B t -> TJ o B' t.
Proof. intros H [? ? (b & Hb & HB) ? ?]. split; try done. exists b. auto. Qed.
Lemma TA_impl o (B B' : list Node -> list nat -> Prop) t : (forall l ss, B l ss -> B' l ss) -> TA o B t -> TA o B' t.
Proof. intros H [HJ ?]. split; [by eapply TJ_impl|done]. Qed.
Lemma TJ_done o (B : list Node -> list nat -> Prop) t : (forall l ss, B l ss -> closed l ss) -> TJ o B t -> TD t.
Proof.
  intros H [? ? (b & Hb & HB) Ho ?]. split; try done. intros k b' Hk.
  destruct (decide (k = o)) as [->|Hne]; [|by eapply Ho]. assert (b' = b) as -> by congruence. auto.
Qed.

(** ** Triples

    Temporaries are only added, so the bound [N] holds before when it holds
    after. *)
Definition triple {A} (P : TState -> Prop) (c : TM A) (Q : A -> TState -> Prop) : Prop :=
  forall t a t', c t = Some (a, t') -> (nloc t' <= N)%nat -> (nloc t <= N)%nat /\ (P t -> Q a t').

Lemma t_conseq {A} (P P' : TState -> Prop) (c : TM A) (Q Q' : A -> TState -> Prop) :
  triple P c Q -> (forall t, P' t -> P t) -> (forall a t, Q a t -> Q' a t) -> triple P' c Q'.
Proof. intros H HP HQ t a t' E Hn. destruct (H t a t' E Hn). auto. Qed.
Lemma t_bind {A B} P (c : TM A) R (k : A -> TM B) Q :
  triple P c R -> (forall a, triple (R a) (k a) Q) -> triple P (c ≫= k) Q.
Proof.
  intros Hc Hk t b t' E Hn. unfold mbind, TM_bind in E. apply bind_Some in E as ([a t1] & E1 & E2).
  destruct (Hk a t1 b t' E2 Hn) as [Hn1 H2]. destruct (Hc t a t1 E1 Hn1) as [? H1]. auto.
Qed.
Lemma t_ret {A} (P : TState -> Prop) (a : A) : triple P (mret a) (fun b t => P t /\ b = a).
Proof. intros t b t' [= <- <-] Hn. auto. Qed.
Lemma t_skip P : triple P (mret tt) (fun _ => P).
Proof. intros t b t' [= <- <-] Hn. auto. Qed.
(** What is known of the state apart from the program. *)
Definition grows {A} (c : TM A) : Prop := triple (fun _ => False) c (fun _ _ => False).
Lemma t_none {A} (c : TM A) Q : grows c -> triple (fun _ => False) c Q.
Proof. intros H. by eapply t_conseq. Qed.
Lemma t_ex {A X} (P : X -> TState -> Prop) (c : TM A) Q :
  grows c -> (forall x, triple (P x) c Q) -> triple (fun t => exists x, P x t) c Q.
Proof. intros Hg H t a t' E Hn. split; [by apply (Hg t a t' E Hn)|]. intros [x Hx]. by apply (H x t a t' E Hn). Qed.
Lemma t_pure {A} (P : TState -> Prop) (φ : Prop) (c : TM A) Q :
  grows c -> (φ -> triple P c Q) -> triple (fun t => P t /\ φ) c Q.
Proof. intros Hg H t a t' E Hn. split; [by apply (Hg t a t' E Hn)|]. intros [Hp Hf]. by apply (H Hf t a t' E Hn). Qed.
Lemma g_ret {A} (a : A) : grows (mret a).
Proof. by intros t b t' [= <- <-] Hn. Qed.
Lemma g_bind {A B} (c : TM A) (k : A -> TM B) : grows c -> (forall a, grows (k a)) -> grows (c ≫= k).
Proof. intros Hc Hk. by eapply t_bind. Qed.
Lemma g_if {A} (b : bool) (c1 c2 : TM A) : grows c1 -> grows c2 -> grows (if b then c1 else c2).
Proof. by destruct b. Qed.
Lemma g_vgpr id ty : grows (vgpr id ty).
Proof. intros t a t'. unfold vgpr, t_assert. destruct (negb _); [|done]. by intros [= <- <-]. Qed.
Lemma g_gprop id ty : grows (gprop id ty).
Proof. unfold gprop. apply g_if; [apply g_ret|apply g_vgpr]. Qed.
Lemma g_get : grows t_get.
Proof. by intros t a t' [= <- <-]. Qed.
Lemma t_read {B} P (k : TState -> TM B) Q : (forall t0, triple P (k t0) Q) -> triple P (t_get ≫= k) Q.
Proof. intros H t b t' E. exact (H t t b t' E). Qed.
Lemma t_read_at {B} (P : TState -> Prop) (k : TState -> TM B) Q :
  (forall t0, triple (fun t => P t /\ t = t0) (k t0) Q) -> triple P (t_get ≫= k) Q.
Proof. intros H t b t' E Hn. destruct (H t t b t' E Hn). auto. Qed.
Lemma t_step (P Q : TState -> Prop) f :
  (forall t, nloc (f t) = nloc t) -> (forall t, P t -> Q (f t)) -> triple P (t_modify f) (fun _ => Q).
Proof. intros H1 H2 t a t' [= <- <-] Hn. rewrite H1 in Hn. auto. Qed.
Lemma t_gprop {B} P id ty (k : VOperand -> TM B) Q :
  triple P (k (gpr_opnd id ty)) Q -> triple P (gprop id ty ≫= k) Q.
Proof. intros H t b t'. rewrite bind_gprop. apply H. Qed.
Lemma t_vgpr {B} P id ty (k : VOperand -> TM B) Q :
  id <> 0 -> triple P (k (VGPR ty (id - 1))) Q -> triple P (vgpr id ty ≫= k) Q.
Proof. intros Hid H t b t'. rewrite bind_vgpr by done. apply H. Qed.

(** ** The builder *)
Lemma Create_nloc i t t' : qb_Create i t = Some (tt, t') -> nloc t' = nloc t.
Proof.
  unfold qb_Create, t_modify, Builder_Create, Create. intros [= <-]. unfold nloc. cbn [t_rn set_qb set_rn].
  unfold ApplyFolder. destruct (_ ≫= _) as [node|]; [|done]. destruct (FolderVisitor_visit _) as [i' [mov|]]; done.
Qed.

Lemma t_create o L i :
  good L (fold_inst i) -> triple (TA o (opened L)) (qb_Create i) (fun _ => TA o (ended L (fold_inst i) [])).
Proof.
  intros Hg t [] t' E Hn. pose proof (Create_nloc i t t' E) as El. split; [lia|].
  intros [[h1 h2 (b & Hb & HB) h4 h5] [(b0 & Hb0 & Hit) <-]]. assert (b0 = b) as -> by congruence.
  destruct (qb_Create_node i t b Hb Hit) as (n & rn & Hni & Hf & E' & Hl & Hv).
  rewrite E' in E. injection E as <-. assert (Hlt := lookup_lt_Some _ _ _ Hb). destruct HB as [Hs HB].
  assert (Hcur : blist rn !! b_bb (t_qb t) = Some (mkBlock (ilist b ++ [n]) (succs b) (preds b))).
  { rewrite Hl. by apply list_lookup_insert_eq. }
  split; [split|split; [|done]]; cbn [t_rn set_qb set_rn t_qb control b_bb] in *; rewrite ?Hv; try done.
  - eexists. split; [exact Hcur|]. cbn [ilist succs]. split; [done|]. exists (ilist b), n. split_and!; try done.
    unfold flag_ok in Hf. rewrite Hf, Hni. done.
  - intros k b' Hk. rewrite Hl, list_lookup_insert_ne by done. by apply h4.
  - eexists. split; [exact Hcur|]. cbn. rewrite length_app. cbn. lia.
Qed.

(** An instruction that does not jump; one that leaves the block. *)
Lemma t_insn o L (L' : nat -> Prop) i :
  good L (fold_inst i) -> ctl_op (GetOpcode (fold_inst i)) = false -> (forall k, L' k -> next_live si L (fold_inst i) k) ->
  triple (TA o (opened L)) (qb_Create i) (fun _ => TA o (opened L')).
Proof.
  intros Hg Hc HL. eapply t_conseq; [by apply t_create|done|]. intros [] t. apply TA_impl. intros l ss He.
  eapply opened_mono; [exact HL|]. by apply ended_opened.
Qed.
Lemma t_leave o L i :
  good L (fold_inst i) -> is_term (fold_inst i) || is_call (fold_inst i) = true -> succs_op [] (GetOpcode (fold_inst i)) ->
  triple (TA o (opened L)) (qb_Create i) (fun _ => TD).
Proof.
  intros Hg Ht Hs. eapply t_conseq; [by apply t_create|done|]. intros [] t [HJ _]. eapply TJ_done; [|exact HJ].
  intros l ss. by apply ended_closed.
Qed.

Lemma AddSucc_lookup a s rn k b :
  blist (AddSucc a s rn) !! k = Some b -> exists b0, blist rn !! k = Some b0 /\ ilist b = ilist b0 /\
    succs b = if bool_decide (k = a) then succs b0 ++ [s] else succs b0.
Proof.
  unfold AddSucc, upd_block. cbn [blist]. intros H.
  assert (H1 : exists b1, alter (fun x => mkBlock (ilist x) (succs x ++ [s]) (preds x)) a (blist rn) !! k = Some b1 /\
    ilist b = ilist b1 /\ succs b = succs b1).
  { destruct (decide (k = s)) as [->|Hk]; [|rewrite list_lookup_alter_ne in H by done; eauto].
    rewrite list_lookup_alter_eq in H. apply fmap_Some in H as (b1 & H1 & ->). eauto. }
  destruct H1 as (b1 & H1 & -> & ->). case_bool_decide as Ha.
  - subst a. rewrite list_lookup_alter_eq in H1. apply fmap_Some in H1 as (b0 & H0 & ->). eauto.
  - rewrite list_lookup_alter_ne in H1 by done. eauto.
Qed.
Lemma AddSucc_Some a s rn k : is_Some (blist rn !! k) -> is_Some (blist (AddSucc a s rn) !! k).
Proof. rewrite !lookup_lt_is_Some. unfold AddSucc, upd_block. cbn [blist]. by rewrite !length_alter. Qed.

Lemma t_AddSucc o L i ss b :
  triple (TA o (ended L i ss)) (qb_AddSucc b) (fun _ => TA o (ended L i (ss ++ [b]))).
Proof.
  intros t [] t' [= <-] Hn. split; [exact Hn|].
  intros [[h1 h2 (x & Hx & HB) h4 h5] [(x0 & Hx0 & Hit) Ho]]. rewrite Ho in *. assert (x0 = x) as -> by congruence.
  destruct (AddSucc_Some o b (t_rn t) o) as [y Hy]; [by eexists|].
  destruct (AddSucc_lookup _ _ _ _ _ Hy) as (x1 & Hx1 & Hi & Hs). assert (x1 = x) as -> by congruence.
  rewrite bool_decide_true in Hs by done.
  split; [split|split]; cbn [t_rn set_rn control t_qb vregs_info AddSucc upd_block] in *; rewrite ?Ho; try done.
  - exists y. split; [exact Hy|]. rewrite Hi, Hs. destruct HB as [-> HB]. by split.
  - intros k z Hk Hz. destruct (AddSucc_lookup _ _ _ _ _ Hz) as (z0 & Hz0 & -> & ->).
    rewrite bool_decide_false by done. by eapply h4.
  - exists y. cbn [t_rn set_rn t_qb]. rewrite Ho. split; [exact Hy|]. by rewrite Hi.
Qed.

Lemma t_set o B : triple (TJ o B) (qb_set o) (fun _ => TA o B).
Proof.
  intros t [] t' [= <-] Hn. split; [exact Hn|]. intros HJ. destruct (tj_cur _ _ _ HJ) as (b & Hb & _).
  split; [by destruct HJ; split|]. split; [|done]. exists b. unfold Builder_at_end. cbn. by rewrite Hb.
Qed.

(** ** Operands *)
Definition temp (r : Z) : Prop := 32 <= r < 32 + Z.of_nat N.
Notation n_all := (Z.of_nat (length si + length types)).

Lemma n_all_eq : n_all = 32 + Z.of_nat N.
Proof. rewrite length_replicate. change (length si) with 32%nat. lia. Qed.
Lemma si_ip k sr : si !! k = Some sr -> state_offs sr = offs_ip -> k = 31%nat.
Proof.
  intros Hk Ho. assert (Hlt := lookup_lt_Some _ _ _ Hk). change (length si) with 32%nat in Hlt.
  do 32 (destruct k as [|k]; [first [reflexivity|injection Hk as <-; discriminate Ho]|]). lia.
Qed.
Lemma si_type k sr : si !! k = Some sr -> sr_type sr = I32.
Proof.
  intros Hk. assert (Hlt := lookup_lt_Some _ _ _ Hk). change (length si) with 32%nat in Hlt.
  do 32 (destruct k as [|k]; [by injection Hk as <-|]). lia.
Qed.
Lemma vtype_i32 r : 0 <= r < n_all -> vtype si types (Z.to_nat r) = I32.
Proof.
  rewrite n_all_eq. intros Hr. unfold vtype. destruct (si !! Z.to_nat r) as [sr|] eqn:E; [by eapply si_type|].
  apply lookup_ge_None in E. rewrite lookup_replicate_2; [done|]. change (length si) with 32%nat in *. lia.
Qed.
Lemma not_resv r : 0 <= r -> r <> 31 -> ~ resv si (Z.to_nat r).
Proof. intros Hr Hne (sr & Hsr & Ho). pose proof (si_ip _ _ Hsr Ho). lia. Qed.

(** Registers, constants and temporaries as sources and destinations. *)
Lemma gpr_src (L : nat -> Prop) id ty :
  0 <= id < 32 -> (forall i, glob i -> L i) -> ty <> UNDEF -> in_ok si types L (gpr_opnd id ty).
Proof.
  intros Hid HL Hty. unfold gpr_opnd. destruct (Z.eqb_spec id 0); cbn [in_ok].
  - split; [by split|by destruct ty].
  - split_and!; [lia| |apply not_resv; lia|done|].
    + apply HL. unfold is_glob. change (length si) with 32%nat. lia.
    + rewrite vtype_i32 by (rewrite n_all_eq; lia). by destruct ty.
Qed.
Lemma gpr_type id ty : type_of (gpr_opnd id ty) = ty.
Proof. unfold gpr_opnd. by destruct (id =? 0). Qed.
Lemma const_src L v : in_ok si types L (VConst I32 (u32 v)).
Proof. split; [apply uN_range; lia|done]. Qed.
Lemma temp_src (L : nat -> Prop) r : temp r -> L (Z.to_nat r) -> in_ok si types L (VGPR I32 r).
Proof.
  unfold temp. intros Hr HL. cbn. split_and!; [lia|done|apply not_resv; lia|done|]. rewrite vtype_i32 by (rewrite n_all_eq; lia). done.
Qed.
Lemma gpr_dst op id : 1 <= id < 32 -> ra_out_ok si types op (VGPR I32 (id - 1)).
Proof.
  intros Hid. cbn [ra_out_ok]. rewrite vtype_i32 by (rewrite n_all_eq; lia). rewrite n_all_eq.
  split_and!; [lia|lia|apply not_resv; lia|done].
Qed.
Lemma temp_dst op r : temp r -> ra_out_ok si types op (VGPR I32 r).
Proof.
  unfold temp. intros Hr. cbn [ra_out_ok]. rewrite vtype_i32 by (rewrite n_all_eq; lia). rewrite n_all_eq.
  split_and!; [lia|lia|apply not_resv; lia|done].
Qed.

(** ** Instructions *)
Lemma good_intro L i :
  inst_ok i = true -> Forall (in_ok si types L) (inputs i) -> Forall (ra_out_ok si types (GetOpcode i)) (outputs i) ->
  types_ok i = true -> (forall st a, i = InstHcall st a -> exists t c, a = VConst t c) ->
  (forall a, i = InstGBr a -> exists t c, a = VConst t c /\ in_u 32 c) -> good L i.
Proof. intros H1 H2 H3 H4 H5 H6. split; try done. destruct i as [| | | | | | | |[]|[]]; done. Qed.

Lemma good_mov L d v :
  in_ok si types L v -> ra_out_ok si types _mov d -> type_of v = I32 -> type_of d = I32 -> good L (InstUnop _mov d v).
Proof.
  intros. apply good_intro; try done; try by repeat constructor.
  cbn. rewrite !bool_decide_true by congruence. done.
Qed.
Lemma good_binop L op d a b :
  InstBinop_HasOpcode op = true -> in_ok si types L a -> in_ok si types L b -> ra_out_ok si types op d ->
  type_of a = I32 -> type_of b = I32 -> type_of d = I32 -> good L (InstBinop op d a b).
Proof.
  intros Hop ? ? ? ? ? ?. apply good_intro; try done; try by repeat constructor.
  cbn. rewrite !bool_decide_true by done. done.
Qed.
Lemma good_setcc L cc d a b :
  in_ok si types L a -> in_ok si types L b -> ra_out_ok si types _setcc d ->
  type_of a = I32 -> type_of b = I32 -> type_of d = I32 -> good L (InstSetcc cc d a b).
Proof.
  intros. apply good_intro; try done; try by repeat constructor.
  cbn. rewrite !bool_decide_true by done. done.
Qed.
Lemma good_vmload L sz sgn d p :
  in_ok si types L p -> ra_out_ok si types _vmload d -> type_of p = I32 -> type_of d = I32 -> sz <> UNDEF ->
  good L (InstVMLoad sz sgn d p).
Proof.
  intros. apply good_intro; try done; try by repeat constructor.
  cbn. rewrite !bool_decide_true by done. done.
Qed.
Lemma good_vmstore L sz p v :
  in_ok si types L p -> in_ok si types L v -> type_of p = I32 -> type_of v = sz -> sz <> UNDEF ->
  good L (InstVMStore sz VSign_U p v).
Proof.
  intros. apply good_intro; try done; try by repeat constructor.
  cbn. rewrite !bool_decide_true by done. done.
Qed.
Lemma good_hcall L st v : good L (InstHcall st (VConst I32 (u32 v))).
Proof.
  apply good_intro; try done; try by repeat constructor; try apply const_src. intros ? ? [= _ <-]. eauto.
Qed.
Lemma good_gbr L v : good L (InstGBr (VConst I32 (u32 v))).
Proof.
  apply good_intro; try done; try by repeat constructor.
  intros ? [= <-]. eexists _, _. split; [done|]. apply uN_range. lia.
Qed.
Lemma good_gbrind L v : in_ok si types L v -> type_of v = I32 -> good L (InstGBrind v).
Proof. intros. apply good_intro; try done; try by repeat constructor. cbn. by rewrite bool_decide_true. Qed.
Lemma good_brcc L cc a b :
  in_ok si types L a -> in_ok si types L b -> type_of a = I32 -> type_of b = I32 -> good L (InstBrcc cc a b).
Proof. intros. apply good_intro; try done; try by repeat constructor. cbn. by rewrite !bool_decide_true. Qed.
Lemma good_br L : good L InstBr.
Proof. apply good_intro; try done; by repeat constructor. Qed.

(** The folder. *)
Lemma fold_dst i : outputs (fold_inst i) = outputs i.
Proof.
  destruct i as [| | | | | | | | |[] d a b]; try done. unfold fold_inst. cbn. unfold visit_add.
  destruct a, b; repeat case_match; simplify_eq; done.
Qed.
Lemma out_ok_mov op d : ra_out_ok si types op d -> op <> _mov -> ra_out_ok si types _mov d.
Proof. destruct d as [| | |[]|]; try done. cbn. intuition congruence. Qed.
Lemma good_fold L i : good L i -> good L (fold_inst i).
Proof.
  intros Hg. destruct i as [| | | | | | | | |[] d a b]; try done.
  destruct Hg as [_ Hin Hout Ht _ _ _ _]. cbn [inputs outputs GetOpcode] in *.
  apply Forall_cons in Hin as [Ha [Hb _]%Forall_cons]. apply Forall_cons in Hout as [Hd _].
  cbn [types_ok forallb] in Ht. bool_to_prop. pose proof (out_ok_mov _ _ Hd ltac:(done)) as Hm.
  assert (Hsum : forall x y, in_ok si types L (VConst I32 (u32 (x + y)))) by (intros; apply const_src).
  unfold fold_inst. cbn [FolderVisitor_visit]. unfold visit_add.
  destruct a as [ta ca|ta ra| | |], b as [tb cb|tb rb| | |]; try done;
    repeat match goal with |- context [?c =? 0] => destruct (c =? 0) end; cbn -[uN];
    first [by apply good_mov|by apply (good_binop L _add)].
Qed.
Lemma fold_opcode i : ctl_op (GetOpcode (fold_inst i)) = ctl_op (GetOpcode i) /\ is_term (fold_inst i) = is_term i.
Proof.
  destruct i as [| | | | | | | | |[] d a b]; try done. unfold fold_inst. cbn. unfold visit_add.
  destruct a, b; repeat case_match; simplify_eq; done.
Qed.
Lemma next_fold L i : next_live si L (fold_inst i) = next_live si L i.
Proof. unfold next_live, with_dst, dst_of. rewrite fold_dst. by rewrite (proj2 (fold_opcode i)). Qed.

(** Appending an instruction: [L] stays live and its result becomes so. *)
Lemma t_emit o L (L' : nat -> Prop) i :
  good L i -> ctl_op (GetOpcode i) = false -> is_term i = false -> (forall k, L' k -> with_dst L i k) ->
  triple (TA o (opened L)) (qb_Create i) (fun _ => TA o (opened L')).
Proof.
  intros Hg Hc Ht HL. apply (t_insn o L); [by apply good_fold|by rewrite (proj1 (fold_opcode i))|].
  rewrite next_fold. unfold next_live. by rewrite Ht.
Qed.

Lemma t_vtemp o L :
  triple (TA o (opened L)) (vtemp I32) (fun v t => exists r, TA o (opened L) t /\ v = VGPR I32 r /\ temp r).
Proof.
  intros t v t' E Hn. unfold vtemp, CreateVGPR, Region_AddLocal, AddLocal in E. injection E as <- <-.
  unfold nloc in *. cbn [t_rn set_rn vregs_info loc_info] in *. rewrite length_app in Hn. cbn [length] in Hn. split; [lia|].
  intros [[h1 h2 h3 h4 h5] [h6 h7]]. eexists. split.
  - split; [|by split]. split; try done. cbn. apply Forall_app. split; [done|by apply Forall_singleton].
  - split; [done|]. unfold temp, NumLocals, NumGlobals. rewrite h1. change (length si) with 32%nat.
    rewrite uN_id; unfold in_u; lia.
Qed.

(** ** Control flow *)
Lemma t_make_target o B ip : triple (TJ o B) (make_target ip) (fun _ => TJ o B).
Proof.
  intros t b t'. unfold make_target. rewrite bind_get.
  destruct (ip2bb t !! ip) as [b'|]; [intros [= <- <-]; auto|].
  set (n := length (blist (t_rn t))).
  set (t2 := set_qb (Builder_at_end (CreateBlock (t_rn t)).1 n) (set_rn (CreateBlock (t_rn t)).1 t)).
  assert (Hb : blist (t_rn t2) !! b_bb (t_qb t2) = Some (mkBlock [] [] [])) by (cbn; by rewrite list_lookup_middle).
  assert (Hit : b_it (t_qb t2) = 0%nat) by (cbn; by rewrite list_lookup_middle).
  destruct (qb_Create_node (InstGBr (vconst ip I32)) t2 _ Hb Hit) as (nd & rn & Hni & Hf & E & Hl & Hv).
  change (('(_, t3) ← qb_Create (InstGBr (vconst ip I32)) t2; Some (n, t3)) = Some (b, t') -> (nloc t' <= N)%nat ->
    (nloc t <= N)%nat /\ (TJ o B t -> TJ o B t')).
  rewrite E. cbn [mbind option_bind]. intros [= <- <-]. unfold nloc. cbn [t_rn set_qb set_rn]. rewrite Hv.
  intros Hn. split; [exact Hn|]. intros [h1 h2 (x & Hx & HB) h4 h5].
  cbn [t_rn t2 set_qb set_rn CreateBlock fst blist vregs_info t_qb b_bb Builder_at_end ilist succs preds app] in Hl, Hv.
  assert (Hon : o <> n) by (apply lookup_lt_Some in Hx; subst n; lia).
  split; cbn [t_rn set_qb set_rn control t2]; rewrite ?Hv; try done.
  - exists x. split; [|done]. rewrite Hl, list_lookup_insert_ne by done. by apply lookup_app_l_Some.
  - intros k y Hk. rewrite Hl. destruct (decide (k = n)) as [->|Hkn].
    + rewrite list_lookup_insert_eq by (rewrite length_app; cbn; subst n; lia). intros [= <-]. cbn [ilist succs].
      apply (ended_closed glob (InstGBr (vconst ip I32)) []); [done..|]. split; [done|]. exists [], nd.
      unfold flag_ok in Hf. rewrite Hf, Hni. split_and!; [done|done|apply opened_nil|apply good_gbr].
    + rewrite list_lookup_insert_ne by done. intros Hy. apply lookup_app_Some in Hy as [Hy|[Hy1 Hy2]]; [by eapply h4|].
      assert (k - length (blist (t_rn t)) = 0)%nat as E0 by (apply lookup_lt_Some in Hy2; cbn in Hy2; lia).
      subst n. lia.
Qed.

Lemma t_MakeGBr o ip : triple (TA o (opened glob)) (MakeGBr ip) (fun _ => TD).
Proof.
  unfold MakeGBr. apply t_read. intros t0. destruct (ip2bb t0 !! ip) as [b|].
  - eapply t_bind; [apply (t_create o glob), good_br|]. intros []. eapply t_conseq; [apply t_AddSucc|done|].
    intros [] t [HJ _]. eapply TJ_done; [|exact HJ]. intros l ss. apply ended_closed; [done|by eexists].
  - apply (t_leave o glob); [apply good_gbr|done|done].
Qed.

Lemma t_TranslateBrcc o i cc : triple (TA o (opened glob)) (TranslateBrcc i cc) (fun _ => TD).
Proof.
  unfold TranslateBrcc. apply t_read_at. intros t0. cbv zeta.
  apply (t_conseq (TJ (b_bb (t_qb t0)) (opened glob)) _ _ (fun _ => TD)); [|by intros t [[? [_ <-]] ->]|done].
  set (o' := b_bb (t_qb t0)).
  eapply t_bind; [apply t_make_target|]. intros bf. eapply t_bind; [apply t_make_target|]. intros bt.
  eapply t_bind; [apply t_set|]. intros []. apply t_gprop, t_gprop.
  eapply t_bind; [apply (t_create o' glob (InstBrcc _ _ _)), good_brcc; try apply gpr_type; apply gpr_src; auto using insn.rs1_range, insn.rs2_range|].
  intros []. eapply t_bind; [apply t_AddSucc|]. intros []. eapply t_conseq; [apply t_AddSucc|done|].
  intros [] t [HJ _]. eapply TJ_done; [|exact HJ]. intros l ss. apply ended_closed; [done|by split; eexists].
Qed.

(** ** Instructions *)
Notation TI o := (TA o (opened glob)).

(** A result in a guest register: the globals stay live. *)
Lemma t_global o i : good glob i -> ctl_op (GetOpcode i) = false -> is_term i = false -> triple (TI o) (qb_Create i) (fun _ => TI o).
Proof. intros. apply (t_emit o glob); try done. intros k Hk. by left. Qed.

Ltac operands :=
  repeat lazymatch goal with
  | |- type_of (gpr_opnd _ _) = _ => apply gpr_type
  | |- type_of _ = _ => reflexivity
  | |- in_ok _ _ _ (VConst _ _) => apply const_src
  | |- in_ok _ _ _ (vconst _ _) => apply const_src
  | |- in_ok _ _ _ (gpr_opnd _ _) => apply gpr_src
  | |- ra_out_ok _ _ _ _ => apply gpr_dst
  | |- 0 <= insn.rs1 _ < 32 => apply insn.rs1_range
  | |- 0 <= insn.rs2 _ < 32 => apply insn.rs2_range
  | |- forall _, _ => intros; assumption || auto
  | |- _ <> UNDEF => discriminate
  end; try assumption.

Lemma rd_pos i : insn.rd i <> 0 -> 1 <= insn.rd i < 32.
Proof. pose proof (insn.rd_range i). lia. Qed.

Lemma t_rd o i (k : VOperand -> TM unit) :
  (1 <= insn.rd i < 32 -> triple (TI o) (k (VGPR I32 (insn.rd i - 1))) (fun _ => TI o)) ->
  triple (TI o) (if negb (insn.rd i =? 0) then vgpr (insn.rd i) I32 ≫= k else mret tt) (fun _ => TI o).
Proof.
  intros H. destruct (Z.eqb_spec (insn.rd i) 0); cbn [negb]; [apply t_skip|]. apply t_vgpr; [done|]. by apply H, rd_pos.
Qed.

Lemma t_ArithmRI o op imm i : InstBinop_HasOpcode op = true -> triple (TI o) (TRANSLATOR_ArithmRI op imm i) (fun _ => TI o).
Proof.
  intros Hop. apply t_rd. intros Hrd. apply t_gprop, t_global; [|by destruct op|done].
  apply good_binop; operands.
Qed.
Lemma t_ArithmRR o op i : InstBinop_HasOpcode op = true -> triple (TI o) (TRANSLATOR_ArithmRR op i) (fun _ => TI o).
Proof.
  intros Hop. apply t_rd. intros Hrd. apply t_gprop, t_gprop, t_global; [|by destruct op|done].
  apply good_binop; operands.
Qed.
Lemma t_Setcc_R o cc i : triple (TI o) (TranslateSetcc_R i cc) (fun _ => TI o).
Proof. apply t_rd. intros Hrd. apply t_gprop, t_gprop, t_global; [|done|done]. apply good_setcc; operands. Qed.
Lemma t_Setcc_I o cc i : triple (TI o) (TranslateSetcc_I i cc) (fun _ => TI o).
Proof. apply t_rd. intros Hrd. apply t_gprop, t_global; [|done|done]. apply good_setcc; operands. Qed.
Lemma t_lui o i : triple (TI o) (V_lui i) (fun _ => TI o).
Proof. apply t_rd. intros Hrd. apply t_global; [|done|done]. apply good_mov; operands. Qed.
Lemma t_auipc o i : triple (TI o) (V_auipc i) (fun _ => TI o).
Proof. apply t_read. intros t0. apply t_rd. intros Hrd. apply t_global; [|done|done]. apply good_mov; operands. Qed.

(** The link register, while the target of [jalr] is live. *)
Lemma t_link o (L : nat -> Prop) i : (forall k, glob k -> L k) -> triple (TA o (opened L)) (translate_link i) (fun _ => TA o (opened L)).
Proof.
  intros HL. apply t_read. intros t0. destruct (Z.eqb_spec (insn.rd i) 0); cbn [negb]; [apply t_skip|].
  apply t_vgpr; [done|]. apply (t_emit o L); [apply good_mov; operands; by apply rd_pos|done|done|]. intros k Hk. by left.
Qed.

(** The address of a load or store, and what is live after computing it. *)
Definition addr_at (o : nat) (a : VOperand) (imm : Z) (v : VOperand) (t : TState) : Prop :=
  exists L, TA o (opened L) t /\ (forall k, glob k -> L k) /\ in_ok si types L v /\ type_of v = I32 /\
    (imm <> 0 -> ra_out_ok si types _vmload v).

Lemma g_create i : grows (qb_Create i).
Proof. intros t [] t' E Hn. rewrite <- (Create_nloc _ _ _ E). done. Qed.
Ltac grow :=
  repeat lazymatch goal with
  | |- forall _, _ => intros
  | |- grows (_ ≫= _) => apply g_bind
  | |- grows (mret _) => apply g_ret
  | |- grows (qb_Create _) => apply g_create
  | |- grows t_get => apply g_get
  | |- grows (if _ then _ else _) => apply g_if
  | |- grows (vgpr _ _) => apply g_vgpr
  | |- grows (gprop _ _) => apply g_gprop
  end.

Lemma t_addr o a imm :
  in_ok si types glob a -> type_of a = I32 -> triple (TI o) (translate_addr a imm) (addr_at o a imm).
Proof.
  intros Ha Hty. unfold translate_addr. destruct (Z.eqb_spec imm 0) as [->|Hi]; cbn [negb].
  - eapply t_conseq; [apply t_ret|done|]. intros v t [Ht ->]. by exists glob.
  - eapply t_bind; [apply t_vtemp|]. intros v. apply t_ex; [by grow|].
    intros r. apply t_pure; [by grow|]. intros [-> Hr].
    eapply t_bind.
    + apply (t_emit o glob (fun k => glob k \/ Z.to_nat r = k)); [|done|done|].
      * apply good_binop; [done|operands..]. by apply temp_dst.
      * intros k [?|<-]; [by left|by right].
    + intros []. eapply t_conseq; [apply t_ret|done|]. intros v t [Ht ->]. exists (fun k => glob k \/ Z.to_nat r = k).
      split_and!; [done|by left|apply temp_src; [done|by right]|done|]. intros _. by apply temp_dst.
Qed.

Lemma t_load o i sz sgn : sz <> UNDEF -> load_ok i = true -> triple (TI o) (TranslateLoad i sz sgn) (fun _ => TI o).
Proof.
  intros Hsz Hok. unfold TranslateLoad. apply t_gprop. eapply t_bind; [apply t_addr; operands|]. intros v.
  apply t_ex; [by grow|]. intros L. apply t_pure; [by grow|]. intros (HL & Hv & Hty & Hout).
  assert (Hd : forall d, ra_out_ok si types _vmload d -> type_of d = I32 ->
    triple (TA o (opened L)) (qb_Create (InstVMLoad sz sgn d v)) (fun _ => TI o)).
  { intros d Hd Ht. apply (t_emit o L); [by apply good_vmload|done|done|]. intros k Hk. left. auto. }
  destruct (Z.eqb_spec (insn.rd i) 0) as [E|E]; cbn [negb].
  - apply Hd; [|done]. apply Hout. intros E'. unfold load_ok in Hok. by rewrite E, E' in Hok.
  - apply t_vgpr; [done|]. apply Hd; [|done]. by apply gpr_dst, rd_pos.
Qed.
Lemma t_store o i sz : sz <> UNDEF -> triple (TI o) (TranslateStore i sz VSign_U) (fun _ => TI o).
Proof.
  intros Hsz. unfold TranslateStore. apply t_gprop. eapply t_bind; [apply t_addr; operands|]. intros v.
  apply t_ex; [by grow|]. intros L. apply t_pure; [by grow|]. intros (HL & Hv & Hty & _). apply t_gprop.
  apply (t_emit o L); [|done|done|intros k Hk; left; auto]. apply good_vmstore; operands.
Qed.

Lemma t_jalr o i : triple (TI o) (V_jalr i) (fun _ => TD).
Proof.
  unfold V_jalr. eapply t_bind; [apply t_vtemp|]. intros v.
  assert (Hg : grows (a ← gprop (insn.rs1 i) I32; qb_Create (InstBinop _add v a (vconst (insn.I_imm i) I32));;
    qb_Create (InstBinop _and v v (vconst (Z.lnot 1) I32));; translate_link i;; qb_Create (InstGBrind v))).
  { unfold translate_link. grow. }
  apply t_ex; [done|]. intros r. apply t_pure; [done|]. intros [-> Hr]. clear Hg. apply t_gprop.
  set (L := fun k => glob k \/ Z.to_nat r = k).
  assert (HL : forall k, glob k -> L k) by (by left). assert (Hs : in_ok si types L (VGPR I32 r)) by (apply temp_src; [done|by right]).
  eapply t_bind; [apply (t_emit o glob L); [apply good_binop; [done|operands..]; by apply temp_dst|done|done|]|].
  { intros k [?|<-]; [by left|by right]. }
  intros []. eapply t_bind; [apply (t_emit o L L); [apply good_binop; [done|operands..]; by apply temp_dst|done|done|by left]|].
  intros []. eapply t_bind; [by apply t_link|]. intros []. apply (t_leave o L); [by apply good_gbrind|done|done].
Qed.
Lemma t_jal o i : triple (TI o) (V_jal i) (fun _ => TD).
Proof.
  unfold V_jal. apply t_read. intros t0. eapply t_bind; [by apply t_link|]. intros []. apply t_MakeGBr.
Qed.

(** After an instruction that branches or traps all blocks are finished. *)
Definition stops (op : insn.Op) : bool := insn.has_flag op insn.Flags.Branch || insn.has_flag op insn.Flags.Trap.

Lemma t_helper o i st : triple (TI o) (TranslateHelper i st) (fun _ => TI o).
Proof. apply t_global; [apply good_hcall|done|done]. Qed.
Lemma t_trap o i st : triple (TI o) (TranslateHelper i st) (fun _ => TD).
Proof. apply (t_leave o glob); [apply good_hcall|done|done]. Qed.

Lemma t_V o op i : insn_ok op i = true -> triple (TI o) (V op i) (fun _ => if stops op then TD else TI o).
Proof.
  intros Hok. destruct op; cbn [V insn_ok] in *;
    lazymatch goal with |- triple _ _ (fun _ => if ?b then _ else _) => let v := eval vm_compute in b in change b with v end;
    cbv iota;
    lazymatch goal with
    | |- triple _ (TranslateBrcc _ _) _ => apply t_TranslateBrcc
    | |- triple _ (V_jal _) _ => apply t_jal
    | |- triple _ (V_jalr _) _ => apply t_jalr
    | |- triple _ (V_lui _) _ => apply t_lui
    | |- triple _ (V_auipc _) _ => apply t_auipc
    | |- triple _ (TranslateLoad _ _ _) _ => by apply t_load
    | |- triple _ (TranslateStore _ _ _) _ => by apply t_store
    | |- triple _ (TranslateSetcc_I _ _) _ => apply t_Setcc_I
    | |- triple _ (TranslateSetcc_R _ _) _ => apply t_Setcc_R
    | |- triple _ (TRANSLATOR_ArithmRI _ _ _) _ => by apply t_ArithmRI
    | |- triple _ (TRANSLATOR_ArithmRR _ _) _ => by apply t_ArithmRR
    | |- triple _ _ (fun _ => TD) => apply t_trap
    | |- _ => apply t_helper
    end.
Qed.

Lemma TD_control c t : TD t -> TD (set_control c t).
Proof. by intros []. Qed.
Lemma TD_ip ip t : TD t -> TD (set_insn_ip ip t).
Proof. by intros []. Qed.
Lemma TA_ip o B ip t : TA o B t -> TA o B (set_insn_ip ip t).
Proof. by intros [[] ?]. Qed.

Lemma t_PreSideeff o : triple (TI o) PreSideeff (fun _ => TI o).
Proof.
  unfold PreSideeff. apply t_read. intros t0.
  change (GetStateReg si GlobalRegId.IP) with (Some (mkStateReg offs_ip I32 "ip")). cbv iota. cbn [state_offs].
  apply t_global; [|done|done]. apply good_mov; operands. done.
Qed.

End wf.

Section ranges.
Context (N : nat) (HN : 32 + Z.of_nat N <= 2 ^ 16).
(** Only [H] itself moves [insn_ip]. *)
Definition keeps_ip {A} (c : TM A) : Prop := forall t a t', c t = Some (a, t') -> insn_ip t' = insn_ip t.
Lemma kip_bind {A B} (c : TM A) (k : A -> TM B) : keeps_ip c -> (forall a, keeps_ip (k a)) -> keeps_ip (c ≫= k).
Proof.
  intros Hc Hk t b t' E. unfold mbind, TM_bind in E. apply bind_Some in E as ((a & t1) & E1 & E2).
  rewrite (Hk a _ _ _ E2). by eapply Hc.
Qed.
Lemma kip_if {A} (b : bool) (c1 c2 : TM A) : keeps_ip c1 -> keeps_ip c2 -> keeps_ip (if b then c1 else c2).
Proof. by destruct b. Qed.
Lemma kip_ret {A} (a : A) : keeps_ip (mret a).
Proof. by intros t a' t' [= _ <-]. Qed.
Lemma kip_fail {A} : keeps_ip (@t_fail A).
Proof. by intros t a' t'. Qed.
Lemma kip_modify f : (forall t, insn_ip (f t) = insn_ip t) -> keeps_ip (t_modify f).
Proof. intros Hf t a t' [= _ <-]. apply Hf. Qed.
Lemma kip_get : keeps_ip t_get.
Proof. by intros t a t' [= _ <-]. Qed.
Lemma kip_Create i : keeps_ip (qb_Create i).
Proof. apply kip_modify. intros t. by destruct (Builder_Create i (t_qb t) (t_rn t)). Qed.
Lemma kip_vtemp ty : keeps_ip (vtemp ty).
Proof. intros t a t'. unfold vtemp. destruct (CreateVGPR ty (t_rn t)). by intros [= _ <-]. Qed.
Lemma kip_block : keeps_ip qb_CreateBlock.
Proof. intros t a t'. unfold qb_CreateBlock. destruct (CreateBlock (t_rn t)). by intros [= _ <-]. Qed.
Lemma kip_bb {A B} (c1 : B -> TM A) (c2 : TM A) (o : option B) :
  (forall b, keeps_ip (c1 b)) -> keeps_ip c2 -> keeps_ip (match o with Some b => c1 b | None => c2 end).
Proof. by destruct o. Qed.

Ltac kip :=
  repeat lazymatch goal with
  | |- forall _, _ => intros
  | |- keeps_ip (_ ≫= _) => apply kip_bind
  | |- keeps_ip (if _ then _ else _) => apply kip_if
  | |- keeps_ip (mret _) => apply kip_ret
  | |- keeps_ip t_fail => apply kip_fail
  | |- keeps_ip t_get => apply kip_get
  | |- keeps_ip (qb_Create _) => apply kip_Create
  | |- keeps_ip (qb_AddSucc _) => by apply kip_modify
  | |- keeps_ip (qb_set _) => by apply kip_modify
  | |- keeps_ip (vtemp _) => apply kip_vtemp
  | |- keeps_ip qb_CreateBlock => apply kip_block
  | |- keeps_ip (match _ !! _ with _ => _ end) => apply kip_bb
  end.

Lemma V_keeps_ip op i : keeps_ip (V op i).
Proof.
  destruct op; cbn [V]; unfold V_lui, V_auipc, V_jal, V_jalr, TranslateBrcc, TranslateLoad, TranslateStore,
    TRANSLATOR_ArithmRI, TRANSLATOR_ArithmRR, TranslateSetcc_R, TranslateSetcc_I, TranslateHelper, translate_link,
    translate_addr, make_target, MakeGBr, gprop, vgpr, t_assert; kip.
Qed.

Lemma H_insn_ip op i t t' : H op i t = Some (tt, t') -> insn_ip t' = u32 (insn_ip t + 4).
Proof.
  unfold H. intros E. unfold mbind, TM_bind in E. apply bind_Some in E as ((() & t1) & E1 & E).
  apply bind_Some in E as ((() & t2) & E2 & E). apply bind_Some in E as ((() & t3) & E3 & E). injection E as <-. cbn [insn_ip set_insn_ip].
  assert (H1 : insn_ip t1 = insn_ip t).
  { revert E1. apply (kip_if _ PreSideeff (mret tt)); [|apply kip_ret]. unfold PreSideeff.
    change (GetStateReg state_info GlobalRegId.IP) with (Some (mkStateReg offs_ip I32 "ip")). kip. }
  assert (H3 : insn_ip t3 = insn_ip t2)
    by (revert E3; apply (kip_if _ (t_modify (set_control BRANCH)) (mret tt)); [by apply kip_modify|apply kip_ret]).
  by rewrite H3, (V_keeps_ip _ _ _ _ _ E2), H1.
Qed.

Notation TI o := (TA N NEXT o (opened N (is_glob state_info))).

Lemma t_H o op i :
  insn_ok op i = true ->
  triple N (TI o) (H op i) (fun _ t => if stops op then TD N t /\ control t = BRANCH else TI o t).
Proof.
  intros Hok. unfold H. eapply (t_bind _ _ _ (fun _ => TI o)).
  { destruct (_ || _); [by apply t_PreSideeff|apply t_skip]. }
  intros []. eapply t_bind; [by apply t_V|]. intros []. fold (stops op).
  destruct (stops op).
  - eapply (t_bind _ _ _ (fun _ t => TD N t /\ control t = BRANCH)).
    + apply t_step; [done|]. intros t Ht. split; [by apply TD_control|done].
    + intros []. apply t_step; [done|]. intros t [Ht Hc]. split; [by apply TD_ip|done].
  - eapply t_bind; [apply t_skip|]. intros []. apply t_step; [done|]. intros t. apply TA_ip.
Qed.

Context (code : mem) (inside : Z -> Prop).
Context (Hok : forall ip raw, inside ip -> load_le 4 code ip = Some raw -> insn_ok (Decoder.Decode raw) raw = true).

Lemma t_loop o fuel : forall num bnd t t', in_u 32 (insn_ip t) -> ahead inside fuel bnd (insn_ip t) ->
  translate_loop code fuel num bnd t = Some (tt, t') -> (nloc t' <= N)%nat -> (nloc t <= N)%nat /\ (TI o t -> TD N t').
Proof.
  induction fuel as [|fuel IH]; intros num bnd t t' Hip Ha; [done|].
  intros E Hn. pose proof (ahead_now _ _ _ _ Hip Ha) as Hin. rewrite translate_loop_eq in E. destruct (load_le 4 code (insn_ip t)) as [raw|] eqn:Hraw; [|done].
  destruct (H (Decoder.Decode raw) raw t) as [[[] t1]|] eqn:E1; [|done].
  pose proof (t_H o (Decoder.Decode raw) raw (Hok _ _ Hin Hraw) t tt t1 E1) as H1.
  pose proof (H_insn_ip _ _ _ _ E1) as Hip1. assert (Hip1' : in_u 32 (insn_ip t1)) by (rewrite Hip1; apply uN_range; lia).
  assert (Hrest : (nloc t1 <= N)%nat /\ (control t1 = NEXT -> TI o t1 -> TD N t') /\ (control t1 <> NEXT -> t' = t1)).
  { destruct (control t1); [|by injection E as <-..]. destruct ((_ =? _) || _) eqn:Hov.
    - destruct (t_MakeGBr N TB_OVF o (insn_ip t1) (set_control TB_OVF t1) tt t' E Hn) as [Hn1 Hm].
      split_and!; [exact Hn1| |done]. intros _ [[? ? ? ? ?] ?]. by apply Hm.
    - apply orb_false_iff in Hov as [_ Hov%Z.leb_gt].
      assert (Ha1 : ahead inside fuel bnd (insn_ip t1)) by (rewrite Hip1 in Hov |- *; by apply ahead_next).
      destruct (IH _ bnd t1 t' Hip1' Ha1 E Hn) as [Hn1 Hm]. split_and!; auto. done. }
  destruct Hrest as (Hn1 & Hnext & Hstop). destruct (H1 Hn1) as [Hn0 Hp]. split; [exact Hn0|]. intros Ht. specialize (Hp Ht).
  destruct (stops _).
  - destruct Hp as [Hd Hc]. by rewrite Hstop by (by rewrite Hc).
  - apply Hnext; [|exact Hp]. apply Hp.
Qed.

Lemma t_range ip bnd t t' b :
  in_u 32 ip -> (forall a, in_range (ip, bnd) a -> inside a) ->
  ip2bb t !! ip = Some b -> view (t_rn t) b = Some ([], []) ->
  TranslateIPRange code ip bnd t = Some (tt, t') -> (nloc t' <= N)%nat -> (nloc t <= N)%nat /\ (TD N t -> TD N t').
Proof.
  intros Hip Hin Hb Hv E Hn. rewrite TranslateIPRange_eq, Hb in E. destruct (bnd =? 0); [done|].
  assert (Ha : ahead inside (Z.to_nat TB_MAX_INSNS) bnd ip) by (intros k Hk Hj; apply Hin; by exists k).
  destruct (t_loop b _ 0 bnd (set_control NEXT (set_qb (Builder_at_end (t_rn t) b) (set_bb_ip ip (set_insn_ip ip t)))) t' Hip Ha E Hn)
    as [Hn0 Hl]. split; [exact Hn0|]. intros [h1 h2 h3]. apply Hl.
  apply view_Some in Hv as (x & Hx & Hi & Hs). unfold insts in Hi. apply fmap_nil_inv in Hi.
  split; [split; try done|split; [|done]].
  - exists x. split; [exact Hx|]. rewrite Hi, Hs. apply opened_nil.
  - intros k y _ Hy. by eapply h3.
  - exists x. unfold Builder_at_end. cbn. by rewrite Hx.
Qed.

Lemma t_ranges rs t t' :
  mem_wf code ->
  (forall ip b, ip2bb t !! ip = Some b -> ip ∈ rs.*1 -> view (t_rn t) b = Some ([], [])) ->
  (forall ip ip' b, ip2bb t !! ip = Some b -> ip2bb t !! ip' = Some b -> ip = ip') ->
  glob_info (vregs_info (t_rn t)) = state_info ->
  NoDup rs.*1 -> Forall (fun r => in_u 32 r.1) rs -> (forall a, in_ranges rs a -> inside a) ->
  translate_ranges code rs t = Some (tt, t') -> (nloc t' <= N)%nat -> (nloc t <= N)%nat /\ (TD N t -> TD N t').
Proof.
  intros Hw. revert t. induction rs as [|[first second] rs IH]; intros t Hnew Hinj Hg Hnd Hall Hins.
  - intros [= <-]. auto.
  - apply NoDup_cons in Hnd as [Hn Hnd]. apply Forall_cons in Hall as [Hip Hall]. cbn in Hip.
    change (translate_ranges code ((first, second) :: rs) t) with
      ('(_, t1) ← TranslateIPRange code first second t; translate_ranges code rs t1).
    intros ((u & t1) & E1 & E2)%bind_Some HN'. destruct u.
    assert (exists b, ip2bb t !! first = Some b) as (b & Hb).
    { revert E1. rewrite TranslateIPRange_eq. destruct (second =? 0); [done|]. destruct (ip2bb t !! first); [by eexists|done]. }
    assert (Hvb : view (t_rn t) b = Some ([], [])) by (apply (Hnew first); [done|left]).
    assert (Hin1 : forall a, in_range (first, second) a -> inside a) by (intros a ?; apply Hins; exists (first, second); split; [left|done]).
    assert (Hin2 : forall a, in_ranges rs a -> inside a) by (intros a (r & ? & ?); apply Hins; exists r; split; [by right|done]).
    destruct (range_done (fun _ => None) [] code inside Hw Hok first second t t1 b Hin1 Hb Hvb Hg Hip E1) as (_ & Hm & Hg1 & _ & Hk).
    destruct (IH t1) as [Hn1 H1]; try done.
    + intros ip k Hik Hin. rewrite Hm in Hik. assert (ip <> first) by (intros ->; done).
      assert (k <> b) by (intros ->; by pose proof (Hinj _ _ _ Hik Hb)).
      rewrite Hk; [apply (Hnew ip); [done|by right]|done|]. rewrite (Hnew ip k); [by eexists|done|by right].
    + intros ip ip' k. rewrite Hm. apply Hinj.
    + destruct (t_range first second t t1 b Hip Hin1 Hb Hvb E1 Hn1) as [Hn0 H0]. auto.
Qed.
End ranges.

Lemma create_blocks_TD N rs t t' : TD N t -> create_blocks rs t = Some (tt, t') -> TD N t' /\ nloc t' = nloc t.
Proof.
  revert t. induction rs as [|[first second] rs IH]; intros t Ht E; [by injection E as <-|].
  cbn [create_blocks] in E. unfold mbind, TM_bind, qb_CreateBlock, t_modify in E. cbn [mbind option_bind] in E.
  eapply IH in E as [? ->]; [done|]. destruct Ht as [h1 h2 h3]. split; cbn [t_rn CreateBlock fst snd set_rn vregs_info blist]; try done.
  intros k b Hk. apply lookup_app_Some in Hk as [Hk|[_ Hk]]; [by eapply h3|].
  apply list_lookup_singleton_Some in Hk as [_ <-]. apply closed_nil.
Qed.

Lemma all_i32 l : Forall (fun ty => ty = I32) l -> l = replicate (length l) I32.
Proof. induction 1 as [|ty l -> Hl IH]; [done|]. cbn. by rewrite <- IH. Qed.

(** The state registers of the translator. *)
Lemma state_info_ok :
  NoDup (state_offs <$> state_info) /\ Forall (fun sr => valid_offs (state_offs sr) = true) state_info /\
  Forall (fun sr => sr_type sr = I32) state_info.
Proof. split_and!; apply (bool_decide_unpack _); vm_compute; exact I. Qed.

Lemma Translate_region_wf code rs t :
  mem_wf code -> code_ok code rs -> ranges_wf rs -> rs <> [] -> Translate code rs = Some t ->
  NumAll (vregs_info (t_rn t)) <= 2 ^ 16 -> sel_region_wf (t_rn t).
Proof.
  intros Hw Hok [Hnd Hall] Hne E HN. unfold Translate in E.
  change ((create_blocks rs;; translate_ranges code rs) T_init) with
    ('(_, t1) ← create_blocks rs T_init; translate_ranges code rs t1) in E.
  apply fmap_Some in E as (((), t') & E & ->). apply bind_Some in E as (((), t1) & E1 & E2). cbn [snd] in *.
  assert (Hemp : forall ip, ip2bb T_init !! ip = None) by (intros; apply lookup_empty).
  destruct (create_blocks_done rs T_init t1) as ([Hv Hi Hg] & _ & Hin & Hin'); [|done|].
  { split; try done; intros *; by rewrite !Hemp. }
  destruct (ranges_done (fun _ => None) [] code (in_ranges rs) Hw Hok rs t1 t') as (Hm & Hg' & Hblk); try done.
  { intros ip b Hb _. by apply (Hv ip). }
  { intros ip b Hb Hn. destruct (Hin' ip) as [Hs|?]; [by eexists| |done]. rewrite Hemp in Hs. by destruct Hs. }
  set (N := nloc t'). assert (H0 : TD N T_init) by (split; [done|apply Forall_nil_2|done]).
  destruct (create_blocks_TD N rs T_init t1 H0 E1) as [H1 _].
  destruct (t_ranges N) with (code := code) (inside := in_ranges rs) (rs := rs) (t := t1) (t' := t') as [_ H2]; try done.
  { rewrite NumAll_length, Hg' in HN. change (length state_info) with 32%nat in HN. unfold N, nloc. lia. }
  { intros ip b Hb _. by apply (Hv ip). }
  destruct (H2 H1) as [h1 h2 h3]. destruct state_info_ok as (g1 & g2 & g3).
  assert (Hlt : loc_info (vregs_info (t_rn t')) = replicate N I32) by (by apply all_i32).
  split; rewrite ?h1, ?Hlt; try done.
  - by apply Forall_replicate.
  - apply Forall_forall. intros b Hb. apply list_elem_of_lookup in Hb as [k Hk]. apply (h3 k b Hk).
  - apply Forall_forall. intros b Hb. apply list_elem_of_lookup in Hb as [k Hk]. apply (h3 k b Hk).
  - destruct rs as [|[first second] rs]; [done|]. destruct (Hin first) as [b Hb]; [left|].
    destruct (Hblk first b) as (l & ss & Hvw & _); [by rewrite Hm|]. intros E0. unfold view in Hvw. by rewrite E0 in Hvw.
Qed.

(** C18 The translator only builds well-formed regions: for every list of
    ranges of code without loads into [x0] at offset zero, every instruction
    of the region [Translate] returns is well typed, reads only guest
    registers and temporaries that were written before in its block, writes
    registers of its type, carries the flags of its opcode, and jumps come
    last in their blocks with the successors they name. *)
Theorem Translate_wf code rs t :
  mem_wf code -> code_ok code rs -> ranges_wf rs -> rs <> [] -> Translate code rs = Some t ->
  NumAll (vregs_info (t_rn t)) <= 2 ^ 16 -> sel_region_wf (t_rn t).
Proof. apply Translate_region_wf. Qed.

Lemma Translate_wf_witness : exists t, Translate demo_mem demo_ranges = Some t /\ sel_region_wf (t_rn t).
Proof.
  pose proof demo_region as Hd. destruct (Translate demo_mem demo_ranges) as [t|] eqn:Et; [|discriminate Hd].
  exists t. split; [reflexivity|]. apply (Translate_wf demo_mem demo_ranges t (mem_of_words_wf _ _) demo_code_ok demo_ranges_wf); [discriminate|exact Et|].
  destruct (ip2bb t !! 0) as [b|]; [|discriminate Hd].
  destruct (exec_region state_info (fun _ => None) [] 8 (t_rn t) b demo_q) as [[| | |s'| | |]|]; try discriminate Hd.
  apply andb_true_iff in Hd as [Hw%Z.ltb_lt _]. lia.
Defined.
