(* ===== verification/Common.v ===== *)
(** * Shared utilities (src/dbt/util/common.h, common.cpp)

    Rounding at the widths the templates compute with, hexadecimal strings,
    and the result type of code that may call [Panic]. *)

From stdpp Require Import base tactics numbers list strings.
From S2P Require Import Prelude.

(** ** Code that may abort

    [PPanic] is a call of [Panic], an [assert] that fails or a dereferenced
    null pointer: the process ends. *)
Inductive pres (A : Type) := POk (a : A) | PPanic.
Arguments POk {_} _.
Arguments PPanic {_}.

#[export] Instance pres_ret : MRet pres := fun A a => POk a.
#[export] Instance pres_bind : MBind pres := fun A B f m =>
  match m with POk a => f a | PPanic => PPanic end.

Definition passert (b : bool) : pres unit := if b then POk tt else PPanic.
Definition pderef {A} (o : option A) : pres A := match o with Some a => POk a | None => PPanic end.

(** Loops whose bound is a fuel: a result, a panic, or the fuel is too
    small. *)
Inductive lres (A : Type) := LRet (a : A) | LPanic | LFuel.
Arguments LRet {A} _.
Arguments LPanic {A}.
Arguments LFuel {A}.

#[export] Instance lres_ret : MRet lres := fun A a => LRet a.
#[export] Instance lres_bind : MBind lres := fun A B f m =>
  match m with LRet a => f a | LPanic => LPanic | LFuel => LFuel end.
Definition lift {A} (m : pres A) : lres A := match m with POk a => LRet a | PPanic => LPanic end.

Fixpoint lfold {A S} (f : A -> S -> lres S) (l : list A) (s : S) : lres S :=
  match l with [] => LRet s | a :: l => s ← f a s; lfold f l s end.

Lemma lfold_inv {A S} (f : A -> S -> lres S) (P : list A -> S -> Prop) l s :
  P l s ->
  (forall a l' s, P (a :: l') s -> exists s', f a s = LRet s' /\ P l' s') ->
  exists s', lfold f l s = LRet s' /\ P [] s'.
Proof.
  intros H0 Hs. revert s H0. induction l as [|a l IH]; intros s H0; simpl; [eauto|].
  destruct (Hs a l s H0) as (s' & -> & H'). cbn. by apply IH.
Qed.

Lemma lbind_ret {A B} (m : lres A) (f : A -> lres B) b :
  m ≫= f = LRet b -> exists a, m = LRet a /\ f a = LRet b.
Proof. destruct m as [a| |]; cbn; [by exists a|done..]. Qed.
Lemma lift_ret {A} (m : pres A) a : lift m = LRet a -> m = POk a.
Proof. destruct m; cbn; congruence. Qed.

Lemma lfold_ret {A S} (f : A -> S -> lres S) (P : S -> Prop) l s s' :
  lfold f l s = LRet s' -> P s -> (forall a s s', P s -> f a s = LRet s' -> P s') -> P s'.
Proof.
  intros H H0 Hs. revert s H0 H. induction l as [|a l IH]; intros s H0; simpl; [congruence|].
  intros (s1 & H1 & H2)%lbind_ret. eauto.
Qed.

Lemma pbind_ok {A B} (m : pres A) (f : A -> pres B) b :
  m ≫= f = POk b -> exists a, m = POk a /\ f a = POk b.
Proof. destruct m as [a|]; cbn; [by exists a|done]. Qed.

(** ** [roundup], [rounddown]

    [T] is the type of [x] and the result, [w] the width of the common type
    in which the sum is computed. *)
Definition roundup (T w x y : Z) : Z := uN T (uN w (x + uN w (y - 1)) / y * y).
Definition rounddown (T w x y : Z) : Z := uN T (uN w (x - x mod y)).

Lemma roundup_spec T w x y :
  0 <= T -> 0 <= w -> 0 <= x -> 0 < y -> x + y <= 2 ^ T -> x + y <= 2 ^ w ->
  roundup T w x y = (x + (y - 1)) / y * y.
Proof.
  intros HT Hw Hx Hy HxT Hxw. unfold roundup.
  rewrite (uN_id w (y - 1)) by (unfold in_u; lia).
  rewrite (uN_id w (x + (y - 1))) by (unfold in_u; lia).
  rewrite uN_id; [done|]. unfold in_u.
  assert ((x + (y - 1)) / y * y <= x + (y - 1)) by (rewrite Z.mul_comm; apply Z.mul_div_le; lia).
  assert (0 <= (x + (y - 1)) / y) by (apply Z.div_pos; lia). nia.
Qed.

(** The next multiple of [y] at or above [x]. *)
Lemma roundup_bounds x y :
  0 <= x -> 0 < y ->
  let r := (x + (y - 1)) / y * y in x <= r < x + y /\ r mod y = 0.
Proof.
  intros Hx Hy r. subst r. split; [|by rewrite Z.mod_mul by lia].
  pose proof (Z.div_mod (x + (y - 1)) y ltac:(lia)). pose proof (Z.mod_pos_bound (x + (y - 1)) y Hy). nia.
Qed.

Lemma rounddown_spec T w x y :
  0 <= T -> 0 <= w -> 0 < y -> in_u T x -> in_u w x -> rounddown T w x y = x / y * y.
Proof.
  intros HT Hw Hy [Hx HT2] [_ Hw2]. unfold rounddown.
  pose proof (Z.div_mod x y ltac:(lia)). pose proof (Z.mod_pos_bound x y Hy).
  assert (0 <= y * (x / y)) by (apply Z.mul_nonneg_nonneg; [lia|apply Z.div_pos; lia]).
  assert (E : x - x mod y = x / y * y) by lia. rewrite E.
  rewrite (uN_id w) by (unfold in_u; lia). apply uN_id. unfold in_u. lia.
Qed.

(** ** [MakeHexStr] *)
Definition hexdig (d : Z) : Ascii.ascii :=
  match String.get (Z.to_nat d) "0123456789abcdef" with Some c => c | None => Ascii.zero end.
Fixpoint MakeHexStr (data : list Z) : string :=
  match data with
  | [] => ""
  | b :: data => String (hexdig (Z.land (Z.shiftr b 4) 0xf)) (String (hexdig (Z.land b 0xf)) (MakeHexStr data))
  end.

Definition hexval (c : Ascii.ascii) : option Z :=
  (fun p => Z.of_nat p.1) <$> list_find (fun d => hexdig (Z.of_nat d) = c) (seq 0 16).
Fixpoint ParseHexStr (s : string) : option (list Z) :=
  match s with
  | "" => Some []
  | String h (String l s) =>
      a ← hexval h; b ← hexval l; r ← ParseHexStr s; Some (16 * a + b :: r)
  | _ => None
  end%string.

Lemma hexval_hexdig d : 0 <= d < 16 -> hexval (hexdig d) = Some d.
Proof.
  intros Hd. assert (H : forallb (fun k => bool_decide (hexval (hexdig (Z.of_nat k)) = Some (Z.of_nat k))) (seq 0 16) = true)
    by (vm_compute; reflexivity).
  rewrite forallb_forall in H. specialize (H (Z.to_nat d) ltac:(apply in_seq; lia)).
  apply bool_decide_eq_true in H. by rewrite Z2Nat.id in H by lia.
Qed.

(** The hexadecimal name of a checksum determines the checksum. *)
Lemma ParseHexStr_Make data : Forall (in_u 8) data -> ParseHexStr (MakeHexStr data) = Some data.
Proof.
  induction data as [|b data IH]; [done|]. intros [Hb Hd]%Forall_cons. cbn [MakeHexStr ParseHexStr].
  assert (E1 : Z.land (Z.shiftr b 4) 0xf = b / 16).
  { change 0xf with (Z.ones 4). rewrite Z.land_ones, Z.shiftr_div_pow2 by lia.
    apply Z.mod_small. unfold in_u in Hb. change (2 ^ 4) with 16. change (2 ^ 8) with 256 in Hb. zlia. }
  assert (E2 : Z.land b 0xf = b mod 16) by (change 0xf with (Z.ones 4); by rewrite Z.land_ones by lia).
  unfold in_u in Hb. change (2 ^ 8) with 256 in Hb.
  rewrite E1, E2, !hexval_hexdig, IH by (done || zlia). cbn [mbind option_bind].
  do 2 f_equal. zlia.
Qed.
