(* ===== verification/Arena.v ===== *)
(** * Memory arenas (src/dbt/arena.h, arena.cpp)

    A bump allocator over one host mapping.  The host calls are arguments:
    what [host_mmap] returned ([None] is [MAP_FAILED]) and whether [munmap]
    succeeded.  [Allocate] is the build without assertions, whose failure
    returns a null pointer ([None]). *)

From stdpp Require Import base tactics numbers list.
From S2P Require Import Prelude Common.

Record MemArena := mkArena { pool : Z; pool_sz : Z; used : Z }.

Definition MemArena_init : MemArena := mkArena 0 0 0.

Definition Init (mmap_ret : option Z) (size : Z) (a : MemArena) : pres MemArena :=
  passert (pool a =? 0);;
  match mmap_ret with
  | Some p => POk (mkArena p (roundup 64 64 size 4096) 0)
  | None => PPanic
  end.

Definition Destroy (munmap_ok : bool) (a : MemArena) : pres MemArena :=
  if pool a =? 0 then POk a
  else if munmap_ok then POk (mkArena 0 (pool_sz a) (used a)) else PPanic.

Definition Reset (a : MemArena) : MemArena := mkArena (pool a) (pool_sz a) 0.

Definition Allocate (alloc_sz align : Z) (a : MemArena) : option Z * MemArena :=
  let alloc_start := roundup 64 64 (used a) align in
  if pool_sz a <? u64 (alloc_start + alloc_sz) then (None, a)
  else (Some (pool a + alloc_start), mkArena (pool a) (pool_sz a) (u64 (alloc_start + alloc_sz))).

(** [Allocate<T>(num)]. *)
Definition Allocate_T (size_of align_of num : Z) : MemArena -> option Z * MemArena :=
  Allocate (u64 (size_of * num)) align_of.

Definition GetUsedSize (a : MemArena) : Z := used a.
Definition BaseAddr (a : MemArena) : Z := pool a.

(** ** Invariant and requests *)
Record arena_wf (a : MemArena) : Prop := {
  aw_used : 0 <= used a <= pool_sz a;
  aw_sz : pool_sz a <= 2 ^ 63 }.

(** A request whose rounding does not leave [size_t]. *)
Definition req_ok (r : Z * Z) : Prop := 0 <= r.1 <= 2 ^ 62 /\ 0 < r.2 <= 2 ^ 61.

Lemma Init_wf p size a a' :
  0 <= size <= 2 ^ 62 -> Init (Some p) size a = POk a' -> arena_wf a' /\ used a' = 0 /\ size <= pool_sz a'.
Proof.
  intros Hs. unfold Init, passert. destruct (pool a =? 0); cbn; [|done]. intros [= <-]. cbn.
  rewrite roundup_spec by lia.
  pose proof (roundup_bounds size 4096 ltac:(lia) ltac:(lia)) as [? _]. cbv zeta in *.
  split_and!; [split; cbn; lia|done|lia].
Qed.

Lemma Reset_wf a : arena_wf a -> arena_wf (Reset a).
Proof. intros [? ?]. split; cbn; lia. Qed.

(** One allocation: an aligned block behind everything allocated so far, or
    no room and no change. *)
Lemma Allocate_spec sz align a :
  arena_wf a -> req_ok (sz, align) ->
  match Allocate sz align a with
  | (Some p, a') => exists start, p = pool a + start /\ used a <= start < used a + align /\
      start mod align = 0 /\ start + sz <= pool_sz a /\ a' = mkArena (pool a) (pool_sz a) (start + sz)
  | (None, a') => a' = a /\ pool_sz a < used a + align + sz
  end.
Proof.
  intros [Hu Hp] [Hs Ha]. cbn in Hs, Ha. unfold Allocate.
  rewrite roundup_spec by lia.
  pose proof (roundup_bounds (used a) align ltac:(lia) ltac:(lia)) as [Hb Hm]. cbv zeta in Hb, Hm.
  set (start := (used a + (align - 1)) / align * align) in *.
  rewrite uN_id by (unfold in_u; lia).
  destruct (Z.ltb_spec (pool_sz a) (start + sz)).
  - split; [done|lia].
  - exists start. split_and!; try done; lia.
Qed.

Lemma Allocate_wf sz align a : arena_wf a -> req_ok (sz, align) -> arena_wf (Allocate sz align a).2.
Proof.
  intros Hw Hr. pose proof (Allocate_spec sz align a Hw Hr) as H.
  destruct (Allocate sz align a) as [[p|] a'].
  - destruct H as (st & _ & ? & _ & ? & ->). destruct Hw, Hr. cbn in *. split; cbn; lia.
  - by destruct H as [-> _].
Qed.

(** ** A sequence of allocations *)
Fixpoint Allocate_all (reqs : list (Z * Z)) (a : MemArena) : list (option Z) * MemArena :=
  match reqs with
  | [] => ([], a)
  | (sz, align) :: reqs =>
      let '(p, a) := Allocate sz align a in
      let '(ps, a) := Allocate_all reqs a in (p :: ps, a)
  end.

Lemma Allocate_all_lower reqs : forall a i r p,
  arena_wf a -> Forall req_ok reqs -> reqs !! i = Some r ->
  (Allocate_all reqs a).1 !! i = Some (Some p) ->
  pool a + used a <= p /\ p + r.1 <= pool a + pool_sz a /\ (p - pool a) mod r.2 = 0.
Proof.
  induction reqs as [|[sz al] reqs IH]; intros a i r p Hw Hall Hi Hp; [done|].
  apply Forall_cons in Hall as [Hr Hall]. cbn [Allocate_all] in Hp.
  pose proof (Allocate_spec sz al a Hw Hr) as HA. pose proof (Allocate_wf sz al a Hw Hr) as Hw'.
  destruct (Allocate sz al a) as [o a'] eqn:E. cbn [snd] in Hw'.
  destruct (Allocate_all reqs a') as [ps a''] eqn:E2. destruct i as [|i]; cbn in Hi, Hp.
  - injection Hi as <-. injection Hp as ->. destruct HA as (st & -> & ? & Hm & ? & _). cbn.
    split_and!; [lia|lia|]. by replace (pool a + st - pool a) with st by lia.
  - specialize (IH a' i r p Hw' Hall Hi). rewrite E2 in IH. specialize (IH Hp) as (H1 & H2 & H3).
    destruct o as [q|].
    + destruct HA as (st & _ & ? & _ & ? & ->). cbn in *. destruct Hr; cbn in *. split_and!; (lia || done).
    + destruct HA as [-> _]. done.
Qed.

(** C27 The arena hands out memory safely: in any sequence of allocations
    every block that was returned lies inside the pool, starts at a multiple of
    its alignment from the pool's start, and lies entirely behind the blocks
    returned before it, so no two blocks share a byte. *)
Theorem Allocate_all_disjoint reqs a i j ri rj pi pj :
  arena_wf a -> Forall req_ok reqs -> (i < j)%nat ->
  reqs !! i = Some ri -> reqs !! j = Some rj ->
  (Allocate_all reqs a).1 !! i = Some (Some pi) -> (Allocate_all reqs a).1 !! j = Some (Some pj) ->
  pool a <= pi /\ pi + ri.1 <= pj /\ pj + rj.1 <= pool a + pool_sz a /\
  (pi - pool a) mod ri.2 = 0 /\ (pj - pool a) mod rj.2 = 0.
Proof.
  revert a i j. induction reqs as [|[sz al] reqs IH]; intros a i j Hw Hall Hij Hi Hj Hpi Hpj; [done|].
  pose proof (Allocate_all_lower _ a i ri pi Hw Hall Hi Hpi) as (Li & _ & Mi).
  pose proof (Allocate_all_lower _ a j rj pj Hw Hall Hj Hpj) as (_ & Uj & Mj).
  apply Forall_cons in Hall as [Hr Hall]. cbn [Allocate_all] in Hpi, Hpj.
  pose proof (Allocate_spec sz al a Hw Hr) as HA. pose proof (Allocate_wf sz al a Hw Hr) as Hw'.
  destruct (Allocate sz al a) as [o a'] eqn:E. cbn [snd] in Hw'.
  destruct (Allocate_all reqs a') as [ps a''] eqn:E2.
  destruct j as [|j]; [lia|]. cbn in Hj, Hpj.
  assert (Hpool : pool a' = pool a /\ pool_sz a' = pool_sz a).
  { destruct o; [by destruct HA as (st & _ & _ & _ & _ & ->)|by destruct HA as [-> _]]. }
  destruct Hpool as [Hpool Hsz]. destruct Hw as [Hu _].
  destruct i as [|i]; cbn in Hi, Hpi.
  - injection Hi as <-. injection Hpi as ->. destruct HA as (st & -> & ? & _ & ? & ->).
    pose proof (Allocate_all_lower reqs _ j rj pj Hw' Hall Hj) as HL. rewrite E2 in HL.
    specialize (HL Hpj) as (HL & _ & _). cbn in *. split_and!; try done; lia.
  - specialize (IH a' i j Hw' Hall ltac:(lia) Hi Hj). rewrite E2 in IH.
    specialize (IH Hpi Hpj) as (_ & H2 & _). split_and!; try done; lia.
Qed.

(** Two allocations from a pool of one page at [0x10000]. *)
Lemma Allocate_all_disjoint_witness :
  let a := mkArena 0x10000 4096 0 in
  Allocate_all [(5, 1); (24, 8)] a = ([Some 0x10000; Some 0x10008], mkArena 0x10000 4096 32) /\
  0x10000 + 5 <= 0x10008.
Proof.
  intros a. split; [reflexivity|].
  refine (proj1 (proj2 (Allocate_all_disjoint [(5, 1); (24, 8)] a 0 1 (5, 1) (24, 8) 0x10000 0x10008 _ _ _ _ _ _ _)));
    try reflexivity; [split; cbn; lia| |lia].
  repeat constructor; cbn; lia.
Defined.
