(* ===== verification/BranchSlot.v ===== *)
(** * Branch slots (src/dbt/qmc/qcg/jitabi.h)

    The patchable piece of code at the end of a translated region: twelve
    bytes of code followed by the guest target and the flags.  [CreatePatch]
    overwrites the first bytes of the code with one of four packed structures.
    [run_code] gives the bytes the meaning the processor gives them, for the
    four instruction sequences that occur. *)

From stdpp Require Import base tactics numbers list.
From S2P Require Import Prelude GuestState Qir.

(** ** Bytes *)
Fixpoint le_bytes (n : nat) (z : Z) : list Z :=
  match n with O => [] | S n => z mod 256 :: le_bytes n (z / 256) end.
Fixpoint le_value (l : list Z) : Z :=
  match l with [] => 0 | b :: l => b + 256 * le_value l end.

Lemma le_bytes_length n z : length (le_bytes n z) = n.
Proof. revert z. induction n; intros; cbn; auto. Qed.

Lemma le_value_bytes n z : le_value (le_bytes n z) = z mod 2 ^ (8 * Z.of_nat n).
Proof.
  revert z. induction n as [|n IH]; intros z; [cbn; by rewrite Z.mod_1_r|].
  cbn [le_bytes le_value]. rewrite IH.
  replace (8 * Z.of_nat (S n)) with (8 + 8 * Z.of_nat n) by lia. rewrite Z.pow_add_r by lia.
  pose proof (pow2_pos (8 * Z.of_nat n) ltac:(lia)).
  rewrite (Z.rem_mul_r z (2 ^ 8)) by lia. change (2 ^ 8) with 256. lia.
Qed.

(** ** The packed structures *)
Inductive patch :=
| Call64Abs (imm : Z)
| Jump64Abs (imm : Z)
| Jump32Rel (imm : Z)
| CallTab (imm : Z).

Definition patch_bytes (p : patch) : list Z :=
  match p with
  | Call64Abs imm => [0x48; 0xb8] ++ le_bytes 8 imm ++ [0xff; 0xd0]
  | Jump64Abs imm => [0x48; 0xb8] ++ le_bytes 8 imm ++ [0xff; 0xe0]
  | Jump32Rel imm => 0xe9 :: le_bytes 4 imm
  | CallTab imm => [0x41; 0xff; 0x95] ++ le_bytes 4 imm
  end.
Definition sizeof_Call64Abs : Z := 12.
Definition sizeof_Jump32Rel : Z := 5.
Definition sizeof_CallTab : Z := 7.
Definition sizeof_code : nat := 12.

Record BranchSlot := mkSlot { s_code : list Z; s_gip : Z; s_cross_segment : bool }.

Definition slot_wf (s : BranchSlot) : Prop := length (s_code s) = sizeof_code.

(** The packed size: code, [gip], one byte of flags. *)
Definition sizeof_BranchSlot : Z := 17.

(** Placement new of [P] at [&code]. *)
Definition CreatePatch (p : patch) (s : BranchSlot) : BranchSlot :=
  mkSlot (patch_bytes p ++ drop (length (patch_bytes p)) (s_code s)) (s_gip s) (s_cross_segment s).

(** [Link(to)] of the slot at address [self]. *)
Definition Link (self to : Z) (s : BranchSlot) : BranchSlot :=
  let rel := i64 (to - (self + sizeof_Jump32Rel)) in
  if i32 rel =? rel then CreatePatch (Jump32Rel (u32 rel)) s else CreatePatch (Jump64Abs to) s.

(** [link_jit] is the entry [id_link_branch_jit] of the global stub table. *)
Definition LinkLazyJIT (link_jit : Z) (s : BranchSlot) : BranchSlot := CreatePatch (Call64Abs link_jit) s.
Definition LinkLazyAOT (stub_tab_offs : Z) (s : BranchSlot) : BranchSlot :=
  CreatePatch (CallTab (stub_tab_offs + RuntimeStubTab_offs id_link_branch_aot)) s.
Definition LinkLazyLLVMAOT (stub_tab_offs : Z) (s : BranchSlot) : BranchSlot :=
  CreatePatch (CallTab (stub_tab_offs + RuntimeStubTab_offs id_link_branch_llvmaot)) s.

Definition FromCallPtrRetaddr (ra : Z) : Z := ra - sizeof_Call64Abs.
Definition FromCallRuntimeStubRetaddr (ra : Z) : Z := ra - sizeof_CallTab.

(** ** What the processor does with the bytes at [self] *)
Inductive action :=
| AJump (target : Z)
| ACall (target ra : Z)
| ACallTab (disp ra : Z).

Definition run_code (self : Z) (code : list Z) : option action :=
  match code with
  | 0xe9 :: rest => Some (AJump (u64 (self + 5 + i32 (le_value (take 4 rest)))))
  | 0x48 :: 0xb8 :: rest =>
      match drop 8 rest with
      | 0xff :: 0xd0 :: _ => Some (ACall (le_value (take 8 rest)) (self + 12))
      | 0xff :: 0xe0 :: _ => Some (AJump (le_value (take 8 rest)))
      | _ => None
      end
  | 0x41 :: 0xff :: 0x95 :: rest => Some (ACallTab (i32 (le_value (take 4 rest))) (self + 7))
  | _ => None
  end.

Lemma take_le n z rest : take n (le_bytes n z ++ rest) = le_bytes n z.
Proof. by rewrite take_app_length' by (by rewrite le_bytes_length). Qed.
Lemma drop_le n z rest : drop n (le_bytes n z ++ rest) = rest.
Proof. by rewrite drop_app_length' by (by rewrite le_bytes_length). Qed.

Lemma run_patch self p rest :
  run_code self (patch_bytes p ++ rest) =
  Some match p with
       | Call64Abs imm => ACall (u64 imm) (self + 12)
       | Jump64Abs imm => AJump (u64 imm)
       | Jump32Rel imm => AJump (u64 (self + 5 + i32 (u32 imm)))
       | CallTab imm => ACallTab (i32 (u32 imm)) (self + 7)
       end.
Proof.
  destruct p as [imm|imm|imm|imm]; cbn [patch_bytes]; rewrite <- ?app_assoc; cbn [app run_code].
  - rewrite take_le, drop_le, le_value_bytes. done.
  - rewrite take_le, drop_le, le_value_bytes. done.
  - rewrite take_le, le_value_bytes. done.
  - rewrite take_le, le_value_bytes. done.
Qed.

Lemma patch_fits p : (length (patch_bytes p) <= sizeof_code)%nat.
Proof. destruct p; cbn [patch_bytes]; rewrite ?length_app; cbn [length]; rewrite ?length_app, le_bytes_length; cbn; unfold sizeof_code; lia. Qed.

Lemma CreatePatch_wf p s : slot_wf s -> slot_wf (CreatePatch p s).
Proof.
  unfold slot_wf. cbn. intros H. rewrite length_app, length_drop, H. pose proof (patch_fits p). lia.
Qed.

Lemma Link_wf self to s : slot_wf s -> slot_wf (Link self to s).
Proof. intros H. unfold Link. case_match; by apply CreatePatch_wf. Qed.

Lemma Link_spec self to s :
  in_u 64 to ->
  run_code self (s_code (Link self to s)) = Some (AJump to) /\
  s_gip (Link self to s) = s_gip s /\ s_cross_segment (Link self to s) = s_cross_segment s.
Proof.
  intros Ht. unfold Link. set (rel := i64 _). split; [|by case_match].
  destruct (Z.eqb_spec (i32 rel) rel) as [E|_]; cbn [CreatePatch s_code]; rewrite run_patch.
  - autorewrite with rvconv. rewrite E. subst rel.
    rewrite <- (uN_add_r 64 (self + 5)), uN_sN, uN_add_r. do 2 f_equal.
    rewrite <- (uN_id 64 to) at 2 by done. f_equal. unfold sizeof_Jump32Rel. lia.
  - by rewrite uN_id.
Qed.

(** C26 A linked slot jumps to its target: for every slot address and every
    target in the 64-bit address space the patched bytes transfer control to
    [to], by a 32-bit relative jump when the distance fits and through [rax]
    otherwise; the guest target of the slot is untouched. *)
Theorem Link_jumps self to s :
  in_u 64 to ->
  run_code self (s_code (Link self to s)) = Some (AJump to) /\
  s_gip (Link self to s) = s_gip s /\ s_cross_segment (Link self to s) = s_cross_segment s.
Proof. apply Link_spec. Qed.

Lemma Link_jumps_witness :
  run_code 0x7f0000001000 (s_code (Link 0x7f0000001000 0x7f0000000f00 (mkSlot (replicate 12 0) 0x10074 false)))
    = Some (AJump 0x7f0000000f00) /\
  run_code 0x7f0000001000 (s_code (Link 0x7f0000001000 0x1000 (mkSlot (replicate 12 0) 0x10074 false)))
    = Some (AJump 0x1000).
Proof.
  split; [apply (Link_jumps 0x7f0000001000 0x7f0000000f00 (mkSlot (replicate 12 0) 0x10074 false))
         |apply (Link_jumps 0x7f0000001000 0x1000 (mkSlot (replicate 12 0) 0x10074 false))];
    split; vm_compute; congruence.
Defined.

(** A lazy slot calls its linker stub with a return address from which
    the stub recovers the slot: the absolute call of [LinkLazyJIT] with
    [FromCallPtrRetaddr], the table call of [LinkLazyAOT] and
    [LinkLazyLLVMAOT] with [FromCallRuntimeStubRetaddr]. *)
Theorem lazy_slot_recovered self s link_jit offs :
  in_u 64 link_jit -> in_u 16 offs ->
  (exists ra, run_code self (s_code (LinkLazyJIT link_jit s)) = Some (ACall link_jit ra) /\
     FromCallPtrRetaddr ra = self) /\
  (exists ra, run_code self (s_code (LinkLazyAOT offs s)) =
     Some (ACallTab (offs + RuntimeStubTab_offs id_link_branch_aot) ra) /\ FromCallRuntimeStubRetaddr ra = self) /\
  (exists ra, run_code self (s_code (LinkLazyLLVMAOT offs s)) =
     Some (ACallTab (offs + RuntimeStubTab_offs id_link_branch_llvmaot) ra) /\ FromCallRuntimeStubRetaddr ra = self).
Proof.
  intros Hl Ho. unfold LinkLazyJIT, LinkLazyAOT, LinkLazyLLVMAOT. cbn [CreatePatch s_code]. rewrite !run_patch.
  unfold FromCallPtrRetaddr, FromCallRuntimeStubRetaddr, sizeof_Call64Abs, sizeof_CallTab.
  change (RuntimeStubTab_offs id_link_branch_aot) with 24.
  change (RuntimeStubTab_offs id_link_branch_llvmaot) with 32.
  assert (Hd : forall k, 0 <= k <= 32 -> i32 (u32 (offs + k)) = offs + k).
  { intros k Hk. rewrite sN_uN, sN_id; [done|lia|]. unfold in_s, in_u in *. cbn. lia. }
  rewrite uN_id, !Hd by (done || lia).
  split_and!; [exists (self + 12)|exists (self + 7)|exists (self + 7)]; (split; [done|lia]).
Qed.

Lemma lazy_slot_recovered_witness :
  exists ra, run_code 0x1000 (s_code (LinkLazyAOT 144 (mkSlot (replicate 12 0) 0x10074 false))) =
     Some (ACallTab (144 + RuntimeStubTab_offs id_link_branch_aot) ra) /\ FromCallRuntimeStubRetaddr ra = 0x1000.
Proof.
  apply (lazy_slot_recovered 0x1000 (mkSlot (replicate 12 0) 0x10074 false) 0 144); split; vm_compute; congruence.
Defined.
