(* ===== verification/Tcache.v ===== *)
(** * The translation cache (src/dbt/tcache/tcache.h, tcache.cpp)

    [tcache_map] holds the translated blocks by guest address; [l1_cache] and
    [l1_brind_cache] are direct-mapped caches in front of it.  A [TBlock*] is
    an address, [tb_mem] the memory behind these addresses; a null pointer is
    [None] (0 for a code pointer).  The ordered [std::map] is a [gmap] with
    [LookupUpperBound] computed over its keys, the [std::multimap] of links a
    list sorted by key. *)

From stdpp Require Import base tactics numbers list gmap.
From S2P Require Import Prelude Common Arena GuestState Qir BranchSlot.

Definition PAGE_BITS : Z := 12.
Definition PAGE_SIZE : Z := 4096.

(** ** State *)
Record TBlock := mkTB {
  tb_ptr : Z; tb_size : Z; tb_ip : Z; is_brind_target : bool; is_segment_entry : bool }.
Definition TBlock_init : TBlock := mkTB 0 0 0 false false.

Definition L1_CACHE_BITS : Z := 12.
Definition l1_size : nat := Z.to_nat (2 ^ L1_CACHE_BITS).
Definition l1hash (ip : Z) : Z := Z.land (Z.shiftr ip 2) (2 ^ L1_CACHE_BITS - 1).
Definition l1idx (ip : Z) : nat := Z.to_nat (l1hash ip).

Definition TB_POOL_SIZE : Z := 32 * 1024 * 1024.
Definition CODE_POOL_SIZE : Z := 128 * 1024 * 1024.
Definition sizeof_TBlock : Z := 24.
Definition alignof_TBlock : Z := 8.

Record tcache := mkTC {
  l1_cache : list (option Z);
  l1_brind_cache : list (Z * Z);
  tcache_map : gmap Z Z;
  tb_pool : MemArena;
  code_pool : MemArena;
  link_map : list (Z * Z);
  tb_mem : gmap Z TBlock }.

Definition null_l1 : list (option Z) := replicate l1_size None.
Definition null_brind : list (Z * Z) := replicate l1_size (0, 0).

(** ** Life cycle *)
Definition Init (mmap_tb mmap_code : option Z) (tc : tcache) : pres tcache :=
  tp ← Arena.Init mmap_tb TB_POOL_SIZE (tb_pool tc);
  cp ← Arena.Init mmap_code CODE_POOL_SIZE (code_pool tc);
  POk (mkTC null_l1 null_brind ∅ tp cp (link_map tc) (tb_mem tc)).

Definition Destroy (munmap_tb munmap_code : bool) (tc : tcache) : pres tcache :=
  tp ← Arena.Destroy munmap_tb (tb_pool tc);
  cp ← Arena.Destroy munmap_code (code_pool tc);
  POk (mkTC null_l1 null_brind ∅ tp cp (link_map tc) (tb_mem tc)).

Definition Invalidate (tc : tcache) : tcache :=
  mkTC null_l1 null_brind ∅ (Reset (tb_pool tc)) (Reset (code_pool tc)) [] (tb_mem tc).

(** ** Blocks *)
Definition set_l1 (h : nat) (e : option Z) (tc : tcache) : tcache :=
  mkTC (<[h := e]> (l1_cache tc)) (l1_brind_cache tc) (tcache_map tc) (tb_pool tc) (code_pool tc)
    (link_map tc) (tb_mem tc).
Definition set_tb (p : Z) (t : TBlock) (tc : tcache) : tcache :=
  mkTC (l1_cache tc) (l1_brind_cache tc) (tcache_map tc) (tb_pool tc) (code_pool tc)
    (link_map tc) (<[p := t]> (tb_mem tc)).

(** [std::map::insert] keeps the entry of a present key. *)
Definition Insert (tb : Z) (tc : tcache) : pres tcache :=
  t ← pderef (tb_mem tc !! tb);
  let m := match tcache_map tc !! tb_ip t with
           | Some _ => tcache_map tc | None => <[tb_ip t := tb]> (tcache_map tc) end in
  POk (set_l1 (l1idx (tb_ip t)) (Some tb)
         (mkTC (l1_cache tc) (l1_brind_cache tc) m (tb_pool tc) (code_pool tc) (link_map tc) (tb_mem tc))).

Definition LookupFull (gip : Z) (tc : tcache) : option Z := tcache_map tc !! gip.

(** [Lookup]: the l1 entry when it is for [ip], else the map, whose answer
    refills the l1 entry. *)
Definition Lookup (ip : Z) (tc : tcache) : pres (option Z * tcache) :=
  let full := match LookupFull ip tc with
              | Some tb => POk (Some tb, set_l1 (l1idx ip) (Some tb) tc)
              | None => POk (None, tc)
              end in
  match mjoin (l1_cache tc !! l1idx ip) with
  | Some tb => t ← pderef (tb_mem tc !! tb); if tb_ip t =? ip then POk (Some tb, tc) else full
  | None => full
  end.

(** [LookupFast] dereferences its entry without a test. *)
Definition LookupFast (ip : Z) (tc : tcache) : pres (option Z) :=
  tb ← pderef (mjoin (l1_cache tc !! l1idx ip));
  t ← pderef (tb_mem tc !! tb);
  POk (if tb_ip t =? ip then Some tb else None).

(** [std::map::upper_bound]: the entry with the least key above [gip]. *)
Definition upper_step (gip : Z) (k v : Z) (acc : option (Z * Z)) : option (Z * Z) :=
  if gip <? k then
    match acc with Some (k', v') => if k <? k' then Some (k, v) else acc | None => Some (k, v) end
  else acc.
Definition upper_bound (gip : Z) (m : gmap Z Z) : option (Z * Z) := map_fold (upper_step gip) None m.
Definition LookupUpperBound (gip : Z) (tc : tcache) : option Z := snd <$> upper_bound gip (tcache_map tc).

Definition CacheBrind (tb : Z) (tc : tcache) : pres tcache :=
  t ← pderef (tb_mem tc !! tb);
  POk (set_tb tb (mkTB (tb_ptr t) (tb_size t) (tb_ip t) true (is_segment_entry t))
    (mkTC (l1_cache tc) (<[l1idx (tb_ip t) := (tb_ip t, tb_ptr t)]> (l1_brind_cache tc)) (tcache_map tc)
       (tb_pool tc) (code_pool tc) (link_map tc) (tb_mem tc))).

(** [std::multimap::insert]: behind the entries with the same key. *)
Fixpoint mm_insert (k v : Z) (l : list (Z * Z)) : list (Z * Z) :=
  match l with
  | [] => [(k, v)]
  | (k', v') :: l' => if k' <=? k then (k', v') :: mm_insert k v l' else (k, v) :: l
  end.

Definition RecordLink (slot tgt : Z) (cross_segment : bool) (tc : tcache) : pres tcache :=
  t ← pderef (tb_mem tc !! tgt);
  POk (set_tb tgt (mkTB (tb_ptr t) (tb_size t) (tb_ip t) (is_brind_target t) (is_segment_entry t || cross_segment))
    (mkTC (l1_cache tc) (l1_brind_cache tc) (tcache_map tc) (tb_pool tc) (code_pool tc)
       (mm_insert (tb_ip t) slot (link_map tc)) (tb_mem tc))).

(** ** Pools: on exhaustion everything is invalidated *)
Definition AllocateCode (code_sz align : Z) (tc : tcache) : option Z * tcache :=
  let '(res, cp) := Allocate code_sz align (code_pool tc) in
  let tc := mkTC (l1_cache tc) (l1_brind_cache tc) (tcache_map tc) (tb_pool tc) cp (link_map tc) (tb_mem tc) in
  match res with Some _ => (res, tc) | None => (res, Invalidate tc) end.

(** The object is constructed at [res] also when [res] is null. *)
Definition AllocateTBlock (tc : tcache) : pres (Z * tcache) :=
  let '(res, tp) := Allocate_T sizeof_TBlock alignof_TBlock 1 (tb_pool tc) in
  let tc := mkTC (l1_cache tc) (l1_brind_cache tc) (tcache_map tc) tp (code_pool tc) (link_map tc) (tb_mem tc) in
  match res with Some p => POk (p, set_tb p TBlock_init tc) | None => PPanic end.

(** ** [InvalidatePage]

    Both map loops start at [upper_bound(pvaddr)] and read [it->first] without
    a test for the end; the loop over [l1_cache] reads [e->ip] of every entry. *)
Fixpoint invalidate_links (lim link_jit : Z) (l : list (Z * Z)) (slots : gmap Z BranchSlot)
  : pres (list (Z * Z) * gmap Z BranchSlot) :=
  match l with
  | [] => PPanic
  | (k, s) :: l' =>
      if k <? lim then
        sl ← pderef (slots !! s); invalidate_links lim link_jit l' (<[s := LinkLazyJIT link_jit sl]> slots)
      else POk (l, slots)
  end.

Definition in_page (pvaddr ip : Z) : bool := rounddown 32 64 ip PAGE_SIZE =? pvaddr.

Definition invalidate_l1 (pvaddr : Z) (mem : gmap Z TBlock) (e : option Z) : pres (option Z) :=
  tb ← pderef e; t ← pderef (mem !! tb); POk (if in_page pvaddr (tb_ip t) then None else e).

Fixpoint pmap {A B} (f : A -> pres B) (l : list A) : pres (list B) :=
  match l with [] => POk [] | a :: l => b ← f a; bs ← pmap f l; POk (b :: bs) end.

Definition InvalidatePage (link_jit pvaddr : Z) (tc : tcache) (slots : gmap Z BranchSlot)
  : pres (tcache * gmap Z BranchSlot) :=
  passert (rounddown 32 64 pvaddr PAGE_SIZE =? pvaddr);;
  let lim := pvaddr + PAGE_SIZE in
  let keep := List.filter (fun e : Z * Z => e.1 <=? pvaddr) (link_map tc) in
  '(links, slots) ← invalidate_links lim link_jit
     (List.filter (fun e : Z * Z => pvaddr <? e.1) (link_map tc)) slots;
  passert (bool_decide (map_Exists (fun k _ => lim <= k) (tcache_map tc)));;
  l1 ← pmap (invalidate_l1 pvaddr (tb_mem tc)) (l1_cache tc);
  POk (mkTC l1
         (map (fun e : Z * Z => if in_page pvaddr e.1 then (0, 0) else e) (l1_brind_cache tc))
         (filter (fun e => ~ (pvaddr < e.1 < lim)) (tcache_map tc))
         (tb_pool tc) (code_pool tc) (keep ++ links) (tb_mem tc),
       slots).

(** ** Invariant

    [comp p gip]: the code at host address [p] was generated for [gip]. *)
Section inv.
Context (comp : Z -> Z -> Prop).

Definition live (tc : tcache) (tb ip : Z) : Prop :=
  exists t, tb_mem tc !! tb = Some t /\ tb_ip t = ip /\ comp (tb_ptr t) ip /\
    pool (tb_pool tc) <= tb /\ tb + sizeof_TBlock <= pool (tb_pool tc) + used (tb_pool tc).

Record tc_inv (tc : tcache) : Prop := {
  ti_l1len : length (l1_cache tc) = l1_size;
  ti_brlen : length (l1_brind_cache tc) = l1_size;
  ti_map : forall ip tb, tcache_map tc !! ip = Some tb -> live tc tb ip;
  ti_l1 : forall h tb, l1_cache tc !! h = Some (Some tb) ->
            exists ip, h = l1idx ip /\ tcache_map tc !! ip = Some tb;
  ti_brind : forall h g c, l1_brind_cache tc !! h = Some (g, c) -> (g = 0 /\ c = 0) \/ (h = l1idx g /\ comp c g);
  ti_tbpool : arena_wf (tb_pool tc);
  ti_codepool : arena_wf (code_pool tc) }.

Lemma l1idx_lt ip : (l1idx ip < l1_size)%nat.
Proof.
  unfold l1idx, l1hash, l1_size, L1_CACHE_BITS. change (2 ^ 12 - 1) with (Z.ones 12).
  rewrite Z.land_ones by lia. pose proof (Z.mod_pos_bound (Z.shiftr ip 2) (2 ^ 12) ltac:(lia)). lia.
Qed.

Lemma null_inv tc :
  l1_cache tc = null_l1 -> l1_brind_cache tc = null_brind -> tcache_map tc = ∅ ->
  arena_wf (tb_pool tc) -> arena_wf (code_pool tc) -> tc_inv tc.
Proof.
  intros H1 H2 H3 H4 H5. split; rewrite ?H1, ?H2, ?H3; try done.
  - intros h tb [H _]%lookup_replicate. done.
  - intros h g c [[= -> ->] _]%lookup_replicate. by left.
Qed.

Lemma Init_inv mt mc tc tc' : Init mt mc tc = POk tc' -> tc_inv tc'.
Proof.
  unfold Init. intros (tp & E1 & (cp & E2 & [= <-])%pbind_ok)%pbind_ok.
  assert (Hw : forall m sz a a', 0 <= sz <= 2 ^ 62 -> Arena.Init m sz a = POk a' -> arena_wf a').
  { intros [p|] sz a a' Hs E; [by apply (Init_wf p sz a a' Hs E)|].
    unfold Arena.Init, passert in E. by destruct (pool a =? 0). }
  apply null_inv; [reflexivity..| |]; cbn [tb_pool code_pool].
  - apply (Hw mt TB_POOL_SIZE (tb_pool tc)); [unfold TB_POOL_SIZE; lia|exact E1].
  - apply (Hw mc CODE_POOL_SIZE (code_pool tc)); [unfold CODE_POOL_SIZE; lia|exact E2].
Qed.

Lemma Invalidate_inv tc : tc_inv tc -> tc_inv (Invalidate tc).
Proof. intros []. apply null_inv; [reflexivity..| |]; by apply Reset_wf. Qed.

Lemma set_l1_inv ip tb tc :
  tc_inv tc -> tcache_map tc !! ip = Some tb -> tc_inv (set_l1 (l1idx ip) (Some tb) tc).
Proof.
  intros [i1 i2 i3 i4 i5 i6 i7] Hm. split; try done; cbn.
  - by rewrite length_insert.
  - intros h tb' [(<- & [= <-] & _)|[_ H]]%list_lookup_insert_Some; [by exists ip|by apply i4].
Qed.

(** What [Lookup] may change. *)
Definition only_l1 (tc tc' : tcache) : Prop := exists l, tc' =
  mkTC l (l1_brind_cache tc) (tcache_map tc) (tb_pool tc) (code_pool tc) (link_map tc) (tb_mem tc).

Lemma Lookup_spec ip tc :
  tc_inv tc ->
  exists tc', Lookup ip tc = POk (tcache_map tc !! ip, tc') /\ tc_inv tc' /\ only_l1 tc tc'.
Proof.
  intros HI. unfold Lookup, LookupFull.
  assert (Hfull : exists tc', match tcache_map tc !! ip with
      | Some tb => POk (Some tb, set_l1 (l1idx ip) (Some tb) tc)
      | None => POk (None, tc) end = POk (tcache_map tc !! ip, tc') /\ tc_inv tc' /\ only_l1 tc tc').
  { destruct (tcache_map tc !! ip) as [tb|] eqn:E.
    - eexists. split; [done|]. split; [by apply set_l1_inv|]. by eexists.
    - exists tc. split; [done|]. split; [done|]. exists (l1_cache tc). by destruct tc. }
  destruct (l1_cache tc !! l1idx ip) as [[tb|]|] eqn:E; [|exact Hfull..]. cbn [mjoin option_join].
  destruct (ti_l1 _ HI _ _ E) as (ip' & Hh & Hm).
  destruct (ti_map _ HI _ _ Hm) as (t & Ht & Hip & _). rewrite Ht. cbn [pderef mbind pres_bind].
  destruct (Z.eqb_spec (tb_ip t) ip) as [E2|]; [|exact Hfull].
  exists tc. assert (ip' = ip) as -> by congruence. rewrite Hm. split; [done|]. split; [done|].
  exists (l1_cache tc). by destruct tc.
Qed.

(** C25 [Lookup] is the lookup in the block map: the direct-mapped cache in
    front of it never answers with another block, never hides one, and is
    refilled consistently; only the cache changes. *)
Theorem Lookup_refines ip tc :
  tc_inv tc ->
  exists tc', Lookup ip tc = POk (tcache_map tc !! ip, tc') /\ tc_inv tc' /\ only_l1 tc tc'.
Proof. apply Lookup_spec. Qed.

Lemma set_tb_inv tb t t' tc br links :
  tc_inv tc -> tb_mem tc !! tb = Some t -> tb_ip t' = tb_ip t -> tb_ptr t' = tb_ptr t ->
  length br = l1_size ->
  (forall h g c, br !! h = Some (g, c) -> (g = 0 /\ c = 0) \/ (h = l1idx g /\ comp c g)) ->
  tc_inv (set_tb tb t' (mkTC (l1_cache tc) br (tcache_map tc) (tb_pool tc) (code_pool tc) links (tb_mem tc))).
Proof.
  intros [i1 i2 i3 i4 i5 i6 i7] Ht E1 E2 Hl Hbr. split; try done.
  intros ip tb0 Hm. destruct (i3 ip tb0 Hm) as (t0 & Ht0 & Hip & Hc & Hr).
  unfold live. cbn [set_tb tb_mem tb_pool]. destruct (decide (tb = tb0)) as [->|Hne].
  - rewrite Ht in Ht0. injection Ht0 as <-. exists t'. rewrite lookup_insert_eq.
    split_and!; try done; [congruence|by rewrite E2|apply Hr|apply Hr].
  - exists t0. by rewrite lookup_insert_ne.
Qed.

Lemma CacheBrind_inv tb ip tc :
  tc_inv tc -> live tc tb ip ->
  exists tc', CacheBrind tb tc = POk tc' /\ tc_inv tc' /\ tcache_map tc' = tcache_map tc /\
    code_pool tc' = code_pool tc /\ tb_pool tc' = tb_pool tc.
Proof.
  intros HI (t & Ht & Hip & Hc & _). unfold CacheBrind. rewrite Ht. cbn [pderef mbind pres_bind].
  eexists. split; [done|]. split; [|done]. eapply set_tb_inv; try done.
  - rewrite length_insert. by apply ti_brlen.
  - intros h g c [(<- & [= <- <-] & _)|[_ H]]%list_lookup_insert_Some.
    + right. split; [done|]. by rewrite Hip.
    + by apply (ti_brind _ HI).
Qed.

Lemma RecordLink_inv slot tb ip cross tc :
  tc_inv tc -> live tc tb ip ->
  exists tc', RecordLink slot tb cross tc = POk tc' /\ tc_inv tc' /\ tcache_map tc' = tcache_map tc /\
    code_pool tc' = code_pool tc /\ tb_pool tc' = tb_pool tc /\ l1_brind_cache tc' = l1_brind_cache tc.
Proof.
  intros HI (t & Ht & _). unfold RecordLink. rewrite Ht. cbn [pderef mbind pres_bind].
  eexists. split; [done|]. split; [|done]. eapply set_tb_inv; try done; [by apply ti_brlen|by apply ti_brind].
Qed.

(** A fresh block: its memory is behind all blocks in use. *)
Lemma AllocateTBlock_inv tc :
  tc_inv tc ->
  match AllocateTBlock tc with
  | POk (p, tc') => tc_inv tc' /\ tb_mem tc' !! p = Some TBlock_init /\ tcache_map tc' = tcache_map tc /\
      code_pool tc' = code_pool tc /\ l1_brind_cache tc' = l1_brind_cache tc /\
      pool (tb_pool tc') <= p /\ p + sizeof_TBlock <= pool (tb_pool tc') + used (tb_pool tc') /\
      (forall ip tb, tcache_map tc !! ip = Some tb -> tb <> p)
  | PPanic => pool_sz (tb_pool tc) < used (tb_pool tc) + alignof_TBlock + sizeof_TBlock
  end.
Proof.
  intros [i1 i2 i3 i4 i5 i6 i7]. unfold AllocateTBlock, Allocate_T. change (u64 (sizeof_TBlock * 1)) with 24.
  pose proof (Allocate_spec 24 alignof_TBlock (tb_pool tc) i6) as HA.
  pose proof (Allocate_wf 24 alignof_TBlock (tb_pool tc) i6) as Hw.
  assert (Hreq : req_ok (24, alignof_TBlock)) by (unfold alignof_TBlock; split; cbn; lia).
  specialize (HA Hreq). specialize (Hw Hreq).
  destruct (Allocate 24 alignof_TBlock (tb_pool tc)) as [[p|] tp]; [|unfold sizeof_TBlock; lia].
  destruct HA as (st & -> & Hst & _ & Hle & ->). cbn [snd] in Hw. destruct i6 as [Hu _].
  assert (Hne : forall ip tb, tcache_map tc !! ip = Some tb -> tb <> pool (tb_pool tc) + st).
  { intros ip tb Hm ->. destruct (i3 _ _ Hm) as (t & _ & _ & _ & _ & H). unfold sizeof_TBlock in H. lia. }
  split_and!; try done; cbn.
  - split; try done; cbn.
    intros ip tb Hm. destruct (i3 _ _ Hm) as (t & Ht & Hip & Hc & H1 & H2). exists t. cbn.
    rewrite lookup_insert_ne by (intros E; by apply (Hne _ _ Hm)). split_and!; try done.
    unfold sizeof_TBlock in *. lia.
  - by rewrite lookup_insert_eq.
  - lia.
  - unfold sizeof_TBlock. lia.
Qed.

(** [Insert] of a filled block at an address without one. *)
Lemma Insert_inv tb t tc :
  tc_inv tc -> tb_mem tc !! tb = Some t -> comp (tb_ptr t) (tb_ip t) ->
  pool (tb_pool tc) <= tb -> tb + sizeof_TBlock <= pool (tb_pool tc) + used (tb_pool tc) ->
  tcache_map tc !! tb_ip t = None ->
  exists tc', Insert tb tc = POk tc' /\ tc_inv tc' /\ tcache_map tc' = <[tb_ip t := tb]> (tcache_map tc) /\
    code_pool tc' = code_pool tc /\ l1_brind_cache tc' = l1_brind_cache tc.
Proof.
  intros [i1 i2 i3 i4 i5 i6 i7] Ht Hc H1 H2 Hn. unfold Insert. rewrite Ht. cbn [pderef mbind pres_bind].
  rewrite Hn. eexists. split; [done|]. split; [|done].
  apply set_l1_inv; [|cbn; by rewrite lookup_insert_eq]. split; try done; cbn.
  - intros ip tb' [[<- <-]|[_ Hm]]%lookup_insert_Some; [by exists t|].
    destruct (i3 _ _ Hm) as (t' & ?). by exists t'.
  - intros h tb' Hh. destruct (i4 _ _ Hh) as (ip & -> & Hm). exists ip. split; [done|].
    rewrite lookup_insert_ne; [done|]. intros <-. by rewrite Hn in Hm.
Qed.

(** A block that is not in use yet may be filled. *)
Lemma fill_inv tb t tc :
  tc_inv tc -> (forall ip tb', tcache_map tc !! ip = Some tb' -> tb' <> tb) -> tc_inv (set_tb tb t tc).
Proof.
  intros [i1 i2 i3 i4 i5 i6 i7] Hne. split; try done.
  intros ip tb' Hm. destruct (i3 _ _ Hm) as (t' & Ht & ?). exists t'. cbn.
  rewrite lookup_insert_ne by (intros E; by apply (Hne _ _ Hm)). done.
Qed.

Lemma AllocateCode_inv sz tc :
  tc_inv tc -> 0 <= sz <= 2 ^ 32 ->
  match AllocateCode sz 8 tc with
  | (Some p, tc') => tc_inv tc' /\ tcache_map tc' = tcache_map tc /\ l1_brind_cache tc' = l1_brind_cache tc /\
      tb_mem tc' = tb_mem tc /\ tb_pool tc' = tb_pool tc /\ pool (code_pool tc') = pool (code_pool tc) /\
      pool_sz (code_pool tc') = pool_sz (code_pool tc) /\ pool (code_pool tc) + used (code_pool tc) <= p /\
      p + sz = pool (code_pool tc') + used (code_pool tc')
  | (None, tc') => tc' = Invalidate tc /\ pool_sz (code_pool tc) < used (code_pool tc) + 8 + sz
  end.
Proof.
  intros [i1 i2 i3 i4 i5 i6 i7] Hs. unfold AllocateCode.
  pose proof (Allocate_spec sz 8 (code_pool tc) i7 ltac:(split; cbn; lia)) as HA.
  pose proof (Allocate_wf sz 8 (code_pool tc) i7 ltac:(split; cbn; lia)) as Hw.
  destruct (Allocate sz 8 (code_pool tc)) as [[p|] cp]; cbn [snd] in Hw.
  - destruct HA as (st & -> & ? & _ & ? & ->). split_and!; try done; cbn; lia.
  - destruct HA as [-> ?]. split; [by destruct tc|done].
Qed.
End inv.

(** ** [LookupUpperBound] *)

(** [LookupUpperBound] returns the block with the least address above
    [gip], and null exactly when there is none: the next translation never
    runs into an existing block. *)
Lemma LookupUpperBound_spec gip tc :
  match LookupUpperBound gip tc with
  | Some tb => exists k, tcache_map tc !! k = Some tb /\ gip < k /\
      forall k', is_Some (tcache_map tc !! k') -> gip < k' -> k <= k'
  | None => forall k', is_Some (tcache_map tc !! k') -> k' <= gip
  end.
Proof.
  unfold LookupUpperBound, upper_bound. generalize (tcache_map tc). intros m.
  enough (H : match map_fold (upper_step gip) None m with
    | Some (k, v) => m !! k = Some v /\ gip < k /\ forall k', is_Some (m !! k') -> gip < k' -> k <= k'
    | None => forall k', is_Some (m !! k') -> k' <= gip end).
  { destruct (map_fold (upper_step gip) None m) as [[k v]|]; cbn; [by exists k|done]. }
  apply (map_fold_weak_ind (fun acc m => match acc with
    | Some (k, v) => m !! k = Some v /\ gip < k /\ forall k', is_Some (m !! k') -> gip < k' -> k <= k'
    | None => forall k', is_Some (m !! k') -> k' <= gip end)).
  - intros k'. rewrite lookup_empty. by intros [? ?].
  - intros k v m' acc Hn IH. unfold upper_step. destruct (Z.ltb_spec gip k).
    + destruct acc as [[k0 v0]|].
      * destruct IH as (I1 & I2 & I3). destruct (Z.ltb_spec k k0).
        -- split_and!; [by rewrite lookup_insert_eq|done|]. intros k'. destruct (decide (k' = k)) as [->|]; [lia|].
           rewrite lookup_insert_ne by done. intros Hk Hg. specialize (I3 k' Hk Hg). lia.
        -- split_and!; [rewrite lookup_insert_ne; [done|congruence]|done|]. intros k'.
           destruct (decide (k' = k)) as [->|]; [lia|]. rewrite lookup_insert_ne by done. apply I3.
      * split_and!; [by rewrite lookup_insert_eq|done|]. intros k'. destruct (decide (k' = k)) as [->|]; [lia|].
        rewrite lookup_insert_ne by done. intros Hk ?. specialize (IH k' Hk). lia.
    + destruct acc as [[k0 v0]|].
      * destruct IH as (I1 & I2 & I3). split_and!; [|done|].
        -- rewrite lookup_insert_ne; [done|]. intros ->. lia.
        -- intros k'. destruct (decide (k' = k)) as [->|]; [lia|]. rewrite lookup_insert_ne by done. apply I3.
      * intros k'. destruct (decide (k' = k)) as [->|]; [done|]. rewrite lookup_insert_ne by done. apply IH.
Qed.

(** ** [InvalidatePage] *)

(** [InvalidatePage] cannot be used on a cache with an empty l1 entry: it
    reads the address of the block behind every entry, or has run past the end
    of a map before. *)
Theorem InvalidatePage_null_l1 link_jit pvaddr tc slots :
  None ∈ l1_cache tc -> InvalidatePage link_jit pvaddr tc slots = PPanic.
Proof.
  intros Hn. unfold InvalidatePage.
  assert (Hp : pmap (invalidate_l1 pvaddr (tb_mem tc)) (l1_cache tc) = PPanic).
  { induction (l1_cache tc) as [|e l IH]; [by apply elem_of_nil in Hn|]. cbn [pmap].
    apply elem_of_cons in Hn as [<-|Hn]; [done|].
    destruct (invalidate_l1 pvaddr (tb_mem tc) e); cbn; [by rewrite IH|done]. }
  destruct (passert (rounddown _ _ _ _ =? _)); cbn; [|done].
  destruct (invalidate_links _ _ _ _) as [[links slots']|]; cbn; [|done].
  destruct (passert (bool_decide _)); cbn; [|done]. by rewrite Hp.
Qed.

(** ** An initialised cache *)
Definition demo_tc : tcache :=
  match Init (Some 0x10000000) (Some 0x20000000) (mkTC [] [] ∅ MemArena_init MemArena_init [] ∅) with
  | POk tc => tc
  | PPanic => mkTC [] [] ∅ MemArena_init MemArena_init [] ∅
  end.

Lemma demo_tc_init :
  Init (Some 0x10000000) (Some 0x20000000) (mkTC [] [] ∅ MemArena_init MemArena_init [] ∅) = POk demo_tc.
Proof. reflexivity. Qed.

Lemma Lookup_refines_witness : exists tc', Lookup 0x10074 demo_tc = POk (None, tc').
Proof.
  destruct (Lookup_refines (fun _ _ => True) 0x10074 demo_tc) as (tc' & E & _).
  - exact (Init_inv _ _ _ _ _ demo_tc_init).
  - exists tc'. exact E.
Defined.

Lemma InvalidatePage_null_l1_witness : InvalidatePage 0 0x10000 demo_tc ∅ = PPanic.
Proof.
  apply (InvalidatePage_null_l1 0 0x10000 demo_tc ∅).
  unfold demo_tc. cbn [Init l1_cache]. apply (list_elem_of_lookup_2 _ 0%nat). reflexivity.
Defined.
