(* ===== verification/Execute.v ===== *)
(** * The execution loop (src/dbt/execute.cpp, src/dbt/qmc/qcg/jitabi.cpp)

    [Execute] looks a block up, compiles it when it is missing, links the
    branch through which control came and enters the generated code; generated
    code leaves through a branch slot, through the inlined indirect-branch
    cache or by a trap, and the stubs [TryLinkBranch] and [qcgstub_brind]
    decide where it goes on.  A compilation job is an ip range and the guest
    memory at the time ([CompilerJob] takes [mmu::base]): the code generated
    for it is a function of both.  Code generation is a parameter:
    [compiles j] says whether code is generated for the job [j], [run j g]
    what that code does to the guest state ([None] while it has not come to
    its end), [code_size j] is its size and [code_slots j] its branch slots
    (offset, guest target).  Code stays what it was generated from: nothing
    looks at the guest memory again before generated code is entered. *)

From stdpp Require Import base tactics numbers list gmap.
From S2P Require Import Prelude Common Arena GuestState Qir BranchSlot Tcache.

Abbreviation guest := (CPUState * mem)%type.

(** How generated code is left: a branch slot, an indirect branch, a trap (the
    unwinding [siglongjmp]), a memory fault; [XWild] is anything else. *)
Inductive rexit :=
| XSlot (k : nat) (g : guest)
| XBrind (tgt : Z) (g : guest)
| XTrap (g : guest)
| XFault (g : guest)
| XWild.

Abbreviation IpRange := (Z * Z)%type.
(** [qir::CompilerJob]: the range and the guest memory behind [mmu::base]. *)
Abbreviation Job := (IpRange * mem)%type.

(** ** [CodeSegment] (src/dbt/qmc/compile.h) *)
Record CodeSegment := mkSegment { gip_base : Z; seg_size : Z }.
Definition InSegment (seg : CodeSegment) (gip : Z) : bool := u32 (gip - gip_base seg) <? seg_size seg.

(** Host memory of the generated code: the slots by address, and by entry
    address the job whose code is there. *)
Record world := mkW { w_tc : tcache; w_slots : gmap Z BranchSlot; w_code : gmap Z Job }.
Definition set_tc (tc : tcache) (w : world) : world := mkW tc (w_slots w) (w_code w).

Definition HandleTrap (c : CPUState) : bool := negb (IsTrapPending c).

(** [roundup] keeps a page-aligned address, and the page end of the last page
    is 0. *)
Definition GetCompilationIPRange (ip : Z) (tc : tcache) : pres IpRange :=
  let upper := roundup 32 64 ip PAGE_SIZE in
  match LookupUpperBound ip tc with
  | Some tb => t ← pderef (tb_mem tc !! tb); POk (ip, Z.min upper (tb_ip t))
  | None => POk (ip, upper)
  end.

Section machine.
Context (run : Job -> guest -> option rexit) (compiles : Job -> bool) (code_size : Job -> Z) (code_slots : Job -> list (Z * Z)).
(** The stub [id_link_branch_jit]. *)
Context (link_jit : Z).

(** ** Code generation for the JIT *)
Fixpoint write_slots (p : Z) (seg : CodeSegment) (l : list (Z * Z)) (slots : gmap Z BranchSlot) : gmap Z BranchSlot :=
  match l with
  | [] => slots
  | (off, tgt) :: l =>
      write_slots p seg l
        (<[p + off := LinkLazyJIT link_jit (mkSlot (replicate sizeof_code 0) tgt (negb (InSegment seg tgt)))]> slots)
  end.

(** The translation of the range and [GenerateCode] up to [EmitCode]. *)
Definition GenerateCode (seg : CodeSegment) (j : Job) (w : world) : pres (Z * world) :=
  passert (compiles j);;
  match AllocateCode (code_size j) 8 (w_tc w) with
  | (None, _) => PPanic
  | (Some p, tc) => POk (p, mkW tc (write_slots p seg (code_slots j) (w_slots w)) (<[p := j]> (w_code w)))
  end.

(** [JITCompilerRuntime::AnnounceRegion]. *)
Definition AnnounceRegion (ip code size : Z) (w : world) : pres (Z * world) :=
  '(tb, tc) ← AllocateTBlock (w_tc w);
  tc ← Insert tb (set_tb tb (mkTB code size ip false false) tc);
  POk (tb, set_tc tc w).

Definition CompilerDoJob (seg : CodeSegment) (j : Job) (w : world) : pres (Z * world) :=
  '(code, w) ← GenerateCode seg j w;
  AnnounceRegion j.1.1 code (code_size j) w.

(** ** Stubs called from generated code

    Control is in the loop, in generated code, returned to the kernel, or in
    the signal handler. *)
Inductive jstate :=
| JLoop (branch_slot : option Z) (g : guest)
| JCode (p : Z) (g : guest)
| JDone (g : guest)
| JFault (g : guest).

Definition g_set_ip (v : Z) (g : guest) : guest := (set_ip v g.1, g.2).

Definition TryLinkBranch (slot : Z) (g : guest) (w : world) : pres (world * jstate) :=
  sl ← pderef (w_slots w !! slot);
  '(found, tc) ← Lookup (s_gip sl) (w_tc w);
  match found with
  | Some tb =>
      t ← pderef (tb_mem tc !! tb);
      tc ← RecordLink slot tb (s_cross_segment sl) tc;
      POk (mkW tc (<[slot := Link slot (tb_ptr t) sl]> (w_slots w)) (w_code w), JCode (tb_ptr t) g)
  | None => POk (set_tc tc w, JLoop (Some slot) (g_set_ip (s_gip sl) g))
  end.

Definition qcgstub_brind (gip : Z) (g : guest) (w : world) : pres (world * jstate) :=
  let g := g_set_ip gip g in
  '(found, tc) ← Lookup gip (w_tc w);
  match found with
  | Some tb =>
      tc ← CacheBrind tb tc;
      t ← pderef (tb_mem tc !! tb);
      POk (set_tc tc w, JCode (tb_ptr t) g)
  | None => POk (set_tc tc w, JLoop None g)
  end.

(** The lookup [Emit_gbrind] inlines in front of the stub call. *)
Definition brind_inlined (gip : Z) (g : guest) (w : world) : pres (world * jstate) :=
  match l1_brind_cache (w_tc w) !! l1idx gip with
  | Some (cgip, code) => if cgip =? gip then POk (w, JCode code g) else qcgstub_brind gip g w
  | None => PPanic
  end.

(** ** [Execute]

    [m] is the guest memory when the loop comes to compile. *)
Definition find_or_compile (ip : Z) (m : mem) (w : world) : pres (Z * world) :=
  '(found, tc) ← Lookup ip (w_tc w);
  match found with
  | Some tb => POk (tb, set_tc tc w)
  | None =>
      r ← GetCompilationIPRange ip tc;
      CompilerDoJob (mkSegment (rounddown 32 64 ip PAGE_SIZE) PAGE_SIZE) (r, m) (set_tc tc w)
  end.

Definition link_or_cache (branch_slot : option Z) (tb : Z) (w : world) : pres world :=
  match branch_slot with
  | Some s =>
      sl ← pderef (w_slots w !! s);
      t ← pderef (tb_mem (w_tc w) !! tb);
      tc ← RecordLink s tb (s_cross_segment sl) (w_tc w);
      POk (mkW tc (<[s := Link s (tb_ptr t) sl]> (w_slots w)) (w_code w))
  | None => tc ← CacheBrind tb (w_tc w); POk (set_tc tc w)
  end.

Definition slot_matches (branch_slot : option Z) (ip : Z) (w : world) : pres bool :=
  match branch_slot with
  | Some s => sl ← pderef (w_slots w !! s); POk (s_gip sl =? ip)
  | None => POk true
  end.

(** Where control goes when the code of [j] at [p] is left. *)
Definition leave_code (j : Job) (p : Z) (x : rexit) (w : world) : pres (world * jstate) :=
  match x with
  | XWild => PPanic
  | XFault g => POk (w, JFault g)
  | XTrap g => POk (w, JLoop None g)
  | XBrind tgt g => brind_inlined tgt g w
  | XSlot k g =>
      '(off, _) ← pderef (code_slots j !! k);
      sl ← pderef (w_slots w !! (p + off));
      match run_code (p + off) (s_code sl) with
      | Some (AJump q) => POk (w, JCode q g)
      | Some (ACall f ra) => passert (f =? link_jit);; TryLinkBranch (FromCallPtrRetaddr ra) g w
      | _ => PPanic
      end
  end.

(** One turn of the loop, one run of generated code. *)
Definition jstep (w : world) (js : jstate) : pres (world * jstate) :=
  match js with
  | JDone _ | JFault _ => POk (w, js)
  | JLoop branch_slot g =>
      if HandleTrap g.1 then POk (w, JDone g)
      else
        passert (get_gpr g.1 0 =? 0);;
        m ← slot_matches branch_slot (ip g.1) w;
        passert m;;
        '(tb, w) ← find_or_compile (ip g.1) g.2 w;
        w ← link_or_cache branch_slot tb w;
        t ← pderef (tb_mem (w_tc w) !! tb);
        POk (w, JCode (tb_ptr t) g)
  | JCode p g =>
      j ← pderef (w_code w !! p);
      match run j g with
      | None => POk (w, js)
      | Some x => leave_code j p x w
      end
  end.

Fixpoint jsteps (n : nat) (w : world) (js : jstate) : pres (world * jstate) :=
  match n with
  | O => POk (w, js)
  | S n => '(w, js) ← jstep w js; jsteps n w js
  end.
End machine.
