(* ===== verification/ExecuteProofs.v ===== *)
(** * Correctness of the execution loop

    Against two interfaces: [CodeGen], the layout the code generator keeps,
    and [RegionSound], that generated code does what the guest does; both are
    about the jobs [good] admits, which all jobs of the loop are.  The
    invariant [w_inv] says that every pointer through which control can flow,
    in the block map, in the two caches and in every linked branch slot, leads
    to code generated for the guest address that is meant. *)

From stdpp Require Import base tactics numbers list gmap.
From S2P Require Import Prelude Common Arena GuestState Qir BranchSlot Tcache Execute.

Class CodeGen (good : Job -> Prop) (code_size : Job -> Z) (code_slots : Job -> list (Z * Z)) (link_jit : Z) : Prop := {
  cg_size : forall j, good j -> 0 < code_size j <= 2 ^ 32;
  cg_slots : forall j k off tgt, good j -> code_slots j !! k = Some (off, tgt) ->
               0 <= off /\ off + sizeof_BranchSlot <= code_size j;
  cg_nodup : forall j, good j -> NoDup (code_slots j).*1;
  cg_link : in_u 64 link_jit }.

(** Guest states between regions. *)
Definition running (g : guest) : Prop := trapno g.1 = NONE /\ get_gpr g.1 0 = 0 /\ in_u 32 (ip g.1).

(** The law of generated code, against what the guest does from its start:
    [reach g] the guest gets to [g], the [ip] field being its program counter,
    [traps g] it gets to a trap that leaves [g], [faults g] to a memory
    fault. *)
Section sound.
Context (good : Job -> Prop) (code_slots : Job -> list (Z * Z)) (reach traps faults : guest -> Prop).
(** An exit of the code of [j] that goes where the guest goes. *)
Definition exit_ok (j : Job) (x : rexit) : Prop :=
  match x with
  | XSlot k g => running g /\ exists off tgt, code_slots j !! k = Some (off, tgt) /\ reach (g_set_ip tgt g)
  | XBrind tgt g => running g /\ reach (g_set_ip tgt g)
  | XTrap g => trapno g.1 <> NONE /\ traps g
  | XFault g => faults g
  | XWild => False
  end.
(** The jobs [Execute] starts while the guest is at [g]. *)
Definition job_of (g : guest) (j : Job) : Prop :=
  j.1.1 = ip g.1 /\ j.1.2 <= roundup 32 64 (ip g.1) PAGE_SIZE /\ j.2 = g.2.
Class RegionSound (run : Job -> guest -> option rexit) : Prop := {
  rs_running : forall g, reach g -> running g;
  rs_good : forall g j, reach g -> job_of g j -> good j;
  rs_exit : forall pc up m g x, good (pc, up, m) -> running g -> reach (g_set_ip pc g) -> run (pc, up, m) g = Some x ->
    exit_ok (pc, up, m) x }.
End sound.

(** ** The block cache under a growing set of generated code *)
Lemma tc_inv_mono (c c' : Z -> Z -> Prop) tc : (forall p g, c p g -> c' p g) -> tc_inv c tc -> tc_inv c' tc.
Proof.
  intros Hc [i1 i2 i3 i4 i5 i6 i7]. split; try done.
  - intros ip tb Hm. destruct (i3 ip tb Hm) as (t & ? & ? & ? & ?). exists t. auto.
  - intros h g x Hh. destruct (i5 h g x Hh) as [?|[? ?]]; auto.
Qed.

Section proofs.
Context (run : Job -> guest -> option rexit) (compiles : Job -> bool).
Context (good : Job -> Prop) (code_size : Job -> Z) (code_slots : Job -> list (Z * Z)).
Context (link_jit : Z) (reach traps faults : guest -> Prop).
Context `{CG : !CodeGen good code_size code_slots link_jit} `{RS : !RegionSound good code_slots reach traps faults run}.

Definition comp (w : world) (p gip : Z) : Prop := exists up m, w_code w !! p = Some (gip, up, m).

Abbreviation cpool w := (code_pool (w_tc w)).

Definition slot_ok (w : world) (s : Z) (sl : BranchSlot) : Prop :=
  s + sizeof_BranchSlot <= pool (cpool w) + used (cpool w) /\
  (run_code s (s_code sl) = Some (ACall link_jit (s + sizeof_Call64Abs)) \/
   exists p, run_code s (s_code sl) = Some (AJump p) /\ comp w p (s_gip sl)).

Record w_inv (w : world) : Prop := {
  wi_tc : tc_inv (comp w) (w_tc w);
  wi_addr : 0 < pool (cpool w) /\ pool (cpool w) + pool_sz (cpool w) <= 2 ^ 64;
  wi_good : forall p j, w_code w !! p = Some j -> good j;
  wi_code : forall p r, w_code w !! p = Some r ->
    pool (cpool w) <= p /\ p + code_size r <= pool (cpool w) + used (cpool w);
  wi_slot : forall s sl, w_slots w !! s = Some sl -> slot_ok w s sl;
  wi_slots : forall p r k off tgt, w_code w !! p = Some r -> code_slots r !! k = Some (off, tgt) ->
    exists sl, w_slots w !! (p + off) = Some sl /\ s_gip sl = tgt;
  wi_compiles : forall p r, w_code w !! p = Some r -> compiles r = true }.

Lemma code_addr w p gip : w_inv w -> comp w p gip -> in_u 64 p /\ p <> 0.
Proof.
  intros [h1 h2 h0 h3 h4 h5 h6] (up & m & Hp). destruct (h3 _ _ Hp) as [? ?]. pose proof (cg_size _ (h0 _ _ Hp)).
  destruct (ti_codepool _ _ h1) as [? ?]. unfold in_u. lia.
Qed.

(** Changes of the caches and counters only. *)
Lemma w_inv_tc tc w :
  w_inv w -> tc_inv (comp w) tc -> code_pool tc = cpool w -> w_inv (set_tc tc w).
Proof.
  intros [h1 h2 h0 h3 h4 h5 h6] Ht Hp. split; cbn; rewrite ?Hp; try done.
  intros s sl Hs. destruct (h4 s sl Hs). unfold slot_ok. cbn. rewrite Hp. done.
Qed.

(** Linking a slot to code for its guest target. *)
Lemma w_inv_link s sl p tc w :
  w_inv w -> w_slots w !! s = Some sl -> comp w p (s_gip sl) -> tc_inv (comp w) tc -> code_pool tc = cpool w ->
  w_inv (mkW tc (<[s := Link s p sl]> (w_slots w)) (w_code w)).
Proof.
  intros HI Hs Hc Ht Hp. destruct (code_addr w p _ HI Hc) as [Ha _].
  destruct (Link_spec s p sl Ha) as (Hj & Hg & _).
  destruct HI as [h1 h2 h0 h3 h4 h5 h6]. split; cbn; rewrite ?Hp; try done.
  - intros s' sl' [[<- <-]|[Hne Hs']]%lookup_insert_Some.
    + destruct (h4 _ _ Hs) as [Hb _]. unfold slot_ok. cbn. rewrite Hp. split; [done|]. right. exists p.
      by rewrite Hj, Hg.
    + destruct (h4 _ _ Hs') as [? ?]. unfold slot_ok. cbn. by rewrite Hp.
  - intros p' r k off tgt Hr Hk. destruct (h5 _ _ _ _ _ Hr Hk) as (sl' & Hsl & Ht').
    destruct (decide (s = p' + off)) as [->|Hne].
    + exists (Link (p' + off) p sl). rewrite lookup_insert_eq. split; [done|]. rewrite Hg. congruence.
    + exists sl'. by rewrite lookup_insert_ne.
Qed.

(** ** Code generation *)
Lemma write_slots_old p seg l : forall slots s,
  (forall off tgt, (off, tgt) ∈ l -> p + off <> s) -> write_slots link_jit p seg l slots !! s = slots !! s.
Proof.
  induction l as [|[off tgt] l IH]; intros slots s Hne; [done|]. cbn [write_slots].
  rewrite IH by (intros o t Hin; apply (Hne o t); by apply list_elem_of_further).
  apply lookup_insert_ne. apply (Hne off tgt). apply list_elem_of_here.
Qed.

Lemma write_slots_new p seg l : forall slots k off tgt,
  NoDup l.*1 -> l !! k = Some (off, tgt) ->
  write_slots link_jit p seg l slots !! (p + off) =
    Some (LinkLazyJIT link_jit (mkSlot (replicate sizeof_code 0) tgt (negb (InSegment seg tgt)))).
Proof.
  induction l as [|[o t] l IH]; intros slots k off tgt Hnd Hk; [done|]. cbn in Hnd |- *.
  apply NoDup_cons in Hnd as [Hn Hnd]. destruct k as [|k]; cbn in Hk.
  - injection Hk as -> ->. rewrite write_slots_old; [by rewrite lookup_insert_eq|].
    intros o' t' Hin E. assert (o' = off) as -> by lia. apply Hn. by apply (list_elem_of_fmap_2 fst l (off, t')).
  - by apply (IH _ k).
Qed.

Lemma write_slots_Some p seg l : forall slots s sl,
  write_slots link_jit p seg l slots !! s = Some sl ->
  slots !! s = Some sl \/ exists off tgt, (off, tgt) ∈ l /\ s = p + off /\
    sl = LinkLazyJIT link_jit (mkSlot (replicate sizeof_code 0) tgt (negb (InSegment seg tgt))).
Proof.
  induction l as [|[o t] l IH]; intros slots s sl H; [by left|]. cbn [write_slots] in H.
  apply IH in H as [H|(off & tgt & Hin & H)].
  - apply lookup_insert_Some in H as [[<- <-]|[_ H]]; [|by left]. right. exists o, t.
    split_and!; try done. apply list_elem_of_here.
  - right. exists off, tgt. split; [by apply list_elem_of_further|done].
Qed.

(** The growth of the world over a compilation. *)
Record grows (w w' : world) : Prop := {
  gr_code : forall p r, w_code w !! p = Some r -> w_code w' !! p = Some r;
  gr_slots : forall s sl, w_slots w !! s = Some sl -> w_slots w' !! s = Some sl }.

Lemma grows_refl w : grows w w.
Proof. done. Qed.

(** A pool without room for one more region or block, or a range the code
    generator does not compile. *)
Definition tb_full (w : world) : Prop :=
  pool_sz (tb_pool (w_tc w)) < used (tb_pool (w_tc w)) + alignof_TBlock + sizeof_TBlock.
Definition no_code (j : Job) (w : world) : Prop :=
  compiles j = false \/ pool_sz (cpool w) < used (cpool w) + 8 + code_size j.
Definition exhausted (pc : Z) (m : mem) (w : world) : Prop :=
  (exists r, GetCompilationIPRange pc (w_tc w) = POk r /\ no_code (r, m) w) \/ tb_full w.

Lemma GenerateCode_inv seg r w :
  good r -> w_inv w ->
  match GenerateCode compiles code_size code_slots link_jit seg r w with
  | POk (p, w') => w_inv w' /\ grows w w' /\ w_code w' !! p = Some r /\ tcache_map (w_tc w') = tcache_map (w_tc w) /\
      tb_pool (w_tc w') = tb_pool (w_tc w)
  | PPanic => no_code r w
  end.
Proof.
  intros Hgood [h1 h2 h0 h3 h4 h5 h6]. unfold GenerateCode. destruct (compiles r) eqn:Ecomp; cbn [passert mbind pres_bind]; [|by left].
  pose proof (cg_size r Hgood) as Hsz. destruct (ti_codepool _ _ h1) as [Hused0 _].
  pose proof (AllocateCode_inv _ (code_size r) (w_tc w) h1 ltac:(lia)) as HA.
  destruct (AllocateCode (code_size r) 8 (w_tc w)) as [[p|] tc].
  2:{ right. apply HA. }
  destruct HA as (HI & Hm & Hb & Hmem & Htp & Hpool & Hpsz & Hlo & Hhi).
  assert (Hfresh : forall q r', w_code w !! q = Some r' -> q <> p).
  { intros q r' Hq ->. destruct (h3 _ _ Hq) as [_ ?]. pose proof (cg_size r' (h0 _ _ Hq)). lia. }
  assert (Hcode : forall q r', w_code w !! q = Some r' -> <[p := r]> (w_code w) !! q = Some r').
  { intros q r' Hq. rewrite lookup_insert_ne; [done|]. intros <-. by apply (Hfresh _ _ Hq). }
  assert (Hslot : forall s sl, w_slots w !! s = Some sl ->
    write_slots link_jit p seg (code_slots r) (w_slots w) !! s = Some sl).
  { intros s sl Hs. rewrite write_slots_old; [done|]. intros off tgt (k & Hk)%list_elem_of_lookup E.
    destruct (h4 _ _ Hs) as [Hb' _]. destruct (cg_slots r k off tgt Hgood Hk). unfold sizeof_BranchSlot in *. lia. }
  assert (Hcomp : forall q g, comp w q g -> comp (mkW tc (write_slots link_jit p seg (code_slots r) (w_slots w))
    (<[p := r]> (w_code w))) q g).
  { intros q g (up & m & Hq). exists up, m. by apply Hcode. }
  assert (Hused : pool (cpool w) + used (cpool w) <= pool (code_pool tc) + used (code_pool tc)) by lia.
  split; [|split; [done|split; [cbn; by rewrite lookup_insert_eq|done]]]. split; cbn.
  - by eapply tc_inv_mono.
  - by rewrite Hpool, Hpsz.
  - intros q r' [[<- <-]|[_ Hq]]%lookup_insert_Some; [done|]. by apply (h0 _ _ Hq).
  - intros q r' [[<- <-]|[_ Hq]]%lookup_insert_Some; [split; lia|]. destruct (h3 _ _ Hq). lia.
  - intros s sl [Hs|(off & tgt & (k & Hk)%list_elem_of_lookup & -> & ->)]%write_slots_Some.
    + destruct (h4 _ _ Hs) as [? Hor]. split; [cbn; lia|]. destruct Hor as [?|(q & ? & ?)]; [by left|].
      right. exists q. auto.
    + destruct (cg_slots r k off tgt Hgood Hk). split; [cbn; lia|]. left. unfold LinkLazyJIT. cbn [CreatePatch s_code].
      rewrite run_patch. by rewrite (uN_id 64 link_jit) by apply cg_link.
  - intros q r' k off tgt [[<- <-]|[_ Hq]]%lookup_insert_Some Hk.
    + eexists. split; [by apply (write_slots_new p seg (code_slots r) _ k); [by apply cg_nodup|]|done].
    + destruct (h5 _ _ _ _ _ Hq Hk) as (sl & Hsl & ?). exists sl. auto.
  - intros q r' [[<- <-]|[_ Hq]]%lookup_insert_Some; [done|]. by apply (h6 _ _ Hq).
Qed.

Lemma AnnounceRegion_inv pc up m p size w :
  w_inv w -> w_code w !! p = Some (pc, up, m) -> tcache_map (w_tc w) !! pc = None ->
  match AnnounceRegion pc p size w with
  | POk (tb, w') => w_inv w' /\ grows w w' /\ live (comp w') (w_tc w') tb pc
  | PPanic => tb_full w
  end.
Proof.
  intros HI Hp Hn. pose proof HI as [h1 _ _ _ _ _ _]. unfold AnnounceRegion.
  pose proof (AllocateTBlock_inv _ _ h1) as HA. destruct (AllocateTBlock (w_tc w)) as [[tb tc]|]; [|exact HA].
  destruct HA as (H1 & H2 & H3 & H4 & _ & H5 & H6 & H7). cbn [mbind pres_bind].
  rewrite <- H3 in H7. pose proof (fill_inv _ tb (mkTB p size pc false false) tc H1 H7) as H8.
  destruct (Insert_inv (comp w) tb (mkTB p size pc false false) (set_tb tb (mkTB p size pc false false) tc) H8)
    as (tc' & E & HI' & Hm & Hcp & _).
  - cbn. by rewrite lookup_insert_eq.
  - by exists up, m.
  - exact H5.
  - exact H6.
  - cbn. by rewrite H3.
  - rewrite E. cbn [mbind pres_bind]. split; [|split; [done|]].
    + apply w_inv_tc; try done. by rewrite Hcp.
    + apply (ti_map _ _ HI'). rewrite Hm. cbn. by rewrite lookup_insert_eq.
Qed.

Lemma find_or_compile_inv pc m w :
  (forall up, up <= roundup 32 64 pc PAGE_SIZE -> good (pc, up, m)) -> w_inv w ->
  match find_or_compile compiles code_size code_slots link_jit pc m w with
  | POk (tb, w') => w_inv w' /\ grows w w' /\ live (comp w') (w_tc w') tb pc
  | PPanic => exhausted pc m w
  end.
Proof.
  intros Hgood HI. unfold find_or_compile.
  destruct (Lookup_spec _ pc (w_tc w) (wi_tc _ HI)) as (tc & E & Ht & (l & Hl)). rewrite E.
  cbn [mbind pres_bind]. assert (Hw : w_inv (set_tc tc w)) by (apply w_inv_tc; subst tc; done).
  assert (Hm : tcache_map tc = tcache_map (w_tc w)) by (by subst tc). rewrite <- Hm.
  destruct (tcache_map tc !! pc) as [tb|] eqn:Em.
  - split; [done|]. split; [done|]. by apply (ti_map _ _ Ht).
  - assert (Hr : exists up, GetCompilationIPRange pc tc = POk (pc, up) /\ up <= roundup 32 64 pc PAGE_SIZE).
    { unfold GetCompilationIPRange. pose proof (LookupUpperBound_spec pc tc) as HU.
      destruct (LookupUpperBound pc tc) as [tb|]; [|eexists; split; [done|lia]]. destruct HU as (k & Hk & _).
      destruct (ti_map _ _ Ht _ _ Hk) as (t & -> & _). eexists. split; [done|]. apply Z.le_min_l. }
    destruct Hr as (up & Hr & Hup). rewrite Hr. cbn [mbind pres_bind]. unfold CompilerDoJob.
    match goal with |- context [GenerateCode _ _ _ _ ?seg ?r ?w0] =>
      pose proof (GenerateCode_inv seg r w0 (Hgood up Hup) Hw) as HG; destruct (GenerateCode _ _ _ _ seg r w0) as [[p w1]|] end.
    2:{ cbn. left. exists (pc, up). by subst tc. }
    destruct HG as (HI1 & Hg1 & Hp & Hm1 & Htp). cbn [mbind pres_bind fst].
    pose proof (AnnounceRegion_inv pc up m p (code_size (pc, up, m)) w1 HI1 Hp) as HA.
    rewrite Hm1 in HA. specialize (HA Em).
    destruct (AnnounceRegion pc p (code_size (pc, up, m)) w1) as [[tb w2]|].
    + destruct HA as (HI2 & Hg2 & Hlive). split; [done|]. split; [|done].
      destruct Hg1 as [g1 g2], Hg2 as [g3 g4]. split; auto.
    + right. unfold tb_full in *. rewrite Htp in HA. by subst tc.
Qed.

(** ** Linking and indirect branches *)
Lemma live_deref w tb pc :
  live (comp w) (w_tc w) tb pc -> exists t, tb_mem (w_tc w) !! tb = Some t /\ tb_ip t = pc /\ comp w (tb_ptr t) pc.
Proof. intros (t & ? & ? & ? & _). by exists t. Qed.

(** A block keeps its code when its flags change. *)
Lemma RecordLink_tb s tb cross tc tc' t :
  RecordLink s tb cross tc = POk tc' -> tb_mem tc !! tb = Some t ->
  exists t', tb_mem tc' !! tb = Some t' /\ tb_ptr t' = tb_ptr t /\ tb_ip t' = tb_ip t.
Proof.
  unfold RecordLink. intros E Ht. rewrite Ht in E. injection E as <-. cbn. rewrite lookup_insert_eq. by eexists.
Qed.
Lemma CacheBrind_tb tb tc tc' t :
  CacheBrind tb tc = POk tc' -> tb_mem tc !! tb = Some t ->
  exists t', tb_mem tc' !! tb = Some t' /\ tb_ptr t' = tb_ptr t /\ tb_ip t' = tb_ip t.
Proof.
  unfold CacheBrind. intros E Ht. rewrite Ht in E. injection E as <-. cbn. rewrite lookup_insert_eq. by eexists.
Qed.

Lemma link_or_cache_inv bs tb pc w :
  w_inv w -> live (comp w) (w_tc w) tb pc ->
  (forall s, bs = Some s -> exists sl, w_slots w !! s = Some sl /\ s_gip sl = pc) ->
  exists w' t, link_or_cache bs tb w = POk w' /\ w_inv w' /\ w_code w' = w_code w /\
    tb_mem (w_tc w') !! tb = Some t /\ comp w' (tb_ptr t) pc.
Proof.
  intros HI Hl Hs. destruct (live_deref _ _ _ Hl) as (t & Ht & Hip & Hc). unfold link_or_cache.
  destruct bs as [s|].
  - destruct (Hs s eq_refl) as (sl & Hsl & Hg). rewrite Hsl, Ht. cbn [pderef mbind pres_bind].
    destruct (RecordLink_inv (comp w) s tb pc (s_cross_segment sl) _ (wi_tc _ HI) Hl)
      as (tc' & E & HI' & _ & Hcp & _). rewrite E. cbn [mbind pres_bind].
    destruct (RecordLink_tb _ _ _ _ _ _ E Ht) as (t' & Ht' & Hp' & _).
    eexists _, t'. split; [done|]. split; [|split_and!; try done; by rewrite Hp'].
    apply w_inv_link; try done. by rewrite Hg.
  - destruct (CacheBrind_inv (comp w) tb pc _ (wi_tc _ HI) Hl) as (tc' & E & HI' & _ & Hcp & _). rewrite E.
    cbn [mbind pres_bind]. destruct (CacheBrind_tb _ _ _ _ E Ht) as (t' & Ht' & Hp' & _).
    eexists _, t'. split; [done|]. split; [by apply w_inv_tc|]. split_and!; try done. by rewrite Hp'.
Qed.

(** ** The simulation *)
Definition jsim (w : world) (js : jstate) : Prop :=
  match js with
  | JLoop bs g => trapno g.1 <> NONE /\ traps g \/
      reach g /\ forall s, bs = Some s -> exists sl, w_slots w !! s = Some sl /\ s_gip sl = ip g.1
  | JCode p g => exists pc, comp w p pc /\ running g /\ reach (g_set_ip pc g)
  | JDone g => trapno g.1 <> NONE /\ traps g
  | JFault g => faults g
  end.

Lemma TryLinkBranch_sim s sl g w :
  w_inv w -> w_slots w !! s = Some sl -> running g -> reach (g_set_ip (s_gip sl) g) ->
  exists w' js', TryLinkBranch s g w = POk (w', js') /\ w_inv w' /\ jsim w' js'.
Proof.
  intros HI Hs Hr Hg. unfold TryLinkBranch. rewrite Hs. cbn [pderef mbind pres_bind].
  destruct (Lookup_spec _ (s_gip sl) (w_tc w) (wi_tc _ HI)) as (tc & E & Ht & (l & Hl)). rewrite E.
  cbn [mbind pres_bind]. assert (Hm : tcache_map (w_tc w) = tcache_map tc) by (by subst tc). rewrite Hm.
  destruct (tcache_map tc !! s_gip sl) as [tb|] eqn:Em.
  - pose proof (ti_map _ _ Ht _ _ Em) as Hlive. destruct Hlive as (t & Hd & Hip & Hc & Hrest).
    rewrite Hd. cbn [pderef mbind pres_bind].
    destruct (RecordLink_inv (comp w) s tb (s_gip sl) (s_cross_segment sl) tc Ht) as (tc' & E' & HI' & _ & Hcp & _).
    { by exists t. }
    rewrite E'. cbn [mbind pres_bind]. eexists _, _. split; [done|]. split.
    + apply w_inv_link; try done. rewrite Hcp. by subst tc.
    + by exists (s_gip sl).
  - eexists _, _. split; [done|]. split; [apply w_inv_tc; try done; by subst tc|].
    right. split; [done|]. intros s' [= <-]. by exists sl.
Qed.

Lemma brind_sim tgt g w :
  w_inv w -> running g -> reach (g_set_ip tgt g) -> tgt <> 0 ->
  exists w' js', brind_inlined tgt g w = POk (w', js') /\ w_inv w' /\ jsim w' js'.
Proof.
  intros HI Hr Hg Hz. unfold brind_inlined.
  destruct (lookup_lt_is_Some_2 (l1_brind_cache (w_tc w)) (l1idx tgt)) as [[cg c] Hb].
  { rewrite (ti_brlen _ _ (wi_tc _ HI)). apply l1idx_lt. }
  rewrite Hb. destruct (Z.eqb_spec cg tgt) as [->|_].
  - destruct (ti_brind _ _ (wi_tc _ HI) _ _ _ Hb) as [[? ?]|[_ Hc]]; [done|].
    eexists _, _. split; [done|]. split; [done|]. by exists tgt.
  - unfold qcgstub_brind.
    destruct (Lookup_spec _ tgt (w_tc w) (wi_tc _ HI)) as (tc & E & Ht & (l & Hl)). rewrite E.
    cbn [mbind pres_bind]. assert (Hm : tcache_map (w_tc w) = tcache_map tc) by (by subst tc). rewrite Hm.
    assert (Hcp : code_pool tc = cpool w) by (by subst tc).
    destruct (tcache_map tc !! tgt) as [tb|] eqn:Em.
    + pose proof (ti_map _ _ Ht _ _ Em) as Hlive. pose proof Hlive as (t & Hd & Hip & Hc & _).
      destruct (CacheBrind_inv (comp w) tb tgt tc Ht Hlive) as (tc' & E' & HI' & _ & Hcp' & _). rewrite E'.
      cbn [mbind pres_bind]. destruct (CacheBrind_tb _ _ _ _ E' Hd) as (t' & -> & Hp' & _).
      cbn [pderef mbind pres_bind]. eexists _, _. split; [done|].
      split; [apply w_inv_tc; try done; congruence|]. exists tgt. rewrite Hp'. split_and!; [done|by apply (rs_running _ _ _ _ _ _ Hg)|done].
    + eexists _, _. split; [done|]. split; [by apply w_inv_tc|]. right. done.
Qed.

Lemma loop_sim bs g w :
  w_inv w -> jsim w (JLoop bs g) ->
  match jstep run compiles code_size code_slots link_jit w (JLoop bs g) with
  | POk (w', js') => w_inv w' /\ jsim w' js'
  | PPanic => exhausted (ip g.1) g.2 w
  end.
Proof.
  intros HI Hor. cbn [jstep]. unfold HandleTrap, IsTrapPending. case_bool_decide as Et; cbn [negb].
  2:{ destruct Hor as [?|[Hr _]]; [done|]. by destruct (rs_running _ _ _ _ _ g Hr). }
  destruct Hor as [[? _]|[Hg Hs]]; [done|]. pose proof (rs_running _ _ _ _ _ g Hg) as (Hn & Hx & Hi). rewrite Hx.
  assert (Hm : slot_matches bs (ip g.1) w = POk true).
  { unfold slot_matches. destruct bs as [s|]; [|done]. destruct (Hs s eq_refl) as (sl & -> & Eg).
    cbn. by rewrite Eg, Z.eqb_refl. }
  rewrite Hm. cbn [passert mbind pres_bind Z.eqb].
  pose proof (find_or_compile_inv (ip g.1) g.2 w (fun up Hup => rs_good _ _ _ _ _ g (ip g.1, up, g.2) Hg (conj eq_refl (conj Hup eq_refl))) HI) as HF.
  destruct (find_or_compile _ _ _ _ (ip g.1) g.2 w) as [[tb w1]|]; [|done]. destruct HF as (HI1 & Hgr & Hl).
  cbn [mbind pres_bind].
  destruct (link_or_cache_inv bs tb (ip g.1) w1 HI1 Hl) as (w2 & t & -> & HI2 & _ & Ht & Hc).
  { intros s ->. destruct (Hs s eq_refl) as (sl & Hsl & E). exists sl. split; [by apply (gr_slots _ _ Hgr)|done]. }
  cbn [mbind pres_bind]. rewrite Ht. cbn [pderef mbind pres_bind]. split; [done|].
  exists (ip g.1). split_and!; try done. unfold g_set_ip. destruct g as [[gp i tr] m]. done.
Qed.

(** The loop is about to compile and cannot. *)
Definition exhausted_in (w : world) (js : jstate) : Prop := exists bs g, js = JLoop bs g /\ exhausted (ip g.1) g.2 w.

(** Generated code that takes an indirect branch to guest address 0. *)
Definition brind_to_zero (w : world) (js : jstate) : Prop :=
  exists p g pc up m g', js = JCode p g /\ w_code w !! p = Some (pc, up, m) /\ good (pc, up, m) /\ running g /\ reach (g_set_ip pc g) /\
    run (pc, up, m) g = Some (XBrind 0 g').

Lemma leave_sim p r x w :
  w_inv w -> w_code w !! p = Some r -> exit_ok code_slots reach traps faults r x -> (forall g, x <> XBrind 0 g) ->
  exists w' js', leave_code code_slots link_jit r p x w = POk (w', js') /\ w_inv w' /\ jsim w' js'.
Proof.
  intros HI Hc Hx Hnz. destruct x as [k g|tgt g|g|g|]; cbn [leave_code exit_ok] in *.
  - destruct Hx as (Hr & off & tgt & Hk & Hst). rewrite Hk. cbn [pderef mbind pres_bind].
    destruct (wi_slots _ HI _ _ _ _ _ Hc Hk) as (sl & Hsl & <-). rewrite Hsl. cbn [pderef mbind pres_bind].
    destruct (wi_slot _ HI _ _ Hsl) as [_ [-> |(q & -> & Hq)]].
    + rewrite Z.eqb_refl. cbn [passert mbind pres_bind].
      unfold FromCallPtrRetaddr. rewrite Z.add_simpl_r. by apply (TryLinkBranch_sim (p + off) sl).
    + eexists _, _. split; [done|]. split; [done|]. by exists (s_gip sl).
  - destruct Hx as [Hr Hst]. apply brind_sim; try done. intros ->. by apply (Hnz g).
  - eexists _, _. split; [done|]. split; [done|]. by left.
  - eexists _, _. split; [done|]. by split.
  - done.
Qed.

Lemma jstep_sim w js :
  w_inv w -> jsim w js ->
  match jstep run compiles code_size code_slots link_jit w js with
  | POk (w', js') => brind_to_zero w js \/ w_inv w' /\ jsim w' js'
  | PPanic => exhausted_in w js \/ brind_to_zero w js
  end.
Proof.
  intros HI HS. destruct js as [bs g|p g|g|g]; [|cbn [jstep]|by right|by right].
  { pose proof (loop_sim bs g w HI HS) as H. destruct (jstep _ _ _ _ _ w (JLoop bs g)) as [[]|]; [by right|left; by exists bs, g]. }
  destruct HS as (pc & (up & m & Hc) & Hr & Hg). rewrite Hc. cbn [pderef mbind pres_bind].
  pose proof (wi_good _ HI _ _ Hc) as Hgood.
  destruct (run (pc, up, m) g) as [x|] eqn:Er; [|right; split; [done|]; exists pc; by split; [exists up, m|]].
  pose proof (rs_exit _ _ _ _ _ pc up m g x Hgood Hr Hg Er) as Hx.
  assert (Hz : (exists g', x = XBrind 0 g') \/ forall g', x <> XBrind 0 g').
  { destruct x as [|tgt g'| | |]; try by right. destruct (decide (tgt = 0)) as [->|Hne]; [left; by eexists|right; congruence]. }
  destruct Hz as [[g' ->]|Hz].
  - assert (Hb : brind_to_zero w (JCode p g)) by (by exists p, g, pc, up, m, g').
    destruct (leave_code _ _ _ _ _ w) as [[w' js']|]; [by left|by right].
  - destruct (leave_sim p (pc, up, m) x w HI Hc Hx Hz) as (w' & js' & -> & H). by right.
Qed.

(** The empty world after [tcache::Init]. *)
Lemma start_inv mt pc tc tc' :
  Tcache.Init mt (Some pc) tc = POk tc' -> 0 < pc -> pc + 2 ^ 30 <= 2 ^ 64 -> w_inv (mkW tc' ∅ ∅).
Proof.
  intros E H1 H2. pose proof (Init_inv (comp (mkW tc' ∅ ∅)) _ _ _ _ E) as HI.
  split; try done.
  unfold Tcache.Init in E. apply pbind_ok in E as (tp & _ & (cp & E2 & [= <-])%pbind_ok).
  unfold Arena.Init, passert in E2. destruct (pool (code_pool tc) =? 0); [|done]. injection E2 as <-.
  cbn [w_tc code_pool pool pool_sz]. split; [done|].
  change (roundup 64 64 CODE_POOL_SIZE 4096) with CODE_POOL_SIZE. unfold CODE_POOL_SIZE. lia.
Qed.

(** The guest does not get to address 0. *)
Context (Hz : forall g, reach g -> ip g.1 <> 0).

Lemma jsteps_sim n : forall w js,
  w_inv w -> jsim w js ->
  match jsteps run compiles code_size code_slots link_jit n w js with
  | POk (w', js') => w_inv w' /\ jsim w' js'
  | PPanic => exists m w' js', (m < n)%nat /\
      jsteps run compiles code_size code_slots link_jit m w js = POk (w', js') /\ exhausted_in w' js'
  end.
Proof.
  assert (Hnz : forall w js, ~ brind_to_zero w js).
  { intros w js (p & g & pc & up & m & g' & _ & _ & Hgood & Hr & Hg & E). destruct (rs_exit _ _ _ _ _ _ _ _ _ _ Hgood Hr Hg E) as [_ H0]. by destruct (Hz _ H0). }
  induction n as [|n IH]; intros w js HI HS; [done|]. cbn [jsteps].
  pose proof (jstep_sim w js HI HS) as H.
  destruct (jstep run compiles code_size code_slots link_jit w js) as [[w1 js1]|] eqn:E; cbn [mbind pres_bind].
  - destruct H as [H|[HI1 HS1]]; [by apply Hnz in H|]. specialize (IH w1 js1 HI1 HS1).
    destruct (jsteps run compiles code_size code_slots link_jit n w1 js1) as [[]|]; [done|].
    destruct IH as (m & w' & js' & Hm & Ej & Hx). exists (S m), w', js'. split_and!; [lia| |done].
    cbn [jsteps]. rewrite E. done.
  - destruct H as [H|H]; [|by apply Hnz in H]. exists 0%nat, w, js. split_and!; [lia|done|done].
Qed.

(** The execution loop runs the guest: whatever the order in which blocks
    are compiled, linked, cached and found again, after any number of turns the
    guest state is one the guest reaches, generated code is only ever entered
    at code made for the current guest address, and [Execute] returns only
    with a trap of the guest.  Guests that get to address 0 are excluded (see
    [brind_zero_jumps_null]). *)
Theorem Execute_refines n w0 w js g0 :
  w_inv w0 -> reach g0 ->
  jsteps run compiles code_size code_slots link_jit n w0 (JLoop None g0) = POk (w, js) ->
  match js with
  | JLoop _ g => reach g \/ traps g
  | JCode p g => exists pc up m, w_code w !! p = Some (pc, up, m) /\ reach (g_set_ip pc g)
  | JDone g => traps g
  | JFault g => faults g
  end.
Proof.
  intros HI Hr E. pose proof (jsteps_sim n w0 (JLoop None g0) HI) as H. rewrite E in H.
  destruct H as [_ H]; [by right|].
  destruct js as [bs g|p g|g|g]; cbn in H; [destruct H as [[_ ?]|[? _]]; auto| |by destruct H|done].
  destruct H as (pc & (up & m & ?) & _ & ?). by exists pc, up, m.
Qed.

(** Nothing in the execution loop fails as long as there is room: a
    panic, a failed assertion or a wild pointer can only come up in a state
    where the loop is to compile a range and the code pool or the block pool
    has no room for it, or no code is generated for it. *)
Theorem Execute_safe n w0 g0 :
  w_inv w0 -> reach g0 ->
  jsteps run compiles code_size code_slots link_jit n w0 (JLoop None g0) = PPanic ->
  exists m w js, (m < n)%nat /\
    jsteps run compiles code_size code_slots link_jit m w0 (JLoop None g0) = POk (w, js) /\ exhausted_in w js.
Proof.
  intros HI Hr E. pose proof (jsteps_sim n w0 (JLoop None g0) HI) as H. rewrite E in H.
  apply H. by right.
Qed.
End proofs.

(** With the indirect-branch cache as [Init] leaves it, an indirect branch
    to guest address 0 hits the empty entry, whose address field is 0, and
    jumps to the null code pointer. *)
Theorem brind_zero_jumps_null tc slots code g :
  l1_brind_cache tc = null_brind ->
  brind_inlined 0 g (mkW tc slots code) = POk (mkW tc slots code, JCode 0 g).
Proof. intros E. unfold brind_inlined. cbn [w_tc]. rewrite E. reflexivity. Qed.

Lemma brind_zero_jumps_null_witness :
  brind_inlined 0 (CPUState_init, ∅) (mkW demo_tc ∅ ∅) = POk (mkW demo_tc ∅ ∅, JCode 0 (CPUState_init, ∅)).
Proof. apply (brind_zero_jumps_null demo_tc ∅ ∅ (CPUState_init, ∅)). reflexivity. Defined.

(** ** The range to compile *)

(** C35 The range [Execute] compiles starts at the guest address, stays in its
    page and ends at the latest where the next translated block starts; outside
    the last page it is empty exactly at a page boundary, where [roundup]
    returns the address itself. *)
Theorem GetCompilationIPRange_bounds (c : Z -> Z -> Prop) gip tc :
  tc_inv c tc -> 0 <= gip -> gip + PAGE_SIZE <= 2 ^ 32 ->
  exists up, GetCompilationIPRange gip tc = POk (gip, up) /\
    gip <= up <= gip / PAGE_SIZE * PAGE_SIZE + PAGE_SIZE /\
    (forall k, is_Some (tcache_map tc !! k) -> gip < k -> up <= k) /\
    (up = gip <-> gip mod PAGE_SIZE = 0).
Proof.
  intros HI H0 H1. unfold GetCompilationIPRange, PAGE_SIZE in *.
  rewrite roundup_spec by lia. pose proof (roundup_bounds gip 4096 H0 ltac:(lia)) as [Hb Hm]. cbv zeta in *.
  assert (Hz : (gip + (4096 - 1)) / 4096 * 4096 = gip <-> gip mod 4096 = 0) by zlia.
  assert (Hp : (gip + (4096 - 1)) / 4096 * 4096 <= gip / 4096 * 4096 + 4096) by zlia.
  set (r := (gip + (4096 - 1)) / 4096 * 4096) in *. clearbody r.
  pose proof (LookupUpperBound_spec gip tc) as HU. destruct (LookupUpperBound gip tc) as [tb|].
  - destruct HU as (k & Hk & Hlt & Hmin). destruct (ti_map _ _ HI _ _ Hk) as (t & Ht & Hip & _).
    rewrite Ht. cbn [pderef mbind pres_bind]. exists (Z.min r (tb_ip t)). rewrite Hip.
    split; [done|]. split; [lia|]. split; [|lia]. intros k' Hk' Hg. specialize (Hmin k' Hk' Hg). lia.
  - exists r. split; [done|]. split; [lia|]. split; [|done]. intros k Hk Hg. specialize (HU k Hk). lia.
Qed.

Lemma GetCompilationIPRange_bounds_witness :
  exists up, GetCompilationIPRange 0x10074 demo_tc = POk (0x10074, up) /\ 0x10074 <= up <= 0x11000.
Proof.
  destruct (GetCompilationIPRange_bounds (fun _ _ => True) 0x10074 demo_tc
    (Init_inv _ _ _ _ _ demo_tc_init) ltac:(lia) ltac:(unfold PAGE_SIZE; lia)) as (up & E & Hb & _).
  exists up. split; [exact E|exact Hb].
Defined.

(** ** A small guest

    The code at [0x10000] branches to [0x10040], where an [ecall] traps. *)
Definition demo_trap (pc : Z) (g : guest) : guest := (set_trapno ECALL (set_ip pc g.1), g.2).
Definition demo_run (j : Job) (g : guest) : option rexit :=
  Some (if j.1.1 =? 0x10000 then XSlot 0 g else XTrap (demo_trap j.1.1 g)).
Definition any_job (j : Job) : Prop := True.
Definition demo_slots (j : Job) : list (Z * Z) := [(32, 0x10040)].
Definition demo_start : guest := (set_ip 0x10000 CPUState_init, ∅).
Definition demo_reach (g : guest) : Prop := g = demo_start \/ g = g_set_ip 0x10040 demo_start.
Definition demo_traps (g : guest) : Prop := g = demo_trap 0x10040 demo_start.

#[local] Instance demo_gen size : 64 <= size <= 2 ^ 32 -> CodeGen any_job (fun _ => size) demo_slots 0x4000.
Proof.
  intros Hs. split; intros.
  - lia.
  - destruct k as [|[|]]; cbn in *; try done. injection H0 as <- <-. unfold sizeof_BranchSlot. lia.
  - repeat constructor. apply not_elem_of_nil.
  - split; vm_compute; congruence.
Qed.

Lemma demo_at pc g : demo_reach (g_set_ip pc g) -> pc = 0x10000 /\ g_set_ip 0x10040 g = g_set_ip 0x10040 demo_start \/
  pc = 0x10040 /\ demo_trap pc g = demo_trap 0x10040 demo_start.
Proof. destruct g as [[gp i tr] m]. intros [H|H]; injection H as -> -> -> ->; [by left|by right]. Qed.

#[local] Instance demo_sound : RegionSound any_job demo_slots demo_reach demo_traps (fun _ => False) demo_run.
Proof.
  split; [by intros g [-> | ->]|done|]. intros pc up m g x _ Hrun Hr%demo_at. unfold demo_run. cbn [fst].
  destruct (Z.eqb_spec pc 0x10000) as [->|Hpc]; intros [= <-]; destruct Hr as [[Hp Hr]|[Hp Hr]]; try done.
  split; [done|]. exists 32, 0x10040. split; [done|]. by right.
Qed.

Lemma demo_no_zero : forall g, demo_reach g -> ip g.1 <> 0.
Proof. by intros g [-> | ->]. Qed.

Lemma demo_w_inv size : 64 <= size <= 2 ^ 32 -> w_inv (fun _ => true) any_job (fun _ => size) demo_slots 0x4000 (mkW demo_tc ∅ ∅).
Proof. intros Hs. exact (start_inv (fun _ => true) any_job (fun _ => size) demo_slots 0x4000 _ _ _ _ demo_tc_init ltac:(lia) ltac:(lia)). Qed.

Lemma Execute_refines_witness :
  exists w g, jsteps demo_run (fun _ => true) (fun _ => 64) demo_slots 0x4000 5 (mkW demo_tc ∅ ∅) (JLoop None demo_start) =
      POk (w, JDone g) /\ demo_traps g.
Proof.
  assert (Hd : match jsteps demo_run (fun _ => true) (fun _ => 64) demo_slots 0x4000 5 (mkW demo_tc ∅ ∅) (JLoop None demo_start) with
    | POk (_, JDone _) => true | _ => false end = true) by (vm_compute; reflexivity).
  destruct (jsteps demo_run (fun _ => true) (fun _ => 64) demo_slots 0x4000 5 (mkW demo_tc ∅ ∅) (JLoop None demo_start))
    as [[w [| |g|]]|] eqn:E; try discriminate Hd.
  exists w, g. split; [reflexivity|]. clear Hd.
  assert (Hs : 64 <= 64 <= 2 ^ 32) by lia. pose proof (demo_w_inv 64 Hs) as HI.
  assert (Hr : demo_reach demo_start) by (left; reflexivity).
  revert HI E. generalize (mkW demo_tc ∅ ∅). intros w0 HI E.
  apply (Execute_refines demo_run (fun _ => true) any_job (fun _ => 64) demo_slots 0x4000 demo_reach demo_traps (fun _ => False)
    (CG := demo_gen 64 Hs) demo_no_zero 5 w0 w (JDone g) demo_start HI Hr E).
Defined.

(** Regions of 4 GiB do not fit: the first one panics, in the first state. *)
Lemma Execute_safe_witness :
  exists m w js, (m < 1)%nat /\
    jsteps demo_run (fun _ => true) (fun _ => 2 ^ 32) demo_slots 0x4000 m (mkW demo_tc ∅ ∅) (JLoop None demo_start) = POk (w, js) /\
    exhausted_in (fun _ => true) (fun _ => 2 ^ 32) w js.
Proof.
  apply (Execute_safe demo_run (fun _ => true) any_job (fun _ => 2 ^ 32) demo_slots 0x4000 demo_reach demo_traps (fun _ => False)
    (CG := demo_gen (2 ^ 32) ltac:(lia)) demo_no_zero 1 (mkW demo_tc ∅ ∅) demo_start).
  - apply demo_w_inv. lia.
  - left. reflexivity.
  - vm_compute. reflexivity.
Defined.
