(* ===== verification/IList.v ===== *)
(** * Intrusive lists (src/dbt/qmc/ilist.h)

    A circular doubly linked list through the nodes themselves, closed by a
    sentinel.  The memory of the link fields is the pair of maps [prev],
    [next] from node addresses; a field that is not in the map is null, and a
    dereferenced null pointer is [None].  [ilist_rep] relates the memory to the
    list of nodes, and the operations are shown to be the list operations that
    the IR builder is modelled with ([insert_at], [erase_at]). *)

From stdpp Require Import base tactics numbers list gmap.
From S2P Require Import Prelude QirBuilder.

Record links := mkLinks { prev : gmap Z Z; next : gmap Z Z }.

(** ** [IListNodeBase] *)
Definition getPrev (n : Z) (h : links) : option Z := prev h !! n.
Definition getNext (n : Z) (h : links) : option Z := next h !! n.
Definition setPrev (n v : Z) (h : links) : links := mkLinks (<[n := v]> (prev h)) (next h).
Definition setNext (n v : Z) (h : links) : links := mkLinks (prev h) (<[n := v]> (next h)).

(** ** [IListBase] *)
Definition insertBefore (nxt node : Z) (h : links) : option links :=
  prv ← getPrev nxt h;
  let h := setNext node nxt h in
  let h := setPrev node prv h in
  let h := setNext prv node h in
  Some (setPrev nxt node h).

Definition remove_base (node : Z) (h : links) : option links :=
  prv ← getPrev node h;
  nxt ← getNext node h;
  let h := setPrev nxt prv h in
  Some (setNext prv nxt h).

(** ** [IListSentinel], [IList] with the sentinel at [s]; an iterator is the
    address of a node *)
Definition reset (s : Z) (h : links) : links := setNext s s (setPrev s s h).
Definition empty (s : Z) (h : links) : bool := bool_decide (getPrev s h = Some s).
Definition it_inc (it : Z) (h : links) : option Z := getNext it h.
Definition it_dec (it : Z) (h : links) : option Z := getPrev it h.
Definition list_end (s : Z) : Z := s.
Definition list_begin (s : Z) (h : links) : option Z := it_inc s h.
Definition insert (it n : Z) : links -> option links := insertBefore it n.
Definition push_back (s n : Z) : links -> option links := insert (list_end s) n.
Definition erase (s it : Z) (h : links) : option (Z * links) :=
  if bool_decide (list_end s = it) then None
  else it' ← it_inc it h; h' ← remove_base it h; Some (it', h').

(** ** Representation *)
Fixpoint chain (h : links) (a : Z) (l : list Z) (b : Z) : Prop :=
  match l with
  | [] => next h !! a = Some b /\ prev h !! b = Some a
  | x :: l => next h !! a = Some x /\ prev h !! x = Some a /\ chain h x l b
  end.
Definition ilist_rep (h : links) (s : Z) (l : list Z) : Prop := NoDup (s :: l) /\ chain h s l s.

(** The iterator at position [pos]: a node, or the sentinel at the end. *)
Definition iter_at (s : Z) (l : list Z) (pos : nat) : Z := default s (l !! pos).

Lemma chain_app h a l1 x l2 b :
  chain h a (l1 ++ x :: l2) b <-> chain h a l1 x /\ chain h x l2 b.
Proof.
  revert a. induction l1 as [|y l1 IH]; intros a; cbn.
  - tauto.
  - rewrite IH. tauto.
Qed.

(** A chain only reads the [next] of its first nodes and the [prev] of its
    last nodes. *)
Lemma chain_ext h h' a l b :
  chain h a l b ->
  (forall x, x ∈ a :: l -> next h' !! x = next h !! x) ->
  (forall x, x ∈ l ++ [b] -> prev h' !! x = prev h !! x) -> chain h' a l b.
Proof.
  revert a. induction l as [|y l IH]; intros a Hc Hn Hp; cbn in *.
  - rewrite Hn, Hp by set_solver. done.
  - destruct Hc as (H1 & H2 & H3). rewrite Hn, Hp by set_solver. split_and!; try done.
    apply IH; [done|..]; intros x Hx; [apply Hn|apply Hp]; set_solver.
Qed.

Lemma chain_last h a l b : chain h a l b -> exists p, prev h !! b = Some p /\ p = default a (last l) /\
  next h !! p = Some b.
Proof.
  revert a. induction l as [|y l IH]; intros a Hc; cbn in Hc.
  - exists a. tauto.
  - destruct Hc as (_ & _ & H). destruct (IH y H) as (p & ? & -> & ?). exists (default y (last l)).
    split_and!; try done. rewrite last_cons. by destruct (last l).
Qed.

(** The link between two neighbours of a circular list: [p] before position
    [pos]. *)
Definition before_at (s : Z) (l : list Z) (pos : nat) : Z := default s (last (take pos l)).

Lemma rep_split h s l pos :
  ilist_rep h s l -> (pos <= length l)%nat ->
  let p := before_at s l pos in
  let x := iter_at s l pos in
  prev h !! x = Some p /\ next h !! p = Some x.
Proof.
  intros [Hnd Hc] Hpos p x. subst p x. unfold before_at, iter_at.
  destruct (l !! pos) as [x|] eqn:E; cbn.
  - rewrite <- (take_drop_middle l pos x E) in Hc. apply chain_app in Hc as [Hc _].
    apply chain_last in Hc as (p & ? & -> & ?). done.
  - apply lookup_ge_None in E. rewrite take_ge by lia. apply chain_last in Hc as (p & ? & -> & ?). done.
Qed.

Lemma before_at_in s l pos : before_at s l pos ∈ s :: take pos l.
Proof.
  unfold before_at. destruct (last (take pos l)) as [p|] eqn:E; cbn; [|apply list_elem_of_here].
  apply list_elem_of_further. apply last_Some_elem_of in E. done.
Qed.

(** A chain whose last link is redirected from [b] to [n]. *)
Lemma chain_retarget h h' a l b n :
  chain h a l b -> NoDup (a :: l) ->
  (forall x, x ∈ a :: l -> x <> default a (last l) -> next h' !! x = next h !! x) ->
  (forall x, x ∈ l -> prev h' !! x = prev h !! x) ->
  next h' !! default a (last l) = Some n -> prev h' !! n = Some (default a (last l)) ->
  chain h' a l n.
Proof.
  revert a. induction l as [|y l IH]; intros a Hc Hnd Hn Hp Hn' Hp'; cbn in *; [done|].
  destruct Hc as (H1 & H2 & H3). apply NoDup_cons in Hnd as [Ha Hnd].
  assert (Hl : default a (last (y :: l)) = default y (last l)) by (rewrite last_cons; by destruct (last l)).
  rewrite Hl in *.
  assert (Hin : default y (last l) ∈ y :: l).
  { destruct (last l) eqn:E; cbn; [|apply list_elem_of_here]. apply list_elem_of_further. by apply last_Some_elem_of. }
  rewrite Hn by (set_solver || by intros ->). rewrite Hp by set_solver. split_and!; try done.
  apply IH; try done; intros x Hx; [intros Hne; apply Hn|apply Hp]; set_solver.
Qed.

(** Lists that share no node with the touched ones are untouched. *)
Lemma rep_frame h h' (D : list Z) s l :
  ilist_rep h s l -> (forall x, x ∈ s :: l -> x ∉ D) ->
  (forall x, x ∉ D -> next h' !! x = next h !! x /\ prev h' !! x = prev h !! x) -> ilist_rep h' s l.
Proof.
  intros [Hnd Hc] Hd Hs. split; [done|]. apply (chain_ext h); [done|..]; intros x Hx; apply Hs, Hd; set_solver.
Qed.

Lemma insert_links h s l pos n h' :
  ilist_rep h s l -> (pos <= length l)%nat -> insert (iter_at s l pos) n h = Some h' ->
  h' = mkLinks (<[iter_at s l pos := n]> (<[n := before_at s l pos]> (prev h)))
               (<[before_at s l pos := n]> (<[n := iter_at s l pos]> (next h))).
Proof.
  intros Hr Hpos E. destruct (rep_split h s l pos Hr Hpos) as [Hp _]. unfold insert, insertBefore, getPrev in E.
  rewrite Hp in E. by injection E as <-.
Qed.

Lemma iter_in s l pos : iter_at s l pos ∈ s :: drop pos l.
Proof.
  unfold iter_at. destruct (l !! pos) as [x|] eqn:E; cbn; [|apply list_elem_of_here].
  apply list_elem_of_further. rewrite (drop_S l x pos E). apply list_elem_of_here.
Qed.

Lemma in_part {A} (l : list A) pos s x : x ∈ s :: take pos l \/ x ∈ s :: drop pos l -> x ∈ s :: l.
Proof. intros H. pose proof (take_drop pos l) as E. rewrite <- E. set_solver. Qed.

Lemma nodup_part {A} (l : list A) pos s :
  NoDup (s :: l) -> s ∉ take pos l /\ s ∉ drop pos l /\ NoDup (take pos l) /\ NoDup (drop pos l) /\
    (forall x, x ∈ take pos l -> x ∉ drop pos l).
Proof.
  intros [Hs Hnd]%NoDup_cons. pose proof (take_drop pos l) as E. rewrite <- E in Hs, Hnd.
  apply NoDup_app in Hnd as (N1 & N2 & N3). split_and!; try done; set_solver.
Qed.

(** The list cut at a position. *)
Lemma rep_cut h s l pos :
  ilist_rep h s l -> (pos <= length l)%nat ->
  chain h s (take pos l) (iter_at s l pos) /\
  (drop pos l = [] /\ iter_at s l pos = s \/
   exists l2, drop pos l = iter_at s l pos :: l2 /\ chain h (iter_at s l pos) l2 s).
Proof.
  intros [_ Hc] Hpos. unfold iter_at. destruct (l !! pos) as [x|] eqn:Ex; cbn.
  - rewrite (drop_S l x pos Ex). rewrite <- (take_drop_middle l pos x Ex) in Hc. apply chain_app in Hc as [? ?].
    split; [done|]. right. by eexists.
  - apply lookup_ge_None in Ex. rewrite take_ge, drop_ge by lia. auto.
Qed.

Ltac in_list := first [apply list_elem_of_here | apply list_elem_of_further; in_list | done].

(** Linking a fresh node in front of the iterator at any position. *)
Lemma insert_rep h s l pos n :
  ilist_rep h s l -> (pos <= length l)%nat -> n ∉ s :: l ->
  exists h', insert (iter_at s l pos) n h = Some h' /\ ilist_rep h' s (insert_at l pos n) /\
    forall s' l', ilist_rep h s' l' -> (forall x, x ∈ s' :: l' -> x ∉ n :: s :: l) -> ilist_rep h' s' l'.
Proof.
  intros Hr Hpos Hn. destruct (rep_split h s l pos Hr Hpos) as [Hp _].
  assert (E : exists h', insert (iter_at s l pos) n h = Some h').
  { unfold insert, insertBefore, getPrev. rewrite Hp. by eexists. }
  destruct E as [h' E]. exists h'. split; [done|]. rewrite (insert_links _ _ _ _ _ _ Hr Hpos E).
  pose proof (before_at_in s l pos) as Hb. pose proof (iter_in s l pos) as Hi.
  pose proof (in_part l pos s _ (or_introl Hb)) as Hb'. pose proof (in_part l pos s _ (or_intror Hi)) as Hi'.
  assert (K : forall x, x ∉ n :: s :: l -> forall y, y ∈ n :: s :: l -> y <> x) by (by intros x Hx y Hy ->).
  assert (Kn : forall y, y ∈ s :: l -> y <> n) by (by intros y Hy ->).
  destruct (rep_cut h s l pos Hr Hpos) as [Hc1 Hc2].
  pose proof (proj1 Hr) as Hnd. destruct (nodup_part l pos s Hnd) as (S1 & S2 & N1 & N2 & N3).
  assert (T : forall x, x ∈ s :: take pos l -> x <> n) by (intros x Hx; apply Kn, (in_part l pos); auto).
  assert (U : forall x, x ∈ s :: drop pos l -> x <> n) by (intros x Hx; apply Kn, (in_part l pos); auto).
  unfold insert_at. split; [split|].
  - apply NoDup_cons. split; [set_solver|]. apply NoDup_app. split; [done|]. split; [set_solver|].
    apply NoDup_cons. split; [|done]. intros ?. by apply (U n); [apply list_elem_of_further|].
  - apply chain_app. split.
    + apply (chain_retarget h _ s (take pos l) (iter_at s l pos) n Hc1).
      * by apply NoDup_cons.
      * intros x Hx Hne. cbn. rewrite !lookup_insert_ne; [done|apply not_eq_sym; by apply T|by apply not_eq_sym].
      * intros x Hx. cbn. rewrite !lookup_insert_ne; [done|apply not_eq_sym, T; by apply list_elem_of_further|].
        intros E'. rewrite E' in Hi. apply elem_of_cons in Hi as [->|Hi]; [done|]. by apply (N3 x).
      * cbn. unfold before_at. by rewrite lookup_insert_eq.
      * cbn. rewrite lookup_insert_ne by (by apply Kn). by rewrite lookup_insert_eq.
    + destruct Hc2 as [[-> Ei]|(l2 & El & Hc2)].
      * cbn. rewrite lookup_insert_ne by (by apply Kn). rewrite Ei, !lookup_insert_eq. done.
      * rewrite El in *. cbn. rewrite lookup_insert_ne by (by apply Kn). rewrite !lookup_insert_eq.
        split_and!; try done. apply NoDup_cons in N2 as [N4 N5].
        apply (chain_ext h); [done|..]; intros x Hx; cbn; rewrite !lookup_insert_ne; try done.
        -- apply not_eq_sym, U. by apply list_elem_of_further.
        -- intros <-. apply elem_of_cons in Hb as [Hb|Hb]; [by rewrite Hb in Hx|]. by apply (N3 _ Hb).
        -- apply not_eq_sym, U. apply elem_of_app in Hx as [Hx|Hx%list_elem_of_singleton]; [|subst; in_list].
           by apply list_elem_of_further, list_elem_of_further.
        -- intros <-. apply elem_of_app in Hx as [Hx|Hx%list_elem_of_singleton]; [done|].
           apply S2. rewrite Hx. apply list_elem_of_here.
  - intros s' l' Hr' Hd. apply (rep_frame h _ (n :: s :: l) s' l' Hr' Hd). intros x Hx. cbn.
    rewrite !lookup_insert_ne; [done|apply (K x Hx); first [in_list | by apply list_elem_of_further]..].
Qed.

(** Unlinking the node at a position. *)
Lemma erase_rep h s l pos n :
  ilist_rep h s l -> l !! pos = Some n ->
  exists h', erase s n h = Some (iter_at s l (S pos), h') /\ ilist_rep h' s (erase_at l pos) /\
    forall s' l', ilist_rep h s' l' -> (forall x, x ∈ s' :: l' -> x ∉ s :: l) -> ilist_rep h' s' l'.
Proof.
  intros Hr Hl. pose proof (lookup_lt_Some _ _ _ Hl) as Hlt.
  pose proof (proj1 Hr) as Hnd.
  assert (Hin : iter_at s l pos = n) by (unfold iter_at; by rewrite Hl).
  destruct (rep_split h s l pos Hr ltac:(lia)) as [Hp _]. rewrite Hin in Hp.
  destruct (rep_split h s l (S pos) Hr ltac:(lia)) as [_ Hn].
  assert (Hb : before_at s l (S pos) = n).
  { unfold before_at. rewrite (take_S_r l pos n Hl), last_snoc. done. }
  rewrite Hb in Hn. set (p := before_at s l pos) in *. set (x := iter_at s l (S pos)) in *.
  exists (mkLinks (<[x := p]> (prev h)) (<[p := x]> (next h))).
  assert (Hns : s <> n). { apply NoDup_cons in Hnd as [Hs _]. intros <-. apply Hs. by apply (list_elem_of_lookup_2 _ pos). }
  split.
  { unfold erase, list_end. rewrite bool_decide_false by done. unfold it_inc, remove_base, getNext, getPrev.
    rewrite Hn, Hp. done. }
  destruct (rep_cut h s l pos Hr ltac:(lia)) as [Hc1 _]. rewrite Hin in Hc1.
  destruct (rep_cut h s l (S pos) Hr ltac:(lia)) as [_ Hc2]. fold x in Hc2.
  destruct (nodup_part l pos s Hnd) as (S1 & S2 & N1 & N2 & N3). rewrite (drop_S l n pos Hl) in S2, N2, N3.
  apply NoDup_cons in N2 as [N4 N5].
  pose proof (before_at_in s l pos) as Hpin. fold p in Hpin. pose proof (iter_in s l (S pos)) as Hxin. fold x in Hxin.
  split; [split|].
  - unfold erase_at. apply NoDup_cons. split; [set_solver|]. apply NoDup_app. split_and!; try done. set_solver.
  - unfold erase_at.
    assert (Hfirst : chain (mkLinks (<[x := p]> (prev h)) (<[p := x]> (next h))) s (take pos l) x).
    { apply (chain_retarget h _ s (take pos l) n x Hc1).
      - by apply NoDup_cons.
      - intros y Hy Hne. cbn. rewrite lookup_insert_ne; [done|]. by apply not_eq_sym.
      - intros y Hy. cbn. rewrite lookup_insert_ne; [done|]. intros <-.
        apply elem_of_cons in Hxin as [->|Hxin]; [done|]. apply (N3 x Hy). by apply list_elem_of_further.
      - cbn. subst p. unfold before_at. by rewrite lookup_insert_eq.
      - cbn. by rewrite lookup_insert_eq. }
    destruct Hc2 as [[-> Ex]|(l2 & El & Hc2)].
    + rewrite app_nil_r. revert Hfirst. by rewrite Ex.
    + rewrite El in *. apply chain_app. split; [done|]. apply NoDup_cons in N5 as [N5 N6].
      apply (chain_ext h); [done|..]; intros y Hy; cbn; rewrite lookup_insert_ne; try done.
      * intros E'. rewrite <- E' in Hy. apply elem_of_cons in Hpin as [Hps|Hpin].
        -- rewrite Hps in Hy. apply S2. apply list_elem_of_further. exact Hy.
        -- apply (N3 p Hpin). apply list_elem_of_further. exact Hy.
      * intros E'. rewrite <- E' in Hy. apply elem_of_app in Hy as [Hy|Hy%list_elem_of_singleton]; [done|].
        apply S2. rewrite Hy. apply list_elem_of_further, list_elem_of_here.
  - intros s' l' Hr' Hd. apply (rep_frame h _ (s :: l) s' l' Hr' Hd). intros y Hy. cbn.
    rewrite !lookup_insert_ne; [done|..]; intros <-; apply Hy.
    + apply (in_part l (S pos)). by right.
    + apply (in_part l pos). by left.
Qed.

Lemma push_back_refines h s l n :
  ilist_rep h s l -> n ∉ s :: l -> exists h', push_back s n h = Some h' /\ ilist_rep h' s (l ++ [n]).
Proof.
  intros Hr Hn. destruct (insert_rep h s l (length l) n Hr ltac:(lia) Hn) as (h' & E & Hr' & _).
  exists h'. unfold iter_at in E. rewrite lookup_ge_None_2 in E by lia. split; [exact E|].
  unfold insert_at in Hr'. by rewrite take_ge, drop_ge in Hr' by lia.
Qed.

Lemma reset_rep s h : ilist_rep (reset s h) s [].
Proof.
  split; [apply NoDup_singleton|]. cbn. by rewrite !lookup_insert_eq.
Qed.

Lemma empty_rep h s l : ilist_rep h s l -> empty s h = bool_decide (l = []).
Proof.
  intros Hr. unfold empty, getPrev. pose proof (rep_split h s l (length l) Hr ltac:(lia)) as [Hp _].
  unfold iter_at, before_at in Hp. rewrite lookup_ge_None_2, take_ge in Hp by lia. cbn in Hp. rewrite Hp.
  destruct l as [|x l]; [by rewrite !bool_decide_true|]. rewrite !bool_decide_false; try done.
  intros [= E]. destruct Hr as [[Hs _]%NoDup_cons _]. apply Hs.
  destruct (last (x :: l)) as [y|] eqn:El; cbn in E.
  - subst y. by apply last_Some_elem_of.
  - by rewrite last_cons in El; destruct (last l).
Qed.

(** ** Iteration: [for (auto it = begin(); it != end(); ++it)] *)
Fixpoint walk (fuel : nat) (s it : Z) (h : links) : option (list Z) :=
  match fuel with
  | O => None
  | S fuel => if bool_decide (it = list_end s) then Some [] else it' ← it_inc it h; cons it <$> walk fuel s it' h
  end.

Lemma walk_chain fuel s a l h :
  chain h a l s -> s ∉ a :: l -> (S (length l) < fuel)%nat -> walk fuel s a h = Some (a :: l).
Proof.
  revert fuel a. induction l as [|x l IH]; intros fuel a Hc Hs Hf.
  - destruct fuel as [|[|fuel]]; cbn in Hf; try lia. cbn in Hc. cbn [walk].
    rewrite bool_decide_false by set_solver. unfold it_inc, getNext. destruct Hc as [-> _]. cbn.
    by rewrite bool_decide_true.
  - destruct fuel as [|fuel]; cbn in Hf; [lia|]. cbn in Hc. destruct Hc as (Hn & _ & Hc). cbn [walk].
    rewrite bool_decide_false by set_solver. unfold it_inc, getNext. rewrite Hn. cbn [mbind option_bind].
    rewrite (IH fuel x Hc); [done|set_solver|lia].
Qed.

Lemma walk_rep h s l :
  ilist_rep h s l ->
  exists b, list_begin s h = Some b /\ walk (S (S (length l))) s b h = Some l.
Proof.
  intros [[Hs Hnd]%NoDup_cons Hc]. destruct l as [|x l]; cbn in Hc.
  - destruct Hc as [Hn _]. exists s. split; [done|]. cbn. by rewrite bool_decide_true.
  - destruct Hc as (Hn & _ & Hc). exists x. split; [done|]. apply walk_chain; [done|done|cbn; lia].
Qed.

(** C28 The intrusive list is the list it represents.  [reset] makes it
    empty, and [empty] tells whether it is.  Linking a fresh node in front of
    the iterator at any position inserts it at that position, and [push_back]
    appends it; erasing the iterator at any position but the end removes
    exactly that node and returns the iterator behind it; lists that share no
    node with this one are untouched by both; and the loop from [begin()] to
    [end()] ends and visits the nodes in order, each once. *)
Theorem IList_refines h s l :
  ilist_rep (reset s h) s [] /\
  (ilist_rep h s l ->
   empty s h = bool_decide (l = []) /\
   (forall pos n, (pos <= length l)%nat -> n ∉ s :: l ->
      exists h', insert (iter_at s l pos) n h = Some h' /\ ilist_rep h' s (insert_at l pos n) /\
        forall s' l', ilist_rep h s' l' -> (forall x, x ∈ s' :: l' -> x ∉ n :: s :: l) -> ilist_rep h' s' l') /\
   (forall n, n ∉ s :: l -> exists h', push_back s n h = Some h' /\ ilist_rep h' s (l ++ [n])) /\
   (forall pos n, l !! pos = Some n ->
      exists h', erase s n h = Some (iter_at s l (S pos), h') /\ ilist_rep h' s (erase_at l pos) /\
        forall s' l', ilist_rep h s' l' -> (forall x, x ∈ s' :: l' -> x ∉ s :: l) -> ilist_rep h' s' l') /\
   exists b, list_begin s h = Some b /\ walk (S (S (length l))) s b h = Some l).
Proof.
  split; [apply reset_rep|]. intros Hr. split_and!.
  - by apply empty_rep.
  - intros pos n. by apply insert_rep.
  - intros n. by apply push_back_refines.
  - intros pos n. by apply erase_rep.
  - by apply walk_rep.
Qed.

(** ** Three nodes *)
Definition demo_list : option links :=
  h ← push_back 100 1 (reset 100 (mkLinks ∅ ∅)); h ← push_back 100 3 h; insert 3 2 h.

Lemma demo_rep : exists h, demo_list = Some h /\ ilist_rep h 100 [1; 2; 3].
Proof.
  destruct (push_back_refines (reset 100 (mkLinks ∅ ∅)) 100 [] 1 (reset_rep _ _)) as (h1 & E1 & R1); [set_solver|].
  destruct (push_back_refines h1 100 [1] 3 R1) as (h2 & E2 & R2); [set_solver|].
  destruct (insert_rep h2 100 [1; 3] 1 2 R2) as (h3 & E3 & R3 & _); [cbn; lia|set_solver|].
  exists h3. split; [|exact R3]. unfold demo_list. rewrite E1. cbn [mbind option_bind]. rewrite E2. exact E3.
Qed.

Lemma IList_refines_witness :
  exists h h' h'', ilist_rep h 100 [1; 2; 3] /\ empty 100 h = false /\ insert (iter_at 100 [1; 2; 3] 3) 4 h = Some h' /\
    erase 100 2 h = Some (3, h'').
Proof.
  destruct demo_rep as (h & _ & R). destruct (IList_refines h 100 [1; 2; 3]) as [_ H]. destruct (H R) as (Hm & Hi & _ & He & _).
  destruct (Hi 3%nat 4 ltac:(cbn; lia) ltac:(set_solver)) as (h' & E & _).
  destruct (He 1%nat 2 eq_refl) as (h'' & E' & _).
  exists h, h', h''. split; [exact R|]. split; [rewrite Hm; reflexivity|]. split; [exact E|exact E'].
Defined.
