(* ===== verification/ModuleGraph.v ===== *)
(** * The module graph (src/dbt/aot/aot_module.h, aot_module.cpp, marker.h)

    The control-flow graph of one guest page that the ahead-of-time compiler
    splits into regions.  A node is named by its guest address, the root by
    [None].  Iteration over [ip_map] is in the order of addresses.  A null
    node pointer that is dereferenced and a failed assertion are [PPanic].
    The node sets [domfrontier] are lists without duplicates; the source
    iterates over them in the order of addresses of host memory. *)

From stdpp Require Import base tactics numbers list gmap sorting.
From S2P Require Import Prelude Common Execute.

(** ** Markers (src/dbt/qmc/marker.h) *)
Record MarkerKeeper := mkKeeper { k_mmin : Z; k_mmax : Z }.
Record Marker := mkMarker { mmin : Z; mmax : Z }.

(** The constructor; [states] is a [u8], a mark a [u16]. *)
Definition Marker_new (k : MarkerKeeper) (states : Z) : Marker * MarkerKeeper :=
  let mn := k_mmax k in
  let mx := u16 (mn + u8 states) in
  (mkMarker mn mx, mkKeeper mn mx).
(** [Get] and [Set] on the mark of one node. *)
Definition Marker_Get (mk : Marker) (m : Z) : pres Z :=
  passert (m <? mmax mk);; POk (if m <? mmin mk then 0 else m - mmin mk).
Definition Marker_Set (mk : Marker) (m s : Z) : pres Z :=
  passert (m <? mmax mk);; passert (u16 s + mmin mk <? mmax mk);; POk (u16 (u16 s + mmin mk)).

(** ** Nodes *)
Abbreviation nid := (option Z).

Record Flags := mkFlags {
  is_brind_target : bool; is_segment_entry : bool; region_entry : bool;
  is_brind_source : bool; is_crosssegment_br : bool }.

Record ModuleGraphNode := mkMNode {
  n_ip : Z; n_ip_end : Z; n_flags : Flags; n_link : option nid;
  n_succs : list nid; n_preds : list nid; n_dominator : option nid; n_domfrontier : list nid; n_mark : Z }.

Definition Node_new (ip : Z) : ModuleGraphNode :=
  mkMNode ip 0 (mkFlags false false false false false) None [] [] None [] 0.

Definition set_flags (f : Flags) (n : ModuleGraphNode) : ModuleGraphNode :=
  mkMNode (n_ip n) (n_ip_end n) f (n_link n) (n_succs n) (n_preds n) (n_dominator n) (n_domfrontier n) (n_mark n).
Definition set_ip_end (v : Z) (n : ModuleGraphNode) : ModuleGraphNode :=
  mkMNode (n_ip n) v (n_flags n) (n_link n) (n_succs n) (n_preds n) (n_dominator n) (n_domfrontier n) (n_mark n).
Definition set_link (v : option nid) (n : ModuleGraphNode) : ModuleGraphNode :=
  mkMNode (n_ip n) (n_ip_end n) (n_flags n) v (n_succs n) (n_preds n) (n_dominator n) (n_domfrontier n) (n_mark n).
Definition set_succs (v : list nid) (n : ModuleGraphNode) : ModuleGraphNode :=
  mkMNode (n_ip n) (n_ip_end n) (n_flags n) (n_link n) v (n_preds n) (n_dominator n) (n_domfrontier n) (n_mark n).
Definition set_preds (v : list nid) (n : ModuleGraphNode) : ModuleGraphNode :=
  mkMNode (n_ip n) (n_ip_end n) (n_flags n) (n_link n) (n_succs n) v (n_dominator n) (n_domfrontier n) (n_mark n).
Definition set_dominator (v : option nid) (n : ModuleGraphNode) : ModuleGraphNode :=
  mkMNode (n_ip n) (n_ip_end n) (n_flags n) (n_link n) (n_succs n) (n_preds n) v (n_domfrontier n) (n_mark n).
Definition set_domfrontier (v : list nid) (n : ModuleGraphNode) : ModuleGraphNode :=
  mkMNode (n_ip n) (n_ip_end n) (n_flags n) (n_link n) (n_succs n) (n_preds n) (n_dominator n) v (n_mark n).
Definition set_mark (v : Z) (n : ModuleGraphNode) : ModuleGraphNode :=
  mkMNode (n_ip n) (n_ip_end n) (n_flags n) (n_link n) (n_succs n) (n_preds n) (n_dominator n) (n_domfrontier n) v.

Definition flag_brind_target (f : Flags) : Flags :=
  mkFlags true (is_segment_entry f) (region_entry f) (is_brind_source f) (is_crosssegment_br f).
Definition flag_segment_entry (f : Flags) : Flags :=
  mkFlags (is_brind_target f) true (region_entry f) (is_brind_source f) (is_crosssegment_br f).
Definition flag_region_entry (f : Flags) : Flags :=
  mkFlags (is_brind_target f) (is_segment_entry f) true (is_brind_source f) (is_crosssegment_br f).
Definition flag_brind_source (f : Flags) : Flags :=
  mkFlags (is_brind_target f) (is_segment_entry f) (region_entry f) true (is_crosssegment_br f).
Definition flag_crosssegment_br (f : Flags) : Flags :=
  mkFlags (is_brind_target f) (is_segment_entry f) (region_entry f) (is_brind_source f) true.

(** ** The graph: [root] under [None], [ip_map] under [Some ip] *)
Record ModuleGraph := mkMG { mg_segment : CodeSegment; mg_nodes : gmap nid ModuleGraphNode; mg_markers : MarkerKeeper }.

Definition MG_new (seg : CodeSegment) : ModuleGraph := mkMG seg {[ None := Node_new 0 ]} (mkKeeper 0 0).
Definition with_nodes (m : gmap nid ModuleGraphNode) (g : ModuleGraph) : ModuleGraph :=
  mkMG (mg_segment g) m (mg_markers g).

Definition InModule (ip : Z) (g : ModuleGraph) : bool := InSegment (mg_segment g) ip.

Definition GetNode (ip : Z) (g : ModuleGraph) : option nid :=
  if negb (InModule ip g) then None
  else match mg_nodes g !! Some ip with Some _ => Some (Some ip) | None => None end.

(** [assert(res.second)]: the node must be new. *)
Definition AddNode (ip : Z) (g : ModuleGraph) : pres (nid * ModuleGraph) :=
  match mg_nodes g !! Some ip with
  | Some _ => PPanic
  | None => POk (Some ip, with_nodes (<[Some ip := Node_new ip]> (mg_nodes g)) g)
  end.

Definition upd_node (f : ModuleGraphNode -> ModuleGraphNode) (n : nid) (g : ModuleGraph) : pres ModuleGraph :=
  match mg_nodes g !! n with
  | Some x => POk (with_nodes (<[n := f x]> (mg_nodes g)) g)
  | None => PPanic
  end.

Definition AddSucc (n succ : nid) (g : ModuleGraph) : pres ModuleGraph :=
  g ← upd_node (fun x => set_succs (n_succs x ++ [succ]) x) n g;
  upd_node (fun x => set_preds (n_preds x ++ [n]) x) succ g.

Definition upd_flags (f : Flags -> Flags) (n : nid) : ModuleGraph -> pres ModuleGraph :=
  upd_node (fun x => set_flags (f (n_flags x)) x) n.

Definition RecordEntry (ip : Z) (g : ModuleGraph) : pres ModuleGraph := '(_, g) ← AddNode ip g; POk g.
Definition RecordBrindTarget (ip : Z) (g : ModuleGraph) : pres ModuleGraph :=
  n ← pderef (GetNode ip g); g ← upd_flags flag_brind_target n g; AddSucc None n g.
Definition RecordSegmentEntry (ip : Z) (g : ModuleGraph) : pres ModuleGraph :=
  n ← pderef (GetNode ip g); g ← upd_flags flag_segment_entry n g; AddSucc None n g.
Definition RecordGBr (ip tgtip : Z) (g : ModuleGraph) : pres ModuleGraph :=
  src ← pderef (GetNode ip g);
  match GetNode tgtip g with
  | Some tgt => AddSucc src tgt g
  | None => upd_flags flag_crosssegment_br src g
  end.
Definition RecordGBrind (ip : Z) (g : ModuleGraph) : pres ModuleGraph :=
  n ← pderef (GetNode ip g); upd_flags flag_brind_source n g.
Definition RecordLink (ip linkip : Z) (g : ModuleGraph) : pres ModuleGraph :=
  n ← pderef (GetNode ip g); upd_node (set_link (GetNode linkip g)) n g.

(** The addresses of [ip_map] in order. *)
Definition ip_list (g : ModuleGraph) : list Z :=
  merge_sort Z.le (omap (fun e : nid * ModuleGraphNode => e.1) (map_to_list (mg_nodes g))).
Definition n_nodes (g : ModuleGraph) : Z := Z.of_nat (length (ip_list g)) + 1.
Definition all_nodes (g : ModuleGraph) : list nid := None :: map Some (ip_list g).
Definition get_node (n : nid) (g : ModuleGraph) : pres ModuleGraphNode := pderef (mg_nodes g !! n).

(** ** Depth-first search with an explicit stack

    The loop shared by [RPOTraversal::Compute] and [compute_region]: a stack
    of nodes with the successors still to visit; [push] is their lambda
    [push_node]. *)
Record dfs_state := mkDfs { d_g : ModuleGraph; d_stk : list (nid * list nid); d_out : list nid }.

Section dfs.
Context (push : nid -> dfs_state -> pres dfs_state) (on_pop : nid -> dfs_state -> dfs_state).

Fixpoint dfs_loop (fuel : nat) (st : dfs_state) : lres dfs_state :=
  match fuel with
  | O => LFuel
  | S fuel =>
      match d_stk st with
      | [] => LRet st
      | (n, []) :: stk => dfs_loop fuel (on_pop n (mkDfs (d_g st) stk (d_out st)))
      | (n, x :: xs) :: stk =>
          st ← lift (push x (mkDfs (d_g st) ((n, xs) :: stk) (d_out st)));
          dfs_loop fuel st
      end
  end.
End dfs.

(** [marker.Set(node, true)] and the stack entry. *)
Definition push_marked (mk : Marker) (n : nid) (x : ModuleGraphNode) (out : list nid) (st : dfs_state) : pres dfs_state :=
  m ← Marker_Set mk (n_mark x) 1;
  POk (mkDfs (with_nodes (<[n := set_mark m x]> (mg_nodes (d_g st))) (d_g st)) ((n, n_succs x) :: d_stk st) out).

Definition rpo_push (mk : Marker) (n : nid) (st : dfs_state) : pres dfs_state :=
  x ← get_node n (d_g st);
  v ← Marker_Get mk (n_mark x);
  if v =? 0 then push_marked mk n x (d_out st) st else POk st.
Definition rpo_pop (n : nid) (st : dfs_state) : dfs_state := mkDfs (d_g st) (d_stk st) (d_out st ++ [n]).

(** One turn per edge and per node, and one to see the empty stack. *)
Definition dfs_fuel (g : ModuleGraph) : nat :=
  S (sum_list (map (fun n => match mg_nodes g !! n with Some x => S (length (n_succs x)) | None => 0%nat end) (all_nodes g))).

(** A marker over the graph. *)
Definition new_marker (states : Z) (g : ModuleGraph) : Marker * ModuleGraph :=
  let '(mk, k) := Marker_new (mg_markers g) states in (mk, mkMG (mg_segment g) (mg_nodes g) k).

(** [RPOTraversal(graph)]: the nodes in reverse post-order. *)
Definition RPOTraversal (g : ModuleGraph) : lres (list nid * ModuleGraph) :=
  let '(mk, g) := new_marker 2 g in
  st ← lift (rpo_push mk None (mkDfs g [] []));
  st ← dfs_loop (rpo_push mk) rpo_pop (dfs_fuel g) st;
  LRet (reverse (d_out st), d_g st).

(** ** [ComputeDomTree] *)
Definition rpon_get (mk : Marker) (g : ModuleGraph) (n : option nid) : pres Z :=
  n ← pderef n; x ← get_node n g; Marker_Get mk (n_mark x).

(** [rpon.Set(n, rpo_no++)] over the traversal. *)
Fixpoint number_nodes (mk : Marker) (l : list nid) (rpo_no : Z) (g : ModuleGraph) : pres (Z * ModuleGraph) :=
  match l with
  | [] => POk (rpo_no, g)
  | n :: l =>
      x ← get_node n g;
      m ← Marker_Set mk (n_mark x) rpo_no;
      g ← upd_node (set_mark m) n g;
      number_nodes mk l (u16 (rpo_no + 1)) g
  end.

(** [while (rpon.Get(b) > rpon.Get(lim)) b = b->dominator] *)
Fixpoint climb (fuel : nat) (mk : Marker) (g : ModuleGraph) (b lim : option nid) : lres (option nid) :=
  match fuel with
  | O => LFuel
  | S fuel =>
      vb ← lift (rpon_get mk g b);
      vl ← lift (rpon_get mk g lim);
      if vl <? vb then
        x ← lift (b ← pderef b; get_node b g);
        climb fuel mk g (n_dominator x) lim
      else LRet b
  end.

Fixpoint intersect (fuel : nat) (mk : Marker) (g : ModuleGraph) (b1 b2 : option nid) : lres (option nid) :=
  match fuel with
  | O => LFuel
  | S fuel' =>
      if decide (b1 = b2) then LRet b1
      else
        b1 ← climb fuel mk g b1 b2;
        b2 ← climb fuel mk g b2 b1;
        intersect fuel' mk g b1 b2
  end.

(** The chains of dominators are shorter than the graph has nodes. *)
Definition climb_fuel (g : ModuleGraph) : nat := S (length (all_nodes g)).

Definition join_pred (mk : Marker) (g : ModuleGraph) (p : nid) (new_idom : option nid) : lres (option nid) :=
  x ← lift (get_node p g);
  match n_dominator x with
  | None => LRet new_idom
  | Some _ =>
      match new_idom with
      | Some i => intersect (climb_fuel g) mk g (Some p) (Some i)
      | None => LRet (Some p)
      end
  end.

(** The body of the loop over [rpot], with [changed]. *)
Definition dom_update (mk : Marker) (b : nid) (s : bool * ModuleGraph) : lres (bool * ModuleGraph) :=
  let '(changed, g) := s in
  if decide (b = None) then LRet (changed, g)
  else
    x ← lift (get_node b g);
    new_idom ← lfold (join_pred mk g) (n_preds x) None;
    _ ← lift (pderef new_idom);
    if decide (n_dominator x = new_idom) then LRet (changed, g)
    else g ← lift (upd_node (set_dominator new_idom) b g); LRet (true, g).

Fixpoint dom_loop (fuel : nat) (mk : Marker) (rpot : list nid) (g : ModuleGraph) : lres ModuleGraph :=
  match fuel with
  | O => LFuel
  | S fuel =>
      '(changed, g) ← lfold (dom_update mk) rpot (false, g);
      if changed : bool then dom_loop fuel mk rpot g else LRet g
  end.

(** Every pass but the last moves a dominator towards the root. *)
Definition dom_fuel (g : ModuleGraph) : nat := (length (all_nodes g) * length (all_nodes g) + 2)%nat.

Definition ComputeDomTree (g : ModuleGraph) : lres ModuleGraph :=
  '(rpot, g) ← RPOTraversal g;
  let '(mk, g) := new_marker (n_nodes g) g in
  '(rpo_no, g) ← lift (number_nodes mk rpot 0 g);
  _ ← lift (passert (rpo_no =? n_nodes g));
  g ← lift (upd_node (set_dominator (Some None)) None g);
  dom_loop (dom_fuel g) mk rpot g.

(** ** [ComputeDomFrontier] *)
Definition set_insert (b : nid) (l : list nid) : list nid := if decide (b ∈ l) then l else l ++ [b].

(** [while (runner != b->dominator)] *)
Fixpoint df_runner (fuel : nat) (b : nid) (bdom runner : option nid) (g : ModuleGraph) : lres ModuleGraph :=
  match fuel with
  | O => LFuel
  | S fuel =>
      if decide (runner = bdom) then LRet g
      else
        r ← lift (pderef runner);
        x ← lift (get_node r g);
        g ← lift (upd_node (set_domfrontier (set_insert b (n_domfrontier x))) r g);
        df_runner fuel b bdom (n_dominator x) g
  end.

Definition df_node (b : nid) (g : ModuleGraph) : lres ModuleGraph :=
  x ← lift (get_node b g);
  if (1 <? length (n_preds x))%nat
  then lfold (fun r g => df_runner (climb_fuel g) b (n_dominator x) (Some r) g) (n_preds x) g
  else LRet g.

Definition ComputeDomFrontier (g : ModuleGraph) : lres ModuleGraph := lfold df_node (map Some (ip_list g)) g.

(** ** [ComputeRegionIDF]

    [host_order] is the order of a node set in host memory. *)
Section idf.
Context (host_order : list nid -> list nid).

Definition idf_entry (n : nid) (s : list nid * ModuleGraph) : lres (list nid * ModuleGraph) :=
  let '(wlist, g) := s in
  x ← lift (get_node n g);
  if is_brind_target (n_flags x) || is_segment_entry (n_flags x)
  then g ← lift (upd_flags flag_region_entry n g); LRet (n :: wlist, g)
  else LRet (wlist, g).

Definition idf_push (g : ModuleGraph) (y : nid) (wlist : list nid) : lres (list nid) :=
  x ← lift (get_node y g);
  LRet (if region_entry (n_flags x) then wlist else y :: wlist).

(** The head of the list is the back of [wlist]. *)
Fixpoint idf_loop (fuel : nat) (wlist : list nid) (g : ModuleGraph) : lres ModuleGraph :=
  match fuel with
  | O => LFuel
  | S fuel =>
      match wlist with
      | [] => LRet g
      | x :: wlist =>
          nd ← lift (get_node x g);
          wlist ← lfold (idf_push g) (host_order (n_domfrontier nd)) wlist;
          g ← lift (upd_flags flag_region_entry x g);
          idf_loop fuel wlist g
      end
  end.

(** Each node turns into an entry once; its turn and the turn before it push
    at most one entry per node of the frontier. *)
Definition idf_fuel (g : ModuleGraph) : nat := let n := length (all_nodes g) in ((2 * n + 2) * (n + 1) + 1)%nat.

Definition ComputeRegionIDF (g : ModuleGraph) : lres ModuleGraph :=
  '(wlist, g) ← lfold idf_entry (map Some (ip_list g)) ([], g);
  idf_loop (idf_fuel g) wlist g.

(** ** [ComputeRegionDomSets] *)
Definition region_push (mk : Marker) (force : bool) (n : nid) (st : dfs_state) : pres dfs_state :=
  x ← get_node n (d_g st);
  v ← (if force then POk 0 else Marker_Get mk (n_mark x));
  if force || ((v =? 0) && negb (region_entry (n_flags x)))
  then push_marked mk n x (d_out st ++ [n]) st else POk st.

Definition compute_region (entry : nid) (g : ModuleGraph) : lres (list nid * ModuleGraph) :=
  let '(mk, g) := new_marker 2 g in
  st ← lift (region_push mk true entry (mkDfs g [] []));
  st ← dfs_loop (region_push mk false) (fun _ st => st) (dfs_fuel g) st;
  LRet (d_out st, d_g st).

Definition region_node (n : nid) (s : list (list nid) * ModuleGraph) : lres (list (list nid) * ModuleGraph) :=
  let '(regions, g) := s in
  x ← lift (get_node n g);
  if region_entry (n_flags x)
  then '(r, g) ← compute_region n g; LRet (regions ++ [r], g)
  else LRet (regions, g).

Definition ComputeRegionDomSets (g : ModuleGraph) : lres (list (list nid) * ModuleGraph) :=
  lfold region_node (map Some (ip_list g)) ([], g).

Definition ComputeRegions (g : ModuleGraph) : lres (list (list nid) * ModuleGraph) :=
  g ← ComputeDomTree g;
  g ← ComputeDomFrontier g;
  g ← ComputeRegionIDF g;
  ComputeRegionDomSets g.
End idf.
