(* ===== verification/ModuleGraphInv.v ===== *)
(** * The shape of module graphs

    Views of a node by name, the well-formedness of the graphs that the
    recording operations build, and its preservation by each of them. *)

From stdpp Require Import base tactics numbers list gmap sorting.
From S2P Require Import Prelude Common Execute ModuleGraph.

(** ** Views *)
Abbreviation node g n := (mg_nodes g !! n).
Definition succs (g : ModuleGraph) (n : nid) : list nid := from_option n_succs [] (node g n).
Definition preds (g : ModuleGraph) (n : nid) : list nid := from_option n_preds [] (node g n).
Definition idom (g : ModuleGraph) (n : nid) : option nid := from_option n_dominator None (node g n).
Definition frontier (g : ModuleGraph) (n : nid) : list nid := from_option n_domfrontier [] (node g n).
Definition entry_flag (g : ModuleGraph) (n : nid) : bool :=
  from_option (fun x => is_brind_target (n_flags x) || is_segment_entry (n_flags x)) false (node g n).
Definition reg_entry (g : ModuleGraph) (n : nid) : bool :=
  from_option (fun x => region_entry (n_flags x)) false (node g n).
Definition mark (g : ModuleGraph) (n : nid) : Z := from_option n_mark 0 (node g n).

Record mg_wf (g : ModuleGraph) : Prop := {
  wf_root : is_Some (node g None);
  wf_dual a b : b ∈ succs g a <-> a ∈ preds g b;
  wf_node a b : b ∈ succs g a -> is_Some (node g b);
  wf_root_preds : preds g None = [];
  wf_root_succs b : b ∈ succs g None -> entry_flag g b = true }.

(** No analysis has run. *)
Record mg_fresh (g : ModuleGraph) : Prop := {
  fresh_dom n : idom g n = None;
  fresh_df n : frontier g n = [];
  fresh_entry n : reg_entry g n = false;
  fresh_mark n : mark g n = 0;
  fresh_keeper : mg_markers g = mkKeeper 0 0 }.

(** ** Graphs that agree up to what [f] erases *)
Definition same_upto (f : ModuleGraphNode -> ModuleGraphNode) (g g' : ModuleGraph) : Prop :=
  forall n, f <$> node g n = f <$> node g' n.

#[export] Instance same_upto_equiv f : Equivalence (same_upto f).
Proof.
  split; [by intros g n|by intros g g' H n; rewrite (H n)|].
  intros g1 g2 g3 H12 H23 n. by rewrite (H12 n), (H23 n).
Qed.

Lemma same_view {A} (v : ModuleGraphNode -> A) d f g g' n :
  (forall x, v (f x) = v x) -> same_upto f g g' -> from_option v d (node g n) = from_option v d (node g' n).
Proof.
  intros Hv H. specialize (H n). destruct (node g n) as [x|], (node g' n) as [y|]; cbn in *; try done.
  injection H as H. by rewrite <- (Hv x), <- (Hv y), H.
Qed.

Lemma same_is_Some f g g' n : same_upto f g g' -> is_Some (node g n) <-> is_Some (node g' n).
Proof. intros H. specialize (H n). rewrite <- (fmap_is_Some f), H. by rewrite fmap_is_Some. Qed.

Lemma same_coarser f f' g g' : (forall x, f' (f x) = f' x) -> same_upto f g g' -> same_upto f' g g'.
Proof.
  intros Hf H n. specialize (H n). destruct (node g n) as [x|], (node g' n) as [y|]; cbn in *; try done.
  injection H as H. f_equal. by rewrite <- (Hf x), <- (Hf y), H.
Qed.

(** Edges and entry flags decide well-formedness. *)
Lemma same_wf f g g' :
  (forall x, n_succs (f x) = n_succs x) -> (forall x, n_preds (f x) = n_preds x) ->
  (forall x, is_brind_target (n_flags (f x)) || is_segment_entry (n_flags (f x)) =
             is_brind_target (n_flags x) || is_segment_entry (n_flags x)) ->
  same_upto f g g' -> mg_wf g -> mg_wf g'.
Proof.
  intros Hs Hp Hf H [Hroot Hdual Hnode Hrp Hrs].
  assert (Es : forall n, succs g' n = succs g n) by (intros n; unfold succs; by rewrite (same_view n_succs [] f g g')).
  assert (Ep : forall n, preds g' n = preds g n) by (intros n; unfold preds; by rewrite (same_view n_preds [] f g g')).
  constructor; intros *; rewrite ?Es, ?Ep; auto.
  - by apply (same_is_Some f g).
  - intros Hb%Hnode. by apply (same_is_Some f g).
  - intros Hb%Hrs. rewrite <- Hb. symmetry.
    by apply (same_view (fun x => is_brind_target (n_flags x) || is_segment_entry (n_flags x)) false f g).
Qed.

(** ** Updating one node *)
Lemma upd_node_inv f n g g' :
  upd_node f n g = POk g' ->
  exists x, node g n = Some x /\ g' = with_nodes (<[n := f x]> (mg_nodes g)) g.
Proof. unfold upd_node. destruct (node g n) as [x|] eqn:E; intros [= <-]. eauto. Qed.

Lemma upd_node_ok f n g :
  is_Some (node g n) ->
  exists g', upd_node f n g = POk g' /\ forall m, node g' m = (if decide (m = n) then f <$> node g n else node g m).
Proof.
  intros [x Hx]. exists (with_nodes (<[n := f x]> (mg_nodes g)) g). unfold upd_node. rewrite Hx. split; [done|].
  intros m. cbn. destruct (decide (m = n)) as [->|]; [by rewrite lookup_insert_eq|by rewrite lookup_insert_ne].
Qed.

Lemma upd_node_at f n g g' :
  upd_node f n g = POk g' -> is_Some (node g n) /\ forall m, node g' m = (if decide (m = n) then f <$> node g n else node g m).
Proof.
  intros (x & Hx & ->)%upd_node_inv. split; [by rewrite Hx|]. intros m. cbn. rewrite Hx.
  destruct (decide (m = n)) as [->|]; [by rewrite lookup_insert_eq|by rewrite lookup_insert_ne].
Qed.

(** A view that [f] does not change. *)
Lemma upd_node_keep {A} (v : ModuleGraphNode -> A) d f n g g' :
  upd_node f n g = POk g' -> (forall x, v (f x) = v x) ->
  forall m, from_option v d (node g' m) = from_option v d (node g m).
Proof.
  intros H Hv m. destruct (upd_node_at _ _ _ _ H) as [[x Hx] ->].
  destruct (decide (m = n)) as [->|]; [rewrite Hx; cbn; apply Hv|done].
Qed.

Lemma upd_node_is_Some f n g g' m : upd_node f n g = POk g' -> is_Some (node g' m) <-> is_Some (node g m).
Proof.
  intros H. destruct (upd_node_at _ _ _ _ H) as [Hs ->].
  destruct (decide (m = n)) as [->|]; [|done]. by rewrite fmap_is_Some.
Qed.

Lemma upd_node_same nf f n g g' :
  upd_node f n g = POk g' -> (forall x, nf (f x) = nf x) -> same_upto nf g' g.
Proof.
  intros H Hf m. destruct (upd_node_at _ _ _ _ H) as [_ ->].
  destruct (decide (m = n)) as [->|]; [|done]. destruct (node g n); cbn; [by rewrite Hf|done].
Qed.

(** An update that leaves edges alone and sets no analysis result. *)
Lemma upd_node_wf f n g g' :
  upd_node f n g = POk g' ->
  (forall x, n_succs (f x) = n_succs x) -> (forall x, n_preds (f x) = n_preds x) ->
  (forall x, is_brind_target (n_flags x) || is_segment_entry (n_flags x) = true ->
             is_brind_target (n_flags (f x)) || is_segment_entry (n_flags (f x)) = true) ->
  mg_wf g -> mg_wf g'.
Proof.
  intros H Hs Hp Hf [Hroot Hdual Hnode Hrp Hrs].
  assert (Es : forall m, succs g' m = succs g m) by (unfold succs; by eapply upd_node_keep).
  assert (Ep : forall m, preds g' m = preds g m) by (unfold preds; by eapply upd_node_keep).
  constructor; intros *; rewrite ?Es, ?Ep; eauto using (upd_node_is_Some f n g g').
  - by apply (upd_node_is_Some _ _ _ _ _ H).
  - intros Hb. apply (upd_node_is_Some _ _ _ _ _ H). eauto.
  - intros Hb%Hrs. revert Hb. unfold entry_flag. destruct (upd_node_at _ _ _ _ H) as [[x Hx] ->].
    destruct (decide (b = n)) as [->|]; [|done]. rewrite Hx. cbn. apply Hf.
Qed.

Lemma upd_node_fresh f n g g' :
  upd_node f n g = POk g' ->
  (forall x, n_dominator (f x) = n_dominator x) -> (forall x, n_domfrontier (f x) = n_domfrontier x) ->
  (forall x, region_entry (n_flags (f x)) = region_entry (n_flags x)) -> (forall x, n_mark (f x) = n_mark x) ->
  mg_fresh g -> mg_fresh g'.
Proof.
  intros H Hd Hdf He Hm [Fd Fdf Fe Fm Fk]. constructor.
  - intros m. rewrite <- (Fd m). unfold idom. by eapply upd_node_keep.
  - intros m. rewrite <- (Fdf m). unfold frontier. by eapply upd_node_keep.
  - intros m. rewrite <- (Fe m). unfold reg_entry. eapply (upd_node_keep (fun x => region_entry (n_flags x))); eauto.
  - intros m. rewrite <- (Fm m). unfold mark. by eapply upd_node_keep.
  - apply upd_node_inv in H as (x & _ & ->). done.
Qed.

(** ** Adding an edge *)
Lemma AddSucc_inv n s g g' :
  AddSucc n s g = POk g' ->
  (forall m, succs g' m = if decide (m = n) then succs g m ++ [s] else succs g m) /\
  (forall m, preds g' m = if decide (m = s) then preds g m ++ [n] else preds g m) /\
  (forall m, is_Some (node g' m) <-> is_Some (node g m)) /\
  (forall m, entry_flag g' m = entry_flag g m) /\
  is_Some (node g s) /\ (mg_fresh g -> mg_fresh g').
Proof.
  unfold AddSucc. intros (g1 & H1 & H2)%pbind_ok.
  pose proof (upd_node_is_Some _ _ _ _ s H1) as Hs1.
  split; [|split; [|split; [|split; [|split]]]].
  - intros m. unfold succs. rewrite (upd_node_keep n_succs [] _ _ _ _ H2) by done.
    destruct (upd_node_at _ _ _ _ H1) as [[x Hx] ->]. destruct (decide (m = n)) as [->|]; [by rewrite Hx|done].
  - intros m. unfold preds. destruct (upd_node_at _ _ _ _ H2) as [[x Hx] ->].
    rewrite <- (upd_node_keep n_preds [] _ _ _ _ H1) by done.
    destruct (decide (m = s)) as [->|]; [by rewrite Hx|done].
  - intros m. rewrite (upd_node_is_Some _ _ _ _ m H2). by apply upd_node_is_Some with (1 := H1).
  - intros m. unfold entry_flag. rewrite (upd_node_keep _ false _ _ _ _ H2) by done.
    by rewrite (upd_node_keep _ false _ _ _ _ H1).
  - apply Hs1. by apply (upd_node_at _ _ _ _ H2).
  - intros F. eapply upd_node_fresh; [exact H2|done..|]. by eapply upd_node_fresh; [exact H1|..].
Qed.

Lemma AddSucc_wf n s g g' :
  AddSucc n s g = POk g' -> s <> None -> (n = None -> entry_flag g s = true) -> mg_wf g -> mg_wf g'.
Proof.
  intros (Es & Ep & En & Ef & Hs & _)%AddSucc_inv Hs0 Hflag [Hroot Hdual Hnode Hrp Hrs].
  constructor.
  - by apply En.
  - intros a b. rewrite Es, Ep.
    destruct (decide (a = n)) as [->|], (decide (b = s)) as [->|];
      rewrite ?elem_of_app, ?list_elem_of_singleton, ?Hdual; naive_solver.
  - intros a b. rewrite Es, En. destruct (decide (a = n)) as [->|]; [|eauto].
    rewrite elem_of_app, list_elem_of_singleton. intros [?| ->]; eauto.
  - rewrite Ep. by rewrite decide_False by done.
  - intros b. rewrite Es, Ef. destruct (decide (None = n)) as [<-|]; [|eauto].
    rewrite elem_of_app, list_elem_of_singleton. intros [?| ->]; eauto.
Qed.

(** ** The recording operations *)
Inductive mg_op :=
| OEntry (ip : Z) | OBrindTarget (ip : Z) | OSegmentEntry (ip : Z)
| OGBr (ip tgtip : Z) | OGBrind (ip : Z) | OLink (ip linkip : Z).

Definition apply_op (o : mg_op) : ModuleGraph -> pres ModuleGraph :=
  match o with
  | OEntry ip => RecordEntry ip
  | OBrindTarget ip => RecordBrindTarget ip
  | OSegmentEntry ip => RecordSegmentEntry ip
  | OGBr ip tgtip => RecordGBr ip tgtip
  | OGBrind ip => RecordGBrind ip
  | OLink ip linkip => RecordLink ip linkip
  end.
Fixpoint apply_ops (l : list mg_op) (g : ModuleGraph) : pres ModuleGraph :=
  match l with [] => POk g | o :: l => g ← apply_op o g; apply_ops l g end.

Lemma GetNode_inv ip g n : GetNode ip g = Some n -> n = Some ip /\ is_Some (node g n).
Proof.
  unfold GetNode. destruct (InModule ip g); cbn; [|done].
  destruct (node g (Some ip)) eqn:E; intros [= <-]. by rewrite E.
Qed.

Lemma pderef_inv {A} (o : option A) a : pderef o = POk a -> o = Some a.
Proof. destruct o; cbn; congruence. Qed.

Lemma AddNode_inv ip g n g' :
  AddNode ip g = POk (n, g') ->
  mg_wf g -> mg_fresh g -> mg_wf g' /\ mg_fresh g'.
Proof.
  unfold AddNode. destruct (node g (Some ip)) eqn:E; [done|]. intros [= <- <-] [Hroot Hdual Hnode Hrp Hrs] [Fd Fdf Fe Fm Fk].
  assert (Hv : forall {A} (v : ModuleGraphNode -> A) d m, v (Node_new ip) = d ->
    from_option v d (<[Some ip := Node_new ip]> (mg_nodes g) !! m) = from_option v d (node g m)).
  { intros A v d m Hd. destruct (decide (m = Some ip)) as [->|]; [by rewrite lookup_insert_eq, E|by rewrite lookup_insert_ne]. }
  assert (Es : forall m, is_Some (node g m) -> is_Some (<[Some ip := Node_new ip]> (mg_nodes g) !! m)).
  { intros m ?. rewrite lookup_insert_is_Some. destruct (decide (Some ip = m)); auto. }
  split; constructor; intros *; unfold succs, preds, entry_flag, idom, frontier, reg_entry, mark; cbn [with_nodes mg_nodes];
    rewrite ?Hv by done; eauto.
Qed.

Lemma record_entry_inv f ip g g' :
  (f = flag_brind_target \/ f = flag_segment_entry) ->
  (n ← pderef (GetNode ip g); g ← upd_flags f n g; AddSucc None n g) = POk g' ->
  mg_wf g -> mg_fresh g -> mg_wf g' /\ mg_fresh g'.
Proof.
  intros Hf (n & [-> Hs]%pderef_inv%GetNode_inv & (g1 & H1 & H2)%pbind_ok)%pbind_ok W F.
  assert (W1 : mg_wf g1).
  { eapply upd_node_wf; [exact H1|done..| |done]. intros x. destruct Hf as [->| ->]; cbn; [done|by rewrite orb_true_r]. }
  assert (F1 : mg_fresh g1).
  { eapply upd_node_fresh; [exact H1|done..| | |done]; [|done]. intros x. by destruct Hf as [->| ->]. }
  split; [|by apply (AddSucc_inv _ _ _ _ H2)].
  eapply AddSucc_wf; [exact H2|done| |done]. intros _. unfold entry_flag.
  destruct (upd_node_at _ _ _ _ H1) as [[x Hx] ->]. rewrite decide_True by done. rewrite Hx.
  destruct Hf as [->| ->]; cbn; [done|by rewrite orb_true_r].
Qed.

Lemma apply_op_inv o g g' : apply_op o g = POk g' -> mg_wf g -> mg_fresh g -> mg_wf g' /\ mg_fresh g'.
Proof.
  destruct o as [ip|ip|ip|ip tgt|ip|ip lip]; cbn [apply_op]; intros H W F.
  - unfold RecordEntry in H. apply pbind_ok in H as ([n g1] & H & [= ->]). by eapply AddNode_inv.
  - eapply record_entry_inv; [left; reflexivity|exact H|done..].
  - eapply record_entry_inv; [right; reflexivity|exact H|done..].
  - unfold RecordGBr in H. apply pbind_ok in H as (n & [-> Hs]%pderef_inv%GetNode_inv & H).
    destruct (GetNode tgt g) as [t|] eqn:Et.
    + apply GetNode_inv in Et as [-> _]. split; [by eapply AddSucc_wf|by apply (AddSucc_inv _ _ _ _ H)].
    + split; [by eapply upd_node_wf|by eapply upd_node_fresh].
  - unfold RecordGBrind in H. apply pbind_ok in H as (n & _ & H).
    split; [by eapply upd_node_wf|by eapply upd_node_fresh].
  - unfold RecordLink in H. apply pbind_ok in H as (n & _ & H).
    split; [by eapply upd_node_wf|by eapply upd_node_fresh].
Qed.

Lemma MG_new_inv seg : mg_wf (MG_new seg) /\ mg_fresh (MG_new seg).
Proof.
  assert (Hv : forall {A} (v : ModuleGraphNode -> A) d m, v (Node_new 0) = d ->
    from_option v d (mg_nodes (MG_new seg) !! m) = d).
  { intros A v d m Hd. cbn. destruct (decide (m = None)) as [->|]; [by rewrite lookup_singleton_eq|by rewrite lookup_singleton_ne]. }
  split; constructor; intros *; unfold succs, preds, entry_flag, idom, frontier, reg_entry, mark; rewrite ?Hv by done;
    try done; try (by intros ?%not_elem_of_nil).
  all: try (split; by intros ?%not_elem_of_nil).
Qed.

Lemma apply_ops_inv l : forall g g', apply_ops l g = POk g' -> mg_wf g -> mg_fresh g -> mg_wf g' /\ mg_fresh g'.
Proof.
  induction l as [|o l IH]; cbn; intros g g' H W F; [by injection H as <-|].
  apply pbind_ok in H as (g1 & H1 & H2). destruct (apply_op_inv _ _ _ H1 W F). eauto.
Qed.
