(* ===== verification/ModuleGraphDfs.v ===== *)
(** * Depth-first search over the module graph

    Both traversals of [aot_module.cpp] run the same loop.  It ends within
    [dfs_fuel] turns, never panics, and visits exactly the nodes reachable
    from the start through admissible nodes, each of them once. *)

From stdpp Require Import base tactics numbers list gmap sorting relations.
From S2P Require Import Prelude Common Execute ModuleGraph ModuleGraphInv.

(** ** The nodes of a graph *)
Lemma ip_list_spec g ip : ip ∈ ip_list g <-> is_Some (node g (Some ip)).
Proof.
  unfold ip_list. rewrite merge_sort_Permutation, list_elem_of_omap. split.
  - intros ([k x] & Hx%elem_of_map_to_list & Hk). cbn in Hk. subst k. by rewrite Hx.
  - intros [x Hx]. exists (Some ip, x). by rewrite elem_of_map_to_list.
Qed.

Lemma ip_list_NoDup g : NoDup (ip_list g).
Proof.
  unfold ip_list. rewrite merge_sort_Permutation.
  pose proof (NoDup_fst_map_to_list (mg_nodes g)) as H. revert H.
  induction (map_to_list (mg_nodes g)) as [|[k x] l IH]; cbn; [constructor|].
  intros [Hk Hl]%NoDup_cons. destruct k as [k|]; [|auto]. apply NoDup_cons. split; [|auto].
  rewrite list_elem_of_omap. intros ([k' x'] & Hin & Hk'). cbn in Hk'. subst k'.
  apply Hk. apply list_elem_of_fmap. by exists (Some k, x').
Qed.

Lemma all_nodes_NoDup g : NoDup (all_nodes g).
Proof.
  unfold all_nodes. apply NoDup_cons. split; [|apply NoDup_fmap; [apply _|apply ip_list_NoDup]].
  rewrite list_elem_of_fmap. by intros (? & ? & ?).
Qed.

Lemma all_nodes_spec g n : is_Some (node g None) -> n ∈ all_nodes g <-> is_Some (node g n).
Proof.
  intros Hr. unfold all_nodes. rewrite elem_of_cons, list_elem_of_fmap. split.
  - intros [->|(ip & -> & Hip)]; [done|by apply ip_list_spec].
  - intros Hn. destruct n as [ip|]; [right|by left]. exists ip. by rewrite ip_list_spec.
Qed.

Lemma sum_map_perm {A} (f : A -> nat) l l' : l ≡ₚ l' -> sum_list (map f l) = sum_list (map f l').
Proof. induction 1; cbn; lia. Qed.

Lemma filter_all {A} (P : A -> Prop) `{forall x, Decision (P x)} (l : list A) : (forall x, P x) -> filter P l = l.
Proof. intros HP. induction l as [|x l IH]; [done|]. rewrite filter_cons_True by done. by rewrite IH. Qed.

Lemma sublist_reverse {A} (l k : list A) : l `sublist_of` k -> reverse l `sublist_of` reverse k.
Proof.
  induction 1 as [|x l k H IH|x l k H IH]; [constructor|..]; rewrite ?reverse_cons.
  - by apply sublist_app.
  - by apply sublist_inserts_r.
Qed.

(** ** Graphs that differ in marks only *)
Abbreviation shape_eq := (same_upto (set_mark 0)).

#[export] Instance succs_shape : Proper (shape_eq ==> eq ==> eq) succs.
Proof. intros g g' H n ? <-. by apply (same_view _ _ (set_mark 0)). Qed.
#[export] Instance preds_shape : Proper (shape_eq ==> eq ==> eq) preds.
Proof. intros g g' H n ? <-. by apply (same_view _ _ (set_mark 0)). Qed.
#[export] Instance idom_shape : Proper (shape_eq ==> eq ==> eq) idom.
Proof. intros g g' H n ? <-. by apply (same_view _ _ (set_mark 0)). Qed.
#[export] Instance frontier_shape : Proper (shape_eq ==> eq ==> eq) frontier.
Proof. intros g g' H n ? <-. by apply (same_view _ _ (set_mark 0)). Qed.
#[export] Instance entry_flag_shape : Proper (shape_eq ==> eq ==> eq) entry_flag.
Proof. intros g g' H n ? <-. by apply (same_view (fun x => is_brind_target (n_flags x) || is_segment_entry (n_flags x)) _ (set_mark 0)). Qed.
#[export] Instance reg_entry_shape : Proper (shape_eq ==> eq ==> eq) reg_entry.
Proof. intros g g' H n ? <-. by apply (same_view (fun x => region_entry (n_flags x)) _ (set_mark 0)). Qed.

Lemma shape_is_Some g g' n : shape_eq g g' -> is_Some (node g n) <-> is_Some (node g' n).
Proof. apply same_is_Some. Qed.

Lemma shape_wf g g' : shape_eq g g' -> mg_wf g -> mg_wf g'.
Proof. by apply same_wf. Qed.

Lemma set_mark_shape m n x g :
  node g n = Some x -> shape_eq (with_nodes (<[n := set_mark m x]> (mg_nodes g)) g) g.
Proof.
  intros Hx k. cbn. destruct (decide (k = n)) as [->|]; [|by rewrite lookup_insert_ne].
  rewrite lookup_insert_eq, Hx. done.
Qed.

Lemma shape_ip_list g g' : shape_eq g g' -> ip_list g ≡ₚ ip_list g'.
Proof.
  intros H. apply NoDup_Permutation; [apply ip_list_NoDup..|]. intros ip.
  rewrite !ip_list_spec. by apply shape_is_Some.
Qed.

(** ** Marks *)
Record bool_marker (mk : Marker) : Prop := {
  bm_min : 0 <= mmin mk; bm_max : mmax mk = mmin mk + 2; bm_16 : mmax mk < 2 ^ 16 }.

(** The visited nodes [V] carry the mark 1, the others an older one. *)
Definition marks_are (mk : Marker) (g : ModuleGraph) (V : list nid) : Prop :=
  forall n x, node g n = Some x ->
    (n ∈ V -> n_mark x = mmin mk + 1) /\ (n ∉ V -> 0 <= n_mark x <= mmin mk).

Lemma marks_Get mk g V n x :
  bool_marker mk -> marks_are mk g V -> node g n = Some x ->
  Marker_Get mk (n_mark x) = POk (if decide (n ∈ V) then 1 else 0).
Proof.
  intros [H0 H2 H16] HV Hx. destruct (HV n x Hx) as [Hin Hout]. unfold Marker_Get.
  destruct (decide (n ∈ V)) as [Hn|Hn].
  - rewrite (Hin Hn). destruct (Z.ltb_spec (mmin mk + 1) (mmax mk)); [|lia]. cbn. f_equal.
    destruct (Z.ltb_spec (mmin mk + 1) (mmin mk)); lia.
  - specialize (Hout Hn). destruct (Z.ltb_spec (n_mark x) (mmax mk)); [|lia]. cbn. f_equal.
    destruct (Z.ltb_spec (n_mark x) (mmin mk)); lia.
Qed.

Lemma marks_Set mk m : bool_marker mk -> 0 <= m < mmax mk -> Marker_Set mk m 1 = POk (mmin mk + 1).
Proof.
  intros [H0 H2 H16] Hm. unfold Marker_Set.
  destruct (Z.ltb_spec m (mmax mk)); [|lia]. change (u16 1) with 1. cbn [mbind pres_bind passert].
  destruct (Z.ltb_spec (1 + mmin mk) (mmax mk)); [|lia]. cbn. f_equal.
  unfold u16, uN. rewrite Z.mod_small by lia. lia.
Qed.

(** ** The generic search *)
Section search.
Context (g0 : ModuleGraph) (W : mg_wf g0) (mk : Marker) (BM : bool_marker mk).
(** [ok]: the nodes that may be entered; [fo], [fp]: what a push and a pop do
    to the output; [P]: what the client tracks about it. *)
Context (ok : nid -> bool) (fo fp : list nid -> nid -> list nid).
Context (push : nid -> dfs_state -> pres dfs_state) (on_pop : nid -> dfs_state -> dfs_state).
Context (P : list nid -> list (nid * list nid) -> list nid -> Prop).

Definition gpush (n : nid) (st : dfs_state) : pres dfs_state :=
  x ← get_node n (d_g st);
  v ← Marker_Get mk (n_mark x);
  if (v =? 0) && ok n then push_marked mk n x (fo (d_out st) n) st else POk st.

Context (push_eq : forall n st, shape_eq (d_g st) g0 -> push n st = gpush n st).
Context (pop_eq : forall n st, on_pop n st = mkDfs (d_g st) (d_stk st) (fp (d_out st) n)).
Context (P_push : forall out n x xs stk V, P out ((n, x :: xs) :: stk) V -> x ∈ succs g0 n -> x ∉ V ->
                    P (fo out x) ((x, succs g0 x) :: (n, xs) :: stk) (V ++ [x])).
Context (P_skip : forall out n x xs stk V, P out ((n, x :: xs) :: stk) V -> P out ((n, xs) :: stk) V).
Context (P_pop : forall out n stk V, P out ((n, []) :: stk) V -> P (fp out n) stk V).

Definition step_ok (a b : nid) : Prop := b ∈ succs g0 a /\ ok b = true.
Definition reach (e n : nid) : Prop := rtc step_ok e n.

Definition settled (V : list nid) (m : nid) : Prop := m ∈ V \/ ok m = false.
Definition entry_ok (V : list nid) (e : nid * list nid) : Prop :=
  e.1 ∈ V /\ exists l, succs g0 e.1 = l ++ e.2 /\ forall m, m ∈ l -> settled V m.

Record dinv (e : nid) (st : dfs_state) (V : list nid) : Prop := {
  di_shape : shape_eq (d_g st) g0;
  di_keeper : mg_markers (d_g st) = mg_markers g0;
  di_nodup : NoDup V;
  di_node n : n ∈ V -> is_Some (node g0 n);
  di_marks : marks_are mk (d_g st) V;
  di_reach n : n ∈ V -> reach e n;
  di_entry : e ∈ V;
  di_stk : Forall (entry_ok V) (d_stk st);
  di_done n : n ∈ V -> n ∉ (d_stk st).*1 -> forall m, m ∈ succs g0 n -> settled V m;
  di_P : P (d_out st) (d_stk st) V }.

Definition weight (n : nid) : nat := S (length (succs g0 n)).
Definition todo (V : list nid) : nat := sum_list (map weight (filter (fun n => n ∉ V) (all_nodes g0))).
Definition stk_weight (stk : list (nid * list nid)) : nat := sum_list (map (fun e => S (length e.2)) stk).

Lemma todo_push V x : is_Some (node g0 x) -> x ∉ V -> todo V = (weight x + todo (V ++ [x]))%nat.
Proof.
  intros Hx HV. unfold todo.
  assert (E : filter (fun n => n ∉ V) (all_nodes g0) ≡ₚ x :: filter (fun n => n ∉ V ++ [x]) (all_nodes g0)).
  { apply NoDup_Permutation; [apply NoDup_filter, all_nodes_NoDup| |].
    - apply NoDup_cons. split; [|apply NoDup_filter, all_nodes_NoDup].
      rewrite list_elem_of_filter, elem_of_app, list_elem_of_singleton. tauto.
    - intros y. rewrite elem_of_cons, !list_elem_of_filter, elem_of_app, list_elem_of_singleton.
      rewrite !all_nodes_spec by apply W. destruct (decide (y = x)) as [->|]; tauto. }
  by rewrite (sum_map_perm weight _ _ E).
Qed.

Lemma dinv_skip e g out n x xs stk V :
  dinv e (mkDfs g ((n, x :: xs) :: stk) out) V -> settled V x -> dinv e (mkDfs g ((n, xs) :: stk) out) V.
Proof.
  intros [Sh K Nd No Ma Re En St Do HP] Hx. constructor; cbn in *; try done; [|by eapply P_skip].
  apply Forall_cons in St as [[Hn (l & Hl & Hset)] St]. apply Forall_cons. split; [|done].
  split; [done|]. exists (l ++ [x]). rewrite <- app_assoc. split; [done|].
  intros m [Hm| ->%list_elem_of_singleton]%elem_of_app; [by apply Hset|done].
Qed.

Lemma settled_mono V x m : settled V m -> settled (V ++ [x]) m.
Proof. intros [?|?]; [left; by apply elem_of_app; left|by right]. Qed.

Lemma marks_push g V n x :
  marks_are mk g V -> node g n = Some x -> marks_are mk (with_nodes (<[n := set_mark (mmin mk + 1) x]> (mg_nodes g)) g) (V ++ [n]).
Proof.
  intros HV Hx m y. cbn. destruct (decide (m = n)) as [->|Hne].
  - rewrite lookup_insert_eq. intros [= <-]. cbn. rewrite elem_of_app, list_elem_of_singleton. tauto.
  - rewrite lookup_insert_ne by done. intros Hy. rewrite elem_of_app, list_elem_of_singleton.
    destruct (HV m y Hy). tauto.
Qed.

(** A new node on the stack. *)
Lemma dinv_push e g out n x xs stk V nd :
  dinv e (mkDfs g ((n, x :: xs) :: stk) out) V -> x ∉ V -> ok x = true -> node g x = Some nd ->
  dinv e (mkDfs (with_nodes (<[x := set_mark (mmin mk + 1) nd]> (mg_nodes g)) g)
            ((x, n_succs nd) :: (n, xs) :: stk) (fo out x)) (V ++ [x]).
Proof.
  intros [Sh K Nd No Ma Re En St Do HP] HxV Hok Hnd. cbn in *.
  pose proof (Forall_inv St) as [Hn (l & Hl & Hset)]. cbn in *.
  assert (Hxn : x ∈ succs g0 n) by (rewrite Hl; set_solver).
  assert (Es : n_succs nd = succs g0 x) by (rewrite <- Sh; unfold succs; by rewrite Hnd).
  constructor; cbn.
  - by rewrite set_mark_shape.
  - done.
  - apply NoDup_app. split; [done|]. split; [|apply NoDup_singleton]. intros y Hy ->%list_elem_of_singleton. done.
  - intros m [Hm| ->%list_elem_of_singleton]%elem_of_app; [by apply No|]. by apply (wf_node _ W n).
  - by apply marks_push.
  - intros m [Hm| ->%list_elem_of_singleton]%elem_of_app; [by apply Re|].
    apply rtc_r with n; [by apply Re|done].
  - by apply elem_of_app; left.
  - apply Forall_cons. split.
    { split; [set_solver|]. exists []. split; [by rewrite Es|]. by intros m ?%not_elem_of_nil. }
    apply Forall_cons in St as [_ St]. apply Forall_cons. split.
    + split; [set_solver|]. exists (l ++ [x]). rewrite <- app_assoc. split; [done|].
      intros m [Hm| ->%list_elem_of_singleton]%elem_of_app; [by apply settled_mono, Hset|left; set_solver].
    + eapply Forall_impl; [exact St|]. intros [k r] [Hk (l' & Hl' & Hs')]. split; [set_solver|].
      exists l'. split; [done|]. intros m Hm. by apply settled_mono, Hs'.
  - intros m Hm Hns k Hk. apply not_elem_of_cons in Hns as [Hmx Hns].
    apply elem_of_app in Hm as [Hm|Hm]; [|by apply list_elem_of_singleton in Hm].
    apply settled_mono. by apply (Do m).
  - rewrite Es. by apply P_push.
Qed.

Lemma dinv_pop e g out n stk V :
  dinv e (mkDfs g ((n, []) :: stk) out) V -> dinv e (on_pop n (mkDfs g stk out)) V.
Proof.
  intros [Sh K Nd No Ma Re En St Do HP]. rewrite pop_eq. cbn in *.
  apply Forall_cons in St as [[Hn (l & Hl & Hset)] St]. cbn in *.
  constructor; cbn; try done; [|by apply P_pop].
  intros m Hm Hns k Hk. destruct (decide (m = n)) as [->|Hne].
  - rewrite Hl, app_nil_r in Hk. by apply Hset.
  - apply (Do m); [done| |done]. by apply not_elem_of_cons.
Qed.

Lemma dfs_loop_spec e fuel : forall st V,
  dinv e st V -> (todo V + stk_weight (d_stk st) < fuel)%nat ->
  exists st' V', dfs_loop push on_pop fuel st = LRet st' /\ d_stk st' = [] /\ dinv e st' V'.
Proof.
  induction fuel as [|fuel IH]; intros [g stk out] V D Hf; [lia|]. cbn [dfs_loop d_stk d_g d_out] in *.
  destruct stk as [|[n [|x xs]] stk].
  - eauto.
  - apply dinv_pop in D. apply IH in D; [exact D|]. rewrite pop_eq. cbn in *. lia.
  - assert (Sh : shape_eq g g0) by apply D.
    assert (Hx : x ∈ succs g0 n).
    { pose proof (Forall_inv (di_stk _ _ _ D)) as [_ (l & Hl & _)]. cbn in Hl. rewrite Hl. set_solver. }
    rewrite push_eq by done. unfold gpush, get_node. cbn [d_g].
    assert (Hs : is_Some (node g x)) by (apply (shape_is_Some _ _ _ Sh); by apply (wf_node _ W n)).
    destruct Hs as [nd Hnd]. rewrite Hnd. cbn [pderef mbind pres_bind].
    rewrite (marks_Get _ _ _ _ _ BM (di_marks _ _ _ D) Hnd). cbn [mbind pres_bind].
    destruct (decide (x ∈ V)) as [HxV|HxV]; [|destruct (ok x) eqn:Hok]; cbn [Z.eqb andb lift mbind lres_bind].
    + eapply dinv_skip in D; [|by left]. apply IH in D; [exact D|]. cbn in *. lia.
    + unfold push_marked. cbn [d_g d_stk d_out].
      destruct (di_marks _ _ _ D x nd Hnd) as [_ Hold]. specialize (Hold HxV).
      rewrite (marks_Set _ _ BM) by (destruct BM; lia). cbn [mbind pres_bind lift lres_bind].
      pose proof (dinv_push _ _ _ _ _ _ _ _ _ D HxV Hok Hnd) as D'. apply IH in D'; [exact D'|].
      rewrite (todo_push V x) in Hf; [|by apply (wf_node _ W n)|done]. cbn [stk_weight d_stk] in *.
      assert (Es : n_succs nd = succs g0 x) by (rewrite <- Sh; unfold succs; by rewrite Hnd).
      unfold weight, stk_weight in *. cbn in *. rewrite Es. lia.
    + eapply dinv_skip in D; [|by right]. apply IH in D; [exact D|]. cbn in *. lia.
Qed.

(** At the end the visited nodes are the reachable ones. *)
Lemma dinv_final e st V n : dinv e st V -> d_stk st = [] -> n ∈ V <-> reach e n.
Proof.
  intros D Hstk. split; [apply D|]. intros Hr. apply (rtc_ind_r (R := step_ok) (fun m => m ∈ V) e); [apply D| |done].
  intros a b _ [Hab Hok] Ha. destruct (di_done _ _ _ D a Ha) with (m := b) as [?|?]; [|done|done|congruence].
  rewrite Hstk. apply not_elem_of_nil.
Qed.
End search.

(** ** Fresh markers *)
Definition keeper_ok (g : ModuleGraph) : Prop :=
  0 <= k_mmax (mg_markers g) /\ forall n x, node g n = Some x -> 0 <= n_mark x <= k_mmax (mg_markers g).

Definition next_keeper (k : MarkerKeeper) (s : Z) : MarkerKeeper := mkKeeper (k_mmax k) (k_mmax k + s).

Lemma new_marker_spec s g :
  keeper_ok g -> 0 <= s <= 255 -> k_mmax (mg_markers g) + s < 2 ^ 16 ->
  new_marker s g = (mkMarker (k_mmax (mg_markers g)) (k_mmax (mg_markers g) + s),
                    mkMG (mg_segment g) (mg_nodes g) (next_keeper (mg_markers g) s)).
Proof.
  intros [Hk _] Hs Hm. unfold new_marker, Marker_new, next_keeper, u8, u16, uN.
  rewrite (Z.mod_small s) by lia. by rewrite Z.mod_small by lia.
Qed.

Lemma marks_start g s k :
  keeper_ok g -> marks_are (mkMarker (k_mmax (mg_markers g)) s) (mkMG (mg_segment g) (mg_nodes g) k) [].
Proof. intros [_ H] n x Hx. cbn in *. split; [by intros ?%not_elem_of_nil|]. intros _. by apply (H n). Qed.

Lemma marks_keeper mk g V :
  bool_marker mk -> marks_are mk g V -> k_mmax (mg_markers g) = mmax mk -> keeper_ok g.
Proof.
  intros [H0 H2 H16] HV Hk. split; [lia|]. intros n x Hx. rewrite Hk. destruct (HV n x Hx) as [Hin Hout].
  destruct (decide (n ∈ V)) as [Hn|Hn]; [rewrite Hin by done; lia|]. specialize (Hout Hn). lia.
Qed.

Lemma dfs_fuel_todo g e :
  mg_wf g -> is_Some (node g e) -> (todo g [e] + stk_weight [(e, succs g e)] < dfs_fuel g)%nat.
Proof.
  intros W He. pose proof (todo_push g W [] e He (not_elem_of_nil e)) as Ht. cbn [app] in Ht.
  assert (Hf : dfs_fuel g = S (todo g [])).
  { unfold dfs_fuel, todo. f_equal. rewrite filter_all by (intros n; apply not_elem_of_nil).
    f_equal. apply map_ext_in. intros n Hn%list_elem_of_In%all_nodes_spec; [|apply W].
    destruct Hn as [x Hx]. unfold weight, succs. by rewrite Hx. }
  rewrite Hf, Ht. unfold weight, stk_weight. cbn. lia.
Qed.

(** ** The two traversals *)
Definition edge (g : ModuleGraph) (a b : nid) : Prop := b ∈ succs g a.

(** [l] is an order of the nodes reachable from the root in which every other
    node has a predecessor in front of it. *)
Record rpo_of (g : ModuleGraph) (l : list nid) : Prop := {
  rpo_nodup : NoDup l;
  rpo_reach n : n ∈ l <-> rtc (edge g) None n;
  rpo_head : head l = Some None;
  rpo_pred b : b ∈ l -> b <> None -> exists p, [p; b] `sublist_of` l /\ b ∈ succs g p }.

Definition rpoP (g : ModuleGraph) (out : list nid) (stk : list (nid * list nid)) (V : list nid) : Prop :=
  out ++ stk.*1 ≡ₚ V /\ last (out ++ stk.*1) = Some None /\
  forall b, b ∈ V -> b <> None -> exists p, [b; p] `sublist_of` out ++ stk.*1 /\ b ∈ succs g p.

Lemma rpoP_push g out n x xs stk V :
  rpoP g out ((n, x :: xs) :: stk) V -> x ∈ succs g n -> x ∉ V ->
  rpoP g out ((x, succs g x) :: (n, xs) :: stk) (V ++ [x]).
Proof.
  intros (HP & HL & HB) Hx HV. unfold rpoP in *. cbn in *. split; [|split].
  - rewrite <- Permutation_middle, HP. apply Permutation_cons_append.
  - rewrite last_app in *. cbn [last] in *. done.
  - intros b [Hb| ->%list_elem_of_singleton]%elem_of_app Hne.
    + destruct (HB b Hb Hne) as (p & Hp & Hs). exists p. split; [|done]. etransitivity; [exact Hp|].
      apply sublist_app; [done|]. by apply sublist_cons.
    + exists n. split; [|done]. apply sublist_inserts_l. apply sublist_skip, sublist_skip. apply sublist_nil_l.
Qed.

Lemma rpoP_pop g out n stk V : rpoP g out ((n, []) :: stk) V -> rpoP g (out ++ [n]) stk V.
Proof. unfold rpoP. cbn. by rewrite <- app_assoc. Qed.

(** Both searches start with the entry on the stack. *)
Definition start_state (mk : Marker) (g : ModuleGraph) (e : nid) (r : ModuleGraphNode) (out : list nid) : dfs_state :=
  mkDfs (with_nodes (<[e := set_mark (mmin mk + 1) r]> (mg_nodes g)) g) [(e, succs g e)] out.

Lemma push_start mk g e r out :
  bool_marker mk -> marks_are mk g [] -> node g e = Some r ->
  push_marked mk e r out (mkDfs g [] []) = POk (start_state mk g e r out).
Proof.
  intros BM M Hr. unfold push_marked, start_state. cbn [d_g d_stk].
  destruct (M e r Hr) as [_ Hold]. specialize (Hold (not_elem_of_nil _)).
  rewrite (marks_Set _ _ BM) by (destruct BM; lia). cbn [mbind pres_bind]. unfold succs. by rewrite Hr.
Qed.

Lemma dinv_start mk g ok (P : list nid -> list (nid * list nid) -> list nid -> Prop) e r out :
  bool_marker mk -> marks_are mk g [] -> node g e = Some r -> P out [(e, succs g e)] [e] ->
  dinv g mk ok P e (start_state mk g e r out) [e].
Proof.
  intros BM M Hr HP. constructor; cbn.
  - by apply set_mark_shape.
  - done.
  - apply NoDup_singleton.
  - intros n ->%list_elem_of_singleton. by rewrite Hr.
  - apply (marks_push mk g [] e r M Hr).
  - intros n ->%list_elem_of_singleton. constructor.
  - by apply list_elem_of_singleton.
  - apply Forall_singleton. split; [by apply list_elem_of_singleton|]. exists []. split; [done|]. by intros m ?%not_elem_of_nil.
  - intros n ->%list_elem_of_singleton []. by apply list_elem_of_singleton.
  - done.
Qed.

Lemma RPOTraversal_spec g :
  mg_wf g -> keeper_ok g -> k_mmax (mg_markers g) + 2 < 2 ^ 16 ->
  exists rpot g', RPOTraversal g = LRet (rpot, g') /\ shape_eq g' g /\ keeper_ok g' /\
    mg_markers g' = next_keeper (mg_markers g) 2 /\ rpo_of g rpot.
Proof.
  intros W K HK. unfold RPOTraversal. rewrite new_marker_spec by (done || lia).
  set (mk := mkMarker _ _). set (g1 := mkMG _ _ _). cbv beta iota.
  assert (BM : bool_marker mk) by (destruct K; constructor; cbn; lia).
  assert (W1 : mg_wf g1) by (eapply shape_wf; [|exact W]; intros n; reflexivity).
  destruct (wf_root _ W1) as [r Hr].
  assert (M1 : marks_are mk g1 []) by (by apply marks_start).
  assert (Hp : rpo_push mk None (mkDfs g1 [] []) = POk (start_state mk g1 None r [])).
  { unfold rpo_push, get_node. cbn [d_g]. rewrite Hr. cbn [pderef mbind pres_bind].
    rewrite (marks_Get _ _ _ _ _ BM M1 Hr). rewrite decide_False by apply not_elem_of_nil. cbn [mbind pres_bind Z.eqb].
    by apply push_start. }
  rewrite Hp. cbn [lift mbind lres_bind].
  destruct (dfs_loop_spec g1 W1 mk BM (fun _ => true) (fun o _ => o) (fun o n => o ++ [n]) (rpo_push mk) rpo_pop (rpoP g1))
    with (e := @None Z) (fuel := dfs_fuel g1) (V := [@None Z]) (st := start_state mk g1 None r []) as (st' & V & -> & Hstk & D).
  - intros n st _. unfold rpo_push, gpush. destruct (get_node n (d_g st)); [|done]. cbn [mbind pres_bind].
    destruct (Marker_Get mk _) as [v|]; [|done]. cbn [mbind pres_bind]. by rewrite andb_true_r.
  - done.
  - intros. by apply rpoP_push.
  - by unfold rpoP.
  - apply rpoP_pop.
  - apply dinv_start; [done..|]. split; [done|]. split; [done|]. intros b ->%list_elem_of_singleton. done.
  - apply dfs_fuel_todo; [done|by rewrite Hr].
  - cbn [mbind lres_bind]. exists (reverse (d_out st')), (d_g st').
    pose proof (di_P _ _ _ _ _ _ _ D) as HP. pose proof (di_keeper _ _ _ _ _ _ _ D) as Kp.
    rewrite Hstk in HP. destruct HP as (HP & HL & HB). cbn in HP, HL, HB. rewrite app_nil_r in HP, HL, HB.
    split; [done|]. split; [rewrite (di_shape _ _ _ _ _ _ _ D); intros n; reflexivity|].
    split; [by eapply marks_keeper; [exact BM|apply D|rewrite Kp]|].
    split; [done|]. constructor.
    + rewrite reverse_Permutation, HP. apply D.
    + intros n. rewrite elem_of_reverse, HP.
      rewrite (dinv_final g1 mk (fun _ => true) (rpoP g1) None st' V n) by done.
      split; intros H; eapply rtc_subrel; try exact H; intros a b; [by intros [? _]|done].
    + by rewrite head_reverse.
    + intros b. rewrite elem_of_reverse, HP. intros Hb Hne. destruct (HB b Hb Hne) as (p & Hp' & Hs).
      exists p. split; [|done]. by apply (sublist_reverse [b; p]).
Qed.

(** The nodes of the region of [e]: those it reaches through nodes that are
    not entries. *)
Definition region_step (g : ModuleGraph) (a b : nid) : Prop := b ∈ succs g a /\ reg_entry g b = false.
Definition in_region (g : ModuleGraph) (e n : nid) : Prop := rtc (region_step g) e n.

Lemma compute_region_spec g e :
  mg_wf g -> keeper_ok g -> k_mmax (mg_markers g) + 2 < 2 ^ 16 -> is_Some (node g e) ->
  exists r g', compute_region e g = LRet (r, g') /\ shape_eq g' g /\ keeper_ok g' /\
    mg_markers g' = next_keeper (mg_markers g) 2 /\
    NoDup r /\ head r = Some e /\ forall n, n ∈ r <-> in_region g e n.
Proof.
  intros W K HK [x0 Hx]. unfold compute_region. rewrite new_marker_spec by (done || lia).
  set (mk := mkMarker _ _). set (g1 := mkMG _ _ _). cbv beta iota.
  assert (BM : bool_marker mk) by (destruct K; constructor; cbn; lia).
  assert (W1 : mg_wf g1) by (eapply shape_wf; [|exact W]; intros n; reflexivity).
  assert (M1 : marks_are mk g1 []) by (by apply marks_start).
  assert (Hx1 : node g1 e = Some x0) by exact Hx.
  assert (Hp : region_push mk true e (mkDfs g1 [] []) = POk (start_state mk g1 e x0 [e])).
  { unfold region_push, get_node. cbn [d_g]. rewrite Hx1. cbn [pderef mbind pres_bind orb d_out app]. by apply push_start. }
  rewrite Hp. cbn [lift mbind lres_bind].
  destruct (dfs_loop_spec g1 W1 mk BM (fun n => negb (reg_entry g1 n)) (fun o n => o ++ [n]) (fun o _ => o)
              (region_push mk false) (fun _ st => st) (fun out _ V => out = V /\ head out = Some e))
    with (e := e) (fuel := dfs_fuel g1) (V := [e]) (st := start_state mk g1 e x0 [e]) as (st' & V & -> & Hstk & D).
  - intros n st Sh. unfold region_push, gpush, get_node. destruct (node (d_g st) n) as [y|] eqn:Hy; [|done]. cbn [pderef mbind pres_bind].
    destruct (Marker_Get mk _) as [v|]; [|done]. cbn [mbind pres_bind orb].
    assert (reg_entry g1 n = region_entry (n_flags y)) as -> by (rewrite <- Sh; unfold reg_entry; by rewrite Hy). done.
  - by intros n [].
  - intros out n x xs stk V [-> He] _ _. split; [done|]. by destruct V.
  - done.
  - done.
  - by apply dinv_start.
  - apply dfs_fuel_todo; [done|by rewrite Hx1].
  - cbn [mbind lres_bind]. exists (d_out st'), (d_g st').
    pose proof (di_P _ _ _ _ _ _ _ D) as [HP He]. pose proof (di_keeper _ _ _ _ _ _ _ D) as Kp.
    split; [done|]. split; [rewrite (di_shape _ _ _ _ _ _ _ D); intros n; reflexivity|].
    split; [by eapply marks_keeper; [exact BM|apply D|rewrite Kp]|].
    split; [done|]. split; [rewrite HP; apply D|]. split; [done|].
    intros n. rewrite HP.
    rewrite (dinv_final g1 mk (fun n => negb (reg_entry g1 n)) (fun out _ V => out = V /\ head out = Some e) e st' V n) by done.
    unfold reach, in_region, step_ok, region_step.
    split; intros H; eapply rtc_subrel; try exact H; intros a b [? Hb]; (split; [done|]);
      change (reg_entry g1 b) with (reg_entry g b) in *; by destruct (reg_entry g b).
Qed.
