(* ===== verification/DomTree.v ===== *)
(** * The iterative dominator algorithm

    The argument behind [ModuleGraph::ComputeDomTree], on an abstract graph:
    a partial map [d] of immediate dominators that is revised node by node in
    reverse post-order, each node taking the lowest common ancestor of its
    predecessors.  Every revision moves a node up its own chain of ancestors,
    so the passes end; when a pass changes nothing the ancestors of a node
    are exactly its dominators. *)

From stdpp Require Import base tactics numbers list.
From S2P Require Import Prelude.

Section domtree.
Context {N : Type} `{EqDecision N} (root : N).
(** [num] is the position in reverse post-order; every node but the root has
    a predecessor in front of it. *)
Context (is_node : N -> Prop) (preds : N -> list N) (num : N -> Z).
Context (num_inj : forall a b, is_node a -> is_node b -> num a = num b -> a = b).
Context (preds_node : forall b p, is_node b -> p ∈ preds b -> is_node p).
Context (root_node : is_node root).
Context (fwd_pred : forall b, is_node b -> b <> root -> exists p, p ∈ preds b /\ num p < num b).
Context (root_preds : preds root = []).

Abbreviation dmap := (N -> option N).

(** [anc d a b]: [a] is on the chain of [b]. *)
Inductive anc (d : dmap) : N -> N -> Prop :=
| anc_refl b : anc d b b
| anc_up a b p : b <> root -> d b = Some p -> anc d a p -> anc d a b.

Inductive path : N -> list N -> Prop :=
| path_root : path root [root]
| path_step p b l : path p l -> p ∈ preds b -> path b (b :: l).

Definition dominates (a b : N) : Prop := forall l, path b l -> a ∈ l.

Record tree (d : dmap) : Prop := {
  t_root : d root = Some root;
  t_up b p : b <> root -> d b = Some p -> is_node b /\ num p < num b /\ is_Some (d p);
  t_prefix b n : is_node b -> is_node n -> is_Some (d b) -> num n < num b -> is_Some (d n) }.

(** The invariant in front of the node with number [k]. *)
Record dom_inv (k : Z) (d : dmap) : Prop := {
  i_tree : tree d;
  i_set n : is_node n -> num n < k -> is_Some (d n);
  i_above c e a : c <> root -> d c = Some e ->
    (forall p, p ∈ preds c -> is_Some (d p) -> anc d a p) -> anc d a e;
  i_fwd c e p a : c <> root -> d c = Some e -> p ∈ preds c -> num p < num c ->
    anc d a e -> num c < k \/ k <= num a -> anc d a p;
  i_dom n a : is_node n -> is_Some (d n) -> dominates a n -> anc d a n }.

(** [c] is the lowest common ancestor of the nodes of [l] that are set. *)
Definition lca (d : dmap) (l : list N) (c : N) : Prop :=
  is_Some (d c) /\ (forall p, p ∈ l -> is_Some (d p) -> anc d c p) /\
  (forall a, (forall p, p ∈ l -> is_Some (d p) -> anc d a p) -> anc d a c).

(** ** Ancestors *)
Lemma set_node d n : tree d -> is_Some (d n) -> is_node n.
Proof.
  intros T [p Hp]. destruct (decide (n = root)) as [->|Hne]; [done|]. by destruct (t_up _ T n p Hne Hp).
Qed.

Lemma anc_trans d a b c : anc d a b -> anc d b c -> anc d a c.
Proof. intros Hab Hbc. induction Hbc; [done|]. eapply anc_up; eauto. Qed.

Lemma anc_num d a b : tree d -> anc d a b -> num a <= num b.
Proof. intros T H. induction H as [|a b p Hne Hp H IH]; [lia|]. destruct (t_up _ T b p Hne Hp) as (_ & ? & _). lia. Qed.

Lemma anc_set d a b : tree d -> anc d a b -> is_Some (d b) -> is_Some (d a).
Proof. intros T H. induction H as [|a b p Hne Hp H IH]; [done|]. intros _. apply IH. by destruct (t_up _ T b p Hne Hp) as (_ & _ & ?). Qed.

Lemma anc_eq d a b : tree d -> anc d a b -> num a = num b -> a = b.
Proof.
  intros T H E. destruct H as [|a b p Hne Hp H]; [done|].
  destruct (t_up _ T b p Hne Hp) as (_ & ? & _). pose proof (anc_num _ _ _ T H). lia.
Qed.

Lemma anc_antisym d a b : tree d -> anc d a b -> anc d b a -> a = b.
Proof.
  intros T Hab Hba. apply (anc_eq d); [done..|].
  pose proof (anc_num _ _ _ T Hab). pose proof (anc_num _ _ _ T Hba). lia.
Qed.

Lemma anc_linear d a b n : anc d a n -> anc d b n -> anc d a b \/ anc d b a.
Proof.
  intros Ha. revert b. induction Ha as [n|a n p Hne Hp Ha IH]; intros b Hb; [by right|].
  inversion Hb as [|? ? p' ? Hp' Hb']; subst.
  - left. by eapply anc_up.
  - apply IH. congruence.
Qed.

(** ** One revision *)
Section step.
Context (d d' : dmap) (b new : N).
Context (Inv : dom_inv (num b) d) (Hb : is_node b) (Hbr : b <> root) (L : lca d (preds b) new).
Context (Hd' : forall n, d' n = if decide (n = b) then Some new else d n).

Let T : tree d := i_tree _ _ Inv.

Lemma fwd_set p : p ∈ preds b -> num p < num b -> is_Some (d p).
Proof. intros Hp Hlt. apply (i_set _ _ Inv); [by eapply preds_node|lia]. Qed.

Lemma new_lt : num new < num b.
Proof.
  destruct (fwd_pred b Hb Hbr) as (p & Hp & Hlt). destruct L as (_ & Hl & _).
  pose proof (anc_num _ _ _ T (Hl p Hp (fwd_set p Hp Hlt))). lia.
Qed.

Lemma d'_other n : n <> b -> d' n = d n.
Proof. intros Hne. rewrite Hd'. by rewrite decide_False. Qed.
Lemma d'_b : d' b = Some new.
Proof. rewrite Hd'. by rewrite decide_True. Qed.
Lemma d'_set n : is_Some (d n) -> is_Some (d' n).
Proof. intros. destruct (decide (n = b)) as [->|]; [by rewrite d'_b|by rewrite d'_other]. Qed.
Lemma d'_set_inv n : is_Some (d' n) -> n = b \/ is_Some (d n).
Proof. rewrite Hd'. destruct (decide (n = b)); auto. Qed.

Lemma new_set : is_Some (d new). Proof. apply L. Qed.

(** Where [b] already was in the tree, it moves up its chain. *)
Lemma new_above e : d b = Some e -> anc d new e.
Proof. intros He. apply (i_above _ _ Inv b e); [done..|]. by apply L. Qed.

Lemma tree' : tree d'.
Proof.
  constructor.
  - rewrite d'_other by done. apply T.
  - intros n p Hn. rewrite Hd'. destruct (decide (n = b)) as [->|].
    + intros [= <-]. split; [done|]. split; [apply new_lt|]. apply d'_set, new_set.
    + intros Hp. destruct (t_up _ T n p Hn Hp) as (? & ? & ?). eauto using d'_set.
  - intros c n Hc Hn [->|Hs]%d'_set_inv Hlt; apply d'_set.
    + apply (i_set _ _ Inv); [done|lia].
    + by apply (t_prefix _ T c).
Qed.

(** Chains of nodes in front of [b], and of nodes that do not have [b] above
    them, stay. *)
Lemma anc_low a n : num n < num b -> anc d a n <-> anc d' a n.
Proof.
  intros Hn. split; intros H; revert Hn; induction H as [n|a n p Hne Hp H IH]; intros Hn; try constructor.
  - destruct (t_up _ T n p Hne Hp) as (_ & ? & _).
    eapply anc_up; [done| |apply IH; lia]. rewrite d'_other; [done|]. intros ->. lia.
  - destruct (t_up _ tree' n p Hne Hp) as (_ & ? & _). rewrite d'_other in Hp by (intros ->; lia).
    eapply anc_up; [done..|]. apply IH. lia.
Qed.

(** Chains shrink. *)
Lemma anc_shrink a n : is_Some (d n) -> anc d' a n -> anc d a n.
Proof.
  intros Hs H. induction H as [n|a n p Hne Hp H IH]; [constructor|]. revert Hp. rewrite Hd'.
  destruct (decide (n = b)) as [->|Hnb]; intros Hp.
  - injection Hp as <-. destruct Hs as [e He]. eapply anc_up; [done..|].
    eapply anc_trans; [|by apply new_above]. apply IH, new_set.
  - eapply anc_up; [done..|]. apply IH. by destruct (t_up _ T n p Hne Hp) as (_ & _ & ?).
Qed.

(** What is lost lies between [b] and [new]. *)
Definition lost (a : N) : Prop := anc d new a /\ a <> new /\ num a < num b.

Lemma anc_keep a n : is_Some (d n) -> anc d a n -> anc d' a n \/ (anc d b n /\ lost a).
Proof.
  intros Hs H. induction H as [n|a n p Hne Hp H IH]; [left; constructor|].
  destruct (t_up _ T n p Hne Hp) as (_ & Hlt & Hps). destruct (decide (n = b)) as [->|Hnb].
  - destruct (anc_linear d a new p H (new_above p Hp)) as [Ha|Ha].
    + left. eapply anc_up; [done|apply d'_b|]. apply anc_low; [apply new_lt|done].
    + destruct (decide (a = new)) as [->|Hne'].
      * left. eapply anc_up; [done|apply d'_b|constructor].
      * right. split; [constructor|]. split; [done|]. split; [done|]. pose proof (anc_num _ _ _ T H). lia.
  - destruct (IH Hps) as [?|[Hbn ?]]; [left|right].
    + eapply anc_up; [done|by rewrite d'_other|done].
    + split; [|done]. by eapply anc_up.
Qed.

Lemma b_keep n : is_Some (d n) -> anc d b n -> anc d' b n.
Proof. intros Hs H. destruct (anc_keep b n Hs H) as [?|(_ & _ & _ & ?)]; [done|lia]. Qed.

Lemma lost_gone a n : lost a -> is_Some (d n) -> anc d b n -> ~ anc d' a n.
Proof.
  intros (Ha & Hne & Hlt) Hs Hbn Ha'.
  destruct (anc_linear d' a b n Ha' (b_keep n Hs Hbn)) as [H|H].
  - inversion H as [|? ? p ? Hp H']; [subst; lia|]. rewrite d'_b in Hp. injection Hp as <-.
    apply anc_low in H'; [|apply new_lt]. destruct Hne. by apply (anc_antisym d).
  - pose proof (anc_num _ _ _ tree' H). lia.
Qed.

Lemma above' c e a :
  c <> root -> d' c = Some e -> (forall p, p ∈ preds c -> is_Some (d' p) -> anc d' a p) -> anc d' a e.
Proof.
  intros Hc He Hall.
  assert (Hall' : forall p, p ∈ preds c -> is_Some (d p) -> anc d a p).
  { intros p Hp Hs. apply anc_shrink; [done|]. apply Hall; [done|by apply d'_set]. }
  revert He. rewrite Hd'. destruct (decide (c = b)) as [->|Hcb].
  - intros [= <-]. apply anc_low; [apply new_lt|]. by apply L.
  - intros He. destruct (t_up _ T c e Hc He) as (Hcn & Hlt & Hes).
    pose proof (i_above _ _ Inv c e a Hc He Hall') as Hae.
    destruct (anc_keep a e Hes Hae) as [?|[Hbe Hl]]; [done|].
    destruct (fwd_pred c Hcn Hc) as (p0 & Hp0 & Hlt0).
    assert (Hs0 : is_Some (d p0)) by (apply (t_prefix _ T c); eauto).
    destruct (lost_gone a p0 Hl Hs0); [|by apply Hall, d'_set].
    apply (i_fwd _ _ Inv c e); [done..|]. right. lia.
Qed.

Lemma fwd' c e p a :
  c <> root -> d' c = Some e -> p ∈ preds c -> num p < num c -> anc d' a e ->
  num c < num b + 1 \/ num b + 1 <= num a -> anc d' a p.
Proof.
  intros Hc He Hp Hlt Ha Hka. revert He. rewrite Hd'. destruct (decide (c = b)) as [->|Hcb].
  - intros [= <-]. apply anc_low in Ha; [|apply new_lt]. apply anc_low; [done|].
    eapply anc_trans; [exact Ha|]. apply L; [done|by apply fwd_set].
  - intros He. destruct (t_up _ T c e Hc He) as (Hcn & Hlt' & Hes). destruct Hka as [Hck|Hka].
    + assert (num c <> num b) by (intros ?; destruct Hcb; by apply num_inj).
      apply anc_low in Ha; [|lia]. apply anc_low; [lia|]. apply (i_fwd _ _ Inv c e); [done..|]. left. lia.
    + apply anc_shrink in Ha; [|done].
      assert (Hps : is_Some (d p)) by (apply (t_prefix _ T c); eauto).
      destruct (anc_keep a p Hps) as [?|(_ & _ & _ & ?)]; [|done|lia].
      apply (i_fwd _ _ Inv c e); [done..|]. right. lia.
Qed.

(** [b] reaches the nodes it is above of, through nodes behind it. *)
Lemma fwd_path (m : nat) : forall n,
  (Z.to_nat (num n - num b) < m)%nat -> is_Some (d n) -> anc d b n ->
  forall l, path b l -> exists l', path n (l' ++ l) /\ forall x, x ∈ l' -> num b < num x.
Proof.
  induction m as [|m IH]; intros n Hm Hs Hbn l Hl; [lia|].
  pose proof (set_node _ _ T Hs) as Hn.
  inversion Hbn as [|? ? e Hne He Hbe].
  - exists []. split; [by subst|]. by intros x ?%not_elem_of_nil.
  - destruct (t_up _ T n e Hne He) as (_ & Hlt & Hes).
    destruct (fwd_pred n Hn Hne) as (p & Hp & Hpn).
    pose proof (anc_num _ _ _ T Hbe).
    assert (Hbp : anc d b p) by (apply (i_fwd _ _ Inv n e); [done..|]; right; lia).
    assert (Hps : is_Some (d p)) by (apply (t_prefix _ T n); eauto).
    pose proof (anc_num _ _ _ T Hbp).
    destruct (IH p) with (l := l) as (l' & Hl' & Hx); [lia|done..|].
    exists (n :: l'). split; [by eapply path_step|].
    intros x [->|Hin]%elem_of_cons; [lia|by apply Hx].
Qed.

Lemma dominates_pred a n p : dominates a n -> a <> n -> p ∈ preds n -> dominates a p.
Proof.
  intros Hd Hne Hp l Hl. specialize (Hd (n :: l) (path_step _ _ _ Hl Hp)).
  apply elem_of_cons in Hd as [->|?]; done.
Qed.

Lemma dom_b a : dominates a b -> a <> b -> anc d a new.
Proof.
  intros Ha Hne. apply L. intros p Hp Hs. apply (i_dom _ _ Inv); [by eapply preds_node|done|].
  by eapply dominates_pred.
Qed.

Lemma dom' n a : is_node n -> is_Some (d' n) -> dominates a n -> anc d' a n.
Proof.
  intros Hn [->|Hs]%d'_set_inv Ha.
  - destruct (decide (a = b)) as [->|Hne]; [constructor|]. eapply anc_up; [done|apply d'_b|].
    apply anc_low; [apply new_lt|]. by apply dom_b.
  - destruct (anc_keep a n Hs) as [?|(Hbn & Hal & Hne & Hlt)]; [by apply (i_dom _ _ Inv)|done|].
    exfalso. assert (Hab : dominates a b).
    { intros l Hl. destruct (fwd_path (S (Z.to_nat (num n - num b))) n) with (l := l) as (l' & Hl' & Hx); [lia|done..|].
      specialize (Ha _ Hl'). apply elem_of_app in Ha as [Hin|?]; [|done]. specialize (Hx a Hin). lia. }
    apply Hne. apply (anc_antisym d); [done| |done]. apply dom_b; [done|]. intros ->. lia.
Qed.

Lemma dom_inv_step : dom_inv (num b + 1) d'.
Proof.
  constructor; [apply tree'| |apply above'|apply fwd'|apply dom'].
  intros n Hn Hlt. destruct (decide (n = b)) as [->|Hne]; [by rewrite d'_b|].
  assert (num n <> num b) by (intros ?; destruct Hne; by apply num_inj).
  apply d'_set. apply (i_set _ _ Inv); [done|lia].
Qed.

Lemma step_lower e : d b = Some e -> e <> new -> num new < num e.
Proof.
  intros He Hne. pose proof (new_above e He) as Ha. pose proof (anc_num _ _ _ T Ha).
  destruct (t_up _ T b e Hbr He) as (_ & _ & Hes).
  assert (num new <> num e); [|lia]. intros E. destruct Hne. symmetry. by apply (anc_eq d).
Qed.
End step.

(** ** Between passes *)
Lemma dom_inv_pass k d : (forall n, is_node n -> num n < k) -> dom_inv k d -> dom_inv 0 d.
Proof.
  intros Hk [T Hs Ha Hf Hd]. constructor; try done.
  - intros n Hn _. apply Hs; auto.
  - intros c e p a Hc He Hp Hlt Hanc _. apply (Hf c e); try done. left. apply Hk.
    by destruct (t_up _ T c e Hc He).
Qed.

Lemma dom_inv_start d :
  d root = Some root -> (forall n, n <> root -> d n = None) -> (forall n, is_node n -> 0 <= num n) -> num root = 0 ->
  dom_inv 0 d.
Proof.
  intros Hr Hn H0 Hr0. constructor.
  - constructor; [done| |].
    + intros b p Hb. by rewrite Hn.
    + intros b n Hb Hnn Hs Hlt. destruct (decide (b = root)) as [->|Hbr]; [|by rewrite Hn in Hs by done; destruct Hs].
      specialize (H0 n Hnn). lia.
  - intros n Hnn Hlt. specialize (H0 n Hnn). lia.
  - intros c e a Hc. by rewrite Hn.
  - intros c e p a Hc. by rewrite Hn.
  - intros n a _ Hs Ha. destruct (decide (n = root)) as [->|Hnr]; [|by rewrite Hn in Hs by done; destruct Hs].
    specialize (Ha _ path_root). apply list_elem_of_singleton in Ha as ->. constructor.
Qed.

(** Past the root. *)
Lemma dom_inv_root d :
  (forall n, is_node n -> 0 <= num n) -> num root = 0 -> dom_inv 0 d -> dom_inv 1 d.
Proof.
  intros H0 Hr0 [T Hs Ha Hf Hd]. constructor; try done.
  - intros n Hn Hlt. specialize (H0 n Hn). assert (n = root) as -> by (apply num_inj; [done..|lia]). by rewrite (t_root _ T).
  - intros c e p a Hc He Hp Hlt Hanc Hk. apply (Hf c e); try done. right. destruct Hk as [Hk|Hk]; [|lia].
    destruct (t_up _ T c e Hc He) as (Hcn & _ & _). specialize (H0 c Hcn).
    destruct Hc. apply num_inj; [done..|lia].
Qed.

(** ** Fixed points *)
Definition dom_fixed (d : dmap) : Prop :=
  tree d /\ (forall n, is_node n -> is_Some (d n)) /\
  forall b e p, is_node b -> b <> root -> d b = Some e -> p ∈ preds b -> anc d e p.

Lemma fixed_sound d a b : dom_fixed d -> is_node b -> anc d a b -> dominates a b.
Proof.
  intros (T & Hset & Hfix) Hb Ha l Hl. revert a Ha. induction Hl as [|p b l Hl IH Hp]; intros a Ha.
  - inversion Ha; [by apply list_elem_of_singleton|done].
  - inversion Ha as [|? ? e Hne He Hae]; [by apply elem_of_cons; left|]. apply elem_of_cons. right.
    apply IH; [by eapply preds_node|]. eapply anc_trans; [exact Hae|]. by apply (Hfix b e p).
Qed.

Lemma fixed_dominates k d a b :
  dom_inv k d -> dom_fixed d -> is_node b -> anc d a b <-> dominates a b.
Proof.
  intros Inv Fix Hb. split; [by apply fixed_sound|]. apply (i_dom _ _ Inv); [done|]. by apply Fix.
Qed.
End domtree.

(** ** Extensionality in the graph *)
Section ext.
Context {N : Type} `{EqDecision N} (root : N) (P P' : N -> Prop) (pr pr' : N -> list N) (num : N -> Z).
Context (HP : forall n, P n <-> P' n) (Hpr : forall n, pr n = pr' n).

Lemma dominates_ext a b : dominates root pr a b <-> dominates root pr' a b.
Proof.
  assert (G : forall c l, path root pr c l <-> path root pr' c l).
  { intros c l. split; intros H; induction H as [|p c l H IH Hin];
      [constructor|rewrite Hpr in Hin|constructor|rewrite <- Hpr in Hin]; by eapply path_step. }
  unfold dominates. split; intros H l Hl; by apply H, G.
Qed.

Lemma dom_fixed_ext d : dom_fixed root P pr num d -> dom_fixed root P' pr' num d.
Proof.
  intros ([Tr Tu Tp] & Hs & Hf). split; [constructor|split]; [done| | | |].
  - intros b p Hb Hp. destruct (Tu b p Hb Hp) as (Hbn & ? & ?). by rewrite <- HP.
  - intros b n. rewrite <- !HP. apply Tp.
  - intros n. rewrite <- HP. apply Hs.
  - intros b e p. rewrite <- HP, <- Hpr. apply Hf.
Qed.
End ext.

Section dext.
Context {N : Type} `{EqDecision N} (root : N) (P : N -> Prop) (pr : N -> list N) (num : N -> Z) (d d' : N -> option N).
Context (Hd : forall n, d n = d' n).

Lemma anc_dext a b : anc root d a b <-> anc root d' a b.
Proof.
  split; intros H; induction H as [|a b p Hne Hp H IH]; [constructor|rewrite Hd in Hp|constructor|rewrite <- Hd in Hp];
    by eapply anc_up.
Qed.

Lemma dom_fixed_dext : dom_fixed root P pr num d -> dom_fixed root P pr num d'.
Proof.
  intros ([Tr Tu Tp] & Hs & Hf). split; [constructor|split].
  - by rewrite <- Hd.
  - intros b p. rewrite <- !Hd. apply Tu.
  - intros b n. rewrite <- !Hd. apply Tp.
  - intros n. rewrite <- Hd. apply Hs.
  - intros b e p. rewrite <- Hd, <- anc_dext. apply Hf.
Qed.
End dext.
