(* ===== verification/ModuleGraphDom.v ===== *)
(** * [ComputeDomTree]

    Numbering in reverse post-order, [intersect], the passes, and the result:
    the chains of the computed tree are the dominators. *)

From stdpp Require Import base tactics numbers list gmap sorting relations.
From S2P Require Import Prelude Common Execute ModuleGraph ModuleGraphInv ModuleGraphDfs DomTree.

Abbreviation dom_eq := (same_upto (set_dominator None)).

(** ** Numbering *)
Definition mark_ok (mk : Marker) (g : ModuleGraph) : Prop :=
  forall n, is_Some (node g n) -> 0 <= mark g n < mmax mk.

Lemma mark_of g n x : node g n = Some x -> mark g n = n_mark x.
Proof. intros H. unfold mark. by rewrite H. Qed.

Lemma Marker_Set_ok mk m s :
  0 <= mmin mk -> mmax mk < 2 ^ 16 -> m < mmax mk -> 0 <= s -> s + mmin mk < mmax mk -> Marker_Set mk m s = POk (mmin mk + s).
Proof.
  intros H0 H16 Hm Hs Hsm. unfold Marker_Set, u16, uN. rewrite (Z.mod_small s) by lia.
  destruct (Z.ltb_spec m (mmax mk)); [|lia]. cbn [mbind pres_bind passert].
  destruct (Z.ltb_spec (s + mmin mk) (mmax mk)); [|lia]. cbn. f_equal. rewrite Z.mod_small; lia.
Qed.

(** One node gets its number. *)
Lemma number_one mk g n x k :
  0 <= mmin mk -> mmax mk < 2 ^ 16 -> 0 <= k -> k + mmin mk < mmax mk ->
  node g n = Some x -> mark_ok mk g ->
  Marker_Set mk (n_mark x) k = POk (mmin mk + k) /\
  exists g', upd_node (set_mark (mmin mk + k)) n g = POk g' /\ shape_eq g' g /\ mg_markers g' = mg_markers g /\
    mark_ok mk g' /\ forall m, mark g' m = if decide (m = n) then mmin mk + k else mark g m.
Proof.
  intros H0 H16 Hk Hmax Hx Hok.
  assert (Hs : is_Some (node g n)) by (by rewrite Hx).
  pose proof (Hok n Hs) as Hm. rewrite (mark_of _ _ _ Hx) in Hm.
  split; [apply Marker_Set_ok; lia|].
  destruct (upd_node_ok (set_mark (mmin mk + k)) n g Hs) as (g' & Hg' & Hn). exists g'.
  assert (Hmk : forall m, mark g' m = if decide (m = n) then mmin mk + k else mark g m).
  { intros m. unfold mark. rewrite Hn. destruct (decide (m = n)) as [->|]; [by rewrite Hx|done]. }
  split; [done|]. split; [by eapply upd_node_same|]. split; [by apply upd_node_inv in Hg' as (? & _ & ->)|]. split; [|done].
  intros m Hm'. rewrite Hmk. destruct (decide (m = n)); [lia|]. apply Hok. by apply (upd_node_is_Some _ _ _ _ _ Hg').
Qed.

Lemma number_nodes_spec mk l : forall k g,
  0 <= mmin mk -> mmax mk < 2 ^ 16 -> 0 <= k -> k + Z.of_nat (length l) + mmin mk <= mmax mk ->
  NoDup l -> (forall n, n ∈ l -> is_Some (node g n)) -> mark_ok mk g ->
  exists g', number_nodes mk l k g = POk (k + Z.of_nat (length l), g') /\ shape_eq g' g /\
    mg_markers g' = mg_markers g /\ mark_ok mk g' /\
    (forall i n, l !! i = Some n -> mark g' n = mmin mk + k + Z.of_nat i) /\
    (forall n, n ∉ l -> mark g' n = mark g n).
Proof.
  induction l as [|n l IH]; intros k g H0 H16 Hk Hmax Hnd Hin Hok; cbn [number_nodes length].
  - exists g. rewrite Z.add_0_r. repeat split; try done; by apply Hok.
  - apply NoDup_cons in Hnd as [Hn Hnd]. cbn [length] in Hmax.
    destruct (Hin n) as [x Hx]; [by apply list_elem_of_here|]. unfold get_node at 1. rewrite Hx. cbn [pderef mbind pres_bind].
    destruct (number_one mk g n x k) as (E1 & g1 & E2 & Sh & Km & Hok1 & Hmk1); [done || lia..|].
    rewrite E1. cbn [mbind pres_bind]. rewrite E2. cbn [mbind pres_bind].
    assert (u16 (k + 1) = k + 1) as -> by (unfold u16, uN; apply Z.mod_small; lia).
    destruct (IH (k + 1) g1) as (g' & -> & Sh' & Km' & Hok' & Hi & Ho); [done || lia..| |done|].
    { intros m Hm. apply (shape_is_Some _ _ _ Sh). apply Hin. by apply list_elem_of_further. }
    exists g'. split; [do 2 f_equal; lia|]. split; [by rewrite Sh'|]. split; [by rewrite Km'|]. split; [done|]. split.
    + intros [|i] m Hm; cbn in Hm.
      * injection Hm as ->. rewrite (Ho m Hn), Hmk1, decide_True by done. lia.
      * rewrite (Hi i m Hm). lia.
    + intros m [Hmn Hml]%not_elem_of_cons. by rewrite (Ho m Hml), Hmk1, decide_False.
Qed.

(** Numbers beyond the states of the marker fail the assertion. *)
Lemma number_nodes_panic mk l : forall k g,
  0 <= mmin mk -> mmax mk < 2 ^ 16 -> 0 <= k -> mmax mk < k + Z.of_nat (length l) + mmin mk -> k + mmin mk <= mmax mk ->
  NoDup l -> (forall n, n ∈ l -> is_Some (node g n)) -> mark_ok mk g -> number_nodes mk l k g = PPanic.
Proof.
  induction l as [|n l IH]; intros k g H0 H16 Hk Hmax Hkm Hnd Hin Hok; cbn [number_nodes length] in *; [lia|].
  apply NoDup_cons in Hnd as [Hn Hnd].
  destruct (Hin n) as [x Hx]; [by apply list_elem_of_here|]. unfold get_node at 1. rewrite Hx. cbn [pderef mbind pres_bind].
  destruct (decide (k + mmin mk = mmax mk)) as [E|E].
  - unfold Marker_Set. destruct (n_mark x <? mmax mk); [|done]. cbn [mbind pres_bind passert].
    assert (u16 k = k) as -> by (unfold u16, uN; apply Z.mod_small; lia).
    destruct (Z.ltb_spec (k + mmin mk) (mmax mk)); [lia|done].
  - destruct (number_one mk g n x k) as (E1 & g1 & E2 & Sh & Km & Hok1 & Hmk1); [done || lia..|].
    rewrite E1. cbn [mbind pres_bind]. rewrite E2. cbn [mbind pres_bind].
    assert (u16 (k + 1) = k + 1) as -> by (unfold u16, uN; apply Z.mod_small; lia).
    apply IH; [done || lia..|done| |done].
    intros m Hm. apply (shape_is_Some _ _ _ Sh). apply Hin. by apply list_elem_of_further.
Qed.

(** ** [intersect]

    [g1] is the numbered graph; the passes change dominators only. *)
Section passes.
Context (g1 : ModuleGraph) (mk : Marker) (rpot : list nid).
Context (W : mg_wf g1) (Hmin : 0 <= mmin mk) (Hok : mark_ok mk g1).
Context (Hnd : NoDup rpot) (Hall : forall n, n ∈ rpot <-> is_Some (node g1 n)).
Context (Hnum : forall i n, rpot !! i = Some n -> mark g1 n = mmin mk + Z.of_nat i).
Context (Hhead : head rpot = Some None).
Context (Hfwd : forall b, b ∈ rpot -> b <> None -> exists p, [p; b] `sublist_of` rpot /\ b ∈ succs g1 p).

Definition rnum (n : nid) : Z := mark g1 n - mmin mk.
Abbreviation isn n := (is_Some (node g1 n)).
Abbreviation anc := (anc (@None Z)).
Abbreviation tree := (tree (@None Z) (fun n => isn n) rnum).
Abbreviation dom_inv := (dom_inv (@None Z) (fun n => isn n) (preds g1) rnum).

Lemma rnum_at i n : rpot !! i = Some n -> rnum n = Z.of_nat i.
Proof. intros H. unfold rnum. rewrite (Hnum i n H). lia. Qed.
Lemma rnum_node n : isn n -> exists i, rpot !! i = Some n /\ rnum n = Z.of_nat i.
Proof. intros [i Hi]%Hall%list_elem_of_lookup. exists i. split; [done|]. by apply rnum_at. Qed.
Lemma rnum_nonneg n : isn n -> 0 <= rnum n.
Proof. intros (i & _ & ->)%rnum_node. lia. Qed.
Lemma rnum_lt n : isn n -> rnum n < Z.of_nat (length rpot).
Proof. intros (i & Hi%lookup_lt_Some & ->)%rnum_node. lia. Qed.
Lemma rnum_inj a b : isn a -> isn b -> rnum a = rnum b -> a = b.
Proof. intros (i & Hi & ->)%rnum_node (j & Hj & ->)%rnum_node E. assert (i = j) as -> by lia. congruence. Qed.
Lemma rnum_root : rnum None = 0.
Proof. apply (rnum_at 0). by rewrite <- head_lookup. Qed.
Lemma rpreds_node b p : isn b -> p ∈ preds g1 b -> isn p.
Proof. intros _ Hp%(wf_dual _ W). unfold succs in Hp. destruct (node g1 p); [by eauto|by apply not_elem_of_nil in Hp]. Qed.

Lemma sublist_order a b i j : [a; b] `sublist_of` rpot -> rpot !! i = Some a -> rpot !! j = Some b -> (i < j)%nat.
Proof.
  intros Hs Hi Hj. apply sublist_cons_l in Hs as (l1 & l2 & E & Hs). apply sublist_cons_l in Hs as (l3 & l4 & -> & _).
  rewrite E in *.
  assert (i = length l1) as ->.
  { eapply NoDup_lookup; [exact Hnd|exact Hi|]. by rewrite list_lookup_middle. }
  assert (j = length (l1 ++ a :: l3)) as ->; [|rewrite length_app; cbn; lia].
  eapply NoDup_lookup; [exact Hnd|exact Hj|].
  change (l1 ++ a :: l3 ++ b :: l4) with (l1 ++ (a :: l3) ++ b :: l4). rewrite app_assoc. by rewrite list_lookup_middle.
Qed.

Lemma rfwd_pred b : isn b -> b <> None -> exists p, p ∈ preds g1 b /\ rnum p < rnum b.
Proof.
  intros Hb Hne. destruct (Hfwd b) as (p & Hs & Hp); [by apply Hall|done|]. exists p.
  apply (wf_dual _ W) in Hp. split; [done|].
  destruct (rnum_node p) as (i & Hi & ->); [by eapply rpreds_node|]. destruct (rnum_node b Hb) as (j & Hj & ->).
  pose proof (sublist_order p b i j Hs Hi Hj). lia.
Qed.

(** A graph in the middle of the passes. *)
Section pass_graph.
Context (g : ModuleGraph) (E : dom_eq g g1).

Lemma same_node n : is_Some (node g n) <-> isn n.
Proof. apply same_is_Some with (1 := E). Qed.
Lemma same_mark n : mark g n = mark g1 n.
Proof. by apply (same_view n_mark 0 (set_dominator None)). Qed.
Lemma same_preds n : preds g n = preds g1 n.
Proof. by apply (same_view n_preds [] (set_dominator None)). Qed.

Lemma rpon_get_ok n : isn n -> rpon_get mk g (Some n) = POk (rnum n).
Proof.
  intros Hn. pose proof (rnum_nonneg n Hn) as H0. unfold rnum in *.
  destruct (proj2 (same_node n) Hn) as [x Hx]. unfold rpon_get, get_node. cbn [pderef mbind pres_bind]. rewrite Hx.
  cbn [pderef mbind pres_bind]. unfold Marker_Get. rewrite <- (mark_of _ _ _ Hx), same_mark.
  pose proof (Hok n Hn). destruct (Z.ltb_spec (mark g1 n) (mmax mk)); [|lia]. cbn. f_equal.
  destruct (Z.ltb_spec (mark g1 n) (mmin mk)); lia.
Qed.

Context (T : tree (idom g)).

Lemma idom_node n x : node g n = Some x -> n_dominator x = idom g n.
Proof. intros H. unfold idom. by rewrite H. Qed.

Lemma climb_spec fuel : forall b lim,
  is_Some (idom g b) -> isn lim -> rnum b < Z.of_nat fuel ->
  exists b', climb fuel mk g (Some b) (Some lim) = LRet (Some b') /\ anc (idom g) b' b /\ rnum b' <= rnum lim /\
    forall a, anc (idom g) a b -> rnum a <= rnum lim -> anc (idom g) a b'.
Proof.
  induction fuel as [|fuel IH]; intros b lim Hb Hl Hf.
  { pose proof (rnum_nonneg b (set_node _ _ rnum (wf_root _ W) _ _ T Hb)). lia. }
  pose proof (set_node _ _ rnum (wf_root _ W) _ _ T Hb) as Hbn.
  cbn [climb]. rewrite !rpon_get_ok by done. cbn [lift mbind lres_bind].
  destruct (Z.ltb_spec (rnum lim) (rnum b)) as [Hlt|Hge].
  - assert (Hne : b <> None) by (intros ->; rewrite rnum_root in Hlt; pose proof (rnum_nonneg lim Hl); lia).
    destruct Hb as [p Hp]. destruct (t_up _ _ _ _ T b p Hne Hp) as (_ & Hpb & Hps).
    destruct (proj2 (same_node b) Hbn) as [x Hx]. cbn [pderef mbind pres_bind]. unfold get_node. rewrite Hx.
    cbn [pderef mbind pres_bind lift lres_bind]. rewrite (idom_node _ _ Hx), Hp.
    destruct (IH p lim) as (b' & -> & Ha & Hle & Hmax); [done..|lia|].
    exists b'. split; [done|]. split; [by eapply anc_up|]. split; [done|].
    intros a Hab Hal. apply Hmax; [|done]. inversion Hab as [|? ? p' ? Hp' Hap]; subst; [lia|]. congruence.
  - exists b. split; [done|]. split; [constructor|]. split; [done|]. done.
Qed.

Lemma intersect_spec fuel : forall b1 b2,
  is_Some (idom g b1) -> is_Some (idom g b2) -> rnum b1 < Z.of_nat fuel -> rnum b2 < Z.of_nat fuel ->
  exists c, intersect fuel mk g (Some b1) (Some b2) = LRet (Some c) /\
    anc (idom g) c b1 /\ anc (idom g) c b2 /\
    forall a, anc (idom g) a b1 -> anc (idom g) a b2 -> anc (idom g) a c.
Proof.
  induction fuel as [|fuel IH]; intros b1 b2 H1 H2 Hf1 Hf2.
  { pose proof (rnum_nonneg b1 (set_node _ _ rnum (wf_root _ W) _ _ T H1)). lia. }
  pose proof (set_node _ _ rnum (wf_root _ W) _ _ T H1) as Hn1. pose proof (set_node _ _ rnum (wf_root _ W) _ _ T H2) as Hn2.
  cbn [intersect]. destruct (decide (Some b1 = Some b2)) as [[= ->]|Hne].
  { exists b2. split; [done|]. split; [constructor|]. split; [constructor|]. done. }
  assert (Hnum12 : rnum b1 <> rnum b2) by (intros ?; destruct Hne; f_equal; by apply rnum_inj).
  destruct (climb_spec (S fuel) b1 b2) as (c1 & -> & Ha1 & Hle1 & Hmax1); [done..|].
  pose proof (anc_set _ _ _ _ _ _ T Ha1 H1) as Hc1.
  pose proof (set_node _ _ rnum (wf_root _ W) _ _ T Hc1) as Hcn1.
  cbn [mbind lres_bind].
  destruct (climb_spec (S fuel) b2 c1) as (c2 & -> & Ha2 & Hle2 & Hmax2); [done..|].
  pose proof (anc_set _ _ _ _ _ _ T Ha2 H2) as Hc2. cbn [mbind lres_bind].
  pose proof (anc_num _ _ _ _ _ _ T Ha1) as Hr1. pose proof (anc_num _ _ _ _ _ _ T Ha2) as Hr2.
  assert (Hd : rnum c1 < Z.of_nat fuel).
  { destruct (Z.lt_total (rnum b1) (rnum b2)) as [?|[?|?]]; [lia|done|lia]. }
  destruct (IH c1 c2) as (c & -> & Hc1' & Hc2' & Hmax); [done..|lia|].
  exists c. split; [done|].
  split; [exact (anc_trans _ _ _ _ _ Hc1' Ha1)|]. split; [exact (anc_trans _ _ _ _ _ Hc2' Ha2)|].
  intros a Hab1 Hab2.
  assert (Hac1 : anc (idom g) a c1) by (apply Hmax1; [done|]; exact (anc_num _ _ _ _ _ _ T Hab2)).
  apply Hmax; [done|]. apply Hmax2; [done|]. exact (anc_num _ _ _ _ _ _ T Hac1).
Qed.
(** ** The new immediate dominator of a node *)
Lemma fuel_enough n : isn n -> rnum n < Z.of_nat (climb_fuel g).
Proof.
  intros Hn. unfold climb_fuel. pose proof (rnum_lt n Hn).
  assert (Hp : rpot ≡ₚ all_nodes g); [|rewrite (Permutation_length Hp) in *; lia].
  apply NoDup_Permutation; [done|apply all_nodes_NoDup|]. intros m. rewrite Hall, all_nodes_spec, same_node; [done|].
  apply same_node, W.
Qed.

Abbreviation lca := (lca (@None Z)).

Lemma join_pred_spec p l acc :
  isn p -> (acc = None /\ (forall q, q ∈ l -> ~ is_Some (idom g q)) \/ exists c, acc = Some c /\ lca (idom g) l c) ->
  exists acc', join_pred mk g p acc = LRet acc' /\
    (acc' = None /\ (forall q, q ∈ l ++ [p] -> ~ is_Some (idom g q)) \/ exists c, acc' = Some c /\ lca (idom g) (l ++ [p]) c).
Proof.
  intros Hp Hacc. destruct (proj2 (same_node p) Hp) as [x Hx]. unfold join_pred, get_node. rewrite Hx.
  cbn [pderef lift mbind lres_bind]. rewrite (idom_node _ _ Hx).
  destruct (idom g p) as [e|] eqn:He.
  - assert (Hps : is_Some (idom g p)) by (by rewrite He).
    destruct Hacc as [[-> Hn]|(c & -> & Hc & Hlow & Hmax)].
    + eexists. split; [done|]. right. exists p. split; [done|]. split; [done|]. split.
      * intros q [Hq| ->%list_elem_of_singleton]%elem_of_app Hs; [by destruct (Hn q Hq)|constructor].
      * intros a Ha. apply Ha; [set_solver|done].
    + pose proof (set_node _ _ rnum (wf_root _ W) _ _ T Hc) as Hcn.
      destruct (intersect_spec (climb_fuel g) p c) as (c' & -> & H1 & H2 & H3); [done..|by apply fuel_enough|by apply fuel_enough|].
      eexists. split; [done|]. right. exists c'. split; [done|]. split; [exact (anc_set _ _ _ _ _ _ T H1 Hps)|]. split.
      * intros q [Hq| ->%list_elem_of_singleton]%elem_of_app Hs; [|done]. eapply anc_trans; [exact H2|by apply Hlow].
      * intros a Ha. apply H3; [apply Ha; [set_solver|done]|]. apply Hmax. intros q Hq Hs. apply Ha; [set_solver|done].
  - assert (Hps : ~ is_Some (idom g p)) by (rewrite He; by intros []).
    exists acc. split; [done|]. destruct Hacc as [[-> Hn]|(c & -> & Hc & Hlow & Hmax)]; [left|right].
    + split; [done|]. intros q [Hq| ->%list_elem_of_singleton]%elem_of_app; [by apply Hn|done].
    + exists c. split; [done|]. split; [done|]. split.
      * intros q [Hq| ->%list_elem_of_singleton]%elem_of_app Hs; [by apply Hlow|done].
      * intros a Ha. apply Hmax. intros q Hq Hs. apply Ha; [set_solver|done].
Qed.

Lemma join_preds_spec b :
  isn b -> b <> None -> (forall n, isn n -> rnum n < rnum b -> is_Some (idom g n)) ->
  exists c, lfold (join_pred mk g) (preds g1 b) None = LRet (Some c) /\ lca (idom g) (preds g1 b) c.
Proof.
  intros Hb Hne Hset.
  destruct (lfold_inv (join_pred mk g) (fun rest acc => exists l, preds g1 b = l ++ rest /\
    (acc = None /\ (forall q, q ∈ l -> ~ is_Some (idom g q)) \/ exists c, acc = Some c /\ lca (idom g) l c)) (preds g1 b) None)
    as (acc & -> & l & Hl & Hacc).
  - exists []. split; [done|]. left. split; [done|]. by intros q ?%not_elem_of_nil.
  - intros p rest acc (l & Hl & Hacc).
    assert (Hp : isn p) by (apply (rpreds_node b); [done|]; rewrite Hl; set_solver).
    destruct (join_pred_spec p l acc Hp Hacc) as (acc' & -> & Hacc'). exists acc'. split; [done|].
    exists (l ++ [p]). rewrite <- app_assoc. done.
  - rewrite app_nil_r in Hl. subst l. destruct Hacc as [[-> Hn]|(c & -> & Hc)]; [|eauto].
    destruct (rfwd_pred b Hb Hne) as (p & Hp & Hlt). destruct (Hn p Hp). apply Hset; [by eapply rpreds_node|done].
Qed.
End pass_graph.

Abbreviation lca := (lca (@None Z)).
Definition fixed_at (g : ModuleGraph) (b : nid) : Prop :=
  exists e, idom g b = Some e /\ lca (idom g) (preds g1 b) e.

(** The sum of the numbers of the dominators; a missing one counts for more. *)
Definition dom_weight (g : ModuleGraph) (n : nid) : nat :=
  match idom g n with Some p => Z.to_nat (rnum p) | None => length rpot end.
Definition dom_measure (g : ModuleGraph) : nat := sum_list (map (dom_weight g) rpot).

Lemma sum_lt {A} (f f' : A -> nat) l b :
  b ∈ l -> (f b < f' b)%nat -> (forall x, (f x <= f' x)%nat) -> (sum_list (map f l) < sum_list (map f' l))%nat.
Proof.
  intros Hb Hlt Hle. induction l as [|x l IH]; [by apply not_elem_of_nil in Hb|]. cbn.
  assert (sum_list (map f l) <= sum_list (map f' l))%nat.
  { clear -Hle. induction l as [|y l IH]; cbn; [lia|]. specialize (Hle y). lia. }
  specialize (Hle x). apply elem_of_cons in Hb as [->|Hb]; [lia|]. specialize (IH Hb). lia.
Qed.

Lemma dom_update_spec b changed g :
  dom_eq g g1 -> isn b -> b <> None -> dom_inv (rnum b) (idom g) ->
  exists changed' g', dom_update mk b (changed, g) = LRet (changed', g') /\ dom_eq g' g1 /\ mg_markers g' = mg_markers g /\
    dom_inv (rnum b + 1) (idom g') /\
    (changed' = changed /\ g' = g /\ fixed_at g b \/ changed' = true /\ (dom_measure g' < dom_measure g)%nat).
Proof.
  intros E Hb Hne Inv. unfold dom_update. rewrite decide_False by done.
  destruct (proj2 (same_node g E b) Hb) as [x Hx]. unfold get_node at 1. rewrite Hx. cbn [pderef lift mbind lres_bind].
  assert (n_preds x = preds g1 b) as -> by (rewrite <- (same_preds g E b); unfold preds; by rewrite Hx).
  destruct (join_preds_spec g E (i_tree _ _ _ _ _ _ Inv) b Hb Hne) as (c & -> & Hc).
  { intros n Hn Hlt. by apply (i_set _ _ _ _ _ _ Inv). }
  cbn [pderef lift mbind lres_bind]. rewrite (idom_node _ _ _ Hx).
  destruct (decide (idom g b = Some c)) as [Hd|Hd].
  - exists changed, g. split; [done|]. split; [done|]. split; [done|]. split; [|left; split; [done|]; split; [done|]; by exists c].
    apply (dom_inv_step (@None Z) _ (preds g1) rnum rnum_inj rpreds_node (wf_root _ W) rfwd_pred (idom g) (idom g) b c); try done.
    intros n. destruct (decide (n = b)) as [->|]; done.
  - destruct (upd_node_ok (set_dominator (Some c)) b g) as (g' & Hg' & Hn); [by rewrite Hx|].
    assert (Hid : forall n, idom g' n = if decide (n = b) then Some c else idom g n).
    { intros n. unfold idom. rewrite Hn. destruct (decide (n = b)) as [->|]; [by rewrite Hx|done]. }
    rewrite Hg'. cbn [lift mbind lres_bind]. exists true, g'. split; [done|].
    split; [transitivity g; [by eapply upd_node_same|done]|].
    split; [by apply upd_node_inv in Hg' as (? & _ & ->)|]. split.
    + by apply (dom_inv_step (@None Z) _ (preds g1) rnum rnum_inj rpreds_node (wf_root _ W) rfwd_pred (idom g) (idom g') b c).
    + right. split; [done|].
      assert (Hlt : (dom_weight g' b < dom_weight g b)%nat).
      { unfold dom_weight. rewrite Hid, decide_True by done.
        pose proof (set_node _ _ rnum (wf_root _ W) _ _ (i_tree _ _ _ _ _ _ Inv) (proj1 Hc)) as Hcn.
        pose proof (rnum_nonneg c Hcn). pose proof (rnum_lt c Hcn). destruct (idom g b) as [e|] eqn:He; [|lia].
        assert (rnum c < rnum e); [|lia].
        apply (step_lower (@None Z) (fun n => isn n) (preds g1) rnum (idom g) b c); try done. congruence. }
      apply (sum_lt _ _ _ b); [by apply Hall|done|]. intros n. destruct (decide (n = b)) as [->|Hn']; [lia|].
      unfold dom_weight. by rewrite Hid, decide_False.
Qed.

(** ** Passes *)
Lemma dom_pass_spec g :
  dom_eq g g1 -> dom_inv 0 (idom g) ->
  exists changed g', lfold (dom_update mk) rpot (false, g) = LRet (changed, g') /\
    dom_eq g' g1 /\ mg_markers g' = mg_markers g /\ dom_inv 0 (idom g') /\
    if changed : bool then (dom_measure g' < dom_measure g)%nat
    else g' = g /\ forall b, isn b -> b <> None -> fixed_at g b.
Proof.
  intros E Inv.
  destruct (lfold_inv (dom_update mk) (fun rest s => exists l, rpot = l ++ rest /\ dom_eq s.2 g1 /\ mg_markers s.2 = mg_markers g /\
    dom_inv (Z.of_nat (length l)) (idom s.2) /\
    if s.1 : bool then (dom_measure s.2 < dom_measure g)%nat
    else s.2 = g /\ forall b, b ∈ l -> b <> None -> fixed_at g b) rpot (false, g)) as ([changed g'] & -> & l & Hl & E' & Hm & Inv' & Hc).
  - exists []. split; [done|]. split; [done|]. split; [done|]. split; [done|]. split; [done|]. by intros b ?%not_elem_of_nil.
  - intros b rest [ch h] (l & Hl & E' & Hm & Inv' & Hc). cbn [fst snd] in *.
    assert (Hbl : rpot !! length l = Some b) by (rewrite Hl; by apply list_lookup_middle).
    pose proof (rnum_at _ _ Hbl) as Hrb.
    assert (Hb : isn b) by (apply Hall; by eapply list_elem_of_lookup_2).
    rewrite <- Hrb in Inv'.
    destruct (decide (b = None)) as [->|Hne].
    + exists (ch, h). split; [done|]. exists (l ++ [None]). cbn [fst snd]. rewrite <- app_assoc, length_app. cbn [length].
      split; [done|]. split; [done|]. split; [done|]. split.
      * rewrite rnum_root in *. replace (Z.of_nat (length l + 1)) with 1 by lia.
        apply (dom_inv_root (@None Z) _ _ rnum rnum_inj (wf_root _ W)); [apply rnum_nonneg|apply rnum_root|done].
      * destruct ch; [done|]. destruct Hc as [-> Hc]. split; [done|].
        intros c [Hin| ->%list_elem_of_singleton]%elem_of_app; [by apply Hc|done].
    + destruct (dom_update_spec b ch h E' Hb Hne Inv') as (ch' & h' & Heq & E'' & Hm' & Inv'' & Hch).
      exists (ch', h'). split; [done|]. exists (l ++ [b]). cbn [fst snd]. rewrite <- app_assoc, length_app. cbn [length].
      split; [done|]. split; [done|]. split; [by rewrite Hm'|]. split.
      * rewrite Hrb in Inv''. by replace (Z.of_nat (length l + 1)) with (Z.of_nat (length l) + 1) by lia.
      * destruct Hch as [(-> & -> & Hf)|(-> & Hlt)].
        -- destruct ch; [done|]. destruct Hc as [-> Hc]. split; [done|].
           intros c [Hin| ->%list_elem_of_singleton]%elem_of_app; [by apply Hc|done].
        -- destruct ch; [lia|]. destruct Hc as [-> _]. done.
  - cbn [fst snd] in *. rewrite app_nil_r in Hl. subst l. exists changed, g'. split; [done|]. split; [done|]. split; [done|].
    split; [apply (dom_inv_pass (@None Z) _ (preds g1) rnum (Z.of_nat (length rpot))); [apply rnum_lt|done]|].
    destruct changed; [done|]. destruct Hc as [-> Hc]. split; [done|]. intros b Hb Hne. apply Hc; [by apply Hall|done].
Qed.

Lemma dom_loop_spec fuel : forall g,
  dom_eq g g1 -> dom_inv 0 (idom g) -> (dom_measure g < fuel)%nat ->
  exists g', dom_loop fuel mk rpot g = LRet g' /\ dom_eq g' g1 /\ mg_markers g' = mg_markers g /\
    dom_inv 0 (idom g') /\ forall b, isn b -> b <> None -> fixed_at g' b.
Proof.
  induction fuel as [|fuel IH]; intros g E Inv Hf; [lia|]. cbn [dom_loop].
  destruct (dom_pass_spec g E Inv) as (changed & g' & -> & E' & Hm & Inv' & Hc). cbn [mbind lres_bind].
  destruct changed.
  - destruct (IH g') as (g'' & -> & E'' & Hm' & Inv'' & Hfix); [done..|lia|].
    exists g''. split; [done|]. split; [done|]. split; [by rewrite Hm'|]. done.
  - destruct Hc as [-> Hc]. exists g. done.
Qed.

Lemma dom_measure_bound g :
  dom_inv 0 (idom g) -> (dom_measure g <= length rpot * length rpot)%nat.
Proof.
  intros Inv. unfold dom_measure.
  assert (G : forall l, (sum_list (map (dom_weight g) l) <= length l * length rpot)%nat); [|apply G].
  induction l as [|n l IH]; cbn; [lia|]. assert (dom_weight g n <= length rpot)%nat; [|lia].
  unfold dom_weight. destruct (idom g n) as [p|] eqn:Hp; [|lia].
  assert (Hps : isn p).
  { destruct (decide (n = None)) as [->|Hne].
    - rewrite (t_root _ _ _ _ (i_tree _ _ _ _ _ _ Inv)) in Hp. injection Hp as <-. apply W.
    - destruct (t_up _ _ _ _ (i_tree _ _ _ _ _ _ Inv) n p Hne Hp) as (_ & _ & Hs).
      exact (set_node _ _ rnum (wf_root _ W) _ _ (i_tree _ _ _ _ _ _ Inv) Hs). }
  pose proof (rnum_lt p Hps). lia.
Qed.

(** The result of the passes from a graph with the root alone in the tree. *)
Lemma dom_loop_dominates g fuel :
  dom_eq g g1 -> idom g None = Some None -> (forall n, n <> None -> idom g n = None) ->
  (length rpot * length rpot < fuel)%nat ->
  exists g', dom_loop fuel mk rpot g = LRet g' /\ dom_eq g' g1 /\ mg_markers g' = mg_markers g /\
    dom_fixed (@None Z) (fun n => isn n) (preds g1) rnum (idom g') /\
    forall a b, isn b -> anc (idom g') a b <-> dominates (@None Z) (preds g1) a b.
Proof.
  intros E Hr Hn Hf.
  assert (Inv : dom_inv 0 (idom g)).
  { apply dom_inv_start; [done|done|apply rnum_nonneg|apply rnum_root]. }
  pose proof (dom_measure_bound g Inv).
  destruct (dom_loop_spec fuel g E Inv) as (g' & -> & E' & Hm & Inv' & Hfix); [lia|].
  assert (Fix : dom_fixed (@None Z) (fun n => isn n) (preds g1) rnum (idom g')).
  { split; [apply Inv'|].
    assert (Hset : forall n, isn n -> is_Some (idom g' n)).
    { intros n Hs. destruct (decide (n = None)) as [->|Hne].
      - by rewrite (t_root _ _ _ _ (i_tree _ _ _ _ _ _ Inv')).
      - by destruct (Hfix n Hs Hne) as (e & -> & _). }
    split; [done|]. intros b e p Hb Hne He Hp. destruct (Hfix b Hb Hne) as (e' & He' & _ & Hlow & _).
    assert (e' = e) as -> by congruence. apply Hlow; [done|]. apply Hset. by eapply rpreds_node. }
  exists g'. split; [done|]. split; [done|]. split; [done|]. split; [done|].
  intros a b Hb. apply (fixed_dominates (@None Z) _ (preds g1) rnum rpreds_node 0); done.
Qed.
End passes.

(** ** [ComputeDomTree] *)
Definition all_reachable (g : ModuleGraph) : Prop := forall n, is_Some (node g n) -> rtc (edge g) None n.

Definition erase_dom (x : ModuleGraphNode) : ModuleGraphNode := set_mark 0 (set_dominator None x).
Abbreviation tree_eq := (same_upto erase_dom).

Lemma n_nodes_length g : n_nodes g = Z.of_nat (length (all_nodes g)).
Proof. unfold n_nodes, all_nodes. cbn. rewrite length_map. lia. Qed.

Lemma n_nodes_same f g g' : same_upto f g g' -> n_nodes g = n_nodes g'.
Proof.
  intros H. unfold n_nodes. do 2 f_equal. apply Permutation_length.
  apply NoDup_Permutation; [apply ip_list_NoDup..|]. intros ip. rewrite !ip_list_spec. by apply same_is_Some with (1 := H).
Qed.

Lemma reach_node g n : mg_wf g -> rtc (edge g) None n -> is_Some (node g n).
Proof.
  intros W H. apply (rtc_ind_r (R := edge g) (fun n => is_Some (node g n)) None); [apply W| |done].
  intros a b _ Hab _. by apply (wf_node _ W a).
Qed.

Lemma fresh_keeper_ok g : mg_fresh g -> keeper_ok g.
Proof.
  intros F. split; rewrite (fresh_keeper _ F); cbn; [lia|]. intros n x Hx.
  pose proof (fresh_mark _ F n) as Hm. rewrite (mark_of _ _ _ Hx) in Hm. lia.
Qed.

Lemma rpo_length g rpot : mg_wf g -> rpo_of g rpot -> (length rpot <= length (all_nodes g))%nat.
Proof.
  intros W R. apply submseteq_length, NoDup_submseteq; [apply R|].
  intros n Hn%(rpo_reach _ _ R). apply all_nodes_spec; [apply W|by apply reach_node].
Qed.

(** What precedes the passes: the traversal and the marker for the numbers. *)
Lemma dom_prologue g :
  mg_wf g -> mg_fresh g -> n_nodes g < 32768 ->
  exists rpot g2 mk, shape_eq g2 g /\ mg_wf g2 /\ rpo_of g rpot /\
    mk = mkMarker 2 (2 + n_nodes g mod 256) /\ mark_ok (mkMarker 0 3) g2 /\
    mg_markers g2 = mkKeeper 2 (2 + n_nodes g mod 256) /\
    ComputeDomTree g =
      ('(rpo_no, g) ← lift (number_nodes mk rpot 0 g2);
       _ ← lift (passert (rpo_no =? n_nodes g));
       g ← lift (upd_node (set_dominator (Some None)) None g);
       dom_loop (dom_fuel g) mk rpot g).
Proof.
  intros W F Hn. pose proof (fresh_keeper_ok g F) as K.
  destruct (RPOTraversal_spec g W K) as (rpot & g1 & Eq & Sh & K1 & Km & R); [rewrite (fresh_keeper _ F); cbn; lia|].
  rewrite (fresh_keeper _ F) in Km. unfold next_keeper in Km. cbn in Km.
  unfold ComputeDomTree. rewrite Eq. cbn [mbind lres_bind].
  assert (En : n_nodes g1 = n_nodes g) by (by apply (n_nodes_same (set_mark 0))). rewrite En.
  assert (Hu : new_marker (n_nodes g) g1 = new_marker (n_nodes g mod 256) g1).
  { unfold new_marker, Marker_new, u8, uN. change (2 ^ 8) with 256. by rewrite Z.mod_mod. }
  pose proof (Z.mod_pos_bound (n_nodes g) 256 ltac:(lia)).
  rewrite Hu, new_marker_spec, Km; [|done|lia|rewrite Km; cbn; lia]. cbn [k_mmax next_keeper].
  exists rpot, (mkMG (mg_segment g1) (mg_nodes g1) (mkKeeper 2 (2 + n_nodes g mod 256))), (mkMarker 2 (2 + n_nodes g mod 256)).
  assert (Sh2 : shape_eq (mkMG (mg_segment g1) (mg_nodes g1) (mkKeeper 2 (2 + n_nodes g mod 256))) g) by (intros n; apply (Sh n)).
  split; [done|]. split; [by eapply shape_wf; [symmetry|]|]. do 2 (split; [done|]). split; [|done].
  intros n [x Hx]. cbn in Hx. destruct K1 as [_ K1]. specialize (K1 n x Hx). rewrite Km in K1. cbn in K1.
  unfold mark. cbn. rewrite Hx. cbn. lia.
Qed.

Lemma mark_ok_mono mk mk' g : mmax mk <= mmax mk' -> mark_ok mk g -> mark_ok mk' g.
Proof. intros Hle H n Hn. specialize (H n Hn). lia. Qed.

Lemma ComputeDomTree_spec g :
  mg_wf g -> mg_fresh g -> all_reachable g -> n_nodes g <= 255 ->
  exists g' num, ComputeDomTree g = LRet g' /\ tree_eq g' g /\ keeper_ok g' /\
    mg_markers g' = mkKeeper 2 (2 + n_nodes g) /\
    (forall n, is_Some (node g n) -> 0 <= num n < n_nodes g) /\
    dom_fixed (@None Z) (fun n => is_Some (node g n)) (preds g) num (idom g') /\
    forall a b, is_Some (node g b) -> anc (@None Z) (idom g') a b <-> dominates (@None Z) (preds g) a b.
Proof.
  intros W F Hr Hn. pose proof (n_nodes_length g) as Hlen.
  destruct (dom_prologue g W F) as (rpot & g2 & mk & Sh & W2 & R & -> & Hok & Km & Eq); [lia|].
  rewrite Z.mod_small in * by lia.
  assert (Hall : forall n, n ∈ rpot <-> is_Some (node g n)).
  { intros n. rewrite (rpo_reach _ _ R). split; [by apply reach_node|apply Hr]. }
  assert (Hperm : rpot ≡ₚ all_nodes g).
  { apply NoDup_Permutation; [apply R|apply all_nodes_NoDup|]. intros n. rewrite Hall, all_nodes_spec; [done|apply W]. }
  set (mk := mkMarker 2 (2 + n_nodes g)) in *.
  assert (Hn1 : 1 <= n_nodes g) by (unfold n_nodes; lia).
  destruct (number_nodes_spec mk rpot 0 g2) as (g3 & E3 & Sh3 & Km3 & Hok3 & Hi & _).
  { done. } { cbn. lia. } { done. } { rewrite (Permutation_length Hperm). unfold mk. cbn [mmin mmax]. lia. } { apply R. }
  { intros n Hin. apply (shape_is_Some _ _ _ Sh). by apply Hall. } { eapply mark_ok_mono; [|exact Hok]. cbn. lia. }
  rewrite E3 in Eq. cbn [lift mbind lres_bind] in Eq.
  assert (Sh03 : shape_eq g3 g) by (by rewrite Sh3).
  rewrite (n_nodes_same _ _ _ Sh03), Hlen, (Permutation_length Hperm), Z.add_0_l, Z.eqb_refl in Eq. cbn [passert lift mbind lres_bind] in Eq.
  assert (W3 : mg_wf g3) by (eapply shape_wf; [symmetry; exact Sh03|done]).
  destruct (upd_node_ok (set_dominator (Some None)) None g3 (wf_root _ W3)) as (g4 & E4 & Hn4).
  rewrite E4 in Eq. cbn [lift mbind lres_bind] in Eq.
  assert (S4 : dom_eq g4 g3) by (by eapply upd_node_same).
  assert (Hall3 : forall n, n ∈ rpot <-> is_Some (node g3 n)) by (intros n; rewrite Hall; symmetry; by apply shape_is_Some).
  assert (Hid : forall n, idom g4 n = if decide (n = None) then Some None else None).
  { intros n. unfold idom at 1. rewrite Hn4. destruct (decide (n = None)) as [->|Hne].
    - destruct (wf_root _ W3) as [x Hx]. by rewrite Hx.
    - rewrite decide_False by done. change (idom g3 n = None). rewrite Sh03. apply F. }
  destruct (dom_loop_dominates g3 mk rpot) with (g := g4) (fuel := dom_fuel g4) as (g5 & E5 & S5 & Km5 & Fix & Hdom).
  { done. } { done. } { done. } { apply R. } { done. } { intros i n Hin. rewrite (Hi i n Hin). lia. } { apply R. }
  { intros b Hb Hne. destruct (rpo_pred _ _ R b Hb Hne) as (p & Hp & Hs). exists p. by rewrite Sh03. }
  { done. } { by rewrite Hid. } { intros n Hne. rewrite Hid. by rewrite decide_False. }
  { unfold dom_fuel. rewrite (Permutation_length Hperm). apply (n_nodes_same _ _ _) in S4 as E.
    pose proof (n_nodes_length g4). rewrite (n_nodes_same _ _ _ Sh03) in E. assert (length (all_nodes g4) = length (all_nodes g)) as -> by lia. lia. }
  exists g5, (rnum g3 mk). rewrite Eq, E5. split; [done|].
  assert (Hp : forall n, preds g3 n = preds g n) by (intros n; by rewrite Sh03).
  assert (S53 : tree_eq g5 g).
  { transitivity g3; [eapply same_coarser; [|exact S5]; done|eapply same_coarser; [|exact Sh03]; done]. }
  assert (Km5' : mg_markers g5 = mkKeeper 2 (2 + n_nodes g)).
  { rewrite Km5. apply upd_node_inv in E4 as (x & _ & ->). cbn. by rewrite Km3. }
  split; [done|]. split; [|split; [done|split; [|split]]].
  - split; rewrite Km5'; cbn [k_mmax]; [lia|]. intros n x Hx.
    assert (Hs : is_Some (node g3 n)) by (apply (same_is_Some _ _ _ _ S5); by rewrite Hx).
    pose proof (Hok3 n Hs) as Hm. rewrite <- (same_mark g3 g5 S5 n), (mark_of _ _ _ Hx) in Hm. unfold mk in Hm. cbn [mmax] in Hm. lia.
  - intros n Hs%Hall%Hall3. rewrite Hlen, <- (Permutation_length Hperm).
    split; [eapply (rnum_nonneg g3 mk rpot)|eapply (rnum_lt g3 mk rpot)]; try done; intros i m Hm; rewrite (Hi i m Hm); lia.
  - eapply dom_fixed_ext; [| |exact Fix]; [|done]. intros n. by rewrite <- Hall3, Hall.
  - intros a b Hb. rewrite Hdom by (by apply Hall3, Hall). by apply dominates_ext.
Qed.

(** The two ways in which it gives up: nodes that the root does not reach,
    and more nodes than the [u8] number of states of a marker can count. *)
Lemma ComputeDomTree_panic g :
  mg_wf g -> mg_fresh g -> n_nodes g < 32768 ->
  256 <= n_nodes g \/ (exists n, is_Some (node g n) /\ ~ rtc (edge g) None n) -> ComputeDomTree g = LPanic.
Proof.
  intros W F Hn Hbad. pose proof (n_nodes_length g) as Hlen.
  destruct (dom_prologue g W F Hn) as (rpot & g2 & mk & Sh & W2 & R & Emk & Hok & Km & Eq).
  pose proof (Z.mod_pos_bound (n_nodes g) 256 ltac:(lia)) as Hmod.
  pose proof (rpo_length g rpot W R) as Hle.
  assert (Hmin : mmin mk = 2) by (by rewrite Emk). assert (Hmax : mmax mk = 2 + n_nodes g mod 256) by (by rewrite Emk).
  assert (Hin : forall n, n ∈ rpot -> is_Some (node g2 n)).
  { intros n Hn'%(rpo_reach _ _ R). apply (shape_is_Some _ _ _ Sh). by apply reach_node. }
  destruct (decide (n_nodes g mod 256 = 0)) as [E0|E0].
  { rewrite Eq. assert (number_nodes mk rpot 0 g2 = PPanic) as ->; [|done].
    pose proof (rpo_head _ _ R) as Hh. destruct rpot as [|r l]; [done|]. cbn [number_nodes].
    destruct (Hin r) as [x Hx]; [by apply list_elem_of_here|]. unfold get_node. rewrite Hx. cbn [pderef mbind pres_bind].
    unfold Marker_Set. destruct (n_mark x <? mmax mk); [|done]. cbn [mbind pres_bind passert].
    change (u16 0) with 0. destruct (Z.ltb_spec (0 + mmin mk) (mmax mk)); [lia|done]. }
  assert (Hok2 : mark_ok mk g2) by (eapply mark_ok_mono; [|exact Hok]; cbn; lia).
  destruct (decide (Z.of_nat (length rpot) <= n_nodes g mod 256)) as [Hfit|Hfit].
  - destruct (number_nodes_spec mk rpot 0 g2) as (g3 & E3 & Sh3 & _); [lia..|apply R|done|done|].
    rewrite E3 in Eq. cbn [lift mbind lres_bind] in Eq.
    rewrite (n_nodes_same _ _ _ (transitivity Sh3 Sh)), Z.add_0_l in Eq.
    destruct (Z.eqb_spec (Z.of_nat (length rpot)) (n_nodes g)) as [E|_]; [|exact Eq].
    exfalso. destruct Hbad as [Hbig|(n & Hs & Hnr)].
    + lia.
    + apply Hnr. apply (rpo_reach _ _ R).
      assert (Hp : rpot ≡ₚ all_nodes g).
      { apply submseteq_length_Permutation; [|lia]. apply NoDup_submseteq; [apply R|].
        intros m Hm%(rpo_reach _ _ R). apply all_nodes_spec; [apply W|by apply reach_node]. }
      rewrite Hp. by apply all_nodes_spec; [apply W|].
  - rewrite Eq. by rewrite number_nodes_panic by (done || lia || apply R).
Qed.
