(* ===== verification/ModuleGraphRegions.v ===== *)
(** * Regions

    The dominance frontiers, the entries they propagate and the partition of
    the graph into regions with one entry each. *)

From stdpp Require Import base tactics numbers list gmap sorting relations.
From S2P Require Import Prelude Common Execute ModuleGraph ModuleGraphInv ModuleGraphDfs DomTree ModuleGraphDom.

Abbreviation df_eq := (same_upto (set_domfrontier [])).

(** ** [ComputeDomFrontier] *)
Section frontiers.
Context (g1 : ModuleGraph) (num : nid -> Z).
Abbreviation isn n := (is_Some (node g1 n)).
Abbreviation anc := (anc (@None Z) (idom g1)).
Context (W : mg_wf g1) (Hnum : forall n, isn n -> 0 <= num n < n_nodes g1).
Context (Fix : dom_fixed (@None Z) (fun n => isn n) (preds g1) num (idom g1)).

Let T : tree (@None Z) (fun n => isn n) num (idom g1) := proj1 Fix.

Definition df_ok (g : ModuleGraph) : Prop :=
  forall r, NoDup (frontier g r) /\ forall b, b ∈ frontier g r -> isn b /\ b <> None.
Definition df_le (g g' : ModuleGraph) : Prop := forall r b, b ∈ frontier g r -> b ∈ frontier g' r.

Lemma set_insert_in b l x : x ∈ set_insert b l <-> x = b \/ x ∈ l.
Proof.
  unfold set_insert. destruct (decide (b ∈ l)) as [Hb|Hb]; [|rewrite elem_of_app, list_elem_of_singleton; tauto].
  split; [tauto|]. by intros [->|?].
Qed.
Lemma set_insert_NoDup b l : NoDup l -> NoDup (set_insert b l).
Proof.
  intros Hl. unfold set_insert. destruct (decide (b ∈ l)) as [Hb|Hb]; [done|].
  apply NoDup_app. split; [done|]. split; [|apply NoDup_singleton]. intros x Hx ->%list_elem_of_singleton. done.
Qed.

(** One step of a runner. *)
Lemma runner_step b r x g :
  df_eq g g1 -> df_ok g -> isn b -> b <> None -> node g r = Some x ->
  exists g', upd_node (set_domfrontier (set_insert b (n_domfrontier x))) r g = POk g' /\
    df_eq g' g1 /\ mg_markers g' = mg_markers g /\ df_ok g' /\ df_le g g' /\ b ∈ frontier g' r.
Proof.
  intros E Hok Hb Hne Hx.
  destruct (upd_node_ok (set_domfrontier (set_insert b (n_domfrontier x))) r g) as (g' & Hg' & Hn); [by rewrite Hx|].
  assert (Hf : forall m, frontier g' m = if decide (m = r) then set_insert b (frontier g r) else frontier g m).
  { intros m. unfold frontier. rewrite Hn. destruct (decide (m = r)) as [->|]; [by rewrite Hx|done]. }
  exists g'. split; [done|]. split; [transitivity g; [by eapply upd_node_same|done]|].
  split; [by apply upd_node_inv in Hg' as (? & _ & ->)|]. split; [|split].
  - intros m. rewrite Hf. destruct (decide (m = r)) as [->|]; [|apply Hok]. destruct (Hok r) as [Hnd Hin].
    split; [by apply set_insert_NoDup|]. intros c [->|?]%set_insert_in; auto.
  - intros m c Hc. rewrite Hf. destruct (decide (m = r)) as [->|]; [|done]. apply set_insert_in. by right.
  - rewrite Hf, decide_True by done. apply set_insert_in. by left.
Qed.

(** The graph after a runner has gone from [p] up to [e]. *)
Definition runs (b e p : nid) (g : ModuleGraph) : Prop := forall r, anc r p -> anc e r -> r <> e -> b ∈ frontier g r.

Lemma runs_le b e p g g' : df_le g g' -> runs b e p g -> runs b e p g'.
Proof. intros Hle H r H1 H2 H3. by apply Hle, H. Qed.

Definition df_post (g g' : ModuleGraph) : Prop :=
  df_eq g' g1 /\ mg_markers g' = mg_markers g /\ df_ok g' /\ df_le g g'.

Lemma df_post_refl g : df_eq g g1 -> df_ok g -> df_post g g.
Proof. intros E Hok. split; [done|]. split; [done|]. split; [done|]. by intros r b. Qed.
Lemma df_post_trans g g' g'' : df_post g g' -> df_post g' g'' -> df_post g g''.
Proof.
  intros (E & K & O & L) (E' & K' & O' & L'). split; [done|]. split; [by rewrite K'|]. split; [done|].
  intros r b Hb. by apply L', L.
Qed.

Lemma df_runner_spec fuel b e : forall p g,
  df_eq g g1 -> df_ok g -> isn b -> b <> None -> isn p -> anc e p -> num p < Z.of_nat fuel ->
  exists g', df_runner fuel b (Some e) (Some p) g = LRet g' /\ df_post g g' /\ runs b e p g'.
Proof.
  induction fuel as [|fuel IH]; intros p g E Hok Hb Hne Hp He Hf; [pose proof (Hnum p Hp); lia|].
  cbn [df_runner]. destruct (decide (Some p = Some e)) as [[= ->]|Hpe].
  - exists g. split; [done|]. split; [by apply df_post_refl|]. intros r H1 H2 H3.
    destruct H3. exact (anc_antisym _ _ _ _ _ _ T H1 H2).
  - cbn [pderef lift mbind lres_bind].
    destruct (proj2 (same_is_Some _ _ _ p E) Hp) as [x Hx]. unfold get_node. rewrite Hx. cbn [pderef lift mbind lres_bind].
    destruct (runner_step b p x g E Hok Hb Hne Hx) as (g2 & -> & E2 & Km2 & Hok2 & Hle2 & Hin2). cbn [lift mbind lres_bind].
    inversion He as [|? ? q Hpr Hq Heq]; subst; [done|].
    assert (n_dominator x = Some q) as ->.
    { rewrite <- Hq. unfold idom. rewrite <- (same_view n_dominator None (set_domfrontier []) g g1) by done. by rewrite Hx. }
    destruct (t_up _ _ _ _ T p q Hpr Hq) as (_ & Hlt & Hqs).
    pose proof (set_node _ _ num (wf_root _ W) _ _ T Hqs) as Hqn.
    destruct (IH q g2) as (g3 & -> & Hp3 & Hr3); [done..|lia|].
    exists g3. split; [done|]. split; [by eapply df_post_trans; [|exact Hp3]|].
    intros r H1 H2 H3. inversion H1 as [|? ? q' ? Hq' H1']; subst; [by apply Hp3|].
    apply Hr3; [congruence|done..].
Qed.

(** The frontier entries that [b] causes. *)
Definition df_at (b : nid) (g : ModuleGraph) : Prop :=
  forall e p, (1 < length (preds g1 b))%nat -> idom g1 b = Some e -> p ∈ preds g1 b -> runs b e p g.

Lemma df_node_spec b g :
  df_eq g g1 -> df_ok g -> isn b -> b <> None -> exists g', df_node b g = LRet g' /\ df_post g g' /\ df_at b g'.
Proof.
  intros E Hok Hb Hne. unfold df_node. destruct (proj2 (same_is_Some _ _ _ b E) Hb) as [x Hx].
  unfold get_node. rewrite Hx. cbn [pderef lift mbind lres_bind].
  assert (Ep : n_preds x = preds g1 b).
  { unfold preds. rewrite <- (same_view n_preds [] (set_domfrontier []) g g1) by done. by rewrite Hx. }
  assert (Ed : n_dominator x = idom g1 b).
  { unfold idom. rewrite <- (same_view n_dominator None (set_domfrontier []) g g1) by done. by rewrite Hx. }
  rewrite Ep, Ed. pose proof (proj2 (proj2 Fix)) as Hfix. destruct (proj1 (proj2 Fix) b Hb) as [e He]. rewrite He.
  destruct (Nat.ltb_spec 1 (length (preds g1 b))) as [Hlt|Hge].
  2:{ exists g. split; [done|]. split; [by apply df_post_refl|]. intros e' p H1. lia. }
  destruct (lfold_inv (fun r g => df_runner (climb_fuel g) b (Some e) (Some r) g)
    (fun rest h => df_post g h /\ exists l, preds g1 b = l ++ rest /\ forall p, p ∈ l -> runs b e p h) (preds g1 b) g)
    as (g' & -> & HP & l & Hl & Hr).
  - split; [by apply df_post_refl|]. exists []. split; [done|]. by intros p ?%not_elem_of_nil.
  - intros p rest h (HP & l & Hl & Hr).
    assert (Hpb : p ∈ preds g1 b) by (rewrite Hl; set_solver).
    assert (Hp : isn p).
    { apply (wf_dual _ W) in Hpb. unfold succs in Hpb. destruct (node g1 p); [by eauto|by apply not_elem_of_nil in Hpb]. }
    destruct (df_runner_spec (climb_fuel h) b e p h) as (h' & -> & HP' & Hr'); [apply HP|apply HP|done..| | |].
    { by apply (Hfix b e p). }
    { unfold climb_fuel. pose proof (n_nodes_length h) as Hh. rewrite (n_nodes_same _ _ _ (proj1 HP)) in Hh.
      pose proof (Hnum p Hp). lia. }
    exists h'. split; [done|]. split; [by eapply df_post_trans|]. exists (l ++ [p]). rewrite <- app_assoc. split; [done|].
    intros q [Hq| ->%list_elem_of_singleton]%elem_of_app; [|done]. eapply runs_le; [apply HP'|by apply Hr].
  - rewrite app_nil_r in Hl. subst l. exists g'. split; [done|]. split; [done|].
    intros e' p _ He' Hp. assert (e' = e) as -> by congruence. by apply Hr.
Qed.

Lemma ComputeDomFrontier_spec :
  (forall n, frontier g1 n = []) ->
  exists g', ComputeDomFrontier g1 = LRet g' /\ df_eq g' g1 /\ mg_markers g' = mg_markers g1 /\ df_ok g' /\
    forall b, isn b -> b <> None -> df_at b g'.
Proof.
  intros Hf. unfold ComputeDomFrontier.
  assert (Hok : df_ok g1).
  { intros r. rewrite Hf. split; [constructor|]. by intros b ?%not_elem_of_nil. }
  destruct (lfold_inv df_node (fun rest h => df_post g1 h /\ exists l, map Some (ip_list g1) = l ++ rest /\
    forall b, b ∈ l -> df_at b h) (map Some (ip_list g1)) g1) as (g' & -> & HP & l & Hl & Hd).
  - split; [by apply df_post_refl|]. exists []. split; [done|]. by intros p ?%not_elem_of_nil.
  - intros b rest h (HP & l & Hl & Hd).
    assert (exists ip, b = Some ip /\ ip ∈ ip_list g1) as (ip & Hip & Hin).
    { apply list_elem_of_fmap. change (fmap Some (ip_list g1)) with (map Some (ip_list g1)). rewrite Hl. set_solver. }
    assert (Hb : isn b) by (rewrite Hip; by apply ip_list_spec).
    destruct (df_node_spec b h) as (h' & -> & HP' & Hd'); [apply HP|apply HP|done|by rewrite Hip|].
    exists h'. split; [done|]. split; [by eapply df_post_trans|]. exists (l ++ [b]). rewrite <- app_assoc. split; [done|].
    intros c [Hc| ->%list_elem_of_singleton]%elem_of_app; [|done]. intros e p H1 H2 H3.
    eapply runs_le; [apply HP'|by apply Hd].
  - rewrite app_nil_r in Hl. subst l. exists g'. destruct HP as (E & K & O & _). split; [done|]. split; [done|].
    split; [done|]. split; [done|]. intros b Hb Hne. apply Hd. destruct b as [ip|]; [|done].
    apply list_elem_of_fmap_2. by apply ip_list_spec.
Qed.
End frontiers.

(** ** [ComputeRegionIDF] *)
Definition no_entry (x : ModuleGraphNode) : ModuleGraphNode :=
  set_flags (mkFlags (is_brind_target (n_flags x)) (is_segment_entry (n_flags x)) false
               (is_brind_source (n_flags x)) (is_crosssegment_br (n_flags x))) x.
Abbreviation entry_eq := (same_upto no_entry).

(** The iterated dominance frontier of the entries recorded in the graph. *)
Inductive idf (g : ModuleGraph) : nid -> Prop :=
| idf_base n : n <> None -> entry_flag g n = true -> idf g n
| idf_step n y : idf g n -> y ∈ frontier g n -> idf g y.

Lemma entry_eq_flag g g' n : entry_eq g g' -> entry_flag g n = entry_flag g' n.
Proof. by apply (same_view (fun x => is_brind_target (n_flags x) || is_segment_entry (n_flags x)) false no_entry). Qed.
Lemma entry_eq_frontier g g' n : entry_eq g g' -> frontier g n = frontier g' n.
Proof. by apply (same_view n_domfrontier [] no_entry). Qed.

Lemma set_entry n g :
  is_Some (node g n) ->
  exists g', upd_flags flag_region_entry n g = POk g' /\ entry_eq g' g /\ mg_markers g' = mg_markers g /\
    forall m, reg_entry g' m = if decide (m = n) then true else reg_entry g m.
Proof.
  intros Hs. destruct (upd_node_ok (fun x => set_flags (flag_region_entry (n_flags x)) x) n g Hs) as (g' & Hg' & Hn).
  exists g'. split; [done|]. split; [by eapply upd_node_same|]. split; [by apply upd_node_inv in Hg' as (? & _ & ->)|].
  intros m. unfold reg_entry. rewrite Hn. destruct (decide (m = n)) as [->|]; [|done].
  destruct Hs as [x ->]. done.
Qed.

Section idf_proof.
Context (host_order : list nid -> list nid) (Hord : forall l, host_order l ≡ₚ l).
Context (g1 : ModuleGraph) (W : mg_wf g1) (Hdf : df_ok g1 g1) (Hne : forall n, reg_entry g1 n = false).

Abbreviation isn n := (is_Some (node g1 n)).
Definition unflagged (g : ModuleGraph) : nat := length (filter (fun n => reg_entry g n = false) (all_nodes g1)).
Abbreviation nn := (length (all_nodes g1)).

Definition top_weight (g : ModuleGraph) (wl : list nid) : nat :=
  match wl with x :: _ => if reg_entry g x then S nn else 0%nat | [] => 0%nat end.
Definition idf_measure (g : ModuleGraph) (wl : list nid) : nat :=
  (unflagged g * (2 * S nn) + length wl + top_weight g wl)%nat.

Record idf_inv (g : ModuleGraph) (wl : list nid) : Prop := {
  ii_eq : entry_eq g g1;
  ii_markers : mg_markers g = mg_markers g1;
  ii_base n : n <> None -> entry_flag g1 n = true -> reg_entry g n = true;
  ii_closed n y : reg_entry g n = true -> n ∉ wl -> y ∈ frontier g1 n -> reg_entry g y = true \/ y ∈ wl;
  ii_sound n : reg_entry g n = true \/ n ∈ wl -> idf g1 n }.

Lemma idf_node n : idf g1 n -> isn n /\ n <> None.
Proof.
  induction 1 as [n Hn Hf|n y Hi IH Hy]; [|by apply (Hdf n)]. split; [|done].
  unfold entry_flag in Hf. by destruct (node g1 n); [eauto|].
Qed.

Lemma idf_push_spec g ys : forall wl,
  (forall y, y ∈ ys -> is_Some (node g y)) ->
  exists ps, lfold (idf_push g) ys wl = LRet (ps ++ wl) /\ (length ps <= length ys)%nat /\
    forall y, y ∈ ps <-> y ∈ ys /\ reg_entry g y = false.
Proof.
  induction ys as [|y ys IH]; intros wl Hys; cbn [lfold].
  { exists []. split; [done|]. split; [done|]. intros y. split; [by intros ?%not_elem_of_nil|by intros [?%not_elem_of_nil _]]. }
  destruct (Hys y) as [x Hx]; [by apply list_elem_of_here|]. 
  assert (Hp : idf_push g y wl = LRet (if reg_entry g y then wl else y :: wl)).
  { unfold idf_push, get_node, reg_entry. by rewrite Hx. }
  rewrite Hp. cbn [mbind lres_bind].
  destruct (IH (if reg_entry g y then wl else y :: wl)) as (ps & -> & Hlen & Hps).
  { intros z Hz. apply Hys. by apply list_elem_of_further. }
  destruct (reg_entry g y) eqn:Er.
  - exists ps. split; [done|]. split; [cbn; lia|]. intros z. rewrite Hps, elem_of_cons. split; [tauto|].
    intros [[->|?] ?]; [congruence|tauto].
  - exists (ps ++ [y]). rewrite <- app_assoc. split; [done|]. split; [rewrite length_app; cbn; lia|].
    intros z. rewrite elem_of_app, Hps, list_elem_of_singleton, elem_of_cons. split; [|tauto].
    intros [?| ->]; tauto.
Qed.

Lemma unflagged_step g g' x :
  isn x -> reg_entry g x = false -> (forall m, reg_entry g' m = if decide (m = x) then true else reg_entry g m) ->
  unflagged g = S (unflagged g').
Proof.
  intros Hx Hf Hg'. unfold unflagged.
  assert (E : filter (fun n => reg_entry g n = false) (all_nodes g1) ≡ₚ x :: filter (fun n => reg_entry g' n = false) (all_nodes g1)).
  { apply NoDup_Permutation; [apply NoDup_filter, all_nodes_NoDup| |].
    - apply NoDup_cons. split; [|apply NoDup_filter, all_nodes_NoDup].
      rewrite list_elem_of_filter, Hg', decide_True by done. by intros [? _].
    - intros y. rewrite elem_of_cons, !list_elem_of_filter, Hg', !all_nodes_spec by apply W.
      destruct (decide (y = x)) as [->|]; naive_solver. }
  by rewrite (Permutation_length E).
Qed.

Lemma unflagged_same g g' : (forall m, reg_entry g' m = reg_entry g m) -> unflagged g' = unflagged g.
Proof.
  intros H. unfold unflagged. f_equal. induction (all_nodes g1) as [|n l IH]; [done|].
  rewrite !filter_cons, IH, H. done.
Qed.

Lemma frontier_short n : (length (frontier g1 n) <= nn)%nat.
Proof.
  apply submseteq_length, NoDup_submseteq; [apply Hdf|]. intros b Hb. apply all_nodes_spec; [apply W|]. by apply (Hdf n).
Qed.

Lemma idf_loop_spec fuel : forall g wl,
  idf_inv g wl -> (idf_measure g wl < fuel)%nat ->
  exists g', idf_loop host_order fuel wl g = LRet g' /\ idf_inv g' [].
Proof.
  induction fuel as [|fuel IH]; intros g wl I Hf; [lia|]. cbn [idf_loop]. destruct wl as [|x wl]; [eauto|].
  pose proof (ii_eq _ _ I) as E.
  destruct (idf_node x) as [Hx Hxr]; [apply (ii_sound _ _ I); right; by apply list_elem_of_here|].
  destruct (proj2 (same_is_Some _ _ _ x E) Hx) as [nd Hnd]. unfold get_node. rewrite Hnd. cbn [pderef lift mbind lres_bind].
  assert (n_domfrontier nd = frontier g1 x) as ->.
  { rewrite <- (entry_eq_frontier g g1 x E). unfold frontier. by rewrite Hnd. }
  destruct (idf_push_spec g (host_order (frontier g1 x)) wl) as (ps & -> & Hlen & Hps).
  { intros y. rewrite Hord. intros Hy. apply (same_is_Some _ _ _ _ E). by apply (Hdf x). }
  rewrite (Permutation_length (Hord _)) in Hlen. pose proof (frontier_short x) as Hshort.
  cbn [mbind lres_bind]. destruct (set_entry x g) as (g' & -> & E' & K' & Hre); [by rewrite Hnd|]. cbn [lift mbind lres_bind].
  assert (Hxi : idf g1 x) by (apply (ii_sound _ _ I); right; by apply list_elem_of_here).
  apply IH.
  - constructor.
    + by rewrite E'.
    + rewrite K'. apply I.
    + intros n H1 H2. rewrite Hre. destruct (decide (n = x)); [done|]. by apply I.
    + intros n y Hn Hnw Hy. rewrite Hre in Hn |- *. destruct (decide (y = x)) as [->|Hyx]; [by left|].
      rewrite elem_of_app in Hnw |- *. destruct (decide (n = x)) as [->|Hnx].
      * destruct (reg_entry g y) eqn:Er; [by left|]. right. left. apply Hps. by rewrite Hord.
      * destruct (ii_closed _ _ I n y Hn) as [?|Hin]; [rewrite elem_of_cons; tauto|done|by left|].
        apply elem_of_cons in Hin as [?|?]; [done|tauto].
    + intros n [Hn|Hn].
      * rewrite Hre in Hn. destruct (decide (n = x)) as [->|]; [done|]. apply (ii_sound _ _ I). by left.
      * apply elem_of_app in Hn as [Hn|Hn].
        -- apply Hps in Hn as [Hn _]. rewrite Hord in Hn. by eapply idf_step.
        -- apply (ii_sound _ _ I). right. by apply list_elem_of_further.
  - unfold idf_measure in *. rewrite length_app. cbn [length top_weight] in Hf.
    destruct (reg_entry g x) eqn:Ex.
    + assert (Hsame : forall m, reg_entry g' m = reg_entry g m) by (intros m; rewrite Hre; by destruct (decide (m = x)) as [->|]).
      rewrite (unflagged_same _ _ Hsame). destruct ps as [|p ps]; cbn [app length] in *.
      * assert (top_weight g' wl <= S nn)%nat; [|lia]. unfold top_weight. destruct wl; [lia|]. destruct (reg_entry g' _); lia.
      * cbn [top_weight]. rewrite Hsame. destruct (proj1 (Hps p)) as [_ ->]; [by apply list_elem_of_here|]. lia.
    + rewrite (unflagged_step g g' x Hx Ex Hre) in Hf.
      assert (top_weight g' (ps ++ wl) <= S nn)%nat; [|lia]. unfold top_weight.
      destruct (ps ++ wl); [lia|]. destruct (reg_entry g' _); lia.
Qed.
Lemma idf_entry_spec l n s :
  (entry_eq s.2 g1 /\ mg_markers s.2 = mg_markers g1 /\ (length s.1 <= length l)%nat /\
   (forall m, m ∈ s.1 <-> m ∈ l /\ entry_flag g1 m = true) /\ forall m, reg_entry s.2 m = true <-> m ∈ s.1) ->
  isn n ->
  exists s', idf_entry n s = LRet s' /\
   (entry_eq s'.2 g1 /\ mg_markers s'.2 = mg_markers g1 /\ (length s'.1 <= length (l ++ [n]))%nat /\
    (forall m, m ∈ s'.1 <-> m ∈ l ++ [n] /\ entry_flag g1 m = true) /\ forall m, reg_entry s'.2 m = true <-> m ∈ s'.1).
Proof.
  destruct s as [wl g]. cbn [fst snd]. intros (E & K & Hlen & Hin & Hre) Hn.
  destruct (proj2 (same_is_Some _ _ _ n E) Hn) as [x Hx]. unfold idf_entry, get_node. rewrite Hx. cbn [pderef lift mbind lres_bind].
  assert (Hf : is_brind_target (n_flags x) || is_segment_entry (n_flags x) = entry_flag g1 n).
  { rewrite <- (entry_eq_flag g g1 n E). unfold entry_flag. by rewrite Hx. }
  rewrite Hf. destruct (entry_flag g1 n) eqn:Ef.
  - destruct (set_entry n g) as (g' & -> & E' & K' & Hre'); [by rewrite Hx|]. cbn [lift mbind lres_bind].
    eexists. split; [done|]. cbn [fst snd]. split; [by rewrite E'|]. split; [by rewrite K'|].
    split; [rewrite length_app; cbn; lia|]. split.
    + intros m. rewrite elem_of_cons, elem_of_app, list_elem_of_singleton, Hin. split.
      * intros [->|[? ?]]; auto.
      * intros [[?| ->] ?]; auto.
    + intros m. rewrite Hre', elem_of_cons, <- Hre. destruct (decide (m = n)); tauto.
  - eexists. split; [done|]. cbn [fst snd]. split; [done|]. split; [done|].
    split; [rewrite length_app; cbn; lia|]. split; [|done].
    intros m. rewrite elem_of_app, list_elem_of_singleton, Hin. split; [tauto|]. intros [[?| ->] ?]; [done|congruence].
Qed.

Lemma ComputeRegionIDF_spec :
  exists g', ComputeRegionIDF host_order g1 = LRet g' /\ entry_eq g' g1 /\ mg_markers g' = mg_markers g1 /\
    forall n, reg_entry g' n = true <-> idf g1 n.
Proof.
  unfold ComputeRegionIDF.
  destruct (lfold_inv idf_entry (fun rest s => exists l, map Some (ip_list g1) = l ++ rest /\
     (entry_eq s.2 g1 /\ mg_markers s.2 = mg_markers g1 /\ (length s.1 <= length l)%nat /\
      (forall m, m ∈ s.1 <-> m ∈ l /\ entry_flag g1 m = true) /\ forall m, reg_entry s.2 m = true <-> m ∈ s.1))
     (map Some (ip_list g1)) ([], g1)) as ([wl g] & -> & l & Hl & E & K & Hlen & Hin & Hre).
  - exists []. cbn. split; [done|]. split; [done|]. split; [done|]. split; [done|].
    split; intros m; [split; [by intros ?%not_elem_of_nil|by intros [?%not_elem_of_nil _]]|].
    rewrite Hne. split; [done|by intros ?%not_elem_of_nil].
  - intros n rest s (l & Hl & Hs).
    assert (Hn : isn n).
    { assert (Hin : n ∈ map Some (ip_list g1)) by (rewrite Hl; set_solver).
      apply list_elem_of_fmap in Hin as (ip & -> & Hip). by apply ip_list_spec. }
    destruct (idf_entry_spec l n s Hs Hn) as (s' & -> & Hs'). exists s'. split; [done|].
    exists (l ++ [n]). by rewrite <- app_assoc.
  - rewrite app_nil_r in Hl. cbn [fst snd mbind lres_bind] in *.
    destruct (idf_loop_spec (idf_fuel g) g wl) as (g' & -> & I).
    + constructor; [done|done| | |].
      * intros n Hn Hf. apply Hre, Hin. split; [|done]. rewrite <- Hl. destruct n as [ip|]; [|done].
        apply list_elem_of_fmap_2, ip_list_spec. unfold entry_flag in Hf. by destruct (node g1 (Some ip)); [eauto|].
      * intros n y Hn%Hre. done.
      * intros n Hn. assert (Hw : n ∈ wl) by (destruct Hn as [?%Hre|?]; done). apply Hin in Hw as [Hnl Hf].
        rewrite <- Hl in Hnl. apply list_elem_of_fmap in Hnl as (ip & -> & _). by apply idf_base.
    + unfold idf_measure, idf_fuel.
      assert (length (all_nodes g) = nn) as -> by (pose proof (n_nodes_same _ _ _ E); rewrite !n_nodes_length in *; lia).
      assert (unflagged g <= nn)%nat by (apply length_filter).
      assert (length wl <= nn)%nat by (rewrite <- Hl in Hlen; unfold all_nodes; cbn; lia).
      assert (top_weight g wl <= S nn)%nat by (unfold top_weight; destruct wl; [lia|]; destruct (reg_entry g _); lia).
      nia.
    + exists g'. split; [done|]. split; [apply I|]. split; [apply I|]. intros n. split; [intros Hn; apply (ii_sound _ _ I); by left|].
      induction 1 as [n H1 H2|n y Hi IH Hy]; [by apply I|].
      destruct (ii_closed _ _ I n y IH) as [?|?%not_elem_of_nil]; [apply not_elem_of_nil|done..].
Qed.
End idf_proof.

(** ** The partition

    [owner e n]: the entry [e] is the nearest one on the chain of [n]. *)
Section partition.
Context (g : ModuleGraph) (num : nid -> Z) (W : mg_wf g) (Reach : all_reachable g).
Abbreviation isn n := (is_Some (node g n)).
Abbreviation anc := (anc (@None Z) (idom g)).
Context (Fix : dom_fixed (@None Z) (fun n => isn n) (preds g) num (idom g)).
Context (Dom : forall a b, isn b -> anc a b <-> dominates (@None Z) (preds g) a b).
Context (Entries : forall n, n <> None -> entry_flag g n = true -> reg_entry g n = true).
Context (Root : reg_entry g None = false).
Context (Closed : forall b p r e, isn b -> b <> None -> (1 < length (preds g b))%nat -> idom g b = Some e ->
  p ∈ preds g b -> anc r p -> anc e r -> r <> e -> reg_entry g r = true -> reg_entry g b = true).

Let T : tree (@None Z) (fun n => isn n) num (idom g) := proj1 Fix.

Definition owner (e n : nid) : Prop :=
  anc e n /\ reg_entry g e = true /\ forall r, anc r n -> anc e r -> r <> e -> reg_entry g r = false.

Lemma owner_unique e e' n : owner e n -> owner e' n -> e = e'.
Proof.
  intros (H1 & H2 & H3) (H1' & H2' & H3').
  destruct (decide (e = e')) as [|Hne]; [done|]. exfalso.
  destruct (anc_linear _ _ _ _ _ H1 H1') as [H|H].
  - rewrite (H3 e') in H2'; [done|done|done|]. congruence.
  - rewrite (H3' e) in H2; [done|done|done|]. congruence.
Qed.

Lemma edge_node a b : b ∈ succs g a -> isn a /\ isn b /\ b <> None.
Proof.
  intros H. split; [|split; [by apply (wf_node _ W a)|]].
  - unfold succs in H. destruct (node g a); [by eauto|by apply not_elem_of_nil in H].
  - intros ->. apply (wf_dual _ W) in H. rewrite (wf_root_preds _ W) in H. by apply not_elem_of_nil in H.
Qed.

(** With one predecessor, that is the dominator. *)
Lemma single_pred a b : b ∈ succs g a -> length (preds g b) = 1%nat -> idom g b = Some a.
Proof.
  intros Hab Hlen. destruct (edge_node a b Hab) as (Ha & Hb & Hne).
  pose proof (proj1 (wf_dual _ W a b) Hab) as Hp.
  destruct (preds g b) as [|q [|? ?]] eqn:Ep; [done| |done]. apply list_elem_of_singleton in Hp as ->.
  destruct (proj1 (proj2 Fix) b Hb) as [e He].
  assert (Hea : anc e q) by (apply (proj2 (proj2 Fix) b e q); [done..|rewrite Ep; by apply list_elem_of_singleton]).
  assert (Hqb : anc q b).
  { apply Dom; [done|]. intros l Hl. inversion Hl as [|p c l' Hl' Hpb]; subst; [done|].
    rewrite Ep in Hpb. apply list_elem_of_singleton in Hpb as ->. apply elem_of_cons. right.
    by inversion Hl'; apply list_elem_of_here. }
  rewrite He. f_equal. inversion Hqb as [|? ? e' ? He' Hqe]; subst.
  - (* only [b] itself precedes [b]: the root does not reach it *)
    exfalso. apply (rtc_ind_r (R := edge g) (fun n => n <> b) None) with (3 := Reach b Hb); [done| |done].
    intros p c _ Hpc Hpb ->. apply (wf_dual _ W) in Hpc. rewrite Ep in Hpc. by apply list_elem_of_singleton in Hpc.
  - assert (e' = e) as -> by congruence. symmetry. exact (anc_antisym _ _ _ _ _ _ T Hqe Hea).
Qed.

(** The owner does not change along an edge into a node that is no entry. *)
Lemma owner_step e a b : owner e a -> b ∈ succs g a -> reg_entry g b = false -> owner e b.
Proof.
  intros (Hea & He & Hnear) Hab Hb0. destruct (edge_node a b Hab) as (Ha & Hb & Hne).
  pose proof (proj1 (wf_dual _ W a b) Hab) as Hp.
  destruct (proj1 (proj2 Fix) b Hb) as [i Hi].
  assert (Hia : anc i a) by (by apply (proj2 (proj2 Fix) b i a)).
  assert (Hei : anc e i).
  { destruct (anc_linear _ _ _ _ _ Hea Hia) as [?|Hie]; [done|].
    destruct (decide (e = i)) as [->|Hne']; [constructor|]. exfalso.
    destruct (decide (length (preds g b) = 1)%nat) as [H1|H1].
    - rewrite (single_pred a b Hab H1) in Hi. injection Hi as <-. destruct Hne'. exact (anc_antisym _ _ _ _ _ _ T Hea Hie).
    - rewrite (Closed b a e i) in Hb0; try done. destruct (preds g b) as [|? [|? ?]]; [by apply not_elem_of_nil in Hp|done|cbn; lia]. }
  split; [by eapply anc_up|]. split; [done|]. intros r Hr Her Hre.
  inversion Hr as [|? ? i' ? Hi' Hri]; subst; [done|]. assert (i' = i) as -> by congruence.
  apply Hnear; [exact (anc_trans _ _ _ _ _ Hri Hia)|done..].
Qed.

Lemma region_owner e n : reg_entry g e = true -> in_region g e n -> owner e n.
Proof.
  intros He Hr. apply (rtc_ind_r (R := region_step g) (owner e) e) with (3 := Hr).
  - split; [constructor|]. split; [done|]. intros r H1 H2 H3. destruct H3. exact (anc_antisym _ _ _ _ _ _ T H1 H2).
  - intros a b _ [Hab Hb] Ho. by eapply owner_step.
Qed.

Lemma region_disjoint e e' n :
  reg_entry g e = true -> reg_entry g e' = true -> in_region g e n -> in_region g e' n -> e = e'.
Proof. intros He He' H H'. eapply owner_unique; by apply region_owner. Qed.

Lemma region_cover n : isn n -> n <> None -> exists e, reg_entry g e = true /\ in_region g e n.
Proof.
  intros Hn. apply (rtc_ind_r (R := edge g) (fun n => n <> None -> exists e, reg_entry g e = true /\ in_region g e n) None)
    with (3 := Reach n Hn); [done|].
  intros a b _ Hab IH Hb. destruct (reg_entry g b) eqn:Eb; [exists b; split; [done|constructor]|].
  destruct (decide (a = None)) as [->|Ha].
  - rewrite Entries in Eb; [done|done|]. by apply (wf_root_succs _ W).
  - destruct (IH Ha) as (e & He & Hr). exists e. split; [done|]. by eapply rtc_r.
Qed.

(** Edges into a region come from it or lead to its entry. *)
Lemma region_single_entry e a b : b ∈ succs g a -> in_region g e b -> ~ in_region g e a -> reg_entry g e = true -> b = e.
Proof.
  intros Hab Hb Ha He. destruct (reg_entry g b) eqn:Eb.
  - apply rtc_inv_r in Hb as [<-|(p & _ & _ & Hpb)]; [done|congruence].
  - destruct Ha. destruct (edge_node a b Hab) as (Han & _ & Hbr).
    destruct (decide (a = None)) as [->|Hne]; [rewrite Entries in Eb; [done|done|by apply (wf_root_succs _ W)]|].
    destruct (region_cover a Han Hne) as (e' & He' & Hr'). replace e with e'; [done|].
    apply (region_disjoint e' e b); [done|done| |done]. by eapply rtc_r.
Qed.
Lemma in_region_shape h e n : shape_eq h g -> in_region h e n <-> in_region g e n.
Proof.
  intros Sh. unfold in_region. split; intros H; eapply rtc_subrel; try exact H; intros a b [H1 H2]; split;
    [by rewrite <- Sh|by rewrite <- Sh|by rewrite Sh|by rewrite Sh].
Qed.

Definition region_of (r : list nid) : Prop :=
  exists e, reg_entry g e = true /\ head r = Some e /\ NoDup r /\ forall n, n ∈ r <-> in_region g e n.

(** The regions of the entries among the first nodes [l]. *)
Record regions_inv (l : list nid) (regions : list (list nid)) (h : ModuleGraph) : Prop := {
  rg_shape : shape_eq h g;
  rg_keeper : keeper_ok h;
  rg_max : k_mmax (mg_markers h) <= k_mmax (mg_markers g) + 2 * Z.of_nat (length l);
  rg_region : Forall region_of regions;
  rg_nodup : NoDup (mjoin regions);
  rg_nodes n : n ∈ mjoin regions <-> exists e, e ∈ l /\ reg_entry g e = true /\ in_region g e n;
  rg_entry e : e ∈ l -> reg_entry g e = true -> exists r, r ∈ regions /\ head r = Some e }.

Lemma region_node_spec l n regions h :
  regions_inv l regions h -> isn n -> n ∉ l -> k_mmax (mg_markers g) + 2 * Z.of_nat (length l) + 2 < 2 ^ 16 ->
  exists regions' h', region_node n (regions, h) = LRet (regions', h') /\ regions_inv (l ++ [n]) regions' h'.
Proof.
  intros [Sh K Hm HR Hnd Hn He] Hs Hnl Hmax. unfold region_node.
  destruct (proj2 (same_is_Some _ _ _ n Sh) Hs) as [x Hx]. unfold get_node. rewrite Hx. cbn [pderef lift mbind lres_bind].
  assert (Hf : region_entry (n_flags x) = reg_entry g n) by (rewrite <- Sh; unfold reg_entry; by rewrite Hx). rewrite Hf.
  destruct (reg_entry g n) eqn:Er.
  - destruct (compute_region_spec h n) as (r & h' & -> & Sh' & K' & Km & Hndr & Hhd & Hr).
    { eapply shape_wf; [symmetry; exact Sh|done]. } { done. } { lia. } { by rewrite Hx. }
    cbn [mbind lres_bind]. exists (regions ++ [r]), h'. split; [done|].
    assert (Hr' : forall m, m ∈ r <-> in_region g n m) by (intros m; rewrite Hr; by apply in_region_shape).
    constructor.
    + by rewrite Sh'.
    + done.
    + rewrite Km. cbn. rewrite length_app. cbn. lia.
    + apply Forall_app. split; [done|]. apply Forall_singleton. by exists n.
    + rewrite join_app. cbn. rewrite app_nil_r. apply NoDup_app. split; [done|]. split; [|done].
      intros m (e & Hel & Hee & Hem)%Hn Hmr%Hr'. apply Hnl. by rewrite (region_disjoint n e m).
    + intros m. rewrite join_app. cbn. rewrite app_nil_r, elem_of_app, Hn, Hr'. split.
      * intros [(e & Hel & ?)|?]; [exists e|exists n]; rewrite elem_of_app, list_elem_of_singleton; auto.
      * intros (e & [Hel| ->%list_elem_of_singleton]%elem_of_app & ? & ?); [left; eauto|auto].
    + intros e [Hel| ->%list_elem_of_singleton]%elem_of_app Hee.
      * destruct (He e Hel Hee) as (r' & ? & ?). exists r'. rewrite elem_of_app. auto.
      * exists r. rewrite elem_of_app, list_elem_of_singleton. auto.
  - exists regions, h. split; [done|]. constructor; try done.
    + rewrite length_app. cbn. lia.
    + intros m. rewrite Hn. split; intros (e & Hel & H1 & H2); exists e; [rewrite elem_of_app; auto|].
      apply elem_of_app in Hel as [Hel| ->%list_elem_of_singleton]; [auto|congruence].
    + intros e [Hel| ->%list_elem_of_singleton]%elem_of_app Hee; [auto|congruence].
Qed.

Lemma ComputeRegionDomSets_spec :
  keeper_ok g -> k_mmax (mg_markers g) + 2 * Z.of_nat (length (ip_list g)) < 2 ^ 16 ->
  exists regions g', ComputeRegionDomSets g = LRet (regions, g') /\ shape_eq g' g /\
    mjoin regions ≡ₚ Some <$> ip_list g /\
    (forall r, r ∈ regions -> exists e, head r = Some e /\ reg_entry g e = true /\
       forall a b, b ∈ succs g a -> b ∈ r -> a ∉ r -> b = e) /\
    forall e, reg_entry g e = true -> exists r, r ∈ regions /\ head r = Some e.
Proof.
  intros K Hmax. unfold ComputeRegionDomSets. change (map Some (ip_list g)) with (Some <$> ip_list g).
  assert (Hnd : NoDup (Some <$> ip_list g)) by (apply NoDup_fmap; [apply _|apply ip_list_NoDup]).
  assert (Hent : forall e, reg_entry g e = true -> e ∈ Some <$> ip_list g).
  { intros [ip|] He; [|congruence]. apply list_elem_of_fmap_2, ip_list_spec. unfold reg_entry in He.
    by destruct (node g (Some ip)); [eauto|]. }
  destruct (lfold_inv region_node (fun rest s => exists l, Some <$> ip_list g = l ++ rest /\ regions_inv l s.1 s.2)
     (Some <$> ip_list g) ([], g)) as ([regions g'] & -> & l & Hl & I).
  - exists []. split; [done|]. constructor; cbn; try done; [lia|constructor| |].
    + intros n. split; [by intros ?%not_elem_of_nil|by intros (e & ?%not_elem_of_nil & _)].
    + by intros e ?%not_elem_of_nil.
  - intros n rest [regions h] (l & Hl & I). cbn [fst snd] in *.
    assert (Hn : isn n).
    { assert (Hin : n ∈ Some <$> ip_list g) by (rewrite Hl; set_solver).
      apply list_elem_of_fmap in Hin as (ip & -> & Hip). by apply ip_list_spec. }
    destruct (region_node_spec l n regions h I Hn) as (regions' & h' & -> & I').
    { rewrite Hl in Hnd. apply NoDup_app in Hnd as (_ & Hnd & _). intros Hin. apply (Hnd n Hin). by apply list_elem_of_here. }
    { apply (f_equal length) in Hl. rewrite length_fmap, length_app in Hl. cbn in Hl. lia. }
    exists (regions', h'). split; [done|]. exists (l ++ [n]). by rewrite <- app_assoc.
  - rewrite app_nil_r in Hl. subst l. cbn [fst snd] in I. exists regions, g'. split; [done|]. split; [apply I|]. split; [|split].
    + apply NoDup_Permutation; [apply I|done|]. intros n. rewrite (rg_nodes _ _ _ I). split.
      * intros (e & Hel & He & Hr). destruct (decide (n = e)) as [->|Hne]; [done|].
        apply rtc_inv_r in Hr as [?|(p & _ & Hpn & _)]; [done|]. destruct (edge_node p n Hpn) as (_ & Hn & Hnr).
        destruct n as [ip|]; [|done]. by apply list_elem_of_fmap_2, ip_list_spec.
      * intros (ip & -> & Hip)%list_elem_of_fmap. apply ip_list_spec in Hip.
        destruct (region_cover (Some ip) Hip) as (e & He & Hr); [done|]. exists e. auto.
    + intros r Hin. pose proof (rg_region _ _ _ I) as HR. rewrite Forall_forall in HR.
      destruct (HR r Hin) as (e & Hee & Hhd & _ & Hn). exists e. split; [done|]. split; [done|].
      intros a b Hab Hb Ha. rewrite Hn in Hb, Ha. by eapply region_single_entry.
    + intros e He. apply (rg_entry _ _ _ I); auto.
Qed.
End partition.

(** ** [ComputeRegions] *)
Definition partition_of (g : ModuleGraph) (regions : list (list nid)) : Prop :=
  mjoin regions ≡ₚ Some <$> ip_list g /\
  (forall r, r ∈ regions -> exists e, head r = Some e /\ forall a b, b ∈ succs g a -> b ∈ r -> a ∉ r -> b = e) /\
  (forall n, n <> None -> entry_flag g n = true -> exists r, r ∈ regions /\ head r = Some n).

Definition erase_all (x : ModuleGraphNode) : ModuleGraphNode := no_entry (set_domfrontier [] (erase_dom x)).

Lemma ComputeRegions_spec host_order g :
  (forall l, host_order l ≡ₚ l) -> mg_wf g -> mg_fresh g -> all_reachable g -> n_nodes g <= 255 ->
  exists regions g', ComputeRegions host_order g = LRet (regions, g') /\ partition_of g regions /\
    same_upto erase_all g' g /\ forall r e, r ∈ regions -> head r = Some e -> reg_entry g' e = true.
Proof.
  intros Hord W F Hr Hn. unfold ComputeRegions.
  destruct (ComputeDomTree_spec g W F Hr Hn) as (g1 & num & -> & E1 & K1 & Km1 & Hnum & Fix & Dom). cbn [mbind lres_bind].
  assert (W1 : mg_wf g1) by (by eapply same_wf; [| | |symmetry; exact E1|]).
  assert (Hs1 : forall n, is_Some (node g1 n) <-> is_Some (node g n)) by (intros n; by apply same_is_Some with (1 := E1)).
  assert (Hp1 : forall n, preds g1 n = preds g n) by (intros n; by apply (same_view n_preds [] erase_dom)).
  assert (Fix1 : dom_fixed (@None Z) (fun n => is_Some (node g1 n)) (preds g1) num (idom g1)).
  { eapply dom_fixed_ext; [| |exact Fix]; intros n; [by rewrite Hs1|by rewrite Hp1]. }
  destruct (ComputeDomFrontier_spec g1 num W1) as (g2 & -> & E2 & Km2 & O2 & D2); [|done| |].
  { intros n Hs. rewrite (n_nodes_same _ _ _ E1). by apply Hnum, Hs1. }
  { intros n. rewrite <- (fresh_df _ F n). by apply (same_view n_domfrontier [] erase_dom). }
  cbn [mbind lres_bind].
  assert (W2 : mg_wf g2) by (by eapply same_wf; [| | |symmetry; exact E2|]).
  assert (Hs2 : forall n, is_Some (node g2 n) <-> is_Some (node g1 n)) by (intros n; by apply same_is_Some with (1 := E2)).
  destruct (ComputeRegionIDF_spec host_order Hord g2 W2) as (g3 & -> & E3 & Km3 & R3).
  { intros r. destruct (O2 r) as [? Hin]. split; [done|]. intros b Hb. rewrite Hs2. by apply Hin. }
  { intros n. rewrite <- (fresh_entry _ F n). unfold reg_entry.
    rewrite (same_view (fun x => region_entry (n_flags x)) false (set_domfrontier []) g2 g1) by done.
    by apply (same_view (fun x => region_entry (n_flags x)) false erase_dom). }
  cbn [mbind lres_bind].
  assert (E03 : same_upto erase_all g3 g).
  { transitivity g2; [by eapply same_coarser; [|exact E3]|]. transitivity g1; [by eapply same_coarser; [|exact E2]|].
    by eapply same_coarser; [|exact E1]. }
  assert (W3 : mg_wf g3) by (by eapply same_wf; [| | |symmetry; exact E03|]).
  assert (Hs3 : forall n, is_Some (node g3 n) <-> is_Some (node g n)) by (intros n; by apply same_is_Some with (1 := E03)).
  assert (Hp3 : forall n, preds g3 n = preds g n) by (intros n; by apply (same_view n_preds [] erase_all)).
  assert (Hu3 : forall n, succs g3 n = succs g n) by (intros n; by apply (same_view n_succs [] erase_all)).
  assert (Hd3 : forall n, idom g1 n = idom g3 n).
  { intros n. unfold idom. rewrite (same_view n_dominator None no_entry g3 g2) by done.
    by rewrite (same_view n_dominator None (set_domfrontier []) g2 g1). }
  assert (Hdf2 : df_ok g2 g2) by (intros r; destruct (O2 r) as [? Hin]; split; [done|]; intros b Hb; rewrite Hs2; by apply Hin).
  assert (Hi3 : ip_list g3 ≡ₚ ip_list g).
  { apply NoDup_Permutation; [apply ip_list_NoDup..|]. intros ip. by rewrite !ip_list_spec. }
  destruct (ComputeRegionDomSets_spec g3 num W3) as (regions & g4 & Eq & Sh4 & Hj & HR & He).
  - intros n Hs%Hs3%Hr. eapply rtc_subrel; [|exact Hs]. intros a b. unfold edge. by rewrite Hu3.
  - eapply dom_fixed_dext; [exact Hd3|]. eapply dom_fixed_ext; [| |exact Fix]; intros n; [by rewrite Hs3|by rewrite Hp3].
  - intros a b Hb%Hs3. rewrite <- (anc_dext _ _ _ Hd3), (Dom a b Hb). apply dominates_ext. intros n. by rewrite Hp3.
  - intros n Hne Hf. apply R3, idf_base; [done|]. by rewrite <- (entry_eq_flag _ _ n E3).
  - apply not_true_iff_false. intros H0%R3. by apply (idf_node g2 Hdf2) in H0 as [_ ?].
  - intros b p r e Hb%Hs3%Hs1 Hne Hlen Hi Hp Hrp Her Hre Hrr%R3. apply R3. eapply idf_step; [exact Hrr|].
    rewrite Hp3 in Hlen, Hp. rewrite <- Hd3 in Hi.
    apply (D2 b Hb Hne e p); [by rewrite Hp1|done|by rewrite Hp1|by apply (anc_dext _ _ _ Hd3)|by apply (anc_dext _ _ _ Hd3)|done].
  - destruct K1 as [_ K1]. split; rewrite Km3, Km2, Km1; cbn [k_mmax]; [unfold n_nodes; lia|].
    intros n x Hx. assert (Hm : mark g3 n = mark g1 n).
    { unfold mark. rewrite (same_view n_mark 0 no_entry g3 g2) by done. by apply (same_view n_mark 0 (set_domfrontier [])). }
    rewrite (mark_of _ _ _ Hx) in Hm. destruct (proj2 (Hs1 n)) as [y Hy]; [apply Hs3; by rewrite Hx|].
    rewrite (mark_of _ _ _ Hy) in Hm. specialize (K1 n y Hy). rewrite Km1 in K1. cbn [k_mmax] in K1. lia.
  - rewrite Km3, Km2, Km1. cbn [k_mmax]. rewrite (Permutation_length Hi3). unfold n_nodes in *. lia.
  - exists regions, g4. split; [done|]. split; [split; [by rewrite Hj, Hi3|split]|split].
    + intros r Hin. destruct (HR r Hin) as (e & Hhd & _ & Hse). exists e. split; [done|].
      intros a b Hab. apply Hse. by rewrite Hu3.
    + intros n Hne Hf. apply He, R3, idf_base; [done|]. rewrite <- (entry_eq_flag _ _ n E3), <- Hf.
      by apply (same_view (fun x => is_brind_target (n_flags x) || is_segment_entry (n_flags x)) false erase_all).
    + transitivity g3; [by eapply same_coarser; [|exact Sh4]|done].
    + intros r e Hin Hhd. destruct (HR r Hin) as (e' & Hhd' & He' & _). rewrite Sh4. congruence.
Qed.

(** C17 On every graph built by the recording operations whose nodes the root
    reaches, [ComputeDomTree] ends and its chains of dominators are exactly
    the dominators: [a] is on the chain of [b] when every path from the root
    to [b] goes through [a]. *)
Theorem ComputeDomTree_dominators ops seg g :
  apply_ops ops (MG_new seg) = POk g -> all_reachable g -> n_nodes g <= 255 ->
  exists g', ComputeDomTree g = LRet g' /\
    forall a b, is_Some (node g b) -> anc None (idom g') a b <-> dominates None (preds g) a b.
Proof.
  intros Hops Hr Hn. destruct (MG_new_inv seg) as [W0 F0]. destruct (apply_ops_inv _ _ _ Hops W0 F0) as [W F].
  destruct (ComputeDomTree_spec g W F Hr Hn) as (g' & num & -> & _ & _ & _ & _ & _ & Dom). eauto.
Qed.

(** C15 [ComputeRegions] ends on such graphs and partitions them: every node
    of the module is in exactly one region, every recorded entry starts a
    region, and control enters a region from outside only at its first
    node, whatever the order of node sets in host memory. *)
Theorem ComputeRegions_partition host_order ops seg g :
  (forall l, host_order l ≡ₚ l) ->
  apply_ops ops (MG_new seg) = POk g -> all_reachable g -> n_nodes g <= 255 ->
  exists regions g', ComputeRegions host_order g = LRet (regions, g') /\ partition_of g regions.
Proof.
  intros Hord Hops Hr Hn. destruct (MG_new_inv seg) as [W0 F0]. destruct (apply_ops_inv _ _ _ Hops W0 F0) as [W F].
  destruct (ComputeRegions_spec host_order g Hord W F Hr Hn) as (regions & g' & Eq & HP & _). eauto.
Qed.

(** C40 With 256 nodes or more the marker that numbers them is created with a
    truncated number of states, and with unreachable nodes the numbering is
    incomplete: in both cases [ComputeDomTree] aborts. *)
Theorem ComputeDomTree_aborts ops seg g :
  apply_ops ops (MG_new seg) = POk g -> n_nodes g < 32768 ->
  256 <= n_nodes g \/ (exists n, is_Some (node g n) /\ ~ rtc (edge g) None n) ->
  ComputeDomTree g = LPanic.
Proof.
  intros Hops Hn Hbad. destruct (MG_new_inv seg) as [W0 F0]. destruct (apply_ops_inv _ _ _ Hops W0 F0) as [W F].
  by apply ComputeDomTree_panic.
Qed.

(** ** Witnesses: a loop with two entries *)
Definition demo_ops : list mg_op :=
  [OEntry 0x1000; OEntry 0x1010; OEntry 0x1020; OEntry 0x1030; OEntry 0x1040;
   OSegmentEntry 0x1000; OBrindTarget 0x1020; OGBr 0x1000 0x1010; OGBr 0x1000 0x1020;
   OGBr 0x1010 0x1030; OGBr 0x1020 0x1030; OGBr 0x1030 0x1040; OGBr 0x1040 0x1030; OGBr 0x1030 0x5000].
Definition demo_seg : CodeSegment := mkSegment 0x1000 0x1000.

Fixpoint reachable_in (g : ModuleGraph) (fuel : nat) (l : list nid) : list nid :=
  match fuel with O => l | S fuel => reachable_in g fuel (remove_dups (l ++ (l ≫= succs g))) end.

Lemma reachable_in_sound g fuel : forall l n,
  (forall m, m ∈ l -> rtc (edge g) None m) -> n ∈ reachable_in g fuel l -> rtc (edge g) None n.
Proof.
  induction fuel as [|fuel IH]; cbn; intros l n Hl Hn; [auto|]. eapply IH; [|exact Hn].
  intros m Hm. apply elem_of_remove_dups, elem_of_app in Hm as [?|(a & Ha & Hin)%list_elem_of_bind]; [auto|].
  eapply rtc_r; [by apply Hl|done].
Qed.

Lemma all_reachable_check g fuel :
  is_Some (node g None) -> forallb (fun n => bool_decide (n ∈ reachable_in g fuel [None])) (all_nodes g) = true -> all_reachable g.
Proof.
  intros Hr H n Hn. rewrite forallb_forall in H. specialize (H n). rewrite <- list_elem_of_In in H.
  specialize (H (proj2 (all_nodes_spec g n Hr) Hn)). apply bool_decide_eq_true in H.
  eapply reachable_in_sound; [|exact H]. intros m ->%list_elem_of_singleton. constructor.
Qed.

Definition demo_ok (n : Z) (r : pres ModuleGraph) : bool :=
  match r with
  | POk g => (n_nodes g =? n) && bool_decide (is_Some (node g None)) &&
             forallb (fun n => bool_decide (n ∈ reachable_in g 5 [None])) (all_nodes g)
  | PPanic => false
  end.

Lemma demo_ok_inv n r : demo_ok n r = true -> exists g, r = POk g /\ n_nodes g = n /\ all_reachable g.
Proof.
  destruct r as [g|]; [|done]. unfold demo_ok. intros [[Hn%Z.eqb_eq Hr%bool_decide_eq_true]%andb_true_iff H]%andb_true_iff.
  exists g. split; [done|]. split; [done|]. by eapply all_reachable_check.
Qed.

Lemma demo_ops_ok : demo_ok 6 (apply_ops demo_ops (MG_new demo_seg)) = true.
Proof. vm_compute. reflexivity. Qed.

Lemma ComputeDomTree_dominators_witness :
  exists g g', apply_ops demo_ops (MG_new demo_seg) = POk g /\ ComputeDomTree g = LRet g'.
Proof.
  destruct (demo_ok_inv 6 _ demo_ops_ok) as (g & Hg & Hn & Hr).
  destruct (ComputeDomTree_dominators demo_ops demo_seg g Hg Hr) as (g' & Eq & _); [lia|]. exists g, g'. exact (conj Hg Eq).
Defined.

Lemma ComputeRegions_partition_witness :
  exists g regions g', apply_ops demo_ops (MG_new demo_seg) = POk g /\
    ComputeRegions reverse g = LRet (regions, g') /\ partition_of g regions.
Proof.
  destruct (demo_ok_inv 6 _ demo_ops_ok) as (g & Hg & Hn & Hr).
  destruct (ComputeRegions_partition reverse demo_ops demo_seg g) as (regions & g' & Eq & P); [apply reverse_Permutation|exact Hg|exact Hr|lia|].
  exists g, regions, g'. exact (conj Hg (conj Eq P)).
Defined.

(** 255 entries of one page. *)
Definition many_ops : list mg_op :=
  concat (map (fun i => [OEntry (0x1000 + 4 * i); OSegmentEntry (0x1000 + 4 * i)]) (seqZ 0 255)).

Lemma many_ops_ok : (match apply_ops many_ops (MG_new demo_seg) with POk g => n_nodes g | PPanic => 0 end) = 256.
Proof. vm_compute. reflexivity. Qed.

Lemma ComputeDomTree_aborts_witness :
  exists g, apply_ops many_ops (MG_new demo_seg) = POk g /\ ComputeDomTree g = LPanic.
Proof.
  pose proof many_ops_ok as Hn. destruct (apply_ops many_ops (MG_new demo_seg)) as [g|] eqn:Hg; [|discriminate Hn].
  exists g. split; [reflexivity|].
  apply (ComputeDomTree_aborts many_ops demo_seg g Hg); [lia|left; lia].
Defined.
