(* ===== verification/Analyser.v ===== *)
(** * The code analyser (src/dbt/guest/rv32_analyser.h, rv32_analyser.cpp)

    A pass over the instructions of one block that records its branches in
    the module graph and where the block ends.  An access to unmapped code
    and an unimplemented instruction abort. *)

From stdpp Require Import base tactics numbers list gmap relations.
From S2P Require Import Prelude Common Bitfield RV32Insn RV32Decode GuestState Execute Interp ModuleGraph ModuleGraphInv.

Import insn.

Module RV32Analyser.

Inductive Control := NEXT | BRANCH | TB_OVF.

Record state := mkA { control : Control; insn_ip : Z; bb_ip : Z; mg : ModuleGraph }.

Definition set_mg (g : ModuleGraph) (t : state) : state := mkA (control t) (insn_ip t) (bb_ip t) g.

Definition record (f : ModuleGraph -> pres ModuleGraph) (t : state) : pres state :=
  g ← f (mg t); POk (set_mg g t).

Definition AnalyseBrcc (i : Z) (t : state) : pres state :=
  t ← record (RecordGBr (bb_ip t) (u32 (insn_ip t + 4))) t;
  record (RecordGBr (bb_ip t) (u32 (insn_ip t + B_imm i))) t.

Definition link_if_rd (i : Z) (t : state) : pres state :=
  if rd i =? 0 then POk t else record (RecordLink (bb_ip t) (u32 (insn_ip t + 4))) t.

(** [V_##name]. *)
Definition V (op : Op) (i : Z) (t : state) : pres state :=
  match op with
  | _ill => PPanic
  | _jal => t ← record (RecordGBr (bb_ip t) (u32 (insn_ip t + J_imm i))) t; link_if_rd i t
  | _jalr => t ← record (RecordGBrind (bb_ip t)) t; link_if_rd i t
  | _beq | _bne | _blt | _bge | _bltu | _bgeu => AnalyseBrcc i t
  | _ => POk t
  end.

(** [H_##name]. *)
Definition H (op : Op) (i : Z) (t : state) : pres state :=
  t ← V op i t;
  POk (mkA (if has_flag op Flags.Branch || has_flag op Flags.Trap then BRANCH else control t)
           (u32 (insn_ip t + 4)) (bb_ip t) (mg t)).

Section code.
Context (code : mem).

Definition AnalyseInsn (t : state) : pres state :=
  raw ← pderef (load_le 4 code (insn_ip t)); H (Decoder.Decode raw) raw t.

(** The loop of [Analyse] after [num_insns] instructions. *)
Fixpoint analyse_loop (fuel : nat) (num_insns boundary_ip : Z) (t : state) : lres state :=
  match fuel with
  | O => LFuel
  | S fuel =>
      t ← lift (AnalyseInsn t);
      let num_insns := u32 (num_insns + 1) in
      match control t with
      | NEXT =>
          if (num_insns =? TB_MAX_INSNS) || (boundary_ip <=? insn_ip t)
          then lift (record (RecordGBr (bb_ip t) (insn_ip t)) (mkA TB_OVF (insn_ip t) (bb_ip t) (mg t)))
          else analyse_loop fuel num_insns boundary_ip t
      | _ => LRet t
      end
  end.

(** At most [TB_MAX_INSNS] instructions. *)
Definition Analyse (g : ModuleGraph) (ip boundary_ip : Z) : lres ModuleGraph :=
  t ← analyse_loop (Z.to_nat TB_MAX_INSNS) 0 boundary_ip (mkA NEXT ip ip g);
  n ← lift (pderef (GetNode (bb_ip t) (mg t)));
  lift (upd_node (set_ip_end (insn_ip t)) n (mg t)).
End code.
End RV32Analyser.

Import RV32Analyser.

(** ** The recorded edges *)

(** Where an instruction at [a] may continue without a trap: the next
    instruction, direct targets; [None] is an indirect target. *)
Definition insn_targets (op : Op) (raw a : Z) : option (list Z) :=
  match op with
  | _jal => Some [u32 (a + J_imm raw)]
  | _jalr => None
  | _ill | _ecall | _ebreak => Some []
  | _beq | _bne | _blt | _bge | _bltu | _bgeu => Some [u32 (a + 4); u32 (a + B_imm raw)]
  | _ => Some [u32 (a + 4)]
  end.

(** ** The program counter after a handler *)
Definition keeps_gip {A} (c : Hm A) : Prop := forall σ a σ', c σ = Ret a σ' -> h_gip σ' = h_gip σ.

Create HintDb gip.

Lemma stays_bind {A B} (c : Hm A) (k : A -> Hm B) : keeps_gip c -> (forall a, keeps_gip (k a)) -> keeps_gip (c ≫= k).
Proof.
  intros Hc Hk σ b σ'. unfold mbind, Hm_bind. destruct (c σ) as [a σ1| | |] eqn:E; try done.
  intros H. rewrite (Hk a σ1 b σ' H). by eapply Hc.
Qed.
Lemma stays_ret {A} (a : A) : keeps_gip (mret a). Proof. by intros σ b σ' [= -> <-]. Qed.
Lemma stays_GPR r : keeps_gip (GPR r). Proof. by intros σ b σ' [= <- <-]. Qed.
Lemma stays_GIP : keeps_gip GET_GIP. Proof. by intros σ b σ' [= <- <-]. Qed.
Lemma stays_SET_GPR r v : keeps_gip (SET_GPR r v). Proof. by intros σ b σ' [= <- <-]. Qed.
Lemma stays_STATE_IP : keeps_gip STATE_IP_GIP. Proof. by intros σ b σ' [= <- <-]. Qed.
Lemma stays_load T a : keeps_gip (load_mem T a).
Proof. intros σ b σ'. unfold load_mem. destruct (unaligned_load _ _ _); by intros [= <- <-]. Qed.
Lemma stays_store T a v : keeps_gip (store_mem T a v).
Proof. intros σ b σ'. unfold store_mem. destruct (unaligned_store _ _ _ _); by intros [= <- <-]. Qed.
Lemma stays_raise t : keeps_gip (RAISE_TRAP t). Proof. by intros σ b σ'. Qed.
Lemma stays_RaiseTrap {A} : keeps_gip (A := A) RaiseTrap. Proof. by intros σ b σ'. Qed.
Lemma stays_atomic_load mo a : keeps_gip (atomic_load mo a).
Proof. destruct mo; cbn; (apply stays_load || by intros σ b σ'). Qed.
Lemma stays_atomic_store mo a v : keeps_gip (atomic_store mo a v).
Proof. destruct mo; cbn; (apply stays_store || by intros σ b σ'). Qed.
Lemma stays_undefined {A} : keeps_gip (A := A) h_undefined. Proof. by intros σ b σ'. Qed.
Lemma stays_if {A} (b : bool) (c1 c2 : Hm A) : keeps_gip c1 -> keeps_gip c2 -> keeps_gip (if b then c1 else c2).
Proof. by destruct b. Qed.
#[export] Hint Resolve stays_bind stays_ret stays_GPR stays_GIP stays_SET_GPR stays_STATE_IP stays_load stays_store
  stays_raise stays_RaiseTrap stays_atomic_load stays_atomic_store stays_undefined stays_if : gip.

Lemma stays_amomax weaks a : forall cur rhs, keeps_gip (amomax_loop weaks a cur rhs).
Proof.
  induction weaks as [|w weaks IH]; intros cur rhs; cbn [amomax_loop]; unfold compare_exchange_weak;
    apply stays_bind; auto 10 with gip; intros [ok cur']; auto with gip.
Qed.
#[export] Hint Resolve stays_amomax : gip.

Lemma stays_A h i : (forall mo, keeps_gip (h mo)) -> keeps_gip (ApplyInsnA h i).
Proof. intros Hh. unfold ApplyInsnA, switch. cbn. auto 10 with gip. Qed.
#[export] Hint Resolve stays_A : gip.

Lemma stays_Impl weaks op i : has_flag op Flags.Branch = false -> keeps_gip (Impl weaks op i).
Proof.
  destruct op; intros Hb; try discriminate Hb; cbn [Impl];
    unfold HANDLER_Load, HANDLER_Store, HANDLER_ArithmRR, HANDLER_ArithmRI, HANDLER_Unimpl, Impl_lui, Impl_auipc, Impl_slli,
      Impl_srai, Impl_srli, Impl_sll, Impl_sra, Impl_srl, Impl_ecall, Impl_ebreak, Impl_lrw, Impl_scw, Impl_amoswapw,
      Impl_amoaddw, Impl_amomaxuw, atomic_exchange, atomic_fetch_add, atomic_ref;
    try apply stays_A; intros; auto 12 with gip.
Qed.

Lemma bind_Ret {A B} (c : Hm A) (k : A -> Hm B) σ b σ' :
  (c ≫= k) σ = Ret b σ' -> exists a σ1, c σ = Ret a σ1 /\ k a σ1 = Ret b σ'.
Proof. unfold mbind, Hm_bind. destruct (c σ) as [a σ1| | |]; try done. eauto. Qed.

Lemma BCC_next T cond i σ a σ' :
  HANDLER_BCC T cond i σ = Ret a σ' -> h_gip σ' ∈ [u32 (h_gip σ + 4); u32 (h_gip σ + B_imm i)].
Proof.
  unfold HANDLER_BCC. intros (x & σ1 & [= _ <-] & (y & σ2 & [= _ <-] & H)%bind_Ret)%bind_Ret.
  destruct (negb (cond _ _)).
  - apply bind_Ret in H as (z & σ3 & [= <- <-] & [= _ <-]). cbn. set_solver.
  - apply bind_Ret in H as (u & σ3 & H1 & H). destruct (negb _); [done|]. injection H1 as _ <-.
    apply bind_Ret in H as (z & σ4 & [= <- <-] & [= _ <-]). cbn. set_solver.
Qed.

Lemma jal_next i σ a σ' : Impl_jal i σ = Ret a σ' -> h_gip σ' = u32 (h_gip σ + J_imm i).
Proof.
  unfold Impl_jal. intros (u & σ3 & H1 & H)%bind_Ret. destruct (negb _); [done|]. injection H1 as _ <-.
  apply bind_Ret in H as (z & σ4 & [= <- <-] & H). apply bind_Ret in H as (w & σ5 & [= _ <-] & [= _ <-]). done.
Qed.

(** Without a trap, an instruction goes to one of its targets. *)
Lemma Handler_next weaks op i σ a σ' l :
  Handler weaks op i σ = Ret a σ' -> insn_targets op i (h_gip σ) = Some l -> h_gip σ' ∈ l.
Proof.
  unfold Handler. intros (u & σ1 & H1 & H)%bind_Ret.
  assert (E1 : h_gip σ1 = h_gip σ).
  { revert H1. destruct (_ || _); [apply stays_STATE_IP|apply stays_ret]. }
  apply bind_Ret in H as (u2 & σ2 & H2 & H). apply bind_Ret in H as (u3 & σ3 & H3 & H).
  assert (E3 : h_gip σ3 = h_gip σ2).
  { revert H3. destruct (has_flag op Flags.HasRd); [apply stays_SET_GPR|apply stays_ret]. }
  destruct (has_flag op Flags.Branch) eqn:Eb.
  - assert (h_gip σ' = h_gip σ2) as -> by (rewrite <- E3; by eapply stays_STATE_IP). rewrite <- E1.
    destruct op; try discriminate Eb; intros [= <-]; [apply list_elem_of_singleton; by eapply jal_next|by eapply BCC_next..].
  - apply bind_Ret in H as (g & σ4 & [= <- <-] & [= _ <-]). cbn. rewrite E3, (stays_Impl weaks op i Eb _ _ _ H2), E1.
    destruct op; try discriminate Eb; intros [= <-]; try (by apply list_elem_of_singleton); discriminate H2.
Qed.

Definition brind_flag (g : ModuleGraph) (n : nid) : bool :=
  from_option (fun x => is_brind_source (n_flags x)) false (node g n).

(** [g'] records the target [t] of block [b]. *)
Definition recorded (g : ModuleGraph) (b t : Z) : Prop :=
  GetNode t g = None \/ Some t ∈ succs g (Some b).

Definition ip_end (g : ModuleGraph) (b : Z) : Z := from_option n_ip_end 0 (node g (Some b)).
Definition node_ip (g : ModuleGraph) (n : nid) : Z := from_option n_ip 0 (node g n).

(** What recording keeps; [K] are the blocks whose end is not set. *)
Section grown.
Context (K : Z -> Prop).

Record grown (g g' : ModuleGraph) : Prop := {
  gr_ip n : node_ip g' n = node_ip g n;
  gr_end c : K c -> ip_end g' c = ip_end g c;
  gr_seg : mg_segment g' = mg_segment g;
  gr_node n : is_Some (node g' n) <-> is_Some (node g n);
  gr_succs a b : b ∈ succs g a -> b ∈ succs g' a;
  gr_brind n : brind_flag g n = true -> brind_flag g' n = true;
  gr_inv : mg_wf g -> mg_fresh g -> mg_wf g' /\ mg_fresh g' }.

Lemma grown_refl g : grown g g. Proof. by constructor. Qed.
Lemma grown_trans g1 g2 g3 : grown g1 g2 -> grown g2 g3 -> grown g1 g3.
Proof.
  intros [P1 E1 S1 N1 U1 B1 I1] [P2 E2 S2 N2 U2 B2 I2].
  constructor; [intros n; by rewrite P2|intros c Hc; by rewrite E2, E1|by rewrite S2|intros n; by rewrite N2|by auto|by auto|].
  intros W F. destruct (I1 W F). auto.
Qed.

Lemma grown_GetNode g g' t : grown g g' -> GetNode t g' = GetNode t g.
Proof.
  intros [_ _ HS HN _ _ _]. unfold GetNode, InModule. rewrite HS. destruct (InSegment _ t); cbn; [|done].
  specialize (HN (Some t)). destruct (node g' (Some t)), (node g (Some t)); try done.
  - destruct HN as [HN _]. by destruct (HN ltac:(eauto)).
  - destruct HN as [_ HN]. by destruct (HN ltac:(eauto)).
Qed.

Lemma grown_recorded g g' b t : grown g g' -> recorded g b t -> recorded g' b t.
Proof. intros G [Hn|Hs]; [left; by rewrite (grown_GetNode _ _ _ G)|right; by apply G]. Qed.

(** An update of one node that keeps its edges and adds flags. *)
Lemma upd_grown f n g g' :
  upd_node f n g = POk g' ->
  (forall c x, K c -> n = Some c -> n_ip_end (f x) = n_ip_end x) -> (forall x, n_ip (f x) = n_ip x) ->
  (forall x, n_succs (f x) = n_succs x) -> (forall x, n_preds (f x) = n_preds x) ->
  (forall x, n_dominator (f x) = n_dominator x) -> (forall x, n_domfrontier (f x) = n_domfrontier x) ->
  (forall x, n_mark (f x) = n_mark x) -> (forall x, region_entry (n_flags (f x)) = region_entry (n_flags x)) ->
  (forall x, is_brind_target (n_flags (f x)) = is_brind_target (n_flags x)) ->
  (forall x, is_segment_entry (n_flags (f x)) = is_segment_entry (n_flags x)) ->
  (forall x, is_brind_source (n_flags x) = true -> is_brind_source (n_flags (f x)) = true) ->
  grown g g'.
Proof.
  intros H Hend Hip Hs Hp Hd Hdf Hm He Hb Hse Hbr. constructor.
  - intros m. unfold node_ip. by rewrite (upd_node_keep n_ip 0 _ _ _ _ H Hip).
  - intros c Hc. unfold ip_end. destruct (upd_node_at _ _ _ _ H) as [[x Hx] ->].
    destruct (decide (Some c = n)) as [<-|]; [rewrite Hx; cbn; by apply (Hend c)|done].
  - by apply upd_node_inv in H as (x & _ & ->).
  - intros m. by apply upd_node_is_Some with (1 := H).
  - intros a b. unfold succs. by rewrite (upd_node_keep n_succs [] _ _ _ _ H Hs).
  - intros m. unfold brind_flag. destruct (upd_node_at _ _ _ _ H) as [[x Hx] ->].
    destruct (decide (m = n)) as [->|]; [|done]. rewrite Hx. cbn. apply Hbr.
  - intros W F. split; [eapply upd_node_wf; try done; intros x; by rewrite Hb, Hse|by eapply upd_node_fresh].
Qed.

Lemma AddSucc_grown n s g g' :
  AddSucc n s g = POk g' -> n <> None -> s <> None -> grown g g' /\ s ∈ succs g' n.
Proof.
  intros H Hn Hs. destruct (AddSucc_inv _ _ _ _ H) as (Es & Ep & En & Ef & Hsn & HF). split; [constructor|].
  - intros m. unfold AddSucc in H. apply pbind_ok in H as (g1 & H1 & H2). unfold node_ip.
    rewrite (upd_node_keep _ 0 _ _ _ _ H2) by done. by rewrite (upd_node_keep _ 0 _ _ _ _ H1).
  - intros c _. unfold AddSucc in H. apply pbind_ok in H as (g1 & H1 & H2). unfold ip_end.
    rewrite (upd_node_keep _ 0 _ _ _ _ H2) by done. by rewrite (upd_node_keep _ 0 _ _ _ _ H1).
  - unfold AddSucc in H. apply pbind_ok in H as (g1 & (? & _ & ->)%upd_node_inv & (? & _ & ->)%upd_node_inv). done.
  - done.
  - intros a b Hb. rewrite Es. destruct (decide (a = n)) as [->|]; [apply elem_of_app; by left|done].
  - intros m. unfold AddSucc in H. apply pbind_ok in H as (g1 & H1 & H2). unfold brind_flag.
    rewrite (upd_node_keep _ false _ _ _ _ H2) by done. by rewrite (upd_node_keep _ false _ _ _ _ H1).
  - intros W F. split; [|auto]. eapply AddSucc_wf; [done|done| |done]. done.
  - rewrite Es, decide_True by done. apply elem_of_app. right. by apply list_elem_of_singleton.
Qed.

Lemma RecordGBr_grown b t g g' : RecordGBr b t g = POk g' -> grown g g' /\ recorded g' b t.
Proof.
  unfold RecordGBr. intros (n & [-> Hs]%pderef_inv%GetNode_inv & H)%pbind_ok.
  destruct (GetNode t g) as [tn|] eqn:Et.
  - destruct (GetNode_inv _ _ _ Et) as [-> _]. destruct (AddSucc_grown _ _ _ _ H) as [G Hin]; [done..|]. split; [done|]. by right.
  - assert (G : grown g g') by (by eapply upd_grown). split; [done|]. left. by rewrite (grown_GetNode _ _ _ G).
Qed.

Lemma RecordLink_grown b l g g' : RecordLink b l g = POk g' -> grown g g'.
Proof. unfold RecordLink. intros (n & _ & H)%pbind_ok. by eapply upd_grown. Qed.

Lemma RecordGBrind_grown b g g' : RecordGBrind b g = POk g' -> grown g g' /\ brind_flag g' (Some b) = true.
Proof.
  unfold RecordGBrind. intros (n & [-> Hs]%pderef_inv%GetNode_inv & H)%pbind_ok. split; [by eapply upd_grown|].
  unfold brind_flag. destruct (upd_node_at _ _ _ _ H) as [[x Hx] ->]. rewrite decide_True by done. by rewrite Hx.
Qed.

(** ** The analysed block *)
Definition insn_at (b : Z) (i : nat) : Z := u32 (b + 4 * Z.of_nat i).

Definition exits_recorded (g : ModuleGraph) (b : Z) (op : Op) (raw a : Z) : Prop :=
  match insn_targets op raw a with
  | Some l => forall t, t ∈ l -> recorded g b t
  | None => brind_flag g (Some b) = true
  end.

(** [n] instructions from [a]: all but the last fall through, the exits of
    the last are recorded for block [b]. *)
Record insns_recorded (code : mem) (g : ModuleGraph) (b a : Z) (n : nat) : Prop := {
  ir_pos : (0 < n)%nat;
  ir_insn i : (i < n)%nat -> exists raw, load_le 4 code (insn_at a i) = Some raw /\
    (if decide (S i = n) then exits_recorded g b (Decoder.Decode raw) raw (insn_at a i)
     else insn_targets (Decoder.Decode raw) raw (insn_at a i) = Some [insn_at a (S i)]) }.

Lemma insn_at_S a i : insn_at (u32 (a + 4)) i = insn_at a (S i).
Proof. unfold insn_at. rewrite uN_add_l. f_equal. lia. Qed.
Lemma insn_at_0 a : in_u 32 a -> insn_at a 0 = a.
Proof. intros Ha. unfold insn_at. rewrite Z.mul_0_r, Z.add_0_r. by apply uN_id. Qed.

Lemma record_inv f t t' : record f t = POk t' -> exists g', f (mg t) = POk g' /\ t' = set_mg g' t.
Proof. unfold record. intros (g' & H & [= <-])%pbind_ok. eauto. Qed.

Lemma link_if_rd_inv i t t' : link_if_rd i t = POk t' -> exists g', grown (mg t) g' /\ t' = set_mg g' t.
Proof.
  unfold link_if_rd. destruct (rd i =? 0).
  - intros [= <-]. exists (mg t). split; [apply grown_refl|by destruct t].
  - intros (g' & H & ->)%record_inv. exists g'. split; [by eapply RecordLink_grown|done].
Qed.

(** What one instruction records. *)
Lemma V_spec op i t t' :
  V op i t = POk t' ->
  exists g', t' = set_mg g' t /\ grown (mg t) g' /\
    if has_flag op Flags.Branch || has_flag op Flags.Trap
    then exits_recorded g' (bb_ip t) op i (insn_ip t)
    else insn_targets op i (insn_ip t) = Some [u32 (insn_ip t + 4)].
Proof.
  intros H.
  assert (Hid : V op i t = POk t -> exists g', t' = set_mg g' t /\ grown (mg t) g' /\ g' = mg t).
  { intros H'. rewrite H in H'. injection H' as ->. exists (mg t). split; [by destruct t|]. split; [apply grown_refl|done]. }
  assert (Hbr : AnalyseBrcc i t = POk t' ->
    exists g', t' = set_mg g' t /\ grown (mg t) g' /\ forall x, x ∈ [u32 (insn_ip t + 4); u32 (insn_ip t + B_imm i)] -> recorded g' (bb_ip t) x).
  { unfold AnalyseBrcc. intros (t1 & (g1 & [G1 R1]%RecordGBr_grown & ->)%record_inv & (g2 & [G2 R2]%RecordGBr_grown & ->)%record_inv)%pbind_ok.
    cbn in *. exists g2. split; [done|]. split; [by eapply grown_trans|].
    intros x [->|[->|?%not_elem_of_nil]%elem_of_cons]%elem_of_cons; [by eapply grown_recorded|done|done]. }
  destruct op; cbn [V] in H; try discriminate H;
    try (destruct (Hid eq_refl) as (g' & Ht & Hg & _); exists g'; split; [exact Ht|]; split; [exact Hg|];
         first [reflexivity|intros x ?%not_elem_of_nil; done]);
    try (exact (Hbr H)).
  - apply pbind_ok in H as (t1 & (g1 & [G1 R1]%RecordGBr_grown & ->)%record_inv & (g2 & G2 & ->)%link_if_rd_inv). cbn in *.
    exists g2. split; [done|]. split; [by eapply grown_trans|]. intros x ->%list_elem_of_singleton. by eapply grown_recorded.
  - apply pbind_ok in H as (t1 & (g1 & [G1 R1]%RecordGBrind_grown & ->)%record_inv & (g2 & G2 & ->)%link_if_rd_inv). cbn in *.
    exists g2. split; [done|]. split; [by eapply grown_trans|]. cbn. by apply G2.
Qed.

#[local] Opaque Decoder.Decode.

Lemma exits_grown g g' b op raw a : grown g g' -> exits_recorded g b op raw a -> exits_recorded g' b op raw a.
Proof.
  intros G. unfold exits_recorded. destruct (insn_targets op raw a); [|apply G].
  intros H t Ht. by eapply grown_recorded, H.
Qed.

Lemma POk_inj {A} (a b : A) : POk a = POk b -> a = b. Proof. congruence. Qed.

(** One turn: the instruction at [insn_ip]. *)
Lemma AnalyseInsn_spec code t t' :
  AnalyseInsn code t = POk t' -> control t = NEXT ->
  exists raw g', load_le 4 code (insn_ip t) = Some raw /\ mg t' = g' /\ grown (mg t) g' /\ bb_ip t' = bb_ip t /\
    insn_ip t' = u32 (insn_ip t + 4) /\
    ((control t' = NEXT /\ insn_targets (Decoder.Decode raw) raw (insn_ip t) = Some [u32 (insn_ip t + 4)]) \/
     (control t' <> NEXT /\ exits_recorded g' (bb_ip t) (Decoder.Decode raw) raw (insn_ip t))).
Proof.
  unfold AnalyseInsn, H. intros Hin Hc. apply pbind_ok in Hin as (raw & Hr & Hin). apply pderef_inv in Hr.
  apply pbind_ok in Hin as (t1 & HV & Hin). apply V_spec in HV as (g' & -> & G & HV).
  assert (Et : t' = _) by (symmetry; exact (POk_inj _ _ Hin)). clear Hin. subst t'.
  exists raw, g'. cbn [control insn_ip bb_ip mg set_mg]. do 5 (split; [reflexivity || assumption|]).
  rewrite Hc. destruct (_ || _); [right|left]; (split; [discriminate || reflexivity|exact HV]).
Qed.

Lemma analyse_loop_spec code fuel : forall num boundary t t',
  analyse_loop code fuel num boundary t = LRet t' -> control t = NEXT -> in_u 32 (insn_ip t) ->
  exists n, (n <= fuel)%nat /\ grown (mg t) (mg t') /\ bb_ip t' = bb_ip t /\ insn_ip t' = insn_at (insn_ip t) n /\
    insns_recorded code (mg t') (bb_ip t) (insn_ip t) n.
Proof.
  induction fuel as [|fuel IH]; intros num boundary t t' HL Hc Hip; [done|]. cbn [analyse_loop] in HL.
  destruct (AnalyseInsn code t) as [t1|] eqn:E1; [|done]. cbn [lift mbind lres_bind] in HL.
  destruct (AnalyseInsn_spec code t t1 E1 Hc) as (raw & g1 & Hr & <- & G1 & Hb & Hi & Hcase).
  assert (H1 : insn_at (insn_ip t) 1 = u32 (insn_ip t + 4)) by (unfold insn_at; done).
  assert (Hlast : forall g', grown (mg t1) g' -> exits_recorded g' (bb_ip t) (Decoder.Decode raw) raw (insn_ip t) ->
    insns_recorded code g' (bb_ip t) (insn_ip t) 1).
  { intros g' G' He. constructor; [lia|]. intros [|i] Hlt; [|lia]. rewrite insn_at_0 by done. exists raw. split; [done|].
    by rewrite decide_True. }
  destruct (control t1) eqn:Ec; destruct Hcase as [[Hn Ht]|[Hn He]]; try done.
  - destruct (_ || _).
    + destruct (record _ _) as [t2|] eqn:E2; [|done]. injection HL as <-.
      apply record_inv in E2 as (g2 & [G2 R2]%RecordGBr_grown & ->). cbn in *. exists 1%nat.
      split; [lia|]. split; [by eapply grown_trans|]. split; [done|]. split; [by rewrite H1|].
      apply Hlast; [done|]. unfold exits_recorded. rewrite Ht. intros x ->%list_elem_of_singleton. by rewrite <- Hb, <- Hi.
    + destruct (IH _ _ _ _ HL Ec) as (n & Hle & G & Hb' & Hi' & [Hp HI]); [rewrite Hi; apply uN_range; lia|].
      exists (S n). split; [lia|]. split; [by eapply grown_trans|]. split; [by rewrite Hb'|].
      split; [by rewrite Hi', Hi, insn_at_S|]. constructor; [lia|].
      intros [|i] Hlt.
      * rewrite insn_at_0 by done. exists raw. split; [done|]. rewrite decide_False by lia. by rewrite H1.
      * destruct (HI i) as (r & Hr' & Hr''); [lia|]. rewrite Hi, !insn_at_S, Hb in *. exists r. split; [done|].
        destruct (decide (S i = n)); [rewrite decide_True by lia|rewrite decide_False by lia]; done.
  - injection HL as <-. exists 1%nat. split; [lia|]. split; [done|]. split; [done|]. split; [by rewrite H1|].
    apply Hlast; [apply grown_refl|done].
  - injection HL as <-. exists 1%nat. split; [lia|]. split; [done|]. split; [done|]. split; [by rewrite H1|].
    apply Hlast; [apply grown_refl|done].
Qed.

End grown.

Lemma Analyse_spec code g b boundary g' :
  Analyse code g b boundary = LRet g' -> in_u 32 b ->
  grown (fun c => c <> b) g g' /\ GetNode b g' = Some (Some b) /\ exists n, (n <= Z.to_nat TB_MAX_INSNS)%nat /\ ip_end g' b = insn_at b n /\ insns_recorded code g' b b n.
Proof.
  unfold Analyse. intros HA Hb. destruct (analyse_loop _ _ _ _ _) as [t| |] eqn:EL; try done. cbn [mbind lres_bind] in HA.
  destruct (analyse_loop_spec (fun c => c <> b) _ _ _ _ _ _ EL eq_refl Hb) as (n & Hle & G & Hbb & Hi & [Hp HI]). cbn in *.
  destruct (GetNode (bb_ip t) (mg t)) as [nd|] eqn:En; [|done]. cbn in HA. rewrite Hbb in En.
  destruct (GetNode_inv _ _ _ En) as [-> Hs].
  destruct (upd_node (set_ip_end (insn_ip t)) (Some b) (mg t)) as [g2|] eqn:EU; [|done]. injection HA as <-.
  assert (G2 : grown (fun c => c <> b) (mg t) g2) by (eapply upd_grown; [exact EU|congruence|done..]).
  split; [by eapply grown_trans|]. split; [by rewrite (grown_GetNode _ _ _ _ G2)|]. exists n. split; [done|]. split.
  - unfold ip_end. destruct (upd_node_at _ _ _ _ EU) as [[x Hx] ->]. rewrite decide_True by done. by rewrite Hx, <- Hi.
  - constructor; [done|]. intros i Hlt. destruct (HI i Hlt) as (raw & Hr & Hc). exists raw. split; [done|].
    destruct (decide (S i = n)); [by eapply exits_grown|done].
Qed.

(** An interpreter step inside a recorded block. *)
Lemma recorded_step code g b n i weaks σ u σ' :
  insns_recorded code g b b n -> (i < n)%nat -> h_gip σ = insn_at b i ->
  fetch (h_mem σ) (h_gip σ) = load_le 4 code (h_gip σ) -> dispatch weaks σ = Ret u σ' ->
  if decide (S i = n) then recorded g b (h_gip σ') \/ brind_flag g (Some b) = true else h_gip σ' = insn_at b (S i).
Proof.
  intros [_ HI] Hi Hip Hf Hd. destruct (HI i Hi) as (raw & Hr & Hc). unfold dispatch in Hd. rewrite Hf, Hip, Hr in Hd.
  rewrite <- Hip in Hc. destruct (decide (S i = n)).
  - unfold exits_recorded in Hc. destruct (insn_targets _ _ _) as [l|] eqn:Et; [|by right].
    left. apply Hc. by eapply Handler_next.
  - apply list_elem_of_singleton. by eapply Handler_next.
Qed.
