(* ===== verification/Aot.v ===== *)
(** * Ahead-of-time compilation of a page (src/dbt/aot/aot.cpp)

    [BuildModuleGraph] turns the execution profile of a page into a module
    graph, [AOTCompilePage] the regions of the graph into compiler jobs.  The
    composition: control that leaves a region for another one arrives at its
    entry. *)

From stdpp Require Import base tactics numbers list gmap relations.
From S2P Require Import Prelude Common Bitfield RV32Insn RV32Decode GuestState Tcache Execute Interp.
From S2P Require Import ModuleGraph ModuleGraphInv ModuleGraphDfs DomTree ModuleGraphDom ModuleGraphRegions Analyser.

Import RV32Analyser.

(** ** [objprof::PageData] (src/dbt/tcache/objprof.h); bit sets are numbers *)
Definition idx_bits : Z := 2.
Definition po2idx (po : Z) : Z := Z.shiftr po idx_bits.
Definition idx2po (idx : Z) : Z := u32 (Z.shiftl idx idx_bits).
Definition page_bits : Z := 1024.
Record PageData := mkPD { pageno : Z; executed : Z; brind_target : Z; segment_entry : Z }.

Section build.
Context (code : mem).

(** ** [BuildModuleGraph] *)
Definition record_idx (page : PageData) (page_vaddr : Z) (idx : Z) (s : list Z * ModuleGraph) : lres (list Z * ModuleGraph) :=
  let '(iplist, mg) := s in
  if negb (Z.testbit (executed page) idx) then LRet (iplist, mg)
  else
    let ip := u32 (page_vaddr + idx2po idx) in
    mg ← lift (RecordEntry ip mg);
    mg ← lift (if Z.testbit (brind_target page) idx then RecordBrindTarget ip mg else POk mg);
    mg ← lift (if Z.testbit (segment_entry page) idx then RecordSegmentEntry ip mg else POk mg);
    LRet (iplist ++ [ip], mg).

Fixpoint analyse_list (iplist : list Z) (next_page_vaddr : Z) (mg : ModuleGraph) : lres ModuleGraph :=
  match iplist with
  | [] => LRet mg
  | ip :: rest =>
      mg ← Analyse code mg ip (match rest with [] => next_page_vaddr | ip_next :: _ => ip_next end);
      analyse_list rest next_page_vaddr mg
  end.

Definition BuildModuleGraph (page : PageData) : lres ModuleGraph :=
  let page_vaddr := u32 (Z.shiftl (pageno page) PAGE_BITS) in
  let next_page_vaddr := u32 (page_vaddr + PAGE_SIZE) in
  '(iplist, mg) ← lfold (record_idx page page_vaddr) (seqZ 0 page_bits) ([], MG_new (mkSegment page_vaddr PAGE_SIZE));
  analyse_list iplist next_page_vaddr mg.

(** ** [AOTCompilePage]: the ip ranges of the jobs *)
Definition range_of (g : ModuleGraph) (n : nid) : lres IpRange :=
  x ← lift (get_node n g); LRet (n_ip x, n_ip_end x).
Fixpoint ranges_of (g : ModuleGraph) (r : list nid) : lres (list IpRange) :=
  match r with [] => LRet [] | n :: r => x ← range_of g n; xs ← ranges_of g r; LRet (x :: xs) end.
Definition region_job (g : ModuleGraph) (r : list nid) : lres (list IpRange) :=
  match r with
  | [] => LPanic
  | e :: _ =>
      x ← lift (get_node e g);
      _ ← lift (passert (region_entry (n_flags x)));
      ranges_of g r
  end.
Fixpoint region_jobs (g : ModuleGraph) (rs : list (list nid)) : lres (list (list IpRange)) :=
  match rs with [] => LRet [] | r :: rs => j ← region_job g r; js ← region_jobs g rs; LRet (j :: js) end.

Definition AOTCompilePage (host_order : list nid -> list nid) (page : PageData) : lres (list (list IpRange)) :=
  mg ← BuildModuleGraph page;
  '(regions, mg) ← ComputeRegions host_order mg;
  region_jobs mg regions.
End build.

(** ** The graph of a page *)
Section build_proof.
Context (code : mem).

Definition block_ok (g : ModuleGraph) (b : Z) : Prop :=
  GetNode b g = Some (Some b) /\
  exists n, (n <= Z.to_nat TB_MAX_INSNS)%nat /\ ip_end g b = insn_at b n /\ insns_recorded code g b b n.

Lemma insns_grown K g g' b a n : grown K g g' -> insns_recorded code g b a n -> insns_recorded code g' b a n.
Proof.
  intros G [Hp HI]. constructor; [done|]. intros i Hi. destruct (HI i Hi) as (raw & Hr & Hc). exists raw. split; [done|].
  destruct (decide (S i = n)); [by eapply exits_grown|done].
Qed.

Lemma grown_weaken (K K' : Z -> Prop) g g' : (forall c, K' c -> K c) -> grown K g g' -> grown K' g g'.
Proof. intros HK [P E S N U B I]. constructor; auto. Qed.

Lemma block_ok_grown (K : Z -> Prop) g g' b : grown K g g' -> K b -> block_ok g b -> block_ok g' b.
Proof.
  intros G HK (HG & n & Hn & He & HI). split; [by rewrite (grown_GetNode _ _ _ _ G)|]. exists n. split; [done|]. split; [by rewrite (gr_end _ _ _ G)|by eapply insns_grown].
Qed.

Lemma analyse_list_spec next : forall iplist g g',
  analyse_list code iplist next g = LRet g' -> NoDup iplist -> Forall (in_u 32) iplist ->
  grown (fun c => c ∉ iplist) g g' /\ Forall (block_ok g') iplist.
Proof.
  induction iplist as [|b rest IH]; intros g g' HA Hnd Hu; cbn [analyse_list] in HA.
  { injection HA as <-. split; [apply grown_refl|constructor]. }
  apply lbind_ret in HA as (g1 & H1 & H2). apply NoDup_cons in Hnd as [Hb Hnd]. apply Forall_cons in Hu as [Hub Hu].
  destruct (Analyse_spec _ _ _ _ _ H1 Hub) as (G1 & HG & n & Hn & He & HI).
  destruct (IH g1 g' H2 Hnd Hu) as [G2 HF].
  split.
  - eapply grown_trans; eapply grown_weaken; [|exact G1| |exact G2]; intros c Hc; rewrite elem_of_cons in Hc; tauto.
  - apply Forall_cons. split; [|done]. eapply block_ok_grown; [exact G2|done|]. split; [done|]. by exists n.
Qed.

Record listed (s : list Z * ModuleGraph) : Prop := {
  ls_wf : mg_wf s.2; ls_fresh : mg_fresh s.2; ls_nodup : NoDup s.1; ls_range : Forall (in_u 32) s.1;
  ls_node ip : is_Some (node s.2 (Some ip)) <-> ip ∈ s.1;
  ls_ip ip : ip ∈ s.1 -> node_ip s.2 (Some ip) = ip }.

Lemma apply_entry_keys o ip g g' :
  (o = OBrindTarget ip \/ o = OSegmentEntry ip) -> apply_op o g = POk g' ->
  (forall n, is_Some (node g' n) <-> is_Some (node g n)) /\ (forall n, node_ip g' n = node_ip g n).
Proof.
  intros Ho H.
  assert (exists f n g1, upd_flags f n g = POk g1 /\ AddSucc None n g1 = POk g') as (f & n & g1 & H1 & H2).
  { destruct Ho as [->| ->]; cbn in H; unfold RecordBrindTarget, RecordSegmentEntry in H;
      apply pbind_ok in H as (n & _ & (g1 & H1 & H2)%pbind_ok); eauto. }
  destruct (AddSucc_inv _ _ _ _ H2) as (_ & _ & En & _). split.
  - intros m. rewrite En. by apply upd_node_is_Some with (1 := H1).
  - intros m. unfold AddSucc in H2. apply pbind_ok in H2 as (g2 & H2 & H3). unfold node_ip.
    rewrite (upd_node_keep _ 0 _ _ _ _ H3) by done. rewrite (upd_node_keep _ 0 _ _ _ _ H2) by done.
    by rewrite (upd_node_keep _ 0 _ _ _ _ H1).
Qed.

Lemma listed_op o ip l g g' :
  (o = OBrindTarget ip \/ o = OSegmentEntry ip) -> apply_op o g = POk g' -> listed (l, g) -> listed (l, g').
Proof.
  intros Ho H [W F Nd R N I]. cbn in *. destruct (apply_entry_keys _ _ _ _ Ho H) as [En Ei].
  destruct (apply_op_inv _ _ _ H W F) as [W' F']. constructor; cbn; try done.
  - intros i. by rewrite En.
  - intros i Hi. rewrite Ei. auto.
Qed.

Lemma record_idx_listed page pv idx s s' : record_idx page pv idx s = LRet s' -> listed s -> listed s'.
Proof.
  destruct s as [l g]. unfold record_idx. destruct (negb _); [by intros [= <-]|]. set (ip := u32 _).
  intros (g1 & H1%lift_ret & (g2 & H2%lift_ret & (g3 & H3%lift_ret & [= <-])%lbind_ret)%lbind_ret)%lbind_ret [W F Nd R N I].
  cbn in *. destruct (apply_op_inv (OEntry ip) _ _ H1 W F) as [W1 F1].
  assert (L1 : listed (l ++ [ip], g1)).
  { unfold RecordEntry, AddNode in H1. destruct (node g (Some ip)) eqn:En; [done|]. injection H1 as <-.
    assert (Hip : ip ∉ l) by (intros [x Hx]%N; congruence).
    constructor; cbn; [done|done| | | |].
    - apply NoDup_app. split; [done|]. split; [|apply NoDup_singleton]. by intros x Hx ->%list_elem_of_singleton.
    - apply Forall_app. split; [done|]. apply Forall_singleton. apply uN_range. lia.
    - intros c. rewrite elem_of_app, list_elem_of_singleton, <- N, lookup_insert_is_Some.
      destruct (decide (c = ip)) as [->|]; [rewrite En; naive_solver|]. split; [|naive_solver].
      intros [[= ->]|[_ ?]]; auto.
    - intros c. rewrite elem_of_app, list_elem_of_singleton. unfold node_ip. cbn.
      destruct (decide (c = ip)) as [->|Hne]; [by rewrite lookup_insert_eq|].
      rewrite lookup_insert_ne by congruence. intros [Hc| ->]; [by apply I|done]. }
  assert (L2 : listed (l ++ [ip], g2)).
  { destruct (Z.testbit (brind_target page) idx); [|by injection H2 as <-]. eapply (listed_op (OBrindTarget ip)); eauto. }
  destruct (Z.testbit (segment_entry page) idx); [|by injection H3 as <-]. eapply (listed_op (OSegmentEntry ip)); eauto.
Qed.

Lemma listed_new seg : listed ([], MG_new seg).
Proof.
  destruct (MG_new_inv seg) as [W F]. constructor; cbn; try done; [constructor| |by intros ? ?%not_elem_of_nil].
  intros ip. rewrite lookup_singleton_ne by done. split; [by intros []|by intros ?%not_elem_of_nil].
Qed.

Lemma BuildModuleGraph_spec page g :
  BuildModuleGraph code page = LRet g ->
  mg_wf g /\ mg_fresh g /\ forall b, b ∈ ip_list g -> node_ip g (Some b) = b /\ block_ok g b.
Proof.
  unfold BuildModuleGraph. intros ([l g0] & H0 & HA)%lbind_ret.
  assert (L : listed (l, g0)).
  { eapply (lfold_ret _ listed); [exact H0|apply listed_new|]. intros idx s s' Hs Hf. by eapply record_idx_listed. }
  destruct L as [W F Nd R N I]. cbn in *. destruct (analyse_list_spec _ _ _ _ HA Nd R) as [G HF].
  destruct (gr_inv _ _ _ G W F) as [W' F']. split; [done|]. split; [done|].
  intros b Hb%ip_list_spec. apply (gr_node _ _ _ G), N in Hb. split; [rewrite (gr_ip _ _ _ G); auto|].
  rewrite Forall_forall in HF. auto.
Qed.
End build_proof.

(** ** The blocks of a page *)
(** The guest address of a bit of a page's profile. *)
Definition page_vaddr (page : PageData) : Z := u32 (Z.shiftl (pageno page) PAGE_BITS).
Definition idx_ip (page : PageData) (idx : Z) : Z := u32 (page_vaddr page + idx2po idx).
Definition is_executed (page : PageData) (idx : Z) : bool := Z.testbit (executed page) idx.
Definition is_known_entry (page : PageData) (idx : Z) : bool :=
  is_executed page idx && (Z.testbit (brind_target page) idx || Z.testbit (segment_entry page) idx).

Definition more_succs (g g' : ModuleGraph) : Prop := forall a b, b ∈ succs g a -> b ∈ succs g' a.
Lemma more_succs_trans g1 g2 g3 : more_succs g1 g2 -> more_succs g2 g3 -> more_succs g1 g3.
Proof. unfold more_succs. auto. Qed.

Lemma RecordEntry_succs ip g g' : RecordEntry ip g = POk g' -> more_succs g g'.
Proof.
  unfold RecordEntry, AddNode. destruct (mg_nodes g !! Some ip) eqn:E; [discriminate|]. intros [= <-] a b. unfold succs. cbn [mg_nodes with_nodes].
  destruct (decide (a = Some ip)) as [->|Hne]; [rewrite E; cbn; by intros ?%not_elem_of_nil|by rewrite lookup_insert_ne].
Qed.
Lemma record_target_succs (f : Flags -> Flags) ip g g' :
  (n ← pderef (GetNode ip g); g ← upd_flags f n g; AddSucc None n g) = POk g' -> more_succs g g' /\ Some ip ∈ succs g' None.
Proof.
  intros (n & Hn & (g1 & H1 & H2)%pbind_ok)%pbind_ok. destruct (AddSucc_inv _ _ _ _ H2) as (Hs & _).
  assert (n = Some ip) as ->.
  { unfold GetNode in Hn. destruct (negb _); [done|]. destruct (mg_nodes g !! Some ip); [by injection Hn|done]. }
  assert (Hk : forall m, succs g1 m = succs g m).
  { intros m. unfold upd_flags in H1. by apply (upd_node_keep n_succs [] _ _ _ _ H1). }
  split.
  - intros a b Hb. rewrite Hs. case_decide; rewrite ?elem_of_app, Hk; auto.
  - rewrite Hs, decide_True by done. apply elem_of_app. right. by apply list_elem_of_singleton.
Qed.

(** One bit of the profile. *)
Lemma record_idx_spec page idx l g l' g' : record_idx page (page_vaddr page) idx (l, g) = LRet (l', g') ->
  l' = l ++ (if is_executed page idx then [idx_ip page idx] else []) /\ more_succs g g' /\
  (is_known_entry page idx = true -> Some (idx_ip page idx) ∈ succs g' None).
Proof.
  unfold record_idx, is_known_entry, is_executed. destruct (Z.testbit (executed page) idx); cbn [negb andb].
  2:{ intros [= <- <-]. rewrite app_nil_r. split; [done|]. split; [by intros ? ?|done]. }
  change (u32 (page_vaddr page + idx2po idx)) with (idx_ip page idx). set (ip := idx_ip page idx).
  intros (g1 & H1%lift_ret & (g2 & H2%lift_ret & (g3 & H3%lift_ret & [= <- <-])%lbind_ret)%lbind_ret)%lbind_ret.
  apply RecordEntry_succs in H1. split; [done|].
  assert (Hb : more_succs g1 g2 /\ (Z.testbit (brind_target page) idx = true -> Some ip ∈ succs g2 None)).
  { destruct (Z.testbit (brind_target page) idx); [by apply record_target_succs in H2 as []|injection H2 as <-]. split; [by intros ? ?|done]. }
  assert (Hs : more_succs g2 g3 /\ (Z.testbit (segment_entry page) idx = true -> Some ip ∈ succs g3 None)).
  { destruct (Z.testbit (segment_entry page) idx); [by apply record_target_succs in H3 as []|injection H3 as <-]. split; [by intros ? ?|done]. }
  destruct Hb as [M2 B2], Hs as [M3 B3]. split; [by eapply more_succs_trans; [|eapply more_succs_trans]|].
  intros [H|H]%orb_true_iff; auto.
Qed.

Lemma record_all_spec page idxs : forall l g l' g',
  lfold (record_idx page (page_vaddr page)) idxs (l, g) = LRet (l', g') ->
  l' = l ++ (idx_ip page <$> filter (fun idx => is_executed page idx = true) idxs) /\ more_succs g g' /\
  forall idx, idx ∈ idxs -> is_known_entry page idx = true -> Some (idx_ip page idx) ∈ succs g' None.
Proof.
  induction idxs as [|idx idxs IH]; intros l g l' g'; cbn [lfold].
  { intros [= <- <-]. rewrite app_nil_r. split; [done|]. split; [by intros ? ?|by intros ? ?%not_elem_of_nil]. }
  intros ([l1 g1] & H1 & H2)%lbind_ret. destruct (record_idx_spec _ _ _ _ _ _ H1) as (-> & M1 & K1).
  destruct (IH _ _ _ _ H2) as (-> & M2 & K2). split; [|split; [by eapply more_succs_trans|]].
  - rewrite filter_cons. destruct (is_executed page idx) eqn:E; [rewrite decide_True by done|rewrite decide_False by done].
    + by rewrite <- app_assoc.
    + by rewrite app_nil_r.
  - intros i [->|Hi]%elem_of_cons Hk; [by apply M2, K1|by apply K2].
Qed.

(** The graph of a page: its blocks are the executed addresses, and the root
    has an edge to every known entry. *)
Lemma page_graph code page g : BuildModuleGraph code page = LRet g ->
  (forall b, b ∈ ip_list g <-> exists idx, 0 <= idx < page_bits /\ is_executed page idx = true /\ b = idx_ip page idx) /\
  (forall idx, 0 <= idx < page_bits -> is_known_entry page idx = true -> Some (idx_ip page idx) ∈ succs g None).
Proof.
  unfold BuildModuleGraph. intros ([l g0] & H0 & HA)%lbind_ret.
  assert (L : listed (l, g0)).
  { eapply (lfold_ret _ listed); [exact H0|apply listed_new|]. intros idx s s' Hs Hf. by eapply record_idx_listed. }
  destruct L as [W F Nd R N I]. cbn in *. destruct (analyse_list_spec _ _ _ _ _ HA Nd R) as [G HF].
  apply record_all_spec in H0 as (-> & M & K). cbn [app] in *. split.
  - intros b. rewrite ip_list_spec, (gr_node _ _ _ G), N, list_elem_of_fmap. split.
    + intros (idx & -> & [Hx Hi]%list_elem_of_filter). apply elem_of_seqZ in Hi. exists idx. split_and!; [lia..|done|done].
    + intros (idx & Hi & Hx & ->). exists idx. split; [done|]. apply list_elem_of_filter. split; [done|]. apply elem_of_seqZ. lia.
  - intros idx Hi Hk. apply (gr_succs _ _ _ G), K; [|done]. apply elem_of_seqZ. lia.
Qed.

(** The addresses of the executed blocks of a page, in order: its 1024 words
    whose bit is set. *)
Definition executed_ips (page : PageData) : list Z :=
  (fun i => u32 (pageno page * 4096 + 4 * i)) <$> filter (fun i => Z.testbit (executed page) i = true) (seqZ 0 1024).
Lemma executed_ips_idx page :
  executed_ips page = idx_ip page <$> filter (fun idx => is_executed page idx = true) (seqZ 0 page_bits).
Proof.
  unfold executed_ips. change (seqZ 0 page_bits) with (seqZ 0 1024). unfold is_executed. apply list_fmap_ext. intros j i Hi.
  apply list_elem_of_lookup_2, list_elem_of_filter in Hi as [_ Hi]. apply elem_of_seqZ in Hi.
  unfold idx_ip, page_vaddr, idx2po, idx_bits, PAGE_BITS. rewrite !Z.shiftl_mul_pow2 by lia. rewrite (uN_id 32 (i * 2 ^ 2)) by (unfold in_u; lia).
  unfold uN. rewrite Zplus_mod_idemp_l. f_equal. lia.
Qed.
Lemma idx_ip_inj page idx idx' : 0 <= idx < page_bits -> 0 <= idx' < page_bits -> idx_ip page idx = idx_ip page idx' -> idx = idx'.
Proof.
  unfold idx_ip, page_vaddr, idx2po, idx_bits, page_bits, PAGE_BITS. intros Hi Hi'. rewrite !Z.shiftl_mul_pow2 by lia.
  rewrite !(uN_id 32 (_ * 2 ^ 2)) by (unfold in_u; lia). set (p := u32 (pageno page * 2 ^ 12)).
  assert (Hp : p = pageno page mod 2 ^ 20 * 2 ^ 12).
  { subst p. unfold uN. change (2 ^ 32) with (2 ^ 20 * 2 ^ 12). rewrite Z.mul_mod_distr_r by lia. done. }
  pose proof (Z.mod_pos_bound (pageno page) (2 ^ 20) ltac:(lia)).
  rewrite !uN_id by (unfold in_u; lia). lia.
Qed.
Lemma page_nodes code page g : BuildModuleGraph code page = LRet g -> ip_list g ≡ₚ executed_ips page.
Proof.
  intros HB. destruct (page_graph _ _ _ HB) as [Hips _]. rewrite executed_ips_idx. apply NoDup_Permutation.
  - apply ip_list_NoDup.
  - apply NoDup_fmap_2_strong; [|apply NoDup_filter, NoDup_seqZ].
    intros x y [_ Hx%elem_of_seqZ]%list_elem_of_filter [_ Hy%elem_of_seqZ]%list_elem_of_filter. apply idx_ip_inj; lia.
  - intros b. rewrite Hips. rewrite list_elem_of_fmap. setoid_rewrite list_elem_of_filter. setoid_rewrite elem_of_seqZ.
    split; intros (idx & H); exists idx; repeat split; try apply H; try lia; destruct H as (? & ? & ?); try lia; try done.
Qed.

(** ** Jobs *)
Definition range (g : ModuleGraph) (n : nid) : IpRange := (node_ip g n, from_option n_ip_end 0 (node g n)).

Lemma ranges_of_spec g r : (forall n, n ∈ r -> is_Some (node g n)) -> ranges_of g r = LRet (range g <$> r).
Proof.
  induction r as [|n r IH]; intros H; [done|]. cbn [ranges_of]. unfold range_of, get_node.
  destruct (H n) as [x Hx]; [by apply list_elem_of_here|]. rewrite Hx. cbn [pderef lift mbind lres_bind].
  rewrite IH by (intros m Hm; apply H; by apply list_elem_of_further). cbn. unfold range, node_ip. by rewrite Hx.
Qed.

Lemma region_jobs_spec g rs :
  (forall r n, r ∈ rs -> n ∈ r -> is_Some (node g n)) -> (forall r, r ∈ rs -> exists e, head r = Some e /\ reg_entry g e = true) ->
  region_jobs g rs = LRet (fmap (M := list) (range g) <$> rs).
Proof.
  induction rs as [|r rs IH]; intros Hn He; [done|]. cbn [region_jobs].
  rewrite IH; [|intros q n Hq; apply Hn; by apply list_elem_of_further|intros q Hq; apply He; by apply list_elem_of_further].
  destruct (He r) as (e & Hhd & Hre); [by apply list_elem_of_here|]. destruct r as [|e' r]; [done|]. injection Hhd as ->.
  assert (Hrn : forall n, n ∈ e :: r -> is_Some (node g n)) by (intros n; apply Hn; by apply list_elem_of_here).
  unfold region_job, get_node. destruct (Hrn e) as [x Hx]; [by apply list_elem_of_here|].
  rewrite Hx. cbn [pderef lift mbind lres_bind].
  assert (region_entry (n_flags x) = true) as -> by (unfold reg_entry in Hre; by rewrite Hx in Hre).
  cbn [passert lift mbind lres_bind]. by rewrite (ranges_of_spec g (e :: r) Hrn).
Qed.

Lemma Permutation_refl' {A} (l l' : list A) : l = l' -> l ≡ₚ l'. Proof. by intros ->. Qed.
Lemma join_cons {A} (l : list A) ls : mjoin (l :: ls) = l ++ mjoin ls. Proof. done. Qed.
Lemma join_fmap {A B} (f : A -> B) (ls : list (list A)) : mjoin (fmap (M := list) f <$> ls) = f <$> mjoin ls.
Proof. induction ls as [|l ls IH]; [done|]. rewrite fmap_cons, !join_cons, IH. by rewrite fmap_app. Qed.

Lemma join_unique {A} (ls : list (list A)) l1 l2 x :
  NoDup (mjoin ls) -> l1 ∈ ls -> l2 ∈ ls -> x ∈ l1 -> x ∈ l2 -> l1 = l2.
Proof.
  induction ls as [|l ls IH]; [by intros _ ?%not_elem_of_nil|]. rewrite join_cons. intros (_ & Hd & Hnd)%NoDup_app.
  assert (Hx : forall l', l' ∈ ls -> x ∈ l -> x ∈ l' -> False).
  { intros l' Hl' Hxl Hxl'. apply (Hd x Hxl). apply list_elem_of_join. eauto. }
  intros [->|H1]%elem_of_cons [->|H2]%elem_of_cons Hx1 Hx2; [done|by destruct (Hx l2)|by destruct (Hx l1)|eauto].
Qed.

(** The jobs of a page are the ranges of its regions. *)
Lemma AOTCompilePage_spec code host_order page g :
  (forall l, host_order l ≡ₚ l) -> BuildModuleGraph code page = LRet g -> all_reachable g -> n_nodes g <= 255 ->
  exists regions g', AOTCompilePage code host_order page = LRet (fmap (M := list) (range g') <$> regions) /\ partition_of g regions /\
    (forall r n, r ∈ regions -> n ∈ r -> exists b, n = Some b /\ b ∈ ip_list g) /\
    (forall b, b ∈ ip_list g -> range g' (Some b) = (b, ip_end g b)).
Proof.
  intros Hord HB Hr Hn. destruct (BuildModuleGraph_spec _ _ _ HB) as (W & F & Hbl).
  destruct (ComputeRegions_spec host_order g Hord W F Hr Hn) as (regions & g' & Eq & HP & E & He). pose proof HP as (Hj & Hse & _).
  assert (Hin : forall r n, r ∈ regions -> n ∈ r -> exists b, n = Some b /\ b ∈ ip_list g).
  { intros r n Hrin Hnin. apply list_elem_of_fmap. rewrite <- Hj. apply list_elem_of_join. eauto. }
  exists regions, g'. split_and!; [|done|done|].
  - unfold AOTCompilePage. rewrite HB. cbn [mbind lres_bind]. rewrite Eq. cbn [mbind lres_bind]. apply region_jobs_spec.
    + intros r n Hrin Hnin. destruct (Hin r n Hrin Hnin) as (b & -> & Hb). apply (same_is_Some _ _ _ _ E). by apply ip_list_spec.
    + intros r Hrin. destruct (Hse r Hrin) as (e & Hhd & _). exists e. split; [done|]. by eapply He.
  - intros b Hb. destruct (Hbl b Hb) as [Hip _]. unfold range, ip_end, node_ip in *.
    rewrite (same_view n_ip 0 erase_all g' g) by done. rewrite (same_view n_ip_end 0 erase_all g' g) by done. by rewrite Hip.
Qed.

(** Where an interpreter step from the last instruction of a block may go. *)
Definition leaves_to (g : ModuleGraph) (jobs : list (list IpRange)) (j : list IpRange) (b t : Z) : Prop :=
  t ∈ j.*1 \/ (exists j' r, j' ∈ jobs /\ head j' = Some r /\ r.1 = t) \/ t ∉ (mjoin jobs).*1 \/
  brind_flag g (Some b) = true.

(** C16 Compiling a page of at most 254 executed blocks, all reached from its
    entries: the blocks of the jobs are the addresses of the executed bits of
    the page, each exactly once, with the range of the analysed instructions,
    and an interpreter step from an instruction of a block stays in the block
    or, from its last instruction, goes to a block of the same job, to the
    first block of a job, to an address that is no compiled block, or is an
    indirect branch. *)
Theorem AOTCompilePage_correct code host_order page g :
  (forall l, host_order l ≡ₚ l) -> BuildModuleGraph code page = LRet g -> all_reachable g -> n_nodes g <= 255 ->
  exists jobs, AOTCompilePage code host_order page = LRet jobs /\
    (mjoin jobs).*1 ≡ₚ executed_ips page /\
    mjoin jobs ≡ₚ (fun b => (b, ip_end g b)) <$> ip_list g /\
    forall j b e, j ∈ jobs -> (b, e) ∈ j -> exists n, e = insn_at b n /\
      forall i weaks σ u σ', (i < n)%nat -> h_gip σ = insn_at b i ->
        fetch (h_mem σ) (h_gip σ) = load_le 4 code (h_gip σ) -> dispatch weaks σ = Ret u σ' ->
        if decide (S i = n) then leaves_to g jobs j b (h_gip σ') else h_gip σ' = insn_at b (S i).
Proof.
  intros Hord HB Hr Hn. destruct (BuildModuleGraph_spec _ _ _ HB) as (W & F & Hbl).
  destruct (AOTCompilePage_spec _ _ _ _ Hord HB Hr Hn) as (regions & g' & Eq & (Hj & Hse & _) & Hin & Hrg).
  assert (Hall : mjoin (fmap (M := list) (range g') <$> regions) ≡ₚ (fun b => (b, ip_end g b)) <$> ip_list g).
  { rewrite join_fmap, Hj, <- list_fmap_compose. apply Permutation_refl'. apply list_fmap_ext. intros i b Hib. cbn.
    apply Hrg. by eapply list_elem_of_lookup_2. }
  exists (fmap (M := list) (range g') <$> regions). split; [done|split; [|split; [done|]]].
  - rewrite Hall, <- list_fmap_compose. rewrite (list_fmap_ext _ id) by done. rewrite list_fmap_id. by apply (page_nodes code).
  - intros j b e Hjin Hbe. apply list_elem_of_fmap in Hjin as (r & -> & Hrin).
    apply list_elem_of_fmap in Hbe as (n & Hbe & Hnr). destruct (Hin r n Hrin Hnr) as (b' & -> & Hb').
    rewrite (Hrg b' Hb') in Hbe. injection Hbe as -> ->. destruct (Hbl b' Hb') as [_ (HG & k & _ & Hend & HI)].
    exists k. split; [done|]. intros i weaks σ u σ' Hi Hip Hf Hd.
    pose proof (recorded_step _ _ _ _ _ _ _ _ _ HI Hi Hip Hf Hd) as Hstep. destruct (decide (S i = k)); [|done].
    destruct Hstep as [[Hno|Hsucc]|Hbr]; [| |by right; right; right].
    + right. right. left. rewrite join_fmap. intros Ht. apply list_elem_of_fmap in Ht as (p & Hp & Hpin).
      apply list_elem_of_fmap in Hpin as (m & -> & Hm). rewrite Hj in Hm. apply list_elem_of_fmap in Hm as (c & -> & Hc).
      rewrite (Hrg c Hc) in Hp. cbn in Hp. rewrite Hp in Hno. destruct (Hbl c Hc) as [_ (HGc & _)]. congruence.
    + assert (Ht : exists r', r' ∈ regions /\ Some (h_gip σ') ∈ r').
      { apply (wf_node _ W) in Hsucc. apply ip_list_spec in Hsucc.
        assert (Hm : Some (h_gip σ') ∈ mjoin regions) by (rewrite Hj; by apply list_elem_of_fmap_2).
        apply list_elem_of_join in Hm as (r' & ? & ?). eauto. }
      destruct Ht as (r' & Hr' & Htr'). destruct (Hse r' Hr') as (e' & Hhd & Hsingle).
      assert (Htip : h_gip σ' ∈ ip_list g) by (destruct (Hin r' _ Hr' Htr') as (c & [= ->] & ?); done).
      destruct (decide (Some b' ∈ r')) as [Hb'r|Hb'r].
      * left. assert (r = r') as ->.
        { eapply join_unique; [|exact Hrin|exact Hr'|exact Hnr|exact Hb'r]. rewrite Hj.
          apply NoDup_fmap; [apply _|apply ip_list_NoDup]. }
        apply list_elem_of_fmap. exists (range g' (Some (h_gip σ'))). rewrite (Hrg _ Htip). split; [done|].
        rewrite <- (Hrg _ Htip). by apply list_elem_of_fmap_2.
      * right. left. exists (range g' <$> r'), (range g' e'). split; [by apply list_elem_of_fmap_2|].
        split; [by destruct r'; [done|injection Hhd as ->]|]. rewrite <- (Hsingle _ _ Hsucc Htr' Hb'r).
        by rewrite (Hrg _ Htip).
Qed.

(** ** Witness: a loop over three blocks of one page *)
Definition demo_code : mem := mem_of_words 0x1000 [0x00209463; 0x00108093; 0xff9ff06f].
Definition demo_page : PageData := mkPD 1 7 0 1.

Definition built (r : lres ModuleGraph) : pres ModuleGraph := match r with LRet g => POk g | _ => PPanic end.
Lemma built_inv r g : built r = POk g -> r = LRet g. Proof. destruct r; cbn; congruence. Qed.

Lemma demo_page_ok : demo_ok 4 (built (BuildModuleGraph demo_code demo_page)) = true.
Proof. vm_compute. reflexivity. Qed.

Lemma AOTCompilePage_correct_witness :
  exists g jobs, BuildModuleGraph demo_code demo_page = LRet g /\ AOTCompilePage demo_code reverse demo_page = LRet jobs /\
    (mjoin jobs).*1 ≡ₚ [0x1000; 0x1004; 0x1008].
Proof.
  destruct (demo_ok_inv 4 _ demo_page_ok) as (g & Hg & Hn & Hr). apply built_inv in Hg.
  destruct (AOTCompilePage_correct demo_code reverse demo_page g) as (jobs & Eq & Hj & _);
    [apply reverse_Permutation|exact Hg|exact Hr|lia|].
  exists g, jobs. exact (conj Hg (conj Eq Hj)).
Defined.

Lemma demo_jobs : AOTCompilePage demo_code reverse demo_page = LRet [[(0x1000, 0x1004); (0x1004, 0x1008); (0x1008, 0x100c)]].
Proof. vm_compute. reflexivity. Qed.
