(* ===== verification/AotPages.v ===== *)
(** * The jobs of the pages of a profile

    What both ahead-of-time compilers rely on: the entries of the jobs of a
    page are distinct addresses of the page, and every executed block that is
    the target of an indirect branch or of a branch from another segment is the
    entry of a job. *)

From stdpp Require Import base tactics numbers list gmap relations.
From S2P Require Import Prelude Common GuestState Tcache Execute.
From S2P Require Import ModuleGraph ModuleGraphInv ModuleGraphDfs ModuleGraphDom ModuleGraphRegions Analyser Aot.

Lemma idx_ip_page page idx : 0 <= pageno page < 2 ^ 20 -> 0 <= idx < page_bits -> idx_ip page idx / PAGE_SIZE = pageno page.
Proof.
  intros Hp Hi. unfold idx_ip, page_vaddr, idx2po, idx_bits, page_bits, PAGE_BITS, PAGE_SIZE in *.
  rewrite !Z.shiftl_mul_pow2 by lia.
  rewrite (uN_id 32 (pageno page * 2 ^ 12)) by (unfold in_u; lia). rewrite (uN_id 32 (idx * 2 ^ 2)) by (unfold in_u; lia).
  rewrite uN_id by (unfold in_u; lia). zlia.
Qed.

(** ** Jobs *)
Record page_ok (code : mem) (page : PageData) (g : ModuleGraph) : Prop := {
  po_graph : BuildModuleGraph code page = LRet g;
  po_reach : all_reachable g;
  po_nodes : n_nodes g <= 255;
  po_no : 0 <= pageno page < 2 ^ 20 }.

Definition entry_of (j : list IpRange) : Z := from_option fst 0 (head j).

Lemma head_elem {A} (l : list A) x : head l = Some x -> x ∈ l.
Proof. destruct l; [done|]. intros [= ->]. apply list_elem_of_here. Qed.
Lemma entry_fmap {A B} (f : A -> B) (l : list A) : head (f <$> l) = f <$> head l.
Proof. by destruct l. Qed.
Lemma NoDup_join_elem {A} (ls : list (list A)) l : NoDup (mjoin ls) -> l ∈ ls -> NoDup l.
Proof.
  induction ls as [|l' ls IH]; [by intros _ ?%not_elem_of_nil|]. rewrite join_cons. intros (Hl & _ & Hls)%NoDup_app [->|Hin]%elem_of_cons; auto.
Qed.
Lemma NoDup_heads {A B} (f : list A -> B) (h : A -> B) (ls : list (list A)) :
  (forall l, l ∈ ls -> exists x, head l = Some x /\ f l = h x) -> NoDup (h <$> mjoin ls) -> NoDup (f <$> ls).
Proof.
  induction ls as [|l ls IH]; intros Hl Hnd; [constructor|]. rewrite join_cons, fmap_app in Hnd. apply NoDup_app in Hnd as (_ & Hd & Hnd).
  rewrite fmap_cons. constructor; [|apply IH; [intros l' Hl'; apply Hl; by apply list_elem_of_further|done]].
  destruct (Hl l) as (x & Hx & ->); [apply list_elem_of_here|]. intros Hin%list_elem_of_fmap. destruct Hin as (l' & Hf & Hl').
  destruct (Hl l') as (x' & Hx' & Hfx); [by apply list_elem_of_further|]. apply (Hd (h x)).
  - apply list_elem_of_fmap_2, head_elem, Hx.
  - rewrite Hf, Hfx. apply list_elem_of_fmap_2, list_elem_of_join. exists l'. split; [by apply head_elem|done].
Qed.

Lemma page_jobs code host_order page g : (forall l, host_order l ≡ₚ l) -> page_ok code page g ->
  exists jobs, AOTCompilePage code host_order page = LRet jobs /\
    Forall (fun j => j <> [] /\ entry_of j / PAGE_SIZE = pageno page /\ in_u 32 (entry_of j)) jobs /\
    Forall (fun j => NoDup j.*1 /\ Forall (fun r => in_u 32 r.1) j) jobs /\ NoDup (entry_of <$> jobs) /\
    forall idx, 0 <= idx < page_bits -> is_known_entry page idx = true -> idx_ip page idx ∈ entry_of <$> jobs.
Proof.
  intros Hord [HB Hr Hn Hp]. destruct (AOTCompilePage_spec _ _ _ _ Hord HB Hr Hn) as (regions & g' & Eq & (Hj & Hse & _) & Hin & Hrg).
  destruct (page_graph _ _ _ HB) as [Hips Hknown].
  assert (Hent : forall r, r ∈ regions -> exists b, head r = Some (Some b) /\ b ∈ ip_list g /\ entry_of (range g' <$> r) = b).
  { intros r Hr'. destruct (Hse r Hr') as (e & Hhd & _). destruct (Hin r e Hr' (head_elem _ _ Hhd)) as (b & -> & Hb).
    exists b. split_and!; [done|done|]. unfold entry_of. rewrite entry_fmap, Hhd. change ((range g' (Some b)).1 = b). by rewrite (Hrg b Hb). }
  exists (fmap (M := list) (range g') <$> regions). split_and!; [done|..].
  - apply Forall_fmap, Forall_forall. intros r Hr'. destruct (Hent r Hr') as (b & Hhd & Hb & He). cbn. rewrite He. split_and!.
    + by destruct r.
    + apply Hips in Hb as (idx & Hi & _ & ->). by apply idx_ip_page.
    + apply Hips in Hb as (idx & _ & _ & ->). apply uN_range. lia.
  - assert (HJ : NoDup (mjoin regions)) by (rewrite Hj; apply NoDup_fmap; [apply _|apply ip_list_NoDup]).
    apply Forall_fmap, Forall_forall. intros r Hr'. cbn. split.
    + rewrite <- list_fmap_compose. apply NoDup_fmap_2_strong; [|by eapply NoDup_join_elem].
      intros n m (b & -> & Hb)%(Hin r _ Hr') (c & -> & Hc)%(Hin r _ Hr'). change ((range g' (Some b)).1 = (range g' (Some c)).1 -> Some b = Some c).
      rewrite (Hrg b Hb), (Hrg c Hc). cbn. by intros ->.
    + apply Forall_fmap, Forall_forall. intros n (b & -> & Hb)%(Hin r _ Hr'). change (in_u 32 (range g' (Some b)).1). rewrite (Hrg b Hb).
      apply Hips in Hb as (idx & _ & _ & ->). apply uN_range. lia.
  - rewrite <- list_fmap_compose. apply (NoDup_heads _ (fun n => default 0 n)).
    + intros r Hr'. destruct (Hent r Hr') as (b & Hhd & Hb & He). exists (Some b). split; [done|]. exact He.
    + rewrite Hj, <- list_fmap_compose. rewrite (list_fmap_ext _ id) by done. rewrite list_fmap_id. apply ip_list_NoDup.
  - intros idx Hi Hk. assert (Hb : idx_ip page idx ∈ ip_list g).
    { apply Hips. exists idx. split_and!; [lia..| |done]. by apply andb_true_iff in Hk as []. }
    assert (Hm : Some (idx_ip page idx) ∈ mjoin regions) by (rewrite Hj; by apply list_elem_of_fmap_2).
    apply list_elem_of_join in Hm as (r & Hbr & Hrin). destruct (Hse r Hrin) as (e & Hhd & Hsingle).
    assert (Some (idx_ip page idx) = e) as <-.
    { apply (Hsingle None); [by apply Hknown|done|]. intros Hnone. by destruct (Hin r None Hrin Hnone) as (? & ? & _). }
    apply list_elem_of_fmap. exists (range g' <$> r). split; [|by apply list_elem_of_fmap_2].
    unfold entry_of. rewrite entry_fmap, Hhd. change (idx_ip page idx = (range g' (Some (idx_ip page idx))).1). by rewrite (Hrg _ Hb).
Qed.
