(* ===== verification/Mmu.v ===== *)
(** * Guest memory mapping (src/dbt/mmu.h, mmu.cpp)

    The set of used guest pages, the search for free ranges and [mmap].  The
    host's [mmap] and [munmap] are parameters that also see how many calls
    were made before; [None] is [MAP_FAILED].  [bitset::set] out of range
    throws, which ends the process. *)

From stdpp Require Import base tactics numbers list gmap.
From S2P Require Import Prelude Common.

Module mmu.
Definition ASPACE_SIZE : Z := Z.shiftl 1 32.
Definition PAGE_BITS : Z := 12.
Definition PAGE_SIZE : Z := Z.shiftl 1 PAGE_BITS.
Definition MIN_MMAP_ADDR : Z := 16 * PAGE_SIZE.
Definition n_pages : Z := Z.shiftr ASPACE_SIZE PAGE_BITS.

Record state := mkMmu { base : Z; used_pages : gset Z; mmap_hint_page : Z; host_calls : nat }.
Definition init_state : state := mkMmu 0 ∅ (Z.shiftr MIN_MMAP_ADDR PAGE_BITS) 0.

Definition check_h2g (base hptr : Z) : bool := uN 64 (hptr - base) <? ASPACE_SIZE.
Definition h2g (base hptr : Z) : Z := u32 (hptr - base).
Definition g2h (base gptr : Z) : Z := base + gptr.

Definition set_used (u : gset Z) (s : state) : state := mkMmu (base s) u (mmap_hint_page s) (host_calls s).
Definition set_hint (h : Z) (s : state) : state := mkMmu (base s) (used_pages s) h (host_calls s).
Definition called (s : state) : state := mkMmu (base s) (used_pages s) (mmap_hint_page s) (S (host_calls s)).

(** [for (u32 p = pvaddr; p < plen; ++p)] *)
Definition MarkUsedPages (pvaddr plen : Z) (s : state) : pres state :=
  if n_pages <? plen then (if pvaddr <? plen then PPanic else POk s)
  else POk (set_used (used_pages s ∪ list_to_set (seqZ pvaddr (plen - pvaddr))) s).
Definition MarkFreePages (pvaddr plen : Z) (s : state) : pres state :=
  if n_pages <? plen then (if pvaddr <? plen then PPanic else POk s)
  else POk (set_used (used_pages s ∖ list_to_set (seqZ pvaddr (plen - pvaddr))) s).

(** The loop of [LookupFreeRange] over [k] pages from [p] on. *)
Fixpoint lookup_loop (k : nat) (p count plen : Z) (used : gset Z) : Z :=
  match k with
  | O => 0
  | S k =>
      if decide (p ∈ used) then lookup_loop k (p + 1) plen plen used
      else
        let count := u32 (count - 1) in
        if count =? 0 then u32 (p + 1 - plen) else lookup_loop k (p + 1) count plen used
  end.
Definition LookupFreeRange (pvaddr plen : Z) (used : gset Z) : Z :=
  lookup_loop (Z.to_nat (n_pages - pvaddr)) pvaddr plen plen used.

Section host.
Context (host_mmap : nat -> Z -> Z -> Z -> Z -> Z -> Z -> option Z) (host_munmap : nat -> Z -> Z -> bool).

Definition PROT_NONE : Z := 0.
Definition MAP_PRIVATE : Z := 2.
Definition MAP_FIXED : Z := 16.
Definition MAP_ANON : Z := 32.
Definition MAP_NORESERVE : Z := 16384.

Definition do_mmap (addr len prot flags fd offs : Z) (s : state) : option Z * state :=
  (host_mmap (host_calls s) addr len prot flags fd offs, called s).
Definition do_munmap (addr len : Z) (s : state) : bool * state := (host_munmap (host_calls s) addr len, called s).

Definition Init (zero_membase : bool) (s : state) : pres state :=
  s ← MarkUsedPages 0 MIN_MMAP_ADDR s;
  if zero_membase then POk s
  else
    let '(b, s) := do_mmap 0 ASPACE_SIZE PROT_NONE (Z.lor MAP_PRIVATE (Z.lor MAP_ANON MAP_NORESERVE)) (-1) 0 s in
    b ← pderef b;
    let '(ok, s) := do_munmap (b + MIN_MMAP_ADDR) (ASPACE_SIZE - MIN_MMAP_ADDR) s in
    passert ok;; POk (mkMmu b (used_pages s) (mmap_hint_page s) (host_calls s)).

Definition Destroy (s : state) : pres state :=
  let '(ok, s) := do_munmap (base s) ASPACE_SIZE s in passert ok;; POk s.

(** The inner loop of [mmap]: the next free range, or none. *)
Fixpoint find_range (fuel : nat) (paddr : Z) (wrapped : bool) (plen : Z) (s : state) : lres (option (Z * bool)) :=
  match fuel with
  | O => LFuel
  | S fuel =>
      let paddr := LookupFreeRange paddr plen (used_pages s) in
      if wrapped && ((paddr =? 0) || (mmap_hint_page s <? paddr)) then LRet None
      else if paddr =? 0 then find_range fuel (Z.shiftr MIN_MMAP_ADDR PAGE_BITS) true plen s
      else LRet (Some (paddr, wrapped))
  end.

(** The outer loop: reserve host memory at the hint until it lies in the
    guest address space. *)
Fixpoint reserve (fuel : nat) (paddr : Z) (wrapped : bool) (len plen : Z) (s : state) : lres (option Z * state) :=
  match fuel with
  | O => LFuel
  | S fuel =>
      r ← find_range 3 paddr wrapped plen s;
      match r with
      | None => LRet (None, s)
      | Some (paddr, wrapped) =>
          let '(h, s) := do_mmap (g2h (base s) (u32 (Z.shiftl paddr PAGE_BITS))) len PROT_NONE
                                 (Z.lor MAP_ANON (Z.lor MAP_PRIVATE MAP_NORESERVE)) (-1) 0 s in
          hptr ← lift (pderef h);
          if check_h2g (base s) (hptr + len - 1) then LRet (Some hptr, s)
          else
            let '(ok, s) := do_munmap hptr len s in
            _ ← lift (passert ok);
            reserve fuel (u32 (paddr + plen)) wrapped len plen s
      end
  end.

(** Every attempt but one moves forward in one of two sweeps. *)
Definition reserve_fuel : nat := Z.to_nat (4 * n_pages).

Definition mmap (vaddr len prot flags fd offs : Z) (s : state) : lres (option Z * state) :=
  _ ← lift (passert (uN 64 (vaddr + len - 1) <? ASPACE_SIZE));
  let len := roundup 32 64 len PAGE_SIZE in
  let plen := Z.shiftr len PAGE_BITS in
  if negb (Z.land flags MAP_FIXED =? 0) then
    let '(h, s) := do_mmap (g2h (base s) vaddr) len prot flags fd offs s in
    match h with
    | None => LRet (None, s)
    | Some hptr => s ← lift (MarkUsedPages (Z.shiftr vaddr PAGE_BITS) plen s); LRet (Some hptr, s)
    end
  else
    '(h, s) ← reserve reserve_fuel (mmap_hint_page s) false len plen s;
    match h with
    | None => LRet (None, s)
    | Some hptr =>
        let '(res, s) := do_mmap hptr len prot (Z.lor flags MAP_FIXED) fd offs s in
        res ← lift (pderef res);
        _ ← lift (passert (res =? hptr));
        let paddr := Z.shiftr (h2g (base s) hptr) PAGE_BITS in
        s ← lift (MarkUsedPages paddr plen s);
        LRet (Some res, set_hint (u32 (paddr + plen)) s)
    end.
End host.
End mmu.

Import mmu.

(** ** [LookupFreeRange] *)
Definition free_range (used : gset Z) (r plen : Z) : Prop := forall p, r <= p < r + plen -> p ∉ used.

Lemma u32_small z : 0 <= z < 4294967296 -> u32 z = z.
Proof. intros H. apply uN_id. unfold in_u. exact H. Qed.

(** The first [plen - count] pages before [p] are free. *)
Lemma lookup_loop_spec plen used k : forall p count lo,
  0 < plen < 4294967296 -> 0 < count <= plen -> 0 <= lo -> lo <= p - (plen - count) -> p + Z.of_nat k = n_pages ->
  free_range used (p - (plen - count)) (plen - count) ->
  (forall r, lo <= r < p - (plen - count) -> ~ free_range used r plen) ->
  let r := lookup_loop k p count plen used in
  (r <> 0 -> lo <= r /\ r + plen <= n_pages /\ free_range used r plen /\ forall r', lo <= r' < r -> ~ free_range used r' plen) /\
  (r = 0 -> p - (plen - count) = 0 \/ forall r', lo <= r' -> r' + plen <= n_pages -> ~ free_range used r' plen).
Proof.
  assert (HN : n_pages = 1048576) by reflexivity.
  induction k as [|k IH]; intros p count lo Hplen Hc Hlo Hle Hk Hfree Hmin; cbn [lookup_loop].
  - split; [done|]. intros _. right. intros r' Hr' Hend Hf. destruct (decide (r' < p - (plen - count))) as [?|Hge].
    + apply (Hmin r'); [lia|done].
    + lia.
  - assert (u32 (count - 1) = count - 1) as Hu by (apply u32_small; lia).
    destruct (decide (p ∈ used)) as [Hin|Hout].
    + specialize (IH (p + 1) plen lo). cbn zeta in IH.
      destruct IH as [IH1 IH2]; [lia..| | |].
      * intros q Hq. lia.
      * intros r Hr Hf. destruct (decide (r < p - (plen - count))); [apply (Hmin r); [lia|done]|].
        apply (Hf p); [lia|done].
      * split; [done|]. intros Hr. destruct (IH2 Hr) as [?|?]; [lia|by right].
    + rewrite Hu. destruct (Z.eqb_spec (count - 1) 0) as [E|E].
      * assert (u32 (p + 1 - plen) = p + 1 - plen) as -> by (apply u32_small; lia).
        assert (Hf : free_range used (p + 1 - plen) plen).
        { intros q Hq. destruct (decide (q = p)) as [->|]; [done|]. apply Hfree. lia. }
        split; [|lia]. intros Hr. split; [lia|]. split; [lia|]. split; [done|].
        intros r' Hr'. apply Hmin. lia.
      * specialize (IH (p + 1) (count - 1) lo). cbn zeta in IH.
        replace (p + 1 - (plen - (count - 1))) with (p - (plen - count)) in IH by lia.
        destruct IH as [IH1 IH2]; [lia..| |done|done].
        intros q Hq. destruct (decide (q = p)) as [->|]; [done|]. apply Hfree. lia.
Qed.

Lemma LookupFreeRange_spec pvaddr plen used :
  0 <= pvaddr -> 0 < plen < 4294967296 ->
  let r := LookupFreeRange pvaddr plen used in
  (r <> 0 -> pvaddr <= r /\ r + plen <= n_pages /\ free_range used r plen /\
             forall r', pvaddr <= r' < r -> ~ free_range used r' plen) /\
  (r = 0 -> pvaddr = 0 \/ forall r', pvaddr <= r' -> r' + plen <= n_pages -> ~ free_range used r' plen).
Proof.
  intros Hp Hl. cbn zeta. unfold LookupFreeRange. destruct (decide (pvaddr <= n_pages)) as [Hin|Hout].
  - destruct (lookup_loop_spec plen used (Z.to_nat (n_pages - pvaddr)) pvaddr plen pvaddr) as [H1 H2]; [lia..| | |].
    + intros q Hq. lia.
    + intros r Hr. lia.
    + rewrite Z.sub_diag, Z.sub_0_r in H2. done.
  - replace (Z.to_nat (n_pages - pvaddr)) with 0%nat by lia. cbn. split; [done|]. intros _. right. intros r' H1 H2. lia.
Qed.

Lemma lookup_loop_zero used k : forall p count,
  count = 0 \/ Z.of_nat k < count < 4294967296 -> Z.of_nat k < 4294967295 -> lookup_loop k p count 0 used = 0.
Proof.
  induction k as [|k IH]; intros p count Hc Hk; [done|]. cbn [lookup_loop].
  destruct (decide (p ∈ used)); [apply IH; lia|].
  assert (Hu : u32 (count - 1) = if decide (count = 0) then 4294967295 else count - 1).
  { destruct (decide (count = 0)) as [->|]; [reflexivity|]. apply u32_small. lia. }
  rewrite Hu. destruct (decide (count = 0)).
  - apply IH; lia.
  - destruct (Z.eqb_spec (count - 1) 0); [lia|]. apply IH; lia.
Qed.

Lemma LookupFreeRange_zero pvaddr used : 0 <= pvaddr -> LookupFreeRange pvaddr 0 used = 0.
Proof.
  intros Hp. assert (n_pages = 1048576) by reflexivity. apply lookup_loop_zero; [by left|lia].
Qed.

(** [LookupFreeRange] returns the lowest free range of the length at or
    above the page, or 0 when there is none. *)
Theorem LookupFreeRange_least pvaddr plen used :
  0 < pvaddr -> 0 < plen < 2 ^ 32 ->
  let r := LookupFreeRange pvaddr plen used in
  if decide (r = 0) then forall r', pvaddr <= r' -> r' + plen <= n_pages -> ~ free_range used r' plen
  else pvaddr <= r /\ r + plen <= n_pages /\ free_range used r plen /\
       forall r', pvaddr <= r' < r -> ~ free_range used r' plen.
Proof.
  intros Hp Hl. destruct (LookupFreeRange_spec pvaddr plen used) as [H1 H2]; [lia|exact Hl|]. cbn zeta in *.
  destruct (decide _) as [E|E]; [|by apply H1]. destruct (H2 E); [lia|done].
Qed.

Lemma LookupFreeRange_least_witness :
  LookupFreeRange 16 3 {[18; 22]} = 19 /\ free_range {[18; 22]} 19 3.
Proof.
  assert (E : LookupFreeRange 16 3 {[18; 22]} = 19) by (vm_compute; reflexivity).
  pose proof (LookupFreeRange_least 16 3 {[18; 22]} ltac:(lia) ltac:(lia)) as H. cbn zeta in H. rewrite E in H.
  split; [exact E|]. apply H.
Defined.

(** ** Termination of [mmap] *)
Section total.
Context (host_mmap : nat -> Z -> Z -> Z -> Z -> Z -> Z -> option Z) (host_munmap : nat -> Z -> Z -> bool).

Lemma find_range_spec paddr wrapped plen s :
  0 <= paddr -> 0 <= plen < 4294967296 ->
  exists r, find_range 3 paddr wrapped plen s = LRet r /\
    forall p w, r = Some (p, w) -> 0 < plen /\ p + plen <= n_pages /\ 0 <= p /\
      ((w = wrapped /\ paddr <= p) \/ (w = true /\ wrapped = false)).
Proof.
  intros Hp Hl. set (m := Z.shiftr MIN_MMAP_ADDR PAGE_BITS). assert (Hm : 0 <= m) by (vm_compute; discriminate).
  assert (HL : forall q, 0 <= q -> LookupFreeRange q plen (used_pages s) <> 0 ->
    0 < plen /\ q <= LookupFreeRange q plen (used_pages s) /\ LookupFreeRange q plen (used_pages s) + plen <= n_pages).
  { intros q Hq Hne. destruct (decide (plen = 0)) as [->|]; [by rewrite LookupFreeRange_zero in Hne|].
    destruct (LookupFreeRange_spec q plen (used_pages s) Hq) as [H1 _]; [lia|]. cbn zeta in H1.
    destruct (H1 Hne) as (? & ? & _). lia. }
  cbn [find_range]. change (Z.shiftr MIN_MMAP_ADDR PAGE_BITS) with m. set (r1 := LookupFreeRange paddr plen (used_pages s)) in *.
  destruct (wrapped && _) eqn:E1; [by exists None|]. destruct (Z.eqb_spec r1 0) as [Er|Er].
  - destruct wrapped; [cbn in E1; discriminate|]. cbn [andb].
    set (r2 := LookupFreeRange m plen (used_pages s)) in *. destruct ((r2 =? 0) || (mmap_hint_page s <? r2)) eqn:E2; [by exists None|].
    apply orb_false_iff in E2 as [E2 _]. destruct (Z.eqb_spec r2 0) as [|Er2]; [done|].
    exists (Some (r2, true)). split; [done|]. intros p w [= <- <-]. destruct (HL m Hm Er2) as (? & ? & ?).
    split; [done|]. split; [done|]. split; [lia|]. by right.
  - exists (Some (r1, wrapped)). split; [done|]. intros p w [= <- <-]. destruct (HL paddr Hp Er) as (? & ? & ?).
    split; [done|]. split; [done|]. split; [lia|]. by left.
Qed.

Definition sweep (wrapped : bool) (paddr : Z) : Z := (if wrapped then 0 else 2 * n_pages) + Z.max 0 (n_pages - paddr).

Lemma reserve_total fuel : forall paddr wrapped len plen s,
  0 <= paddr -> 0 <= plen < 4294967296 -> sweep wrapped paddr < Z.of_nat fuel ->
  reserve host_mmap host_munmap fuel paddr wrapped len plen s <> LFuel.
Proof.
  assert (HN : n_pages = 1048576) by reflexivity.
  induction fuel as [|fuel IH]; intros paddr wrapped len plen s Hp Hl Hf; [unfold sweep in Hf; destruct wrapped; lia|].
  cbn [reserve]. destruct (find_range_spec paddr wrapped plen s Hp Hl) as (r & -> & Hr). cbn [mbind lres_bind].
  destruct r as [[p w]|]; [|done]. destruct (Hr p w eq_refl) as (Hpl & Hend & Hp0 & Hprog). unfold do_mmap.
  destruct (host_mmap _ _ _ _ _ _ _) as [hptr|]; [|done]. cbn [pderef lift mbind lres_bind].
  destruct (check_h2g _ _); [done|]. unfold do_munmap. destruct (host_munmap _ _ _); [|done]. cbn [passert lift mbind lres_bind].
  rewrite u32_small by lia. apply IH; [lia|done|]. unfold sweep in *. destruct Hprog as [[-> Hge]|[-> ->]]; lia.
Qed.

(** [mmap] returns whatever the host does: after finitely many attempts
    it has mapped a range, found none, or given up. *)
Theorem mmap_returns vaddr len prot flags fd offs s :
  0 <= mmap_hint_page s -> mmap host_mmap host_munmap vaddr len prot flags fd offs s <> LFuel.
Proof.
  intros Hh. unfold mmap. destruct (passert _); [|done]. cbn [lift mbind lres_bind].
  set (l := roundup 32 64 len PAGE_SIZE). set (plen := Z.shiftr l PAGE_BITS).
  assert (Hl : 0 <= l < 4294967296) by (apply (uN_range 32); lia).
  assert (Hpl : 0 <= plen < 4294967296).
  { unfold plen. rewrite Z.shiftr_div_pow2 by done. change (2 ^ PAGE_BITS) with 4096. split; [apply Z.div_pos; lia|].
    apply Z.div_lt_upper_bound; lia. }
  destruct (negb _).
  - cbn. destruct (host_mmap _ _ _ _ _ _ _); [|done]. by destruct (MarkUsedPages _ _ _).
  - pose proof (reserve_total reserve_fuel (mmap_hint_page s) false l plen s Hh Hpl) as HR.
    destruct (reserve _ _ _ _ _ _ _ _) as [[h s1]| |]; [|done|].
    + cbn [mbind lres_bind]. destruct h as [hptr|]; [|done]. unfold do_mmap.
      destruct (host_mmap _ _ _ _ _ _ _) as [res|]; [|done]. cbn [pderef lift mbind lres_bind].
      destruct (passert _); [|done]. cbn [lift mbind lres_bind]. by destruct (MarkUsedPages _ _ _).
    + exfalso. apply HR; [|done]. unfold sweep, reserve_fuel. assert (n_pages = 1048576) as -> by reflexivity. lia.
Qed.
End total.

Lemma mmap_returns_witness :
  mmap (fun _ a _ _ _ _ _ => Some a) (fun _ _ _ => true) 0 4096 3 34 (-1) 0 init_state <> LFuel.
Proof. apply mmap_returns. vm_compute. discriminate. Defined.

(** ** [MarkUsedPages] *)

(** The loop of [MarkUsedPages] ends at the length, not at the end of the
    range: a range that starts at or behind its length is not marked, and
    [LookupFreeRange] offers it again. *)
Theorem MarkUsedPages_forgets pvaddr plen s :
  0 < plen <= pvaddr -> pvaddr + plen <= n_pages -> free_range (used_pages s) pvaddr plen ->
  MarkUsedPages pvaddr plen s = POk s /\ LookupFreeRange pvaddr plen (used_pages s) = pvaddr.
Proof.
  intros Hl Hend Hf. assert (n_pages = 1048576) by reflexivity. split.
  - unfold MarkUsedPages. destruct (Z.ltb_spec n_pages plen); [lia|].
    assert (seqZ pvaddr (plen - pvaddr) = []) as -> by (apply seqZ_nil; lia). cbn.
    f_equal. destruct s as [b u h c]. unfold set_used. cbn. f_equal. set_solver.
  - destruct (LookupFreeRange_spec pvaddr plen (used_pages s)) as [H1 H2]; [lia|lia|]. cbn zeta in *.
    destruct (decide (LookupFreeRange pvaddr plen (used_pages s) = 0)) as [E|E].
    + destruct (H2 E) as [?|Hno]; [lia|]. by destruct (Hno pvaddr).
    + destruct (H1 E) as (Hge & _ & _ & Hmin). destruct (decide (LookupFreeRange pvaddr plen (used_pages s) = pvaddr)); [done|].
      destruct (Hmin pvaddr); [lia|done].
Qed.

Lemma MarkUsedPages_forgets_witness :
  MarkUsedPages 100 4 init_state = POk init_state /\ LookupFreeRange 100 4 (used_pages init_state) = 100.
Proof. apply MarkUsedPages_forgets; [lia|vm_compute; discriminate|]. intros p _. apply not_elem_of_empty. Defined.
