(* ===== verification/ObjProf.v ===== *)
(** * Execution profiles (src/dbt/tcache/objprof.h, objprof.cpp)

    The profile of an object is a mapped file of page records.  A cell of the
    file that was never written is zero.  [UpdateProfile] walks the
    translation cache in the order of addresses; the loop over a page reads
    the key behind [end()] of the map when the last block belongs to it:
    [end_key] is what it finds there. *)

From stdpp Require Import base tactics numbers list gmap sorting.
From S2P Require Import Prelude Common Tcache ModuleGraph ModuleGraphDfs Aot.

Module objprof.

(** [fsmanager::CacheState]. *)
Inductive CacheState := NO_FILE | RDONLY | RDWR_OLD | RDWR_NEW.

Record FileHeader := mkFH { csum : list Z; n_pages : Z; pages : gmap Z PageData }.
Record ElfProfile := mkEP { page2idx : gmap Z Z; p_fmap : option FileHeader; fsize : Z }.

Definition sizeof_FileHeader : Z := 20.
Definition sizeof_PageData : Z := 388.
Definition zero_page : PageData := mkPD 0 0 0 0.
Definition page_at (h : FileHeader) (idx : Z) : PageData := default zero_page (pages h !! idx).

Definition elf_prof_init : ElfProfile := mkEP ∅ None 0.

(** [Announce] once the cache file is opened; [file] is what is mapped. *)
Definition Announce (sum : list Z) (file_state : CacheState) (file : FileHeader) : pres ElfProfile :=
  let fsize := 64 * 1024 * 1024 in
  match file_state with
  | NO_FILE => POk (mkEP ∅ None fsize)
  | RDWR_NEW => POk (mkEP ∅ (Some (mkFH sum 0 (pages file))) fsize)
  | _ =>
      passert (bool_decide (csum file = sum));;
      POk (mkEP (foldl (fun m idx => match m !! pageno (page_at file idx) with
                                     | Some _ => m
                                     | None => <[pageno (page_at file idx) := idx]> m
                                     end) ∅ (seqZ 0 (n_pages file))) (Some file) fsize)
  end.

Definition HasProfile (p : ElfProfile) : bool := bool_decide (is_Some (p_fmap p)).
Definition GetProfile (p : ElfProfile) : pres (list PageData) :=
  h ← pderef (p_fmap p); POk (map (page_at h) (seqZ 0 (n_pages h))).

Definition AllocatePageData (pno : Z) (p : ElfProfile) : pres (Z * ElfProfile) :=
  h ← pderef (p_fmap p);
  let idx := n_pages h in
  let n := u32 (n_pages h + 1) in
  passert (sizeof_FileHeader + sizeof_PageData * n <=? fsize p);;
  let d := page_at h idx in
  POk (idx, mkEP (page2idx p)
              (Some (mkFH (csum h) n (<[idx := mkPD pno (executed d) (brind_target d) (segment_entry d)]> (pages h)))) (fsize p)).

(** The index of the record of a page. *)
Definition GetOrCreatePageData (pno : Z) (p : ElfProfile) : pres (Z * ElfProfile) :=
  match page2idx p !! pno with
  | Some idx => POk (idx, p)
  | None =>
      '(idx, p) ← AllocatePageData pno p;
      POk (idx, mkEP (<[pno := idx]> (page2idx p)) (p_fmap p) (fsize p))
  end.

Definition page_no (ip : Z) : Z := Z.shiftr ip PAGE_BITS.
Definition po_idx (ip : Z) : Z := po2idx (Z.land ip (PAGE_SIZE - 1)).

Definition upd_observed (val : bool) (idx bits : Z) : Z := if val then Z.setbit bits idx else bits.
Definition observe (ip : Z) (tb : TBlock) (d : PageData) : PageData :=
  mkPD (pageno d) (upd_observed true (po_idx ip) (executed d))
       (upd_observed (Tcache.is_brind_target tb) (po_idx ip) (brind_target d))
       (upd_observed (Tcache.is_segment_entry tb) (po_idx ip) (segment_entry d)).

Definition upd_page (idx : Z) (f : PageData -> PageData) (p : ElfProfile) : pres ElfProfile :=
  h ← pderef (p_fmap p);
  POk (mkEP (page2idx p) (Some (mkFH (csum h) (n_pages h) (<[idx := f (page_at h idx)]> (pages h)))) (fsize p)).

Section update.
Context (end_key : Z).

(** The loop over the blocks of page [pno]. *)
Fixpoint page_loop (pno idx : Z) (it : list (Z * TBlock)) (p : ElfProfile) : pres (list (Z * TBlock) * ElfProfile) :=
  match it with
  | [] => if page_no end_key =? pno then PPanic else POk ([], p)
  | (ip, tb) :: rest =>
      if page_no ip =? pno then p ← upd_page idx (observe ip tb) p; page_loop pno idx rest p
      else POk (it, p)
  end.

Definition UpdatePageProfile (it : list (Z * TBlock)) (p : ElfProfile) : pres (list (Z * TBlock) * ElfProfile) :=
  match it with
  | [] => PPanic
  | (ip, _) :: _ =>
      let pno := page_no ip in
      '(idx, p) ← GetOrCreatePageData pno p;
      h ← pderef (p_fmap p);
      passert (pageno (page_at h idx) =? pno);;
      page_loop pno idx it p
  end.

Fixpoint update_loop (fuel : nat) (it : list (Z * TBlock)) (p : ElfProfile) : lres ElfProfile :=
  match fuel with
  | O => LFuel
  | S fuel =>
      match it with
      | [] => LRet p
      | _ => '(it, p) ← lift (UpdatePageProfile it p); update_loop fuel it p
      end
  end.

(** The blocks of the cache in the order of [tcache_map]. *)
Fixpoint blocks_of (tc : tcache) (ips : list Z) : pres (list (Z * TBlock)) :=
  match ips with
  | [] => POk []
  | ip :: ips =>
      tb ← pderef (tcache_map tc !! ip);
      t ← pderef (tb_mem tc !! tb);
      l ← blocks_of tc ips; POk ((ip, t) :: l)
  end.
Definition map_order (tc : tcache) : list Z := merge_sort Z.le (map fst (map_to_list (tcache_map tc))).

(** Every turn takes at least one block. *)
Definition UpdateProfile (tc : tcache) (p : ElfProfile) : lres ElfProfile :=
  l ← lift (blocks_of tc (map_order tc)); update_loop (S (length l)) l p.
End update.
End objprof.

Import objprof.

(** ** What a profile says about a page *)
Record prof_inv (p : ElfProfile) (h : FileHeader) : Prop := {
  pi_map : p_fmap p = Some h;
  pi_pos : 0 <= n_pages h;
  pi_idx pno idx : page2idx p !! pno = Some idx -> 0 <= idx < n_pages h /\ pageno (page_at h idx) = pno;
  pi_zero idx : n_pages h <= idx -> pages h !! idx = None }.

Definition page_view (p : ElfProfile) (pno : Z) : PageData :=
  match page2idx p !! pno, p_fmap p with
  | Some idx, Some h => page_at h idx
  | _, _ => mkPD pno 0 0 0
  end.

Definition obs_all (l : list (Z * TBlock)) (d : PageData) : PageData := foldl (fun d e => observe e.1 e.2 d) d l.

Definition has_room (n : nat) (p : ElfProfile) (h : FileHeader) : Prop :=
  sizeof_FileHeader + sizeof_PageData * (n_pages h + Z.of_nat n) <= fsize p /\ n_pages h + Z.of_nat n < 2 ^ 32.

Lemma upd_page_spec pno idx f p h :
  prof_inv p h -> page2idx p !! pno = Some idx -> (forall d, pageno (f d) = pageno d) ->
  exists p' h', upd_page idx f p = POk p' /\ prof_inv p' h' /\ page2idx p' = page2idx p /\ n_pages h' = n_pages h /\
    fsize p' = fsize p /\ page_view p' pno = f (page_view p pno) /\ forall q, q <> pno -> page_view p' q = page_view p q.
Proof.
  intros [Hm Hp Hi Hz] Hpno Hf. unfold upd_page. rewrite Hm. cbn [pderef mbind pres_bind].
  set (h' := mkFH (csum h) (n_pages h) (<[idx := f (page_at h idx)]> (pages h))).
  assert (Hat : forall j, page_at h' j = if decide (j = idx) then f (page_at h idx) else page_at h j).
  { intros j. unfold h', page_at at 1. cbn [pages]. destruct (decide (j = idx)) as [->|]; [by rewrite lookup_insert_eq|by rewrite lookup_insert_ne]. }
  exists (mkEP (page2idx p) (Some h') (fsize p)), h'. split; [done|]. split; [constructor; cbn; [done|done| |]|].
  - intros q j Hq. destruct (Hi q j Hq) as [Hr Hpg]. split; [done|]. rewrite Hat.
    destruct (decide (j = idx)) as [->|]; [by rewrite Hf|done].
  - intros j Hj. destruct (Hi pno idx Hpno) as [Hr _]. rewrite lookup_insert_ne by lia. auto.
  - split; [done|]. split; [done|]. split; [done|]. unfold page_view. cbn [page2idx p_fmap]. rewrite Hm. split.
    + rewrite Hpno, Hat. by rewrite decide_True.
    + intros q Hq. destruct (page2idx p !! q) as [j|] eqn:Ej; [|done]. rewrite Hat, decide_False; [done|].
      intros ->. destruct (Hi _ _ Hpno), (Hi _ _ Ej). congruence.
Qed.

Lemma GetOrCreatePageData_spec pno p h n :
  prof_inv p h -> has_room (S n) p h ->
  exists idx p' h', GetOrCreatePageData pno p = POk (idx, p') /\ prof_inv p' h' /\ page2idx p' !! pno = Some idx /\
    has_room n p' h' /\ forall q, page_view p' q = page_view p q.
Proof.
  intros [Hm Hp Hi Hz] [Hroom H32]. unfold GetOrCreatePageData. destruct (page2idx p !! pno) as [idx|] eqn:Epno.
  - exists idx, p, h. split; [done|]. split; [by constructor|]. split; [done|]. split; [|done].
    split; unfold sizeof_PageData in *; lia.
  - unfold AllocatePageData. rewrite Hm. cbn [pderef mbind pres_bind].
    assert (Hu : u32 (n_pages h + 1) = n_pages h + 1) by (apply uN_id; unfold in_u; lia). rewrite Hu.
    destruct (Z.leb_spec (sizeof_FileHeader + sizeof_PageData * (n_pages h + 1)) (fsize p)) as [_|Hbad];
      [|unfold sizeof_PageData in *; lia].
    cbn [passert mbind pres_bind].
    assert (Hd : page_at h (n_pages h) = zero_page) by (unfold page_at; by rewrite Hz). rewrite Hd.
    set (h' := mkFH (csum h) (n_pages h + 1) (<[n_pages h := mkPD pno 0 0 0]> (pages h))).
    assert (Hat : forall j, page_at h' j = if decide (j = n_pages h) then mkPD pno 0 0 0 else page_at h j).
    { intros j. unfold h', page_at at 1. cbn [pages]. destruct (decide (j = n_pages h)) as [->|]; [by rewrite lookup_insert_eq|by rewrite lookup_insert_ne]. }
    exists (n_pages h), (mkEP (<[pno := n_pages h]> (page2idx p)) (Some h') (fsize p)), h'. split; [done|].
    split; [constructor; cbn [page2idx p_fmap n_pages pages h']; [done|lia| |]|split; [|split]].
    + intros q j. rewrite Hat. destruct (decide (q = pno)) as [->|Hq].
      * rewrite lookup_insert_eq. intros [= <-]. rewrite decide_True by done. split; [lia|done].
      * rewrite lookup_insert_ne by done. intros Hj. destruct (Hi q j Hj) as [Hr Hpg]. rewrite decide_False by lia. split; [lia|done].
    + intros j Hj. rewrite lookup_insert_ne by lia. apply Hz. lia.
    + cbn [page2idx]. by rewrite lookup_insert_eq.
    + split; cbn [n_pages h' fsize]; unfold sizeof_PageData in *; lia.
    + intros q. unfold page_view. cbn [page2idx p_fmap]. rewrite Hm. destruct (decide (q = pno)) as [->|Hq].
      * rewrite lookup_insert_eq, Epno, Hat. by rewrite decide_True.
      * rewrite lookup_insert_ne by done. destruct (page2idx p !! q) as [j|] eqn:Ej; [|done].
        destruct (Hi q j Ej). rewrite Hat. by rewrite decide_False by lia.
Qed.

Section update_proof.
Context (end_key : Z).

Lemma page_loop_spec pno idx : forall it p h,
  prof_inv p h -> page2idx p !! pno = Some idx -> page_no end_key <> pno ->
  exists seen rest p' h', page_loop end_key pno idx it p = POk (rest, p') /\ it = seen ++ rest /\
    prof_inv p' h' /\ page2idx p' = page2idx p /\ n_pages h' = n_pages h /\ fsize p' = fsize p /\
    Forall (fun e => page_no e.1 = pno) seen /\
    page_view p' pno = obs_all seen (page_view p pno) /\ (forall q, q <> pno -> page_view p' q = page_view p q) /\
    (rest = it -> forall e, head it = Some e -> page_no e.1 <> pno).
Proof.
  induction it as [|[ip t] it IH]; intros p h I Hpno Hend; cbn [page_loop].
  - rewrite (proj2 (Z.eqb_neq _ _) Hend). exists [], [], p, h. by repeat (split; [done|]).
  - destruct (Z.eqb_spec (page_no ip) pno) as [E|E].
    + destruct (upd_page_spec pno idx (observe ip t) p h I Hpno) as (p1 & h1 & -> & I1 & Hm1 & Hn1 & Hs1 & Hv1 & Ho1); [done|].
      cbn [mbind pres_bind]. destruct (IH p1 h1 I1) as (seen & rest & p2 & h2 & -> & Hit & I2 & Hm2 & Hn2 & Hs2 & HF & Hv2 & Ho2 & _);
        [by rewrite Hm1|done|].
      exists ((ip, t) :: seen), rest, p2, h2. split; [done|]. split; [by rewrite Hit|]. split; [done|]. split; [by rewrite Hm2|].
      split; [by rewrite Hn2|]. split; [by rewrite Hs2|]. split; [by apply Forall_cons|]. split; [by rewrite Hv2, Hv1|].
      split; [intros q Hq; rewrite Ho2 by done; auto|]. intros Hr. apply (f_equal length) in Hr, Hit. rewrite length_app in Hit.
      cbn in Hr. lia.
    + exists [], ((ip, t) :: it), p, h. repeat (split; [done|]). intros _ e [= <-]. done.
Qed.

Definition on_page (q : Z) (l : list (Z * TBlock)) : list (Z * TBlock) := filter (fun e => page_no e.1 = q) l.

Lemma on_page_all q l : Forall (fun e : Z * TBlock => page_no e.1 = q) l -> on_page q l = l.
Proof. unfold on_page. induction 1 as [|e l He HF IH]; [done|]. rewrite filter_cons_True by done. by rewrite IH. Qed.
Lemma on_page_none q q' l : Forall (fun e : Z * TBlock => page_no e.1 = q') l -> q <> q' -> on_page q l = [].
Proof. unfold on_page. intros HF Hq. induction HF as [|e l He HF IH]; [done|]. rewrite filter_cons_False by congruence. done. Qed.

Lemma update_loop_spec fuel : forall l p h,
  (length l < fuel)%nat -> prof_inv p h -> has_room (length l) p h -> Forall (fun e => page_no e.1 <> page_no end_key) l ->
  exists p' h', update_loop end_key fuel l p = LRet p' /\ prof_inv p' h' /\
    forall q, page_view p' q = obs_all (on_page q l) (page_view p q).
Proof.
  induction fuel as [|fuel IH]; intros l p h Hlen I Hroom HE; [lia|]. cbn [update_loop].
  destruct l as [|[ip t] l]; [exists p, h; done|]. cbn [UpdatePageProfile].
  destruct (GetOrCreatePageData_spec (page_no ip) p h (length l) I Hroom) as (idx & p1 & h1 & -> & I1 & Hidx & Hroom1 & Hv1).
  cbn [mbind pres_bind]. rewrite (pi_map _ _ I1). cbn [pderef mbind pres_bind].
  destruct (pi_idx _ _ I1 _ _ Hidx) as [_ Hpg]. rewrite Hpg, Z.eqb_refl. cbn [passert mbind pres_bind].
  assert (He : page_no end_key <> page_no ip) by (apply Forall_inv in HE; cbn in HE; congruence).
  destruct (page_loop_spec (page_no ip) idx ((ip, t) :: l) p1 h1 I1 Hidx He)
    as (seen & rest & p2 & h2 & Eq & Hit & I2 & Hm2 & Hn2 & Hs2 & HF & Hv2 & Ho2 & Hne).
  rewrite Eq. cbn [lift mbind lres_bind].
  assert (Hseen : (length rest <= length l)%nat).
  { destruct seen as [|s seen].
    - destruct (Hne ltac:(by rewrite Hit) (ip, t) eq_refl). done.
    - apply (f_equal length) in Hit. cbn in Hit. rewrite length_app in Hit. lia. }
  destruct (IH rest p2 h2) as (p3 & h3 & -> & I3 & Hv3).
  - cbn in Hlen. lia.
  - done.
  - destruct Hroom1 as [H1 H2]. split; rewrite ?Hn2, ?Hs2; unfold sizeof_PageData in *; lia.
  - rewrite Hit in HE. by apply Forall_app in HE as [_ ?].
  - exists p3, h3. split; [done|]. split; [done|]. intros q. rewrite Hv3, Hit. unfold on_page at 2. rewrite filter_app.
    fold (on_page q seen) (on_page q rest). unfold obs_all at 2. rewrite foldl_app. fold (obs_all (on_page q seen) (page_view p q)).
    unfold obs_all at 1. f_equal. destruct (decide (q = page_no ip)) as [->|Hq].
    + rewrite (on_page_all _ _ HF), Hv2, Hv1. done.
    + by rewrite (on_page_none _ _ _ HF Hq), (Ho2 q Hq), Hv1.
Qed.
End update_proof.

(** ** Bits *)
Lemma po_idx_nonneg ip : 0 <= ip -> 0 <= po_idx ip.
Proof. intros H. unfold po_idx, po2idx. apply Z.shiftr_nonneg. apply Z.land_nonneg. by left. Qed.

Definition hits (sel : TBlock -> bool) (i : Z) (e : Z * TBlock) : bool := (po_idx e.1 =? i) && sel e.2.

Lemma upd_observed_bit v idx bits i : 0 <= idx -> 0 <= i -> Z.testbit (upd_observed v idx bits) i = Z.testbit bits i || ((idx =? i) && v).
Proof.
  intros H Hi. unfold upd_observed. destruct v; [|by rewrite andb_false_r, orb_false_r].
  rewrite Z.setbit_eqb by done. rewrite andb_true_r. apply orb_comm.
Qed.

Lemma obs_all_bits l : forall d i, Forall (fun e : Z * TBlock => 0 <= e.1) l -> 0 <= i ->
  Z.testbit (executed (obs_all l d)) i = Z.testbit (executed d) i || existsb (hits (fun _ => true) i) l /\
  Z.testbit (brind_target (obs_all l d)) i = Z.testbit (brind_target d) i || existsb (hits Tcache.is_brind_target i) l /\
  Z.testbit (segment_entry (obs_all l d)) i = Z.testbit (segment_entry d) i || existsb (hits Tcache.is_segment_entry i) l.
Proof.
  induction l as [|[ip t] l IH]; intros d i HF Hi; [cbn; by rewrite !orb_false_r|].
  apply Forall_cons in HF as [H0 HF]. cbn in H0.
  change (obs_all ((ip, t) :: l) d) with (obs_all l (observe ip t d)). cbn [existsb]. destruct (IH (observe ip t d) i HF Hi) as (-> & -> & ->).
  cbn [observe executed brind_target segment_entry]. rewrite !upd_observed_bit by (done || by apply po_idx_nonneg).
  unfold hits at 2 4 6. cbn [fst snd]. by rewrite !orb_assoc.
Qed.

(** The blocks of the cache. *)
Definition cached (tc : tcache) (ip : Z) (t : TBlock) : Prop :=
  exists tb, tcache_map tc !! ip = Some tb /\ tb_mem tc !! tb = Some t.

Lemma blocks_of_spec tc ips :
  (forall ip, ip ∈ ips -> exists t, cached tc ip t) ->
  exists l, blocks_of tc ips = POk l /\ length l = length ips /\ forall ip t, (ip, t) ∈ l <-> ip ∈ ips /\ cached tc ip t.
Proof.
  induction ips as [|ip ips IH]; intros H; cbn [blocks_of].
  - exists []. split; [done|]. split; [done|]. intros ip t. split; [by intros ?%not_elem_of_nil|by intros [?%not_elem_of_nil _]].
  - destruct (H ip) as (t & tb & Hm & Ht); [by apply list_elem_of_here|]. rewrite Hm. cbn [pderef mbind pres_bind]. rewrite Ht.
    cbn [pderef mbind pres_bind]. destruct IH as (l & -> & Hlen & Hl); [intros q Hq; apply H; by apply list_elem_of_further|].
    exists ((ip, t) :: l). split; [done|]. split; [cbn; by rewrite Hlen|]. intros q u. rewrite !elem_of_cons, Hl. split.
    + intros [[= -> ->]|[? ?]]; [|auto]. split; [by left|]. by exists tb.
    + intros [[->|?] Hc]; [left|auto]. destruct Hc as (tb' & Hm' & Ht'). f_equal. congruence.
Qed.

Lemma map_order_spec tc ip : ip ∈ map_order tc <-> is_Some (tcache_map tc !! ip).
Proof.
  unfold map_order. rewrite merge_sort_Permutation. change (map fst) with (fmap (M := list) (@fst Z Z)).
  rewrite list_elem_of_fmap. split.
  - intros ([k v] & -> & Hk%elem_of_map_to_list). cbn. rewrite Hk. eauto.
  - intros [v Hv]. exists (ip, v). by rewrite elem_of_map_to_list.
Qed.

(** C29 [UpdateProfile] adds the blocks of the translation cache to the
    profile and nothing else: a bit is set afterwards when it was set before
    or when a cached block of that page and offset has the property.  The
    file must have room and the key read behind the end of the map must not
    belong to a page of the cache. *)
Theorem UpdateProfile_records end_key tc p h :
  prof_inv p h -> has_room (length (map_order tc)) p h ->
  (forall ip tb, tcache_map tc !! ip = Some tb -> 0 <= ip /\ page_no ip <> page_no end_key /\ is_Some (tb_mem tc !! tb)) ->
  exists p', UpdateProfile end_key tc p = LRet p' /\
    forall pno i, 0 <= i ->
      let d := page_view p pno in let d' := page_view p' pno in
      let seen sel := exists ip t, cached tc ip t /\ page_no ip = pno /\ po_idx ip = i /\ sel t = true in
      (Z.testbit (executed d') i = true <-> Z.testbit (executed d) i = true \/ seen (fun _ => true)) /\
      (Z.testbit (brind_target d') i = true <-> Z.testbit (brind_target d) i = true \/ seen Tcache.is_brind_target) /\
      (Z.testbit (segment_entry d') i = true <-> Z.testbit (segment_entry d) i = true \/ seen Tcache.is_segment_entry).
Proof.
  intros I Hroom Htc.
  destruct (blocks_of_spec tc (map_order tc)) as (l & Hl & Hlen & Hin).
  { intros ip [tb Hm]%map_order_spec. destruct (Htc ip tb Hm) as (_ & _ & [t Ht]). exists t, tb. done. }
  assert (Hc : forall ip t, (ip, t) ∈ l <-> cached tc ip t).
  { intros ip t. rewrite Hin. split; [by intros [_ ?]|]. intros Hc. split; [|done].
    apply map_order_spec. destruct Hc as (tb & -> & _). eauto. }
  assert (HE : Forall (fun e => 0 <= e.1 /\ page_no e.1 <> page_no end_key) l).
  { apply Forall_forall. intros [ip t] (tb & Hm & _)%Hc. by destruct (Htc ip tb Hm) as (? & ? & _). }
  destruct (update_loop_spec end_key (S (length l)) l p h) as (p' & h' & Eq & _ & Hv); [lia|done|by rewrite Hlen| |].
  { eapply Forall_impl; [exact HE|]. by intros e [_ ?]. }
  exists p'. unfold UpdateProfile. rewrite Hl. split; [exact Eq|]. intros pno i Hi. cbn zeta. rewrite Hv.
  assert (Hp : Forall (fun e : Z * TBlock => 0 <= e.1) (on_page pno l)).
  { apply Forall_forall. intros e [_ He]%list_elem_of_filter. rewrite Forall_forall in HE. by apply HE. }
  destruct (obs_all_bits (on_page pno l) (page_view p pno) i Hp Hi) as (-> & -> & ->).
  assert (Hseen : forall sel, existsb (hits sel i) (on_page pno l) = true <->
    exists ip t, cached tc ip t /\ page_no ip = pno /\ po_idx ip = i /\ sel t = true).
  { intros sel. rewrite existsb_exists. split.
    - intros ([ip t] & Hx%list_elem_of_In & [Hpo%Z.eqb_eq Hs]%andb_true_iff).
      apply list_elem_of_filter in Hx as [Hpg Hx%Hc]. exists ip, t. auto.
    - intros (ip & t & Hcd & Hpg & Hpo & Hs). exists (ip, t). split.
      + apply list_elem_of_In, list_elem_of_filter. split; [done|by apply Hc].
      + apply andb_true_iff. split; [by apply Z.eqb_eq|done]. }
  rewrite !orb_true_iff, !Hseen. done.
Qed.

Definition demo_header : FileHeader := mkFH [] 0 ∅.
Definition demo_prof : ElfProfile := mkEP ∅ (Some demo_header) (64 * 1024 * 1024).
Definition demo_cache : tcache :=
  mkTC null_l1 null_brind {[0x10074 := 0x800000]} (tb_pool demo_tc) (code_pool demo_tc) []
       {[0x800000 := mkTB 0x900000 64 0x10074 true false]}.

Lemma demo_prof_inv : prof_inv demo_prof demo_header.
Proof. constructor; cbn; [done|lia| |]; intros *; rewrite lookup_empty; done. Qed.

Lemma UpdateProfile_records_witness :
  exists p', UpdateProfile 0 demo_cache demo_prof = LRet p' /\ Z.testbit (brind_target (page_view p' 0x10)) 29 = true.
Proof.
  destruct (UpdateProfile_records 0 demo_cache demo_prof demo_header demo_prof_inv) as (p' & Eq & Hb).
  - assert (length (map_order demo_cache) = 1%nat) as -> by (vm_compute; reflexivity). split; vm_compute; congruence.
  - intros ip tb. cbn [demo_cache tcache_map tb_mem]. intros [<- <-]%lookup_singleton_Some.
    split; [lia|]. split; [vm_compute; discriminate|]. by rewrite lookup_singleton_eq.
  - exists p'. split; [exact Eq|]. destruct (Hb 0x10 29 ltac:(lia)) as (_ & H & _). apply H. right.
    exists 0x10074, (mkTB 0x900000 64 0x10074 true false). split; [|split; [reflexivity|split; reflexivity]].
    exists 0x800000. cbn [demo_cache tcache_map tb_mem]. by rewrite !lookup_singleton_eq.
Defined.
