(* ===== verification/FsManager.v ===== *)
(** * The file-system manager (src/dbt/util/fsmanager.cpp, fsmanager.h)

    A thread of its own opens the cache files: clients hand it a task through
    [SendTask] and wait until it has run, [Destroy] ends it.  The threads share
    two mutexes, a condition variable and the task; they are modelled as a step
    relation whose steps are the critical sections, with any number of clients
    (client [i] sends task [i] once) and one call of [Destroy].  A thread in
    [cv.wait] is one of the waiting threads until it is notified, or wakes up
    spuriously. *)

From stdpp Require Import base tactics numbers list relations strings.
From S2P Require Import Prelude Common ObjProf.

(** ** Threads *)
Inductive thr := TWorker | TClient (i : nat) | TDestroy.
(** Where a thread is: the worker's loop, [SendTask], [Destroy]. *)
Inductive wpc := WStart | WCheck | WWait | WReacq | WHave | WNotify | WDone.
Inductive cpc := CIdle | CLocked | CSet | CNotify | CLock2 | CCheck | CWait | CReacq | CDone.
Inductive dpc := DIdle | DLocked | DSet | DNotify | DDone.

#[export] Instance wpc_eq_dec : EqDecision wpc. Proof. solve_decision. Defined.
#[export] Instance cpc_eq_dec : EqDecision cpc. Proof. solve_decision. Defined.

(** [g_fsmanager], the threads, and the tasks that have run, in order. *)
Record fs := mkFs {
  rqmtx : option thr; cvmtx : option thr; task : option nat; joined : bool;
  w_pc : wpc; c_pc : nat -> cpc; d_pc : dpc; ran : list nat }.
Definition upd (i : nat) (p : cpc) (f : nat -> cpc) : nat -> cpc := fun j => if decide (j = i) then p else f j.
Definition set_rq (o : option thr) (s : fs) : fs := mkFs o (cvmtx s) (task s) (joined s) (w_pc s) (c_pc s) (d_pc s) (ran s).
Definition set_cv (o : option thr) (s : fs) : fs := mkFs (rqmtx s) o (task s) (joined s) (w_pc s) (c_pc s) (d_pc s) (ran s).
Definition set_task (o : option nat) (s : fs) : fs := mkFs (rqmtx s) (cvmtx s) o (joined s) (w_pc s) (c_pc s) (d_pc s) (ran s).
Definition set_joined (b : bool) (s : fs) : fs := mkFs (rqmtx s) (cvmtx s) (task s) b (w_pc s) (c_pc s) (d_pc s) (ran s).
Definition set_w (p : wpc) (s : fs) : fs := mkFs (rqmtx s) (cvmtx s) (task s) (joined s) p (c_pc s) (d_pc s) (ran s).
Definition set_c (i : nat) (p : cpc) (s : fs) : fs := mkFs (rqmtx s) (cvmtx s) (task s) (joined s) (w_pc s) (upd i p (c_pc s)) (d_pc s) (ran s).
Definition set_d (p : dpc) (s : fs) : fs := mkFs (rqmtx s) (cvmtx s) (task s) (joined s) (w_pc s) (c_pc s) p (ran s).
Definition add_ran (i : nat) (s : fs) : fs := mkFs (rqmtx s) (cvmtx s) (task s) (joined s) (w_pc s) (c_pc s) (d_pc s) (ran s ++ [i]).
Definition fs_init : fs := mkFs None None None false WStart (fun _ => CIdle) DIdle [].

(** [cv.notify_one()] wakes some waiting thread, when there is one. *)
Inductive notify_one : fs -> fs -> Prop :=
| N_worker s : w_pc s = WWait -> notify_one s (set_w WReacq s)
| N_client i s : c_pc s i = CWait -> notify_one s (set_c i CReacq s)
| N_none s : w_pc s <> WWait -> (forall i, c_pc s i <> CWait) -> notify_one s s.

(** The condition of the worker's [wait]. *)
Definition has_work (s : fs) : Prop := task s <> None \/ joined s = true.

(** ** Steps of the worker thread ([Init]) *)
Inductive worker_step : fs -> fs -> Prop :=
| W_lock s : w_pc s = WStart -> cvmtx s = None -> worker_step s (set_w WCheck (set_cv (Some TWorker) s))
| W_pass s : w_pc s = WCheck -> has_work s -> worker_step s (set_w WHave s)
| W_wait s : w_pc s = WCheck -> ~ has_work s -> worker_step s (set_w WWait (set_cv None s))
| W_reacq s : w_pc s = WReacq -> cvmtx s = None -> worker_step s (set_w WCheck (set_cv (Some TWorker) s))
| W_return s : w_pc s = WHave -> joined s = true -> worker_step s (set_w WDone (set_cv None s))
| W_run i s : w_pc s = WHave -> joined s = false -> task s = Some i -> worker_step s (set_w WNotify (set_cv None (set_task None (add_ran i s))))
| W_notify s s1 : w_pc s = WNotify -> notify_one s s1 -> worker_step s (set_w WStart s1).

(** ** Steps of [SendTask] *)
Inductive client_step (i : nat) : fs -> fs -> Prop :=
| C_rq s : c_pc s i = CIdle -> rqmtx s = None -> client_step i s (set_c i CLocked (set_rq (Some (TClient i)) s))
| C_cv s : c_pc s i = CLocked -> cvmtx s = None -> client_step i s (set_c i CSet (set_cv (Some (TClient i)) s))
| C_set s : c_pc s i = CSet -> client_step i s (set_c i CNotify (set_cv None (set_task (Some i) s)))
| C_notify s s1 : c_pc s i = CNotify -> notify_one s s1 -> client_step i s (set_c i CLock2 s1)
| C_lock2 s : c_pc s i = CLock2 -> cvmtx s = None -> client_step i s (set_c i CCheck (set_cv (Some (TClient i)) s))
| C_wait s : c_pc s i = CCheck -> task s <> None -> client_step i s (set_c i CWait (set_cv None s))
| C_reacq s : c_pc s i = CReacq -> cvmtx s = None -> client_step i s (set_c i CCheck (set_cv (Some (TClient i)) s))
| C_return s : c_pc s i = CCheck -> task s = None -> client_step i s (set_c i CDone (set_rq None (set_cv None s))).

(** ** Steps of [Destroy] *)
Inductive destroy_step : fs -> fs -> Prop :=
| D_rq s : d_pc s = DIdle -> rqmtx s = None -> destroy_step s (set_d DLocked (set_rq (Some TDestroy) s))
| D_cv s : d_pc s = DLocked -> cvmtx s = None -> destroy_step s (set_d DSet (set_cv (Some TDestroy) s))
| D_join s : d_pc s = DSet -> destroy_step s (set_d DNotify (set_joined true s))
| D_notify s s1 : d_pc s = DNotify -> notify_one s s1 -> destroy_step s (set_d DDone (set_rq None (set_cv None s1))).

Definition step (s s' : fs) : Prop := worker_step s s' \/ (exists i, client_step i s s') \/ destroy_step s s'.
(** Waking up without being notified. *)
Inductive spurious : fs -> fs -> Prop :=
| Sp_worker s : w_pc s = WWait -> spurious s (set_w WReacq s)
| Sp_client i s : c_pc s i = CWait -> spurious s (set_c i CReacq s).
Definition any_step (s s' : fs) : Prop := step s s' \/ spurious s s'.
Definition reachable (s : fs) : Prop := rtc any_step fs_init s.

(** ** The invariant *)
(** Threads that hold the request mutex, and those that hold the other one. *)
Definition c_active (p : cpc) : bool := match p with CIdle | CDone => false | _ => true end.
Definition d_active (p : dpc) : bool := match p with DIdle | DDone => false | _ => true end.
Definition w_holds (p : wpc) : bool := match p with WCheck | WHave => true | _ => false end.
Definition c_holds (p : cpc) : bool := match p with CSet | CCheck => true | _ => false end.
Definition d_holds (p : dpc) : bool := match p with DSet | DNotify => true | _ => false end.
(** The client has handed its task over and not returned. *)
Definition c_sent (p : cpc) : bool := match p with CNotify | CLock2 | CCheck | CWait | CReacq => true | _ => false end.
Definition c_fresh (p : cpc) : bool := match p with CIdle | CLocked | CSet => true | _ => false end.
Definition d_joined (p : dpc) : bool := match p with DNotify | DDone => true | _ => false end.

Record fs_inv (s : fs) : Prop := {
  i_rqc i : c_active (c_pc s i) = true -> rqmtx s = Some (TClient i);
  i_rqc' i : rqmtx s = Some (TClient i) -> c_active (c_pc s i) = true;
  i_rqd : d_active (d_pc s) = true -> rqmtx s = Some TDestroy;
  i_cvw : w_holds (w_pc s) = true -> cvmtx s = Some TWorker;
  i_cvc i : c_holds (c_pc s i) = true -> cvmtx s = Some (TClient i);
  i_cvd : d_holds (d_pc s) = true -> cvmtx s = Some TDestroy;
  i_cv o : cvmtx s = Some o ->
    match o with TWorker => w_holds (w_pc s) | TClient i => c_holds (c_pc s i) | TDestroy => d_holds (d_pc s) end = true;
  i_task i : task s = Some i -> c_sent (c_pc s i) = true /\ i ∉ ran s;
  i_sent i : c_sent (c_pc s i) = true -> task s = Some i \/ (task s = None /\ i ∈ ran s);
  i_done i : c_pc s i = CDone -> i ∈ ran s;
  i_fresh i : c_fresh (c_pc s i) = true -> i ∉ ran s;
  i_nodup : NoDup (ran s);
  i_have : w_pc s = WHave -> has_work s;
  i_wwait : w_pc s = WWait -> (task s = None /\ joined s = false) \/ (exists i, c_pc s i = CNotify) \/ d_pc s = DNotify;
  i_cwait i : c_pc s i = CWait -> task s <> None \/ w_pc s = WNotify;
  i_joined : joined s = d_joined (d_pc s);
  i_wdone : w_pc s = WDone -> joined s = true }.

Lemma fs_inv_init : fs_inv fs_init.
Proof. constructor; cbn; try done; try set_solver; try apply NoDup_nil_2; auto. Qed.

(** Only the client that holds the request mutex is past its entry. *)
Lemma inv_client_uniq s i j : fs_inv s -> c_active (c_pc s i) = true -> c_active (c_pc s j) = true -> i = j.
Proof. intros I Hi Hj. pose proof (i_rqc s I i Hi). pose proof (i_rqc s I j Hj). congruence. Qed.
Lemma inv_idle s i j : fs_inv s -> c_active (c_pc s i) = true -> j <> i -> c_pc s j = CIdle \/ c_pc s j = CDone.
Proof.
  intros I Hi Hj. destruct (c_active (c_pc s j)) eqn:A; [by pose proof (inv_client_uniq s i j I Hi A)|].
  destruct (c_pc s j); auto; discriminate.
Qed.

(** Whom [notify_one] wakes in each of the three places it is called. *)
Lemma notify_client s s1 i : fs_inv s -> c_pc s i = CNotify -> notify_one s s1 ->
  (w_pc s = WWait /\ s1 = set_w WReacq s) \/ (w_pc s <> WWait /\ s1 = s).
Proof.
  intros I Hi N. inversion N; subst; auto.
  assert (i0 = i) by (eapply inv_client_uniq; eauto; rewrite ?H, ?Hi; done). subst. congruence.
Qed.
Lemma notify_destroy s s1 : fs_inv s -> d_pc s = DNotify -> notify_one s s1 ->
  (w_pc s = WWait /\ s1 = set_w WReacq s) \/ (w_pc s <> WWait /\ s1 = s).
Proof.
  intros I Hd N. inversion N; subst; auto.
  pose proof (i_rqd s I). pose proof (i_rqc s I i). rewrite H in H1. rewrite Hd in H0. cbn in *. naive_solver.
Qed.
Lemma notify_worker s s1 : w_pc s = WNotify -> notify_one s s1 ->
  (exists i, c_pc s i = CWait /\ s1 = set_c i CReacq s) \/ ((forall i, c_pc s i <> CWait) /\ s1 = s).
Proof. intros Hw N. inversion N; subst; eauto; congruence. Qed.

Ltac fs_norm := repeat match goal with
  | H : ?x = ?x -> _ |- _ => specialize (H eq_refl)
  | H : false = true -> _ |- _ => clear H
  | H : ?x <> ?x -> _ |- _ => clear H
  | H : ?a = ?b -> _, H' : ?a = ?b |- _ => specialize (H H')
  | H : _ /\ _ |- _ => destruct H
  | H : Some _ = Some _ |- _ => injection H as H; subst
  | H : None = Some _ -> _ |- _ => clear H
  | H : Some _ = None -> _ |- _ => clear H
  | H : ?x = ?x |- _ => clear H
  end.
(** The facts about one client. *)
Ltac fs_at I i :=
  let r := fresh "R" in
  pose proof (i_rqc _ I i); pose proof (i_rqc' _ I i); pose proof (i_cvc _ I i); pose proof (i_cv _ I (TClient i));
  pose proof (i_task _ I i); pose proof (i_sent _ I i); pose proof (i_done _ I i); pose proof (i_fresh _ I i);
  pose proof (i_cwait _ I i).
Ltac fs_glob I :=
  pose proof (i_rqd _ I); pose proof (i_cvw _ I); pose proof (i_cvd _ I); pose proof (i_cv _ I TWorker);
  pose proof (i_cv _ I TDestroy); pose proof (i_nodup _ I); pose proof (i_have _ I); pose proof (i_wwait _ I);
  pose proof (i_joined _ I); pose proof (i_wdone _ I).
Ltac fs_simpl := unfold has_work, upd in *; cbn in *; repeat (case_decide; subst); cbn in *.
Ltac fs_rw := repeat match goal with
  | H : w_pc _ = _ |- _ => rewrite H in *; clear H
  | H : d_pc _ = _ |- _ => rewrite H in *; clear H
  | H : c_pc _ _ = _ |- _ => rewrite H in *; clear H end.
Ltac fs_auto := fs_rw; fs_simpl; fs_norm; try congruence; try (intuition (congruence || eauto; fail)).
Ltac fs_fields I := constructor; intros; try match goal with o : thr |- _ => destruct o as [|?i|] end;
  match goal with
  | i : nat, k : nat |- _ => fs_at I i; fs_at I k
  | i : nat |- _ => fs_at I i
  | |- _ => idtac end; fs_glob I.
Ltac fs_solve := cbn [rqmtx cvmtx task joined w_pc c_pc d_pc ran set_rq set_cv set_task set_joined set_w set_c set_d add_ran] in *; fs_auto.
Ltac fs_destr := match goal with
  | H : context [c_pc ?s ?i] |- _ => destruct (c_pc s i) eqn:? end.
(** The state a waiting worker is in, when another client moves. *)
Lemma wwait_upd s i p :
  (task s = None /\ joined s = false) \/ (exists k, c_pc s k = CNotify) \/ d_pc s = DNotify -> c_pc s i <> CNotify ->
  (task s = None /\ joined s = false) \/ (exists k, upd i p (c_pc s) k = CNotify) \/ d_pc s = DNotify.
Proof.
  intros [?|[[k Hk]|?]] Hi; auto. right; left. exists k. unfold upd. rewrite decide_False; congruence.
Qed.
Ltac fs_wwait I := try match goal with
  | H : c_pc ?s ?i = _, W : w_pc _ = WWait |- _ \/ (exists k, c_pc _ k = CNotify) \/ _ =>
      apply (wwait_upd s i _ (i_wwait s I W)); congruence end.

Lemma worker_step_inv s s' : fs_inv s -> worker_step s s' -> fs_inv s'.
Proof.
  intros I St. destruct St; try apply (notify_worker _ _ H) in H0 as [(i&Hi&->)|(?&->)].
  all: fs_fields I.
  all: try (exfalso; match goal with N : forall j, c_pc ?s j <> CWait, H : c_pc _ ?j = CWait |- _ => exact (N j H) end).
  all: try (fs_solve; fail).
  all: fs_solve.
  - left. destruct (task s), (joined s); naive_solver.
  - rewrite elem_of_app, list_elem_of_singleton. naive_solver.
  - rewrite elem_of_app. auto.
  - rewrite elem_of_app, list_elem_of_singleton. intros [?|<-]; [auto|].
    match goal with H : c_sent _ = true |- _ => revert H end. destruct (c_pc s i0); cbn in *; congruence.
  - apply NoDup_app. split_and!; [done| |apply NoDup_singleton]. intros x Hx. rewrite list_elem_of_singleton. by intros ->.
  - match goal with H : c_pc s _ = CWait, R : rqmtx s = _ |- _ =>
      pose proof (i_rqc s I _ (eq_trans (f_equal c_active H) eq_refl)) end. congruence.
Qed.
Lemma client_step_inv i s s' : fs_inv s -> client_step i s s' -> fs_inv s'.
Proof.
  intros I St. destruct St; try apply (notify_client _ _ _ I H) in H0 as [(?&->)|(?&->)].
  all: fs_fields I; cbn [w_pc set_c set_rq set_cv set_task set_w] in *; fs_wwait I.
  all: try (fs_solve; fail).
  all: fs_solve.
  - destruct (c_pc s i0); cbn in *; fs_norm; congruence.
  - right; left. exists i. by rewrite decide_True.
Qed.
Lemma destroy_step_inv s s' : fs_inv s -> destroy_step s s' -> fs_inv s'.
Proof.
  intros I St. destruct St; try apply (notify_destroy _ _ I H) in H0 as [(?&->)|(?&->)].
  all: fs_fields I.
  all: try (fs_solve; fail).
Qed.
Lemma spurious_inv s s' : fs_inv s -> spurious s s' -> fs_inv s'.
Proof.
  intros I St. destruct St.
  all: fs_fields I; cbn [w_pc set_c set_w] in *; fs_wwait I.
  all: try (fs_solve; fail).
Qed.

Lemma any_step_inv s s' : fs_inv s -> any_step s s' -> fs_inv s'.
Proof.
  intros I [[?|[[i ?]|?]]|?]; eauto using worker_step_inv, client_step_inv, destroy_step_inv, spurious_inv.
Qed.
Lemma reachable_inv s : reachable s -> fs_inv s.
Proof.
  unfold reachable. intros R. revert s R. apply (rtc_ind_r fs_inv); [apply fs_inv_init|]. intros; eauto using any_step_inv.
Qed.

(** ** Progress *)
(** What is still to do while client [i] holds the request mutex. *)
Definition w_rank (t : bool) (p : wpc) : nat :=
  match p with WNotify => 10 | WStart => 3 | WReacq => 3 | WCheck => 2 | WHave => 1 | WWait => if t then 4 else 1 | WDone => 0 end.
Definition c_rank (p : cpc) : nat :=
  match p with CLocked => 42 | CSet => 41 | CNotify => 9 | CLock2 => 4 | CReacq => 3 | CCheck => 2 | CWait => 1 | _ => 0 end.
Definition fs_rank (i : nat) (s : fs) : nat :=
  w_rank (bool_decide (task s <> None)) (w_pc s) + c_rank (c_pc s i) + (if decide (task s = None) then 0 else 20).

Lemma no_destroy s i : fs_inv s -> c_active (c_pc s i) = true -> d_active (d_pc s) = false.
Proof.
  intros I A. destruct (d_active (d_pc s)) eqn:E; [|done].
  pose proof (i_rqd _ I E). pose proof (i_rqc _ I i A). congruence.
Qed.
(** Before the client hands its task over there is none. *)
Lemma no_task s i : fs_inv s -> c_pc s i = CSet -> task s = None.
Proof.
  intros I A. destruct (task s) as [k|] eqn:T; [|done]. destruct (i_task _ I k T) as [S _].
  assert (k = i) by (apply (inv_client_uniq s); [done| |by rewrite A]; by destruct (c_pc s k)).
  subst. by rewrite A in S.
Qed.

Lemma upd_eq i p f : upd i p f i = p.
Proof. unfold upd. by rewrite decide_True. Qed.
Ltac fs_rank_solve := unfold fs_rank; cbn; rewrite ?upd_eq;
  repeat match goal with H : task ?s = _ |- context [task ?s] => rewrite H end; cbn;
  repeat (case_decide; subst; try congruence); repeat match goal with H : w_pc _ = _ |- _ => rewrite H end;
  repeat match goal with H : c_pc _ _ = _ |- _ => rewrite H end; cbn;
  repeat (case_bool_decide; try congruence); cbn; try lia.
Lemma worker_decreases s s' i : fs_inv s -> joined s = false -> c_active (c_pc s i) = true -> worker_step s s' ->
  joined s' = false /\ c_active (c_pc s' i) = true /\ (fs_rank i s' < fs_rank i s)%nat.
Proof.
  intros I J A St. destruct St; try congruence.
  6: apply (notify_worker _ _ H) in H0 as [(k&Hk&->)|(N&->)];
    [assert (k = i) as -> by (apply (inv_client_uniq s); rewrite ?Hk; done)|].
  all: split_and!; cbn; auto; try (unfold upd; rewrite decide_True; done).
  all: fs_rank_solve.
  destruct H0. by left.
Qed.
Lemma own_decreases s s' i : fs_inv s -> joined s = false -> client_step i s s' ->
  joined s' = false /\ (c_pc s' i = CDone \/ (c_active (c_pc s i) = true -> c_active (c_pc s' i) = true /\ (fs_rank i s' < fs_rank i s)%nat)).
Proof.
  intros I J St. destruct St.
  3: pose proof (no_task s i I H).
  4: apply (notify_client _ _ _ I H) in H0 as [(?&->)|(?&->)].
  all: split; [done|]; cbn; unfold upd at 1; rewrite decide_True by done; auto; right; intros A; try (rewrite H in A; done).
  all: split; [unfold upd; by rewrite decide_True|].
  all: fs_rank_solve.
  destruct (w_pc s); cbn; lia.
Qed.

(** A client that holds the request mutex before [Destroy]: some thread can
    step, and each step comes nearer to its return. *)
Lemma client_decreases s s' i : fs_inv s -> joined s = false -> c_active (c_pc s i) = true -> step s s' ->
  joined s' = false /\ (c_pc s' i = CDone \/ (c_active (c_pc s' i) = true /\ (fs_rank i s' < fs_rank i s)%nat)).
Proof.
  intros I J A St. pose proof (no_destroy s i I A) as D.
  pose proof (i_joined s I) as Jd. rewrite J in Jd.
  destruct St as [St|[[j St]|St]].
  - destruct (worker_decreases s s' i I J A St); auto.
  - destruct (decide (j = i)) as [->|Hj].
    + destruct (own_decreases s s' i I J St); naive_solver.
    + destruct (inv_idle s i j I A Hj) as [E|E]; inversion St; subst; try congruence.
      pose proof (i_rqc _ I i A). congruence.
  - inversion St; subst; rewrite ?H in *; try discriminate. pose proof (i_rqc _ I i A). congruence.
Qed.
Lemma can_notify s i : fs_inv s -> c_active (c_pc s i) = true -> exists s', notify_one s s'.
Proof.
  intros I A. destruct (decide (w_pc s = WWait)) as [W|W]; [eauto using notify_one|].
  destruct (decide (c_pc s i = CWait)) as [C|C]; [eauto using notify_one|].
  exists s. apply N_none; [done|]. intros k K. apply C. rewrite <- K. f_equal.
  apply (inv_client_uniq s); rewrite ?K; done.
Qed.
Lemma worker_can_step s i : fs_inv s -> joined s = false -> c_active (c_pc s i) = true -> w_pc s <> WWait ->
  cvmtx s = None \/ cvmtx s = Some TWorker -> exists s', step s s'.
Proof.
  intros I J A N C. enough (exists s', worker_step s s') as [s' ?] by (exists s'; by left).
  pose proof (i_cvw s I). pose proof (i_cv s I TWorker). pose proof (i_wdone s I).
  destruct (w_pc s) eqn:E; cbn in *; try (assert (cvmtx s = None) by naive_solver; eauto using worker_step; fail); try congruence.
  - destruct (task s) eqn:T; [exists (set_w WHave s); constructor; [done|left; congruence]|].
    eexists; apply W_wait; [done|]. intros [?|?]; congruence.
  - destruct (i_have _ I E) as [T|T]; [|congruence]. destruct (task s) eqn:T'; [|congruence]. eauto using worker_step.
  - destruct (can_notify s i I A). eauto using worker_step.
  - rewrite H1 in J; done.
Qed.
Lemma client_can_step s i : fs_inv s -> c_active (c_pc s i) = true -> c_pc s i <> CWait ->
  cvmtx s = None \/ cvmtx s = Some (TClient i) -> exists s', step s s'.
Proof.
  intros I A N C. enough (exists s', client_step i s s') as [s' ?] by (exists s'; right; left; eauto).
  pose proof (i_cvc s I i). pose proof (i_cv s I (TClient i)) as K. cbn in K.
  destruct (c_pc s i) eqn:E; cbn in *; try (assert (cvmtx s = None) by naive_solver; eauto using client_step; fail); try congruence.
  - eauto using client_step.
  - assert (A' : c_active (c_pc s i) = true) by by rewrite E. destruct (can_notify s i I A'). eauto using client_step.
  - destruct (decide (task s = None)); eauto using client_step.
Qed.
Lemma client_progress s i : fs_inv s -> joined s = false -> c_active (c_pc s i) = true -> exists s', step s s'.
Proof.
  intros I J A. pose proof (no_destroy s i I A) as D.
  destruct (cvmtx s) as [[|k|]|] eqn:C.
  - apply (worker_can_step s i); auto. pose proof (i_cv s I _ C). by intros E; rewrite E in *.
  - pose proof (i_cv s I _ C) as K. cbn in K.
    assert (k = i) as -> by (apply (inv_client_uniq s); auto; by destruct (c_pc s k)).
    apply (client_can_step s i); auto. intros E; by rewrite E in K.
  - pose proof (i_cv s I _ C) as K. cbn in K. by destruct (d_pc s).
  - destruct (decide (c_pc s i = CWait)) as [W|W]; [|apply (client_can_step s i); auto].
    apply (worker_can_step s i); auto. intros E.
    pose proof (i_wwait s I E) as [[T _]|[[k K]|K]].
    + destruct (i_cwait s I i W); congruence.
    + assert (k = i) by (apply (inv_client_uniq s); rewrite ?K; done). congruence.
    + by rewrite K in D.
Qed.

(** Every run from [s] reaches a state in [P], however the threads are
    scheduled. *)
Inductive inevitable (P : fs -> Prop) (s : fs) : Prop :=
| Now : P s -> inevitable P s
| Later : (exists s', step s s') -> (forall s', step s s' -> inevitable P s') -> inevitable P s.

(** C30 [SendTask] completes: once a call holds the request mutex, and the
    manager is not destroyed, then however the worker and the clients are
    scheduled (and whatever the previous task left the worker doing) the call
    returns, its task having run.  No wakeup is lost and nothing deadlocks. *)
Theorem SendTask_returns s i : reachable s -> joined s = false -> c_active (c_pc s i) = true ->
  inevitable (fun s' => c_pc s' i = CDone /\ i ∈ ran s') s.
Proof.
  intros R%reachable_inv J A. remember (fs_rank i s) as n eqn:E. revert s E R J A.
  induction n as [n IH] using lt_wf_ind. intros s -> I J A. apply Later; [by apply (client_progress s i)|].
  intros s' St. destruct (client_decreases s s' i I J A St) as [J' [Hd|[A' L]]].
  - apply Now. split; [done|]. apply (i_done s'); [|done]. apply (any_step_inv s); [done|by left].
  - eapply IH; [exact L|done| |done|done]. apply (any_step_inv s); [done|by left].
Qed.

(** C31 [SendTask] returns only when its task has been run by the worker, and
    a task is run once, whatever wakes the threads up; the tasks run one at a
    time, only between a call and its return, so a client that is not inside
    [SendTask] cannot have a task pending. *)
Theorem SendTask_once s : reachable s ->
  NoDup (ran s) /\ (forall i, c_pc s i = CDone -> i ∈ ran s) /\ (forall i, c_fresh (c_pc s i) = true -> i ∉ ran s) /\
  (forall i, task s = Some i -> c_sent (c_pc s i) = true /\ rqmtx s = Some (TClient i) /\ i ∉ ran s).
Proof.
  intros I%reachable_inv. split_and!; [apply I|apply I|apply I|]. intros i T. destruct (i_task s I i T). split_and!; auto.
  apply (i_rqc s I). by destruct (c_pc s i).
Qed.

(** ** Witnesses *)
Definition demo_locked : fs := set_c 0 CLocked (set_rq (Some (TClient 0%nat)) fs_init).
Lemma demo_locked_reachable : reachable demo_locked.
Proof. apply rtc_once. left. right. left. exists 0%nat. by apply C_rq. Qed.

Lemma SendTask_returns_witness : inevitable (fun s' => c_pc s' 0%nat = CDone /\ 0%nat ∈ ran s') demo_locked.
Proof. apply (SendTask_returns demo_locked 0 demo_locked_reachable eq_refl). reflexivity. Defined.

Lemma SendTask_once_witness :
  NoDup (ran demo_locked) /\ (forall i, c_pc demo_locked i = CDone -> i ∈ ran demo_locked) /\
  (forall i, c_fresh (c_pc demo_locked i) = true -> i ∉ ran demo_locked) /\
  (forall i, task demo_locked = Some i ->
     c_sent (c_pc demo_locked i) = true /\ rqmtx demo_locked = Some (TClient i) /\ i ∉ ran demo_locked).
Proof. apply (SendTask_once demo_locked demo_locked_reachable). Defined.

(** ** After [Destroy] *)
(** The worker has returned and a client waits for its task. *)
Definition stranded (i : nat) (s : fs) : Prop :=
  w_pc s = WDone /\ c_pc s i = CWait /\ task s = Some i.
Lemma stranded_stays i s s' : reachable s -> stranded i s -> step s s' -> stranded i s'.
Proof.
  intros R%reachable_inv (W & C & T) St. assert (A : c_active (c_pc s i) = true) by by rewrite C.
  pose proof (no_destroy s i R A) as D. pose proof (i_rqc s R i A) as Rq. unfold stranded.
  destruct St as [St|[[j St]|St]].
  - inversion St; congruence.
  - destruct (decide (j = i)) as [->|Hj]; [inversion St; congruence|].
    destruct (inv_idle s i j R A Hj) as [E|E]; inversion St; congruence.
  - inversion St; subst; try congruence; match goal with H : d_pc s = _ |- _ => by rewrite H in D end.
Qed.
(** Such a state is reached: [SendTask] after [Destroy] hands over a task
    that nobody runs, and blocks. *)
Theorem SendTask_after_Destroy_blocks : exists s, reachable s /\ stranded 0 s.
Proof.
  unfold reachable. eexists. split.
  - do 3 (eapply rtc_l; [left; right; right; econstructor; reflexivity|]; cbn).
    eapply rtc_l; [left; right; right; eapply D_notify; [reflexivity|apply N_none; cbn; congruence]|].
    eapply rtc_l; [left; left; apply W_lock; reflexivity|].
    eapply rtc_l; [left; left; apply W_pass; [reflexivity|by right]|].
    eapply rtc_l; [left; left; apply W_return; reflexivity|].
    do 3 (eapply rtc_l; [left; right; left; exists 0%nat; econstructor; reflexivity|]).
    eapply rtc_l; [left; right; left; exists 0%nat; eapply C_notify;
      [reflexivity|apply N_none; [cbn; congruence|intros i; cbn; unfold upd; repeat case_decide; congruence]]|].
    eapply rtc_l; [left; right; left; exists 0%nat; apply C_lock2; reflexivity|].
    eapply rtc_l; [left; right; left; exists 0%nat; apply C_wait; [reflexivity|cbn; congruence]|].
    apply rtc_refl.
  - split_and!; reflexivity.
Qed.

(** ** Opening a cache file *)
Import objprof.
(** What the host answers to the calls of [Task_OpenCacheFile]. *)
Inductive open_res := Fd (fd : Z) | OpenErr (enoent : bool).
Inductive flock_res := Locked | WouldBlock | LockErr.
Record open_host := mkOH {
  h_open : bool -> open_res;         (* open with O_RDWR or O_RDONLY *)
  h_creat : option Z;                (* open with O_CREAT | O_EXCL *)
  h_flock : bool -> bool -> flock_res;
  h_unlock : bool;
  h_fstat : option Z;                (* st_size of the opened file *)
  h_ftruncate : bool;
  h_fmap : Z -> bool -> option Z }.     (* size, PROT_WRITE *)
(** The calls that leave something behind. *)
Inductive open_call := DoOpen (fd : Z) (wr : bool) | DoLock (fd : Z) (ex : bool) | DoUnlock (fd : Z) | DoClose (fd : Z)
| DoTruncate (fd size : Z) | DoMmap (fd size : Z) (wr : bool).

Definition GetFileSize (h : open_host) : pres Z := pderef (h_fstat h).
Definition xflock (h : open_host) (fd : Z) (ex nb : bool) : pres (bool * list open_call) :=
  match h_flock h ex nb with
  | WouldBlock => POk (false, [])
  | LockErr => PPanic
  | Locked => POk (true, [DoLock fd ex])
  end.
Definition xflock_unlock (h : open_host) (fd : Z) : pres (list open_call) := passert (h_unlock h);; POk [DoUnlock fd].

(** The common tail: map the file. *)
Definition open_map (h : open_host) (fd : Z) (fst : CacheState) (tr : list open_call)
  : pres ((option Z * CacheState) * list open_call) :=
  let writable := match fst with RDWR_OLD | RDWR_NEW => true | _ => false end in
  sz ← GetFileSize h;
  fmap ← pderef (h_fmap h sz writable);
  POk ((Some fmap, fst), tr ++ [DoMmap fd sz writable]).
Definition Task_OpenCacheFile (h : open_host) (size : Z) (maywrite : bool)
  : pres ((option Z * CacheState) * list open_call) :=
  match h_open h maywrite with
  | OpenErr enoent =>
      passert enoent;;
      if negb maywrite then POk ((None, NO_FILE), []) else
      match h_creat h with
      | None => POk ((None, NO_FILE), [])
      | Some fd =>
          '(_, tr) ← xflock h fd true false;
          passert (h_ftruncate h);;
          open_map h fd RDWR_NEW (DoOpen fd true :: tr ++ [DoTruncate fd size])
      end
  | Fd fd =>
      '(ok, tr) ← xflock h fd maywrite true;
      if negb ok then POk ((None, NO_FILE), [DoOpen fd maywrite; DoClose fd]) else
      sz ← GetFileSize h;
      if sz =? 0 then
        u ← xflock_unlock h fd; POk ((None, NO_FILE), DoOpen fd maywrite :: tr ++ u ++ [DoClose fd])
      else open_map h fd (if maywrite then RDWR_OLD else RDONLY) (DoOpen fd maywrite :: tr)
  end.

(** What a trace of calls leaves: the open files, with their locks. *)
Definition left_open (tr : list open_call) : list Z :=
  foldl (fun l c => match c with DoOpen fd _ => fd :: l | DoClose fd => filter (fun x => x <> fd) l | _ => l end) [] tr.
Definition left_locked (tr : list open_call) : list (Z * bool) :=
  foldl (fun l c => match c with DoLock fd ex => (fd, ex) :: l | DoUnlock fd => filter (fun x => x.1 <> fd) l | _ => l end) [] tr.

Definition CacheStateToStr (s : CacheState) : string :=
  match s with
  | NO_FILE => "no file available" | RDONLY => "readonly" | RDWR_OLD => "writable,old" | RDWR_NEW => "writable,new"
  end%string.

(** [CreateDumpFile], from what [open], [ftruncate] and [mmap] answer. *)
Definition CreateDumpFile (open_r : option Z) (truncated : bool) (mapped : option Z) (size : Z) : pres (Z * list open_call) :=
  fd ← pderef open_r;
  passert truncated;;
  fmap ← pderef mapped;
  POk (fmap, [DoOpen fd true; DoTruncate fd size; DoMmap fd size true; DoClose fd]).
Lemma CreateDumpFile_closes o t m size r tr : CreateDumpFile o t m size = POk (r, tr) -> m = Some r /\ left_open tr = [] /\ left_locked tr = [].
Proof.
  unfold CreateDumpFile, pderef, passert. repeat (case_match; cbn; try discriminate). intros [= <- <-]. cbn.
  by rewrite decide_False by congruence.
Qed.

(** [Task_OpenCacheFile] on every answer of the host: when it reports no
    file it maps nothing and leaves no descriptor open and no lock behind;
    otherwise exactly one file stays open, mapped with its size and locked
    exclusively just when the cache may be written, and only a file that was
    created here is reported new.  (A blocking [flock] does not answer
    [EWOULDBLOCK].) *)
Theorem OpenCacheFile_resources h size maywrite r st tr : h_flock h true false <> WouldBlock ->
  Task_OpenCacheFile h size maywrite = POk ((r, st), tr) ->
  match r with
  | None => st = NO_FILE /\ left_open tr = [] /\ left_locked tr = [] /\ forall fd sz wr, DoMmap fd sz wr ∉ tr
  | Some m =>
      exists fd sz, left_open tr = [fd] /\ left_locked tr = [(fd, maywrite)] /\ h_fstat h = Some sz /\ h_fmap h sz maywrite = Some m /\
        last tr = Some (DoMmap fd sz maywrite) /\
        st = match h_open h maywrite with OpenErr _ => RDWR_NEW | Fd _ => if maywrite then RDWR_OLD else RDONLY end /\
        (st = RDWR_NEW <-> DoTruncate fd size ∈ tr)
  end.
Proof.
  intros NB. unfold Task_OpenCacheFile, open_map, xflock, xflock_unlock, GetFileSize, pderef, passert.
  destruct maywrite; repeat (case_match; cbn; try discriminate); intros; simplify_eq; cbn.
  all: lazymatch goal with
    | |- exists _ _, _ => eexists _, _; split_and!; [reflexivity|reflexivity|reflexivity|eassumption|reflexivity|reflexivity|set_solver]
    | |- _ => rewrite ?decide_False by (cbn; congruence); split_and!; [reflexivity|reflexivity|reflexivity|set_solver] end.
Qed.

Definition demo_host : open_host :=
  mkOH (fun _ => OpenErr true) (Some 3) (fun _ _ => Locked) true (Some 4096) true (fun _ _ => Some 0x7f0000).
Lemma OpenCacheFile_resources_witness :
  Task_OpenCacheFile demo_host 4096 true =
    POk ((Some 0x7f0000, RDWR_NEW), [DoOpen 3 true; DoLock 3 true; DoTruncate 3 4096; DoMmap 3 4096 true]) /\
  left_locked [DoOpen 3 true; DoLock 3 true; DoTruncate 3 4096; DoMmap 3 4096 true] = [(3, true)].
Proof.
  split; [reflexivity|].
  destruct (OpenCacheFile_resources demo_host 4096 true (Some 0x7f0000) RDWR_NEW
    [DoOpen 3 true; DoLock 3 true; DoTruncate 3 4096; DoMmap 3 4096 true]) as (fd & sz & E & L & _); [discriminate|reflexivity|].
  injection E as <-. exact L.
Defined.
