(* ===== verification/UKernel.v ===== *)
(** * The user-mode kernel (src/dbt/ukernel.cpp, ukernel.h, ukernel_syscalls.h)

    Traps of the guest, its Linux system calls, the program break, loading an
    ELF file and the initial stack.  The host's system calls are a parameter:
    [host] answers a request with a result, the guest memory it leaves and its
    new state.  The methods are computations of the monad [KM]; they end in
    [KPanic] ([Panic], a failed assertion, a memory fault, which the signal
    handler turns into a panic) or [KUndef] where C++ gives no meaning.  The
    log calls and the file-system lock are left out.  The kernel's own accesses
    to guest memory respect the protection of the pages; those of translated
    code ([run]) see only which bytes are mapped. *)

From stdpp Require Import base tactics numbers list strings gmap pretty.
From S2P Require Import Prelude Common GuestState Tcache Execute Mmu.

Module ukernel.

(** ** Requests to the host

    Pointers are host addresses.  Results that a call stores through a pointer
    to a local variable are the values [sr_vals]. *)
Inductive sysreq :=
| SOpenat (dfd filename flags mode : Z)
| SClose (fd : Z)
| SLseek (fd off whence : Z)
| SRead (fd buf count : Z)
| SWrite (fd buf count : Z)
| SReadlinkat (dfd : Z) (path : string) (buf bufsiz : Z)
| SFstatat (fd statbuf : Z)
| SSetTidAddress
| SUname (name : Z)
| SGetuid | SGeteuid | SGetgid | SGetegid
| SSysinfo
| SMunmap (addr len : Z)
| SMprotect (addr len prot : Z)
| SPrlimit64 (pid resource : Z) (new_rlim : option (Z * Z))
| SGetrandom (buf count flags : Z)
| SStatx (dfd : Z) (path : string) (flags mask buffer : Z)
| SClockGettime (which_clock : Z)
| SGetcwd
| SReadlink (path : string)
| SRealpath (path : string)
| SSysconfClkTck
| SOpen (path : string)
| SPread (fd count off : Z)
| SReadNum
| SWriteNum (v : Z).

Record sysres := mkRes { sr_rc : Z; sr_errno : Z; sr_vals : list Z; sr_str : string; sr_bytes : list Z }.

(** ** System call numbers (src/dbt/ukernel_syscalls.h) *)
Definition syscall_no_1 : list (string * Z) :=
  [ ("io_setup", 0); ("io_destroy", 1); ("io_submit", 2); ("io_cancel", 3); ("setxattr", 5); ("lsetxattr", 6);
    ("fsetxattr", 7); ("getxattr", 8); ("lgetxattr", 9); ("fgetxattr", 10); ("listxattr", 11); ("llistxattr", 12);
    ("flistxattr", 13); ("removexattr", 14); ("lremovexattr", 15); ("fremovexattr", 16); ("getcwd", 17);
    ("lookup_dcookie", 18); ("eventfd2", 19); ("epoll_create1", 20); ("epoll_ctl", 21); ("epoll_pwait", 22);
    ("dup", 23); ("dup3", 24); ("fcntl64", 25); ("inotify_init1", 26); ("inotify_add_watch", 27);
    ("inotify_rm_watch", 28); ("ioctl", 29); ("ioprio_set", 30); ("ioprio_get", 31); ("flock", 32); ("mknodat", 33);
    ("mkdirat", 34); ("unlinkat", 35); ("symlinkat", 36); ("linkat", 37); ("umount2", 39); ("mount", 40);
    ("pivot_root", 41); ("nfsservctl", 42); ("statfs64", 43); ("fstatfs64", 44); ("truncate64", 45);
    ("ftruncate64", 46); ("fallocate", 47); ("faccessat", 48); ("chdir", 49); ("fchdir", 50); ("chroot", 51);
    ("fchmod", 52); ("fchmodat", 53); ("fchownat", 54); ("fchown", 55); ("openat", 56); ("close", 57);
    ("vhangup", 58); ("pipe2", 59); ("quotactl", 60); ("getdents64", 61); ("llseek", 62); ("read", 63);
    ("write", 64); ("readv", 65); ("writev", 66); ("pread64", 67); ("pwrite64", 68); ("preadv", 69); ("pwritev", 70);
    ("sendfile64", 71); ("signalfd4", 74); ("vmsplice", 75); ("splice", 76); ("tee", 77); ("readlinkat", 78);
    ("fstatat64", 79); ("fstat64", 80); ("sync", 81); ("fsync", 82); ("fdatasync", 83); ("sync_file_range", 84);
    ("timerfd_create", 85); ("acct", 89); ("capget", 90); ("capset", 91); ("personality", 92); ("exit", 93);
    ("exit_group", 94); ("waitid", 95); ("set_tid_address", 96); ("unshare", 97); ("set_robust_list", 99);
    ("get_robust_list", 100); ("getitimer", 102); ("setitimer", 103); ("kexec_load", 104); ("init_module", 105);
    ("delete_module", 106); ("timer_create", 107); ("timer_getoverrun", 109); ("timer_delete", 111); ("syslog", 116);
    ("ptrace", 117); ("sched_setparam", 118); ("sched_setscheduler", 119); ("sched_getscheduler", 120);
    ("sched_getparam", 121); ("sched_setaffinity", 122); ("sched_getaffinity", 123); ("sched_yield", 124);
    ("sched_get_priority_max", 125); ("sched_get_priority_min", 126); ("restart_syscall", 128); ("kill", 129);
    ("tkill", 130); ("tgkill", 131); ("sigaltstack", 132); ("rt_sigsuspend", 133); ("rt_sigaction", 134);
    ("rt_sigprocmask", 135); ("rt_sigpending", 136); ("rt_sigqueueinfo", 138); ("rt_sigreturn", 139);
    ("setpriority", 140); ("getpriority", 141); ("reboot", 142); ("setregid", 143); ("setgid", 144);
    ("setreuid", 145); ("setuid", 146); ("setresuid", 147); ("getresuid", 148); ("setresgid", 149);
    ("getresgid", 150); ("setfsuid", 151); ("setfsgid", 152); ("times", 153); ("setpgid", 154); ("getpgid", 155);
    ("getsid", 156); ("setsid", 157); ("getgroups", 158); ("setgroups", 159); ("uname", 160); ("sethostname", 161);
    ("setdomainname", 162); ("getrlimit", 163); ("setrlimit", 164); ("getrusage", 165) ].
Definition syscall_no_2 : list (string * Z) :=
  [ ("umask", 166); ("prctl", 167); ("getcpu", 168); ("getpid", 172); ("getppid", 173); ("getuid", 174);
    ("geteuid", 175); ("getgid", 176); ("getegid", 177); ("gettid", 178); ("sysinfo", 179); ("mq_open", 180);
    ("mq_unlink", 181); ("mq_notify", 184); ("mq_getsetattr", 185); ("msgget", 186); ("msgctl", 187);
    ("msgrcv", 188); ("msgsnd", 189); ("semget", 190); ("semctl", 191); ("semop", 193); ("shmget", 194);
    ("shmctl", 195); ("shmat", 196); ("shmdt", 197); ("socket", 198); ("socketpair", 199); ("bind", 200);
    ("listen", 201); ("accept", 202); ("connect", 203); ("getsockname", 204); ("getpeername", 205); ("sendto", 206);
    ("recvfrom", 207); ("setsockopt", 208); ("getsockopt", 209); ("shutdown", 210); ("sendmsg", 211);
    ("recvmsg", 212); ("readahead", 213); ("brk", 214); ("munmap", 215); ("mremap", 216); ("add_key", 217);
    ("request_key", 218); ("keyctl", 219); ("clone", 220); ("execve", 221); ("mmap2", 222); ("fadvise64_64", 223);
    ("swapon", 224); ("swapoff", 225); ("mprotect", 226); ("msync", 227); ("mlock", 228); ("munlock", 229);
    ("mlockall", 230); ("munlockall", 231); ("mincore", 232); ("madvise", 233); ("remap_file_pages", 234);
    ("mbind", 235); ("get_mempolicy", 236); ("set_mempolicy", 237); ("migrate_pages", 238); ("move_pages", 239);
    ("rt_tgsigqueueinfo", 240); ("perf_event_open", 241); ("accept4", 242); ("prlimit64", 261);
    ("fanotify_init", 262); ("fanotify_mark", 263); ("name_to_handle_at", 264); ("open_by_handle_at", 265);
    ("syncfs", 267); ("setns", 268); ("sendmmsg", 269); ("process_vm_readv", 270); ("process_vm_writev", 271);
    ("kcmp", 272); ("finit_module", 273); ("sched_setattr", 274); ("sched_getattr", 275); ("renameat2", 276);
    ("seccomp", 277); ("getrandom", 278); ("memfd_create", 279); ("bpf", 280); ("execveat", 281);
    ("userfaultfd", 282); ("membarrier", 283); ("mlock2", 284); ("copy_file_range", 285); ("preadv2", 286);
    ("pwritev2", 287); ("pkey_mprotect", 288); ("pkey_alloc", 289); ("pkey_free", 290); ("statx", 291);
    ("rseq", 293); ("kexec_file_load", 294); ("clock_gettime64", 403); ("clock_settime64", 404);
    ("clock_adjtime64", 405); ("clock_getres_time64", 406); ("clock_nanosleep_time64", 407);
    ("timer_gettime64", 408); ("timer_settime64", 409); ("timerfd_gettime64", 410); ("timerfd_settime64", 411);
    ("utimensat_time64", 412); ("pselect6_time64", 413); ("ppoll_time64", 414); ("io_pgetevents_time64", 416);
    ("recvmmsg_time64", 417); ("mq_timedsend_time64", 418); ("mq_timedreceive_time64", 419);
    ("semtimedop_time64", 420); ("rt_sigtimedwait_time64", 421); ("futex_time64", 422);
    ("sched_rr_get_interval_time64", 423); ("pidfd_send_signal", 424); ("io_uring_setup", 425);
    ("io_uring_enter", 426); ("io_uring_register", 427); ("open_tree", 428); ("move_mount", 429); ("fsopen", 430);
    ("fsconfig", 431); ("fsmount", 432); ("fspick", 433); ("pidfd_open", 434); ("clone3", 435); ("close_range", 436);
    ("openat2", 437); ("pidfd_getfd", 438); ("faccessat2", 439); ("process_madvise", 440); ("epoll_pwait2", 441);
    ("mount_setattr", 442); ("landlock_create_ruleset", 444); ("landlock_add_rule", 445);
    ("landlock_restrict_self", 446); ("riscv_flush_icache", 244 + 15) ].
Definition RV32_LINUX_SYSCALL_NO : list (string * Z) := syscall_no_1 ++ syscall_no_2.
Definition RV32_LINUX_SYSCALL_NO_END : Z := 447.

(** [SyscallID::linux_##name]. *)
Definition SyscallID (name : string) : option Z :=
  snd <$> (snd <$> list_find (fun p => p.1 = name) RV32_LINUX_SYSCALL_NO).

(** ** State *)
Record Elf32_Ehdr := mkEhdr {
  e_ident : list Z; e_type : Z; e_machine : Z; e_entry : Z; e_phoff : Z; e_phnum : Z }.
Record Elf32_Phdr := mkPhdr {
  p_type : Z; p_offset : Z; p_vaddr : Z; p_filesz : Z; p_memsz : Z; p_flags : Z }.
Record ElfImage := mkElf {
  ehdr : Elf32_Ehdr; load_addr : Z; stack_start : Z; entry : Z; elf_brk : Z }.

Inductive kres (A : Type) := KRet (a : A) | KPanic | KUndef | KFuel.
Arguments KRet {_} _.
Arguments KPanic {_}.
Arguments KUndef {_}.
Arguments KFuel {_}.

(** ** Page protection *)
Definition PROT_READ : Z := 1.
Definition PROT_WRITE : Z := 2.
Definition PROT_EXEC : Z := 4.
Definition PROT_RW : Z := Z.lor PROT_READ PROT_WRITE.
Definition has (flags f : Z) : bool := negb (Z.land flags f =? 0).

(** The pages of [len] bytes at [a] get the protection [prot]. *)
Definition protect (p : gmap Z Z) (a len prot : Z) : gmap Z Z :=
  foldr (fun g => <[g := prot]>) p (seqZ (a / 4096) ((len + 4095) / 4096)).
(** Every byte of [n] at [a] lies in a page with one of the rights [f]. *)
Definition may (p : gmap Z Z) (f x : Z) : bool :=
  match p !! (x / 4096) with Some prot => has prot f | None => true end.
Definition may_all (n : nat) (p : gmap Z Z) (f a : Z) : bool := forallb (may p f) (seqZ a (Z.of_nat n)).
(** On the host a page that may be written or executed may be read. *)
Definition PROT_ANY : Z := Z.lor PROT_RW PROT_EXEC.

Section kernel.
Context {W : Type} (host : sysreq -> mem -> W -> sysres * mem * W).
(** The host's [mmap] and [munmap] as [mmu] calls them, and the guest memory
    after a mapping was made; [errno] after one failed. *)
Context (host_mmap : nat -> Z -> Z -> Z -> Z -> Z -> Z -> option Z) (host_munmap : nat -> Z -> Z -> bool).
Context (map_mem : mem -> Z -> Z -> Z -> Z -> Z -> Z -> mem) (mmap_errno : mmu.state -> Z).

(** [process], the main [uthread] with its [CPUState], and [errno].
    [k_prot] is the protection the host gave each guest page it mapped or
    protected last; no entry is no restriction beyond being mapped. *)
Record kst := mkK {
  k_cpu : CPUState; k_mem : mem; k_mmu : mmu.state; k_prot : gmap Z Z; k_world : W; k_errno : Z;
  fsroot : string; exe_fd : Z; brk : Z; terminating : bool; termination_code : Z }.

Definition set_cpu (c : CPUState) (k : kst) : kst :=
  mkK c (k_mem k) (k_mmu k) (k_prot k) (k_world k) (k_errno k) (fsroot k) (exe_fd k) (brk k) (terminating k) (termination_code k).
Definition set_mem (m : mem) (k : kst) : kst :=
  mkK (k_cpu k) m (k_mmu k) (k_prot k) (k_world k) (k_errno k) (fsroot k) (exe_fd k) (brk k) (terminating k) (termination_code k).
Definition set_mmu (s : mmu.state) (k : kst) : kst :=
  mkK (k_cpu k) (k_mem k) s (k_prot k) (k_world k) (k_errno k) (fsroot k) (exe_fd k) (brk k) (terminating k) (termination_code k).
Definition set_prot (p : gmap Z Z) (k : kst) : kst :=
  mkK (k_cpu k) (k_mem k) (k_mmu k) p (k_world k) (k_errno k) (fsroot k) (exe_fd k) (brk k) (terminating k) (termination_code k).
Definition set_host (m : mem) (w : W) (e : Z) (k : kst) : kst :=
  mkK (k_cpu k) m (k_mmu k) (k_prot k) w e (fsroot k) (exe_fd k) (brk k) (terminating k) (termination_code k).
Definition set_proc (fd b : Z) (k : kst) : kst :=
  mkK (k_cpu k) (k_mem k) (k_mmu k) (k_prot k) (k_world k) (k_errno k) (fsroot k) fd b (terminating k) (termination_code k).
Definition set_term (code : Z) (k : kst) : kst :=
  mkK (k_cpu k) (k_mem k) (k_mmu k) (k_prot k) (k_world k) (k_errno k) (fsroot k) (exe_fd k) (brk k) true code.
Definition set_brk (b : Z) (k : kst) : kst := set_proc (exe_fd k) b k.

Definition KM (A : Type) : Type := kst -> kres (A * kst).
#[export] Instance KM_ret : MRet KM := fun A a k => KRet (a, k).
#[export] Instance KM_bind : MBind KM := fun A B f c k =>
  match c k with KRet (a, k') => f a k' | KPanic => KPanic | KUndef => KUndef | KFuel => KFuel end.

Definition k_get {A} (f : kst -> A) : KM A := fun k => KRet (f k, k).
Definition k_modify (f : kst -> kst) : KM unit := fun k => KRet (tt, f k).
Definition k_panic {A} : KM A := fun _ => KPanic.
Definition k_undef {A} : KM A := fun _ => KUndef.
Definition k_assert (b : bool) : KM unit := if b then mret tt else k_panic.

(** A host call; [errno] is set when it fails.  [mprotect] changes the
    protection of the pages when it succeeds. *)
Definition prot_after (r : sysreq) (rc base : Z) (p : gmap Z Z) : gmap Z Z :=
  match r with
  | SMprotect addr len prot => if rc =? 0 then protect p (mmu.h2g base addr) len prot else p
  | _ => p
  end.
Definition sys (r : sysreq) : KM sysres := fun k =>
  let '(res, m, w) := host r (k_mem k) (k_world k) in
  KRet (res, set_prot (prot_after r (sr_rc res) (mmu.base (k_mmu k)) (k_prot k))
               (set_host m w (if sr_rc res <? 0 then sr_errno res else k_errno k) k)).

(** Accesses through [mmu::g2h]; one of memory that is not mapped, or mapped
    without the right, is a fault, which ends in [dbt_sigaction_memory]. *)
Definition k_load (n : nat) (a : Z) : KM Z := fun k =>
  if may_all n (k_prot k) PROT_ANY a then
    match load_le n (k_mem k) a with Some v => KRet (v, k) | None => KPanic end
  else KPanic.
Definition k_store (n : nat) (a v : Z) : KM unit := fun k =>
  if may_all n (k_prot k) PROT_WRITE a then
    match store_le n (k_mem k) a v with Some m => KRet (tt, set_mem m k) | None => KPanic end
  else KPanic.
Fixpoint put_bytes (m : mem) (a : Z) (bs : list Z) : mem :=
  match bs with [] => m | b :: bs => put_bytes (<[a := b]> m) (a + 1) bs end.
Definition k_memcpy (a : Z) (bs : list Z) : KM unit := fun k =>
  if may_all (length bs) (k_prot k) PROT_WRITE a && mapped (length bs) (k_mem k) a
  then KRet (tt, set_mem (put_bytes (k_mem k) a bs) k) else KPanic.
Definition k_memset0 (a n : Z) : KM unit := k_memcpy a (replicate (Z.to_nat n) 0).

(** A NUL-terminated string at [a]. *)
Fixpoint read_cstr (fuel : nat) (m : mem) (a : Z) : option string :=
  match fuel with
  | O => None
  | S fuel =>
      b ← m !! a;
      if b =? 0 then Some EmptyString
      else s ← read_cstr fuel m (a + 1); Some (String (Ascii.ascii_of_N (Z.to_N b)) s)
  end.
Definition k_cstr (a : Z) : KM string := fun k =>
  match read_cstr (S (size (k_mem k))) (k_mem k) a with
  | Some s => if may_all (S (String.length s)) (k_prot k) PROT_ANY a then KRet (s, k) else KPanic
  | None => KPanic
  end.

(** [mmu::mmap]. *)
Definition k_mmap (vaddr len prot flags fd offs : Z) : KM (option Z) := fun k =>
  match mmu.mmap host_mmap host_munmap vaddr len prot flags fd offs (k_mmu k) with
  | LRet (Some h, s) =>
      let a := mmu.h2g (mmu.base s) h in
      let l := roundup 32 64 len mmu.PAGE_SIZE in
      KRet (Some h, set_prot (protect (k_prot k) a l prot)
                      (set_mem (map_mem (k_mem k) a l prot flags fd offs) (set_mmu s k)))
  | LRet (None, s) => KRet (None, set_host (k_mem k) (k_world k) (mmap_errno s) (set_mmu s k))
  | LPanic => KPanic
  | LFuel => KFuel
  end.
Definition k_g2h (a : Z) : KM Z := k_get (fun k => mmu.g2h (mmu.base (k_mmu k)) a).
(** [mmu::h2g] of the result of [mmap], [MAP_FAILED] being -1. *)
Definition k_h2g (h : option Z) : KM Z := k_get (fun k => mmu.h2g (mmu.base (k_mmu k)) (default (-1) h)).

(** ** Threads and traps *)
Definition EnqueueTermination (code : Z) : KM unit := k_modify (set_term code).

Definition InitMainThread (elf : ElfImage) : KM unit :=
  k_assert (Z.land (stack_start elf) 15 =? 0);;
  k_modify (fun k => set_cpu (set_ip (entry elf) (set_gpr 2 (stack_start elf) (k_cpu k))) k).

Definition gpr_of (r : Z) : KM Z := k_get (fun k => get_gpr (k_cpu k) r).

Definition SyscallDemo : KM unit :=
  k_modify (fun k => set_cpu (set_trapno NONE (k_cpu k)) k);;
  id ← gpr_of 10;
  if id =? 1 then
    r ← sys SReadNum;
    match sr_vals r with
    | v :: _ => k_modify (fun k => set_cpu (set_gpr 10 (u32 v) (k_cpu k)) k)
    | [] => k_undef
    end
  else if id =? 2 then v ← gpr_of 11; _ ← sys (SWriteNum (i32 v)); mret tt
  else if id =? 3 then v ← gpr_of 11; EnqueueTermination (i32 v)
  else k_panic.

(** ** Paths *)
Definition PATH_MAX : nat := 4096.
Definition AT_FDCWD : Z := -100.
Fixpoint str_take (n : nat) (s : string) : string :=
  match n, s with S n, String c s => String c (str_take n s) | _, _ => EmptyString end.
Fixpoint str_drop (n : nat) (s : string) : string :=
  match n, s with S n, String _ s => str_drop n s | _, _ => s end.
Definition starts_with (p s : string) : bool := String.eqb (str_take (String.length p) s) p.
Definition is_abs (path : string) : bool := starts_with "/" path.

(** The resolved path, if the path is special. *)
Definition HandleSpecialPath (path : string) : KM (option string) :=
  fd ← k_get exe_fd;
  mret (if String.eqb path "/proc/self/exe" then Some ("/proc/self/fd/" +:+ pretty fd) else None).

(** [realpath] of [fsroot_] with a slash. *)
Definition SetFSRoot (fsroot_ : string) : KM unit :=
  r ← sys (SRealpath fsroot_);
  if sr_rc r <? 0 then k_panic
  else k_modify (fun k => mkK (k_cpu k) (k_mem k) (k_mmu k) (k_prot k) (k_world k) (k_errno k) (sr_str r +:+ "/")
                              (exe_fd k) (brk k) (terminating k) (termination_code k)).

(** [rp_buf]: an absolute path below [fsroot]; a relative one is put behind
    the working directory as it is.  [readlink] does not terminate what it
    writes into the uninitialised buffer, nor does [strncpy] when the path
    does not fit. *)
Definition path_buf (dirfd : Z) (path : string) : KM (option string) :=
  root ← k_get fsroot;
  if is_abs path then mret (Some (str_take (PATH_MAX - 1) (root +:+ "/" +:+ path)))
  else if dirfd =? AT_FDCWD then
    r ← sys SGetcwd;
    if sr_rc r <? 0 then k_undef
    else if bool_decide (String.length (sr_str r) + String.length path < PATH_MAX)%nat then mret (Some (sr_str r +:+ path))
    else k_undef
  else
    r ← sys (SReadlink ("/proc/self/fd/" +:+ pretty dirfd));
    if sr_rc r <? 0 then mret None else k_undef.

(** [None] is the result -1. *)
Definition PathResolution (dirfd : Z) (path : string) : KM (option string) :=
  root ← k_get fsroot;
  buf ← path_buf dirfd path;
  match buf with
  | None => mret None
  | Some rp =>
      k_assert (starts_with root rp);;
      if bool_decide (String.length rp <= String.length root)%nat then k_undef
      else
        special ← HandleSpecialPath (str_drop (String.length root + 1) rp);
        match special with
        | Some s => mret (Some s)
        | None =>
            r ← sys (SRealpath rp);
            if sr_rc r <? 0 then mret None
            else
              k_assert (starts_with root (sr_str r));;
              mret (Some (if is_abs path then sr_str r else path))
        end
  end.

(** ** System calls

    Arguments are the 32-bit values of the registers, signed where the
    parameter is; pointers are guest addresses. *)
Definition rcerrno (rc : Z) : KM Z := e ← k_get k_errno; mret (if i32 rc <? 0 then i32 (- e) else i32 rc).
Definition neg_errno : KM Z := e ← k_get k_errno; mret (i32 (- e)).
Definition forward (r : sysreq) : KM Z := res ← sys r; rcerrno (sr_rc res).
Definition res_val (i : nat) (r : sysres) : KM Z :=
  match sr_vals r !! i with Some v => mret v | None => k_undef end.

Definition linux_openat (dfd filename flags mode : Z) : KM Z :=
  p ← k_g2h filename; forward (SOpenat (i32 dfd) p (i32 flags) mode).
Definition linux_close (fd : Z) : KM Z := if fd <? 3 then mret 0 else forward (SClose fd).
Definition linux_llseek (fd offset_high offset_low result whence : Z) : KM Z :=
  let off := sN 64 (Z.lor (Z.shiftl offset_high 32) offset_low) in
  res ← sys (SLseek fd off whence);
  let rc := i32 (sr_rc res) in
  (if 0 <=? rc then k_store 8 result rc else mret tt);;
  mret 0.
Definition linux_read (fd buf count : Z) : KM Z := p ← k_g2h buf; forward (SRead fd p count).
Definition linux_write (fd buf count : Z) : KM Z := p ← k_g2h buf; forward (SWrite fd p count).

(** The path of [readlinkat] and [statx]. *)
Definition user_path (dfd path : Z) : KM (option string) :=
  c ← k_load 1 path;
  if c =? 0 then mret (Some EmptyString) else s ← k_cstr path; PathResolution (i32 dfd) s.
Definition linux_readlinkat (dfd path buf bufsiz : Z) : KM Z :=
  r ← user_path dfd path;
  match r with
  | None => neg_errno
  | Some s => p ← k_g2h buf; forward (SReadlinkat (i32 dfd) s p (i32 bufsiz))
  end.
Definition linux_statx (dfd path flags mask buffer : Z) : KM Z :=
  r ← user_path dfd path;
  match r with
  | None => neg_errno
  | Some s => p ← k_g2h buffer; forward (SStatx (i32 dfd) s flags mask p)
  end.
Definition linux_fstat64 (fd statbuf : Z) : KM Z := p ← k_g2h statbuf; forward (SFstatat fd p).
Definition linux_set_tid_address (tidptr : Z) : KM Z :=
  res ← sys SSetTidAddress;
  if sr_rc res <? 0 then neg_errno
  else v ← res_val 0 res; k_store 4 tidptr v;; mret (i32 (sr_rc res)).
Definition linux_exit (error_code : Z) : KM Z := EnqueueTermination (i32 error_code);; mret 0.
Definition linux_exit_group (error_code : Z) : KM Z := linux_exit error_code.
Definition linux_rt_sigaction : KM Z := mret 0.

Definition str_bytes (s : string) : list Z := (fun c => Z.of_N (Ascii.N_of_ascii c)) <$> String.list_ascii_of_string s.
Definition c_str (s : string) : list Z := str_bytes s ++ [0].
(** [offsetof(utsname, machine)] is 260. *)
Definition linux_uname (name : Z) : KM Z :=
  p ← k_g2h name;
  res ← sys (SUname p);
  k_memcpy (name + 260) (c_str "riscv32");;
  rcerrno (sr_rc res).

Definition linux_getuid : KM Z := res ← sys SGetuid; mret (i32 (sr_rc res)).
Definition linux_geteuid : KM Z := res ← sys SGeteuid; mret (i32 (sr_rc res)).
Definition linux_getgid : KM Z := res ← sys SGetgid; mret (i32 (sr_rc res)).
Definition linux_getegid : KM Z := res ← sys SGetegid; mret (i32 (sr_rc res)).

(** [uptime], [loads] and [procs] of the host's structure. *)
Definition linux_sysinfo (info : Z) : KM Z :=
  res ← sys SSysinfo;
  let rc := i32 (sr_rc res) in
  (if 0 <? rc then
     up ← res_val 0 res; l0 ← res_val 1 res; l1 ← res_val 2 res; l2 ← res_val 3 res; procs ← res_val 4 res;
     k_store 4 info up;;
     k_store 4 (info + 4) l0;; k_store 4 (info + 8) l1;; k_store 4 (info + 12) l2;;
     k_store 4 (info + 16) (2 ^ 30);; k_store 4 (info + 20) (500 * 2 ^ 20);;
     k_store 4 (info + 36) (2 ^ 20);; k_store 4 (info + 32) (2 ^ 20);;
     k_store 4 (info + 28) (2 ^ 20);; k_store 4 (info + 24) (2 ^ 20);;
     k_store 2 (info + 40) procs;;
     k_store 4 (info + 48) (2 ^ 20);; k_store 4 (info + 44) (2 ^ 20);;
     k_store 4 (info + 52) 1
   else mret tt);;
  rcerrno rc.

Definition MAP_ANON_PRIVATE_FIXED : Z := Z.lor (Z.lor mmu.MAP_ANON mmu.MAP_PRIVATE) mmu.MAP_FIXED.

Definition linux_brk (newbrk : Z) : KM Z :=
  b ← k_get brk;
  if newbrk <=? b then mret (i32 b)
  else
    let brk_p := roundup 32 64 b mmu.PAGE_SIZE in
    if newbrk <=? brk_p then
      (if negb (newbrk =? brk_p) then k_memset0 b (u32 (newbrk - b)) else mret tt);;
      k_modify (set_brk newbrk);; mret (i32 newbrk)
    else
      h ← k_mmap brk_p (u32 (newbrk - brk_p)) PROT_RW MAP_ANON_PRIVATE_FIXED (-1) 0;
      g ← k_h2g h;
      if negb (g =? brk_p) then
        _ ← sys (SMunmap (default (-1) h) (u32 (newbrk - brk_p)));
        mret (i32 b)
      else
        k_memset0 b (u32 (brk_p - b));;
        k_modify (set_brk newbrk);; mret (i32 newbrk).

Definition linux_munmap (gaddr len : Z) : KM Z := p ← k_g2h gaddr; forward (SMunmap p len).
Definition linux_mmap2 (gaddr len prot flags fd off : Z) : KM Z :=
  ret ← k_mmap gaddr len (i32 prot) (i32 flags) (i32 fd) off;
  match ret with
  | None => neg_errno
  | Some _ => g ← k_h2g ret; mret (i32 g)
  end.
Definition linux_mprotect (start len prot : Z) : KM Z := p ← k_g2h start; forward (SMprotect p len (i32 prot)).

Definition RLIMIT_DATA : Z := 2.
Definition RLIMIT_STACK : Z := 3.
Definition RLIMIT_AS : Z := 9.
Definition linux_prlimit64 (pid resource new_rlim old_rlim : Z) : KM Z :=
  p ← k_g2h new_rlim;
  let ignored := (resource =? RLIMIT_AS) || (resource =? RLIMIT_STACK) || (resource =? RLIMIT_DATA) in
  n ← (if negb (p =? 0) && negb ignored then
         c ← k_load 8 new_rlim; m ← k_load 8 (new_rlim + 8); mret (Some (c, m))
       else mret None);
  res ← sys (SPrlimit64 (i32 pid) resource n);
  if sr_rc res <? 0 then neg_errno
  else
    c ← res_val 0 res; m ← res_val 1 res;
    k_store 8 old_rlim c;; k_store 8 (old_rlim + 8) m;;
    mret (i32 (sr_rc res)).
Definition linux_getrandom (buf count flags : Z) : KM Z := p ← k_g2h buf; forward (SGetrandom p count flags).
Definition linux_clock_gettime64 (which_clock ktp : Z) : KM Z :=
  res ← sys (SClockGettime (i32 which_clock));
  s ← res_val 0 res; n ← res_val 1 res;
  k_store 8 ktp s;; k_store 8 (ktp + 8) n;;
  rcerrno (sr_rc res).

(** ** Dispatch *)
Definition ENOSYS : Z := 38.
Definition arg (a : list Z) (i : nat) : Z := default 0 (a !! i).
Definition IMPLEMENTED_SYSCALLS : list (string * (list Z -> KM Z)) :=
  [ ("openat", fun a => linux_openat (arg a 0) (arg a 1) (arg a 2) (arg a 3));
    ("close", fun a => linux_close (arg a 0));
    ("llseek", fun a => linux_llseek (arg a 0) (arg a 1) (arg a 2) (arg a 3) (arg a 4));
    ("read", fun a => linux_read (arg a 0) (arg a 1) (arg a 2));
    ("write", fun a => linux_write (arg a 0) (arg a 1) (arg a 2));
    ("readlinkat", fun a => linux_readlinkat (arg a 0) (arg a 1) (arg a 2) (arg a 3));
    ("fstat64", fun a => linux_fstat64 (arg a 0) (arg a 1));
    ("set_tid_address", fun a => linux_set_tid_address (arg a 0));
    ("exit", fun a => linux_exit (arg a 0));
    ("exit_group", fun a => linux_exit_group (arg a 0));
    ("rt_sigaction", fun _ => linux_rt_sigaction);
    ("uname", fun a => linux_uname (arg a 0));
    ("getuid", fun _ => linux_getuid);
    ("geteuid", fun _ => linux_geteuid);
    ("getgid", fun _ => linux_getgid);
    ("getegid", fun _ => linux_getegid);
    ("sysinfo", fun a => linux_sysinfo (arg a 0));
    ("brk", fun a => linux_brk (arg a 0));
    ("munmap", fun a => linux_munmap (arg a 0) (arg a 1));
    ("mmap2", fun a => linux_mmap2 (arg a 0) (arg a 1) (arg a 2) (arg a 3) (arg a 4) (arg a 5));
    ("mprotect", fun a => linux_mprotect (arg a 0) (arg a 1) (arg a 2));
    ("prlimit64", fun a => linux_prlimit64 (arg a 0) (arg a 1) (arg a 2) (arg a 3));
    ("getrandom", fun a => linux_getrandom (arg a 0) (arg a 1) (arg a 2));
    ("statx", fun a => linux_statx (arg a 0) (arg a 1) (arg a 2) (arg a 3) (arg a 4));
    ("clock_gettime64", fun a => linux_clock_gettime64 (arg a 0) (arg a 1)) ].
Definition SKIPPED_SYSCALLS : list string := ["set_robust_list"].

(** The [switch]; [SyscallUnhandled] panics. *)
Definition dispatch (syscallno : Z) (args : list Z) : KM Z :=
  match list_find (fun p => SyscallID p.1 = Some syscallno) IMPLEMENTED_SYSCALLS with
  | Some (_, (_, h)) => h args
  | None =>
      if existsb (fun n => bool_decide (SyscallID n = Some syscallno)) SKIPPED_SYSCALLS then mret (- ENOSYS)
      else k_panic
  end.

Definition SyscallLinux : KM unit :=
  k_modify (fun k => set_cpu (set_trapno NONE (k_cpu k)) k);;
  args ← k_get (fun k => get_gpr (k_cpu k) <$> [10; 11; 12; 13; 14; 15; 16]);
  syscallno ← gpr_of 17;
  rc ← dispatch syscallno args;
  k_modify (fun k => set_cpu (set_gpr 10 (u32 rc) (k_cpu k)) k).

(** [linux] is the build with [DBT_LINUX_GUEST]. *)
Definition Syscall (linux : bool) : KM unit := if linux then SyscallLinux else SyscallDemo.

(** ** The main loop

    [run] is the rest of [dbt::Execute], which returns at once when a trap is
    pending. *)
Section execute.
Context (linux : bool) (run : CPUState -> mem -> kres (CPUState * mem)).

Definition dbt_Execute : KM unit := fun k =>
  if HandleTrap (k_cpu k) then KRet (tt, k)
  else
    match run (k_cpu k) (k_mem k) with
    | KRet (c, m) => KRet (tt, set_mem m (set_cpu c k))
    | KPanic => KPanic
    | KUndef => KUndef
    | KFuel => KFuel
    end.

Definition skip_insn : KM unit := k_modify (fun k => set_cpu (set_ip (u32 (ip (k_cpu k) + 4)) (k_cpu k)) k).

(** One turn of the loop of [ukernel::Execute]. *)
Definition turn : KM unit :=
  dbt_Execute;;
  t ← k_get terminating;
  k_assert (negb t);;
  tr ← k_get (fun k => trapno (k_cpu k));
  match tr with
  | EBREAK => skip_insn
  | ECALL => skip_insn;; Syscall linux
  | ILLEGAL_INSN => EnqueueTermination 1
  | NONE | UNALIGNED_IP => k_undef
  end.

Fixpoint Execute (fuel : nat) : KM unit := fun k =>
  if terminating k then KRet (tt, k)
  else match fuel with O => KFuel | S fuel => (turn;; Execute fuel) k end.

Definition MainThreadExecute (fuel : nat) : KM Z :=
  Execute fuel;;
  t ← k_get terminating;
  k_assert t;;
  k_get termination_code.
End execute.

(** ** Loading an ELF file *)
Fixpoint le_bytes (bs : list Z) : Z := match bs with [] => 0 | b :: bs => b + 256 * le_bytes bs end.
Definition field (bs : list Z) (off n : nat) : Z := le_bytes (take n (drop off bs)).

(** [Elf32_Ehdr] and [Elf32_Phdr] as they lie in the file. *)
Definition sizeof_Ehdr : Z := 52.
Definition sizeof_Phdr : Z := 32.
Definition parse_ehdr (bs : list Z) : Elf32_Ehdr :=
  mkEhdr (take 16 bs) (field bs 16 2) (field bs 18 2) (field bs 24 4) (field bs 28 4) (field bs 44 2).
Definition parse_phdr (bs : list Z) : Elf32_Phdr :=
  mkPhdr (field bs 0 4) (field bs 4 4) (field bs 8 4) (field bs 16 4) (field bs 20 4) (field bs 24 4).

Definition ELFMAG : list Z := [0x7f; 69; 76; 70].
Definition EM_RISCV : Z := 243.
Definition ET_EXEC : Z := 2.
Definition PT_LOAD : Z := 1.
Definition PF_X : Z := 1.
Definition PF_W : Z := 2.
Definition PF_R : Z := 4.
Definition MAP_FIXED_PRIVATE : Z := Z.lor mmu.MAP_FIXED mmu.MAP_PRIVATE.
Definition MAP_FIXED_PRIVATE_ANON : Z := Z.lor MAP_FIXED_PRIVATE mmu.MAP_ANON.

Definition elf_prot (flags : Z) : Z :=
  Z.lor (if has flags PF_R then PROT_READ else 0)
    (Z.lor (if has flags PF_W then PROT_WRITE else 0) (if has flags PF_X then PROT_EXEC else 0)).

(** The body of the loop over the program headers. *)
Definition load_segment (fd : Z) (ph : Elf32_Phdr) (elf : ElfImage) : KM ElfImage :=
  if negb (p_type ph =? PT_LOAD) then mret elf
  else
    let prot := elf_prot (p_flags ph) in
    let vaddr := p_vaddr ph in
    let vaddr_ps := rounddown 32 64 vaddr mmu.PAGE_SIZE in
    let vaddr_po := u32 (vaddr - vaddr_ps) in
    (if negb (p_filesz ph =? 0) then
       let len := roundup 32 64 (u32 (p_filesz ph + vaddr_po)) mmu.PAGE_SIZE in
       _ ← k_mmap vaddr_ps len prot MAP_FIXED_PRIVATE fd (u32 (p_offset ph - vaddr_po));
       if p_filesz ph <? p_memsz ph then
         let bss_start := u32 (vaddr + p_filesz ph) in
         let bss_end := u32 (vaddr_ps + p_memsz ph) in
         let bss_start_nextp := roundup 32 32 bss_start mmu.PAGE_SIZE in
         let bss_len := roundup 32 32 (u32 (bss_end - bss_start)) mmu.PAGE_SIZE in
         _ ← k_mmap bss_start_nextp bss_len prot MAP_FIXED_PRIVATE_ANON (-1) 0;
         let prev_sz := u32 (bss_start_nextp - bss_start) in
         if negb (prev_sz =? 0) then k_memset0 bss_start prev_sz else mret tt
       else mret tt
     else if negb (p_memsz ph =? 0) then
       let len := roundup 32 32 (u32 (p_memsz ph + vaddr_po)) mmu.PAGE_SIZE in
       _ ← k_mmap vaddr_ps len prot MAP_FIXED_PRIVATE_ANON (-1) 0; mret tt
     else mret tt);;
    mret (mkElf (ehdr elf) (Z.min (load_addr elf) (u32 (vaddr - p_offset ph))) (stack_start elf) (entry elf)
            (Z.max (elf_brk elf) (u32 (vaddr + p_memsz ph)))).

Fixpoint load_segments (fd : Z) (phs : list Elf32_Phdr) (elf : ElfImage) : KM ElfImage :=
  match phs with
  | [] => mret elf
  | ph :: phs => elf ← load_segment fd ph elf; load_segments fd phs elf
  end.

Fixpoint parse_phtab (n : nat) (bs : list Z) : list Elf32_Phdr :=
  match n with O => [] | S n => parse_phdr bs :: parse_phtab n (drop 32 bs) end.

Definition LoadElf (fd : Z) (elf : ElfImage) : KM ElfImage :=
  r ← sys (SPread fd sizeof_Ehdr 0);
  k_assert (sr_rc r =? sizeof_Ehdr);;
  let eh := parse_ehdr (sr_bytes r) in
  k_assert (bool_decide (take 4 (e_ident eh) = ELFMAG));;
  k_assert (e_machine eh =? EM_RISCV);;
  k_assert (e_type eh =? ET_EXEC);;
  let phtab_sz := sizeof_Phdr * e_phnum eh in
  r ← sys (SPread fd phtab_sz (e_phoff eh));
  k_assert (sr_rc r =? phtab_sz);;
  load_segments fd (parse_phtab (Z.to_nat (e_phnum eh)) (sr_bytes r))
    (mkElf eh (u32 (-1)) (stack_start elf) (e_entry eh) 0).

Definition stk_size : Z := 8 * 2 ^ 20.

(** [dirname], [chdir] and [objprof::Announce] are left out. *)
Definition InitElfMappings (path : string) (elf : ElfImage) : KM ElfImage :=
  r ← sys (SOpen path);
  let fd := i32 (sr_rc r) in
  k_assert (0 <=? fd);;
  elf ← LoadElf fd elf;
  k_modify (set_proc fd (elf_brk elf));;
  _ ← k_mmap (mmu.ASPACE_SIZE - mmu.PAGE_SIZE) mmu.PAGE_SIZE 0 MAP_ANON_PRIVATE_FIXED (-1) 0;
  stk ← k_mmap (mmu.ASPACE_SIZE - mmu.PAGE_SIZE - stk_size) stk_size PROT_RW MAP_ANON_PRIVATE_FIXED (-1) 0;
  g ← k_h2g stk;
  mret (mkElf (ehdr elf) (load_addr elf) (u32 (g + stk_size)) (entry elf) (elf_brk elf)).

(** ** The initial stack *)
Definition AllocAVectorStr_sz (stk : Z) (bs : list Z) (sz : Z) : KM Z :=
  let stk := u32 (stk - u16 sz) in
  k_memcpy stk (take (Z.to_nat (u16 sz)) bs);; mret stk.
(** The size is that of the string, as a [u16]. *)
Definition AllocAVectorStr (stk : Z) (s : string) : KM Z :=
  AllocAVectorStr_sz stk (c_str s) (Z.of_nat (String.length s) + 1).

Fixpoint alloc_args (stk : Z) (argv : list string) : KM (Z * list Z) :=
  match argv with
  | [] => mret (stk, [])
  | s :: argv => p ← AllocAVectorStr stk s; '(stk, ps) ← alloc_args p argv; mret (stk, p :: ps)
  end.

(** [push_avval] for the values in turn; the position behind them. *)
Definition push_avval (vec val : Z) : KM Z := k_store 4 vec val;; mret (u32 (vec + 4)).
Fixpoint push_all (vec : Z) (vals : list Z) : KM Z :=
  match vals with [] => mret vec | v :: vals => vec ← push_avval vec v; push_all vec vals end.
Fixpoint push_auxv (vec : Z) (vals : list (Z * Z)) : KM Z :=
  match vals with
  | [] => mret vec
  | (idx, v) :: vals => vec ← push_avval vec (u16 idx); vec ← push_avval vec v; push_auxv vec vals
  end.

Definition AT_NULL : Z := 0.
Definition AT_PHDR : Z := 3.
Definition AT_PHENT : Z := 4.
Definition AT_PHNUM : Z := 5.
Definition AT_PAGESZ : Z := 6.
Definition AT_BASE : Z := 7.
Definition AT_FLAGS : Z := 8.
Definition AT_ENTRY : Z := 9.
Definition AT_UID : Z := 11.
Definition AT_EUID : Z := 12.
Definition AT_GID : Z := 13.
Definition AT_EGID : Z := 14.
Definition AT_HWCAP : Z := 16.
Definition AT_CLKTCK : Z := 17.
Definition AT_SECURE : Z := 23.
Definition AT_RANDOM : Z := 25.
Definition AT_EXECFN : Z := 31.

Definition auxv_salt : list Z := [0; 1; 2; 3; 4; 5; 6] ++ replicate 9 0.

(** The order of the host calls is that of the source. *)
Definition InitAVectors (elf : ElfImage) (argv : list string) : KM ElfImage :=
  foo_str_g ← AllocAVectorStr (stack_start elf) "__foo_str__";
  lc_all_str_g ← AllocAVectorStr foo_str_g "LC_ALL=C";
  auxv_salt_g ← AllocAVectorStr_sz lc_all_str_g auxv_salt 16;
  '(stk, argv_strings_g) ← alloc_args auxv_salt_g argv;
  let argv_n := Z.of_nat (length argv) in
  let stk := Z.land stk (u32 (-4)) in
  let envp_n := 1 in
  let auxv_n := 64 in
  let stk_vsz := argv_n + envp_n + auxv_n + 3 in
  let stk := u32 (stk - stk_vsz * 4) in
  let stk := Z.land stk (u32 (-16)) in
  let argc_p := stk in
  let argv_p := u32 (argc_p + 4) in
  let envp_p := u32 (argv_p + 4 * (argv_n + 1)) in
  let auxv_p := u32 (envp_p + 4 * (envp_n + 1)) in
  _ ← push_avval argc_p argv_n;
  argv_p ← push_all argv_p argv_strings_g;
  _ ← push_avval argv_p 0;
  envp_p ← push_avval envp_p lc_all_str_g;
  _ ← push_avval envp_p 0;
  auxv_p ← push_auxv auxv_p
    [ (AT_PHDR, u32 (e_phoff (ehdr elf) + load_addr elf)); (AT_PHENT, sizeof_Phdr); (AT_PHNUM, e_phnum (ehdr elf));
      (AT_PAGESZ, mmu.PAGE_SIZE); (AT_BASE, 0); (AT_FLAGS, 0); (AT_ENTRY, entry elf) ];
  uid ← sys SGetuid; auxv_p ← push_auxv auxv_p [(AT_UID, u32 (sr_rc uid))];
  gid ← sys SGetgid; auxv_p ← push_auxv auxv_p [(AT_GID, u32 (sr_rc gid))];
  euid ← sys SGeteuid; auxv_p ← push_auxv auxv_p [(AT_EUID, u32 (sr_rc euid))];
  egid ← sys SGetegid; auxv_p ← push_auxv auxv_p [(AT_EGID, u32 (sr_rc egid))];
  auxv_p ← push_auxv auxv_p [(AT_EXECFN, foo_str_g); (AT_SECURE, 0); (AT_HWCAP, 0)];
  tck ← sys SSysconfClkTck;
  _ ← push_auxv auxv_p [(AT_CLKTCK, u32 (sr_rc tck)); (AT_RANDOM, auxv_salt_g); (AT_NULL, 0)];
  mret (mkElf (ehdr elf) (load_addr elf) stk (entry elf) (elf_brk elf)).

(** ** Boot *)
Definition MainThreadBoot (linux : bool) (argv : list string) (elf : ElfImage) : KM unit :=
  match argv with
  | [] => k_panic
  | path :: _ =>
      root ← k_get fsroot;
      elf ← InitElfMappings (root +:+ "/" +:+ path) elf;
      elf ← (if linux then InitAVectors elf argv else mret elf);
      InitMainThread elf
  end.

Definition ReproduceElfMappings (path : string) (elf : ElfImage) : KM unit :=
  r ← sys (SOpen path);
  let fd := i32 (sr_rc r) in
  k_assert (0 <=? fd);;
  _ ← LoadElf fd elf;
  _ ← sys (SClose fd); mret tt.
End kernel.
End ukernel.
