(* ===== verification/UKernelProofs.v ===== *)
(** * The user-mode kernel: traps and system calls

    System calls leave the guest's registers alone but for their result, the
    program break grows over zeroed memory, and a breakpoint is never left. *)

From stdpp Require Import base tactics numbers list strings gmap pretty.
From S2P Require Import Prelude Common GuestState Tcache Execute Mmu UKernel.

Import ukernel.

Section kernel.
Context {W : Type} (host : sysreq -> mem -> W -> sysres * mem * W).
Context (host_mmap : nat -> Z -> Z -> Z -> Z -> Z -> Z -> option Z) (host_munmap : nat -> Z -> Z -> bool).
Context (map_mem : mem -> Z -> Z -> Z -> Z -> Z -> Z -> mem) (mmap_errno : mmu.state -> Z).
Notation kst := (@kst W).
Notation KM := (@KM W).

(** ** System calls and the registers

    [keeps c]: [c] changes neither the CPU state nor, unless it is an exit,
    the files and the memory of the kernel the traps depend on. *)
Definition keeps {A} (c : KM A) : Prop :=
  forall k a k', c k = KRet (a, k') -> k_cpu k' = k_cpu k.

Lemma kst_keeps_bind {A B} (c : KM A) (f : A -> KM B) : keeps c -> (forall a, keeps (f a)) -> keeps (c ≫= f).
Proof.
  intros Hc Hf k b k' E. unfold mbind, KM_bind in E. destruct (c k) as [[a k1]| | |] eqn:Ec; try done.
  rewrite (Hf a k1 b k' E). by eapply Hc.
Qed.
Lemma kst_keeps_ret {A} (a : A) : keeps (mret a).
Proof. by intros k b k' [= <- <-]. Qed.
Lemma kst_keeps_get {A} (f : kst -> A) : keeps (k_get f).
Proof. by intros k b k' [= <- <-]. Qed.
Lemma kst_keeps_modify f : (forall k, k_cpu (f k) = k_cpu k) -> keeps (k_modify f).
Proof. intros H k b k' [= <- <-]. apply H. Qed.
Lemma kst_keeps_panic {A} : keeps (@k_panic W A).
Proof. done. Qed.
Lemma kst_keeps_undef {A} : keeps (@k_undef W A).
Proof. done. Qed.
Lemma kst_keeps_assert b : keeps (k_assert b).
Proof. destruct b; [apply kst_keeps_ret|apply kst_keeps_panic]. Qed.
Lemma kst_keeps_sys r : keeps (sys host r).
Proof. intros k a k' E. unfold sys in E. destruct (host r (k_mem k) (k_world k)) as [[res m] w]. by injection E as <- <-. Qed.
Lemma kst_keeps_load n a : keeps (k_load n a).
Proof. intros k v k' E. unfold k_load in E. destruct (may_all _ _ _ _); [|done]. destruct (load_le _ _ _); [|done]. by injection E as <- <-. Qed.
Lemma kst_keeps_store n a v : keeps (k_store n a v).
Proof. intros k u k' E. unfold k_store in E. destruct (may_all _ _ _ _); [|done]. destruct (store_le _ _ _ _); [|done]. by injection E as <- <-. Qed.
Lemma kst_keeps_memcpy a bs : keeps (k_memcpy a bs).
Proof. intros k u k' E. unfold k_memcpy in E. destruct (_ && _); [|done]. by injection E as <- <-. Qed.
Lemma kst_keeps_cstr a : keeps (k_cstr a).
Proof. intros k u k' E. unfold k_cstr in E. destruct (read_cstr _ _ _); [|done]. destruct (may_all _ _ _ _); [|done]. by injection E as <- <-. Qed.
Lemma kst_keeps_mmap v l p f d o : keeps (k_mmap host_mmap host_munmap map_mem mmap_errno v l p f d o).
Proof.
  intros k u k' E. unfold k_mmap in E. destruct (mmu.mmap _ _ _ _ _ _ _ _ _) as [[[h|] s]| |]; try done; by injection E as <- <-.
Qed.

Ltac keeps :=
  repeat lazymatch goal with
  | |- forall _, _ => intros
  | |- keeps (_ ≫= _) => apply kst_keeps_bind
  | |- keeps (mret _) => apply kst_keeps_ret
  | |- keeps (k_get _) => apply kst_keeps_get
  | |- keeps (gpr_of _) => apply kst_keeps_get
  | |- keeps (k_g2h _) => apply kst_keeps_get
  | |- keeps (k_h2g _) => apply kst_keeps_get
  | |- keeps (k_modify _) => apply kst_keeps_modify
  | |- keeps k_panic => apply kst_keeps_panic
  | |- keeps k_undef => apply kst_keeps_undef
  | |- keeps (k_assert _) => apply kst_keeps_assert
  | |- keeps (sys _ _) => apply kst_keeps_sys
  | |- keeps (k_load _ _) => apply kst_keeps_load
  | |- keeps (k_store _ _ _) => apply kst_keeps_store
  | |- keeps (k_memcpy _ _) => apply kst_keeps_memcpy
  | |- keeps (k_memset0 _ _) => apply kst_keeps_memcpy
  | |- keeps (k_cstr _) => apply kst_keeps_cstr
  | |- keeps (k_mmap _ _ _ _ _ _ _ _ _ _) => apply kst_keeps_mmap
  | |- keeps (match ?x with _ => _ end) => destruct x
  | |- k_cpu _ = k_cpu _ => reflexivity
  end.

Lemma kst_keeps_PathResolution d p : keeps (PathResolution host d p).
Proof. unfold PathResolution, path_buf, HandleSpecialPath. keeps. Qed.
Lemma kst_keeps_user_path d p : keeps (user_path host d p).
Proof. unfold user_path. keeps. apply kst_keeps_PathResolution. Qed.

Notation implemented := (IMPLEMENTED_SYSCALLS host host_mmap host_munmap map_mem mmap_errno).

Lemma implemented_keeps : Forall (fun p => forall a, keeps (p.2 a)) implemented.
Proof.
  unfold IMPLEMENTED_SYSCALLS. repeat (apply Forall_cons; split); [..|apply Forall_nil_2]; cbn [snd]; intros a;
    unfold linux_openat, linux_close, linux_llseek, linux_read, linux_write, linux_readlinkat, linux_statx, linux_fstat64,
      linux_set_tid_address, linux_exit_group, linux_exit, linux_rt_sigaction, linux_uname, linux_getuid, linux_geteuid,
      linux_getgid, linux_getegid, linux_sysinfo, linux_brk, linux_munmap, linux_mmap2, linux_mprotect, linux_prlimit64,
      linux_getrandom, linux_clock_gettime64, forward, rcerrno, neg_errno, res_val, EnqueueTermination; cbv zeta; keeps;
    apply kst_keeps_user_path.
Qed.

(** The numbers of the handled calls are distinct, so the [switch] selects by
    name. *)
Definition handled_names : list string := (fst <$> implemented) ++ SKIPPED_SYSCALLS.

Lemma handled_distinct : NoDup (SyscallID <$> handled_names).
Proof. apply (bool_decide_unpack _). vm_compute. exact I. Qed.

Lemma number_name (l : list (string * (list Z -> KM Z))) name h no :
  NoDup (SyscallID <$> (fst <$> l)) -> (name, h) ∈ l -> SyscallID name = Some no ->
  exists i, list_find (fun p => SyscallID p.1 = Some no) l = Some (i, (name, h)).
Proof.
  induction l as [|[n0 h0] l IH]; intros Hnd Hin Hno; [by apply elem_of_nil in Hin|].
  cbn [fmap list_fmap fst] in Hnd. apply NoDup_cons in Hnd as [Hn0 Hnd]. cbn [list_find fst].
  apply elem_of_cons in Hin as [[= <- <-]|Hin]; [rewrite decide_True by done; by eexists|].
  rewrite decide_False.
  - destruct (IH Hnd Hin Hno) as [i ->]. by eexists.
  - intros E. apply Hn0. rewrite E, <- Hno. apply list_elem_of_fmap. exists name. split; [done|].
    apply list_elem_of_fmap. by exists (name, h).
Qed.

Notation disp := (dispatch host host_mmap host_munmap map_mem mmap_errno).
Lemma dispatch_implemented name h no args :
  (name, h) ∈ implemented -> SyscallID name = Some no -> disp no args = h args.
Proof.
  intros Hin Hno. unfold dispatch.
  assert (Hnd : NoDup (SyscallID <$> (fst <$> implemented))).
  { pose proof handled_distinct as H. unfold handled_names in H. rewrite fmap_app in H. by apply NoDup_app in H as (? & _). }
  destruct (number_name implemented name h no Hnd Hin Hno) as [i ->]. done.
Qed.
Lemma dispatch_unhandled no args :
  (forall name, name ∈ handled_names -> SyscallID name <> Some no) -> disp no args = k_panic.
Proof.
  intros H. unfold dispatch. destruct (list_find _ _) as [[i [n h]]|] eqn:E.
  - apply list_find_Some in E as (Hi & Hn & _). destruct (H n); [|done]. apply elem_of_app. left.
    apply list_elem_of_fmap. exists (n, h). split; [done|]. by eapply list_elem_of_lookup_2.
  - unfold SKIPPED_SYSCALLS. cbn [existsb]. rewrite bool_decide_false; [done|]. apply H.
    apply elem_of_app. right. apply list_elem_of_here.
Qed.

Notation syscall := (SyscallLinux host host_mmap host_munmap map_mem mmap_errno).
Definition syscall_args (c : CPUState) : list Z := get_gpr c <$> [10; 11; 12; 13; 14; 15; 16].
Definition untrapped (k : kst) : kst := set_cpu (set_trapno NONE (k_cpu k)) k.

Lemma SyscallLinux_eq k :
  syscall k =
  match disp (get_gpr (k_cpu k) 17) (syscall_args (k_cpu k)) (untrapped k) with
  | KRet (rc, k1) => KRet (tt, set_cpu (set_gpr 10 (u32 rc) (k_cpu k1)) k1)
  | KPanic => KPanic | KUndef => KUndef | KFuel => KFuel
  end.
Proof. done. Qed.

(** ** Breakpoints *)
Section trap.
Context (linux : bool) (run : CPUState -> mem -> kres (CPUState * mem)).
Notation step := (turn host host_mmap host_munmap map_mem mmap_errno linux run).
Notation loop := (Execute host host_mmap host_munmap map_mem mmap_errno linux run).

Lemma ebreak_turn k :
  trapno (k_cpu k) = EBREAK -> terminating k = false ->
  step k = KRet (tt, set_cpu (set_ip (u32 (ip (k_cpu k) + 4)) (k_cpu k)) k).
Proof.
  intros Ht Hk. unfold turn, dbt_Execute, HandleTrap, IsTrapPending. unfold mbind, KM_bind.
  rewrite Ht, bool_decide_false by done. cbn [negb]. unfold k_get. rewrite Hk. cbn [k_assert negb mret KM_ret]. rewrite Ht. done.
Qed.
Lemma ebreak_loop fuel : forall k, trapno (k_cpu k) = EBREAK -> terminating k = false -> loop fuel k = KFuel.
Proof.
  induction fuel as [|fuel IH]; intros k Ht Hk; cbn [Execute]; rewrite Hk; [done|].
  unfold mbind, KM_bind. rewrite (ebreak_turn k Ht Hk). by apply IH.
Qed.
End trap.
End kernel.

(** ** Fixed mappings *)
Definition fixed (flags : Z) : bool := negb (Z.land flags mmu.MAP_FIXED =? 0).
Definition anon (flags : Z) : bool := negb (Z.land flags mmu.MAP_ANON =? 0).

(** What the host promises: a fixed mapping is where it was asked for, an
    anonymous one reads as zero, and no other memory changes. *)
Definition host_maps_fixed (host_mmap : nat -> Z -> Z -> Z -> Z -> Z -> Z -> option Z) : Prop :=
  forall n addr len prot flags fd offs h,
    fixed flags = true -> host_mmap n addr len prot flags fd offs = Some h -> h = addr.
(** Memory for a fixed mapping is to be had. *)
Definition host_has_memory (host_mmap : nat -> Z -> Z -> Z -> Z -> Z -> Z -> option Z) : Prop :=
  forall n a l p f d o, fixed f = true -> 0 < l -> host_mmap n a l p f d o = Some a.
Definition maps_anon (map_mem : mem -> Z -> Z -> Z -> Z -> Z -> Z -> mem) : Prop :=
  forall m a len prot flags fd offs x, anon flags = true ->
    map_mem m a len prot flags fd offs !! x = if bool_decide (a <= x < a + len) then Some 0 else m !! x.

Lemma page_roundup x : 0 <= x -> x + 4096 <= 2 ^ 32 ->
  roundup 32 64 x mmu.PAGE_SIZE = (x + 4095) / 4096 * 4096.
Proof. intros Hx Hb. change mmu.PAGE_SIZE with 4096. rewrite roundup_spec by lia. done. Qed.
Lemma page_bounds x : 0 <= x -> x <= (x + 4095) / 4096 * 4096 < x + 4096 /\ ((x + 4095) / 4096 * 4096) mod 4096 = 0.
Proof. intros Hx. exact (roundup_bounds x 4096 Hx ltac:(lia)). Qed.

Section map.
Context {W : Type}.
Context (host_mmap : nat -> Z -> Z -> Z -> Z -> Z -> Z -> option Z) (host_munmap : nat -> Z -> Z -> bool).
Context (map_mem : mem -> Z -> Z -> Z -> Z -> Z -> Z -> mem) (mmap_errno : mmu.state -> Z).
Context (Hfixed : host_maps_fixed host_mmap).
Notation kst := (@kst W).

Lemma k_mmap_fixed vaddr len prot flags fd offs (k : kst) :
  0 <= vaddr < 2 ^ 32 -> 0 <= len -> 0 < vaddr + len -> len + 4096 <= 2 ^ 32 -> vaddr + len <= 2 ^ 32 -> fixed flags = true ->
  exists h s e, k_mmap host_mmap host_munmap map_mem mmap_errno vaddr len prot flags fd offs k =
      KRet (h, set_prot (match h with Some _ => protect (k_prot k) vaddr ((len + 4095) / 4096 * 4096) prot | None => k_prot k end)
                 (set_host (match h with Some _ => map_mem (k_mem k) vaddr ((len + 4095) / 4096 * 4096) prot flags fd offs | None => k_mem k end)
                 (k_world k) e (set_mmu s k))) /\
    mmu.base s = mmu.base (k_mmu k) /\ (forall a, h = Some a -> a = mmu.g2h (mmu.base (k_mmu k)) vaddr) /\
    (host_has_memory host_mmap -> 0 < len -> is_Some h).
Proof.
  intros Hv Hl Hvl Hr Hs Hf. unfold k_mmap, mmu.mmap.
  change mmu.ASPACE_SIZE with (2 ^ 32). rewrite (uN_id 64) by (unfold in_u; lia).
  rewrite (proj2 (Z.ltb_lt _ _)) by lia. cbn [passert lift mbind lres_bind].
  rewrite page_roundup by lia. fold (fixed flags). rewrite Hf. unfold mmu.do_mmap.
  destruct (host_mmap _ _ _ _ _ _ _) as [h|] eqn:Eh.
  - apply Hfixed in Eh; [|done]. subst h. unfold mmu.MarkUsedPages.
    assert (Hp : mmu.n_pages <? Z.shiftr ((len + 4095) / 4096 * 4096) mmu.PAGE_BITS = false).
    { apply Z.ltb_ge. change mmu.n_pages with 1048576. rewrite Z.shiftr_div_pow2 by (by vm_compute). change (2 ^ mmu.PAGE_BITS) with 4096. zlia. }
    rewrite Hp. cbn [lift mbind lres_bind]. eexists (Some _), _, (k_errno k). split; [|split; [|split; [by intros a [= <-]|by eexists]]].
    + cbn [mmu.base mmu.set_used mmu.called]. unfold mmu.h2g, mmu.g2h.
      replace (mmu.base (k_mmu k) + vaddr - mmu.base (k_mmu k)) with vaddr by lia.
      rewrite uN_id by (unfold in_u; lia). rewrite Z.add_comm. done.
    + done.
  - eexists None, (mmu.called (k_mmu k)), (mmap_errno (mmu.called (k_mmu k))). split; [reflexivity|]. split; [done|]. split; [done|]. intros Hm Hlen.
    rewrite Hm in Eh; [done|done|zlia].
Qed.
End map.

(** ** Blocks of bytes *)
Lemma put_bytes_lookup bs : forall m a x,
  put_bytes m a bs !! x = if bool_decide (a <= x < a + Z.of_nat (length bs)) then bs !! Z.to_nat (x - a) else m !! x.
Proof.
  induction bs as [|b bs IH]; intros m a x; cbn [put_bytes length].
  - rewrite bool_decide_false by lia. done.
  - rewrite IH. destruct (decide (x = a)) as [->|Hne].
    + rewrite bool_decide_false by lia. rewrite bool_decide_true by lia.
      rewrite lookup_insert_eq. replace (Z.to_nat (a - a)) with 0%nat by lia. done.
    + case_bool_decide; [rewrite bool_decide_true by lia|rewrite bool_decide_false by lia; by rewrite lookup_insert_ne].
      replace (Z.to_nat (x - a)) with (S (Z.to_nat (x - (a + 1)))) by lia. done.
Qed.
Lemma mapped_range n : forall m a, (forall x, a <= x < a + Z.of_nat n -> is_Some (m !! x)) -> mapped n m a = true.
Proof.
  induction n as [|n IH]; intros m a H; [done|]. cbn [mapped]. rewrite bool_decide_true by (apply H; lia).
  cbn [andb]. apply IH. intros x Hx. apply H. lia.
Qed.
(** ** Protection *)
Lemma protect_lookup p a len prot g :
  protect p a len prot !! g = if bool_decide (a / 4096 <= g < a / 4096 + (len + 4095) / 4096) then Some prot else p !! g.
Proof.
  unfold protect. assert (H : forall l, foldr (fun g => <[g := prot]>) p l !! g = if bool_decide (g ∈ l) then Some prot else p !! g).
  { induction l as [|h l IH]; cbn [foldr]; [by rewrite bool_decide_false by apply not_elem_of_nil|].
    destruct (decide (h = g)) as [->|Hne].
    - rewrite lookup_insert_eq. by rewrite bool_decide_true by apply list_elem_of_here.
    - rewrite lookup_insert_ne, IH by done. by rewrite (bool_decide_ext (g ∈ l) (g ∈ h :: l)) by (rewrite elem_of_cons; naive_solver). }
  rewrite H. by rewrite (bool_decide_ext (g ∈ _) (a / 4096 <= g < a / 4096 + (len + 4095) / 4096)) by (rewrite elem_of_seqZ; lia).
Qed.
(** A byte of a page mapped with [prot], and one of another page. *)
Lemma may_protect_in p a len prot f x : a mod 4096 = 0 -> a <= x < a + len -> may (protect p a len prot) f x = has prot f.
Proof. intros Ha Hx. unfold may. rewrite protect_lookup, bool_decide_true by zlia. done. Qed.
Lemma may_protect_out p a len prot f x :
  a mod 4096 = 0 -> ~ (a <= x < a + (len + 4095) / 4096 * 4096) -> may (protect p a len prot) f x = may p f x.
Proof. intros Ha Hx. unfold may. rewrite protect_lookup, bool_decide_false by zlia. done. Qed.
Lemma may_all_range n p f a : (forall x, a <= x < a + Z.of_nat n -> may p f x = true) -> may_all n p f a = true.
Proof. intros H. apply forallb_forall. intros x Hx. apply H. by apply list_elem_of_In, elem_of_seqZ in Hx. Qed.
Lemma may_all_fault n p f a x : a <= x < a + Z.of_nat n -> may p f x = false -> may_all n p f a = false.
Proof.
  intros Hx Hf. destruct (may_all n p f a) eqn:E; [|done]. rewrite <- Hf. symmetry. unfold may_all in E. rewrite forallb_forall in E.
  apply E. apply list_elem_of_In, elem_of_seqZ. lia.
Qed.

Lemma k_memcpy_ok {W} a bs (k : @kst W) :
  (forall x, a <= x < a + Z.of_nat (length bs) -> is_Some (k_mem k !! x) /\ may (k_prot k) PROT_WRITE x = true) ->
  k_memcpy a bs k = KRet (tt, set_mem (put_bytes (k_mem k) a bs) k).
Proof.
  intros H. unfold k_memcpy. rewrite may_all_range, mapped_range by (intros x Hx; apply H; lia). done.
Qed.
Definition zeroed (m : mem) (a n : Z) : mem := put_bytes m a (replicate (Z.to_nat n) 0).
Lemma zeroed_lookup m a n x : zeroed m a n !! x = if bool_decide (a <= x < a + n) then Some 0 else m !! x.
Proof.
  unfold zeroed. rewrite put_bytes_lookup, length_replicate. do 2 case_bool_decide; try lia; [|done].
  by rewrite lookup_replicate_2 by lia.
Qed.
Lemma k_memset0_ok {W} a n (k : @kst W) :
  (forall x, a <= x < a + n -> is_Some (k_mem k !! x) /\ may (k_prot k) PROT_WRITE x = true) ->
  k_memset0 a n k = KRet (tt, set_mem (zeroed (k_mem k) a n) k).
Proof. intros H. apply k_memcpy_ok. rewrite length_replicate. intros x Hx. apply H. lia. Qed.

(** ** The program break *)
Definition page_up (x : Z) : Z := (x + 4095) / 4096 * 4096.

(** The rest of the page of the break is mapped and may be written. *)
Record brk_ok {W} (k : @kst W) : Prop := {
  bo_low : 4096 <= brk k;
  bo_high : brk k + 4096 <= 2 ^ 32;
  bo_page : forall x, brk k <= x < page_up (brk k) -> is_Some (k_mem k !! x) /\ may (k_prot k) PROT_WRITE x = true;
  bo_base : mmu.base (k_mmu k) mod 4096 = 0 }.

Section brk.
Context {W : Type} (host : sysreq -> mem -> W -> sysres * mem * W).
Context (host_mmap : nat -> Z -> Z -> Z -> Z -> Z -> Z -> option Z) (host_munmap : nat -> Z -> Z -> bool).
Context (map_mem : mem -> Z -> Z -> Z -> Z -> Z -> Z -> mem) (mmap_errno : mmu.state -> Z).
Context (Hfixed : host_maps_fixed host_mmap) (Hanon : maps_anon map_mem).
(** [munmap] of [MAP_FAILED] unmaps nothing. *)
Context (Hunmap : forall len m w, (host (SMunmap (-1) len) m w).1.2 = m).
Notation do_brk := (linux_brk host host_mmap host_munmap map_mem mmap_errno).

(** The break moved from that of [k] to [b]; the bytes in between are zero,
    unless [b] is the end of the page. *)
Definition brk_grown (b : Z) (k k' : @kst W) : Prop :=
  brk k' = b /\ forall x, x < b ->
    k_mem k' !! x = if bool_decide (brk k <= x /\ b <> page_up (brk k)) then Some 0 else k_mem k !! x.

Lemma brk_in_page newbrk k :
  brk_ok k -> brk k < newbrk <= page_up (brk k) -> newbrk + 4096 <= 2 ^ 32 ->
  exists k', do_brk newbrk k = KRet (i32 newbrk, k') /\ brk_ok k' /\ brk_grown newbrk k k'.
Proof.
  intros [h1 h2 h3 h4] [Hlt Hle] Hb. unfold linux_brk. unfold mbind, KM_bind, k_get.
  rewrite (proj2 (Z.leb_gt _ _)) by lia. rewrite page_roundup by lia. fold (page_up (brk k)).
  rewrite (proj2 (Z.leb_le _ _)) by lia. assert (Hup : page_up newbrk = page_up (brk k)) by (unfold page_up in *; zlia).
  destruct (Z.eqb_spec newbrk (page_up (brk k))) as [E|E]; cbn [negb].
  - eexists. split; [done|]. split.
    + split; cbn; try done; try lia.
    + split; [done|]. intros x Hx. rewrite bool_decide_false by (intros [_ ?]; done). done.
  - rewrite (uN_id 32) by (unfold in_u; lia). rewrite k_memset0_ok by (intros x Hx; apply h3; lia).
    eexists. split; [done|]. split.
    + split; cbn; try done; try lia. intros x Hx. rewrite Hup in Hx. rewrite zeroed_lookup. split; [case_bool_decide; [by eexists|]|]; apply h3; lia.
    + split; [done|]. intros x Hx. cbn [k_mem set_brk set_proc set_mem]. rewrite zeroed_lookup.
      do 2 case_bool_decide; try done; lia.
Qed.

Lemma brk_past_page newbrk k :
  brk_ok k -> page_up (brk k) < newbrk -> newbrk + 4096 <= 2 ^ 32 ->
  exists r k', do_brk newbrk k = KRet (r, k') /\ brk_ok k' /\
    (r = i32 (brk k) /\ brk k' = brk k /\ k_mem k' = k_mem k \/ r = i32 newbrk /\ brk_grown newbrk k k').
Proof.
  intros [h1 h2 h3 h4] Hlt Hb. pose proof (page_bounds (brk k) ltac:(lia)) as [Hp Hm]. fold (page_up (brk k)) in *.
  unfold linux_brk. unfold mbind, KM_bind, k_get.
  rewrite (proj2 (Z.leb_gt _ _)) by lia. rewrite page_roundup by lia. fold (page_up (brk k)).
  rewrite (proj2 (Z.leb_gt _ _)) by lia. set (P := page_up (brk k)) in *. rewrite (uN_id 32 (newbrk - P)) by (unfold in_u; lia).
  destruct (k_mmap_fixed host_mmap host_munmap map_mem mmap_errno Hfixed P (newbrk - P) PROT_RW MAP_ANON_PRIVATE_FIXED (-1) 0 k)
    as (h & s & e & -> & Hbase & Hh & _); try lia; [done|].
  assert (Hlen : P + (newbrk - P + 4095) / 4096 * 4096 = page_up newbrk) by (unfold page_up; zlia).
  unfold k_h2g, k_get. cbn [k_mmu set_host set_mmu set_prot]. rewrite Hbase. destruct h as [a|]; cbn [default from_option].
  - rewrite (Hh a eq_refl). unfold mmu.h2g, mmu.g2h, id. replace (mmu.base (k_mmu k) + P - mmu.base (k_mmu k)) with P by lia.
    rewrite (uN_id 32 P) by (unfold in_u; lia). rewrite Z.eqb_refl. cbn [negb]. rewrite (uN_id 32 (P - brk k)) by (unfold in_u; lia).
    assert (HM : forall x, map_mem (k_mem k) P ((newbrk - P + 4095) / 4096 * 4096) PROT_RW MAP_ANON_PRIVATE_FIXED (-1) 0 !! x =
      if bool_decide (P <= x < page_up newbrk) then Some 0 else k_mem k !! x) by (intros x; rewrite Hanon by done; by rewrite Hlen).
    set (pr := protect (k_prot k) P ((newbrk - P + 4095) / 4096 * 4096) PROT_RW).
    assert (HP : forall x, P <= x < page_up newbrk -> may pr PROT_WRITE x = true).
    { intros x Hx. unfold pr. by rewrite may_protect_in by lia. }
    assert (HP' : forall x, x < P -> may pr PROT_WRITE x = may (k_prot k) PROT_WRITE x).
    { intros x Hx. unfold pr. by rewrite may_protect_out by lia. }
    rewrite k_memset0_ok; cycle 1.
    { intros x Hx. cbn [k_mem set_host set_prot k_prot]. rewrite HM, HP' by lia. rewrite bool_decide_false by lia. apply h3. lia. }
    pose proof (page_bounds newbrk ltac:(lia)) as [Hp' _]. fold (page_up newbrk) in Hp'.
    eexists _, _. split; [done|]. split.
    + split; cbn [brk set_brk set_proc k_mem set_mem set_host k_mmu set_mmu set_prot k_prot]; try lia; [|by rewrite Hbase].
      intros x Hx. fold pr. rewrite HP by lia. split; [|done]. rewrite zeroed_lookup, HM. repeat case_bool_decide; try (by eexists); lia.
    + right. split; [done|]. split; [done|]. intros x Hx. cbn [brk set_brk set_proc k_mem set_mem set_host set_prot]. rewrite zeroed_lookup, HM.
      fold P. repeat case_bool_decide; try done; lia.
  - assert (Hne : mmu.h2g (mmu.base (k_mmu k)) (-1) <> P) by (unfold mmu.h2g, uN; zlia).
    rewrite (proj2 (Z.eqb_neq _ _)) by done. cbn [negb]. unfold sys. pose proof (Hunmap (newbrk - P) (k_mem k) (k_world k)) as Hu.
    cbn [k_mem set_host k_world set_prot]. destruct (host _ _ _) as [[res m] w]. cbn in Hu. subst m.
    eexists _, _. split; [done|]. split; [|by left]. split; cbn; try done. by rewrite Hbase.
Qed.
End brk.

(** C21 A system call of the guest is run by the handler of its name and
    nothing else happens to the guest's registers: the call whose number is in
    [a7] gets the values of [a0] to [a6], its result is put into [a0], the
    trap is cleared and every other register and [ip] are as before; a number
    that no handler and no skipped call has is a panic. *)
Theorem SyscallLinux_correct {W} host host_mmap host_munmap map_mem mmap_errno (k : @kst W) :
  let syscall := SyscallLinux host host_mmap host_munmap map_mem mmap_errno in
  let implemented := IMPLEMENTED_SYSCALLS host host_mmap host_munmap map_mem mmap_errno in
  (forall name h, (name, h) ∈ implemented -> SyscallID name = Some (get_gpr (k_cpu k) 17) ->
     match h (syscall_args (k_cpu k)) (untrapped k) with
     | KRet (rc, k1) =>
         syscall k = KRet (tt, set_cpu (set_gpr 10 (u32 rc) (set_trapno NONE (k_cpu k))) k1)
     | KPanic => syscall k = KPanic
     | KUndef => syscall k = KUndef
     | KFuel => syscall k = KFuel
     end) /\
  ((forall name, name ∈ (fst <$> implemented) ++ SKIPPED_SYSCALLS -> SyscallID name <> Some (get_gpr (k_cpu k) 17)) ->
   syscall k = KPanic).
Proof.
  cbv zeta. rewrite SyscallLinux_eq. split.
  - intros name h Hin Hno. rewrite (dispatch_implemented _ _ _ _ _ name h _ _ Hin Hno).
    pose proof (Forall_forall (fun p => forall a, keeps (p.2 a)) (IMPLEMENTED_SYSCALLS host host_mmap host_munmap map_mem mmap_errno)) as [HF _].
    pose proof (HF (implemented_keeps _ _ _ _ _) (name, h) Hin (syscall_args (k_cpu k)) (untrapped k)) as Hk. cbn [snd] in Hk.
    destruct (h (syscall_args (k_cpu k)) (untrapped k)) as [[rc k1]| | |]; try done. by rewrite (Hk rc k1 eq_refl).
  - intros H. by rewrite (dispatch_unhandled _ _ _ _ _ _ _ H).
Qed.

(** C38 A breakpoint is never left: the trap is not cleared after [ebreak], so
    [dbt::Execute] returns at once from then on and [ukernel::Execute] goes
    round for ever, advancing [ip] by 4 without running the guest. *)
Theorem ebreak_hangs {W} host host_mmap host_munmap map_mem mmap_errno linux run fuel (k : @kst W) c m :
  terminating k = false -> trapno (k_cpu k) = NONE -> run (k_cpu k) (k_mem k) = KRet (c, m) -> trapno c = EBREAK ->
  Execute host host_mmap host_munmap map_mem mmap_errno linux run fuel k = KFuel.
Proof.
  intros Hk Ht Hr Hc. destruct fuel as [|fuel]; cbn [Execute]; rewrite Hk; [done|].
  assert (E : turn host host_mmap host_munmap map_mem mmap_errno linux run k =
    KRet (tt, set_cpu (set_ip (u32 (ip c + 4)) c) (set_mem m (set_cpu c k)))).
  { unfold turn, dbt_Execute, HandleTrap, IsTrapPending. unfold mbind, KM_bind. rewrite Ht, bool_decide_true by done.
    cbn [negb]. rewrite Hr. unfold k_get. cbn [terminating set_mem set_cpu k_cpu]. rewrite Hk.
    cbn [k_assert negb mret KM_ret k_cpu set_mem set_cpu]. rewrite Hc. done. }
  unfold mbind, KM_bind. rewrite E. by apply ebreak_loop.
Qed.

(** C22 The program break: whatever address the guest asks for, [brk] returns
    the break it leaves.  The break never moves down; when it moves up to the
    requested address the bytes it passes are zero, those below keep their
    values, and the rest of its page is mapped and may be written.  A request for exactly the end
    of the current page does not clear the rest of the page.  When the host
    has no memory nothing changes. *)
Theorem linux_brk_correct {W} host host_mmap host_munmap map_mem mmap_errno newbrk (k : @kst W) :
  host_maps_fixed host_mmap -> maps_anon map_mem -> (forall len m w, (host (SMunmap (-1) len) m w).1.2 = m) ->
  brk_ok k -> 0 <= newbrk -> newbrk + 4096 <= 2 ^ 32 ->
  exists r k', linux_brk host host_mmap host_munmap map_mem mmap_errno newbrk k = KRet (r, k') /\
    u32 r = brk k' /\ brk_ok k' /\
    (if newbrk <=? brk k then k' = k
     else brk_grown newbrk k k' \/ (page_up (brk k) < newbrk /\ brk k' = brk k /\ k_mem k' = k_mem k)).
Proof.
  intros Hf Ha Hu Hk H0 Hb. assert (Hi : forall x, 0 <= x -> x + 4096 <= 2 ^ 32 -> u32 (i32 x) = x).
  { intros x ? ?. unfold uN, sN. zlia. }
  pose proof Hk as [h1 h2 h3 h4]. destruct (Z.leb_spec newbrk (brk k)) as [Hle|Hgt].
  - exists (i32 (brk k)), k. split; [|by rewrite Hi by lia].
    unfold linux_brk. unfold mbind, KM_bind, k_get. by rewrite (proj2 (Z.leb_le _ _)) by lia.
  - destruct (decide (newbrk <= page_up (brk k))) as [Hp|Hp].
    + destruct (brk_in_page host host_mmap host_munmap map_mem mmap_errno newbrk k) as (k' & E & Hok & Hg); [done|lia|done|].
      exists (i32 newbrk), k'. rewrite Hi by lia. destruct Hg as [Hg1 Hg2]. split_and!; try done. left. by split.
    + destruct (brk_past_page host host_mmap host_munmap map_mem mmap_errno Hf Ha Hu newbrk k) as (r & k' & E & Hok & [(-> & Hb' & Hm)|(-> & Hg1 & Hg2)]);
        [done|lia|done|..]; eexists _, k'; (split; [exact E|]); rewrite Hi by lia; (split; [done|]); (split; [done|]);
        [right|left]; split_and!; done || lia.
Qed.

(** ** A concrete kernel *)
Definition demo_host (_ : sysreq) (m : mem) (w : unit) : sysres * mem * unit := (mkRes 0 0 [] "" [], m, w).
Definition demo_mmap (_ : nat) (addr _ _ _ _ _ : Z) : option Z := Some addr.
Definition demo_munmap (_ : nat) (_ _ : Z) : bool := true.
Definition demo_map (m : mem) (a len _ _ _ _ : Z) : mem := zeroed m a len.
Definition demo_kst : @kst unit :=
  mkK (set_gpr 17 93 (set_gpr 10 7 (set_trapno ECALL CPUState_init))) ∅ mmu.init_state ∅ tt 0 "/r/" 3 0x10000 false 0.

Lemma demo_fixed : host_maps_fixed demo_mmap.
Proof. by intros n addr len prot flags fd offs h _ [= <-]. Qed.
Lemma demo_anon : maps_anon demo_map.
Proof. intros m a len prot flags fd offs x _. apply zeroed_lookup. Qed.
Lemma demo_brk_ok : brk_ok demo_kst.
Proof. split; try done; [by vm_compute..|]. intros x Hx. change (page_up (brk demo_kst)) with 0x10000 in Hx. cbn in Hx. lia. Qed.

Lemma linux_brk_correct_witness :
  exists r k', linux_brk demo_host demo_mmap demo_munmap demo_map (fun _ => 0) 0x12345 demo_kst = KRet (r, k') /\ u32 r = brk k'.
Proof.
  destruct (linux_brk_correct demo_host demo_mmap demo_munmap demo_map (fun _ => 0) 0x12345 demo_kst) as (r & k' & E & Hr & _).
  - exact demo_fixed.
  - exact demo_anon.
  - reflexivity.
  - exact demo_brk_ok.
  - lia.
  - lia.
  - exists r, k'. split; [exact E|exact Hr].
Defined.

Lemma ebreak_hangs_witness :
  Execute demo_host demo_mmap demo_munmap demo_map (fun _ => 0) true (fun c m => KRet (set_trapno EBREAK c, m)) 1000
    (set_cpu CPUState_init demo_kst) = KFuel.
Proof.
  apply (ebreak_hangs demo_host demo_mmap demo_munmap demo_map (fun _ => 0) true (fun c m => KRet (set_trapno EBREAK c, m)) 1000
    (set_cpu CPUState_init demo_kst) (set_trapno EBREAK CPUState_init) ∅); reflexivity.
Defined.

(** [exit(7)] ends the main loop with code 7. *)
Example demo_exit :
  match MainThreadExecute demo_host demo_mmap demo_munmap demo_map (fun _ => 0) true (fun c m => KRet (c, m)) 2 demo_kst with
  | KRet (code, k) => (code =? 7) && (get_gpr (k_cpu k) 10 =? 0) && (ip (k_cpu k) =? 4)
  | _ => false
  end = true.
Proof. vm_compute. reflexivity. Qed.

Lemma SyscallLinux_correct_witness :
  exists k', SyscallLinux demo_host demo_mmap demo_munmap demo_map (fun _ => 0) demo_kst = KRet (tt, k') /\
    terminating k' = true /\ termination_code k' = 7.
Proof.
  destruct (SyscallLinux_correct demo_host demo_mmap demo_munmap demo_map (fun _ => 0) demo_kst) as [H _].
  eexists. split; [apply (H "exit" (fun a => linux_exit (arg a 0)))|].
  - unfold IMPLEMENTED_SYSCALLS. do 8 apply list_elem_of_further. apply list_elem_of_here.
  - reflexivity.
  - split; reflexivity.
Defined.
