(* ===== verification/UKernelElf.v ===== *)
(** * The user-mode kernel: loading a program

    The memory image of a loaded segment, and the initial stack read back the
    way the System V ABI lays it out. *)

From stdpp Require Import base tactics numbers list strings gmap pretty.
From S2P Require Import Prelude Common GuestState Tcache Execute Mmu UKernel UKernelProofs.

Import ukernel.

(** ** Segments *)
Definition page_down (x : Z) : Z := x / 4096 * 4096.

(** What the host promises of file mappings: the bytes of the file, zero
    behind its end in the last page. *)
Definition maps_file (map_mem : mem -> Z -> Z -> Z -> Z -> Z -> Z -> mem) (file : Z -> Z -> Z) (size : Z -> Z) : Prop :=
  forall m a len prot flags fd offs x, anon flags = false ->
    (~ (a <= x < a + len) -> map_mem m a len prot flags fd offs !! x = m !! x) /\
    (a <= x < a + len -> page_down (offs + (x - a)) < size fd ->
     map_mem m a len prot flags fd offs !! x = Some (if offs + (x - a) <? size fd then file fd (offs + (x - a)) else 0)).

(** The end of the memory [load_segment] maps. *)
Definition loaded_end (ph : Elf32_Phdr) : Z :=
  if p_filesz ph =? 0 then (if p_memsz ph =? 0 then page_down (p_vaddr ph) else page_up (p_vaddr ph + p_memsz ph))
  else if p_filesz ph <? p_memsz ph then
    page_up (p_vaddr ph + p_filesz ph) +
    page_up (Z.max 0 (page_down (p_vaddr ph) + p_memsz ph - (p_vaddr ph + p_filesz ph)))
  else page_up (p_vaddr ph + p_filesz ph).

(** A segment that lies in the address space and in its file. *)
Record segment_ok (size : Z) (ph : Elf32_Phdr) : Prop := {
  so_load : p_type ph = PT_LOAD;
  so_low : 4096 <= p_vaddr ph;
  so_high : p_vaddr ph + p_memsz ph + 8192 <= 2 ^ 32;
  so_sizes : 0 <= p_filesz ph <= p_memsz ph;
  so_offs : 0 <= p_offset ph /\ p_offset ph + p_filesz ph <= size < 2 ^ 32;
  so_align : p_offset ph mod 4096 = p_vaddr ph mod 4096 }.

Lemma page_roundup32 x : 0 <= x -> x + 4096 <= 2 ^ 32 -> roundup 32 32 x mmu.PAGE_SIZE = page_up x.
Proof. intros Hx Hb. change mmu.PAGE_SIZE with 4096. rewrite roundup_spec by lia. done. Qed.
Lemma page_roundup32_neg x : -4096 < x < 0 -> roundup 32 32 (u32 x) mmu.PAGE_SIZE = 0.
Proof. intros Hx. change mmu.PAGE_SIZE with 4096. unfold roundup, uN. zlia. Qed.
Lemma page_rounddown x : 0 <= x < 2 ^ 32 -> rounddown 32 64 x mmu.PAGE_SIZE = page_down x.
Proof. intros Hx. change mmu.PAGE_SIZE with 4096. rewrite rounddown_spec by (unfold in_u; lia). done. Qed.
Lemma page_up_aligned x : x mod 4096 = 0 -> page_up x = x.
Proof. unfold page_up. zlia. Qed.

(** The page that the end of the file contents shares with the zero bytes is
    cleared by [memset] through its own mapping; without [PF_W] that faults. *)
Definition bss_faults (ph : Elf32_Phdr) : bool :=
  negb (p_filesz ph =? 0) && (p_filesz ph <? p_memsz ph) &&
  (negb (has (p_flags ph) PF_W) && negb ((p_vaddr ph + p_filesz ph) mod 4096 =? 0)).

Lemma has_lor x y f : has (Z.lor x y) f = has x f || has y f.
Proof.
  unfold has. rewrite Z.land_lor_distr_l. apply Bool.eq_iff_eq_true. rewrite orb_true_iff, !negb_true_iff, !Z.eqb_neq, Z.lor_eq_0_iff.
  destruct (decide (Z.land x f = 0)), (decide (Z.land y f = 0)); tauto.
Qed.
(** The protection of the pages is that of the program header. *)
Lemma elf_prot_rights flags :
  has (elf_prot flags) PROT_READ = has flags PF_R /\ has (elf_prot flags) PROT_WRITE = has flags PF_W /\ has (elf_prot flags) PROT_EXEC = has flags PF_X.
Proof. unfold elf_prot. rewrite !has_lor. destruct (has flags PF_R), (has flags PF_W), (has flags PF_X); done. Qed.
Lemma elf_prot_write flags : has (elf_prot flags) PROT_WRITE = has flags PF_W.
Proof. apply elf_prot_rights. Qed.

Section segment.
Context {W : Type}.
Context (host_mmap : nat -> Z -> Z -> Z -> Z -> Z -> Z -> option Z) (host_munmap : nat -> Z -> Z -> bool).
Context (map_mem : mem -> Z -> Z -> Z -> Z -> Z -> Z -> mem) (mmap_errno : mmu.state -> Z).
Context (file : Z -> Z -> Z) (size : Z -> Z).
Context (Hfixed : host_maps_fixed host_mmap) (Hmem : host_has_memory host_mmap) (Hanon : maps_anon map_mem) (Hfile : maps_file map_mem file size).
Notation kst := (@kst W).
Notation mmap := (k_mmap host_mmap host_munmap map_mem mmap_errno).

(** A fixed mapping with its effect on memory and on the rights; one of no
    bytes has none. *)
Definition rights (prot lo hi : Z) (k k' : kst) : Prop :=
  forall f x, may (k_prot k') f x = if bool_decide (lo <= x < hi) then has prot f else may (k_prot k) f x.
Lemma mmap_rights vaddr len prot flags fd offs (k : kst) :
  0 <= vaddr < 2 ^ 32 -> vaddr mod 4096 = 0 -> 0 <= len -> 0 < vaddr + len -> len + 4096 <= 2 ^ 32 -> vaddr + len <= 2 ^ 32 -> fixed flags = true ->
  exists h k', mmap vaddr len prot flags fd offs k = KRet (h, k') /\ k_cpu k' = k_cpu k /\
    rights prot vaddr (vaddr + page_up len) k k' /\ (0 < len -> is_Some h) /\
    k_mem k' = match h with Some _ => map_mem (k_mem k) vaddr (page_up len) prot flags fd offs | None => k_mem k end.
Proof.
  intros H1 Hal H2 H3 H4 H5 H6.
  destruct (k_mmap_fixed host_mmap host_munmap map_mem mmap_errno Hfixed vaddr len prot flags fd offs k) as (h & s & e & E & Hb & _ & Hh); try done.
  exists h. eexists. split; [exact E|]. split; [done|]. split; [|split; [by apply Hh|done]].
  intros f x. cbn [k_prot set_prot]. destruct h as [a|].
  - case_bool_decide as Hx; [by rewrite may_protect_in by (unfold page_up in Hx; lia)|].
    apply may_protect_out; [done|]. unfold page_up in Hx. zlia.
  - rewrite bool_decide_false; [done|]. intros Hx. destruct (Hh Hmem) as [? ?]; [|done]. unfold page_up in Hx. zlia.
Qed.
Lemma mmap_anon vaddr len prot flags fd offs (k : kst) :
  0 <= vaddr < 2 ^ 32 -> vaddr mod 4096 = 0 -> 0 <= len -> 0 < vaddr + len -> len + 4096 <= 2 ^ 32 -> vaddr + len <= 2 ^ 32 ->
  fixed flags = true -> anon flags = true ->
  exists h k', mmap vaddr len prot flags fd offs k = KRet (h, k') /\ k_cpu k' = k_cpu k /\ rights prot vaddr (vaddr + page_up len) k k' /\
    forall x, k_mem k' !! x = if bool_decide (vaddr <= x < vaddr + page_up len) then Some 0 else k_mem k !! x.
Proof.
  intros H1 Hal H2 H3 H4 H5 H6 H7. destruct (mmap_rights vaddr len prot flags fd offs k) as (h & k' & E & Hc & Hr & Hs & Hm); try done.
  exists h, k'. split_and!; try done. intros x. rewrite Hm. destruct h as [a|]; [by rewrite Hanon|].
  rewrite bool_decide_false; [done|]. intros Hx. destruct Hs as [? ?]; [|done]. unfold page_up in Hx. zlia.
Qed.
Lemma mmap_file vaddr len prot flags fd offs (k : kst) :
  0 <= vaddr < 2 ^ 32 -> vaddr mod 4096 = 0 -> 0 < len -> len + 4096 <= 2 ^ 32 -> vaddr + len <= 2 ^ 32 -> fixed flags = true -> anon flags = false ->
  exists h k', mmap vaddr len prot flags fd offs k = KRet (h, k') /\ k_cpu k' = k_cpu k /\ rights prot vaddr (vaddr + page_up len) k k' /\
    (forall x, ~ (vaddr <= x < vaddr + page_up len) -> k_mem k' !! x = k_mem k !! x) /\
    (forall x, vaddr <= x < vaddr + page_up len -> page_down (offs + (x - vaddr)) < size fd ->
      k_mem k' !! x = Some (if offs + (x - vaddr) <? size fd then file fd (offs + (x - vaddr)) else 0)).
Proof.
  intros H1 Hal H2 H4 H5 H6 H7. destruct (mmap_rights vaddr len prot flags fd offs k) as (h & k' & E & Hc & Hr & Hs & Hm); try done; try lia.
  exists h, k'. destruct (Hs H2) as [a ->]. rewrite Hm. split_and!; try done; intros x Hx; [by apply Hfile|]. intros Hx2. by apply Hfile.
Qed.

(** The bytes of the segment as far as they are mapped: the file's, then
    zeros; no memory outside the mapped pages changes. *)
Definition segment_loaded (fd : Z) (ph : Elf32_Phdr) (m m' : mem) : Prop :=
  (forall i, 0 <= i < p_memsz ph -> p_vaddr ph + i < loaded_end ph ->
     m' !! (p_vaddr ph + i) = Some (if i <? p_filesz ph then file fd (p_offset ph + i) else 0)) /\
  (forall x, ~ (page_down (p_vaddr ph) <= x < loaded_end ph) -> m' !! x = m !! x).

(** The zero bytes behind the file contents: the new pages, then the rest of
    the last page of the file, which must be writable. *)
Definition bss_maps (start stop prot : Z) : @KM W unit :=
  _ ← mmap (roundup 32 32 start mmu.PAGE_SIZE) (roundup 32 32 (u32 (stop - start)) mmu.PAGE_SIZE) prot MAP_FIXED_PRIVATE_ANON (-1) 0;
  if negb (u32 (roundup 32 32 start mmu.PAGE_SIZE - start) =? 0)
  then k_memset0 start (u32 (roundup 32 32 start mmu.PAGE_SIZE - start)) else mret tt.
Lemma load_bss vaddr start stop prot (k : kst) :
  4096 <= vaddr <= start -> stop + 8192 <= 2 ^ 32 -> start < 2 ^ 32 - 8192 -> -4096 < stop - start ->
  (forall x, start <= x < page_up start -> is_Some (k_mem k !! x) /\ may (k_prot k) PROT_WRITE x = has prot PROT_WRITE) ->
  if negb (has prot PROT_WRITE) && negb (start mod 4096 =? 0) then bss_maps start stop prot k = KPanic
  else exists k', bss_maps start stop prot k = KRet (tt, k') /\ k_cpu k' = k_cpu k /\
    rights prot (page_up start) (page_up start + page_up (Z.max 0 (stop - start))) k k' /\
    forall x, k_mem k' !! x = if bool_decide (start <= x < page_up start + page_up (Z.max 0 (stop - start))) then Some 0 else k_mem k !! x.
Proof.
  intros Hv Hs1 Hs2 Hd Hm. unfold bss_maps. rewrite (page_roundup32 start) by lia.
  pose proof (page_bounds start ltac:(lia)) as [Hb Hal]. fold (page_up start) in *.
  rewrite (uN_id 32 (page_up start - start)) by (unfold in_u; lia).
  assert (HL : roundup 32 32 (u32 (stop - start)) mmu.PAGE_SIZE = page_up (Z.max 0 (stop - start))).
  { destruct (decide (stop - start < 0)); [rewrite page_roundup32_neg by lia; by rewrite Z.max_l by lia|].
    rewrite Z.max_r by lia. rewrite uN_id by (unfold in_u; lia). apply page_roundup32; lia. }
  rewrite HL. set (L := page_up (Z.max 0 (stop - start))).
  pose proof (page_bounds (Z.max 0 (stop - start)) ltac:(lia)) as [HLb HLa]. fold (page_up (Z.max 0 (stop - start))) in *. fold L in HLb, HLa.
  destruct (mmap_anon (page_up start) L prot MAP_FIXED_PRIVATE_ANON (-1) 0 k) as (h & k1 & E & Hc & Hr & Hk); try lia; try done.
  rewrite (page_up_aligned L HLa) in Hk, Hr. unfold mbind, KM_bind. rewrite E.
  assert (H0 : (start mod 4096 =? 0) = (page_up start - start =? 0)).
  { apply Bool.eq_iff_eq_true. rewrite !Z.eqb_eq. unfold page_up. zlia. }
  rewrite H0. clear H0. assert (Hin : forall x, start <= x < page_up start -> is_Some (k_mem k1 !! x) /\ may (k_prot k1) PROT_WRITE x = has prot PROT_WRITE).
  { intros x Hx. rewrite Hk, Hr, !bool_decide_false by lia. apply Hm. lia. }
  destruct (Z.eqb_spec (page_up start - start) 0) as [H0|H0]; cbn [negb].
  - rewrite andb_false_r. eexists. split; [done|]. split; [done|]. split; [done|]. intros x. rewrite Hk. do 2 case_bool_decide; try done; lia.
  - rewrite andb_true_r. destruct (has prot PROT_WRITE); cbn [negb].
    + rewrite k_memset0_ok by (intros x Hx; apply Hin; lia).
      eexists. split; [done|]. split; [done|]. split; [done|]. intros x. cbn [k_mem set_mem]. rewrite zeroed_lookup, Hk.
      repeat case_bool_decide; try done; lia.
    + unfold k_memset0, k_memcpy. rewrite length_replicate.
      rewrite (may_all_fault _ _ _ start start); [done|lia|]. apply Hin. lia.
Qed.

(** The pages of the file contents. *)
Lemma load_contents fd ph prot (k : kst) :
  segment_ok (size fd) ph -> p_filesz ph <> 0 ->
  let ps := page_down (p_vaddr ph) in
  exists h k', mmap ps (roundup 32 64 (u32 (p_filesz ph + u32 (p_vaddr ph - ps))) mmu.PAGE_SIZE) prot MAP_FIXED_PRIVATE fd
      (u32 (p_offset ph - u32 (p_vaddr ph - ps))) k = KRet (h, k') /\ k_cpu k' = k_cpu k /\
    rights prot ps (page_up (p_vaddr ph + p_filesz ph)) k k' /\
    (forall x, ~ (ps <= x < page_up (p_vaddr ph + p_filesz ph)) -> k_mem k' !! x = k_mem k !! x) /\
    (forall i, 0 <= i < p_filesz ph -> k_mem k' !! (p_vaddr ph + i) = Some (file fd (p_offset ph + i))) /\
    (forall x, ps <= x < page_up (p_vaddr ph + p_filesz ph) -> is_Some (k_mem k' !! x)).
Proof.
  intros [h1 h2 h3 h4 h5 h6] Hne ps. set (V := p_vaddr ph) in *. set (F := p_filesz ph) in *. set (O := p_offset ph) in *.
  assert (Hps : ps <= V < ps + 4096 /\ ps mod 4096 = 0 /\ V - ps <= O /\ (O - (V - ps)) mod 4096 = 0) by (unfold ps, page_down; zlia).
  destruct Hps as (Hps & Hpa & HO & HOa). rewrite (uN_id 32 (V - ps)) by (unfold in_u; lia).
  rewrite (uN_id 32 (O - (V - ps))) by (unfold in_u; lia). rewrite (uN_id 32 (F + (V - ps))) by (unfold in_u; lia).
  rewrite page_roundup by lia. fold (page_up (F + (V - ps))). set (L := page_up (F + (V - ps))).
  assert (HL : L mod 4096 = 0 /\ ps + L = page_up (V + F) /\ 0 < L < F + (V - ps) + 4096) by (unfold L, page_up; zlia).
  destruct HL as (HLa & HLe & HLb). unfold page_up in HLe.
  destruct (mmap_file ps L prot MAP_FIXED_PRIVATE fd (O - (V - ps)) k) as (h & k1 & E & Hc & Hr & Ho & Hi); try lia; try done.
  rewrite (page_up_aligned L HLa) in Ho, Hi, Hr. rewrite HLe in Ho, Hi, Hr. unfold page_up. clearbody ps L.
  exists h, k1. split; [exact E|]. split; [done|]. split; [exact Hr|]. split; [exact Ho|]. split.
  - intros i Hi2. rewrite Hi by (try (unfold page_down); zlia).
    replace (O - (V - ps) + (V + i - ps)) with (O + i) by lia. by rewrite (proj2 (Z.ltb_lt _ _)) by lia.
  - intros x Hx. rewrite Hi; [by eexists|done|]. unfold page_down. zlia.
Qed.

Notation load := (load_segment host_mmap host_munmap map_mem mmap_errno).
(** The image after the header [ph]. *)
Definition elf_after (ph : Elf32_Phdr) (elf : ElfImage) : ElfImage :=
  mkElf (ehdr elf) (Z.min (load_addr elf) (u32 (p_vaddr ph - p_offset ph))) (stack_start elf) (entry elf)
    (Z.max (elf_brk elf) (p_vaddr ph + p_memsz ph)).
Definition loads (fd : Z) (ph : Elf32_Phdr) (elf : ElfImage) (k k' : kst) : Prop :=
  load fd ph elf k = KRet (elf_after ph elf, k') /\ k_cpu k' = k_cpu k /\ segment_loaded fd ph (k_mem k) (k_mem k') /\
  rights (elf_prot (p_flags ph)) (page_down (p_vaddr ph)) (loaded_end ph) k k'.

(** No file contents: the pages are anonymous. *)
Lemma load_segment_anon fd ph elf (k : kst) :
  segment_ok (size fd) ph -> p_filesz ph = 0 -> exists k', loads fd ph elf k k'.
Proof.
  intros [h1 h2 h3 h4 h5 h6] F0. unfold loads, load_segment, segment_loaded, loaded_end, elf_after. rewrite h1, F0, !Z.eqb_refl. cbn [negb].
  rewrite page_rounddown by lia. rewrite (uN_id 32 (p_vaddr ph + p_memsz ph)) by (unfold in_u; lia). cbv zeta.
  set (ps := page_down (p_vaddr ph)). assert (Hps : ps <= p_vaddr ph < ps + 4096 /\ ps mod 4096 = 0) by (unfold ps, page_down; zlia).
  destruct (Z.eqb_spec (p_memsz ph) 0) as [M0|M0]; cbn [negb].
  - eexists. split; [by rewrite M0|]. split; [done|]. split; [split; [lia|done]|]. intros f x. by rewrite bool_decide_false by lia.
  - rewrite (uN_id 32 (p_vaddr ph - ps)) by (unfold in_u; lia). rewrite (uN_id 32 (p_memsz ph + _)) by (unfold in_u; lia).
    rewrite page_roundup32 by lia. set (L := page_up _).
    assert (HL : L mod 4096 = 0 /\ ps + L = page_up (p_vaddr ph + p_memsz ph) /\ 0 < L < p_memsz ph + 8192) by (unfold L, page_up; zlia).
    destruct HL as (HLa & HLe & HLb).
    destruct (mmap_anon ps L (elf_prot (p_flags ph)) MAP_FIXED_PRIVATE_ANON (-1) 0 k) as (h & k1 & E & Hc & Hr & Hk); try lia; try done.
    rewrite (page_up_aligned L HLa), HLe in Hk, Hr. unfold mbind, KM_bind. rewrite E.
    eexists. split; [done|]. split; [done|]. split; [|done]. split.
    + intros i Hi Hi2. rewrite Hk, bool_decide_true by lia. by rewrite (proj2 (Z.ltb_ge _ _)) by lia.
    + intros x Hx. by rewrite Hk, bool_decide_false by lia.
Qed.

(** File contents, and the zero bytes behind them. *)
Lemma load_segment_file fd ph elf (k : kst) :
  segment_ok (size fd) ph -> p_filesz ph <> 0 ->
  if bss_faults ph then load fd ph elf k = KPanic else exists k', loads fd ph elf k k'.
Proof.
  intros Hok F0. pose proof Hok as [h1 h2 h3 h4 h5 h6]. unfold loads, load_segment, segment_loaded, loaded_end, bss_faults, elf_after. rewrite h1, Z.eqb_refl.
  rewrite page_rounddown by lia. rewrite (uN_id 32 (p_vaddr ph + p_memsz ph)) by (unfold in_u; lia).
  rewrite (proj2 (Z.eqb_neq _ _)) by done. cbn [negb andb]. cbv zeta.
  set (ps := page_down (p_vaddr ph)). assert (Hps : ps <= p_vaddr ph < ps + 4096 /\ ps mod 4096 = 0) by (unfold ps, page_down; zlia).
  destruct (load_contents fd ph (elf_prot (p_flags ph)) k Hok F0) as (h & k1 & E & Hc & Hr & Ho & Hi & Hm). fold ps in E, Hr, Ho, Hm.
  unfold mbind, KM_bind. rewrite E. clear E.
  pose proof (page_bounds (p_vaddr ph + p_filesz ph) ltac:(lia)) as [Hb _]. fold (page_up (p_vaddr ph + p_filesz ph)) in Hb.
  destruct (Z.ltb_spec (p_filesz ph) (p_memsz ph)) as [Hlt|Hge]; cbn [andb].
  - rewrite (uN_id 32 (p_vaddr ph + p_filesz ph)) by (unfold in_u; lia). rewrite (uN_id 32 (ps + p_memsz ph)) by (unfold in_u; lia).
    pose proof (load_bss (p_vaddr ph) (p_vaddr ph + p_filesz ph) (ps + p_memsz ph) (elf_prot (p_flags ph)) k1) as HB.
    rewrite elf_prot_write in *. unfold bss_maps, mbind, KM_bind in HB. destruct (_ && _).
    + rewrite HB; [done|lia..|]. intros x Hx. split; [apply Hm; lia|]. rewrite Hr, bool_decide_true by lia. apply elf_prot_write.
    + destruct HB as (k2 & E & Hc2 & Hr2 & Hk); [lia..| |].
      { intros x Hx. split; [apply Hm; lia|]. rewrite Hr, bool_decide_true by lia. apply elf_prot_write. }
      rewrite E. clear E. pose proof (page_bounds (Z.max 0 (ps + p_memsz ph - (p_vaddr ph + p_filesz ph))) ltac:(lia)) as [Hz _].
      fold (page_up (Z.max 0 (ps + p_memsz ph - (p_vaddr ph + p_filesz ph)))) in Hz.
      eexists. split; [done|]. split; [by rewrite Hc2|]. split; [split|].
      * intros i Hi1 Hi2. rewrite Hk. destruct (Z.ltb_spec i (p_filesz ph)).
        { rewrite bool_decide_false by lia. apply Hi. lia. }
        { by rewrite bool_decide_true by lia. }
      * intros x Hx. rewrite Hk, bool_decide_false by lia. apply Ho. lia.
      * intros f x. rewrite Hr2, Hr. repeat case_bool_decide; try done; lia.
  - eexists. split; [done|]. split; [done|]. split; [split|exact Hr].
    + intros i Hi1 Hi2. rewrite (proj2 (Z.ltb_lt _ _)) by lia. apply Hi. lia.
    + exact Ho.
Qed.
End segment.

(** Page-aligned segments, and those with nothing behind the file contents,
    are mapped to their end. *)
Lemma loaded_end_covers size ph :
  segment_ok size ph -> p_vaddr ph mod 4096 = 0 \/ p_filesz ph = 0 \/ p_filesz ph = p_memsz ph -> 0 < p_memsz ph ->
  p_vaddr ph + p_memsz ph <= loaded_end ph.
Proof.
  intros [h1 h2 h3 h4 h5 h6] Hc Hm. unfold loaded_end.
  destruct (Z.eqb_spec (p_filesz ph) 0); [destruct (Z.eqb_spec (p_memsz ph) 0)|destruct (Z.ltb_spec (p_filesz ph) (p_memsz ph))];
    unfold page_up, page_down; zlia.
Qed.

(** The rights of the pages of the segment are its flags', those of all other
    pages are as before. *)
Definition segment_rights {W} (ph : Elf32_Phdr) (k k' : @kst W) : Prop :=
  forall x, if bool_decide (page_down (p_vaddr ph) <= x < loaded_end ph)
    then may (k_prot k') PROT_READ x = has (p_flags ph) PF_R /\ may (k_prot k') PROT_WRITE x = has (p_flags ph) PF_W /\
         may (k_prot k') PROT_EXEC x = has (p_flags ph) PF_X
    else forall f, may (k_prot k') f x = may (k_prot k) f x.
Lemma rights_segment {W} ph (k k' : @kst W) :
  rights (elf_prot (p_flags ph)) (page_down (p_vaddr ph)) (loaded_end ph) k k' -> segment_rights ph k k'.
Proof.
  intros H x. pose proof (elf_prot_rights (p_flags ph)) as (H1 & H2 & H3).
  case_bool_decide as Hx; [rewrite !H, !bool_decide_true by done; done|]. intros f. by rewrite H, bool_decide_false.
Qed.

(** C23 Loading a segment of the program, when it lies within its file and
    the address space and the host has memory.  A segment whose zero bytes
    start inside the last page of its file contents and that is not writable
    ends in a panic, as the page is cleared through its own mapping.  Every
    other segment is loaded: its mapped bytes are those of the file followed
    by zeros, its pages may be read, written and executed as its flags say,
    no byte and no right outside its pages changes, and the break and the load
    address are those of the segments so far.  Page-aligned segments, and
    those without bytes behind the file contents, are mapped to their end. *)
Theorem load_segment_correct {W} host_mmap host_munmap map_mem mmap_errno file size fd ph elf (k : @kst W) :
  host_maps_fixed host_mmap -> host_has_memory host_mmap -> maps_anon map_mem -> maps_file map_mem file size ->
  segment_ok (size fd) ph ->
  if bss_faults ph then load_segment host_mmap host_munmap map_mem mmap_errno fd ph elf k = KPanic
  else exists k', load_segment host_mmap host_munmap map_mem mmap_errno fd ph elf k = KRet (elf_after ph elf, k') /\
    k_cpu k' = k_cpu k /\ segment_loaded file fd ph (k_mem k) (k_mem k') /\ segment_rights ph k k' /\
    (p_vaddr ph mod 4096 = 0 \/ p_filesz ph = 0 \/ p_filesz ph = p_memsz ph ->
     forall i, 0 <= i < p_memsz ph ->
       k_mem k' !! (p_vaddr ph + i) = Some (if i <? p_filesz ph then file fd (p_offset ph + i) else 0)).
Proof.
  intros Hf Hm Ha Hfile Hok.
  assert (Hdone : forall k', loads host_mmap host_munmap map_mem mmap_errno file fd ph elf k k' ->
    p_vaddr ph mod 4096 = 0 \/ p_filesz ph = 0 \/ p_filesz ph = p_memsz ph -> forall i, 0 <= i < p_memsz ph ->
       k_mem k' !! (p_vaddr ph + i) = Some (if i <? p_filesz ph then file fd (p_offset ph + i) else 0)).
  { intros k' (_ & _ & Hl & _) Hcov i Hi. apply (proj1 Hl i Hi). pose proof (loaded_end_covers _ _ Hok Hcov). lia. }
  assert (HL : if bss_faults ph then load_segment host_mmap host_munmap map_mem mmap_errno fd ph elf k = KPanic
    else exists k', loads host_mmap host_munmap map_mem mmap_errno file fd ph elf k k').
  { destruct (decide (p_filesz ph = 0)) as [F0|F0]; [|by eapply load_segment_file].
    assert (Hb : bss_faults ph = false) by (unfold bss_faults; by rewrite F0).
    rewrite Hb. by eapply load_segment_anon. }
  destruct (bss_faults ph); [exact HL|]. destruct HL as [k' Hl]. pose proof Hl as (E & Hc & Hs & Hr).
  exists k'. split_and!; try done; [by apply rights_segment|by apply Hdone].
Qed.

(** ** A concrete file *)
Definition demo_file (_ i : Z) : Z := i mod 256.
Definition demo_size (_ : Z) : Z := 0x3000.
Definition demo_fmap (m : mem) (a len prot flags fd offs : Z) : mem :=
  if anon flags then zeroed m a len
  else put_bytes m a ((fun i => if offs + i <? demo_size fd then demo_file fd (offs + i) else 0) <$> seqZ 0 len).

Lemma demo_fmap_anon : maps_anon demo_fmap.
Proof. intros m a len prot flags fd offs x Ha. unfold demo_fmap. rewrite Ha. apply zeroed_lookup. Qed.
Lemma demo_fmap_file : maps_file demo_fmap demo_file demo_size.
Proof.
  intros m a len prot flags fd offs x Ha. unfold demo_fmap. rewrite Ha. rewrite put_bytes_lookup, length_fmap, length_seqZ.
  split; intros Hx; [by rewrite bool_decide_false by lia|]. intros _. rewrite bool_decide_true by lia.
  rewrite list_lookup_fmap, lookup_seqZ_lt by lia. cbn. by replace (0 + Z.of_nat (Z.to_nat (x - a))) with (x - a) by lia.
Qed.
Lemma demo_memory : host_has_memory demo_mmap.
Proof. done. Qed.

Definition demo_elf : ElfImage := mkElf (mkEhdr [] ET_EXEC EM_RISCV 0x10000 52 1) (2 ^ 32 - 1) 0 0x10000 0.
Definition demo_data : Elf32_Phdr := mkPhdr PT_LOAD 0x1000 0x10000 0x1234 0x3456 (Z.lor PF_R PF_W).
Definition demo_rodata : Elf32_Phdr := mkPhdr PT_LOAD 0x1000 0x10000 0x1234 0x3456 PF_R.
Definition demo_odd : Elf32_Phdr := mkPhdr PT_LOAD 0x100 0x10100 0xf00 0x2000 (Z.lor PF_R PF_W).
Lemma demo_data_ok : segment_ok (demo_size 3) demo_data.
Proof. split; vm_compute; repeat split; congruence. Qed.
Lemma demo_rodata_ok : segment_ok (demo_size 3) demo_rodata.
Proof. split; vm_compute; repeat split; congruence. Qed.
Lemma demo_odd_ok : segment_ok (demo_size 3) demo_odd.
Proof. split; vm_compute; repeat split; congruence. Qed.

Lemma load_segment_correct_witness :
  (exists r k', load_segment demo_mmap demo_munmap demo_fmap (fun _ => 0) 3 demo_data demo_elf demo_kst = KRet (r, k') /\
    k_mem k' !! 0x10123 = Some 0x23 /\ k_mem k' !! 0x13000 = Some 0 /\
    may (k_prot k') PROT_WRITE 0x11000 = true /\ may (k_prot k') PROT_EXEC 0x11000 = false) /\
  load_segment demo_mmap demo_munmap demo_fmap (fun _ => 0) 3 demo_rodata demo_elf demo_kst = KPanic.
Proof.
  split.
  - destruct (load_segment_correct demo_mmap demo_munmap demo_fmap (fun _ => 0) demo_file demo_size 3 demo_data demo_elf demo_kst)
      as (k' & E & _ & _ & Hr & H).
    + exact demo_fixed.
    + exact demo_memory.
    + exact demo_fmap_anon.
    + exact demo_fmap_file.
    + exact demo_data_ok.
    + eexists _, k'. split; [exact E|]. split; [|split].
      * apply (H ltac:(left; reflexivity) 0x123). cbn. lia.
      * apply (H ltac:(left; reflexivity) 0x3000). cbn. lia.
      * specialize (Hr 0x11000). rewrite bool_decide_true in Hr by (split; vm_compute; congruence). split; apply Hr.
  - exact (load_segment_correct demo_mmap demo_munmap demo_fmap (fun _ => 0) demo_file demo_size 3 demo_rodata demo_elf demo_kst
      demo_fixed demo_memory demo_fmap_anon demo_fmap_file demo_rodata_ok).
Defined.

(** The end of the zero bytes is computed from the start of the segment's page
    and not from its address, so a segment that does not start on a page may
    miss its last page. *)
Theorem load_segment_bss_short :
  segment_ok (demo_size 3) demo_odd /\
  exists r k' x, load_segment demo_mmap demo_munmap demo_fmap (fun _ => 0) 3 demo_odd demo_elf demo_kst = KRet (r, k') /\
    p_vaddr demo_odd <= x < p_vaddr demo_odd + p_memsz demo_odd /\ k_mem k' !! x = None.
Proof.
  split; [exact demo_odd_ok|].
  destruct (load_segment_file demo_mmap demo_munmap demo_fmap (fun _ => 0) demo_file demo_size demo_fixed demo_memory demo_fmap_anon
    demo_fmap_file 3 demo_odd demo_elf demo_kst demo_odd_ok) as (k' & E & _ & [_ Hout] & _); [done|].
  eexists _, k', 0x12000. split; [exact E|]. split; [cbn; lia|].
  rewrite Hout; [reflexivity|]. change (loaded_end demo_odd) with 0x12000. lia.
Qed.
