(* ===== verification/UKernelStack.v ===== *)
(** * The user-mode kernel: the initial stack

    [InitAVectors] read back the way the System V ABI lays out the stack of a
    new process: the count of the arguments, their strings, the environment
    and the auxiliary vector. *)

From stdpp Require Import base tactics numbers list strings gmap pretty.
From S2P Require Import Prelude Common GuestState Tcache Execute Mmu UKernel UKernelProofs.

Import ukernel.

(** ** Words *)
Fixpoint put_words (m : mem) (a : Z) (ws : list Z) : mem :=
  match ws with [] => m | w :: ws => put_words (put_le 4 m a w) (a + 4) ws end.
Definition words (ws : list Z) : Z := 4 * Z.of_nat (length ws).

Lemma put_words_app m a ws1 ws2 : put_words m a (ws1 ++ ws2) = put_words (put_words m a ws1) (a + words ws1) ws2.
Proof.
  revert m a. induction ws1 as [|w ws1 IH]; intros m a; cbn [put_words app]; unfold words in *; [by rewrite Z.add_0_r|].
  rewrite IH. cbn [length]. f_equal. lia.
Qed.
Lemma put_words_ne ws : forall m a x, ~ (a <= x < a + words ws) -> put_words m a ws !! x = m !! x.
Proof.
  induction ws as [|w ws IH]; intros m a x Hx; cbn [put_words]; [done|]. unfold words in *. cbn [length] in Hx.
  rewrite IH by lia. apply put_le_lookup_ne. lia.
Qed.
Lemma put_words_load ws : forall m a i w, ws !! i = Some w -> load_le 4 (put_words m a ws) (a + 4 * Z.of_nat i) = Some (u32 w).
Proof.
  induction ws as [|w0 ws IH]; intros m a i w Hi; [done|]. cbn [put_words]. destruct i as [|i]; cbn in Hi.
  - injection Hi as ->. rewrite Z.add_0_r. change (Some (u32 w)) with (Some (uN (8 * Z.of_nat 4) w)). rewrite <- (load_le_put 4 m a w). apply load_le_ext. intros b Hb. apply put_words_ne. lia.
  - replace (a + 4 * Z.of_nat (S i)) with (a + 4 + 4 * Z.of_nat i) by lia. by apply IH.
Qed.

Section protection.
(** The protection of the pages; building the stack changes none. *)
Context (pr : gmap Z Z).

(** All bytes of a range are mapped and may be written. *)
Definition ranges (m : mem) (lo hi : Z) : Prop := forall x, lo <= x < hi -> is_Some (m !! x) /\ may pr PROT_WRITE x = true.
Lemma ranges_put_le m lo hi n a v : ranges m lo hi -> ranges (put_le n m a v) lo hi.
Proof.
  revert m a v. induction n as [|n IH]; intros m a v H; cbn [put_le]; [done|]. apply IH. intros x Hx.
  split; [|by apply H]. destruct (decide (x = a)) as [->|]; [rewrite lookup_insert_eq; by eexists|rewrite lookup_insert_ne by done; by apply H].
Qed.
Lemma ranges_sub m lo hi hi' : ranges m lo hi -> hi' <= hi -> ranges m lo hi'.
Proof. intros H Hle x Hx. apply H. lia. Qed.
Lemma ranges_mapped m lo hi n a :
  ranges m lo hi -> lo <= a -> a + Z.of_nat n <= hi -> mapped n m a = true /\ may_all n pr PROT_WRITE a = true.
Proof. intros H ? ?. split; [apply mapped_range|apply may_all_range]; intros x Hx; apply H; lia. Qed.

(** ** Computations that succeed

    [triple m c Q]: from memory [m], [c] returns, leaves the CPU state alone,
    and the protection of the pages alone, and its result and memory satisfy
    [Q]. *)
Section triple.
Context {W : Type} (host : sysreq -> mem -> W -> sysres * mem * W).
Notation KM := (@KM W).
Definition triple {A} (m : mem) (c : KM A) (Q : A -> mem -> Prop) : Prop :=
  forall k, k_mem k = m -> k_prot k = pr -> exists v k', c k = KRet (v, k') /\ k_cpu k' = k_cpu k /\ k_prot k' = pr /\ Q v (k_mem k').

Lemma kt_bind {A B} m (c : KM A) (f : A -> KM B) Q :
  triple m c (fun v m1 => triple m1 (f v) Q) -> triple m (c ≫= f) Q.
Proof.
  intros H k Hk Hp. destruct (H k Hk Hp) as (v & k1 & E & Hc & Hp1 & H1). destruct (H1 k1 eq_refl Hp1) as (v2 & k2 & E2 & Hc2 & Hp2 & H2).
  exists v2, k2. unfold mbind, KM_bind. rewrite E. split; [done|]. split; [by rewrite Hc2|done].
Qed.
Lemma kt_ret {A} m (a : A) Q : Q a m -> triple m (mret a : KM A) Q.
Proof. intros H k Hk Hp. exists a, k. subst m. done. Qed.
Lemma kt_mono {A} m (c : KM A) (Q Q' : A -> mem -> Prop) : triple m c Q -> (forall v m', Q v m' -> Q' v m') -> triple m c Q'.
Proof. intros H HQ k Hk Hp. destruct (H k Hk Hp) as (v & k' & E & Hc & Hp' & H1). exists v, k'. eauto. Qed.
Lemma kt_sys m r Q :
  (forall m w, (host r m w).1.2 = m) -> (forall rc b p, prot_after r rc b p = p) -> (forall res, Q res m) -> triple m (sys host r) Q.
Proof.
  intros Hh Hr H k Hk Hp. unfold sys. pose proof (Hh (k_mem k) (k_world k)) as Hm. destruct (host _ _ _) as [[res m'] w]. cbn in Hm. subst m' m.
  rewrite Hr. eexists _, _. split; [done|]. split; [done|]. split; [done|]. apply H.
Qed.
Lemma kt_memcpy m a bs (Q : unit -> mem -> Prop) :
  ranges m a (a + Z.of_nat (length bs)) -> Q tt (put_bytes m a bs) -> triple m (k_memcpy a bs : KM unit) Q.
Proof. intros Hr H k Hk Hp. subst m. rewrite k_memcpy_ok by (rewrite Hp; done). by eexists _, _. Qed.

Lemma kt_store m a v (Q : unit -> mem -> Prop) :
  mapped 4 m a = true /\ may_all 4 pr PROT_WRITE a = true -> Q tt (put_le 4 m a v) -> triple m (k_store 4 a v : KM unit) Q.
Proof. intros [Hm Hw] H k Hk Hp. unfold k_store, store_le. subst m. rewrite Hp, Hw, Hm. by eexists _, _. Qed.
Lemma kt_push m lo hi vec v (Q : Z -> mem -> Prop) :
  ranges m lo hi -> 0 <= lo <= vec -> vec + 4 <= hi < 2 ^ 32 -> Q (vec + 4) (put_le 4 m vec v) ->
  triple m (push_avval vec v : KM Z) Q.
Proof.
  intros Hr Hl Hh H. unfold push_avval. apply kt_bind. apply kt_store; [eapply ranges_mapped; [done|lia..]|].
  apply kt_ret. by rewrite uN_id by (unfold in_u; lia).
Qed.
Lemma kt_push_all lo hi vals : forall m vec (Q : Z -> mem -> Prop),
  ranges m lo hi -> 0 <= lo <= vec -> vec + words vals <= hi < 2 ^ 32 -> Q (vec + words vals) (put_words m vec vals) ->
  triple m (push_all vec vals : KM Z) Q.
Proof.
  induction vals as [|v vals IH]; intros m vec Q Hr Hl Hh H; cbn [push_all]; unfold words in *; cbn [length] in *.
  - apply kt_ret. by rewrite Z.add_0_r in H.
  - apply kt_bind. apply (kt_push m lo hi); [done|lia..|]. apply IH; [by apply ranges_put_le|lia..|].
    cbn [put_words] in H. by replace (vec + 4 + 4 * Z.of_nat (length vals)) with (vec + 4 * Z.of_nat (S (length vals))) by lia.
Qed.
(** The words of a part of the auxiliary vector. *)
Definition aux_words (vals : list (Z * Z)) : list Z := flat_map (fun p => [u16 p.1; p.2]) vals.
Lemma kt_push_auxv lo hi vals m vec (Q : Z -> mem -> Prop) :
  ranges m lo hi -> 0 <= lo <= vec -> vec + words (aux_words vals) <= hi < 2 ^ 32 ->
  Q (vec + words (aux_words vals)) (put_words m vec (aux_words vals)) -> triple m (push_auxv vec vals : KM Z) Q.
Proof.
  revert m vec. induction vals as [|[idx v] vals IH]; intros m vec Hr Hl Hh H; cbn [push_auxv aux_words flat_map app]; unfold words in *.
  - apply kt_ret. cbn in H. by rewrite Z.add_0_r in H.
  - change (aux_words ((idx, v) :: vals)) with (u16 idx :: v :: aux_words vals) in *. cbn [length] in *.
    apply kt_bind. apply (kt_push m lo hi); [done|lia..|]. apply kt_bind.
    apply (kt_push _ lo hi); [by apply ranges_put_le|lia..|]. apply IH; [by do 2 apply ranges_put_le|lia..|]. cbn [put_words] in H.
    by replace (vec + 4 + 4 + 4 * Z.of_nat (length (aux_words vals))) with (vec + 4 * Z.of_nat (S (S (length (aux_words vals))))) by lia.
Qed.
End triple.

(** ** Strings *)

(** What [argv] can hold. *)
Definition c_string (s : string) : Prop :=
  Z.of_nat (String.length s) < 65535 /\ Forall (fun b => b <> 0) (str_bytes s).
Definition str_size (s : string) : Z := Z.of_nat (String.length s) + 1.
(** The bytes of [s] with its NUL lie at [p]. *)
Definition str_at (m : mem) (p : Z) (bs : list Z) : Prop := forall i b, bs !! i = Some b -> m !! (p + Z.of_nat i) = Some b.

Lemma str_at_put m p bs : str_at (put_bytes m p bs) p bs.
Proof.
  intros i b Hi. rewrite put_bytes_lookup. pose proof (lookup_lt_Some _ _ _ Hi). rewrite bool_decide_true by lia.
  by replace (Z.to_nat (p + Z.of_nat i - p)) with i by lia.
Qed.
Lemma str_at_ext m m' p bs :
  str_at m p bs -> (forall x, p <= x < p + Z.of_nat (length bs) -> m' !! x = m !! x) -> str_at m' p bs.
Proof. intros H He i b Hi. pose proof (lookup_lt_Some _ _ _ Hi). rewrite He by lia. by apply H. Qed.
Lemma str_at_keep m p bs a cs : str_at m p bs -> a + Z.of_nat (length cs) <= p -> str_at (put_bytes m a cs) p bs.
Proof. intros H Ha. eapply str_at_ext; [exact H|]. intros x Hx. rewrite put_bytes_lookup. by rewrite bool_decide_false by lia. Qed.
Lemma str_bytes_cons c s : str_bytes (String c s) = Z.of_N (Ascii.N_of_ascii c) :: str_bytes s.
Proof. done. Qed.
Lemma length_c_str s : Z.of_nat (length (c_str s)) = str_size s.
Proof.
  unfold c_str, str_size. rewrite length_app. cbn [length]. assert (H : length (str_bytes s) = String.length s); [|lia].
  induction s as [|c s IH]; [done|]. rewrite str_bytes_cons. cbn [length String.length]. lia.
Qed.
Lemma read_cstr_at s : forall fuel m p,
  str_at m p (c_str s) -> Forall (fun b => b <> 0) (str_bytes s) -> (String.length s < fuel)%nat -> read_cstr fuel m p = Some s.
Proof.
  induction s as [|c s IH]; intros fuel m p Hat Hnz Hf; (destruct fuel as [|fuel]; [lia|]); cbn [read_cstr].
  - pose proof (Hat 0%nat 0 eq_refl) as H0. rewrite Z.add_0_r in H0. by rewrite H0.
  - rewrite str_bytes_cons in Hnz. apply Forall_cons in Hnz as [Hc Hnz].
    pose proof (Hat 0%nat _ eq_refl) as H0. rewrite Z.add_0_r in H0. rewrite H0. cbn [mbind option_bind].
    rewrite (proj2 (Z.eqb_neq _ _)) by done. cbn [String.length] in Hf. rewrite (IH fuel m (p + 1)); [|..|done|lia].
    + cbn. by rewrite N2Z.id, Ascii.ascii_N_embedding.
    + intros i b Hi. specialize (Hat (S i) b Hi). by replace (p + 1 + Z.of_nat i) with (p + Z.of_nat (S i)) by lia.
Qed.
Lemma ranges_put_bytes m lo hi a bs : ranges m lo hi -> ranges (put_bytes m a bs) lo hi.
Proof.
  intros H x Hx. split; [|by apply H]. rewrite put_bytes_lookup. case_bool_decide; [|by apply H]. apply lookup_lt_is_Some_2. lia.
Qed.

Section strings.
Context {W : Type}.
Notation KM := (@KM W).

Lemma kt_alloc lo stk bs n m (Q : Z -> mem -> Prop) :
  ranges m lo stk -> n = Z.of_nat (length bs) -> n < 65536 -> 0 <= lo -> stk < 2 ^ 32 -> lo + n <= stk ->
  Q (stk - n) (put_bytes m (stk - n) bs) -> triple m (AllocAVectorStr_sz stk bs n : KM Z) Q.
Proof.
  intros Hr -> Hn Hlo Hs Hf H. unfold AllocAVectorStr_sz. rewrite (uN_id 16) by (unfold in_u; lia).
  rewrite (uN_id 32) by (unfold in_u; lia). rewrite Nat2Z.id, firstn_all. apply kt_bind. apply kt_memcpy; [|by apply kt_ret].
  intros x Hx. apply Hr. lia.
Qed.

(** The strings of the arguments, each at its pointer, below one another. *)
Definition strs_at (m : mem) (lo hi : Z) (ps : list Z) (argv : list string) : Prop :=
  Forall2 (fun p s => str_at m p (c_str s) /\ lo <= p /\ p + str_size s <= hi) ps argv.
Definition sizes (argv : list string) : Z := foldr (fun s n => str_size s + n) 0 argv.
Lemma sizes_nonneg argv : 0 <= sizes argv.
Proof. induction argv as [|s argv IH]; cbn [sizes foldr]; [lia|]. fold (sizes argv). unfold str_size. lia. Qed.

Lemma kt_alloc_args lo hi argv : Forall c_string argv -> forall stk m (Q : Z * list Z -> mem -> Prop),
  ranges m lo hi -> stk <= hi -> 0 <= lo -> stk < 2 ^ 32 -> lo + sizes argv <= stk ->
  (forall m' ps, ranges m' lo hi -> (forall x, ~ (stk - sizes argv <= x < stk) -> m' !! x = m !! x) ->
     strs_at m' (stk - sizes argv) stk ps argv -> Q (stk - sizes argv, ps) m') ->
  triple m (alloc_args stk argv : KM (Z * list Z)) Q.
Proof.
  induction 1 as [|s argv [Hlen Hnz] Hargv IH]; intros stk m Q Hr Hs Hlo Hlt Hf HQ; cbn [alloc_args].
  - apply kt_ret. cbn [sizes foldr] in HQ. rewrite Z.sub_0_r in HQ. apply HQ; [done|done|constructor].
  - pose proof (sizes_nonneg argv) as Hnn. cbn [sizes foldr] in Hf, HQ. fold (sizes argv) in Hf, HQ.
    assert (Hsz : 0 < str_size s < 65536) by (unfold str_size; lia).
    apply kt_bind. unfold AllocAVectorStr. fold (str_size s).
    apply (kt_alloc lo); [intros x Hx; apply Hr; lia|by rewrite length_c_str|lia..|].
    apply kt_bind. apply IH; [by apply ranges_put_bytes|lia..|]. intros m' ps Hr' Hfr Hat. cbn. apply kt_ret.
    replace (stk - str_size s - sizes argv) with (stk - (str_size s + sizes argv)) in * by lia. apply HQ; [done|..].
    + intros x Hx. rewrite Hfr by lia. rewrite put_bytes_lookup, length_c_str. by rewrite bool_decide_false by lia.
    + constructor.
      * split; [|lia]. eapply str_at_ext; [apply str_at_put|]. rewrite length_c_str. intros x Hx. apply Hfr. lia.
      * eapply Forall2_impl; [exact Hat|]. intros p s' (H1 & H2 & H3). split; [done|]. lia.
Qed.
End strings.

(** ** Masks that align downwards *)
Lemma land_align n mask x : 0 <= n -> mask = Z.ldiff (Z.ones 32) (Z.ones n) -> in_u 32 x -> Z.land x mask = x / 2 ^ n * 2 ^ n.
Proof.
  intros Hn -> Hx. rewrite <- Z.shiftr_div_pow2, <- Z.shiftl_mul_pow2, <- Z.ldiff_ones_r by lia.
  rewrite <- (uN_id 32 x Hx) at 2. rewrite <- land_ones_uN by lia.
  apply Z.bits_inj'. intros i Hi. rewrite !Z.land_spec, !Z.ldiff_spec, !Z.land_spec.
  by destruct (Z.testbit x i), (Z.testbit (Z.ones 32) i).
Qed.

(** ** The whole stack *)

(** The auxiliary vector for what the host answered. *)
Definition auxv_of (elf : ElfImage) (foo salt uid gid euid egid tck : Z) : list (Z * Z) :=
  [ (AT_PHDR, u32 (e_phoff (ehdr elf) + load_addr elf)); (AT_PHENT, sizeof_Phdr); (AT_PHNUM, e_phnum (ehdr elf));
    (AT_PAGESZ, mmu.PAGE_SIZE); (AT_BASE, 0); (AT_FLAGS, 0); (AT_ENTRY, entry elf); (AT_UID, u32 uid); (AT_GID, u32 gid);
    (AT_EUID, u32 euid); (AT_EGID, u32 egid); (AT_EXECFN, foo); (AT_SECURE, 0); (AT_HWCAP, 0); (AT_CLKTCK, u32 tck);
    (AT_RANDOM, salt) ].
Definition stack_words (argc lc : Z) (ps : list Z) (auxv : list (Z * Z)) : list Z :=
  argc :: ps ++ [0; lc; 0] ++ aux_words (auxv ++ [(AT_NULL, 0)]).

Section stack.
Context {W : Type} (host : sysreq -> mem -> W -> sysres * mem * W).
(** The host's identity calls do not touch the guest's memory. *)
Definition host_ids : Prop :=
  forall r, r ∈ [SGetuid; SGetgid; SGeteuid; SGetegid; SSysconfClkTck] -> forall m w, (host r m w).1.2 = m.
Context (Hids : host_ids).
Notation KM := (@KM W).

Section pushes.
Context (lo hi stk : Z) (m1 : mem) (Hr : ranges m1 lo hi) (Hlo : 0 <= lo <= stk) (Hhi : hi < 2 ^ 32).
Lemma ranges_put_words ws m a : ranges m lo hi -> ranges (put_words m a ws) lo hi.
Proof. revert m a. induction ws as [|w ws IH]; intros m a H; [done|]. cbn [put_words]. apply IH. by apply ranges_put_le. Qed.
Lemma words_app a b : words (a ++ b) = words a + words b.
Proof. unfold words. rewrite length_app. lia. Qed.
Lemma words_nonneg ws : 0 <= words ws.
Proof. unfold words. lia. Qed.
Lemma kt_push1 pre v vec (Q : Z -> mem -> Prop) :
  vec = stk + words pre -> stk + words (pre ++ [v]) <= hi ->
  Q (stk + words (pre ++ [v])) (put_words m1 stk (pre ++ [v])) -> triple (put_words m1 stk pre) (push_avval vec v : KM Z) Q.
Proof.
  intros -> Hb H. rewrite words_app in *. rewrite put_words_app in H. pose proof (words_nonneg pre). change (words [v]) with 4 in *.
  apply (kt_push _ lo hi); [by apply ranges_put_words|lia..|]. by rewrite <- Z.add_assoc.
Qed.
Lemma kt_pushs pre vals vec (Q : Z -> mem -> Prop) :
  vec = stk + words pre -> stk + words (pre ++ vals) <= hi ->
  Q (stk + words (pre ++ vals)) (put_words m1 stk (pre ++ vals)) -> triple (put_words m1 stk pre) (push_all vec vals : KM Z) Q.
Proof.
  intros -> Hb H. rewrite words_app in *. rewrite put_words_app in H. pose proof (words_nonneg pre).
  apply (kt_push_all lo hi); [by apply ranges_put_words|lia..|]. by rewrite <- Z.add_assoc.
Qed.
Lemma kt_pusha pre vals vec (Q : Z -> mem -> Prop) :
  vec = stk + words pre -> stk + words (pre ++ aux_words vals) <= hi ->
  Q (stk + words (pre ++ aux_words vals)) (put_words m1 stk (pre ++ aux_words vals)) ->
  triple (put_words m1 stk pre) (push_auxv vec vals : KM Z) Q.
Proof.
  intros -> Hb H. rewrite words_app in *. rewrite put_words_app in H. pose proof (words_nonneg pre).
  apply (kt_push_auxv lo hi); [by apply ranges_put_words|lia..|]. by rewrite <- Z.add_assoc.
Qed.
End pushes.

(** The bytes the vectors may need. *)
Definition stack_need (argv : list string) : Z := 64 + sizes argv + 4 * (Z.of_nat (length argv) + 68).

(** The stack that [InitAVectors] builds below [s0]: the words at [stk], the
    strings above them. *)
Inductive stack_built (elf : ElfImage) (argv : list string) (elf' : ElfImage) (m' : mem) : Prop :=
| Built (m : mem) (ps : list Z) (uid gid euid egid tck : Z)
    (sb_elf : elf' = mkElf (ehdr elf) (load_addr elf) (stack_start elf') (entry elf) (elf_brk elf))
    (sb_align : stack_start elf' mod 16 = 0)
    (sb_range : stack_start elf - stack_need argv <= stack_start elf' <=
      stack_start elf - 37 - sizes argv - 4 * (Z.of_nat (length argv) + 68))
    (sb_mem : m' = put_words m (stack_start elf')
      (stack_words (Z.of_nat (length argv)) (stack_start elf - 21) ps
         (auxv_of elf (stack_start elf - 12) (stack_start elf - 37) uid gid euid egid tck)))
    (sb_args : strs_at m (stack_start elf - 37 - sizes argv) (stack_start elf - 37) ps argv)
    (sb_env : str_at m (stack_start elf - 21) (c_str "LC_ALL=C"))
    (sb_foo : str_at m (stack_start elf - 12) (c_str "__foo_str__"))
    (sb_salt : str_at m (stack_start elf - 37) auxv_salt).

Lemma align_down stk n : in_u 32 stk -> 0 <= n -> stk - n - 18 >= 0 ->
  let s := Z.land (u32 (Z.land stk (u32 (-4)) - n)) (u32 (-16)) in s mod 16 = 0 /\ stk - n - 18 <= s <= stk - n.
Proof.
  intros Hs Hn Hb s. unfold s. rewrite (land_align 2 (u32 (-4)) stk) by done. change (2 ^ 2) with 4.
  assert (H4 : stk - 3 <= stk / 4 * 4 <= stk) by zlia. unfold in_u in Hs.
  rewrite (uN_id 32) by (unfold in_u; lia). rewrite (land_align 4 (u32 (-16))) by (done || (unfold in_u; lia)).
  change (2 ^ 4) with 16. zlia.
Qed.

(** The fixed strings. *)
Lemma kt_strings {B} s0 lo argv m (f : Z -> Z -> Z -> Z * list Z -> KM B) (Q : B -> mem -> Prop) :
  Forall c_string argv -> ranges m lo s0 -> 0 <= lo -> s0 < 2 ^ 32 -> lo + 37 + sizes argv <= s0 ->
  (forall m' ps, ranges m' lo s0 -> strs_at m' (s0 - 37 - sizes argv) (s0 - 37) ps argv -> str_at m' (s0 - 21) (c_str "LC_ALL=C") ->
     str_at m' (s0 - 12) (c_str "__foo_str__") -> str_at m' (s0 - 37) auxv_salt -> triple m' (f (s0 - 12) (s0 - 21) (s0 - 37) (s0 - 37 - sizes argv, ps)) Q) ->
  triple m (foo ← AllocAVectorStr s0 "__foo_str__"; lc ← AllocAVectorStr foo "LC_ALL=C";
            salt ← AllocAVectorStr_sz lc auxv_salt 16; p ← alloc_args salt argv; f foo lc salt p) Q.
Proof.
  intros Ha Hr Hlo Hs Hf HQ. pose proof (sizes_nonneg argv) as Hnn. apply kt_bind. unfold AllocAVectorStr.
  apply (kt_alloc lo); [done|done|by vm_compute|lia|lia|cbn; lia|]. apply kt_bind.
  apply (kt_alloc lo); [eapply ranges_sub; [by apply ranges_put_bytes|lia]|done|by vm_compute|lia|lia|cbn; lia|].
  change (Z.of_nat (String.length "__foo_str__") + 1) with 12. change (Z.of_nat (String.length "LC_ALL=C") + 1) with 9.
  replace (s0 - 12 - 9) with (s0 - 21) by lia. apply kt_bind.
  apply (kt_alloc lo); [eapply ranges_sub; [by do 2 apply ranges_put_bytes|lia]|done|done|lia|lia|lia|].
  replace (s0 - 21 - 16) with (s0 - 37) by lia. apply kt_bind.
  apply (kt_alloc_args lo s0); [done|by do 3 apply ranges_put_bytes|lia..|].
  intros m' ps Hr' Hfr Hat.
  assert (Hext : forall p bs, s0 - 37 <= p -> str_at (put_bytes (put_bytes (put_bytes m (s0 - 12) (c_str "__foo_str__")) (s0 - 21) (c_str "LC_ALL=C")) (s0 - 37) auxv_salt) p bs -> str_at m' p bs).
  { intros p bs Hp Hb. eapply str_at_ext; [exact Hb|]. intros x Hx. apply Hfr. lia. }
  assert (H16 : Z.of_nat (length auxv_salt) = 16) by done. assert (H9 : Z.of_nat (length (c_str "LC_ALL=C")) = 9) by done.
  apply HQ; [done|done|..]; apply Hext; try lia.
  - apply str_at_keep; [apply str_at_put|lia].
  - do 2 (apply str_at_keep; [|lia]). apply str_at_put.
  - apply str_at_put.
Qed.

Ltac host_call := apply kt_bind; apply (kt_sys host); [apply Hids; set_solver|done|intros ?].
Ltac vec_lia := unfold words in *; rewrite ?length_app; cbn [length aux_words flat_map app fst snd]; lia.

Lemma kt_InitAVectors elf argv m :
  Forall c_string argv -> stack_need argv <= stack_start elf < 2 ^ 32 -> ranges m (stack_start elf - stack_need argv) (stack_start elf) ->
  triple m (InitAVectors host elf argv) (fun elf' m' => stack_built elf argv elf' m').
Proof.
  intros Ha Hb Hr. pose proof (sizes_nonneg argv) as Hnn. unfold stack_need in *. set (s0 := stack_start elf) in *. set (lo := s0 - _) in *.
  unfold InitAVectors. fold s0. apply (kt_strings s0 lo); [done|done|lia|lia|lia|]. intros m1 ps Hr1 Hargs Henv Hfoo Hsalt.
  pose proof (Forall2_length _ _ _ Hargs) as Hlen. cbv zeta.
  replace ((Z.of_nat (length argv) + 1 + 64 + 3) * 4) with (4 * (Z.of_nat (length argv) + 68)) by lia.
  pose proof (align_down (s0 - 37 - sizes argv) (4 * (Z.of_nat (length argv) + 68)) ltac:(unfold in_u; lia) ltac:(lia) ltac:(lia)) as [Hal Hst].
  set (stk := Z.land (u32 (Z.land (s0 - 37 - sizes argv) _ - _)) _) in *. clearbody stk. set (n := Z.of_nat (length argv)) in *.
  rewrite (uN_id 32 (stk + 4)) by (unfold in_u; lia). rewrite (uN_id 32 (stk + 4 + _)) by (unfold in_u; lia).
  rewrite (uN_id 32 (stk + 4 + _ + _)) by (unfold in_u; lia).
  assert (Hlo : 0 <= lo <= stk) by lia. assert (Hhi : s0 < 2 ^ 32) by lia.
  change m1 with (put_words m1 stk []) at 1.
  apply kt_bind. apply (kt_push1 lo s0); [done..|vec_lia|vec_lia|]. cbn [app].
  apply kt_bind. apply (kt_pushs lo s0); [done..|vec_lia|vec_lia|].
  apply kt_bind. apply (kt_push1 lo s0); [done..|vec_lia|].
  apply kt_bind. apply (kt_push1 lo s0); [done..|vec_lia|vec_lia|].
  apply kt_bind. apply (kt_push1 lo s0); [done..|vec_lia|].
  apply kt_bind. apply (kt_pusha lo s0); [done..|vec_lia|vec_lia|].
  host_call. apply kt_bind. apply (kt_pusha lo s0); [done..|vec_lia|].
  host_call. apply kt_bind. apply (kt_pusha lo s0); [done..|vec_lia|].
  host_call. apply kt_bind. apply (kt_pusha lo s0); [done..|vec_lia|].
  host_call. apply kt_bind. apply (kt_pusha lo s0); [done..|vec_lia|].
  apply kt_bind. apply (kt_pusha lo s0); [done..|vec_lia|].
  host_call. apply kt_bind. apply (kt_pusha lo s0); [done..|vec_lia|].
  apply kt_ret.
  eapply (Built _ _ _ _ m1 ps); cbn [stack_start]; fold s0; try done; [unfold stack_need; fold n; lia|].
  unfold stack_words, auxv_of. cbn [aux_words flat_map app fst snd]. f_equal. rewrite <- !app_assoc. reflexivity.
Qed.
End stack.
End protection.

(** ** Reading the stack back

    [ABI_MAX] bounds the strings and the environment the reader follows. *)

(** The pointers up to the null pointer, and the position behind it. *)
Fixpoint read_ptrs (fuel : nat) (m : mem) (a : Z) : option (list Z * Z) :=
  match fuel with
  | O => None
  | S fuel =>
      w ← load_le 4 m a;
      if w =? 0 then Some ([], a + 4)
      else '(ps, b) ← read_ptrs fuel m (a + 4); Some (w :: ps, b)
  end.
Fixpoint read_auxv (fuel : nat) (m : mem) (a : Z) : option (list (Z * Z)) :=
  match fuel with
  | O => None
  | S fuel =>
      idx ← load_le 4 m a; v ← load_le 4 m (a + 4);
      if idx =? AT_NULL then Some []
      else l ← read_auxv fuel m (a + 8); Some ((idx, v) :: l)
  end.
Record process_stack := mkStack { ps_argc : Z; ps_argv : list string; ps_envp : list string; ps_auxv : list (Z * Z) }.
Definition read_stack (ABI_MAX : nat) (m : mem) (sp : Z) : option process_stack :=
  argc ← load_le 4 m sp;
  '(args, a) ← read_ptrs (S (Z.to_nat argc)) m (sp + 4);
  '(envs, a) ← read_ptrs ABI_MAX m a;
  auxv ← read_auxv ABI_MAX m a;
  argv ← mapM (read_cstr ABI_MAX m) args;
  envp ← mapM (read_cstr ABI_MAX m) envs;
  Some (mkStack argc argv envp auxv).

Definition at_words (m : mem) (a : Z) (ws : list Z) : Prop :=
  forall i w, ws !! i = Some w -> load_le 4 m (a + 4 * Z.of_nat i) = Some (u32 w).
Lemma at_words_cons m a w ws : at_words m a (w :: ws) -> load_le 4 m a = Some (u32 w) /\ at_words m (a + 4) ws.
Proof.
  intros H. split; [rewrite <- (H 0%nat w eq_refl); f_equal; lia|].
  intros i w' Hi. rewrite <- (H (S i) w' Hi). f_equal. lia.
Qed.
Lemma read_ptrs_at m ps : forall fuel a rest,
  at_words m a (ps ++ 0 :: rest) -> Forall (fun p => 0 < p < 2 ^ 32) ps -> (length ps < fuel)%nat ->
  read_ptrs fuel m a = Some (ps, a + words ps + 4) /\ at_words m (a + words ps + 4) rest.
Proof.
  induction ps as [|p ps IH]; intros fuel a rest Hat Hps Hf; (destruct fuel as [|fuel]; [cbn in Hf; lia|]); cbn [app read_ptrs] in *;
    apply at_words_cons in Hat as [Hw Hat]; rewrite Hw; cbn [mbind option_bind]; unfold words in *; cbn [length] in *.
  - change (u32 0 =? 0) with true. rewrite Z.add_0_r. by split.
  - apply Forall_cons in Hps as [Hp Hps]. rewrite (uN_id 32 p) by (unfold in_u; lia). rewrite (proj2 (Z.eqb_neq _ _)) by lia.
    destruct (IH fuel (a + 4) rest Hat Hps ltac:(lia)) as [E Hr].
    replace (a + 4 + 4 * Z.of_nat (length ps)) with (a + 4 * Z.of_nat (S (length ps))) in * by lia.
    rewrite E. by split.
Qed.
Lemma read_auxv_at m l : forall fuel a,
  at_words m a (aux_words (l ++ [(AT_NULL, 0)])) -> Forall (fun p => 0 < p.1 < 2 ^ 16) l -> (length l < fuel)%nat ->
  read_auxv fuel m a = Some ((fun p => (p.1, u32 p.2)) <$> l).
Proof.
  induction l as [|[idx v] l IH]; intros fuel a Hat Hl Hf; (destruct fuel as [|fuel]; [cbn in Hf; lia|]); cbn [read_auxv];
    cbn [aux_words flat_map app fst snd] in Hat; apply at_words_cons in Hat as [H1 Hat]; apply at_words_cons in Hat as [H2 Hat];
    rewrite H1, H2; cbn [mbind option_bind].
  - done.
  - apply Forall_cons in Hl as [Hi Hl]. cbn [fst] in Hi. rewrite (uN_id 16 idx) by (unfold in_u; lia). rewrite (uN_id 32 idx) by (unfold in_u; lia).
    rewrite (proj2 (Z.eqb_neq _ _)) by (unfold AT_NULL; lia). cbn [length] in Hf.
    replace (a + 4 + 4) with (a + 8) in Hat by lia. rewrite (IH fuel (a + 8) Hat Hl) by lia. done.
Qed.

Lemma length_aux_words l : length (aux_words l) = (2 * length l)%nat.
Proof. induction l as [|p l IH]; [done|]. change (aux_words (p :: l)) with (u16 p.1 :: p.2 :: aux_words l). cbn [length]. lia. Qed.
Lemma words_stack argc lc ps auxv : words (stack_words argc lc ps auxv) = 4 * (Z.of_nat (length ps) + 2 * Z.of_nat (length auxv) + 6).
Proof. unfold words, stack_words. cbn [length]. rewrite !length_app, length_aux_words, length_app. cbn [length]. lia. Qed.

(** A string above the words. *)
Lemma read_above ABI_MAX m stk ws p s :
  65535 <= Z.of_nat ABI_MAX -> str_at m p (c_str s) -> c_string s -> stk + words ws <= p -> read_cstr ABI_MAX (put_words m stk ws) p = Some s.
Proof.
  intros HM Hat [Hlen Hnz] Hp. apply read_cstr_at; [|done|lia].
  eapply str_at_ext; [exact Hat|]. intros x Hx. apply put_words_ne. lia.
Qed.

Lemma c_string_fixed : c_string "LC_ALL=C" /\ c_string "__foo_str__".
Proof. split; (split; [by vm_compute|apply (bool_decide_unpack _); vm_compute; exact I]). Qed.

Lemma stack_built_read ABI_MAX elf argv elf' m' :
  65535 <= Z.of_nat ABI_MAX -> Forall c_string argv -> stack_need argv <= stack_start elf < 2 ^ 32 -> stack_built elf argv elf' m' ->
  exists uid gid euid egid tck,
    read_stack ABI_MAX m' (stack_start elf') = Some (mkStack (Z.of_nat (length argv)) argv ["LC_ALL=C"]
      ((fun p => (p.1, u32 p.2)) <$> auxv_of elf (stack_start elf - 12) (stack_start elf - 37) uid gid euid egid tck)) /\
    read_cstr ABI_MAX m' (stack_start elf - 12) = Some "__foo_str__" /\ str_at m' (stack_start elf - 37) auxv_salt.
Proof.
  intros HM Ha Hb [m ps uid gid euid egid tck Helf Hal Hr Hm Hargs Henv Hfoo Hsalt]. exists uid, gid, euid, egid, tck.
  pose proof (sizes_nonneg argv) as Hnn. pose proof (Forall2_length _ _ _ Hargs) as Hlen. destruct c_string_fixed as [Hlc Hfs].
  unfold stack_need in *. set (ax := auxv_of _ _ _ _ _ _ _ _) in *. set (s0 := stack_start elf) in *. set (stk := stack_start elf') in *.
  set (ws := stack_words _ _ _ _) in *. assert (Hw : stk + words ws <= s0 - 37 - sizes argv).
  { unfold ws. rewrite words_stack, Hlen. change (length ax) with 16%nat. lia. }
  assert (Hat : at_words m' stk ws) by (intros i w Hi; subst m'; by apply put_words_load).
  split; [|split].
  - unfold read_stack. unfold ws, stack_words in Hat. apply at_words_cons in Hat as [H0 Hat]. rewrite H0. cbn [mbind option_bind].
    rewrite (uN_id 32) by (unfold in_u; lia). rewrite Nat2Z.id. cbn [app] in Hat.
    destruct (read_ptrs_at _ _ (S (length argv)) _ _ Hat) as [E1 Hat1]; [|lia|].
    { eapply Forall2_Forall_l; [exact Hargs|]. apply Forall_forall. intros s Hs p (_ & Hp1 & Hp2). unfold str_size in Hp2. lia. }
    rewrite E1. cbn [mbind option_bind]. change (s0 - 21 :: 0 :: ?r) with ([s0 - 21] ++ 0 :: r) in Hat1.
    destruct (read_ptrs_at _ _ ABI_MAX _ _ Hat1) as [E2 Hat2]; [apply Forall_singleton; lia|cbn [length]; lia|].
    rewrite E2. cbn [mbind option_bind]. rewrite (read_auxv_at _ _ ABI_MAX _ Hat2); cycle 1.
    { apply (bool_decide_unpack _). vm_compute. exact I. }
    { change (length ax) with 16%nat. lia. }
    cbn [mbind option_bind]. subst m'. rewrite (mapM_Some_2 _ ps argv); cycle 1.
    { apply Forall2_same_length_lookup_2; [done|]. intros i p s Hp Hs.
      destruct (Forall2_lookup_lr _ _ _ i p s Hargs Hp Hs) as (Hstr & Hp1 & _).
      apply read_above; [done|done|exact (Forall_lookup_1 _ _ _ _ Ha Hs)|lia]. }
    cbn [mbind option_bind mapM]. rewrite (read_above ABI_MAX m stk ws _ "LC_ALL=C"); [done|done|done|done|lia].
  - subst m'. apply read_above; [done|done|done|lia].
  - subst m'. eapply str_at_ext; [exact Hsalt|]. intros x Hx. apply put_words_ne. lia.
Qed.

(** C24 The initial stack of the program is the one the System V ABI
    prescribes: when the stack has room that may be written and every argument
    is shorter than 64 KiB, [InitAVectors] succeeds, the new stack pointer is a
    multiple of 16, and a program that reads its stack from there finds the
    number of its arguments, the argument strings given to [MainThreadBoot],
    the environment and the auxiliary vector. *)
Theorem InitAVectors_roundtrip {W} host elf argv (k : @kst W) ABI_MAX :
  65535 <= Z.of_nat ABI_MAX -> host_ids host -> Forall c_string argv -> stack_need argv <= stack_start elf < 2 ^ 32 ->
  ranges (k_prot k) (k_mem k) (stack_start elf - stack_need argv) (stack_start elf) ->
  exists elf' k' uid gid euid egid tck,
    InitAVectors host elf argv k = KRet (elf', k') /\ k_cpu k' = k_cpu k /\
    stack_start elf' mod 16 = 0 /\ entry elf' = entry elf /\
    read_stack ABI_MAX (k_mem k') (stack_start elf') = Some (mkStack (Z.of_nat (length argv)) argv ["LC_ALL=C"]
      ((fun p => (p.1, u32 p.2)) <$> auxv_of elf (stack_start elf - 12) (stack_start elf - 37) uid gid euid egid tck)) /\
    read_cstr ABI_MAX (k_mem k') (stack_start elf - 12) = Some "__foo_str__" /\
    str_at (k_mem k') (stack_start elf - 37) auxv_salt.
Proof.
  intros HM Hids Ha Hb Hr. destruct (kt_InitAVectors (k_prot k) host Hids elf argv (k_mem k) Ha Hb Hr k eq_refl eq_refl) as (elf' & k' & E & Hc & _ & Hbuilt).
  destruct (stack_built_read ABI_MAX _ _ _ _ HM Ha Hb Hbuilt) as (uid & gid & euid & egid & tck & H1 & H2 & H3).
  destruct Hbuilt as [m ps ? ? ? ? ? Helf Hal _ _ _ _ _ _]. exists elf', k', uid, gid, euid, egid, tck.
  split_and!; try done. by rewrite Helf.
Qed.

Definition stack_elf : ElfImage := mkElf (mkEhdr [] ET_EXEC EM_RISCV 0x10000 52 1) 0x10000 0x20000 0x10000 0.
Definition stack_kst : @kst unit := set_mem (zeroed ∅ 0x10000 0x10000) demo_kst.
Lemma InitAVectors_roundtrip_witness :
  exists elf' k', InitAVectors demo_host stack_elf ["prog"; "-v"] stack_kst = KRet (elf', k') /\
    ps_argv <$> read_stack (Z.to_nat 0x10000) (k_mem k') (stack_start elf') = Some ["prog"; "-v"].
Proof.
  destruct (InitAVectors_roundtrip demo_host stack_elf ["prog"; "-v"] stack_kst (Z.to_nat 0x10000))
    as (elf' & k' & uid & gid & euid & egid & tck & E & _ & _ & _ & Hr & _).
  - lia.
  - intros r _ m w. reflexivity.
  - repeat (apply Forall_cons; split); [..|apply Forall_nil_2]; (split; [reflexivity|apply (bool_decide_unpack _); vm_compute; exact I]).
  - split; [vm_compute; congruence|reflexivity].
  - intros x Hx. change (stack_start stack_elf) with 0x20000 in Hx. change (stack_need ["prog"; "-v"]) with 352 in Hx.
    split; [|reflexivity]. unfold stack_kst. cbn [k_mem set_mem]. rewrite zeroed_lookup, bool_decide_true by lia. eexists. reflexivity.
  - exists elf', k'. split; [exact E|]. rewrite Hr. reflexivity.
Defined.
