(* ===== verification/Amd64.v ===== *)
(** * The host machine

    The amd64 instructions the emitter asks the assembler for, with their
    effect on registers, flags and memory.  Nothing here translates code: it
    is what the emitted code means.  An instruction is what is passed to the
    assembler (asmjit); [encodable] says which operand combinations exist, on
    the others the assembler reports an error.

    Host memory consists of the objects generated code touches: guest memory
    from address 0 ([config::zero_membase]), the [CPUState], the stack and the
    indirect-branch cache, each at its address.  A call of a runtime stub runs
    the function behind it, which follows the System V convention. *)

From stdpp Require Import base tactics numbers list gmap.
From S2P Require Import Prelude GuestState Interp VOperand Qir QirSem ArchTraits BranchSlot Tcache.

Import qir.

(** ** Instructions *)
Record amem := mkMem {
  mm_base : option Z; mm_index : option (Z * Z); mm_disp : Z; mm_addr32 : bool; mm_size : Z }.

(** Operands; sizes are in bytes. *)
Inductive aop :=
| Reg (sz r : Z)
| Imm (v : Z)
| Mem (m : amem).

Inductive cond :=
| kEqual | kNotEqual | kSignedLE | kSignedLT | kSignedGE | kSignedGT
| kUnsignedLE | kUnsignedLT | kUnsignedGE | kUnsignedGT.
Inductive alu := kIdAdd | kIdSub | kIdAnd | kIdOr | kIdXor.
Inductive shift := kIdSar | kIdShr | kIdShl.

Inductive ainst :=
| AMov (d s : aop)
| AMovzx (d s : aop)
| AMovsx (d s : aop)
| AAlu (op : alu) (d s : aop)
| AShift (op : shift) (d s : aop)
| ACmp (a b : aop)
| ASet (c : cond) (d : aop)
| ALea (d : aop) (m : amem)
| APush (r : Z)
| APop (r : Z)
| AJmp (l : nat)
| AJcc (c : cond) (l : nat)
| AJmpTo (t : aop)
| ACallTo (t : aop).

(** The contents of the code buffer. *)
Inductive item :=
| Ins (i : ainst)
| Bind (l : nat)
| Embed (s : BranchSlot).

Definition is_gpr (r : Z) : bool := (0 <=? r) && (r <? GPR_NUM).
Definition mem_ok (m : amem) : bool :=
  from_option is_gpr true (mm_base m) &&
  from_option (fun '(r, s) => is_gpr r && negb (r =? RSP) && (0 <=? s) && (s <=? 3)) true (mm_index m) &&
  match mm_base m, mm_index m with
  | None, None => (0 <=? mm_disp m) && (mm_disp m <? 2 ^ 32)
  | _, _ => i32 (mm_disp m) =? mm_disp m
  end.
(** A number fits [n] bytes, signed or unsigned. *)
Definition imm_fits (n v : Z) : bool := (- 2 ^ (8 * n - 1) <=? v) && (v <? 2 ^ (8 * n)).

Definition encodable (i : ainst) : bool :=
  match i with
  | AMov (Reg n r) (Reg n' r') => (n =? n') && is_gpr r && is_gpr r'
  | AMov (Reg n r) (Mem m) | AMov (Mem m) (Reg n r) => (n =? mm_size m) && is_gpr r && mem_ok m
  | AMov (Reg n r) (Imm v) => imm_fits n v && is_gpr r
  | AMov (Mem m) (Imm v) => (mm_size m <=? 4) && imm_fits (mm_size m) v && mem_ok m
  | AMovzx (Reg n r) (Mem m) | AMovsx (Reg n r) (Mem m) => (n =? 4) && (mm_size m <=? 2) && is_gpr r && mem_ok m
  | AMovzx (Reg n r) (Reg n' r') => (n =? 4) && (n' =? 1) && is_gpr r && is_gpr r'
  | AAlu _ (Reg n r) (Reg n' r') => (n =? n') && is_gpr r && is_gpr r'
  | AAlu _ (Reg n r) (Imm v) => (n =? 4) && imm_fits 4 v && is_gpr r
  | AShift _ (Reg n r) (Reg _ r') => (n =? 4) && is_gpr r && (r' =? RCX)
  | AShift _ (Reg n r) (Imm _) => (n =? 4) && is_gpr r
  | ACmp (Reg n r) (Reg n' r') => (n =? n') && is_gpr r && is_gpr r'
  | ACmp (Reg n r) (Imm v) => (n =? 4) && imm_fits 4 v && is_gpr r
  | ACmp (Mem m) (Reg n r) => (n =? mm_size m) && is_gpr r && mem_ok m
  | ASet _ (Reg n r) => (n =? 1) && is_gpr r
  | ALea (Reg n r) m => (n =? 4) && is_gpr r && mem_ok m
  | APush r | APop r => is_gpr r
  | AJmp _ | AJcc _ _ => true
  | AJmpTo (Reg n r) => (n =? 8) && is_gpr r
  | AJmpTo (Mem m) => (mm_size m =? 8) && mem_ok m
  | ACallTo (Imm v) => imm_fits 8 v
  | ACallTo (Mem m) => (mm_size m =? 8) && mem_ok m
  | _ => false
  end.

(** ** Flags *)
Record aflags := mkFlags { ZF : bool; SF : bool; CF : bool; OF : bool }.

(** [cmp a b] of [n] bits. *)
Definition sub_flags (n a b : Z) : aflags :=
  let d := uN n (a - b) in
  mkFlags (d =? 0) (Z.testbit d (n - 1)) (uN n a <? uN n b) (negb (sN n a - sN n b =? sN n (a - b))).

Definition cond_holds (c : cond) (f : aflags) : bool :=
  match c with
  | kEqual => ZF f
  | kNotEqual => negb (ZF f)
  | kSignedLT => xorb (SF f) (OF f)
  | kSignedGE => negb (xorb (SF f) (OF f))
  | kSignedLE => ZF f || xorb (SF f) (OF f)
  | kSignedGT => negb (ZF f || xorb (SF f) (OF f))
  | kUnsignedLT => CF f
  | kUnsignedGE => negb (CF f)
  | kUnsignedLE => CF f || ZF f
  | kUnsignedGT => negb (CF f || ZF f)
  end.

Definition eval_alu (op : alu) (a b : Z) : Z :=
  match op with
  | kIdAdd => a + b
  | kIdSub => a - b
  | kIdAnd => Z.land a b
  | kIdOr => Z.lor a b
  | kIdXor => Z.lxor a b
  end.
(** Shifts of 32 bits; the count is taken modulo 32. *)
Definition eval_shift (op : shift) (a n : Z) : Z :=
  match op with
  | kIdSar => Z.shiftr (i32 a) (n mod 32)
  | kIdShr => Z.shiftr (u32 a) (n mod 32)
  | kIdShl => Z.shiftl a (n mod 32)
  end.

(** ** State *)
Definition regfile := Z -> Z.
Definition set_reg (r v : Z) (f : regfile) : regfile := fun q => if q =? r then v else f q.
(** A write of [n] bytes: four bytes clear the upper half, fewer keep the
    rest of the register. *)
Definition write_reg (n r v : Z) (f : regfile) : regfile :=
  set_reg r
    (if n =? 8 then u64 v
     else if n =? 4 then u32 v
     else Z.shiftl (Z.shiftr (f r) (8 * n)) (8 * n) + uN (8 * n) v) f.

(** The stack is a map from addresses to bytes; a byte that was not written
    by this code, or lies in a finished callee's frame, is absent. *)
Record mach := mkM {
  regs : regfile; fl : option aflags; m_cpu : CPUState; m_stack : mem; m_mem : mem }.

Definition set_regs (f : regfile) (ms : mach) : mach := mkM f (fl ms) (m_cpu ms) (m_stack ms) (m_mem ms).
Definition set_flags (f : option aflags) (ms : mach) : mach := mkM (regs ms) f (m_cpu ms) (m_stack ms) (m_mem ms).
Definition set_mcpu (c : CPUState) (ms : mach) : mach := mkM (regs ms) (fl ms) c (m_stack ms) (m_mem ms).
Definition set_stack (s : mem) (ms : mach) : mach := mkM (regs ms) (fl ms) (m_cpu ms) s (m_mem ms).
Definition set_mmem (m : mem) (ms : mach) : mach := mkM (regs ms) (fl ms) (m_cpu ms) (m_stack ms) m.

(** Outcome of an access, and of an instruction. *)
Inductive acc (A : Type) := AOk (a : A) | AFault | ABad.
Arguments AOk {_} _.
Arguments AFault {_}.
Arguments ABad {_}.
Definition acc_of {A} (o : option A) : acc A := match o with Some a => AOk a | None => ABad end.

Inductive sres :=
| SNext (ms : mach)
| SGoto (l : nat) (ms : mach)
| SJump (a : Z) (ms : mach)
| SRaised (ms : mach)
| SFault (ms : mach)
| SUndef
| SBad.

(** Addresses of the objects, the stub functions and what they do beyond the
    guest's instructions.  [lay_cache] is the contents of the indirect-branch
    cache by index, [lay_brind] the value the stub [id_brind] returns with the
    guest state it leaves, [lay_clob] what a call leaves in a register. *)
Record layout := mkLayout {
  lay_state : Z;
  lay_stack : Z * Z;
  lay_cacheptr : Z;
  lay_stub : RuntimeStubId -> Z;
  lay_cache : Z -> Z * Z;
  lay_brind : Z -> CPUState -> mem -> Z * CPUState;
  lay_clob : Z -> option Z;
  lay_weaks : list bool }.

(** [offsetof(CPUState, l1_brind_cache)], [offsetof(CPUState, stub_tab)],
    [sizeof(CPUState)] and the size of the cache. *)
Definition offs_l1_brind_cache : Z := 136.
Definition offs_stub_tab : Z := 144.
Definition sizeof_CPUState : Z := 360.
Definition sizeof_cache : Z := 16 * 2 ^ L1_CACHE_BITS.
Definition guest_top : Z := 2 ^ 33.

Record layout_ok (lay : layout) : Prop := {
  lo_state : guest_top <= lay_state lay /\ lay_state lay + sizeof_CPUState <= (lay_stack lay).1;
  lo_stack : (lay_stack lay).1 <= (lay_stack lay).2 /\ (lay_stack lay).2 <= lay_cacheptr lay;
  lo_cache : lay_cacheptr lay + sizeof_cache <= 2 ^ 63;
  lo_stub : forall a b, lay_stub lay a = lay_stub lay b -> a = b;
  lo_stub64 : forall a, in_u 63 (lay_stub lay a);
  lo_code : forall i, in_u 32 (lay_cache lay i).1 /\ in_u 64 (lay_cache lay i).2 }.

Section machine.
Context (lay : layout).

Definition ea (m : amem) (f : regfile) : Z :=
  let a := from_option f 0 (mm_base m) + from_option (fun '(r, s) => Z.shiftl (f r) s) 0 (mm_index m) + mm_disp m in
  if mm_addr32 m then u32 a else u64 a.

Definition within (a n lo hi : Z) : bool := (lo <=? a) && (a + n <=? hi).

Definition state_read (n o : Z) (c : CPUState) : option Z :=
  if n =? 4 then cpu_read c o
  else if negb (n =? 8) then None
  else if o =? offs_l1_brind_cache then Some (lay_cacheptr lay)
  else if (offs_stub_tab <=? o) && ((o - offs_stub_tab) mod 8 =? 0) then
    lay_stub lay <$> all_stubs !! Z.to_nat ((o - offs_stub_tab) / 8)
  else None.

(** [BrindCacheEntry]: [gip] at offset 0, [code] at offset 8. *)
Definition cache_read (n o : Z) : option Z :=
  let e := lay_cache lay (o / 16) in
  if (n =? 4) && (o mod 16 =? 0) then Some e.1
  else if (n =? 8) && (o mod 16 =? 8) then Some e.2
  else None.

Definition mread (n a : Z) (ms : mach) : acc Z :=
  if a <? guest_top then match load_le (Z.to_nat n) (m_mem ms) a with Some v => AOk v | None => AFault end
  else if within a n (lay_state lay) (lay_state lay + sizeof_CPUState) then
    acc_of (state_read n (a - lay_state lay) (m_cpu ms))
  else if within a n (lay_stack lay).1 (lay_stack lay).2 then acc_of (load_le (Z.to_nat n) (m_stack ms) a)
  else if within a n (lay_cacheptr lay) (lay_cacheptr lay + sizeof_cache) then
    acc_of (cache_read n (a - lay_cacheptr lay))
  else ABad.

Definition mwrite (n a v : Z) (ms : mach) : acc mach :=
  if a <? guest_top then
    match store_le (Z.to_nat n) (m_mem ms) a v with Some m => AOk (set_mmem m ms) | None => AFault end
  else if within a n (lay_state lay) (lay_state lay + sizeof_CPUState) then
    if n =? 4 then
      acc_of ((fun c => set_mcpu c ms) <$> cpu_write (m_cpu ms) (a - lay_state lay) (u32 v))
    else ABad
  else if within a n (lay_stack lay).1 (lay_stack lay).2 then
    AOk (set_stack (put_le (Z.to_nat n) (m_stack ms) a v) ms)
  else ABad.

Definition rd (o : aop) (ms : mach) : acc Z :=
  match o with
  | Reg n r => AOk (uN (8 * n) (regs ms r))
  | Imm v => AOk v
  | Mem m => mread (mm_size m) (ea m (regs ms)) ms
  end.

Definition wr (d : aop) (v : Z) (ms : mach) : acc mach :=
  match d with
  | Reg n r => AOk (set_regs (write_reg n r v (regs ms)) ms)
  | Imm _ => ABad
  | Mem m => mwrite (mm_size m) (ea m (regs ms)) v ms
  end.

Definition on {A} (x : acc A) (ms : mach) (k : A -> sres) : sres :=
  match x with AOk a => k a | AFault => SFault ms | ABad => SBad end.

Definition opsize (o : aop) : Z := match o with Reg n _ => n | Imm _ => 8 | Mem m => mm_size m end.

(** *** Calls *)
Definition stub_at (a : Z) : option RuntimeStubId := snd <$> list_find (fun id => lay_stub lay id = a) all_stubs.

Definition clob_regs (f : regfile) : regfile :=
  fun r => match lay_clob lay r with Some j => u64 j | None => f r end.

(** What is left of the caller's state: the callee used the stack below. *)
Definition returned (c : CPUState) (m : mem) (ms : mach) : mach :=
  mkM (clob_regs (regs ms)) None c (filter (fun '(a, _) => regs ms RSP <= a) (m_stack ms)) m.

Definition call (a : Z) (ms : mach) : sres :=
  match stub_at a with
  | None => SBad
  | Some id =>
      if negb ((regs ms RSP mod 16 =? 0) && ((lay_stack lay).1 <=? regs ms RSP - 8) &&
               (regs ms RDI =? lay_state lay)) then SBad
      else
        match stub_rv32 id with
        | Some op =>
            match qcgstub_rv32 (lay_weaks lay) op (u32 (regs ms RSI)) (m_cpu ms) (m_mem ms) with
            | Ret _ σ => SNext (returned (h_cpu σ) (h_mem σ) ms)
            | Raised σ => SRaised (returned (h_cpu σ) (h_mem σ) ms)
            | Faulted σ => SFault (returned (h_cpu σ) (h_mem σ) ms)
            | Undefined => SUndef
            end
        | None =>
            if bool_decide (id = id_brind) then
              let '(p, c) := lay_brind lay (u32 (regs ms RSI)) (m_cpu ms) (m_mem ms) in
              let ms := returned c (m_mem ms) ms in
              SNext (set_regs (set_reg RAX p (regs ms)) ms)
            else SBad
        end
  end.

Definition exec_ainst (i : ainst) (ms : mach) : sres :=
  match i with
  | AMov d s => on (rd s ms) ms (fun v => on (wr d v ms) ms SNext)
  | AMovzx d s => on (rd s ms) ms (fun v => on (wr d v ms) ms SNext)
  | AMovsx d s => on (rd s ms) ms (fun v => on (wr d (sN (8 * opsize s) v) ms) ms SNext)
  | AAlu op d s =>
      on (rd d ms) ms (fun a => on (rd s ms) ms (fun b =>
        on (wr d (eval_alu op a b) (set_flags None ms)) ms SNext))
  | AShift op d s =>
      on (rd d ms) ms (fun a => on (rd s ms) ms (fun n =>
        on (wr d (eval_shift op a (u8 n)) (set_flags None ms)) ms SNext))
  | ACmp a b =>
      on (rd a ms) ms (fun x => on (rd b ms) ms (fun y =>
        SNext (set_flags (Some (sub_flags (8 * opsize a) x y)) ms)))
  | ASet c d =>
      match fl ms with
      | Some f => on (wr d (if cond_holds c f then 1 else 0) ms) ms SNext
      | None => SBad
      end
  | ALea d m => on (wr d (ea m (regs ms)) ms) ms SNext
  | APush r =>
      let sp := u64 (regs ms RSP - 8) in
      on (mwrite 8 sp (regs ms r) ms) ms (fun ms' => SNext (set_regs (set_reg RSP sp (regs ms')) ms'))
  | APop r =>
      on (mread 8 (regs ms RSP) ms) ms (fun v =>
        SNext (set_regs (set_reg r v (set_reg RSP (u64 (regs ms RSP + 8)) (regs ms))) ms))
  | AJmp l => SGoto l ms
  | AJcc c l =>
      match fl ms with
      | Some f => if cond_holds c f then SGoto l ms else SNext ms
      | None => SBad
      end
  | AJmpTo t => on (rd t ms) ms (fun a => SJump a ms)
  | ACallTo t => on (rd t ms) ms (fun a => call a ms)
  end.

(** ** Running code *)
Inductive mres :=
| MSlot (k : nat) (ms : mach)
| MJump (a : Z) (ms : mach)
| MRaised (ms : mach)
| MFault (ms : mach)
| MUndef
| MBad.

Definition is_slot (it : item) : bool := match it with Embed _ => true | _ => false end.
Definition is_bind (l : nat) (it : item) : bool := match it with Bind l' => Nat.eqb l l' | _ => false end.
(** Number of the slot at [pc], position of a label. *)
Definition slot_no (code : list item) (pc : nat) : nat := length (List.filter is_slot (take pc code)).
Definition label_pos (code : list item) (l : nat) : option nat := fst <$> list_find (fun it => is_bind l it = true) code.

Definition astep (code : list item) (pc : nat) (ms : mach) : nat * mach + mres :=
  match code !! pc with
  | None => inr MBad
  | Some (Bind _) => inl (S pc, ms)
  | Some (Embed _) => inr (MSlot (slot_no code pc) ms)
  | Some (Ins i) =>
      match exec_ainst i ms with
      | SNext ms' => inl (S pc, ms')
      | SGoto l ms' => match label_pos code l with Some p => inl (p, ms') | None => inr MBad end
      | SJump a ms' => inr (MJump a ms')
      | SRaised ms' => inr (MRaised ms')
      | SFault ms' => inr (MFault ms')
      | SUndef => inr MUndef
      | SBad => inr MBad
      end
  end.

Fixpoint arun (fuel : nat) (code : list item) (pc : nat) (ms : mach) : option mres :=
  match fuel with
  | O => None
  | S fuel =>
      match astep code pc ms with
      | inl (pc', ms') => arun fuel code pc' ms'
      | inr r => Some r
      end
  end.
End machine.
