(* ===== verification/QEmit.v ===== *)
(** * The emitter (src/dbt/qmc/qcg/qemit.cpp, qemit.h, qcg.cpp)

    [QEmit] hands the instructions of an allocated region to the assembler,
    whose buffer is a list of instructions, bound labels and embedded branch
    slots.  A failed assertion, an unreachable [switch] case, an operand
    combination the assembler refuses and [Panic] are [None].  The assembler's
    byte encoding and the copy into the code pool ([EmitCode]) are left out.
    The build is the one with [config::zero_membase]. *)

From stdpp Require Import base tactics numbers list strings gmap.
From S2P Require Import Prelude Bitfield GuestState Interp VOperand Qir QirSem QirBuilder ArchTraits QSel QRegAlloc BranchSlot Tcache Execute Amd64.

Import qir.

(** The code buffer and the number of labels created. *)
Record estate := mkE { e_code : list item; e_labels : nat }.
Definition EM (A : Type) : Type := estate -> option (A * estate).
#[export] Instance EM_ret : MRet EM := fun A a st => Some (a, st).
#[export] Instance EM_bind : MBind EM := fun A B f m st =>
  match m st with Some (a, st') => f a st' | None => None end.

Definition efail {A} : EM A := fun _ => None.
Definition eopt {A} (o : option A) : EM A := fun st => (fun a => (a, st)) <$> o.
Definition eassert (b : bool) : EM unit := if b then mret tt else efail.
Definition put_item (it : item) : EM unit := fun st => Some (tt, mkE (e_code st ++ [it]) (e_labels st)).
(** [j.emit]; the error handler of the assembler calls [Panic]. *)
Definition emit (i : ainst) : EM unit := if encodable i then put_item (Ins i) else efail.
Definition newLabel : EM nat := fun st => Some (e_labels st, mkE (e_code st) (S (e_labels st))).
Definition bind (l : nat) : EM unit := put_item (Bind l).

Definition R_STATE : aop := Reg 8 STATE.

(** ** Operands *)
Definition make_gpr_t (pr : Z) (type : VType) : option aop :=
  match type with
  | I8 => Some (Reg 1 pr)
  | I16 => Some (Reg 2 pr)
  | I32 => Some (Reg 4 pr)
  | UNDEF => None
  end.
Definition GetPGPR (v : VOperand) : option Z := match v with PGPR _ r => Some r | _ => None end.
Definition make_gpr (opr : VOperand) : option aop := r ← GetPGPR opr; make_gpr_t r (type_of opr).

Definition make_cc (cc : CondCode) : cond :=
  match cc with
  | EQ => kEqual | NE => kNotEqual
  | LE => kSignedLE | LT => kSignedLT | GE => kSignedGE | GT => kSignedGT
  | LEU => kUnsignedLE | LTU => kUnsignedLT | GEU => kUnsignedGE | GTU => kUnsignedGT
  end.

(** The size is set by the user of the operand. *)
Definition make_vmem (vbase : VOperand) (size : Z) : option amem :=
  match vbase with
  | PGPR _ _ =>
      match make_gpr vbase with
      | Some (Reg 4 r) => Some (mkMem (Some r) None 0 true size)
      | _ => None
      end
  | VConst _ c => Some (mkMem None None c false size)
  | _ => None
  end.

Definition IsConst (v : VOperand) : bool := match v with VConst _ _ => true | _ => false end.

Section emit.
Context (jit_mode is_leaf : bool) (segment : CodeSegment).
(** [RuntimeStubTab::GetGlobal()] and [tcache::l1_brind_cache.data()]. *)
Context (stub_tab : RuntimeStubId -> Z) (l1_brind_cache : Z).

Definition spillframe_sp_offs : Z := 8 * (if is_leaf then 1 else 2).

Definition make_slot (opr : VOperand) : option aop :=
  match opr with
  | VSlot g t offs =>
      size ← VTypeToSize t;
      Some (Mem (if g then mkMem (Some STATE) None offs false size
                 else mkMem (Some SP) None (u16 (offs + spillframe_sp_offs)) false size))
  | _ => None
  end.

Definition make_operand (opr : VOperand) : option aop :=
  match opr with
  | PGPR _ _ | VGPR _ _ => make_gpr opr
  | VConst _ c => Some (Imm c)
  | _ => make_slot opr
  end.

Definition make_stubcall_target (stub : RuntimeStubId) : aop :=
  if jit_mode then Imm (stub_tab stub)
  else Mem (mkMem (Some STATE) None (offs_stub_tab + RuntimeStubTab_offs stub) false 8).

(** ** Frame *)
Definition FrameSetup : EM unit := if negb is_leaf then emit (APush RCX) else mret tt.
Definition FrameDestroy : EM unit := if negb is_leaf then emit (APop RCX) else mret tt.
Definition QEmit_Prologue : EM unit := FrameSetup.

(** ** Spill helpers *)
Definition frame_mem (base : Z) (type : VType) (offs : Z) : option aop :=
  size ← VTypeToSize type; Some (Mem (mkMem (Some base) None offs false size)).
Definition StateFill (p : Z) (type : VType) (offs : Z) : EM unit :=
  slot ← eopt (frame_mem STATE type offs); r ← eopt (make_gpr_t p type); emit (AMov r slot).
Definition StateSpill (p : Z) (type : VType) (offs : Z) : EM unit :=
  slot ← eopt (frame_mem STATE type offs); r ← eopt (make_gpr_t p type); emit (AMov slot r).
Definition LocFill (p : Z) (type : VType) (offs : Z) : EM unit :=
  slot ← eopt (frame_mem SP type offs); r ← eopt (make_gpr_t p type); emit (AMov r slot).
Definition LocSpill (p : Z) (type : VType) (offs : Z) : EM unit :=
  slot ← eopt (frame_mem SP type offs); r ← eopt (make_gpr_t p type); emit (AMov slot r).

(** ** Calls and control flow *)
Definition Emit_hcall (stub : RuntimeStubId) (arg : VOperand) : EM unit :=
  eassert (negb is_leaf);;
  emit (AMov (Reg 8 RDI) R_STATE);;
  a ← eopt (make_operand arg);
  emit (AMov (Reg 8 RSI) a);;
  emit (ACallTo (make_stubcall_target stub)).

(** [bb] is the position of the block, [bb_s] a successor; the label of a
    block is its position.  [bb_ff], the node behind [bb], is the sentinel
    for the last block and equals no successor. *)
Definition Emit_br (bb n_blocks : nat) (ss : list nat) : EM unit :=
  bb_s ← eopt (ss !! 0%nat);
  if bool_decide (bb_s = S bb /\ S bb < n_blocks)%nat then mret tt else emit (AJmp bb_s).

Definition Emit_brcc (bb n_blocks : nat) (ss : list nat) (cc : CondCode) (vs0 vs1 : VOperand) : EM unit :=
  bb_t ← eopt (ss !! 0%nat);
  bb_f ← eopt (ss !! 1%nat);
  let '(cc, vs0, vs1) := if IsConst vs0 then (SwapCC cc, vs1, vs0) else (cc, vs0, vs1) in
  a ← eopt (make_operand vs0); b ← eopt (make_operand vs1);
  emit (ACmp a b);;
  emit (AJcc (make_cc cc) bb_t);;
  if bool_decide (bb_f = S bb /\ S bb < n_blocks)%nat then mret tt else emit (AJmp bb_f).

Definition Emit_gbr (tpc : VOperand) : EM unit :=
  FrameDestroy;;
  match tpc with
  | VConst _ gip =>
      let slot := mkSlot (replicate sizeof_code 0) (u32 gip) (negb (InSegment segment (u32 gip))) in
      put_item (Embed (if jit_mode then LinkLazyJIT (stub_tab id_link_branch_jit) slot
                       else LinkLazyAOT offs_stub_tab slot))
  | _ => efail
  end.

Definition Emit_gbrind (tpc : VOperand) : EM unit :=
  ptgt ← eopt (GetPGPR tpc);
  _ ← eopt (make_gpr tpc);
  eassert (ptgt =? RSI);;
  slowpath ← newLabel;
  (if jit_mode then emit (AMov (Reg 8 RDX) (Imm l1_brind_cache))
   else emit (AMov (Reg 8 RDX) (Mem (mkMem (Some STATE) None offs_l1_brind_cache false 8))));;
  emit (ALea (Reg 4 RDI) (mkMem None (Some (ptgt, 2)) 0 false 0));;
  emit (AAlu kIdAnd (Reg 4 RDI) (Imm (Z.shiftl (2 ^ L1_CACHE_BITS - 1) 4)));;
  emit (ACmp (Mem (mkMem (Some RDX) (Some (RDI, 0)) 0 false 4)) (Reg 4 ptgt));;
  emit (AJcc kNotEqual slowpath);;
  FrameDestroy;;
  emit (AJmpTo (Mem (mkMem (Some RDX) (Some (RDI, 0)) 8 false 8)));;
  bind slowpath;;
  emit (AMov (Reg 8 RDI) R_STATE);;
  (if is_leaf then emit (APush RCX) else mret tt);;
  emit (ACallTo (make_stubcall_target id_brind));;
  (if is_leaf then emit (APop RCX) else FrameDestroy);;
  emit (AJmpTo (Reg 8 RAX)).

(** ** Memory *)
Definition Emit_vmload (sz : VType) (sgn : VSign) (vrd vbase : VOperand) : EM unit :=
  prd ← eopt (make_gpr vrd);
  eassert (bool_decide (type_of vrd = I32));;
  match sz with
  | I8 => m ← eopt (make_vmem vbase 1);
          emit (match sgn with VSign_U => AMovzx prd (Mem m) | VSign_S => AMovsx prd (Mem m) end)
  | I16 => m ← eopt (make_vmem vbase 2);
           emit (match sgn with VSign_U => AMovzx prd (Mem m) | VSign_S => AMovsx prd (Mem m) end)
  | I32 => m ← eopt (make_vmem vbase 4); emit (AMov prd (Mem m))
  | UNDEF => efail
  end.

Definition Emit_vmstore (sz : VType) (sgn : VSign) (vbase vdata : VOperand) : EM unit :=
  pdata ← eopt (make_operand vdata);
  size ← eopt (VTypeToSize sz);
  m ← eopt (make_vmem vbase size);
  eassert (match sgn with VSign_U => true | VSign_S => false end);;
  emit (AMov (Mem m) pdata).

(** ** Computation *)
Definition Emit_setcc (cc : CondCode) (vd vs0 vs1 : VOperand) : EM unit :=
  prd ← eopt (make_gpr vd);
  pd ← eopt (GetPGPR vd);
  p0 ← eopt (GetPGPR vs0);
  let dst_aliased := (p0 =? pd) || from_option (fun p1 => p1 =? pd) false (GetPGPR vs1) in
  (if negb dst_aliased then emit (AAlu kIdXor prd prd) else mret tt);;
  a ← eopt (make_operand vs0); b ← eopt (make_operand vs1);
  emit (ACmp a b);;
  emit (ASet (make_cc cc) (Reg 1 pd));;
  (if dst_aliased then emit (AMovzx prd (Reg 1 pd)) else mret tt).

Definition Emit_mov (vrd vs0 : VOperand) : EM unit :=
  d ← eopt (make_operand vrd); s ← eopt (make_operand vs0); emit (AMov d s).

Definition EmitInstBinop (mk : aop -> aop -> ainst) (vrd vs0 vs1 : VOperand) : EM unit :=
  pd ← eopt (GetPGPR vrd); p0 ← eopt (GetPGPR vs0);
  eassert (pd =? p0);;
  d ← eopt (make_gpr vrd); s ← eopt (make_operand vs1); emit (mk d s).

Definition shift_assert (vs1 : VOperand) : EM unit :=
  if IsConst vs1 then mret tt else p ← eopt (GetPGPR vs1); eassert (p =? RCX).

Definition Emit_binop (op : Op) (vrd vs0 vs1 : VOperand) : EM unit :=
  match op with
  | _add => EmitInstBinop (AAlu kIdAdd) vrd vs0 vs1
  | _sub => EmitInstBinop (AAlu kIdSub) vrd vs0 vs1
  | _and => EmitInstBinop (AAlu kIdAnd) vrd vs0 vs1
  | _or => EmitInstBinop (AAlu kIdOr) vrd vs0 vs1
  | _xor => EmitInstBinop (AAlu kIdXor) vrd vs0 vs1
  | _sra => shift_assert vs1;; EmitInstBinop (AShift kIdSar) vrd vs0 vs1
  | _srl => shift_assert vs1;; EmitInstBinop (AShift kIdShr) vrd vs0 vs1
  | _sll => shift_assert vs1;; EmitInstBinop (AShift kIdShl) vrd vs0 vs1
  | _ => efail
  end.

(** ** [QCodegen] *)
Definition QCodegenVisitor_visit (bb n_blocks : nat) (ss : list nat) (i : Inst) : EM unit :=
  match i with
  | InstHcall stub a => Emit_hcall stub a
  | InstBr => Emit_br bb n_blocks ss
  | InstBrcc cc a b => Emit_brcc bb n_blocks ss cc a b
  | InstGBr t => Emit_gbr t
  | InstGBrind t => Emit_gbrind t
  | InstVMLoad sz sgn d p => Emit_vmload sz sgn d p
  | InstVMStore sz sgn p v => Emit_vmstore sz sgn p v
  | InstSetcc cc d a b => Emit_setcc cc d a b
  | InstUnop _mov d a => Emit_mov d a
  | InstUnop _ _ _ => efail
  | InstBinop op d a b => Emit_binop op d a b
  end.

Fixpoint emit_insts (bb n_blocks : nat) (ss : list nat) (l : list Inst) : EM unit :=
  match l with
  | [] => mret tt
  | i :: l => QCodegenVisitor_visit bb n_blocks ss i;; emit_insts bb n_blocks ss l
  end.

Definition SetBlock (bb : nat) : EM unit := bind bb.
Fixpoint emit_blocks (bb n_blocks : nat) (bs : list Block) : EM unit :=
  match bs with
  | [] => mret tt
  | b :: bs =>
      SetBlock bb;; emit_insts bb n_blocks (succs b) (n_inst <$> ilist b);; emit_blocks (S bb) n_blocks bs
  end.

Definition QCodegen_Run (rn : Region) : EM unit :=
  QEmit_Prologue;; emit_blocks 0 (length (blist rn)) (blist rn).
End emit.

(** [GenerateCode] up to the code buffer: the passes in order, labels for the
    blocks, no frame when the region makes no calls. *)
Definition qcg_GenerateCode (jit_mode : bool) (segment : CodeSegment) (stub_tab : RuntimeStubId -> Z)
    (l1_brind_cache : Z) (rn : Region) : option (list item) :=
  '(rn, has_calls) ← QSelPass_run rn;
  match QRegAllocPass_run rn with
  | RA_ok rn _ =>
      '(_, st) ← QCodegen_Run jit_mode (negb has_calls) segment stub_tab l1_brind_cache rn (mkE [] (length (blist rn)));
      Some (e_code st)
  | _ => None
  end.
