(* ===== verification/QEmitInst.v ===== *)
(** * The emitted code of one instruction

    [mrel] relates a state of allocated QuickIR with a state of the host
    machine: physical registers are the low halves of the machine's, the frame
    slots are bytes of the stack, [CPUState] and guest memory are the
    machine's objects.  [rd_operand] and [wr_operand] show that the operands
    the emitter builds access the storage the IR operands name. *)

From stdpp Require Import base tactics numbers list strings gmap.
From S2P Require Import Prelude Bitfield RV32Insn RV32Decode GuestState Interp InterpProofs VOperand Qir QirSem QirBuilder ArchTraits QSel QSelCorrect QRegAlloc QRegAllocInv QRegAllocCorrect QRegAllocRegion BranchSlot Tcache Execute Amd64 QEmit.

Import qir.

(** ** Conditions *)
Lemma sf_sign d : in_u 32 d -> Z.testbit d 31 = (2 ^ 31 <=? d).
Proof.
  intros Hd. unfold in_u in Hd. rewrite Z.testbit_eqb by lia.
  assert (d / 2 ^ 31 = if 2 ^ 31 <=? d then 1 else 0) as -> by (destruct (Z.leb_spec (2 ^ 31) d); zlia).
  by destruct (2 ^ 31 <=? d).
Qed.

Lemma cond_eval cc a b :
  in_u 32 a -> in_u 32 b -> cond_holds (make_cc cc) (sub_flags 32 a b) = eval_cc cc a b.
Proof.
  intros Ha Hb. unfold sub_flags. pose proof (uN_range 32 (a - b) ltac:(lia)) as Hd. change (32 - 1) with 31.
  rewrite (sf_sign _ Hd), (uN_id 32 a Ha), (uN_id 32 b Hb).
  assert (Hz : (u32 (a - b) =? 0) = (a =? b)).
  { unfold in_u, uN in *. destruct (Z.eqb_spec a b), (Z.eqb_spec ((a - b) mod 2 ^ 32) 0); try done; zlia. }
  assert (Hs : xorb (2 ^ 31 <=? u32 (a - b)) (negb (i32 a - i32 b =? i32 (a - b))) = (i32 a <? i32 b)).
  { unfold in_u, uN, sN in *.
    destruct (Z.leb_spec (2 ^ 31) ((a - b) mod 2 ^ 32)), (Z.ltb_spec ((a + 2 ^ (32 - 1)) mod 2 ^ 32 - 2 ^ (32 - 1))
      ((b + 2 ^ (32 - 1)) mod 2 ^ 32 - 2 ^ (32 - 1)));
    match goal with |- context [?x =? ?y] => destruct (Z.eqb_spec x y) end; cbn [negb xorb]; try done; zlia. }
  assert (He : (a =? b) = (i32 a =? i32 b)).
  { unfold in_u, sN in *. destruct (Z.eqb_spec a b) as [->|]; [by rewrite Z.eqb_refl|].
    match goal with |- context [?x =? ?y] => destruct (Z.eqb_spec x y) end; [zlia|done]. }
  destruct cc; cbn [make_cc cond_holds eval_cc ZF SF CF OF];
    rewrite ?Hz, ?Hs, ?He; try done.
  - destruct (Z.eqb_spec (i32 a) (i32 b)), (Z.ltb_spec (i32 a) (i32 b)), (Z.leb_spec (i32 a) (i32 b)); done || lia.
  - destruct (Z.ltb_spec (i32 a) (i32 b)), (Z.leb_spec (i32 b) (i32 a)); done || lia.
  - destruct (Z.eqb_spec (i32 a) (i32 b)), (Z.ltb_spec (i32 a) (i32 b)), (Z.ltb_spec (i32 b) (i32 a)); done || lia.
  - rewrite <- He. destruct (Z.eqb_spec a b), (Z.ltb_spec a b), (Z.leb_spec a b); done || lia.
  - destruct (Z.ltb_spec a b), (Z.leb_spec b a); done || lia.
  - rewrite <- He. destruct (Z.eqb_spec a b), (Z.ltb_spec a b), (Z.ltb_spec b a); done || lia.
Qed.

(** ** Widths *)
Definition bits_of (t : VType) : Z := 8 * slot_size t.
Lemma trunc_uN t x : in_u 32 x -> trunc t x = uN (bits_of t) x.
Proof. intros H. destruct t; try done; symmetry; by apply uN_id. Qed.
Lemma uN_32 t x : uN (bits_of t) (u32 x) = uN (bits_of t) x.
Proof.
  unfold uN, bits_of. symmetry. apply Znumtheory.Zmod_div_mod; [by destruct t..|].
  destruct t; cbn; [exists 1|exists (2 ^ 24)|exists (2 ^ 16)|exists 1]; reflexivity.
Qed.
Lemma trunc_range t x : in_u 32 x -> in_u 32 (trunc t x).
Proof. intros H. destruct t; cbn; try done; unfold in_u, uN in *; zlia. Qed.

(** A write of part of a register: the low half of the machine's register is
    the IR's register. *)
Lemma write_merge t f p v x :
  in_u 32 x -> uN (bits_of t) v = uN (bits_of t) x ->
  u32 (write_reg (slot_size t) p v f p) = merge_reg t (Some (u32 (f p))) x.
Proof.
  intros Hx Hv. unfold write_reg, set_reg. rewrite Z.eqb_refl.
  destruct t.
  1, 4: change (u32 v = u32 x) in Hv; change (u32 (u32 v) = x); by rewrite Hv, uN_uN, uN_id.
  - change (u8 v = u8 x) in Hv.
    change (u32 (Z.shiftl (Z.shiftr (f p) 8) 8 + u8 v) = Z.shiftl (Z.shiftr (u32 (f p)) 8) 8 + u8 x).
    rewrite Hv, !Z.shiftl_mul_pow2, !Z.shiftr_div_pow2 by lia. unfold uN, in_u in *; zlia.
  - change (u16 v = u16 x) in Hv.
    change (u32 (Z.shiftl (Z.shiftr (f p) 16) 16 + u16 v) = Z.shiftl (Z.shiftr (u32 (f p)) 16) 16 + u16 x).
    rewrite Hv, !Z.shiftl_mul_pow2, !Z.shiftr_div_pow2 by lia. unfold uN, in_u in *; zlia.
Qed.

(** ** States *)
Section emit.
Context (lay : layout) (si : StateInfo) (jit_mode is_leaf : bool) (segment : CodeSegment).
(** [E] is the stack pointer when the region is entered. *)
Context (E : Z).
Notation sp := (E - (if is_leaf then 0 else 8)).
Notation stub_tab := (lay_stub lay).
Notation exec := (exec_inst si (lay_clob lay) (lay_weaks lay)).
Notation make_operand := (make_operand is_leaf).

(** Entered by a call or a jump from a frame of the runtime: the return
    address is on top, the spill frame above it, room for calls below. *)
Record frame_ok : Prop := {
  fo_align : E mod 16 = 8;
  fo_room : (lay_stack lay).1 <= E - 32 /\ E + 8 + spillframe_size <= (lay_stack lay).2 }.
(** Calls keep what the convention says they keep; the argument registers are
    not among it. *)
Definition clob_ok : Prop :=
  calls_save (lay_clob lay) /\ is_Some (lay_clob lay RDI) /\ is_Some (lay_clob lay RSI).

Context (HL : layout_ok lay) (HF : frame_ok) (HC : clob_ok).

Record mrel (s : qstate) (ms : mach) : Prop := {
  mr_cpu : m_cpu ms = q_cpu s;
  mr_mem : m_mem ms = q_mem s;
  mr_state : regs ms STATE = lay_state lay;
  mr_sp : regs ms RSP = sp;
  mr_total : total_pgpr s;
  mr_regs : forall p y, q_pgpr s !! p = Some y -> RegMask.Test GPR_FIXED p = false -> u32 (regs ms p) = y;
  mr_frame : forall o n x, q_frame s !! o = Some (n, x) ->
    0 <= o /\ 1 <= n /\ o + n <= spillframe_size /\ in_u 32 x /\
    load_le (Z.to_nat n) (m_stack ms) (E + 8 + o) = Some (uN (8 * n) x);
  mr_link : is_leaf = false -> is_Some (load_le 8 (m_stack ms) (E - 8));
  mr_weak : hweak (mkH (q_cpu s) 0 (q_mem s)) }.

Lemma slot_size_bound t : 1 <= slot_size t <= 4.
Proof. destruct t; cbn; lia. Qed.

Lemma sp_offs : sp + spillframe_sp_offs is_leaf = E + 8.
Proof. unfold spillframe_sp_offs. destruct is_leaf; lia. Qed.

Lemma stack_bounds : guest_top + sizeof_CPUState <= (lay_stack lay).1 /\ (lay_stack lay).2 <= 2 ^ 63.
Proof.
  pose proof (lo_state _ HL). pose proof (lo_stack _ HL). pose proof (lo_cache _ HL).
  unfold sizeof_cache, L1_CACHE_BITS in *. lia.
Qed.

(** *** Memory objects *)
Lemma within_true a n lo hi : lo <= a -> a + n <= hi -> within a n lo hi = true.
Proof. intros. unfold within. destruct (Z.leb_spec lo a), (Z.leb_spec (a + n) hi); done || lia. Qed.
Lemma within_false a n lo hi : hi < a + n -> within a n lo hi = false.
Proof. intros. unfold within. destruct (Z.leb_spec (a + n) hi); [lia|]. apply andb_false_r. Qed.
Lemma not_guest a : guest_top <= a -> (a <? guest_top) = false.
Proof. intros. by apply Z.ltb_ge. Qed.

Lemma mread_state n o ms :
  0 <= o -> o + n <= sizeof_CPUState ->
  mread lay n (lay_state lay + o) ms = acc_of (state_read lay n o (m_cpu ms)).
Proof.
  intros Ho Hn. pose proof (lo_state _ HL). unfold mread. rewrite not_guest, within_true by lia.
  by replace (lay_state lay + o - lay_state lay) with o by lia.
Qed.
Lemma mread_stack n a ms :
  0 < n -> (lay_stack lay).1 <= a -> a + n <= (lay_stack lay).2 ->
  mread lay n a ms = acc_of (load_le (Z.to_nat n) (m_stack ms) a).
Proof.
  intros Hn Ha Hb. pose proof stack_bounds. pose proof (lo_state _ HL). unfold mread.
  unfold sizeof_CPUState in *. rewrite not_guest, within_false, within_true by lia. done.
Qed.
Lemma mread_guest n a ms :
  a < guest_top ->
  mread lay n a ms = match load_le (Z.to_nat n) (m_mem ms) a with Some v => AOk v | None => AFault end.
Proof. intros Ha. unfold mread. by rewrite (proj2 (Z.ltb_lt _ _) Ha). Qed.
Lemma mwrite_state o v ms :
  0 <= o -> o + 4 <= sizeof_CPUState ->
  mwrite lay 4 (lay_state lay + o) v ms = acc_of ((fun c => set_mcpu c ms) <$> cpu_write (m_cpu ms) o (u32 v)).
Proof.
  intros Ho Hn. pose proof (lo_state _ HL). unfold mwrite. rewrite not_guest, within_true by lia.
  rewrite Z.eqb_refl. by replace (lay_state lay + o - lay_state lay) with o by lia.
Qed.
Lemma mwrite_stack n a v ms :
  0 < n -> (lay_stack lay).1 <= a -> a + n <= (lay_stack lay).2 ->
  mwrite lay n a v ms = AOk (set_stack (put_le (Z.to_nat n) (m_stack ms) a v) ms).
Proof.
  intros Hn Ha Hb. pose proof stack_bounds. pose proof (lo_state _ HL). unfold mwrite.
  unfold sizeof_CPUState in *. rewrite not_guest, within_false, within_true by lia. done.
Qed.

(** *** Keeping the relation *)
Lemma fixed_ne p : RegMask.Test GPR_FIXED p = false -> STATE <> p /\ RSP <> p.
Proof. intros H. split; intros <-; discriminate H. Qed.

Lemma mrel_reg p y s ms f b :
  mrel s ms -> 0 <= p < GPR_NUM -> RegMask.Test GPR_FIXED p = false -> u32 (f p) = y ->
  (forall q, q <> p -> f q = regs ms q) ->
  mrel (q_set_pgpr p y s) (mkM f b (m_cpu ms) (m_stack ms) (m_mem ms)).
Proof.
  intros [] Hp Hf Hy Ho. destruct (fixed_ne p Hf). split; cbn; try done.
  - by rewrite Ho.
  - by rewrite Ho.
  - intros q Hq. cbn. destruct (decide (Z.of_nat q = p)) as [->|]; [by rewrite lookup_insert_eq|].
    rewrite lookup_insert_ne by done. auto.
  - intros q y'. destruct (decide (q = p)) as [->|]; [rewrite lookup_insert_eq; naive_solver|].
    rewrite lookup_insert_ne, Ho by done. auto.
Qed.

Lemma mrel_flags s ms b : mrel s ms -> mrel s (set_flags b ms).
Proof. by intros []. Qed.

Lemma mrel_cpu o x c s ms :
  mrel s ms -> in_u 32 x -> cpu_write (q_cpu s) o x = Some c -> mrel (q_set_cpu c s) (set_mcpu c ms).
Proof.
  intros [? ? ? ? ? ? ? ? (? & ? & ? & ? & ?)] Hx Hc. split; try done. cbn in *. unfold cpu_write in Hc.
  destruct (_ && _ && _); [|destruct (o =? offs_ip); [|done]]; apply (inj Some) in Hc as <-; split_and!; try done.
  - cbn. by rewrite length_insert.
  - cbn. by apply Forall_insert.
Qed.

Lemma mrel_frame t o x w s ms :
  mrel s ms -> 0 <= o -> o + slot_size t <= spillframe_size -> in_u 32 x ->
  uN (bits_of t) w = uN (bits_of t) x ->
  mrel (q_set_frame (frame_write t o x (q_frame s)) s)
    (set_stack (put_le (Z.to_nat (slot_size t)) (m_stack ms) (E + 8 + o) w) ms).
Proof.
  intros [] Ho Hn Hx Hw. pose proof (slot_size_bound t). split; try done.
  - cbn [q_frame q_set_frame m_stack set_stack]. intros o' n' x' Hf. unfold frame_write in Hf. destruct (decide (o' = o)) as [->|].
    + rewrite lookup_insert_eq in Hf. injection Hf as <- <-. split_and!; try done; [lia|].
      rewrite load_le_put, Z2Nat.id by lia. unfold bits_of in Hw. by rewrite Hw.
    + rewrite lookup_insert_ne, map_lookup_filter in Hf by done.
      destruct (q_frame s !! o') as [[n1 x1]|] eqn:E1; [|done]. cbn in Hf. case_guard as Hd; [|done].
      cbn in Hf. injection Hf as -> ->. destruct (mr_frame0 _ _ _ E1) as (? & ? & ? & ? & ?).
      split_and!; try done. rewrite load_le_put_ne; [done|]. rewrite !Z2Nat.id by lia. lia.
  - cbn [m_stack set_stack]. intros Hl. rewrite load_le_put_ne; [auto|]. rewrite Z2Nat.id by lia. right. lia.
Qed.

Lemma mrel_mem n a v s ms :
  mrel s ms -> mrel (q_set_mem (put_le n (q_mem s) a v) s) (set_mmem (put_le n (m_mem ms) a v) ms).
Proof.
  intros [? Hm ? ? ? ? ? ? (? & ? & ? & ? & ?)]. split; cbn in *; try done; [by rewrite Hm|].
  split_and!; try done. by apply mem_wf_put.
Qed.

(** *** Operands *)
Definition cst_ok (v : VOperand) : bool :=
  match v with VConst t k => (0 <=? k) && (k <? 2 ^ 32) && (trunc t k =? k) | _ => false end.
Definition opnd_ok (v : VOperand) : bool := reg_ok v || slot_ok v || cst_ok v.

Lemma make_reg t p : t <> UNDEF -> make_operand (PGPR t p) = Some (Reg (slot_size t) p).
Proof. by destruct t. Qed.
Lemma make_gpr_reg t p : t <> UNDEF -> make_gpr (PGPR t p) = Some (Reg (slot_size t) p).
Proof. by destruct t. Qed.
Lemma make_global o : make_operand (VSlot true I32 o) = Some (Mem (mkMem (Some STATE) None o false 4)).
Proof. done. Qed.
Lemma make_frame t o :
  t <> UNDEF -> 0 <= o -> o + slot_size t <= spillframe_size ->
  make_operand (VSlot false t o) = Some (Mem (mkMem (Some SP) None (o + spillframe_sp_offs is_leaf) false (slot_size t))).
Proof.
  intros Ht Ho Hn. pose proof (slot_size_bound t).
  assert (u16 (o + spillframe_sp_offs is_leaf) = o + spillframe_sp_offs is_leaf) as Hu.
  { apply uN_id. unfold in_u, spillframe_sp_offs, spillframe_size in *. destruct is_leaf; lia. }
  unfold QEmit.make_operand, make_slot. by destruct t; cbn -[uN spillframe_sp_offs] in *; rewrite ?Hu.
Qed.

Lemma ea_state o n ms s :
  mrel s ms -> 0 <= o -> o <= sizeof_CPUState -> ea (mkMem (Some STATE) None o false n) (regs ms) = lay_state lay + o.
Proof.
  intros Hr Ho Hs. unfold ea. cbn. rewrite (mr_state _ _ Hr), Z.add_0_r. apply uN_id.
  pose proof (lo_state _ HL). pose proof stack_bounds. unfold in_u, guest_top in *. pose proof (lo_stack _ HL). lia.
Qed.
Lemma ea_frame o n ms s :
  mrel s ms -> 0 <= o <= spillframe_size ->
  ea (mkMem (Some SP) None (o + spillframe_sp_offs is_leaf) false n) (regs ms) = E + 8 + o.
Proof.
  intros Hr Ho. unfold ea. cbn [mm_base mm_index mm_disp mm_addr32 from_option]. change SP with RSP.
  rewrite (mr_sp _ _ Hr). pose proof sp_offs. rewrite uN_id; [lia|]. pose proof stack_bounds. pose proof (fo_room HF).
  unfold in_u, guest_top, sizeof_CPUState in *. lia.
Qed.

Lemma valid_offs_bound o : valid_offs o = true -> 0 <= o <= 128.
Proof. unfold valid_offs, offs_ip. intros [H|H]%orb_true_iff; bool_to_prop; lia. Qed.

Lemma mrel_read_range s ms o x : mrel s ms -> cpu_read (q_cpu s) o = Some x -> in_u 32 x.
Proof.
  intros Hr. destruct (mr_weak _ _ Hr) as (_ & Hg & Hi & _ & _). cbn in *. unfold cpu_read.
  destruct (_ && _ && _); [intros [= <-]; by apply get_gpr_range|]. destruct (o =? offs_ip); naive_solver.
Qed.

(** Reading an operand of the emitter reads the IR operand. *)
Lemma rd_operand v s ms x o :
  mrel s ms -> opnd_ok v = true -> read_opnd si v s = Some x -> make_operand v = Some o ->
  rd lay o ms = AOk x /\ in_u 32 x.
Proof.
  intros Hr Hv Hx Ho. unfold opnd_ok in Hv. destruct v as [t k|t r|t p|g t off|]; try done.
  - cbn in Hv, Hx, Ho. bool_to_prop. injection Hx as <-. injection Ho as <-. done.
  - cbn in Hv, Hx. rewrite !orb_false_r in Hv. bool_to_prop. rewrite make_reg in Ho by done. injection Ho as <-.
    apply narrow_Some_inv in Hx as (y & Hy & ->). match goal with H : negb _ = true |- _ => apply negb_true_iff in H as Hf end.
    pose proof (mr_regs _ _ Hr _ _ Hy Hf) as <-. cbn [rd]. change (8 * slot_size t) with (bits_of t).
    rewrite trunc_uN by (apply uN_range; lia). rewrite uN_32. split; [done|]. rewrite <- uN_32, <- trunc_uN by (apply uN_range; lia).
    apply trunc_range, uN_range. lia.
  - rewrite orb_false_r in Hv. cbn [reg_ok orb] in Hv. destruct g; cbn [slot_ok] in Hv; bool_to_prop.
    + subst t. rewrite make_global in Ho. injection Ho as <-. cbn [rd mm_size].
      match goal with H : valid_offs _ = true |- _ => apply valid_offs_bound in H as Hb end.
      rewrite (ea_state _ _ _ s Hr), mread_state by (unfold sizeof_CPUState; lia). cbn in Hx |- *.
      rewrite (mr_cpu _ _ Hr). unfold state_read. cbn. rewrite Hx. split; [done|]. by eapply mrel_read_range.
    + rewrite make_frame in Ho by done. injection Ho as <-. cbn [rd mm_size]. pose proof (slot_size_bound t).
      rewrite (ea_frame _ _ _ s Hr) by lia. pose proof (fo_room HF). rewrite mread_stack by (unfold spillframe_size in *; lia).
      cbn in Hx. apply narrow_Some_inv in Hx as (y & Hy & ->). unfold frame_read in Hy.
      destruct (q_frame s !! off) as [[n z]|] eqn:Ef; [|done]. destruct (Z.eqb_spec n (slot_size t)); [|done].
      injection Hy as ->. subst n. destruct (mr_frame _ _ Hr _ _ _ Ef) as (? & ? & ? & Hy & Hld). rewrite Hld.
      cbn. change (8 * slot_size t) with (bits_of t). rewrite trunc_uN by done. split; [done|].
      rewrite <- trunc_uN by done. by apply trunc_range.
Qed.

(** Writing an operand of the emitter writes the IR operand; the low bits of
    the value count. *)
Lemma wr_operand v x w s s' ms o :
  mrel s ms -> reg_ok v || slot_ok v = true -> write_opnd si v x s = Some s' -> in_u 32 x ->
  uN (bits_of (type_of v)) w = uN (bits_of (type_of v)) x -> make_operand v = Some o ->
  exists ms', wr lay o w ms = AOk ms' /\ mrel s' ms'.
Proof.
  intros Hr Hv Hs Hx Hw Ho. destruct v as [t k|t r|t p|g t off|]; try done; cbn [type_of] in Hw.
  - cbn [reg_ok slot_ok] in Hv. rewrite orb_false_r in Hv. bool_to_prop. rewrite make_reg in Ho by done. injection Ho as <-.
    match goal with H : negb _ = true |- _ => apply negb_true_iff in H as Hf end.
    cbn [write_opnd] in Hs. apply (inj Some) in Hs as <-. cbn [wr]. eexists. split; [done|].
    destruct (mr_total _ _ Hr (Z.to_nat p)) as [y Hy]; [unfold N_PREGS, GPR_NUM in *; lia|]. rewrite Z2Nat.id in Hy by done.
    rewrite Hy. apply (mrel_reg p _ s ms _ _ Hr); [lia|done| |].
    + rewrite (write_merge t (regs ms) p w x) by done. by rewrite (mr_regs _ _ Hr _ _ Hy Hf).
    + intros q Hq. unfold write_reg, set_reg. by rewrite (proj2 (Z.eqb_neq _ _) Hq).
  - cbn [reg_ok orb] in Hv. destruct g; cbn [slot_ok] in Hv; bool_to_prop; cbn [write_opnd] in Hs.
    + subst t. rewrite make_global in Ho. injection Ho as <-. cbn [wr mm_size].
      match goal with H : valid_offs _ = true |- _ => apply valid_offs_bound in H as Hb end.
      rewrite (ea_state _ _ _ s Hr), mwrite_state by (unfold sizeof_CPUState; lia).
      apply fmap_Some in Hs as (c & Hc & ->). rewrite (mr_cpu _ _ Hr).
      change (u32 w = u32 x) in Hw. rewrite Hw, uN_id, Hc by done. cbn. eexists. split; [done|]. by eapply mrel_cpu.
    + rewrite make_frame in Ho by done. injection Ho as <-. cbn [wr mm_size]. pose proof (slot_size_bound t).
      rewrite (ea_frame _ _ _ s Hr) by lia. pose proof (fo_room HF). rewrite mwrite_stack by (unfold spillframe_size in *; lia).
      apply (inj Some) in Hs as <-. eexists. split; [done|]. by apply mrel_frame.
Qed.

(** ** Code *)

(** A straight sequence of machine instructions. *)
Fixpoint exec_seq (l : list ainst) (ms : mach) : sres :=
  match l with
  | [] => SNext ms
  | i :: l => match exec_ainst lay i ms with SNext ms' => exec_seq l ms' | r => r end
  end.

(** What the machine does with the code of an instruction of block [bb], whose
    successors are [ss]: a jump goes to the label of the successor, or on to
    the next block. *)
Definition srel (bb n_blocks : nat) (ss : list nat) (r : qres) (o : sres) : Prop :=
  match r, o with
  | QNext s, SNext ms => mrel s ms
  | QJump k s, SGoto l ms => ss !! k = Some l /\ mrel s ms
  | QJump k s, SNext ms => ss !! k = Some (S bb) /\ (S bb < n_blocks)%nat /\ mrel s ms
  | QRaised s, SRaised ms | QFaulted s, SFault ms => m_cpu ms = q_cpu s /\ m_mem ms = q_mem s
  | QUndef, SUndef => True
  | _, _ => False
  end.

(** [m] appends the instructions [l]. *)
Definition emits (m : EM unit) (l : list ainst) : Prop :=
  forall st, m st = Some (tt, mkE (e_code st ++ (Ins <$> l)) (e_labels st)).

Lemma emits_emit i : encodable i = true -> emits (emit i) [i].
Proof. intros H st. unfold emit. by rewrite H. Qed.
Lemma emits_ret : emits (mret tt) [].
Proof. intros [c l]. cbn. by rewrite app_nil_r. Qed.
Lemma emits_seq m k l l' : emits m l -> emits k l' -> emits (m;; k) (l ++ l').
Proof.
  intros Hm Hk st. unfold mbind, EM_bind. rewrite Hm, Hk. cbn. by rewrite fmap_app, app_assoc.
Qed.
Lemma emits_opt {A} (o : option A) a (k : A -> EM unit) l : o = Some a -> emits (k a) l -> emits (a ← eopt o; k a) l.
Proof. intros -> Hk st. apply Hk. Qed.
Lemma emits_assert (b : bool) m l : b = true -> emits m l -> emits (eassert b;; m) l.
Proof. intros -> Hm st. apply Hm. Qed.
Lemma emits_if (b : bool) m k l l' : emits m l -> emits k l' -> emits (if b then m else k) (if b then l else l').
Proof. by destruct b. Qed.

(** The instruction is emitted, and its code does what the instruction does. *)
Definition sim_inst (bb n_blocks : nat) (ss : list nat) (m : EM unit) (i : Inst) : Prop :=
  exists l, emits m l /\
    forall s ms, mrel s ms -> exec i s <> QStuck -> srel bb n_blocks ss (exec i s) (exec_seq l ms).

(** *** What a placed instruction looks like *)
Lemma in_placed_inv c v :
  in_placed c v = true ->
  (exists t p, v = PGPR t p /\ reg_ok v = true /\ RegMask.Test (cr c) p = true) \/
  (exists t k, v = VConst t k /\ cst_ok v = true /\ negb (ci c =? CtImm_NO) && match_gp_const t k (ci c) = true).
Proof.
  destruct v as [t k| |t p| |]; try done; cbn [in_placed cst_ok]; intros H; bool_to_prop.
  - right. eexists _, _. split; [done|]. split; bool_to_prop; repeat (apply andb_true_iff; split); try done; try lia;
      by apply negb_true_iff, Z.eqb_neq || apply Z.eqb_eq.
  - left. eauto.
Qed.
Lemma in_placed_reg c v :
  in_placed c v = true -> ci c = CtImm_NO -> exists t p, v = PGPR t p /\ reg_ok v = true /\ RegMask.Test (cr c) p = true.
Proof. intros [?|(t & k & -> & _ & H)]%in_placed_inv Hc; [done|]. by rewrite Hc in H. Qed.

Lemma reg_ok_inv t p :
  reg_ok (PGPR t p) = true -> 0 <= p < GPR_NUM /\ RegMask.Test GPR_FIXED p = false /\ t <> UNDEF.
Proof. cbn. intros H. bool_to_prop. match goal with H : negb _ = true |- _ => apply negb_true_iff in H end. done. Qed.
Lemma reg_is_gpr t p : reg_ok (PGPR t p) = true -> is_gpr p = true.
Proof. intros (H & _)%reg_ok_inv. unfold is_gpr. destruct (Z.leb_spec 0 p), (Z.ltb_spec p GPR_NUM); done || lia. Qed.
Lemma cst_ok_inv t k : cst_ok (VConst t k) = true -> in_u 32 k /\ trunc t k = k.
Proof. cbn. intros H. bool_to_prop. done. Qed.
Lemma reg_opnd v : reg_ok v = true -> opnd_ok v = true.
Proof. unfold opnd_ok. by intros ->. Qed.
Lemma slot_opnd v : slot_ok v = true -> opnd_ok v = true.
Proof. unfold opnd_ok. intros ->. by rewrite orb_true_r. Qed.
Lemma cst_opnd v : cst_ok v = true -> opnd_ok v = true.
Proof. unfold opnd_ok. intros ->. by rewrite orb_true_r. Qed.
Hint Resolve reg_opnd slot_opnd cst_opnd : rvdbt.

Lemma mem_ok_base b o n w : is_gpr b = true -> 0 <= o < 2 ^ 31 -> mem_ok (mkMem (Some b) None o w n) = true.
Proof. intros Hb Ho. unfold mem_ok. cbn -[sN Z.eqb]. rewrite Hb, sN_id, Z.eqb_refl by (unfold in_s; lia). done. Qed.

Lemma imm_fits_trunc t k : cst_ok (VConst t k) = true -> imm_fits (slot_size t) k = true.
Proof.
  intros [Hk Ht]%cst_ok_inv. unfold imm_fits, in_u in *.
  assert (0 <= k < 2 ^ (8 * slot_size t)).
  { destruct t; cbn in *; try lia; rewrite <- Ht; unfold uN; zlia. }
  assert (0 < 2 ^ (8 * slot_size t - 1)) by (apply pow2_pos; pose proof (slot_size_bound t); lia).
  destruct (Z.leb_spec (- 2 ^ (8 * slot_size t - 1)) k), (Z.ltb_spec k (2 ^ (8 * slot_size t))); done || lia.
Qed.

(** The memory operand of a slot. *)
Lemma make_slot_mem v :
  slot_ok v = true -> exists m, make_operand v = Some (Mem m) /\ mem_ok m = true /\ mm_size m = slot_size (type_of v).
Proof.
  destruct v as [| | |[] t o|]; try done; cbn [slot_ok type_of]; intros H; bool_to_prop.
  - subst t. rewrite make_global. eexists. split; [done|]. split; [|done].
    match goal with H : valid_offs _ = true |- _ => apply valid_offs_bound in H end. apply mem_ok_base; [done|lia].
  - rewrite make_frame by done. eexists. split; [done|]. split; [|done].
    pose proof (slot_size_bound t). apply mem_ok_base; [done|]. unfold spillframe_sp_offs, spillframe_size in *. destruct is_leaf; lia.
Qed.

(** *** [mov] *)
Definition mov_ok (d v : VOperand) : Prop :=
  type_of d = type_of v /\
  (reg_ok d = true /\ opnd_ok v = true \/ slot_ok d = true /\ (reg_ok v = true \/ cst_ok v = true)).

Lemma mov_encodable d v :
  mov_ok d v -> exists od ov, make_operand d = Some od /\ make_operand v = Some ov /\ encodable (AMov od ov) = true.
Proof.
  intros [Ht [[Hd Hv]|[Hd Hv]]].
  - destruct d as [| |t p| |]; try done. pose proof (reg_is_gpr _ _ Hd) as Hg. destruct (reg_ok_inv _ _ Hd) as (_ & _ & HU).
    rewrite make_reg by done. unfold opnd_ok in Hv. apply orb_true_iff in Hv as [[Hv|Hv]%orb_true_iff|Hv].
    + destruct v as [| |t' p'| |]; try done. pose proof (reg_is_gpr _ _ Hv). cbn in Ht. subst t'. rewrite make_reg by done.
      eexists _, _. split_and!; [done..|]. cbn [encodable]. by rewrite Z.eqb_refl, Hg.
    + destruct (make_slot_mem v Hv) as (m & -> & Hm & Hs). eexists _, _. split_and!; [done..|]. cbn [encodable].
      rewrite Hs, <- Ht. cbn [type_of]. by rewrite Z.eqb_refl, Hg, Hm.
    + destruct v as [t' k| | | |]; try done. cbn in Ht. subst t'. eexists _, _. split_and!; [done..|]. cbn [encodable].
      by rewrite Hg, (imm_fits_trunc _ _ Hv).
  - destruct (make_slot_mem d Hd) as (m & -> & Hm & Hs). rewrite Ht in Hs. destruct Hv as [Hv|Hv].
    + destruct v as [| |t p| |]; try done. pose proof (reg_is_gpr _ _ Hv) as Hg. destruct (reg_ok_inv _ _ Hv) as (_ & _ & HU).
      rewrite make_reg by done. eexists _, _. split_and!; [done..|]. cbn [encodable type_of] in *. by rewrite Hs, Z.eqb_refl, Hg, Hm.
    + destruct v as [t k| | | |]; try done. eexists _, _. split_and!; [done..|]. cbn [encodable type_of] in *.
      rewrite Hs, Hm, (imm_fits_trunc _ _ Hv). by destruct t.
Qed.

Lemma sim_mov bb n_blocks ss d v : mov_ok d v -> sim_inst bb n_blocks ss (Emit_mov is_leaf d v) (InstUnop _mov d v).
Proof.
  intros Hm. destruct (mov_encodable d v Hm) as (od & ov & Hod & Hov & He). exists [AMov od ov]. split.
  { unfold Emit_mov. by eapply emits_opt, emits_opt, emits_emit. }
  intros s ms Hr Hns. cbn [exec_inst InstUnop_HasOpcode] in Hns |- *.
  change (InstUnop_HasOpcode _mov) with true in Hns |- *. cbn match in Hns |- *.
  assert (Hv : opnd_ok v = true) by (destruct Hm as [_ [[_ ?]|[_ [?|?]]]]; auto with rvdbt).
  assert (Hd : reg_ok d || slot_ok d = true) by (destruct Hm as [_ [[-> _]|[-> _]]]; [done|apply orb_true_r]).
  destruct (read_opnd si v s) as [x|] eqn:Hx; [|done]. cbn [or_stuck] in Hns |- *.
  destruct (write_opnd si d x s) as [s'|] eqn:Hw; [|done]. cbn [or_stuck].
  destruct (rd_operand v s ms x ov Hr Hv Hx Hov) as [Hrd Hrng].
  destruct (wr_operand d x x s s' ms od Hr Hd Hw Hrng eq_refl Hod) as (ms' & Hwr & Hr').
  cbn [exec_seq exec_ainst]. rewrite Hrd. cbn [on]. rewrite Hwr. cbn [on srel]. done.
Qed.

(** *** Memory accesses *)

(** The address operand, and the address it denotes. *)
Lemma make_vmem_ok p n :
  type_of p = I32 -> reg_ok p = true \/ cst_ok p = true ->
  exists m, make_vmem p n = Some m /\ mem_ok m = true /\ mm_size m = n /\
    forall s ms a, mrel s ms -> read_opnd si p s = Some a -> ea m (regs ms) = a /\ in_u 32 a.
Proof.
  intros Ht [Hp|Hp].
  - destruct p as [| |t p| |]; try done. cbn in Ht. subst t. pose proof (reg_is_gpr _ _ Hp). destruct (reg_ok_inv _ _ Hp) as (_ & Hf & _).
    eexists. split; [done|]. split; [by apply mem_ok_base|]. split; [done|]. intros s ms a Hr Ha.
    cbn in Ha. pose proof (mr_regs _ _ Hr _ _ Ha Hf) as <-. split; [|apply uN_range; lia].
    unfold ea. cbn -[uN]. by rewrite !Z.add_0_r.
  - destruct p as [t k| | | |]; try done. destruct (cst_ok_inv _ _ Hp) as [Hk _].
    eexists. split; [done|]. split; [|split; [done|]].
    + unfold mem_ok. cbn. unfold in_u in Hk. destruct (Z.leb_spec 0 k), (Z.ltb_spec k (2 ^ 32)); done || lia.
    + intros s ms a Hr [= <-]. split; [|done]. unfold ea. cbn -[uN]. apply uN_id. unfold in_u in *. lia.
Qed.

Lemma guest_addr a : in_u 32 a -> a < guest_top.
Proof. unfold in_u, guest_top. lia. Qed.

(** The instruction of a load, by size and sign. *)
Definition load_inst (sz : VType) (sgn : VSign) (d : aop) (m : amem) : ainst :=
  match sz with
  | I8 | I16 => match sgn with VSign_U => AMovzx d (Mem m) | VSign_S => AMovsx d (Mem m) end
  | _ => AMov d (Mem m)
  end.

Lemma load_value sz sgn T l :
  access_ity sz sgn = Some T -> in_u (bits_of sz) l ->
  uN 32 (match sz, sgn with I8, VSign_S | I16, VSign_S => sN (bits_of sz) l | _, _ => l end) = u32 (cast T l).
Proof.
  unfold access_ity. destruct sz; cbn [VTypeToSize]; intros [= <-] Hl; unfold cast; cbn [isigned ibits];
    destruct sgn; try done; symmetry; first [apply (uN_sN 32)|f_equal; exact (uN_id _ _ Hl)].
Qed.

Lemma sim_vmload bb n_blocks ss sz sgn d p :
  types_ok (InstVMLoad sz sgn d p) = true -> reg_ok d = true -> reg_ok p = true \/ cst_ok p = true ->
  sim_inst bb n_blocks ss (Emit_vmload sz sgn d p) (InstVMLoad sz sgn d p).
Proof.
  intros Ht Hd Hp. cbn [types_ok] in Ht. bool_to_prop. destruct d as [| |t q| |]; try done. cbn in H. subst t.
  pose proof (reg_is_gpr _ _ Hd) as Hg.
  destruct (make_vmem_ok p (slot_size sz)) as (m & Hm & Hmo & Hms & Hea); [done..|].
  exists [load_inst sz sgn (Reg 4 q) m]. split.
  { unfold Emit_vmload. eapply emits_opt; [by apply make_gpr_reg|]. apply emits_assert; [by rewrite bool_decide_true|].
    destruct sz; try done; (eapply emits_opt; [exact Hm|]); destruct sgn; apply emits_emit; cbn [load_inst encodable];
      cbn in Hms; rewrite Hms, Hmo, Hg; done. }
  intros s ms Hr Hns. cbn [exec_inst] in Hns |- *.
  destruct (read_opnd si p s) as [a|] eqn:Ha; [|done]. cbn [or_stuck] in Hns |- *.
  destruct (Hea s ms a Hr Ha) as [He Hra]. destruct (access_ity sz sgn) as [T|] eqn:ET; [|done]. cbn [or_stuck] in Hns |- *.
  assert (Hsz : isize T = Z.to_nat (slot_size sz)) by (destruct sz; cbn in ET; try done; injection ET as <-; by destruct sgn).
  assert (HR : mread lay (mm_size m) (ea m (regs ms)) ms =
    match load_le (isize T) (q_mem s) a with Some v => AOk v | None => AFault end).
  { rewrite He, Hms, mread_guest by (by apply guest_addr). by rewrite Hsz, (mr_mem _ _ Hr). }
  unfold unaligned_load in *. destruct (load_le (isize T) (q_mem s) a) as [l|] eqn:El; cbn [fmap option_fmap option_map] in *.
  - cbn [write_opnd or_stuck] in Hns |- *. destruct (mr_weak _ _ Hr) as (_ & _ & _ & _ & Hmw). cbn in Hmw.
    pose proof (load_le_range _ _ _ _ Hmw El) as Hl. rewrite Hsz, Z2Nat.id in Hl by (pose proof (slot_size_bound sz); lia).
    pose proof (load_value sz sgn T l ET Hl) as Hval.
    destruct (wr_operand (PGPR I32 q) (u32 (cast T l)) (match sz, sgn with I8, VSign_S | I16, VSign_S => sN (bits_of sz) l | _, _ => l end)
      s _ ms (Reg 4 q) Hr ltac:(by rewrite Hd) eq_refl) as (ms' & Hwr & Hr'); [apply uN_range; lia| |done|].
    { cbn [type_of]. change (bits_of I32) with 32. rewrite Hval. by rewrite uN_uN. }
    assert (exec_ainst lay (load_inst sz sgn (Reg 4 q) m) ms = SNext ms') as Hx.
    { destruct sz; try done; destruct sgn; cbn [load_inst exec_ainst rd opsize]; rewrite HR; cbn [on]; rewrite ?Hms;
        unfold bits_of in Hwr; rewrite Hwr; done. }
    cbn [exec_seq]. rewrite Hx. exact Hr'.
  - assert (exec_ainst lay (load_inst sz sgn (Reg 4 q) m) ms = SFault ms) as Hx.
    { destruct sz; try done; destruct sgn; cbn [load_inst exec_ainst rd opsize]; rewrite HR; done. }
    cbn [exec_seq]. rewrite Hx. split; [apply Hr|apply Hr].
Qed.

Lemma sim_vmstore bb n_blocks ss sz sgn p v :
  types_ok (InstVMStore sz sgn p v) = true -> reg_ok v = true -> reg_ok p = true \/ cst_ok p = true ->
  sim_inst bb n_blocks ss (Emit_vmstore is_leaf sz sgn p v) (InstVMStore sz sgn p v).
Proof.
  intros Ht Hv Hp. cbn [types_ok] in Ht. bool_to_prop. destruct sgn; [|done].
  destruct v as [| |t q| |]; try done. cbn [type_of] in *. subst t. pose proof (reg_is_gpr _ _ Hv) as Hg.
  destruct (make_vmem_ok p (slot_size sz)) as (m & Hm & Hmo & Hms & Hea); [done..|].
  exists [AMov (Mem m) (Reg (slot_size sz) q)]. split.
  { unfold Emit_vmstore. eapply emits_opt; [by apply make_reg|]. eapply (emits_opt _ (slot_size sz)); [by destruct sz|].
    eapply emits_opt; [exact Hm|]. apply emits_assert; [done|]. apply emits_emit. cbn [encodable].
    by rewrite Hms, Z.eqb_refl, Hg, Hmo. }
  intros s ms Hr Hns. cbn [exec_inst] in Hns |- *.
  destruct (read_opnd si p s) as [a|] eqn:Ha; [|done]. cbn [or_stuck] in Hns |- *.
  destruct (Hea s ms a Hr Ha) as [He Hra].
  destruct (read_opnd si (PGPR sz q) s) as [x|] eqn:Hx; [|done]. cbn [or_stuck] in Hns |- *.
  destruct (access_ity sz VSign_U) as [T|] eqn:ET; [|done]. cbn [or_stuck] in Hns |- *.
  destruct (rd_operand _ s ms x _ Hr (reg_opnd _ Hv) Hx (make_reg _ _ ltac:(done))) as [Hrd Hrx].
  assert (Hsz : isize T = Z.to_nat (slot_size sz)) by (destruct sz; cbn in ET; try done; by injection ET as <-).
  assert (Hc : cast T x = x).
  { cbn [read_opnd] in Hx. apply narrow_Some_inv in Hx as (y & _ & ->).
    destruct sz; cbn in ET; try done; injection ET as <-; unfold cast; cbn -[uN] in *; rewrite ?uN_uN; try done; by apply uN_id. }
  cbn [exec_seq exec_ainst]. rewrite Hrd. cbn [on wr]. rewrite Hms, He. unfold mwrite.
  rewrite (proj2 (Z.ltb_lt _ _) (guest_addr _ Hra)). unfold unaligned_store. rewrite Hc, Hsz, (mr_mem _ _ Hr).
  unfold store_le. destruct (mapped _ _ _); cbn [on srel].
  - rewrite <- (mr_mem _ _ Hr) at 2. by apply mrel_mem.
  - split; [apply Hr|apply Hr].
Qed.

(** *** Comparisons *)
Definition src_ok (v : VOperand) : Prop := type_of v = I32 /\ (reg_ok v = true \/ cst_ok v = true).

Lemma src_operand v :
  src_ok v -> exists o, make_operand v = Some o /\ opnd_ok v = true /\
    (o = Imm (match v with VConst _ k => k | _ => 0 end) /\ cst_ok v = true \/ exists p, o = Reg 4 p /\ v = PGPR I32 p /\ is_gpr p = true).
Proof.
  intros [Ht [Hv|Hv]].
  - destruct v as [| |t p| |]; try done. cbn in Ht. subst t. eexists. split; [by apply make_reg|].
    split; [auto with rvdbt|]. right. exists p. split_and!; [done..|]. by eapply reg_is_gpr.
  - destruct v as [t k| | | |]; try done. eexists. split; [done|]. split; [auto with rvdbt|]. by left.
Qed.

Lemma imm4 t k : cst_ok (VConst t k) = true -> imm_fits 4 k = true.
Proof. intros [H _]%cst_ok_inv. unfold imm_fits, in_u in *. destruct (Z.leb_spec (- 2 ^ (8 * 4 - 1)) k), (Z.ltb_spec k (2 ^ (8 * 4))); done || lia. Qed.

(** An instruction with a 32-bit register and a 32-bit source is encodable. *)
Lemma src_encodable (mk : aop -> aop -> ainst) p v o :
  (forall r, is_gpr p = true -> is_gpr r = true -> encodable (mk (Reg 4 p) (Reg 4 r)) = true) ->
  (forall k, is_gpr p = true -> imm_fits 4 k = true -> encodable (mk (Reg 4 p) (Imm k)) = true) ->
  is_gpr p = true -> src_ok v -> make_operand v = Some o -> encodable (mk (Reg 4 p) o) = true.
Proof.
  intros Hreg Himm Hp Hv Ho. destruct (src_operand v Hv) as (o' & Ho' & _ & [[-> Hc]|(q & -> & -> & Hq)]);
    rewrite Ho in Ho'; injection Ho' as ->; [|by apply Hreg]. apply Himm; [done|]. destruct v; try done. by eapply imm4.
Qed.

Lemma cmp_step p v o s ms a b :
  mrel s ms -> reg_ok (PGPR I32 p) = true -> src_ok v -> make_operand v = Some o ->
  read_opnd si (PGPR I32 p) s = Some a -> read_opnd si v s = Some b ->
  exec_ainst lay (ACmp (Reg 4 p) o) ms = SNext (set_flags (Some (sub_flags 32 a b)) ms) /\ in_u 32 a /\ in_u 32 b.
Proof.
  intros Hr Hp Hv Ho Ha Hb. destruct (src_operand v Hv) as (o' & Ho' & Hvo & _).
  destruct (rd_operand _ s ms a _ Hr (reg_opnd _ Hp) Ha (make_reg I32 p ltac:(done))) as [Hra Ia].
  destruct (rd_operand v s ms b o Hr Hvo Hb Ho) as [Hrb Ib]. change (slot_size I32) with 4 in Hra.
  cbn [exec_ainst]. rewrite Hra. cbn [on]. rewrite Hrb. done.
Qed.

Lemma sim_br bb n_blocks ss b : ss !! 0%nat = Some b -> sim_inst bb n_blocks ss (Emit_br bb n_blocks ss) InstBr.
Proof.
  intros Hb. exists (if bool_decide (b = S bb /\ S bb < n_blocks)%nat then [] else [AJmp b]). split.
  { unfold Emit_br. eapply emits_opt; [exact Hb|]. apply emits_if; [apply emits_ret|by apply emits_emit]. }
  intros s ms Hr _. case_bool_decide as Hc; cbn; [destruct Hc as [-> ?]; done|done].
Qed.

Lemma sim_brcc bb n_blocks ss cc p v bt bf :
  reg_ok (PGPR I32 p) = true -> src_ok v -> ss !! 0%nat = Some bt -> ss !! 1%nat = Some bf ->
  sim_inst bb n_blocks ss (Emit_brcc is_leaf bb n_blocks ss cc (PGPR I32 p) v) (InstBrcc cc (PGPR I32 p) v).
Proof.
  intros Hp Hv Ht Hf. destruct (src_operand v Hv) as (o & Ho & Hvo & _). pose proof (reg_is_gpr _ _ Hp) as Hg.
  exists ([ACmp (Reg 4 p) o] ++ [AJcc (make_cc cc) bt] ++ (if bool_decide (bf = S bb /\ S bb < n_blocks)%nat then [] else [AJmp bf])). split.
  { unfold Emit_brcc. eapply emits_opt; [exact Ht|]. eapply emits_opt; [exact Hf|]. cbn [IsConst].
    eapply emits_opt; [by apply make_reg|]. eapply emits_opt; [exact Ho|]. apply emits_seq; [|apply emits_seq].
    - apply emits_emit. apply (src_encodable ACmp p v o); try done; intros; cbn [encodable]; bool_to_prop; by apply andb_true_iff.
    - by apply emits_emit.
    - apply emits_if; [apply emits_ret|by apply emits_emit]. }
  intros s ms Hr Hns. cbn [exec_inst] in Hns |- *.
  destruct (read_opnd si (PGPR I32 p) s) as [a|] eqn:Ha; [|done]. cbn [or_stuck] in Hns |- *.
  destruct (read_opnd si v s) as [b|] eqn:Hb; [|done]. cbn [or_stuck] in Hns |- *.
  destruct (cmp_step p v o s ms a b Hr Hp Hv Ho Ha Hb) as (Hx & Ia & Ib).
  cbn [app exec_seq]. rewrite Hx. cbn [exec_ainst set_flags fl]. rewrite cond_eval by done.
  assert (mrel s (set_flags (Some (sub_flags 32 a b)) ms)) by (by apply mrel_flags).
  destruct (eval_cc cc a b); [done|]. case_bool_decide as Hc; cbn; [destruct Hc as [-> ?]; done|done].
Qed.

(** *** [setcc] *)
Definition aliased (pd p0 : Z) (v : VOperand) : bool :=
  (p0 =? pd) || from_option (fun p1 => p1 =? pd) false (GetPGPR v).

(** Writing a register that is not an operand leaves the operand alone. *)
Lemma read_other v p y s :
  (forall t, v <> PGPR t p) -> read_opnd si v (q_set_pgpr p y s) = read_opnd si v s.
Proof.
  intros H. destruct v as [| |t q|[]|]; try done. cbn. rewrite lookup_insert_ne; [done|]. intros <-. by eapply H.
Qed.

Lemma setcc_end (c : bool) p f :
  u32 (write_reg 1 p (if c then 1 else 0) (write_reg 4 p 0 f) p) = (if c then 1 else 0) /\
  u32 (write_reg 4 p (uN 8 (write_reg 1 p (if c then 1 else 0) f p)) (write_reg 1 p (if c then 1 else 0) f) p) = (if c then 1 else 0).
Proof.
  unfold write_reg, set_reg. rewrite !Z.eqb_refl. cbn -[uN Z.shiftl Z.shiftr]. change (8 * 1) with 8.
  change (Z.shiftl (Z.shiftr (u32 0) 8) 8) with 0. rewrite uN_uN.
  assert (uN 8 (Z.shiftl (Z.shiftr (f p) 8) 8 + u8 (if c then 1 else 0)) = if c then 1 else 0) as ->.
  { rewrite Z.shiftl_mul_pow2 by lia. unfold uN. rewrite Z.add_comm, Z.mod_add, Z.mod_mod by lia. by destruct c. }
  by destruct c.
Qed.
Lemma write_other n p v f q : q <> p -> write_reg n p v f q = f q.
Proof. intros H. unfold write_reg, set_reg. by rewrite (proj2 (Z.eqb_neq _ _) H). Qed.

Lemma sim_setcc bb n_blocks ss cc pd p0 v :
  reg_ok (PGPR I32 pd) = true -> reg_ok (PGPR I32 p0) = true -> src_ok v ->
  sim_inst bb n_blocks ss (Emit_setcc is_leaf cc (PGPR I32 pd) (PGPR I32 p0) v) (InstSetcc cc (PGPR I32 pd) (PGPR I32 p0) v).
Proof.
  intros Hd H0 Hv. destruct (src_operand v Hv) as (o & Ho & Hvo & _). pose proof (reg_is_gpr _ _ Hd) as Hg.
  pose proof (reg_is_gpr _ _ H0) as Hg0. destruct (reg_ok_inv _ _ Hd) as (Hdr & Hdf & _).
  exists ((if negb (aliased pd p0 v) then [AAlu kIdXor (Reg 4 pd) (Reg 4 pd)] else []) ++
     [ACmp (Reg 4 p0) o] ++ [ASet (make_cc cc) (Reg 1 pd)] ++ (if aliased pd p0 v then [AMovzx (Reg 4 pd) (Reg 1 pd)] else [])). split.
  { unfold Emit_setcc. eapply emits_opt; [by apply make_gpr_reg|]. do 2 (eapply emits_opt; [done|]). fold (aliased pd p0 v).
    apply emits_seq; [apply emits_if; [apply emits_emit; cbn; by rewrite Hg|apply emits_ret]|].
    eapply emits_opt; [by apply make_reg|]. eapply emits_opt; [exact Ho|]. apply emits_seq; [|apply emits_seq].
    - apply emits_emit, (src_encodable ACmp p0 v o); try done; intros; cbn [encodable]; bool_to_prop; by apply andb_true_iff.
    - apply emits_emit. cbn. by rewrite Hg.
    - apply emits_if; [apply emits_emit; cbn; by rewrite Hg|apply emits_ret]. }
  intros s ms Hr Hns. cbn [exec_inst] in Hns |- *.
  destruct (read_opnd si (PGPR I32 p0) s) as [a|] eqn:Ha; [|done]. cbn [or_stuck] in Hns |- *.
  destruct (read_opnd si v s) as [b|] eqn:Hb; [|done]. cbn [or_stuck write_opnd merge_reg] in Hns |- *.
  destruct (aliased pd p0 v) eqn:Eal; cbn [negb app].
  - destruct (cmp_step p0 v o s ms a b Hr H0 Hv Ho Ha Hb) as (Hx & Ia & Ib). cbn [exec_seq]. rewrite Hx.
    cbn [exec_ainst set_flags fl on wr rd set_regs regs exec_seq]. rewrite cond_eval by done.
    apply (mrel_reg pd _ s ms _ _ Hr); [done..|apply (proj2 (setcc_end (eval_cc cc a b) pd (regs ms)))|].
    intros q Hq. by rewrite !write_other.
  - unfold aliased in Eal. apply orb_false_iff in Eal as [E0 E1]. apply Z.eqb_neq in E0.
    set (ms1 := mkM (write_reg 4 pd 0 (regs ms)) None (m_cpu ms) (m_stack ms) (m_mem ms)).
    assert (Hr1 : mrel (q_set_pgpr pd 0 s) ms1).
    { apply (mrel_reg pd _ s ms _ _ Hr); try done; [|intros q Hq; by rewrite write_other].
      unfold write_reg, set_reg. by rewrite Z.eqb_refl. }
    assert (Hxor : exec_ainst lay (AAlu kIdXor (Reg 4 pd) (Reg 4 pd)) ms = SNext ms1).
    { cbn [exec_ainst rd on wr set_flags regs set_regs]. cbn [eval_alu]. by rewrite Z.lxor_nilpotent. }
    destruct (cmp_step p0 v o _ ms1 a b Hr1 H0 Hv Ho) as (Hx & Ia & Ib).
    { rewrite read_other; [done|]. intros t Ht. by injection Ht. }
    { rewrite read_other; [done|]. intros t ->. cbn in E1. by rewrite Z.eqb_refl in E1. }
    cbn [exec_seq]. rewrite Hxor, Hx. cbn [exec_ainst set_flags fl on wr set_regs regs exec_seq]. rewrite cond_eval by done.
    apply (mrel_reg pd _ s ms _ _ Hr); [done..|apply (proj1 (setcc_end (eval_cc cc a b) pd (regs ms)))|].
    intros q Hq. cbn [ms1 regs]. by rewrite !write_other.
Qed.

(** *** Arithmetic *)
Lemma shift_count b : in_u 32 b -> u8 b mod 32 = b mod 32.
Proof. unfold in_u, uN. intros. zlia. Qed.

Lemma land_u32 a b : in_u 32 a -> u32 (Z.land a b) = Z.land a b.
Proof.
  intros Ha. apply Z.bits_inj'. intros n Hn. autorewrite with rvbits. destruct (Z.ltb_spec n 32); [done|].
  by rewrite (testbit_high 32 a) by (done || lia).
Qed.
Lemma lor_u32 a b : in_u 32 a -> in_u 32 b -> u32 (Z.lor a b) = Z.lor a b.
Proof.
  intros Ha Hb. apply Z.bits_inj'. intros n Hn. autorewrite with rvbits. destruct (Z.ltb_spec n 32); [done|].
  by rewrite (testbit_high 32 a), (testbit_high 32 b) by (done || lia).
Qed.
Lemma lxor_u32 a b : in_u 32 a -> in_u 32 b -> u32 (Z.lxor a b) = Z.lxor a b.
Proof.
  intros Ha Hb. apply Z.bits_inj'. intros n Hn. autorewrite with rvbits. destruct (Z.ltb_spec n 32); [done|].
  by rewrite (testbit_high 32 a), (testbit_high 32 b) by (done || lia).
Qed.
Lemma shiftr_u32 a k : in_u 32 a -> 0 <= k -> u32 (Z.shiftr a k) = Z.shiftr a k.
Proof.
  intros Ha Hk. apply uN_id. unfold in_u in *. rewrite Z.shiftr_div_pow2 by done.
  split; [apply Z.div_pos; [lia|by apply pow2_pos]|]. apply Z.div_lt_upper_bound; [by apply pow2_pos|].
  pose proof (pow2_pos k Hk). nia.
Qed.

Definition alu_of (op : Op) : option alu :=
  match op with
  | _add => Some kIdAdd | _sub => Some kIdSub | _and => Some kIdAnd | _or => Some kIdOr | _xor => Some kIdXor
  | _ => None
  end.
Definition shift_of (op : Op) : option shift :=
  match op with _sra => Some kIdSar | _srl => Some kIdShr | _sll => Some kIdShl | _ => None end.

Lemma alu_eval op k a b x :
  alu_of op = Some k -> in_u 32 a -> in_u 32 b -> eval_binop op a b = Some x -> u32 (eval_alu k a b) = x.
Proof.
  destruct op; intros [= <-] Ha Hb [= <-]; cbn [eval_alu];
    [done|done|by apply land_u32|by apply lor_u32|by apply lxor_u32].
Qed.
Lemma shift_eval op k a b x :
  shift_of op = Some k -> in_u 32 a -> in_u 32 b -> eval_binop op a b = Some x -> u32 (eval_shift k a (u8 b)) = x.
Proof.
  intros Hk Ha Hb Hx. pose proof (Z.mod_pos_bound b 32 ltac:(lia)) as Hm.
  destruct op; try discriminate Hk; injection Hk as <-; injection Hx as <-; cbn [eval_shift]; rewrite (shift_count b Hb); try done.
  rewrite (uN_id 32 a Ha). apply shiftr_u32; [done|lia].
Qed.

(** Two operands into the register of the first. *)
Lemma sim_binop_gen bb n_blocks ss op mk f p v o m :
  reg_ok (PGPR I32 p) = true -> opnd_ok v = true -> make_operand v = Some o ->
  emits m [mk (Reg 4 p) o] ->
  (forall ms a b, rd lay (Reg 4 p) ms = AOk a -> rd lay o ms = AOk b ->
     exec_ainst lay (mk (Reg 4 p) o) ms = SNext (set_regs (write_reg 4 p (f a b) (regs ms)) (set_flags None ms))) ->
  (forall a b x, in_u 32 a -> in_u 32 b -> eval_binop op a b = Some x -> u32 (f a b) = x) ->
  sim_inst bb n_blocks ss m (InstBinop op (PGPR I32 p) (PGPR I32 p) v).
Proof.
  intros Hp Hv Ho Hem Hex Hf. exists [mk (Reg 4 p) o]. split; [done|]. intros s ms Hr Hns. cbn [exec_inst] in Hns |- *.
  destruct (reg_ok_inv _ _ Hp) as (Hpr & Hpf & _).
  destruct (read_opnd si (PGPR I32 p) s) as [a|] eqn:Ha; [|done]. cbn [or_stuck] in Hns |- *.
  destruct (read_opnd si v s) as [b|] eqn:Hb; [|done]. cbn [or_stuck] in Hns |- *.
  destruct (eval_binop op a b) as [x|] eqn:Hx; [|done]. cbn [or_stuck write_opnd merge_reg].
  destruct (rd_operand _ s ms a _ Hr (reg_opnd _ Hp) Ha (make_reg I32 p ltac:(done))) as [Hra Ia].
  destruct (rd_operand v s ms b o Hr Hv Hb Ho) as [Hrb Ib].
  cbn [exec_seq]. rewrite (Hex ms a b Hra Hrb). cbn [srel].
  apply (mrel_reg p _ s ms _ _ Hr); try done; [|intros q Hq; by rewrite write_other].
  unfold write_reg, set_reg. rewrite Z.eqb_refl. cbn -[uN]. rewrite uN_uN. by apply Hf.
Qed.

Lemma sim_alu bb n_blocks ss op k p v :
  alu_of op = Some k -> reg_ok (PGPR I32 p) = true -> src_ok v ->
  sim_inst bb n_blocks ss (Emit_binop is_leaf op (PGPR I32 p) (PGPR I32 p) v) (InstBinop op (PGPR I32 p) (PGPR I32 p) v).
Proof.
  intros Hk Hp Hv. destruct (src_operand v Hv) as (o & Ho & Hvo & _). pose proof (reg_is_gpr _ _ Hp) as Hg.
  assert (Hem : emits (EmitInstBinop is_leaf (AAlu k) (PGPR I32 p) (PGPR I32 p) v) [AAlu k (Reg 4 p) o]).
  { unfold EmitInstBinop. do 2 (eapply emits_opt; [done|]). apply emits_assert; [apply Z.eqb_refl|].
    eapply emits_opt; [by apply make_gpr_reg|]. eapply emits_opt; [exact Ho|]. apply emits_emit.
    apply (src_encodable (AAlu k) p v o); try done; intros; cbn [encodable]; bool_to_prop; by apply andb_true_iff. }
  apply (sim_binop_gen _ _ _ _ (AAlu k) (eval_alu k) p v o); try done.
  - by destruct op; try discriminate Hk; injection Hk as <-.
  - intros ms a b Ha Hb. cbn [exec_ainst]. rewrite Ha. cbn [on]. by rewrite Hb.
  - intros a b x. by apply alu_eval.
Qed.

Lemma sim_shift bb n_blocks ss op k p v :
  shift_of op = Some k -> reg_ok (PGPR I32 p) = true -> v = PGPR I32 RCX \/ cst_ok v = true ->
  sim_inst bb n_blocks ss (Emit_binop is_leaf op (PGPR I32 p) (PGPR I32 p) v) (InstBinop op (PGPR I32 p) (PGPR I32 p) v).
Proof.
  intros Hk Hp Hv. pose proof (reg_is_gpr _ _ Hp) as Hg.
  assert (Ho : exists o, make_operand v = Some o /\ opnd_ok v = true /\ encodable (AShift k (Reg 4 p) o) = true).
  { destruct Hv as [->|Hv]; [eexists; split; [done|]; cbn; by rewrite Hg|].
    destruct v as [t c| | | |]; try done. eexists. split; [done|]. split; [auto with rvdbt|]. cbn. by rewrite Hg. }
  destruct Ho as (o & Ho & Hvo & Henc).
  assert (Hem : emits (shift_assert v;; EmitInstBinop is_leaf (AShift k) (PGPR I32 p) (PGPR I32 p) v) [AShift k (Reg 4 p) o]).
  { apply (emits_seq _ _ []).
    - unfold shift_assert. destruct Hv as [->|Hv]; [intros [c l]; cbn; by rewrite app_nil_r|]. destruct v; try done. apply emits_ret.
    - unfold EmitInstBinop. do 2 (eapply emits_opt; [done|]). apply emits_assert; [apply Z.eqb_refl|].
      eapply emits_opt; [by apply make_gpr_reg|]. eapply emits_opt; [exact Ho|]. by apply emits_emit. }
  apply (sim_binop_gen _ _ _ _ (AShift k) (fun a b => eval_shift k a (u8 b)) p v o); try done.
  - by destruct op; try discriminate Hk; injection Hk as <-.
  - intros ms a b Ha Hb. cbn [exec_ainst]. rewrite Ha. cbn [on]. by rewrite Hb.
  - intros a b x. by apply shift_eval.
Qed.

(** *** Calls *)
Lemma stub_num_lookup id : all_stubs !! Z.to_nat (stub_num id) = Some id.
Proof. by destruct id. Qed.

Lemma stub_at_stub id : stub_at lay (lay_stub lay id) = Some id.
Proof.
  unfold stub_at. destruct (list_find _ all_stubs) as [[i id']|] eqn:Ef.
  - apply list_find_Some in Ef as (_ & Heq & _). cbn. f_equal. by apply (lo_stub _ HL).
  - apply list_find_None in Ef. rewrite Forall_lookup in Ef. by destruct (Ef _ _ (stub_num_lookup id)).
Qed.

Lemma stub_target_encodable id : encodable (ACallTo (make_stubcall_target jit_mode stub_tab id)) = true.
Proof.
  unfold make_stubcall_target. destruct jit_mode; cbn [encodable].
  - pose proof (lo_stub64 _ HL id). unfold imm_fits, in_u in *.
    destruct (Z.leb_spec (- 2 ^ (8 * 8 - 1)) (stub_tab id)), (Z.ltb_spec (stub_tab id) (2 ^ (8 * 8))); done || lia.
  - rewrite mem_ok_base; [done..|]. destruct id; vm_compute; split; congruence.
Qed.

Lemma stub_target_rd id ms :
  regs ms STATE = lay_state lay -> rd lay (make_stubcall_target jit_mode stub_tab id) ms = AOk (lay_stub lay id).
Proof.
  intros Hs. unfold make_stubcall_target. destruct jit_mode; [done|]. cbn [rd mm_size].
  assert (H : offs_stub_tab <= offs_stub_tab + RuntimeStubTab_offs id <= sizeof_CPUState - 8) by (destruct id; vm_compute; split; congruence).
  assert (ea (mkMem (Some STATE) None (offs_stub_tab + RuntimeStubTab_offs id) false 8) (regs ms) =
    lay_state lay + (offs_stub_tab + RuntimeStubTab_offs id)) as ->.
  { unfold ea. cbn [mm_base mm_index mm_disp mm_addr32 from_option]. rewrite Hs, Z.add_0_r. apply uN_id.
    pose proof (lo_state _ HL). pose proof (lo_stack _ HL). pose proof stack_bounds.
    unfold in_u, guest_top, offs_stub_tab, sizeof_CPUState in *. lia. }
  rewrite mread_state by (unfold offs_stub_tab in *; lia).
  assert (state_read lay 8 (offs_stub_tab + RuntimeStubTab_offs id) (m_cpu ms) = Some (lay_stub lay id)) as ->; [|done].
  by destruct id.
Qed.

(** The registers a call leaves alone. *)
Lemma clob_saved p : (p < N_PREGS)%nat -> RegMask.Test GPR_CALL_CLOBBER (Z.of_nat p) = false -> lay_clob lay (Z.of_nat p) = None.
Proof. apply HC. Qed.
Lemma clob_state : lay_clob lay STATE = None.
Proof. by apply (clob_saved 13); [vm_compute; lia|]. Qed.
Lemma clob_sp : lay_clob lay RSP = None.
Proof. by apply (clob_saved 4); [vm_compute; lia|]. Qed.

Lemma load_kept n b (m : mem) a :
  b <= a -> load_le n (filter (fun '(a, _) => b <= a) m) a = load_le n m a.
Proof.
  intros Hb. apply load_le_ext. intros k Hk. rewrite map_lookup_filter. destruct (m !! k) as [v|]; [|done].
  cbn. by rewrite option_guard_True by lia.
Qed.

Lemma mrel_returned s ms f c m :
  mrel s ms -> is_leaf = false -> (forall q, q <> RDI -> q <> RSI -> f q = regs ms q) -> hweak (mkH c 0 m) ->
  mrel (clobber (lay_clob lay) (q_set_mem m (q_set_cpu c s))) (returned lay c m (set_regs f ms)).
Proof.
  intros Hr Hl Hf Hw. destruct HC as (_ & [j1 Hj1] & [j2 Hj2]).
  assert (HRSP : f RSP = E - 8) by (rewrite Hf by done; rewrite (mr_sp _ _ Hr); by rewrite Hl).
  split; try done.
  - cbn. unfold clob_regs. rewrite clob_state. rewrite Hf by done. apply Hr.
  - cbn. unfold clob_regs. rewrite clob_sp, HRSP. by rewrite Hl.
  - intros p Hp. rewrite clobber_lookup. destruct (mr_total _ _ Hr p Hp) as [y Hy]. cbn. rewrite Hy. by eexists.
  - intros p y Hy Hfx. rewrite clobber_lookup in Hy. cbn in Hy. apply fmap_Some in Hy as (z & Hz & ->).
    cbn. unfold clob_regs. destruct (lay_clob lay p) as [j|] eqn:Ej.
    + unfold uN. symmetry. apply Znumtheory.Zmod_div_mod; [lia..|]. by exists (2 ^ 32).
    + rewrite Hf by (intros ->; congruence). by apply (mr_regs _ _ Hr).
  - intros o n x Hfr. cbn in Hfr. destruct (mr_frame _ _ Hr _ _ _ Hfr) as (? & ? & ? & ? & ?). split_and!; try done.
    cbn [returned m_stack set_regs regs]. rewrite load_kept by lia. done.
  - intros _. cbn [returned m_stack set_regs regs]. rewrite load_kept by lia. by apply (mr_link _ _ Hr).
Qed.

Lemma qcgstub_weak weaks op arg c m :
  hweak (mkH c 0 m) ->
  match qcgstub_rv32 weaks op arg c m with Ret _ σ => hweak (mkH (h_cpu σ) 0 (h_mem σ)) | _ => True end.
Proof.
  intros (Hl & Hg & Hi & _ & Hm). unfold qcgstub_rv32.
  pose proof (Handler_weak weaks op arg (mkH c (ip c) m)) as Ht.
  destruct (Handler weaks op arg (mkH c (ip c) m)) as [u [c' g' m']| | |]; try done.
  destruct Ht as (Hl' & Hg' & Hi' & Hgi & Hm'); [by split_and!|]. cbn in *. by split_and!.
Qed.

Lemma sim_hcall bb n_blocks ss stub t k :
  is_leaf = false -> in_u 32 k ->
  sim_inst bb n_blocks ss (Emit_hcall jit_mode is_leaf stub_tab stub (VConst t k)) (InstHcall stub (VConst t k)).
Proof.
  intros Hl Hk.
  exists [AMov (Reg 8 RDI) R_STATE; AMov (Reg 8 RSI) (Imm k); ACallTo (make_stubcall_target jit_mode stub_tab stub)]. split.
  { unfold Emit_hcall. apply emits_assert; [by rewrite Hl|]. apply (emits_seq _ _ [_] [_; _]); [by apply emits_emit|].
    eapply emits_opt; [done|]. apply (emits_seq _ _ [_] [_]); apply emits_emit; [|apply stub_target_encodable].
    cbn. unfold imm_fits, in_u in *. destruct (Z.leb_spec (- 2 ^ (8 * 8 - 1)) k), (Z.ltb_spec k (2 ^ (8 * 8))); done || lia. }
  intros s ms Hr Hns. cbn [exec_inst read_opnd or_stuck] in Hns |- *. unfold exec_hcall in *.
  destruct (stub_rv32 stub) as [op|] eqn:Est; [|done].
  set (f := write_reg 8 RSI k (write_reg 8 RDI (uN (8 * 8) (regs ms STATE)) (regs ms))).
  assert (Hf : forall q, q <> RDI -> q <> RSI -> f q = regs ms q) by (intros; unfold f; by rewrite !write_other).
  assert (HRDI : f RDI = lay_state lay).
  { unfold f, write_reg, set_reg. cbn -[uN]. change (8 * 8) with 64. rewrite uN_uN, (mr_state _ _ Hr). apply uN_id.
    pose proof (lo_state _ HL). pose proof (lo_stack _ HL). pose proof stack_bounds. unfold in_u, guest_top, sizeof_CPUState in *. lia. }
  assert (HRSI : u32 (f RSI) = k).
  { unfold f, write_reg, set_reg. cbn -[uN]. rewrite (uN_id 64 k) by (unfold in_u in *; lia). by apply uN_id. }
  assert (HRSP : f RSP = E - 8) by (rewrite Hf by done; rewrite (mr_sp _ _ Hr); by rewrite Hl).
  assert (Hcall : exec_seq [AMov (Reg 8 RDI) R_STATE; AMov (Reg 8 RSI) (Imm k); ACallTo (make_stubcall_target jit_mode stub_tab stub)] ms =
    exec_seq [ACallTo (make_stubcall_target jit_mode stub_tab stub)] (set_regs f ms)) by reflexivity.
  rewrite Hcall. clear Hcall. clearbody f. cbn [exec_seq exec_ainst]. rewrite stub_target_rd by (cbn; rewrite Hf by done; apply Hr).
  cbn [on]. unfold call. rewrite stub_at_stub. cbn [set_regs regs]. rewrite HRSP, HRDI, Z.eqb_refl.
  assert ((E - 8) mod 16 =? 0 = true) as -> by (pose proof (fo_align HF); apply Z.eqb_eq; zlia).
  assert ((lay_stack lay).1 <=? E - 8 - 8 = true) as -> by (pose proof (fo_room HF); apply Z.leb_le; lia).
  cbn [negb andb]. rewrite Est, HRSI. cbn [m_cpu m_mem set_regs]. rewrite (mr_cpu _ _ Hr), (mr_mem _ _ Hr).
  pose proof (qcgstub_weak (lay_weaks lay) op k _ _ (mr_weak _ _ Hr)) as Hw.
  destruct (qcgstub_rv32 (lay_weaks lay) op k (q_cpu s) (q_mem s)) as [u σ|σ|σ|]; try done.
  cbn [srel]. by apply mrel_returned.
Qed.

(** *** Dispatch *)
Lemma placed_in i c k v x :
  placed i = true -> op_ct (GetOpcode i) = Some c -> inputs i !! k = Some v ->
  ic_ct c !! (length (outputs i) + k)%nat = Some x -> in_placed x v = true /\ tied x (outputs i) v = true.
Proof.
  unfold placed. intros H Hc Hv Hx. rewrite Hc in H. bool_to_prop. rewrite forallb_forall in H.
  specialize (H k ltac:(apply in_seq; split; [lia|]; by eapply lookup_lt_Some)). rewrite Hx, Hv in H. by bool_to_prop.
Qed.
Lemma placed_out i c k v x :
  placed i = true -> op_ct (GetOpcode i) = Some c -> outputs i !! k = Some v -> ic_ct c !! k = Some x ->
  out_placed (GetOpcode i) x v = true.
Proof.
  unfold placed. intros H Hc Hv Hx. rewrite Hc in H. bool_to_prop. rewrite !forallb_forall in *.
  match goal with X : forall _, In _ (seq 0 (length (outputs i))) -> _ |- _ => specialize (X k ltac:(apply in_seq; split; [lia|]; by eapply lookup_lt_Some)); by rewrite Hx, Hv in X end.
Qed.
Lemma in_placed_src c v : in_placed c v = true -> reg_ok v = true \/ cst_ok v = true.
Proof. intros [(t & p & -> & ? & _)|(t & k & -> & ? & _)]%in_placed_inv; auto. Qed.
Lemma out_placed_reg op c v : out_placed op c v = true -> op <> _mov -> reg_ok v = true.
Proof. destruct v as [| | |[]|]; try done; cbn [out_placed]; intros H Hop; by bool_to_prop. Qed.

(** Instructions other than the exits. *)
Definition straight (i : Inst) : bool := match i with InstGBr _ | InstGBrind _ => false | _ => true end.
(** The successors an instruction names exist; a region without a frame makes
    no calls. *)
Definition ctx_ok (ss : list nat) (i : Inst) : Prop :=
  match i with
  | InstHcall _ _ => is_leaf = false
  | InstBr => is_Some (ss !! 0%nat)
  | InstBrcc _ _ _ => is_Some (ss !! 0%nat) /\ is_Some (ss !! 1%nat)
  | _ => True
  end.


Lemma alu_or_shift op : InstBinop_HasOpcode op = true -> (exists k, alu_of op = Some k) \/ (exists k, shift_of op = Some k).
Proof. destruct op; intros H; try discriminate H; cbn; eauto. Qed.

(** A register operand of an instruction on 32 bits. *)
Lemma reg32 v t p : v = PGPR t p -> type_of v = I32 -> v = PGPR I32 p.
Proof. by intros -> [= ->]. Qed.

Lemma sim_binop bb n_blocks ss op d a b :
  placed (InstBinop op d a b) = true -> types_ok (InstBinop op d a b) = true ->
  sim_inst bb n_blocks ss (Emit_binop is_leaf op d a b) (InstBinop op d a b).
Proof.
  intros Hp Ht. cbn [types_ok forallb] in Ht. bool_to_prop.
  match goal with X : InstBinop_HasOpcode op = true |- _ => rename X into Hop end.
  assert (Hne : op <> _mov) by (intros ->; discriminate Hop).
  assert (exists c x0 x1 x2, op_ct op = Some c /\ ic_ct c = [x0; x1; x2] /\ ci x1 = CtImm_NO /\ has_alias x1 = true /\
    alias x1 = 0%nat /\ (cr x2 = Ct_CX \/ alu_of op <> None)) as (c & x0 & x1 & x2 & Hc & Hct & Hci & Ha1 & Ha2 & Hcx).
  { destruct op; try discriminate Hop; (eexists _, _, _, _; split_and!; [reflexivity..|]); first [by left|by right]. }
  destruct (placed_in _ c 0 a x1 Hp Hc eq_refl ltac:(by rewrite Hct)) as [Ha Hta].
  destruct (placed_in _ c 1 b x2 Hp Hc eq_refl ltac:(by rewrite Hct)) as [Hb _].
  pose proof (placed_out _ c 0 d x0 Hp Hc eq_refl ltac:(by rewrite Hct)) as Hd.
  apply in_placed_reg in Ha as (ta & p & -> & Hra & _); [|done]. apply out_placed_reg in Hd as Hrd; [|done].
  destruct d as [| |td q| |]; try done. unfold tied in Hta. rewrite Ha1, Ha2 in Hta. cbn in Hta. bool_to_prop.
  cbn [type_of] in *. subst ta td. assert (q = p) as -> by congruence.
  destruct (alu_or_shift op Hop) as [[k Hk]|[k Hk]].
  - apply (sim_alu _ _ _ op k); try done. split; [done|]. by eapply in_placed_src.
  - apply (sim_shift _ _ _ op k); try done.
    apply in_placed_inv in Hb as [(t & r & -> & Hr & Hm)|(t & r & -> & Hr & _)]; [left|by right].
    destruct Hcx as [Hcx|Hn]; [|by destruct op]. cbn [type_of] in *. subst t. f_equal. rewrite Hcx in Hm.
    apply reg_ok_inv in Hr as (Hrr & _ & _). rewrite RegMask.Test_testbit in Hm by lia. change Ct_CX with (2 ^ 1) in Hm.
    rewrite Z.pow2_bits_eqb in Hm by lia. apply Z.eqb_eq in Hm. by rewrite <- Hm.
Qed.

Lemma ra_mov_ok d v : ra_mov (InstUnop _mov d v) = true -> mov_ok d v.
Proof.
  cbn. intros H. bool_to_prop. split; [done|].
  match goal with X : _ || _ = true |- _ => apply orb_true_iff in X as [[X|X]%orb_true_iff|X] end; bool_to_prop; auto with rvdbt.
Qed.
Lemma placed_mov_ok d v : placed (InstUnop _mov d v) = true -> type_of d = type_of v -> mov_ok d v.
Proof.
  intros Hp Ht. destruct (placed_in _ _ 0 v _ Hp eq_refl eq_refl eq_refl) as [Hv _].
  pose proof (placed_out _ _ 0 d _ Hp eq_refl eq_refl eq_refl) as Hd. split; [done|]. apply in_placed_src in Hv.
  destruct d as [| |t q|[] t o|]; try done; cbn [out_placed] in Hd; bool_to_prop; [left|by right].
  split; [done|]. destruct Hv; auto with rvdbt.
Qed.

(** Every instruction the allocator leaves, other than an exit, is emitted
    and its code does what it does. *)
Lemma sim_straight bb n_blocks ss cacheptr i :
  emit_ok i = true -> straight i = true -> ctx_ok ss i ->
  sim_inst bb n_blocks ss (QCodegenVisitor_visit jit_mode is_leaf segment stub_tab cacheptr bb n_blocks ss i) i.
Proof.
  intros He Hs Hx. unfold emit_ok in He. apply orb_true_iff in He as [He|He].
  { destruct i as [| | | | | | | |[] d v|]; try done. cbn [QCodegenVisitor_visit]. by apply sim_mov, ra_mov_ok. }
  apply andb_true_iff in He as [[Hp Ht]%andb_true_iff Hk].
  destruct i as [stub a| |cc a b|t|t|sz sgn d p|sz sgn p v|cc d a b|op d v|op d a b]; try done; cbn [QCodegenVisitor_visit].
  - destruct a as [t k| | | |]; try done. bool_to_prop. apply sim_hcall; done.
  - destruct Hx as [b Hb]. by eapply sim_br.
  - destruct Hx as [[bt Hbt] [bf Hbf]].
    destruct (placed_in _ _ 0 a _ Hp eq_refl eq_refl eq_refl) as [Ha _].
    destruct (placed_in _ _ 1 b _ Hp eq_refl eq_refl eq_refl) as [Hb _].
    cbn in Ht. bool_to_prop. apply in_placed_reg in Ha as (ta & q & E0 & Hra & _); [|done].
    apply reg32 in E0; [|done]. subst a. eapply sim_brcc; try done. split; [done|]. by eapply in_placed_src.
  - destruct (placed_in _ _ 0 p _ Hp eq_refl eq_refl eq_refl) as [Ha _].
    pose proof (placed_out _ _ 0 d _ Hp eq_refl eq_refl eq_refl) as Hd.
    apply sim_vmload; [done|by eapply out_placed_reg|by eapply in_placed_src].
  - destruct (placed_in _ _ 0 p _ Hp eq_refl eq_refl eq_refl) as [Ha _].
    destruct (placed_in _ _ 1 v _ Hp eq_refl eq_refl eq_refl) as [Hv _].
    apply in_placed_reg in Hv as (tv & q & -> & Hrv & _); [|done].
    apply sim_vmstore; [done|done|by eapply in_placed_src].
  - destruct (placed_in _ _ 0 a _ Hp eq_refl eq_refl eq_refl) as [Ha _].
    destruct (placed_in _ _ 1 b _ Hp eq_refl eq_refl eq_refl) as [Hb _].
    pose proof (placed_out _ _ 0 d _ Hp eq_refl eq_refl eq_refl) as Hd.
    apply in_placed_reg in Ha as (ta & q & E0 & Hra & _); [|done]. apply out_placed_reg in Hd; [|done].
    cbn in Ht. bool_to_prop. apply reg32 in E0; [|done]. subst a. destruct d as [| |td pd| |]; try done. cbn [type_of] in *. subst td.
    apply sim_setcc; try done. split; [done|]. by eapply in_placed_src.
  - cbn in Ht. bool_to_prop. destruct op; try discriminate. by apply sim_mov, placed_mov_ok.
  - by apply sim_binop.
Qed.
End emit.
