(* ===== verification/QEmitCorrect.v ===== *)
(** * The emitted code of a region

    The two exits, the code of a block, the labels and the layout of the
    blocks: the code the emitter produces for an allocated region, run by the
    host machine, leaves the region as the region does. *)

From stdpp Require Import base tactics numbers list relations strings gmap.
From S2P Require Import Prelude Bitfield RV32Insn RV32Decode GuestState Interp InterpProofs VOperand Qir QirSem QirBuilder ArchTraits QSel QSelCorrect QRegAlloc QRegAllocInv QRegAllocCorrect QRegAllocRegion BranchSlot Tcache Execute Amd64 QEmit QEmitInst.

Import qir.

(** ** Positions in the code *)
Definition at_pc (code : list item) (pc : nat) (its : list item) : Prop :=
  forall k it, its !! k = Some it -> code !! (pc + k)%nat = Some it.

Lemma at_pc_app code pc l l' : at_pc code pc (l ++ l') <-> at_pc code pc l /\ at_pc code (pc + length l) l'.
Proof.
  split.
  - intros H. split; intros k it Hk.
    + apply H. rewrite lookup_app_l; [done|]. by eapply lookup_lt_Some.
    + replace (pc + length l + k)%nat with (pc + (length l + k))%nat by lia. apply H.
      rewrite lookup_app_r by lia. by replace (length l + k - length l)%nat with k by lia.
  - intros [H1 H2] k it Hk. apply lookup_app_Some in Hk as [Hk|[Hl Hk]]; [by apply H1|].
    replace (pc + k)%nat with (pc + length l + (k - length l))%nat by lia. by apply H2.
Qed.
Lemma at_pc_head code pc it l : at_pc code pc (it :: l) -> code !! pc = Some it.
Proof. intros H. specialize (H 0%nat it eq_refl). by rewrite Nat.add_0_r in H. Qed.
Lemma at_pc_tail code pc it l : at_pc code pc (it :: l) -> at_pc code (S pc) l.
Proof. intros H k x Hk. specialize (H (S k) x Hk). by replace (pc + S k)%nat with (S pc + k)%nat in H by lia. Qed.
Lemma at_pc_middle l1 l2 l3 : at_pc (l1 ++ l2 ++ l3) (length l1) l2.
Proof.
  intros k it Hk. rewrite lookup_app_r by lia. replace (length l1 + k - length l1)%nat with k by lia.
  rewrite lookup_app_l; [done|]. by eapply lookup_lt_Some.
Qed.

(** Bound labels, in code order. *)
Fixpoint binds (its : list item) : list nat :=
  match its with
  | [] => []
  | Bind l :: its => l :: binds its
  | _ :: its => binds its
  end.
Lemma binds_app l l' : binds (l ++ l') = binds l ++ binds l'.
Proof. induction l as [|[] l IH]; cbn; rewrite ?IH; done. Qed.
Lemma binds_Ins l : binds (Ins <$> l) = [].
Proof. by induction l. Qed.
Lemma binds_lookup its k l : its !! k = Some (Bind l) -> l ∈ binds its.
Proof.
  revert k. induction its as [|it its IH]; intros [|k]; cbn; try done.
  - intros [= ->]. left.
  - intros H. destruct it; try by apply (IH k). right. by apply (IH k).
Qed.

(** Where labels are bound once, a label's position is where it is bound. *)
Lemma label_pos_bind its k l : NoDup (binds its) -> its !! k = Some (Bind l) -> label_pos its l = Some k.
Proof.
  unfold label_pos. revert k. induction its as [|it its IH]; intros k Hnd Hk; [done|]. cbn [list_find].
  destruct k as [|k]; cbn in Hk.
  - injection Hk as ->. rewrite decide_True; [done|]. cbn. apply Nat.eqb_refl.
  - destruct (decide (is_bind l it = true)) as [Hb|Hb].
    + destruct it; try done. cbn in Hb, Hnd. apply Nat.eqb_eq in Hb as <-. apply NoDup_cons in Hnd as [Hn _].
      by apply binds_lookup in Hk.
    + assert (Hnd' : NoDup (binds its)) by (destruct it; try done; by apply NoDup_cons in Hnd as [_ ?]).
      specialize (IH k Hnd' Hk). destruct (list_find _ its) as [[j y]|]; [|done]. cbn in *. by injection IH as ->.
Qed.
Lemma label_pos_lookup its l k : label_pos its l = Some k -> its !! k = Some (Bind l).
Proof.
  unfold label_pos. intros (p & Hp & ->)%fmap_Some. destruct p as [k it]. apply list_find_Some in Hp as (Hk & Hb & _).
  cbn. destruct it; try done. cbn in Hb. by apply Nat.eqb_eq in Hb as <-.
Qed.

(** The branch slots of the code, by number. *)
Fixpoint slots_of (its : list item) : list BranchSlot :=
  match its with
  | [] => []
  | Embed s :: its => s :: slots_of its
  | _ :: its => slots_of its
  end.
Lemma slot_no_lookup its k s : its !! k = Some (Embed s) -> slots_of its !! slot_no its k = Some s.
Proof.
  unfold slot_no. revert k. induction its as [|it its IH]; intros [|k] H; try done; cbn in *.
  - by injection H as ->.
  - destruct it; cbn; by apply IH.
Qed.

(** ** Runs *)
Section emit.
Context (lay : layout) (si : StateInfo) (jit_mode is_leaf : bool) (segment : CodeSegment) (E : Z).
Context (HL : layout_ok lay) (HF : frame_ok lay E) (HC : clob_ok lay).
Notation mrel := (mrel lay is_leaf E).
Notation exec := (exec_inst si (lay_clob lay) (lay_weaks lay)).
Notation visit := (QCodegenVisitor_visit jit_mode is_leaf segment (lay_stub lay) (lay_cacheptr lay)).

Definition steps (code : list item) (x y : nat * mach) : Prop := astep lay code x.1 x.2 = inl y.
Notation reach code := (rtc (steps code)).
(** From [pc] the code ends with [o]. *)
Definition ends (code : list item) (pc : nat) (ms : mach) (o : mres) : Prop :=
  exists pc' ms', reach code (pc, ms) (pc', ms') /\ astep lay code pc' ms' = inr o.

Lemma ends_reach code pc ms pc' ms' o : reach code (pc, ms) (pc', ms') -> ends code pc' ms' o -> ends code pc ms o.
Proof. intros H (p & m & Hr & Ha). exists p, m. split; [|done]. by etrans. Qed.

Lemma ends_arun code pc ms o : ends code pc ms o -> exists n, arun lay n code pc ms = Some o.
Proof.
  intros (pc' & ms' & Hr & Ha). remember (pc, ms) as x eqn:Ex. remember (pc', ms') as y eqn:Ey.
  revert pc ms Ex. induction Hr as [x|x [p m] z Hs Hr IH]; intros pc ms ->.
  - injection Ey as -> ->. exists 1%nat. cbn. by rewrite Ha.
  - unfold steps in Hs. cbn in Hs. destruct (IH Ey p m eq_refl) as [n Hn]. exists (S n). cbn. by rewrite Hs.
Qed.

Lemma reach_goes_on code pc ms pc' ms' k :
  reach code (pc, ms) (pc', ms') -> (forall n, (n <= k)%nat -> arun lay n code pc' ms' = None) ->
  forall n, (n <= k)%nat -> arun lay n code pc ms = None.
Proof.
  intros Hr H. remember (pc, ms) as x eqn:Ex. remember (pc', ms') as y eqn:Ey.
  revert pc ms Ex. induction Hr as [x|x [p m] z Hs Hr IH]; intros pc ms ->.
  - by injection Ey as -> ->.
  - unfold steps in Hs. cbn in Hs. intros [|n] Hn; [done|]. cbn [arun]. rewrite Hs. apply (IH Ey p m eq_refl). lia.
Qed.
(** The code from its start follows a run of the region over [fuel] blocks. *)
Definition follows (final : qres -> mres -> Prop) (code : list item) (fuel : nat) (ms : mach) (r : option qres) : Prop :=
  match r with
  | Some QStuck => True
  | Some r => exists n o, arun lay n code 0 ms = Some o /\ final r o
  | None => arun lay fuel code 0 ms = None
  end.

Lemma step_next code pc ms i ms' :
  code !! pc = Some (Ins i) -> exec_ainst lay i ms = SNext ms' -> steps code (pc, ms) (S pc, ms').
Proof. intros Hc He. unfold steps, astep. cbn. by rewrite Hc, He. Qed.
Lemma step_bind code pc ms l : code !! pc = Some (Bind l) -> steps code (pc, ms) (S pc, ms).
Proof. intros Hc. unfold steps, astep. cbn. by rewrite Hc. Qed.
Lemma step_goto code pc ms i l ms' p :
  code !! pc = Some (Ins i) -> exec_ainst lay i ms = SGoto l ms' -> label_pos code l = Some p ->
  steps code (pc, ms) (p, ms').
Proof. intros Hc He Hp. unfold steps, astep. cbn. by rewrite Hc, He, Hp. Qed.

(** A sequence of instructions in the code. *)
Definition seq_run (code : list item) (pc n : nat) (ms : mach) (o : sres) : Prop :=
  match o with
  | SNext ms' => reach code (pc, ms) ((pc + n)%nat, ms')
  | SGoto l ms' => forall p, label_pos code l = Some p -> reach code (pc, ms) (p, ms')
  | SJump a ms' => ends code pc ms (MJump a ms')
  | SRaised ms' => ends code pc ms (MRaised ms')
  | SFault ms' => ends code pc ms (MFault ms')
  | SUndef => ends code pc ms MUndef
  | SBad => True
  end.

Lemma seq_run_ok code l pc ms : at_pc code pc (Ins <$> l) -> seq_run code pc (length l) ms (exec_seq lay l ms).
Proof.
  revert pc ms. induction l as [|i l IH]; intros pc ms Hat; cbn [exec_seq fmap list_fmap] in *.
  { cbn. by rewrite Nat.add_0_r. }
  pose proof (at_pc_head _ _ _ _ Hat) as Hc. apply at_pc_tail in Hat.
  destruct (exec_ainst lay i ms) as [ms'|t ms'|a ms'|ms'|ms'| |] eqn:Ex; cbn [seq_run];
    try (exists pc, ms; split; [done|]; unfold astep; by rewrite Hc, Ex); try done.
  - specialize (IH (S pc) ms' Hat). pose proof (step_next _ _ _ _ _ Hc Ex) as Hs.
    destruct (exec_seq lay l ms'); cbn [seq_run length] in *; try done.
    + replace (pc + S (length l))%nat with (S pc + length l)%nat by lia. by eapply rtc_l.
    + intros p Hp. eapply rtc_l; [exact Hs|]. by apply IH.
    + eapply ends_reach; [by apply rtc_once|done].
    + eapply ends_reach; [by apply rtc_once|done].
    + eapply ends_reach; [by apply rtc_once|done].
    + eapply ends_reach; [by apply rtc_once|done].
  - intros p Hp. apply rtc_once. by eapply step_goto.
Qed.

(** ** How a region is left *)

(** The host state at an exit: guest state and memory, the stack as it was. *)
Definition left (s : qstate) (ms : mach) : Prop :=
  m_cpu ms = q_cpu s /\ m_mem ms = q_mem s /\ regs ms RSP = E /\ regs ms STATE = lay_state lay.

(** The slot of a branch to [gip]: linked lazily, marked when the target is
    outside the segment. *)
Definition gbr_slot (gip : Z) : BranchSlot :=
  let slot := mkSlot (replicate sizeof_code 0) gip (negb (InSegment segment gip)) in
  if jit_mode then LinkLazyJIT (lay_stub lay id_link_branch_jit) slot else LinkLazyAOT offs_stub_tab slot.

(** An exit to [t] goes through the slot of [t], or jumps where the cache of
    indirect branches says, or where the runtime says. *)
Definition final_rel (code : list item) (r : qres) (o : mres) : Prop :=
  match r, o with
  | QExit t s, MSlot k ms => slots_of code !! k = Some (gbr_slot t) /\ left s ms
  | QExit t s, MJump a ms =>
      let e := lay_cache lay (l1hash t) in
      if e.1 =? t then a = e.2 /\ left s ms
      else let '(p, c) := lay_brind lay t (q_cpu s) (q_mem s) in a = u64 p /\ left (q_set_cpu c s) ms
  | QRaised s, MRaised ms | QFaulted s, MFault ms => m_cpu ms = q_cpu s /\ m_mem ms = q_mem s
  | QUndef, MUndef => True
  | _, _ => False
  end.

(** What the code at [pc] up to [pc'] does with an instruction of block [bb]. *)
Definition code_rel (code : list item) (bb n_blocks : nat) (ss : list nat) (pc pc' : nat) (ms : mach) (r : qres) : Prop :=
  match r with
  | QNext s => exists ms', reach code (pc, ms) (pc', ms') /\ mrel s ms'
  | QJump k s => exists ms' b, ss !! k = Some b /\ mrel s ms' /\
      ((forall p, label_pos code b = Some p -> reach code (pc, ms) (p, ms')) \/
       b = S bb /\ (S bb < n_blocks)%nat /\ reach code (pc, ms) (pc', ms'))
  | QStuck => False
  | r => exists o, ends code pc ms o /\ final_rel code r o
  end.

(** The instruction is emitted, with the labels it creates, and its code does
    what the instruction does. *)
Definition sim_code (bb n_blocks : nat) (ss : list nat) (m : EM unit) (ex : qstate -> qres) : Prop :=
  exists (its : nat -> list item) (nl : nat),
    (forall st, m st = Some (tt, mkE (e_code st ++ its (e_labels st)) (e_labels st + nl))) /\
    (forall l, binds (its l) = seq l nl) /\
    (forall code pc l s ms, at_pc code pc (its l) -> NoDup (binds code) -> mrel s ms -> ex s <> QStuck ->
       code_rel code bb n_blocks ss pc (pc + length (its l)) ms (ex s)).

Lemma sim_code_straight bb n_blocks ss m i :
  sim_inst lay si is_leaf E bb n_blocks ss m i -> straight i = true -> sim_code bb n_blocks ss m (exec i).
Proof.
  intros (l & Hem & Hsim) Hst. exists (fun _ => Ins <$> l), 0%nat. split_and!.
  - intros st. rewrite Nat.add_0_r. apply Hem.
  - intros l0. apply binds_Ins.
  - intros code pc l0 s ms Hat _ Hr Hns. specialize (Hsim s ms Hr Hns).
    pose proof (seq_run_ok code l pc ms Hat) as Hrun. rewrite length_fmap.
    destruct (exec i s) as [s'|k s'|t s'|s'|s'| |] eqn:Ex, (exec_seq lay l ms) as [ms'|b ms'|a ms'|ms'|ms'| |];
      cbn [srel seq_run code_rel] in *; try done.
    + by exists ms'.
    + destruct Hsim as (? & ? & ?). exists ms', (S bb). split_and!; try done. by right.
    + destruct Hsim as (? & ?). exists ms', b. split_and!; try done. by left.
    + by eexists.
    + by eexists.
    + by eexists.
Qed.

(** ** Exits *)
Definition fd : list ainst := if negb is_leaf then [APop RCX] else [].
Lemma emits_fd : emits (FrameDestroy is_leaf) fd.
Proof. unfold FrameDestroy, fd. apply emits_if; [by apply emits_emit|apply emits_ret]. Qed.

Lemma pop_step ms v :
  regs ms RSP = E - 8 -> load_le 8 (m_stack ms) (E - 8) = Some v ->
  exec_ainst lay (APop RCX) ms = SNext (set_regs (set_reg RCX v (set_reg RSP E (regs ms))) ms).
Proof.
  intros Hsp Hld. pose proof (fo_room _ _ HF) as Hroom. pose proof (stack_bounds _ HL) as Hb. cbn [exec_ainst]. rewrite Hsp.
  rewrite mread_stack by (done || unfold spillframe_size in *; lia). change (Z.to_nat 8) with 8%nat. rewrite Hld. cbn [acc_of on].
  do 4 f_equal. replace (E - 8 + 8) with E by lia. apply uN_id. unfold in_u, guest_top, sizeof_CPUState, spillframe_size in *. lia.
Qed.

(** What an exit needs of the state. *)
Definition brel (s : qstate) (ms : mach) : Prop :=
  m_cpu ms = q_cpu s /\ m_mem ms = q_mem s /\ regs ms STATE = lay_state lay /\
  regs ms RSP = E - (if is_leaf then 0 else 8) /\
  (is_leaf = false -> is_Some (load_le 8 (m_stack ms) (E - 8))).
Lemma mrel_brel s ms : mrel s ms -> brel s ms.
Proof. by intros []. Qed.

Lemma destroy s ms :
  brel s ms -> exists ms', exec_seq lay fd ms = SNext ms' /\ left s ms' /\
    (forall q, q <> RSP -> q <> RCX -> regs ms' q = regs ms q).
Proof.
  intros (Hc & Hm & Hst & Hsp & Hlk). unfold fd. destruct is_leaf eqn:El; cbn [negb].
  - exists ms. split; [done|]. split; [|done]. split_and!; try done. rewrite Hsp. lia.
  - destruct (Hlk eq_refl) as [v Hv]. cbn [exec_seq]. rewrite (pop_step ms v) by done.
    eexists. split; [done|]. split; [done|].
    intros q H1 H2. cbn. unfold set_reg. by rewrite (proj2 (Z.eqb_neq _ _) H1), (proj2 (Z.eqb_neq _ _) H2).
Qed.

Lemma sim_gbr bb n_blocks ss t k :
  in_u 32 k -> sim_code bb n_blocks ss (visit bb n_blocks ss (InstGBr (VConst t k))) (exec (InstGBr (VConst t k))).
Proof.
  intros Hk. exists (fun _ => (Ins <$> fd) ++ [Embed (gbr_slot k)]), 0%nat. split_and!.
  - intros st. rewrite Nat.add_0_r. cbn [QCodegenVisitor_visit]. unfold Emit_gbr, mbind, EM_bind.
    rewrite emits_fd. unfold put_item, gbr_slot. cbn [e_code e_labels]. rewrite (uN_id 32 k Hk). by rewrite app_assoc.
  - intros l. by rewrite binds_app, binds_Ins.
  - intros code pc l s ms Hat _ Hr _. apply at_pc_app in Hat as [Hat1 Hat2]. apply at_pc_head in Hat2. rewrite length_fmap in Hat2.
    destruct (destroy s ms (mrel_brel _ _ Hr)) as (ms' & Hx & Hleft & _). pose proof (seq_run_ok code fd pc ms Hat1) as Hrun. rewrite Hx in Hrun.
    cbn [exec_inst read_opnd or_stuck code_rel]. exists (MSlot (slot_no code (pc + length fd)) ms'). split.
    + exists (pc + length fd)%nat, ms'. split; [exact Hrun|]. unfold astep. by rewrite Hat2.
    + cbn [final_rel]. split; [|done]. by apply slot_no_lookup.
Qed.

(** *** Indirect branches *)
Lemma hash_index x : Z.land (u32 (u64 (Z.shiftl x 2))) (Z.shiftl (2 ^ L1_CACHE_BITS - 1) 4) = 16 * l1hash (u32 x).
Proof.
  unfold l1hash, L1_CACHE_BITS. change (2 ^ 12 - 1) with (Z.ones 12). rewrite (Z.mul_comm 16). change 16 with (2 ^ 4).
  rewrite <- Z.shiftl_mul_pow2 by lia. bits.
Qed.
Lemma l1hash_range x : 0 <= l1hash x < 2 ^ L1_CACHE_BITS.
Proof.
  unfold l1hash, L1_CACHE_BITS. change (2 ^ 12 - 1) with (Z.ones 12). rewrite land_ones_uN by lia. by apply uN_range.
Qed.

(** The lookup in the cache, the jump on a hit, the call on a miss. *)
Definition ind_lookup : list ainst :=
  [ AMov (Reg 8 RDX) (if jit_mode then Imm (lay_cacheptr lay) else Mem (mkMem (Some STATE) None offs_l1_brind_cache false 8));
    ALea (Reg 4 RDI) (mkMem None (Some (RSI, 2)) 0 false 0);
    AAlu kIdAnd (Reg 4 RDI) (Imm (Z.shiftl (2 ^ L1_CACHE_BITS - 1) 4));
    ACmp (Mem (mkMem (Some RDX) (Some (RDI, 0)) 0 false 4)) (Reg 4 RSI) ].
Definition ind_hit : list ainst := fd ++ [AJmpTo (Mem (mkMem (Some RDX) (Some (RDI, 0)) 8 false 8))].
Definition ind_miss : list ainst :=
  [AMov (Reg 8 RDI) R_STATE] ++ (if is_leaf then [APush RCX] else []) ++
  [ACallTo (make_stubcall_target jit_mode (lay_stub lay) id_brind); APop RCX; AJmpTo (Reg 8 RAX)].
Definition ind_code (l : nat) : list item :=
  (Ins <$> ind_lookup ++ [AJcc kNotEqual l] ++ ind_hit) ++ Bind l :: (Ins <$> ind_miss).

Lemma cacheptr_range : 0 <= lay_cacheptr lay /\ lay_cacheptr lay + sizeof_cache <= 2 ^ 63.
Proof.
  pose proof (lo_cache _ HL). pose proof (lo_stack _ HL). pose proof (stack_bounds _ HL). unfold guest_top, sizeof_CPUState in *. lia.
Qed.

Definition emits_it (m : EM unit) (its : list item) : Prop :=
  forall st, m st = Some (tt, mkE (e_code st ++ its) (e_labels st)).
Lemma emits_it_emit i : encodable i = true -> emits_it (emit i) [Ins i].
Proof. apply emits_emit. Qed.
Lemma emits_it_seq m k a b : emits_it m a -> emits_it k b -> emits_it (m;; k) (a ++ b).
Proof. intros Hm Hk st. unfold mbind, EM_bind. rewrite Hm, Hk. cbn. by rewrite app_assoc. Qed.

Lemma emits_gbrind st :
  visit 0 0 [] (InstGBrind (PGPR I32 RSI)) st =
    Some (tt, mkE (e_code st ++ ind_code (e_labels st)) (e_labels st + 1)).
Proof.
  destruct st as [c l]. cbn [e_code e_labels]. rewrite Nat.add_1_r. cbn [QCodegenVisitor_visit]. unfold Emit_gbrind.
  assert (Hgo : forall m its, emits_it m its -> m (mkE c (S l)) = Some (tt, mkE (c ++ its) (S l))) by (intros m its Hm; apply Hm).
  unfold ind_code, ind_lookup, ind_hit, ind_miss. rewrite !fmap_app. cbn [fmap list_fmap app]. rewrite <- !app_assoc. cbn [app].
  apply Hgo. clear Hgo.
  eapply (emits_it_seq _ _ [_]).
  { pose proof cacheptr_range. unfold sizeof_cache, L1_CACHE_BITS in *. destruct jit_mode; apply emits_it_emit; [|done]. cbn. unfold imm_fits.
    destruct (Z.leb_spec (- 2 ^ (8 * 8 - 1)) (lay_cacheptr lay)), (Z.ltb_spec (lay_cacheptr lay) (2 ^ (8 * 8))); done || lia. }
  do 4 (eapply (emits_it_seq _ _ [_]); [by apply emits_it_emit|]).
  apply emits_it_seq; [apply emits_fd|]. eapply (emits_it_seq _ _ [_]); [by apply emits_it_emit|].
  eapply (emits_it_seq _ _ [Bind l]); [done|]. eapply (emits_it_seq _ _ [_]); [by apply emits_it_emit|].
  apply emits_it_seq; [destruct is_leaf; [by apply emits_it_emit|apply emits_ret]|].
  eapply (emits_it_seq _ _ [_]); [by apply emits_it_emit, stub_target_encodable|].
  eapply (emits_it_seq _ _ [_]); [|by apply emits_it_emit].
  destruct is_leaf eqn:El; [by apply emits_it_emit|]. unfold FrameDestroy. by apply emits_it_emit.
Qed.

(** The cache entry of a target. *)
Lemma cache_access n o x ms :
  0 < n -> 0 <= o -> o + n <= 16 ->
  regs ms RDX = lay_cacheptr lay -> regs ms RDI = 16 * l1hash x ->
  rd lay (Mem (mkMem (Some RDX) (Some (RDI, 0)) o false n)) ms = acc_of (cache_read lay n (16 * l1hash x + o)).
Proof.
  intros Hn Ho Hon Hdx Hdi. pose proof (l1hash_range x) as Hh. pose proof cacheptr_range as Hc.
  unfold sizeof_cache, L1_CACHE_BITS in *. cbn [rd mm_size]. unfold ea.
  cbn [mm_base mm_index mm_disp mm_addr32 from_option]. rewrite Hdx, Hdi, Z.shiftl_0_r.
  rewrite uN_id by (unfold in_u; lia). pose proof (lo_stack _ HL). pose proof (lo_state _ HL). unfold mread.
  unfold sizeof_CPUState in *. rewrite not_guest, !within_false, within_true by (unfold sizeof_cache, L1_CACHE_BITS; lia).
  do 2 f_equal. lia.
Qed.
Lemma cache_gip x : cache_read lay 4 (16 * l1hash x + 0) = Some (lay_cache lay (l1hash x)).1.
Proof.
  pose proof (l1hash_range x). unfold cache_read. rewrite Z.add_0_r.
  replace (16 * l1hash x / 16) with (l1hash x) by zlia. by replace ((16 * l1hash x) mod 16) with 0 by zlia.
Qed.
Lemma cache_code x : cache_read lay 8 (16 * l1hash x + 8) = Some (lay_cache lay (l1hash x)).2.
Proof.
  pose proof (l1hash_range x). unfold cache_read.
  replace ((16 * l1hash x + 8) / 16) with (l1hash x) by zlia. by replace ((16 * l1hash x + 8) mod 16) with 8 by zlia.
Qed.

Lemma write4 p v f : write_reg 4 p v f p = u32 v.
Proof. unfold write_reg, set_reg. by rewrite Z.eqb_refl. Qed.

Lemma run_lookup s ms t :
  mrel s ms -> u32 (regs ms RSI) = t ->
  exists ms', exec_seq lay ind_lookup ms = SNext ms' /\ brel s ms' /\ u32 (regs ms' RSI) = t /\
    regs ms' RDX = lay_cacheptr lay /\ regs ms' RDI = 16 * l1hash t /\
    fl ms' = Some (sub_flags 32 (lay_cache lay (l1hash t)).1 t).
Proof.
  intros Hr Ht. pose proof cacheptr_range as Hcp. unfold sizeof_cache, L1_CACHE_BITS in Hcp.
  set (f1 := write_reg 8 RDX (lay_cacheptr lay) (regs ms)).
  set (f2 := write_reg 4 RDI (u64 (0 + Z.shiftl (f1 RSI) 2 + 0)) f1).
  set (f3 := write_reg 4 RDI (eval_alu kIdAnd (uN (8 * 4) (f2 RDI)) (Z.shiftl (2 ^ L1_CACHE_BITS - 1) 4)) f2).
  assert (H1 : exec_ainst lay (AMov (Reg 8 RDX) (if jit_mode then Imm (lay_cacheptr lay) else Mem (mkMem (Some STATE) None offs_l1_brind_cache false 8))) ms = SNext (set_regs f1 ms)).
  { cbn [exec_ainst]. destruct jit_mode; [done|]. cbn [rd mm_size]. rewrite (ea_state _ _ _ HL _ _ _ s Hr) by (vm_compute; congruence).
    rewrite mread_state by (done || vm_compute; congruence). done. }
  assert (Hdi : f3 RDI = 16 * l1hash t).
  { unfold f3. rewrite write4. unfold f2. rewrite write4. change (f1 RSI) with (regs ms RSI).
    rewrite Z.add_0_l, Z.add_0_r. change (8 * 4) with 32. rewrite uN_uN. cbn [eval_alu]. rewrite hash_index, Ht.
    apply uN_id. pose proof (l1hash_range t). unfold in_u, L1_CACHE_BITS in *. lia. }
  assert (Hsi : f3 RSI = regs ms RSI) by reflexivity.
  assert (Hdx : f3 RDX = lay_cacheptr lay) by (change (u64 (lay_cacheptr lay) = lay_cacheptr lay); apply uN_id; unfold in_u; lia).
  set (ms3 := mkM f3 None (m_cpu ms) (m_stack ms) (m_mem ms)).
  assert (H3 : exec_seq lay ind_lookup ms = exec_seq lay [ACmp (Mem (mkMem (Some RDX) (Some (RDI, 0)) 0 false 4)) (Reg 4 RSI)] ms3).
  { unfold ind_lookup. cbn [exec_seq]. rewrite H1. reflexivity. }
  eexists. split.
  { rewrite H3. cbn [exec_seq exec_ainst]. rewrite (cache_access 4 0 t ms3) by (done || lia). rewrite cache_gip. cbn [acc_of on rd].
    reflexivity. }
  assert (Hbr : brel s ms3) by (by destruct Hr).
  split_and!; try done. cbn [set_flags fl opsize mm_size]. change (regs ms3 RSI) with (f3 RSI). change (8 * 4) with 32. by rewrite Hsi, Ht.
Qed.

Lemma exec_seq_app l l' ms :
  exec_seq lay (l ++ l') ms = match exec_seq lay l ms with SNext ms' => exec_seq lay l' ms' | r => r end.
Proof.
  revert ms. induction l as [|i l IH]; intros ms; cbn [exec_seq app]; [done|]. by destruct (exec_ainst lay i ms).
Qed.

Lemma run_hit s ms t :
  brel s ms -> regs ms RDX = lay_cacheptr lay -> regs ms RDI = 16 * l1hash t ->
  exists ms', exec_seq lay ind_hit ms = SJump (lay_cache lay (l1hash t)).2 ms' /\ left s ms'.
Proof.
  intros Hb Hdx Hdi. destruct (destroy s ms Hb) as (ms' & Hx & Hl & Hk). exists ms'. split; [|done].
  unfold ind_hit. rewrite exec_seq_app, Hx. cbn [exec_seq exec_ainst].
  rewrite (cache_access 8 8 t ms') by (rewrite ?Hk; done || lia). by rewrite cache_code.
Qed.

(** The state before the call of the slow path. *)
Definition call_ready (s : qstate) (t : Z) (ms : mach) : Prop :=
  m_cpu ms = q_cpu s /\ m_mem ms = q_mem s /\ regs ms STATE = lay_state lay /\ regs ms RDI = lay_state lay /\
  u32 (regs ms RSI) = t /\ regs ms RSP = E - 8 /\ is_Some (load_le 8 (m_stack ms) (E - 8)).

Lemma run_ready s ms t :
  brel s ms -> u32 (regs ms RSI) = t ->
  exists ms', exec_seq lay ([AMov (Reg 8 RDI) R_STATE] ++ (if is_leaf then [APush RCX] else [])) ms = SNext ms' /\
    call_ready s t ms'.
Proof.
  intros (Hc & Hm & Hst & Hsp & Hlk) Ht. pose proof (fo_room _ _ HF) as Hroom. pose proof (stack_bounds _ HL) as Hb.
  pose proof (lo_state _ HL) as Hls.
  assert (Hu : u64 (lay_state lay) = lay_state lay) by (apply uN_id; unfold in_u, guest_top, sizeof_CPUState, spillframe_size in *; lia).
  set (f := write_reg 8 RDI (uN (8 * 8) (regs ms STATE)) (regs ms)).
  assert (Hdi : f RDI = lay_state lay).
  { change (u64 (u64 (regs ms STATE)) = lay_state lay). by rewrite uN_uN, Hst. }
  rewrite exec_seq_app. change (exec_seq lay [AMov (Reg 8 RDI) R_STATE] ms) with (SNext (set_regs f ms)). cbn match.
  destruct is_leaf eqn:El.
  - rewrite Z.sub_0_r in Hsp. assert (Hs8 : u64 (f RSP - 8) = E - 8).
    { change (f RSP) with (regs ms RSP). rewrite Hsp. apply uN_id. unfold in_u, guest_top, sizeof_CPUState, spillframe_size in *. lia. }
    cbn [exec_seq exec_ainst]. change (regs (set_regs f ms) RSP) with (f RSP). rewrite Hs8.
    rewrite mwrite_stack by (done || unfold spillframe_size in *; lia). cbn [on]. eexists. split; [done|].
    split_and!; try done. cbn [m_stack set_regs set_stack]. rewrite load_le_put. by eexists.
  - eexists. split; [done|]. split_and!; try done. by apply Hlk.
Qed.

Lemma run_call s ms t :
  call_ready s t ms ->
  exists ms', exec_seq lay [ACallTo (make_stubcall_target jit_mode (lay_stub lay) id_brind); APop RCX; AJmpTo (Reg 8 RAX)] ms =
      SJump (u64 (lay_brind lay t (q_cpu s) (q_mem s)).1) ms' /\
    left (q_set_cpu (lay_brind lay t (q_cpu s) (q_mem s)).2 s) ms'.
Proof.
  intros (Hc & Hm & Hst & Hdi & Ht & Hsp & [v Hv]). pose proof (fo_room _ _ HF) as Hroom.
  destruct (lay_brind lay t (q_cpu s) (q_mem s)) as [p c] eqn:Eb. cbn [fst snd].
  set (ms1 := set_regs (set_reg RAX p (regs (returned lay c (q_mem s) ms))) (returned lay c (q_mem s) ms)).
  assert (Hcall : exec_ainst lay (ACallTo (make_stubcall_target jit_mode (lay_stub lay) id_brind)) ms = SNext ms1).
  { cbn [exec_ainst]. rewrite stub_target_rd by done. cbn [on]. unfold call. rewrite stub_at_stub by done.
    rewrite Hsp, Hdi, Z.eqb_refl.
    assert ((E - 8) mod 16 =? 0 = true) as -> by (pose proof (fo_align _ _ HF); apply Z.eqb_eq; zlia).
    assert ((lay_stack lay).1 <=? E - 8 - 8 = true) as -> by (apply Z.leb_le; lia).
    cbn [negb andb stub_rv32]. rewrite bool_decide_true by done. rewrite Ht, Hc, Hm. by rewrite Eb. }
  assert (Hsp1 : regs ms1 RSP = E - 8) by (cbn; unfold set_reg, clob_regs; cbn; by rewrite (clob_sp _ HC)).
  cbn [exec_seq]. rewrite Hcall, (pop_step ms1 v); [|done|].
  - eexists. split; [done|]. split_and!; try done. cbn. unfold set_reg, clob_regs. cbn. by rewrite (clob_state _ HC).
  - cbn [ms1 m_stack set_regs returned]. rewrite Hsp, load_kept by lia. done.
Qed.

Lemma sim_gbrind bb n_blocks ss :
  sim_code bb n_blocks ss (visit bb n_blocks ss (InstGBrind (PGPR I32 RSI))) (exec (InstGBrind (PGPR I32 RSI))).
Proof.
  exists ind_code, 1%nat. split_and!.
  - intros st. exact (emits_gbrind st).
  - intros l. unfold ind_code. rewrite binds_app, binds_Ins. cbn. by rewrite binds_Ins.
  - intros code pc l s ms Hat Hnd Hr Hns. unfold ind_code in Hat.
    apply at_pc_app in Hat as [Ha Hmiss]. rewrite length_fmap in Hmiss. pose proof (at_pc_head _ _ _ _ Hmiss) as Hbind. apply at_pc_tail in Hmiss.
    rewrite fmap_app in Ha. apply at_pc_app in Ha as [Hlook Ha]. rewrite length_fmap in Ha.
    rewrite fmap_app in Ha. pose proof (at_pc_head _ _ _ _ Ha) as Hjcc. apply at_pc_tail in Ha.
    cbn [exec_inst read_opnd narrow] in Hns |- *. destruct (q_pgpr s !! RSI) as [t|] eqn:Et; [|done]. cbn [or_stuck code_rel].
    pose proof (mr_regs _ _ _ _ _ Hr RSI t Et ltac:(done)) as Ht.
    destruct (run_lookup s ms t Hr Ht) as (ms1 & Hx1 & Hb1 & Ht1 & Hdx & Hdi & Hfl).
    pose proof (seq_run_ok code _ _ ms Hlook) as Hrun. rewrite Hx1 in Hrun. cbn [seq_run] in Hrun.
    assert (It : in_u 32 t) by (rewrite <- Ht; apply uN_range; lia).
    pose proof (cond_eval NE _ t (proj1 (lo_code _ HL (l1hash t))) It) as Hcond. cbn [make_cc eval_cc] in Hcond.
    assert (Hj : exec_ainst lay (AJcc kNotEqual l) ms1 =
      if (lay_cache lay (l1hash t)).1 =? t then SNext ms1 else SGoto l ms1).
    { cbn [exec_ainst]. rewrite Hfl, Hcond. by destruct (_ =? t). }
    unfold final_rel. destruct ((lay_cache lay (l1hash t)).1 =? t) eqn:Ehit.
    + destruct (run_hit s ms1 t Hb1 Hdx Hdi) as (ms2 & Hx2 & Hleft).
      pose proof (seq_run_ok code ind_hit _ ms1 Ha) as Hrun2. rewrite Hx2 in Hrun2. cbn [seq_run] in Hrun2.
      exists (MJump (lay_cache lay (l1hash t)).2 ms2). split; [|done]. eapply ends_reach; [exact Hrun|].
      eapply ends_reach; [apply rtc_once; by eapply step_next|exact Hrun2].
    + destruct (run_ready s ms1 t Hb1 Ht1) as (ms2 & Hx2 & Hready).
      destruct (run_call s ms2 t Hready) as (ms3 & Hx3 & Hleft).
      assert (Hx : exec_seq lay ind_miss ms1 = SJump (u64 (lay_brind lay t (q_cpu s) (q_mem s)).1) ms3)
        by (unfold ind_miss; by rewrite app_assoc, exec_seq_app, Hx2, Hx3).
      pose proof (seq_run_ok code ind_miss _ ms1 Hmiss) as Hrun2. rewrite Hx in Hrun2. cbn [seq_run] in Hrun2. clear Hx Hx3.
      destruct (lay_brind lay t (q_cpu s) (q_mem s)) as [p c]. cbn [fst snd] in *.
      exists (MJump (u64 p) ms3). split; [|done]. eapply ends_reach; [exact Hrun|].
      eapply ends_reach; [|exact Hrun2]. eapply rtc_l; [eapply step_goto; [done|exact Hj|by eapply label_pos_bind]|].
      apply rtc_once. by eapply step_bind.
Qed.

(** ** Blocks *)

(** Jumps and exits come last. *)
Fixpoint jumps_last (l : list Inst) : bool :=
  match l with
  | [] => true
  | i :: l => (negb (is_term i) || bool_decide (l = [])) && jumps_last l
  end.

Lemma sim_visit bb n_blocks ss i :
  emit_ok i = true -> ctx_ok is_leaf ss i -> sim_code bb n_blocks ss (visit bb n_blocks ss i) (exec i).
Proof.
  intros He Hx. destruct (straight i) eqn:Est.
  { apply sim_code_straight; [|done]. by apply sim_straight. }
  unfold emit_ok in He. destruct i as [| | |t|t| | | | |]; try done; cbn [ra_mov orb] in He; bool_to_prop.
  - destruct t as [t k| | | |]; try done. bool_to_prop. by apply sim_gbr.
  - destruct (placed_in _ _ 0 t _ H eq_refl eq_refl eq_refl) as [Hp _].
    apply in_placed_reg in Hp as (ty & p & -> & Hr & Hm); [|done].
    assert (ty = I32) as -> by (cbn [types_ok inputs outputs app forallb type_of] in *; by bool_to_prop).
    apply reg_ok_inv in Hr as (Hrr & _ & _). assert (p = RSI) as ->; [|apply sim_gbrind].
    change (RegMask.Test (2 ^ 6) p = true) in Hm. rewrite RegMask.Test_testbit, Z.pow2_bits_eqb in Hm by lia.
    apply Z.eqb_eq in Hm. done.
Qed.

Lemma not_term_no_jump i s k s' : is_term i = false -> exec i s <> QJump k s'.
Proof.
  intros Ht. destruct i as [stub a| |cc a b|t|t|sz sgn d p|sz sgn p v|cc d a b|op d v|op d a b]; try discriminate Ht; cbn [exec_inst];
    unfold or_stuck, exec_hcall; repeat case_match; try done.
Qed.

Lemma code_rel_reach code bb n_blocks ss pc pc1 pc' ms ms1 r :
  reach code (pc, ms) (pc1, ms1) -> code_rel code bb n_blocks ss pc1 pc' ms1 r -> code_rel code bb n_blocks ss pc pc' ms r.
Proof.
  intros Hr. destruct r; cbn [code_rel]; try done.
  - intros (ms' & ? & ?). exists ms'. split; [by etrans|done].
  - intros (ms' & b & ? & ? & [Hj|(? & ? & ?)]); exists ms', b; split_and!; try done; [left|right].
    + intros p Hp. etrans; [exact Hr|]. by apply Hj.
    + split_and!; try done. by etrans.
  - intros (o & ? & ?). exists o. split; [by eapply ends_reach|done].
  - intros (o & ? & ?). exists o. split; [by eapply ends_reach|done].
  - intros (o & ? & ?). exists o. split; [by eapply ends_reach|done].
  - intros (o & ? & ?). exists o. split; [by eapply ends_reach|done].
Qed.

Notation run := (exec_list si (lay_clob lay) (lay_weaks lay)).
Notation insts := (emit_insts jit_mode is_leaf segment (lay_stub lay) (lay_cacheptr lay)).

Lemma sim_list bb n_blocks ss l :
  Forall (fun i => emit_ok i = true) l -> Forall (ctx_ok is_leaf ss) l -> jumps_last l = true ->
  sim_code bb n_blocks ss (insts bb n_blocks ss l) (run l).
Proof.
  induction l as [|i l IH]; intros He Hx Hj.
  { exists (fun _ => []), 0%nat. split_and!; try done.
    - intros [c n]. cbn. by rewrite app_nil_r, Nat.add_0_r.
    - intros code pc l0 s ms _ _ Hr _. cbn. rewrite Nat.add_0_r. by exists ms. }
  apply Forall_cons in He as [Hi He]. apply Forall_cons in Hx as [Hxi Hx]. cbn [jumps_last] in Hj. apply andb_true_iff in Hj as [Hti Hj].
  destruct (sim_visit bb n_blocks ss i Hi Hxi) as (its1 & nl1 & Hem1 & Hb1 & Hs1).
  destruct (is_term i) eqn:Et; cbn [negb orb] in Hti.
  { apply bool_decide_eq_true in Hti as ->. exists its1, nl1. split_and!; try done.
    - intros st. cbn [emit_insts]. unfold mbind, EM_bind. by rewrite Hem1.
    - intros code pc l0 s ms Hat Hnd Hr Hns. cbn [exec_list] in *. specialize (Hs1 code pc l0 s ms Hat Hnd Hr).
      destruct (exec i s); by apply Hs1. }
  destruct (IH He Hx Hj) as (its2 & nl2 & Hem2 & Hb2 & Hs2).
  exists (fun l0 => its1 l0 ++ its2 (l0 + nl1)%nat), (nl1 + nl2)%nat. split_and!.
  - intros st. cbn [emit_insts]. unfold mbind, EM_bind. rewrite Hem1, Hem2. cbn. by rewrite app_assoc, Nat.add_assoc.
  - intros l0. by rewrite binds_app, Hb1, Hb2, seq_app.
  - intros code pc l0 s ms Hat Hnd Hr Hns. apply at_pc_app in Hat as [Hat1 Hat2]. cbn [exec_list] in *.
    rewrite length_app, Nat.add_assoc. pose proof (not_term_no_jump i s) as Hnj.
    specialize (Hs1 code pc l0 s ms Hat1 Hnd Hr). destruct (exec i s) as [s'|k s'|t s'|s'|s'| |]; try (by apply Hs1).
    + destruct (Hs1 ltac:(done)) as (ms' & Hreach & Hr'). eapply code_rel_reach; [exact Hreach|]. by apply Hs2.
    + by destruct (Hnj k s' Et).
Qed.

(** ** Regions *)
Definition block_ok (b : Block) : Prop :=
  Forall (fun i => emit_ok i = true) (n_inst <$> ilist b) /\ Forall (ctx_ok is_leaf (succs b)) (n_inst <$> ilist b) /\
  jumps_last (n_inst <$> ilist b) = true.

(** The code of block [bb]: bound to its label, followed by the next block. *)
Definition block_at (its : list item) (bb n_blocks : nat) (last : bool) (b : Block) : Prop :=
  exists off body, its !! off = Some (Bind bb) /\ at_pc its (S off) body /\
    (last = false -> its !! (S off + length body)%nat = Some (Bind (S bb))) /\
    forall code pc s ms, at_pc code pc body -> NoDup (binds code) -> mrel s ms -> run (n_inst <$> ilist b) s <> QStuck ->
      code_rel code bb n_blocks (succs b) pc (pc + length body) ms (run (n_inst <$> ilist b) s).

Lemma block_at_app pre its bb n_blocks last b : block_at its bb n_blocks last b -> block_at (pre ++ its) bb n_blocks last b.
Proof.
  intros (off & body & H1 & H2 & H3 & H4). exists (length pre + off)%nat, body. split_and!; try done.
  - rewrite lookup_app_r by lia. by replace (length pre + off - length pre)%nat with off by lia.
  - intros j it Hj. rewrite lookup_app_r by lia. replace (S (length pre + off) + j - length pre)%nat with (S off + j)%nat by lia. by apply H2.
  - intros Hl. rewrite lookup_app_r by lia.
    replace (S (length pre + off) + length body - length pre)%nat with (S off + length body)%nat by lia. by apply H3.
Qed.

Notation blocks := (emit_blocks jit_mode is_leaf segment (lay_stub lay) (lay_cacheptr lay)).

Record blocks_spec (bb n_blocks : nat) (bs : list Block) (st : estate) (its : list item) (nl : nat) : Prop := {
  bs_eq : blocks bb n_blocks bs st = Some (tt, mkE (e_code st ++ its) (e_labels st + nl));
  bs_head : bs <> [] -> its !! 0%nat = Some (Bind bb);
  bs_range : forall l, l ∈ binds its -> (bb <= l < bb + length bs \/ e_labels st <= l < e_labels st + nl)%nat;
  bs_nodup : NoDup (binds its);
  bs_at : forall k b, bs !! k = Some b -> block_at its (bb + k) n_blocks (bool_decide (S k = length bs)) b }.

Lemma emit_blocks_ok n_blocks bs : forall bb st,
  Forall block_ok bs -> (bb + length bs <= e_labels st)%nat -> exists its nl, blocks_spec bb n_blocks bs st its nl.
Proof.
  induction bs as [|b bs IH]; intros bb st Hok Hl.
  { exists [], 0%nat. split; try done; [|by intros l Hl0%elem_of_nil|constructor].
    destruct st. cbn. by rewrite app_nil_r, Nat.add_0_r. }
  apply Forall_cons in Hok as [(H1 & H2 & H3) Hok]. cbn [length] in Hl.
  destruct (sim_list bb n_blocks (succs b) _ H1 H2 H3) as (itsb & nlb & Hemb & Hbb & Hsim).
  set (st1 := mkE (e_code st ++ [Bind bb]) (e_labels st)).
  set (body := itsb (e_labels st)).
  set (st2 := mkE (e_code st1 ++ body) (e_labels st + nlb)).
  destruct (IH (S bb) st2 Hok ltac:(cbn; lia)) as (its & nl & [He Hh Hr Hn Hat]). cbn [e_labels] in Hr.
  exists (Bind bb :: body ++ its), (nlb + nl)%nat. split.
  - cbn [emit_blocks]. unfold mbind, EM_bind. unfold SetBlock, bind, put_item. fold st1. rewrite Hemb. cbn [e_labels st1]. fold body st2. rewrite He.
    cbn. do 2 f_equal. f_equal; [by rewrite <- !app_assoc|lia].
  - done.
  - intros l. cbn [binds]. rewrite binds_app. unfold body. rewrite Hbb. intros [->|[Hs|Hs]%elem_of_app]%elem_of_cons.
    + left. cbn. lia.
    + apply elem_of_seq in Hs. right. lia.
    + apply Hr in Hs. cbn [length]. unfold st2 in Hs. cbn in Hs. lia.
  - cbn [binds]. rewrite binds_app. unfold body. rewrite Hbb. apply NoDup_cons. split.
    + intros [Hs|Hs]%elem_of_app; [apply elem_of_seq in Hs; lia|]. apply Hr in Hs. unfold st2 in Hs. cbn in Hs. lia.
    + apply NoDup_app. split_and!; [apply NoDup_seq| |done].
      intros l Hs%elem_of_seq Hs2. apply Hr in Hs2. unfold st2 in Hs2. cbn in Hs2. lia.
  - intros [|k] b' Hk; cbn in Hk.
    + injection Hk as <-. rewrite Nat.add_0_r. exists 0%nat, body. split_and!; try done.
      * apply (at_pc_middle [Bind bb] body its).
      * intros Hlast. apply bool_decide_eq_false in Hlast. cbn [length] in Hlast.
        change (Bind bb :: body ++ its) with ([Bind bb] ++ body ++ its). rewrite app_assoc, lookup_app_r by (rewrite length_app; cbn; lia).
        rewrite length_app. cbn [length]. replace (1 + length body - (1 + length body))%nat with 0%nat by lia. apply Hh. intros ->. by cbn in Hlast.
      * intros code pc s ms. apply Hsim.
    + specialize (Hat k b' Hk). replace (bb + S k)%nat with (S bb + k)%nat by lia.
      replace (bool_decide (S (S k) = length (b :: bs))) with (bool_decide (S k = length bs)) by (apply bool_decide_ext; cbn; lia).
      change (Bind bb :: body ++ its) with ([Bind bb] ++ body ++ its). rewrite app_assoc. by apply block_at_app.
Qed.

Section region.
Context (rn : Region) (Hok : Forall block_ok (blist rn)).
Notation n_blocks := (length (blist rn)).

(** The code has every block of the region, and binds labels once. *)
Definition code_ok (code : list item) : Prop :=
  NoDup (binds code) /\
  forall k b, blist rn !! k = Some b -> block_at code k n_blocks (bool_decide (S k = n_blocks)) b.

Lemma region_run code : code_ok code -> forall fuel b s ms r p,
  exec_region si (lay_clob lay) (lay_weaks lay) fuel rn b s = Some r -> r <> QStuck -> mrel s ms ->
  label_pos code b = Some p -> exists o, ends code p ms o /\ final_rel code r o.
Proof.
  intros [Hnd Hat]. induction fuel as [|fuel IH]; intros b s ms r p Hx Hns Hr Hp; [done|]. cbn [exec_region] in Hx.
  destruct (blist rn !! b) as [bb|] eqn:Hb; [|naive_solver].
  destruct (Hat b bb Hb) as (off & body & Ho & Hbody & Hnext & Hsim).
  rewrite (label_pos_bind _ _ _ Hnd Ho) in Hp. injection Hp as <-.
  assert (Hns1 : run (n_inst <$> ilist bb) s <> QStuck).
  { intros E0. unfold exec_block in Hx. rewrite E0 in Hx. naive_solver. }
  specialize (Hsim code (S off) s ms Hbody Hnd Hr Hns1). unfold exec_block in Hx.
  assert (Hstep : reach code (off, ms) (S off, ms)) by (apply rtc_once; by eapply step_bind).
  assert (Hdone : forall r, (exists o, ends code (S off) ms o /\ final_rel code r o) -> exists o, ends code off ms o /\ final_rel code r o).
  { intros r0 (o & H1 & H2). exists o. split; [by eapply ends_reach|done]. }
  destruct (run (n_inst <$> ilist bb) s) as [s1|k s1|t s1|s1|s1| |]; [congruence| |..];
    [|apply (inj Some) in Hx as <-; by apply Hdone..|congruence].
  destruct Hsim as (ms' & b' & Hk & Hr' & Hj). rewrite Hk in Hx.
  assert (exists p', label_pos code b' = Some p') as [p' Hp'].
  { destruct fuel as [|fuel]; [done|]. cbn [exec_region] in Hx. destruct (blist rn !! b') as [bb'|] eqn:Hb'; [|naive_solver].
    destruct (Hat b' bb' Hb') as (off' & _ & Ho' & _). exists off'. by apply label_pos_bind. }
  destruct (IH b' s1 ms' r p' Hx Hns Hr' Hp') as (o & Hend & Hfin). exists o. split; [|done].
  eapply ends_reach; [exact Hstep|]. destruct Hj as [Hj|(-> & Hlt & Hreach)].
  - eapply ends_reach; [by apply Hj|done].
  - assert (Hn : code !! (S off + length body)%nat = Some (Bind (S b))) by (apply Hnext; apply bool_decide_eq_false; lia).
    rewrite (label_pos_bind _ _ _ Hnd Hn) in Hp'. injection Hp' as <-. by eapply ends_reach.
Qed.

(** As long as the region goes on the code does: it executes a label per
    block. *)
Lemma region_goes_on code : code_ok code -> forall fuel b s ms p,
  exec_region si (lay_clob lay) (lay_weaks lay) fuel rn b s = None -> mrel s ms ->
  label_pos code b = Some p -> forall n, (n <= fuel)%nat -> arun lay n code p ms = None.
Proof.
  intros [Hnd Hat]. induction fuel as [|fuel IH]; intros b s ms p Hx Hr Hp n Hn; [by replace n with 0%nat by lia|]. cbn [exec_region] in Hx.
  destruct (blist rn !! b) as [bb|] eqn:Hb; [|done].
  destruct (Hat b bb Hb) as (off & body & Ho & Hbody & Hnext & Hsim).
  rewrite (label_pos_bind _ _ _ Hnd Ho) in Hp. injection Hp as <-. unfold exec_block in Hx.
  destruct (qres_stuck_dec (run (n_inst <$> ilist bb) s)) as [E0|Hns1]; [by rewrite E0 in Hx|].
  specialize (Hsim code (S off) s ms Hbody Hnd Hr Hns1).
  destruct (run (n_inst <$> ilist bb) s) as [s1|k s1|t s1|s1|s1| |]; try done.
  destruct Hsim as (ms' & b' & Hk & Hr' & Hj). rewrite Hk in Hx.
  destruct n as [|n]; [done|]. pose proof (step_bind code off ms b Ho) as Hs. unfold steps in Hs. cbn in Hs. cbn [arun]. rewrite Hs.
  destruct fuel as [|fuel]; [by replace n with 0%nat by lia|].
  assert (exists p', label_pos code b' = Some p') as [p' Hp'].
  { cbn [exec_region] in Hx. destruct (blist rn !! b') as [bb'|] eqn:Hb'; [|done].
    destruct (Hat b' bb' Hb') as (off' & _ & Ho' & _). exists off'. by apply label_pos_bind. }
  assert (Hreach : reach code (S off, ms) (p', ms')).
  { destruct Hj as [Hj|(-> & Hlt & Hreach)]; [by apply Hj|].
    assert (Hnb : code !! (S off + length body)%nat = Some (Bind (S b))) by (apply Hnext; apply bool_decide_eq_false; lia).
    rewrite (label_pos_bind _ _ _ Hnd Hnb) in Hp'. by injection Hp' as <-. }
  apply (reach_goes_on code (S off) ms p' ms' (S fuel) Hreach); [|lia]. by apply (IH b' s1).
Qed.

(** *** Entry *)
Definition q_of (ms : mach) : qstate :=
  mkQ (m_cpu ms) ∅ (list_to_map ((fun p => (Z.of_nat p, u32 (regs ms (Z.of_nat p)))) <$> seq 0 N_PREGS)) ∅ (m_mem ms).
Definition entry_ok (ms : mach) : Prop :=
  regs ms STATE = lay_state lay /\ regs ms RSP = E /\ hweak (mkH (m_cpu ms) 0 (m_mem ms)).

Lemma q_of_lookup ms p y : q_pgpr (q_of ms) !! p = Some y -> u32 (regs ms p) = y.
Proof.
  intros H. cbn [q_of q_pgpr] in H. apply elem_of_list_to_map_2 in H. apply list_elem_of_fmap in H as (k & [= -> ->] & _). done.
Qed.
Lemma q_of_total ms : total_pgpr (q_of ms).
Proof.
  intros p Hp. cbn [q_of q_pgpr]. destruct (_ !! _) as [y|] eqn:E0; [by eexists|]. exfalso. apply not_elem_of_list_to_map in E0.
  apply E0. rewrite <- list_fmap_compose. apply list_elem_of_fmap. exists p. split; [done|]. apply elem_of_seq. lia.
Qed.

Definition fs : list ainst := if negb is_leaf then [APush RCX] else [].
Lemma run_entry ms : entry_ok ms -> exists ms', exec_seq lay fs ms = SNext ms' /\ mrel (q_of ms) ms'.
Proof.
  intros (Hst & Hsp & Hw). pose proof (fo_room _ _ HF) as Hroom. pose proof (stack_bounds _ HL) as Hb.
  unfold fs. destruct is_leaf eqn:El; cbn [negb].
  - exists ms. split; [done|]. split; try done; [rewrite Hsp; lia|apply q_of_total|].
    intros p y Hy _. by apply q_of_lookup.
  - cbn [exec_seq exec_ainst]. rewrite Hsp.
    rewrite (uN_id 64 (E - 8)) by (unfold in_u, guest_top, sizeof_CPUState, spillframe_size in *; lia).
    rewrite mwrite_stack by (done || unfold spillframe_size in *; lia). cbn [on]. eexists. split; [done|].
    split; try done; [apply q_of_total| |].
    + intros p y Hy Hf. destruct (fixed_ne p Hf) as [_ Hne]. cbn [regs set_regs set_stack]. unfold set_reg.
      rewrite (proj2 (Z.eqb_neq _ _)) by congruence. by apply q_of_lookup.
    + intros _. cbn [m_stack set_regs set_stack]. rewrite load_le_put. by eexists.
Qed.

Notation Run := (QCodegen_Run jit_mode is_leaf segment (lay_stub lay) (lay_cacheptr lay)).

Lemma Run_ok : exists its nl, Run rn (mkE [] n_blocks) = Some (tt, mkE ((Ins <$> fs) ++ its) (n_blocks + nl)) /\
  code_ok ((Ins <$> fs) ++ its) /\ (blist rn <> [] -> its !! 0%nat = Some (Bind 0)).
Proof.
  assert (Hfs : emits (QEmit_Prologue is_leaf) fs) by (unfold QEmit_Prologue, FrameSetup, fs; apply emits_if; [by apply emits_emit|apply emits_ret]).
  destruct (emit_blocks_ok n_blocks (blist rn) 0 (mkE (Ins <$> fs) n_blocks) Hok ltac:(cbn; lia)) as (its & nl & [He Hh Hr Hn Hat]).
  exists its, nl. split_and!.
  - unfold QCodegen_Run, mbind, EM_bind. rewrite Hfs. exact He.
  - split; [by rewrite binds_app, binds_Ins|]. intros k b Hk. by apply block_at_app, (Hat k).
  - done.
Qed.
End region.
End emit.

Lemma QCodegen_Run_sim lay si jit_mode is_leaf segment E rn :
  layout_ok lay -> frame_ok lay E -> clob_ok lay ->
  Forall (block_ok is_leaf) (blist rn) -> blist rn <> [] ->
  exists st, QCodegen_Run jit_mode is_leaf segment (lay_stub lay) (lay_cacheptr lay) rn (mkE [] (length (blist rn))) = Some (tt, st) /\
    forall fuel ms, entry_ok lay E ms ->
      follows lay (final_rel lay jit_mode segment E (e_code st)) (e_code st) fuel ms
        (exec_region si (lay_clob lay) (lay_weaks lay) fuel rn 0 (q_of ms)).
Proof.
  intros HL HF HC Hok Hne.
  destruct (Run_ok lay si jit_mode is_leaf segment E HL HF HC rn Hok) as (its & nl & Hrun & Hcode & Hhead).
  eexists. split; [exact Hrun|]. cbn [e_code]. intros fuel ms Hms. set (code := (Ins <$> fs is_leaf) ++ its) in *.
  destruct (run_entry lay is_leaf E HL HF ms Hms) as (ms' & Hfs & Hr).
  assert (Hat : at_pc code 0 (Ins <$> fs is_leaf)) by (apply (at_pc_middle [] _ its)).
  pose proof (seq_run_ok lay code (fs is_leaf) 0 ms Hat) as Hreach. rewrite Hfs in Hreach. cbn [seq_run] in Hreach.
  assert (H0 : code !! length (fs is_leaf) = Some (Bind 0)).
  { unfold code. rewrite lookup_app_r by (by rewrite length_fmap). rewrite length_fmap, Nat.sub_diag. by apply Hhead. }
  assert (Hl0 : label_pos code 0 = Some (length (fs is_leaf))) by (by apply label_pos_bind; [apply Hcode|]).
  destruct (exec_region _ _ _ _ _ _ _) as [r|] eqn:Hx; cbn [follows].
  - destruct (qres_stuck_dec r) as [->|Hns]; [done|].
    destruct (region_run lay si jit_mode is_leaf segment E rn code Hcode fuel 0 (q_of ms) ms' r (length (fs is_leaf)) Hx Hns Hr Hl0)
      as (o & Hend & Hfin).
    destruct (ends_arun lay code 0 ms o) as [n Hn]; [by eapply ends_reach|]. destruct r; try done; by exists n, o.
  - apply (reach_goes_on lay code 0 ms (length (fs is_leaf)) ms' fuel Hreach); [|lia]. by apply (region_goes_on lay si jit_mode is_leaf segment E rn code Hcode fuel 0 (q_of ms)).
Qed.

(** C8 The emitter is correct: for an allocated region ([emit_ok] instructions,
    jumps last, named successors present, a frame when it calls) [QCodegen]
    emits code without failing, and that code, entered with any registers and
    a stack of the runtime's shape, leaves the region as the region does: at
    the branch slot of the same guest address, through the cache of indirect
    branches or the runtime for the same guest address, by the same trap or
    the same fault, with the same guest registers and memory and the stack
    pointer restored.  The code runs on for as long as the region does. *)
Theorem QCodegen_Run_correct lay si jit_mode is_leaf segment E rn :
  layout_ok lay -> frame_ok lay E -> clob_ok lay ->
  Forall (block_ok is_leaf) (blist rn) -> blist rn <> [] ->
  exists st, QCodegen_Run jit_mode is_leaf segment (lay_stub lay) (lay_cacheptr lay) rn (mkE [] (length (blist rn))) = Some (tt, st) /\
    forall fuel ms, entry_ok lay E ms ->
      follows lay (final_rel lay jit_mode segment E (e_code st)) (e_code st) fuel ms
        (exec_region si (lay_clob lay) (lay_weaks lay) fuel rn 0 (q_of ms)).
Proof. apply QCodegen_Run_sim. Qed.

(** ** A concrete host *)
Definition demo_layout : layout :=
  mkLayout (2 ^ 33) (2 ^ 33 + 4096, 2 ^ 33 + 8192) (2 ^ 34) (fun id => 2 ^ 40 + 8 * stub_num id)
    (fun _ => (0, 0)) (fun _ c _ => (2 ^ 41, c))
    (fun p => if RegMask.Test GPR_CALL_CLOBBER p then Some 99 else None) [].
Definition demo_sp : Z := 2 ^ 33 + 6008.
Definition demo_mach : mach :=
  mkM (fun r => if r =? STATE then 2 ^ 33 else if r =? RSP then demo_sp else 77) None (q_cpu demo_qstate) ∅ ∅.

Lemma demo_layout_ok : layout_ok demo_layout.
Proof.
  split.
  - split; vm_compute; congruence.
  - split; vm_compute; congruence.
  - vm_compute. congruence.
  - intros a b H. cbn [lay_stub demo_layout] in H. assert (E : stub_num a = stub_num b) by lia. clear H.
    revert E. destruct a; destruct b; first [done|vm_compute; discriminate].
  - intros []; vm_compute; split; congruence.
  - intros i. split; vm_compute; split; congruence.
Qed.
Lemma demo_frame_ok : frame_ok demo_layout demo_sp.
Proof. split; [done|]. split; vm_compute; congruence. Qed.
Lemma demo_clob_ok : clob_ok demo_layout.
Proof. split; [|by split; eexists]. intros p _ Hp. cbn [lay_clob demo_layout]. by rewrite Hp. Qed.
Lemma demo_entry_ok : entry_ok demo_layout demo_sp demo_mach.
Proof.
  split; [done|]. split; [done|]. unfold hweak. cbn [h_cpu h_gip h_mem m_cpu m_mem demo_mach].
  split_and!; [done|by apply (bool_decide_unpack _)|by split..|]. done.
Qed.

(** A region as the allocator leaves it: [rbx] against a constant, then one of
    two branches. *)
Definition demo_placed : Region :=
  let n id i := mkNode id (GetOpFlags (GetOpcode i)) i in
  mkRegion
    [ mkBlock [ n 0 (InstBinop _add (PGPR I32 RBX) (PGPR I32 RBX) (VConst I32 4));
                n 1 (InstBrcc GTU (PGPR I32 RBX) (VConst I32 80)) ] [1%nat; 2%nat] [];
      mkBlock [ n 2 (InstGBr (VConst I32 64)) ] [] [];
      mkBlock [ n 3 (InstGBr (VConst I32 128)) ] [] [] ]
    (mkVRegs demo_si []) 4 3.
Lemma demo_placed_ok : Forall (block_ok true) (blist demo_placed).
Proof.
  assert (H : forall ss l, Forall (fun i => emit_ok i = true) (n_inst <$> l) -> Forall (ctx_ok true ss) (n_inst <$> l) ->
    jumps_last (n_inst <$> l) = true -> block_ok true (mkBlock l ss [])) by done.
  cbn [blist demo_placed]. repeat (apply Forall_cons; split); try apply Forall_nil; try exact I.
  all: apply H; [apply (bool_decide_unpack _); vm_compute; exact I| |done].
  all: cbn; repeat (apply Forall_cons; split); try apply Forall_nil; try exact I. by split; eexists.
Qed.
Lemma demo_placed_run : exists s,
  exec_region demo_si (lay_clob demo_layout) [] 2 demo_placed 0 (q_of demo_mach) = Some (QExit 64 s).
Proof. eexists. vm_compute. reflexivity. Qed.

Lemma QCodegen_Run_correct_witness :
  exists st n o, QCodegen_Run true true (mkSegment 0 4096) (lay_stub demo_layout) (lay_cacheptr demo_layout)
      demo_placed (mkE [] 3) = Some (tt, st) /\
    arun demo_layout n (e_code st) 0 demo_mach = Some o /\
    match o with
    | MSlot k _ => slots_of (e_code st) !! k = Some (gbr_slot demo_layout true (mkSegment 0 4096) 64)
    | MJump _ _ => True
    | _ => False
    end.
Proof.
  destruct (QCodegen_Run_correct demo_layout demo_si true true (mkSegment 0 4096) demo_sp demo_placed
    demo_layout_ok demo_frame_ok demo_clob_ok demo_placed_ok ltac:(done)) as (st & Hst & H).
  destruct demo_placed_run as [s Hs].
  pose proof (H 2%nat demo_mach demo_entry_ok) as Hf. change (lay_weaks demo_layout) with (@nil bool) in Hf. rewrite Hs in Hf. destruct Hf as (n & o & Ho & Hf).
  exists st, n, o. split; [exact Hst|]. split; [exact Ho|]. destruct o; [by destruct Hf|done|by destruct Hf..].
Defined.
