(* ===== verification/QCompile.v ===== *)
(** * The back end (src/dbt/qmc/qcg/qcg.cpp)

    [GenerateCode] runs operand selection, register allocation and the emitter
    one after the other; their theorems compose. *)

From stdpp Require Import base tactics numbers list strings gmap.
From S2P Require Import Prelude Bitfield RV32Insn RV32Decode GuestState Interp InterpProofs VOperand Qir QirSem QirBuilder ArchTraits QSel QSelCorrect QRegAlloc QRegAllocInv QRegAllocOps QRegAllocCorrect QRegAllocRegion QSelWf BranchSlot Tcache Execute Amd64 QEmit QEmitInst QEmitCorrect.

Import qir.

(** ** What the emitter needs of an allocated block *)
Lemma emit_ok_types i : emit_ok i = true -> types_ok i = true \/ GetOpcode i = _mov.
Proof.
  unfold emit_ok. intros [H|H]%orb_true_iff; [right; by apply ra_mov_opcode|]. left. by bool_to_prop.
Qed.
Lemma emit_ok_term i : emit_ok i = true -> is_term i = ctl_op (GetOpcode i).
Proof.
  intros H%emit_ok_types. destruct i as [| | | | | | | |[] d v|[] d a b]; try done; destruct H as [H|H]; try done; cbn in H; by bool_to_prop.
Qed.
Lemma emit_ok_ctx is_leaf ss i :
  emit_ok i = true -> (GetOpcode i = _hcall -> is_leaf = false) -> succs_op ss (GetOpcode i) -> ctx_ok is_leaf ss i.
Proof. destruct i; cbn; auto. Qed.

Lemma jumps_last_op l : Forall (fun i => emit_ok i = true) l -> jumps_last l = jumps_op (GetOpcode <$> l).
Proof.
  induction 1 as [|i l Hi Hl IH]; [done|]. cbn. rewrite IH, (emit_ok_term i Hi). do 3 f_equal.
  apply bool_decide_ext. by destruct l.
Qed.

(** [has_calls] tells whether some instruction is a call. *)
Lemma no_calls si types L l b bs :
  pre_nodes si types L l -> ilist b = l -> b ∈ bs ->
  Forall (fun i => GetOpcode i = _hcall -> existsb (fun b => existsb node_has_calls (ilist b)) bs = true) (n_inst <$> l).
Proof.
  intros Hp <- Hb. apply Forall_fmap, Forall_forall. intros n Hn Hop. cbn in Hop.
  assert (Hc : exists L', pre_wf si types L' (n_flags n) (n_inst n)).
  { revert L Hp. induction (ilist b) as [|m l IH]; intros L; [by apply elem_of_nil in Hn|]. intros [Hm Hl].
    apply elem_of_cons in Hn as [->|Hn]; [by exists L|by eapply IH]. }
  destruct Hc as [L' Hc]. apply existsb_exists. exists b. split; [by apply list_elem_of_In|].
  apply existsb_exists. exists n. split; [by apply list_elem_of_In|]. unfold node_has_calls.
  apply negb_true_iff, Z.eqb_neq, (pw_calls _ _ _ _ _ Hc). rewrite is_call_op by apply Hc. by rewrite bool_decide_true.
Qed.

Lemma allocated_blocks_ok rn rn1 rn2 hc :
  sel_region_wf rn ->
  hc = existsb (fun b => existsb node_has_calls (ilist b)) (blist rn) ->
  Forall2 (fun b b' => succs b' = succs b /\ expands (n_inst <$> ilist b) (n_inst <$> ilist b')) (blist rn) (blist rn1) ->
  succs <$> blist rn2 = succs <$> blist rn1 -> Forall2 emit_block (blist rn1) (blist rn2) ->
  Forall (block_ok (negb hc)) (blist rn2).
Proof.
  intros Hwf Hhc H1 Hs H2. apply Forall_forall. intros b2 Hb2. apply list_elem_of_lookup in Hb2 as [k Hk2].
  destruct (Forall2_lookup_r _ _ _ _ _ H2 Hk2) as (b1 & Hk1 & He2 & Hem).
  destruct (Forall2_lookup_r _ _ _ _ _ H1 Hk1) as (b & Hk & Hs1 & He1).
  assert (Hs2 : succs b2 = succs b1).
  { pose proof (f_equal (fun l => l !! k) Hs) as E. cbn in E. rewrite !list_lookup_fmap, Hk1, Hk2 in E. by injection E. }
  pose proof (expands_trans _ _ _ He1 He2) as He.
  destruct (Forall_lookup_1 _ _ _ _ (sr_cfg _ Hwf) Hk) as (_ & Hj & Hss).
  split_and!; [done| |rewrite jumps_last_op by done; by eapply expands_jumps].
  assert (Hcalls : Forall (fun i => GetOpcode i = _hcall -> hc = true) (n_inst <$> ilist b)).
  { rewrite Hhc. eapply no_calls; [exact (Forall_lookup_1 _ _ _ _ (sr_nodes _ Hwf) Hk)|done|by eapply list_elem_of_lookup_2]. }
  pose proof (expands_Forall (fun op => op = _hcall -> hc = true) _ _ ltac:(done) He Hcalls) as Hc2.
  pose proof (expands_Forall (succs_op (succs b)) _ _ I He Hss) as Hss2. rewrite Hs2, Hs1.
  rewrite Forall_forall in Hem, Hc2, Hss2 |- *. intros i Hi. apply emit_ok_ctx; auto. intros Hop. rewrite (Hc2 i Hi Hop). done.
Qed.

(** An exit depends on the guest state only. *)
Lemma final_rel_same lay jit_mode segment E code N r r' r'' o :
  qres_agree N r r' -> exit_rel r' r'' -> final_rel lay jit_mode segment E code r'' o -> final_rel lay jit_mode segment E code r o.
Proof.
  intros Ha Hx Hf.
  assert (Hg : forall s s' s'', agree N s s' -> same_guest s' s'' -> q_cpu s = q_cpu s'' /\ q_mem s = q_mem s'').
  { intros s s' s'' [] [? ?]. split; congruence. }
  destruct r, r'; try done; destruct r''; try done; cbn in Ha, Hx.
  - destruct Ha as [<- Ha], Hx as [<- Hx]. destruct (Hg _ _ _ Ha Hx) as [Ec Em].
    destruct o; try done; cbn [final_rel] in *; unfold left in *; cbn [q_set_cpu q_cpu q_mem] in *; rewrite Ec, Em; done.
  - destruct (Hg _ _ _ Ha Hx) as [Ec Em]. destruct o; try done; cbn in *; by rewrite Ec, Em.
  - destruct (Hg _ _ _ Ha Hx) as [Ec Em]. destruct o; try done; cbn in *; by rewrite Ec, Em.
Qed.

Lemma GenerateCode_sim lay jit_mode segment E rn rn1 hc :
  layout_ok lay -> frame_ok lay E -> clob_ok lay -> sel_region_wf rn ->
  QSelPass_run rn = Some (rn1, hc) -> NumAll (vregs_info rn1) <= 255 ->
  exists code, qcg_GenerateCode jit_mode segment (lay_stub lay) (lay_cacheptr lay) rn = Some code /\
    forall fuel ms, entry_ok lay E ms ->
      follows lay (final_rel lay jit_mode segment E code) code fuel ms
        (exec_region (glob_info (vregs_info rn)) (lay_clob lay) (lay_weaks lay) fuel rn 0 (q_of ms)).
Proof.
  intros HL HF HC Hwf Hsel HN.
  destruct (QSelPass_ra_wf rn rn1 hc Hwf Hsel HN) as (Hra & Hg & Hhc & Hexp).
  destruct (QRegAllocPass_sim rn1 Hra) as (rn2 & st2 & Hrun2 & Hs2 & Hem2 & Hsim2).
  assert (Hok : Forall (block_ok (negb hc)) (blist rn2)) by (by eapply allocated_blocks_ok).
  assert (Hne : blist rn2 <> []).
  { intros E0. rewrite E0 in Hem2. apply Forall2_nil_inv_r in Hem2. rewrite Hem2 in Hexp. apply Forall2_nil_inv_r in Hexp.
    by apply (sr_blocks _ Hwf). }
  destruct (QCodegen_Run_sim lay (glob_info (vregs_info rn)) jit_mode (negb hc) segment E rn2 HL HF HC Hok Hne)
    as (st & Hemit & Hmach).
  exists (e_code st). split.
  { unfold qcg_GenerateCode. rewrite Hsel. cbn [mbind option_bind]. rewrite Hrun2, Hemit. done. }
  intros fuel ms Hms. pose proof Hms as (_ & _ & Hlen & _).
  pose proof (QSelPass_sim rn rn1 hc (lay_clob lay) (lay_weaks lay) fuel 0 (q_of ms) (sel_region_region _ Hwf) Hsel ltac:(lia) Hlen) as H1.
  assert (Hh : handoff (q_of ms) (q_of ms)) by (split; [done|done|apply q_of_total]).
  pose proof (Hsim2 (lay_clob lay) (lay_weaks lay) fuel 0%nat _ _ (proj1 HC) Hh) as H2. rewrite Hg in H2.
  pose proof (Hmach fuel ms Hms) as H3.
  destruct (exec_region _ _ _ fuel rn 0 (q_of ms)) as [r|]; cbn [follows].
  - destruct (qres_stuck_dec r) as [->|Hns]; [done|].
    destruct (region_rel_end _ _ _ r H1 eq_refl Hns) as (r1 & E1 & Hag).
    assert (Hns1 : r1 <> QStuck) by (intros ->; by destruct r).
    destruct (region_rel_end _ _ _ r1 H2 E1 Hns1) as (r2 & E2 & Hx).
    assert (Hns2 : r2 <> QStuck) by (intros ->; by destruct r1). rewrite E2 in H3.
    assert (exists n o, arun lay n (e_code st) 0 ms = Some o /\ final_rel lay jit_mode segment E (e_code st) r2 o) as (n & o & Ho & Hfin)
      by (by destruct r2).
    assert (Hd : exists n o, arun lay n (e_code st) 0 ms = Some o /\ final_rel lay jit_mode segment E (e_code st) r o).
    { exists n, o. split; [done|]. by eapply final_rel_same. }
    by destruct r.
  - cbn [region_rel] in H1. rewrite H1 in H2. cbn [region_rel] in H2. by rewrite H2 in H3.
Qed.

(** C7 The back end is correct: for every region a front end may hand it
    ([sel_region_wf]) that has at most 255 virtual registers after selection,
    [GenerateCode] produces code, and the code, entered at its start on the
    host machine, leaves with the guest state, the memory and the exit of the
    region, and runs on for as long as the region does. *)
Theorem qcg_GenerateCode_correct lay jit_mode segment E rn rn1 hc :
  layout_ok lay -> frame_ok lay E -> clob_ok lay -> sel_region_wf rn ->
  QSelPass_run rn = Some (rn1, hc) -> NumAll (vregs_info rn1) <= 255 ->
  exists code, qcg_GenerateCode jit_mode segment (lay_stub lay) (lay_cacheptr lay) rn = Some code /\
    forall fuel ms, entry_ok lay E ms ->
      follows lay (final_rel lay jit_mode segment E code) code fuel ms
        (exec_region (glob_info (vregs_info rn)) (lay_clob lay) (lay_weaks lay) fuel rn 0 (q_of ms)).
Proof. apply GenerateCode_sim. Qed.

(** ** A concrete region *)
Lemma demo_qregion_sel_wf : sel_region_wf demo_qregion.
Proof. apply sel_region_wfb_sound. vm_compute. reflexivity. Qed.
Lemma demo_qregion_compiles :
  match QSelPass_run demo_qregion with
  | Some (rn', hc) => negb hc && bool_decide (NumAll (vregs_info rn') <= 255)
  | None => false
  end = true.
Proof. vm_compute. reflexivity. Qed.
Lemma demo_qregion_exit : exists s,
  exec_region demo_si (lay_clob demo_layout) [] 1 demo_qregion 0 (q_of demo_mach) = Some (QExit 64 s).
Proof. eexists. vm_compute. reflexivity. Qed.

Lemma qcg_GenerateCode_correct_witness :
  exists code n o, qcg_GenerateCode false (mkSegment 0 4096) (lay_stub demo_layout) (lay_cacheptr demo_layout) demo_qregion = Some code /\
    arun demo_layout n code 0 demo_mach = Some o /\
    match o with
    | MSlot k _ => slots_of code !! k = Some (gbr_slot demo_layout false (mkSegment 0 4096) 64)
    | MJump _ _ => True
    | _ => False
    end.
Proof.
  pose proof demo_qregion_compiles as Hc. destruct (QSelPass_run demo_qregion) as [[rn1 hc]|] eqn:E; [|discriminate Hc].
  apply andb_true_iff in Hc as [_ HN]. apply bool_decide_eq_true in HN.
  destruct (qcg_GenerateCode_correct demo_layout false (mkSegment 0 4096) demo_sp demo_qregion rn1 hc
    demo_layout_ok demo_frame_ok demo_clob_ok demo_qregion_sel_wf E HN) as (code & Hcode & H).
  destruct demo_qregion_exit as [s Hs].
  pose proof (H 1%nat demo_mach demo_entry_ok) as Hf. change (glob_info (vregs_info demo_qregion)) with demo_si in Hf.
  change (lay_weaks demo_layout) with (@nil bool) in Hf. rewrite Hs in Hf. destruct Hf as (n & o & Ho & Hf).
  exists code, n, o. split; [exact Hcode|]. split; [exact Ho|]. destruct o; [by destruct Hf|done|by destruct Hf..].
Defined.
