(* ===== verification/InterpTrap.v ===== *)
(** * Traps of the interpreter

    An instruction that completes leaves [trapno] clear, one that raises a trap
    sets it. *)

From stdpp Require Import base tactics numbers list gmap.
From S2P Require Import Prelude Bitfield RV32Insn RV32Decode GuestState Interp InterpProofs.

Import insn.

Definition trap_kept {A} (c : Hm A) : Prop :=
  forall σ, trapno (h_cpu σ) = NONE ->
    match c σ with
    | Ret _ σ' => trapno (h_cpu σ') = NONE
    | Raised σ' => trapno (h_cpu σ') <> NONE
    | _ => True
    end.

Lemma trap_bind {A B} (c : Hm A) (k : A -> Hm B) : trap_kept c -> (forall a, trap_kept (k a)) -> trap_kept (c ≫= k).
Proof.
  intros Hc Hk σ H. unfold mbind, Hm_bind. specialize (Hc σ H). destruct (c σ) as [a σ1| | |]; try done. by apply Hk.
Qed.
Lemma trap_raise {A} t (k : unit -> Hm A) : t <> NONE -> trap_kept (RAISE_TRAP t ≫= k).
Proof. intros Ht σ H. exact Ht. Qed.
Lemma trap_raise_if (b : bool) t : t <> NONE -> trap_kept (if b then RAISE_TRAP t else mret tt).
Proof. intros Ht σ H. by destruct b. Qed.
Lemma trap_load T a : trap_kept (load_mem T a).
Proof. intros σ H. unfold load_mem. by destruct (unaligned_load _ _ _). Qed.
Lemma trap_store T a v : trap_kept (store_mem T a v).
Proof. intros σ H. unfold store_mem. by destruct (unaligned_store _ _ _ _). Qed.
Lemma trap_prim : (forall r, trap_kept (GPR r)) /\ (forall r v, trap_kept (SET_GPR r v)) /\ trap_kept GET_GIP /\
  (forall v, trap_kept (SET_GIP v)) /\ trap_kept STATE_IP_GIP /\ (forall t, t <> NONE -> trap_kept (RAISE_TRAP t)).
Proof. split_and!; intros; by intros σ Hσ. Qed.
Lemma trap_done {A} (a : A) : trap_kept (mret a) /\ trap_kept (@h_undefined A).
Proof. by split; intros σ H. Qed.

Ltac trap_step :=
  repeat lazymatch goal with
  | |- forall _, _ => intros
  | |- trap_kept (RAISE_TRAP _ ≫= _) => apply trap_raise; discriminate
  | |- trap_kept (_ ≫= _) => apply trap_bind
  | |- trap_kept (if _ then RAISE_TRAP _ else mret tt) => apply trap_raise_if; discriminate
  | |- trap_kept (if ?b then _ else _) => destruct b
  | |- trap_kept (mret _) => apply trap_done
  | |- trap_kept h_undefined => apply (trap_done tt)
  | |- trap_kept (load_mem _ _) => apply trap_load
  | |- trap_kept (store_mem _ _ _) => apply trap_store
  | |- trap_kept (RAISE_TRAP _) => apply trap_prim; discriminate
  | |- trap_kept (GPR _) => apply trap_prim
  | |- trap_kept (SET_GPR _ _) => apply trap_prim
  | |- trap_kept (SET_GIP _) => apply trap_prim
  | |- trap_kept GET_GIP => apply trap_prim
  | |- trap_kept STATE_IP_GIP => apply trap_prim
  end.

Lemma trap_amomax weaks a cur rhs : trap_kept (amomax_loop weaks a cur rhs).
Proof.
  revert cur. induction weaks as [|w weaks IH]; intros cur; rewrite amomax_loop_eq;
    unfold compare_exchange_weak; trap_step; match goal with p : bool * Z |- _ => destruct p as [[] ?] end; trap_step.
  apply IH.
Qed.
Lemma trap_ApplyInsnA h i : (forall mo, trap_kept (h mo)) -> trap_kept (ApplyInsnA h i).
Proof.
  intros Hh. unfold ApplyInsnA. cbn [switch]. repeat (match goal with |- trap_kept (if ?b then _ else _) => destruct b; [apply Hh|] end). by apply (trap_done tt).
Qed.
Lemma Impl_trap weaks op i : trap_kept (Impl weaks op i).
Proof.
  destruct op; cbn [Impl];
    unfold HANDLER_BCC, HANDLER_Unimpl, HANDLER_Load, HANDLER_Store, HANDLER_ArithmRR,
      HANDLER_ArithmRI, Impl_jal, Impl_jalr, Impl_lui, Impl_auipc, Impl_slli, Impl_srai, Impl_srli,
      Impl_sll, Impl_sra, Impl_srl, Impl_ecall, Impl_ebreak, Impl_lrw, Impl_scw, Impl_amoswapw,
      Impl_amoaddw, Impl_amomaxuw, atomic_ref, atomic_exchange, atomic_fetch_add;
    lazymatch goal with
    | |- trap_kept (ApplyInsnA _ _) => apply trap_ApplyInsnA; intros []
    | _ => idtac
    end; cbn [atomic_load atomic_store]; cbv zeta; trap_step; apply trap_amomax.
Qed.
Lemma Handler_trap weaks op i : trap_kept (Handler weaks op i).
Proof. unfold Handler. pose proof (Impl_trap weaks op i). trap_step; done. Qed.
