(* ===== verification/Jit.v ===== *)
(** * From guest code to host code

    The translator ([Translate]) and the back end ([GenerateCode]) one after
    the other, as [CompilerGenRegionIR] and [CompilerDoJob] call them: the code that
    comes out, run on the host machine, does what the interpreter does on the
    guest code. *)

From stdpp Require Import base tactics numbers list strings gmap.
From S2P Require Import Prelude Bitfield RV32Insn RV32Decode GuestState Interp InterpProofs VOperand Qir QirSem QirBuilder RV32Translator.
From S2P Require Import TranslatorEmit TranslatorSim TranslatorCorrect TranslatorRegion TranslatorMain.
From S2P Require Import ArchTraits QSel QSelCorrect QRegAlloc QRegAllocInv QRegAllocCorrect QRegAllocRegion QSelWf TranslatorWf.
From S2P Require Import BranchSlot Tcache Execute Amd64 QEmit QEmitInst QEmitCorrect QCompile.

Import qir.

Section jit.
Context (lay : layout) (jit_mode : bool) (segment : CodeSegment) (E : Z).
Notation isteps := (isteps (lay_weaks lay)).
Notation interp_step := (dispatch (lay_weaks lay)).

(** The guest state in host memory is that of the interpreter ([ip] is only
    kept up to date where an instruction may trap). *)
Definition holds (ms : mach) (σ : hstate) : Prop :=
  gpr (m_cpu ms) = gpr (h_cpu σ) /\ trapno (m_cpu ms) = trapno (h_cpu σ) /\ in_u 32 (ip (m_cpu ms)) /\ m_mem ms = h_mem σ.
(** The host is about to run code for the guest address of [σ]. *)
Record enters (ms : mach) (σ : hstate) : Prop := {
  en_entry : entry_ok lay E ms;
  en_inv : hinv σ;
  en_holds : holds ms σ }.
Definition framed (ms : mach) : Prop := regs ms RSP = E /\ regs ms STATE = lay_state lay.

(** Generated code that ends with [o] has done what the interpreter does from
    [σ]. *)
Definition code_result (items : list item) (σ : hstate) (o : mres) : Prop :=
  match o with
  | MSlot k ms => exists n σ', isteps (S n) σ σ' /\ holds ms σ' /\ framed ms /\
      slots_of items !! k = Some (gbr_slot lay jit_mode segment (h_gip σ'))
  | MJump a ms => exists n σ', isteps (S n) σ σ' /\ framed ms /\
      let e := lay_cache lay (l1hash (h_gip σ')) in
      if e.1 =? h_gip σ' then a = e.2 /\ holds ms σ'
      else exists c p c', gpr c = gpr (h_cpu σ') /\ trapno c = trapno (h_cpu σ') /\ in_u 32 (ip c) /\
        lay_brind lay (h_gip σ') c (h_mem σ') = (p, c') /\ a = u64 p /\ m_cpu ms = c' /\ m_mem ms = h_mem σ'
  | MRaised ms => exists n σ1 σ2, isteps n σ σ1 /\ interp_step σ1 = Raised σ2 /\ m_cpu ms = h_cpu σ2 /\ m_mem ms = h_mem σ2
  | MFault ms => exists n σ1 σ2, isteps n σ σ1 /\ interp_step σ1 = Faulted σ2 /\ m_cpu ms = h_cpu σ2 /\ m_mem ms = h_mem σ2
  | MUndef | MBad => False
  end.

Lemma enters_sim ms σ : enters ms σ -> sim (q_of ms) σ.
Proof.
  intros [_ Hi (Hg & Ht & Hip & Hm)]. pose proof (proj1 (hinv_wf σ) Hi) as (Hcw & _ & Hmw).
  split; [|done..]. destruct Hcw as [Hl Hr H0 _].
  split; cbn [q_of q_cpu q_loc q_pgpr q_frame q_mem]; [|apply map_Forall_empty| |apply map_Forall_empty|by rewrite Hm].
  - split; unfold get_gpr in *; by rewrite ?Hg.
  - intros p v Hv. apply elem_of_list_to_map_2 in Hv. apply list_elem_of_fmap in Hv as (k & [= _ ->] & _). apply uN_range. lia.
Qed.

Lemma result_code inside items σ r o :
  region_moves (lay_weaks lay) inside r σ -> final_rel lay jit_mode segment E items r o -> code_result items σ o.
Proof.
  assert (Hto : forall n σ1 σ2, rsteps (lay_weaks lay) inside n σ1 σ2 -> isteps n σ1 σ2) by apply rsteps_isteps.
  intros Hr Hf. destruct r as [| |t s|s|s| |]; try done; destruct o as [k ms|a ms|ms|ms| |]; try done; cbn in Hr, Hf.
  - destruct Hr as (n & σ' & Hn & Hs & <-). destruct Hf as (Hk & Hc & Hm & H1 & H2). exists n, σ'. split; [auto|].
    destruct Hs as [Hq ? ? ? ?]. pose proof (wf_ip _ (qwf_cpu _ Hq)). split_and!; try done; unfold holds; rewrite Hc, ?Hm; auto.
  - destruct Hr as (n & σ' & Hn & Hs & <-). exists n, σ'. split; [auto|]. destruct Hs as [Hq ? ? ? ?].
    pose proof (wf_ip _ (qwf_cpu _ Hq)). cbv zeta. destruct (_ =? _).
    + destruct Hf as (-> & Hc & Hm & H1 & H2). split_and!; try done; unfold holds; rewrite Hc, ?Hm; auto.
    + destruct (lay_brind lay _ _ _) as [p c'] eqn:Eb. destruct Hf as (-> & Hc & Hm & H1 & H2). split; [done|].
      exists (q_cpu s), p, c'. rewrite <- sim_mem. split_and!; try done.
  - destruct Hr as (n & σ1 & σ2 & Hn & Hi & Hc & Hm). destruct Hf as [Hfc Hfm]. exists n, σ1, σ2. split; [auto|]. split_and!; congruence.
  - destruct Hr as (n & σ1 & σ2 & Hn & Hi & Hc & Hm). destruct Hf as [Hfc Hfm]. exists n, σ1, σ2. split; [auto|]. split_and!; congruence.
Qed.
End jit.

(** The first range is the entry of the region. *)
Lemma create_blocks_entry first second rs t :
  create_blocks ((first, second) :: rs) T_init = Some (tt, t) -> ip2bb t !! first = Some 0%nat.
Proof.
  intros Ec.
  assert (Hf0 : fresh_blocks T_init).
  { split; try done; intros ip *; change (ip2bb T_init) with (∅ : gmap Z nat); by rewrite !lookup_empty. }
  pose proof (create_blocks_step first T_init Hf0) as Hf1. cbv zeta in Hf1.
  match type of Hf1 with fresh_blocks ?x => set (t1 := x) in * end.
  assert (Ec' : create_blocks rs t1 = Some (tt, t)) by exact Ec.
  destruct (create_blocks_done rs t1 t Hf1 Ec') as (_ & Hk & _). apply Hk. subst t1. cbn [ip2bb].
  change (ip2bb T_init) with (∅ : gmap Z nat). rewrite lookup_empty. apply lookup_insert_eq.
Qed.

Lemma Translate_entry code first second rs t :
  mem_wf code -> TranslatorMain.code_ok code ((first, second) :: rs) -> ranges_wf ((first, second) :: rs) ->
  Translate code ((first, second) :: rs) = Some t ->
  ip2bb t !! first = Some 0%nat /\ glob_info (vregs_info (t_rn t)) = state_info.
Proof.
  intros Hw Hok [Hnd Hall] Et. unfold Translate in Et. set (rs0 := (first, second) :: rs) in *.
  change ((create_blocks rs0;; translate_ranges code rs0) T_init) with
    ('(_, t1) ← create_blocks rs0 T_init; translate_ranges code rs0 t1) in Et.
  apply fmap_Some in Et as (((), t') & Et & ->). apply bind_Some in Et as (((), t1) & E1 & E2). cbn [snd].
  assert (Hemp : forall ip, ip2bb T_init !! ip = None) by (intros; apply lookup_empty).
  destruct (create_blocks_done rs0 T_init t1) as ([Hv Hi Hg] & _ & _ & Hin'); [|done|].
  { split; try done; intros *; by rewrite !Hemp. }
  destruct (ranges_done (fun _ => None) [] code (in_ranges rs0) Hw Hok rs0 t1 t') as (Hm & Hg' & _); try done.
  - intros ip b Hb _. by apply (Hv ip).
  - intros ip b Hb Hn. destruct (Hin' ip) as [Hs|?]; [by eexists| |done]. rewrite Hemp in Hs. by destruct Hs.
  - rewrite Hm. split; [|done]. by eapply create_blocks_entry.
Qed.

Lemma sel_NumAll rn rn' hc : QSelPass_run rn = Some (rn', hc) -> NumAll (vregs_info rn) <= NumAll (vregs_info rn').
Proof.
  unfold QSelPass_run. intros ([[[vr id] hc2] bs] & Hs & Hr)%bind_Some. injection Hr as <- _. cbn [vregs_info].
  apply vr_le_num. by eapply QSel_blocks_mono.
Qed.

(** More fuel does not change the end of a run. *)
Lemma arun_more lay k n its pc ms o : arun lay n its pc ms = Some o -> arun lay (k + n) its pc ms = Some o.
Proof.
  revert pc ms. induction n as [|n IH]; intros pc ms; [done|]. rewrite Nat.add_succ_r. cbn [arun].
  destruct (astep lay its pc ms) as [[pc' ms']|r]; [apply IH|done].
Qed.
Lemma arun_det lay n n' its pc ms o o' : arun lay n its pc ms = Some o -> arun lay n' its pc ms = Some o' -> o = o'.
Proof. intros H%(arun_more lay n') H'%(arun_more lay n). rewrite Nat.add_comm in H'. congruence. Qed.

Lemma compiled_code_sim lay jit_mode segment E code first second rs t rn1 hc :
  layout_ok lay -> frame_ok lay E -> clob_ok lay ->
  mem_wf code -> TranslatorMain.code_ok code ((first, second) :: rs) -> ranges_wf ((first, second) :: rs) ->
  Translate code ((first, second) :: rs) = Some t ->
  QSelPass_run (t_rn t) = Some (rn1, hc) -> NumAll (vregs_info rn1) <= 255 ->
  exists items, qcg_GenerateCode jit_mode segment (lay_stub lay) (lay_cacheptr lay) (t_rn t) = Some items /\
    forall ms σ, enters lay E ms σ -> h_gip σ = first -> ~ goes_bad (lay_weaks lay) code (in_ranges ((first, second) :: rs)) σ ->
      (forall n o, arun lay n items 0 ms = Some o -> code_result lay jit_mode segment E items σ o) /\
      (forall k σ1, isteps (lay_weaks lay) k σ σ1 -> (forall σ2, dispatch (lay_weaks lay) σ1 <> Ret tt σ2) ->
         exists n o, arun lay n items 0 ms = Some o).
Proof.
  intros HL HF HC Hw Hok Hrs Et Hsel HN.
  destruct (Translate_entry code first second rs t Hw Hok Hrs Et) as [Hb Hg].
  pose proof (sel_NumAll _ _ _ Hsel) as HN0.
  pose proof (Translate_region_wf code _ t Hw Hok Hrs ltac:(done) Et ltac:(lia)) as Hwf.
  destruct (GenerateCode_sim lay jit_mode segment E (t_rn t) rn1 hc HL HF HC Hwf Hsel HN) as (items & Hgen & Hmach).
  rewrite Hg in Hmach. exists items. split; [exact Hgen|]. intros ms σ Hen Hip Hnb.
  pose proof (enters_sim lay E ms σ Hen) as Hsim.
  destruct (Translate_blocks (lay_clob lay) (lay_weaks lay) code _ Hw Hok _ t (proj1 Hrs) (proj2 Hrs) ltac:(done) Et) as [_ Hblk].
  assert (Hnw : no_wrap t) by (unfold no_wrap; lia).
  assert (Hend : forall fuel r, exec_region state_info (lay_clob lay) (lay_weaks lay) fuel (t_rn t) 0 (q_of ms) = Some r ->
    exists n o, arun lay n items 0 ms = Some o /\ code_result lay jit_mode segment E items σ o).
  { intros fuel r Hr.
    destruct (region_sound_entry (lay_clob lay) (lay_weaks lay) code _ t Hblk Hnw fuel 0 first (q_of ms) σ r) as [Hbad|Hres]; try done.
    pose proof (Hmach fuel ms (en_entry _ _ _ _ Hen)) as Hf. rewrite Hr in Hf.
    assert (exists n o, arun lay n items 0 ms = Some o /\ final_rel lay jit_mode segment E items r o) as (n & o & Ho & Hfin) by (by destruct r).
    exists n, o. split; [exact Ho|]. by eapply result_code. }
  split.
  - intros n o Ho. pose proof (Hmach n ms (en_entry _ _ _ _ Hen)) as Hf.
    destruct (exec_region _ _ _ n (t_rn t) 0 (q_of ms)) as [r|] eqn:Hr; [|cbn in Hf; congruence].
    destruct (Hend n r Hr) as (n' & o' & Ho' & Hres). by rewrite (arun_det _ _ _ _ _ _ _ _ Ho Ho').
  - intros k σ1 Hk Hstop.
    destruct (region_progress (lay_clob lay) (lay_weaks lay) code _ t Hblk Hnw k 0 first (q_of ms) σ σ1) as [r Hr]; try done; [by left|].
    destruct (Hend _ r Hr) as (n & o & Ho & _). by exists n, o.
Qed.

(** C2 Compiled code is correct, from guest code to host code: for ranges of
    the guest memory [code] without loads into [x0] at offset zero whose
    region has at most 255 virtual registers after selection, the back end
    generates code for the region the translator builds.  Entered for the
    first range, at that time or later, with the guest state of the
    interpreter [σ], wherever that code ends it is at the branch slot or the
    jump of a guest address the interpreter reaches, or with its trap or fault,
    with the registers and the memory of the interpreter there; and it does
    end when the interpreter comes to a trap or a fault.  The interpreter
    fetches from its current memory.  Excepted are runs on which, within the
    ranges, it comes to an instruction modified since the translation, traps
    on a misaligned jump target or leaves the contract of an atomic
    operation. *)
Theorem compiled_code_correct lay jit_mode segment E code first second rs t rn1 hc :
  layout_ok lay -> frame_ok lay E -> clob_ok lay ->
  mem_wf code -> TranslatorMain.code_ok code ((first, second) :: rs) -> ranges_wf ((first, second) :: rs) ->
  Translate code ((first, second) :: rs) = Some t ->
  QSelPass_run (t_rn t) = Some (rn1, hc) -> NumAll (vregs_info rn1) <= 255 ->
  exists items, qcg_GenerateCode jit_mode segment (lay_stub lay) (lay_cacheptr lay) (t_rn t) = Some items /\
    forall ms σ, enters lay E ms σ -> h_gip σ = first -> ~ goes_bad (lay_weaks lay) code (in_ranges ((first, second) :: rs)) σ ->
      (forall n o, arun lay n items 0 ms = Some o -> code_result lay jit_mode segment E items σ o) /\
      (forall k σ1, isteps (lay_weaks lay) k σ σ1 -> (forall σ2, dispatch (lay_weaks lay) σ1 <> Ret tt σ2) ->
         exists n o, arun lay n items 0 ms = Some o).
Proof. apply compiled_code_sim. Qed.

(** ** A concrete program: [ecall] *)
Definition ecall_mach : mach := mkM (regs demo_mach) None CPUState_init ∅ ecall_mem.

Lemma ecall_enters : enters demo_layout demo_sp ecall_mach (mkH CPUState_init 0 ecall_mem).
Proof.
  assert (Hi : hinv (mkH CPUState_init 0 ecall_mem)).
  { apply hinv_wf. split_and!; [apply cpu_wf_init|by split|apply mem_of_words_wf]. }
  split; [|exact Hi|by split_and!]. split; [reflexivity|]. split; [reflexivity|]. apply Hi.
Qed.

Lemma ecall_compiles :
  match Translate ecall_mem [(0, 4)] with
  | Some t =>
      match QSelPass_run (t_rn t) with Some (rn1, _) => bool_decide (NumAll (vregs_info rn1) <= 255) | None => false end
  | None => false
  end = true.
Proof. vm_compute. reflexivity. Qed.

Lemma compiled_code_correct_witness :
  exists t items n o, Translate ecall_mem [(0, 4)] = Some t /\
    qcg_GenerateCode true (mkSegment 0 4096) (lay_stub demo_layout) (lay_cacheptr demo_layout) (t_rn t) = Some items /\
    arun demo_layout n items 0 ecall_mach = Some o /\
    code_result demo_layout true (mkSegment 0 4096) demo_sp items (mkH CPUState_init 0 ecall_mem) o.
Proof.
  pose proof ecall_compiles as Hc. destruct (Translate ecall_mem [(0, 4)]) as [t|] eqn:Et; [|discriminate Hc].
  destruct (QSelPass_run (t_rn t)) as [[rn1 hc]|] eqn:Es; [|discriminate Hc]. apply bool_decide_eq_true in Hc.
  destruct (compiled_code_correct demo_layout true (mkSegment 0 4096) demo_sp ecall_mem 0 4 [] t rn1 hc) as (items & Hgen & H).
  - exact demo_layout_ok.
  - exact demo_frame_ok.
  - exact demo_clob_ok.
  - apply mem_of_words_wf.
  - apply code_okb_ok. vm_compute. reflexivity.
  - split; [apply (bool_decide_unpack _); vm_compute; exact I|]. by repeat constructor.
  - exact Et.
  - exact Es.
  - exact Hc.
  - destruct (H ecall_mach (mkH CPUState_init 0 ecall_mem) ecall_enters eq_refl) as [Hsound Hstop].
    { by apply ecall_not_bad. }
    destruct (Hstop 0%nat (mkH CPUState_init 0 ecall_mem)) as (n & o & Ho); [constructor|intros σ2; by apply ecall_stops|].
    exists t, items, n, o. split; [reflexivity|]. split; [exact Hgen|]. split; [exact Ho|by apply (Hsound n)].
Defined.
