(* ===== verification/JitExec.v ===== *)
(** * The execution loop over compiled code

    The code generator that the loop of [Execute] takes as a parameter is the
    translator and the back end, run on the guest memory at the time of the
    compilation: their correctness discharges the laws [CodeGen] and
    [RegionSound] of the loop.  What is left of the assembler is where it puts
    the branch slots ([assembled]).  The guest may write its memory; what it
    executes must be what was there when it was compiled ([guest_ok]). *)

From stdpp Require Import base tactics numbers list strings gmap.
From S2P Require Import Prelude Common Arena Bitfield RV32Insn RV32Decode GuestState Interp InterpProofs InterpTrap VOperand Qir QirSem QirBuilder RV32Translator.
From S2P Require Import TranslatorEmit TranslatorSim TranslatorCorrect TranslatorRegion TranslatorMain.
From S2P Require Import ArchTraits QSel QSelCorrect QRegAlloc QRegAllocInv QRegAllocCorrect QRegAllocRegion QSelWf TranslatorWf.
From S2P Require Import BranchSlot Tcache Execute ExecuteProofs Amd64 QEmit QEmitInst QEmitCorrect QCompile Jit.

Import qir.

(** The host with a cache of indirect branches that never hits, and a stub
    that reports the target: how generated code looks to the loop, which does
    the lookup itself ([brind_inlined]). *)
Definition observer (lay : layout) : layout :=
  mkLayout (lay_state lay) (lay_stack lay) (lay_cacheptr lay) (lay_stub lay)
    (fun h => (if h =? 0 then 4 else 0, 0)) (fun gip c _ => (gip, c)) (lay_clob lay) (lay_weaks lay).

Lemma observer_misses lay gip : ((lay_cache (observer lay) (l1hash gip)).1 =? gip) = false.
Proof.
  apply Z.eqb_neq. cbn [observer lay_cache fst]. intros H. revert H. destruct (Z.eqb_spec (l1hash gip) 0) as [E|E]; intros H.
  - rewrite <- H in E. vm_compute in E. discriminate E.
  - rewrite <- H in E. by apply E.
Qed.
Lemma observer_ok lay : layout_ok lay -> layout_ok (observer lay).
Proof.
  intros [h1 h2 h3 h4 h5 h6]. split; try done. intros i. cbn [observer lay_cache fst snd].
  split; [destruct (i =? 0)|]; split; vm_compute; congruence.
Qed.

(** ** The guest

    [texts] are the guest memories that code is compiled from: that of every
    state the interpreter reaches, and those of earlier compilations.  The
    guest keeps to what the translator implements: the instructions it
    executes are in all those memories (it does not modify its code), there is
    no load into [x0] at offset zero in the pages it executes, no misaligned
    jump, no atomic operation outside its contract, and it does not get to
    address 0. *)
Definition page_ok (m : mem) (pc : Z) : Prop :=
  forall a raw, a / PAGE_SIZE = pc / PAGE_SIZE -> (a - pc) mod 4 = 0 -> load_le 4 m a = Some raw ->
    insn_ok (Decoder.Decode raw) raw = true.
Record guest_ok (weaks : list bool) (texts : mem -> Prop) (σ0 : hstate) : Prop := {
  go_wf : forall m, texts m -> mem_wf m;
  go_text : forall n σ, isteps weaks n σ0 σ -> texts (h_mem σ);
  go_current : forall m n σ, texts m -> isteps weaks n σ0 σ -> fetch (h_mem σ) (h_gip σ) = fetch m (h_gip σ);
  go_insns : forall m n σ, texts m -> isteps weaks n σ0 σ -> page_ok m (h_gip σ);
  go_defined : forall n σ, isteps weaks n σ0 σ -> dispatch weaks σ <> Undefined;
  go_aligned : forall n σ σ2, isteps weaks n σ0 σ -> dispatch weaks σ = Raised σ2 -> trapno (h_cpu σ2) <> UNALIGNED_IP;
  go_zero : forall n σ, isteps weaks n σ0 σ -> h_gip σ <> 0 }.

Lemma guest_ok_steps weaks texts n σ σ' : isteps weaks n σ σ' -> guest_ok weaks texts σ -> guest_ok weaks texts σ'.
Proof.
  intros Hn [h1 h2 h3 h4 h5 h6 h7].
  assert (Ht : forall m σ1, isteps weaks m σ' σ1 -> isteps weaks (n + m) σ σ1) by (intros; by eapply isteps_trans).
  split; [exact h1|..]; intros; eauto.
Qed.
Lemma guest_not_bad weaks texts m inside σ : guest_ok weaks texts σ -> texts m -> ~ goes_bad weaks m inside σ.
Proof.
  intros H Hm (n & σ1 & Hn%rsteps_isteps & _ & [Hb|[Hb|(σ2 & Hb & Ht)]]).
  - apply Hb. by eapply go_current.
  - by eapply go_defined.
  - by eapply go_aligned.
Qed.

(** A job of the loop stays in the page of its first instruction. *)
Lemma range_in_page pc up a : in_u 32 pc -> up <= roundup 32 64 pc PAGE_SIZE -> in_range (pc, up) a ->
  a / PAGE_SIZE = pc / PAGE_SIZE /\ (a - pc) mod 4 = 0.
Proof.
  intros Hpc Hup (k & Hk & -> & Hj). cbn [fst snd] in *. unfold TB_MAX_INSNS in Hk.
  destruct (decide (k = 0)) as [->|Hne]; [rewrite Z.mul_0_r, Z.add_0_r, uN_id by done; by rewrite Z.sub_diag|].
  pose proof Hpc as [? ?]. unfold roundup, PAGE_SIZE in *. rewrite (uN_id 64 (4096 - 1)) in Hup by (split; lia).
  rewrite (uN_id 64) in Hup by (split; lia).
  set (e := (pc + (4096 - 1)) / 4096 * 4096) in Hup. 
  assert (He : e <= 2 ^ 32 - 4096).
  { destruct (Z.le_gt_cases e (2 ^ 32 - 4096)) as [|Hgt]; [done|]. exfalso. 
    assert (Ee : e = 2 ^ 32) by (subst e; zlia). rewrite Ee in Hup. change (u32 (2 ^ 32)) with 0 in Hup.
    specialize (Hj k ltac:(lia)). pose proof (uN_range 32 (pc + 4 * k) ltac:(lia)) as [? ?]. lia. }
  rewrite uN_id in Hup by (split; subst e; zlia).
  assert (Hlt : pc + 4 * k < e).
  { destruct (Z.lt_ge_cases (pc + 4 * k) e) as [|Hge]; [done|]. exfalso.
    set (j := (e - pc + 3) / 4). assert (Hj1 : 0 < j <= k /\ e <= pc + 4 * j < e + 4 \/ e = pc /\ j = 0) by (subst j e; zlia).
    destruct Hj1 as [[Hj1 Hj2]|[Hj1 _]].
    - specialize (Hj j Hj1). rewrite uN_id in Hj by (split; lia). lia.
    - specialize (Hj 1 ltac:(lia)). rewrite uN_id in Hj by (split; lia). lia. }
  rewrite uN_id by (split; lia). split; subst e; zlia.
Qed.

Section loop.
Context (lay : layout) (E : Z) (texts : mem -> Prop).
Notation isteps := (isteps (lay_weaks lay)).
Notation interp_step := (dispatch (lay_weaks lay)).

(** ** The code generator: [CompilerGenRegionIR] and [GenerateCode]

    Regions of more than 255 virtual registers count as not compiled, since
    the register allocator may not return (see [CallOp_hangs]). *)
Definition job_segment (r : IpRange) : CodeSegment := mkSegment (rounddown 32 64 r.1 PAGE_SIZE) PAGE_SIZE.
Definition compile (j : Job) : option (list item) :=
  let '(r, m) := j in
  guard (0 <= r.1 < 2 ^ 32);;
  t ← Translate m [r];
  '(rn, _) ← QSelPass_run (t_rn t);
  guard (NumAll (vregs_info rn) <= 255);;
  qcg_GenerateCode true (job_segment r) (lay_stub lay) (lay_cacheptr lay) (t_rn t).
Definition compiled (j : Job) : bool := bool_decide (is_Some (compile j)).

(** How the run of a region ends. *)
Definition exit_of (o : mres) : rexit :=
  match o with
  | MSlot k ms => XSlot k (m_cpu ms, m_mem ms)
  | MJump a ms => XBrind a (m_cpu ms, m_mem ms)
  | MRaised ms => XTrap (m_cpu ms, m_mem ms)
  | MFault ms => XFault (m_cpu ms, m_mem ms)
  | MUndef | MBad => XWild
  end.

(** [host j g]: the host on entry to the code of [j]; its registers and stack
    hold what was left there. *)
Context (host : Job -> guest -> mach) (fuel : nat).
Definition run_code_of (j : Job) (g : guest) : option rexit :=
  items ← compile j;
  o ← arun (observer lay) fuel items 0 (host j g);
  Some (exit_of o).

(** Where the assembler puts the code of the jobs of the loop, and its branch
    slots. *)
Context (code_size : Job -> Z) (slot_offs : Job -> list Z).
Definition good (j : Job) : Prop := texts j.2 /\ j.1.2 <= roundup 32 64 j.1.1 PAGE_SIZE.
Definition slots_at (j : Job) : list (Z * Z) :=
  match compile j with Some items => zip (slot_offs j) (s_gip <$> slots_of items) | None => [] end.
Record assembled : Prop := {
  as_size : forall j, good j -> 0 < code_size j <= 2 ^ 32;
  as_count : forall j items, good j -> compile j = Some items -> length (slot_offs j) = length (slots_of items);
  as_room : forall j off, good j -> off ∈ slot_offs j -> 0 <= off /\ off + sizeof_BranchSlot <= code_size j;
  as_nodup : forall j, good j -> NoDup (slot_offs j) }.

(** ** The interpreter's run *)
Context (σ0 : hstate).
Definition at_guest (g : guest) (σ : hstate) : Prop :=
  gpr g.1 = gpr (h_cpu σ) /\ trapno g.1 = trapno (h_cpu σ) /\ g.2 = h_mem σ /\ ip g.1 = h_gip σ.
Definition interp_reaches (g : guest) : Prop := exists n σ, isteps n σ0 σ /\ at_guest g σ.
Definition interp_traps (g : guest) : Prop :=
  exists n σ2, interp_loop n (lay_weaks lay) σ0 = Some (Raised σ2) /\ g = (h_cpu σ2, h_mem σ2).
Definition interp_faults (g : guest) : Prop :=
  exists n σ2, interp_loop n (lay_weaks lay) σ0 = Some (Faulted σ2) /\ g = (h_cpu σ2, h_mem σ2).
Lemma interp_traps_at n σ1 σ2 : isteps n σ0 σ1 -> interp_step σ1 = Raised σ2 -> interp_traps (h_cpu σ2, h_mem σ2).
Proof. intros Hn Hs. exists (S n), σ2. by rewrite (isteps_loop _ _ _ _ Hn) by (by rewrite Hs); rewrite Hs. Qed.
Lemma interp_faults_at n σ1 σ2 : isteps n σ0 σ1 -> interp_step σ1 = Faulted σ2 -> interp_faults (h_cpu σ2, h_mem σ2).
Proof. intros Hn Hs. exists (S n), σ2. by rewrite (isteps_loop _ _ _ _ Hn) by (by rewrite Hs); rewrite Hs. Qed.

(** ** The laws of the loop *)
Context (HL : layout_ok lay) (HF : frame_ok lay E) (HC : clob_ok lay).
(** The host is entered with the state pointer, the stack of the trampoline
    and the guest state. *)
Definition host_enters : Prop :=
  forall j g, regs (host j g) STATE = lay_state lay /\ regs (host j g) RSP = E /\ m_cpu (host j g) = g.1 /\ m_mem (host j g) = g.2.
Context (Hhost : host_enters) (Hasm : assembled).
(** The interpreter starts well formed without a trap, and stays within what
    the translator implements. *)
Context (Hinv : hinv σ0) (Htrap : trapno (h_cpu σ0) = NONE) (Hguest : guest_ok (lay_weaks lay) texts σ0).

Lemma isteps_inv n σ σ' : isteps n σ σ' -> hinv σ -> trapno (h_cpu σ) = NONE -> hinv σ' /\ trapno (h_cpu σ') = NONE.
Proof.
  induction 1 as [σ|n σ σ1 σ2 Hs Hn IH]; intros Hi Ht; [done|].
  pose proof Hs as Hs'. unfold dispatch in Hs'. destruct (fetch (h_mem σ) (h_gip σ)) as [raw|]; [|done].
  pose proof (Handler_triple (lay_weaks lay) (Decoder.Decode raw) raw σ Hi) as H1. rewrite Hs' in H1.
  pose proof (Handler_trap (lay_weaks lay) (Decoder.Decode raw) raw σ Ht) as H2. rewrite Hs' in H2.
  by apply IH.
Qed.
Lemma compile_Some r m items :
  compile (r, m) = Some items -> in_u 32 r.1 /\ exists t rn hc, Translate m [r] = Some t /\ QSelPass_run (t_rn t) = Some (rn, hc) /\
    NumAll (vregs_info rn) <= 255 /\
    qcg_GenerateCode true (job_segment r) (lay_stub lay) (lay_cacheptr lay) (t_rn t) = Some items.
Proof.
  unfold compile. intros (Hr & _ & H)%bind_Some. apply bind_Some in H as (t & Ht & H). apply bind_Some in H as ([rn hc] & Hs & H).
  apply bind_Some in H as (HN & _ & H). split; [done|]. by exists t, rn, hc.
Qed.

Lemma host_enters_ok j g σ : running g -> at_guest (g_set_ip j.1.1 g) σ -> hinv σ -> enters (observer lay) E (host j g) σ.
Proof.
  intros (_ & _ & Hip) (Hg & Ht & Hm & _) Hi. destruct (Hhost j g) as (H1 & H2 & H3 & H4). cbn in Hg, Ht, Hm.
  pose proof (proj1 (hinv_wf σ) Hi) as ([Hl Hr0 _ _] & _ & Hmw).
  split; [|done|unfold holds; rewrite H3, H4; by split_and!]. split; [done|]. split; [done|]. rewrite H3, H4.
  unfold hweak. cbn [h_cpu h_gip h_mem]. rewrite Hg, Hm. by split_and!.
Qed.

(** The code of a job against the interpreter at its first instruction. *)
Lemma job_sim pc up m items σ :
  good (pc, up, m) -> compile (pc, up, m) = Some items -> guest_ok (lay_weaks lay) texts σ -> h_gip σ = pc ->
  forall ms, enters (observer lay) E ms σ ->
    (forall n o, arun (observer lay) n items 0 ms = Some o -> code_result (observer lay) true (job_segment (pc, up)) E items σ o) /\
    (forall k σ1, isteps k σ σ1 -> (forall σ2, interp_step σ1 <> Ret tt σ2) -> exists n o, arun (observer lay) n items 0 ms = Some o).
Proof.
  intros [Hm Hup] Hc Hg Hip ms Hen. cbn [fst snd] in Hm, Hup.
  destruct (compile_Some _ _ _ Hc) as (Hu & t & rn & hc & Ht & Hsel & HN & Hgen). cbn [fst] in Hu.
  destruct (compiled_code_sim (observer lay) true (job_segment (pc, up)) E m pc up [] t rn hc) as (items' & Hgen' & Hsim); try done.
  - by apply observer_ok.
  - by destruct HF.
  - by eapply go_wf.
  - intros a raw (r & Hr & Ha) Hraw. apply list_elem_of_singleton in Hr as ->. destruct (range_in_page pc up a Hu Hup Ha) as [Hp Hal].
    assert (Hpo : page_ok m pc) by (rewrite <- Hip; eapply go_insns; [done..|constructor]). by apply (Hpo a).
  - split; [apply NoDup_singleton|by apply Forall_singleton].
  - assert (items' = items) as -> by (cbn in Hgen'; congruence). apply (Hsim ms σ Hen Hip). by eapply guest_not_bad.
Qed.

(** What a run of compiled code means for the interpreter. *)
Lemma run_sound pc up m g x :
  good (pc, up, m) -> running g -> interp_reaches (g_set_ip pc g) -> run_code_of (pc, up, m) g = Some x ->
  exists items n σ o, compile (pc, up, m) = Some items /\ x = exit_of o /\ isteps n σ0 σ /\ hinv σ /\ trapno (h_cpu σ) = NONE /\
    code_result (observer lay) true (job_segment (pc, up)) E items σ o.
Proof.
  intros Hgood Hrun (n & σ & Hn & Hat) H. unfold run_code_of in H. apply bind_Some in H as (items & Hc & H).
  apply bind_Some in H as (o & Ho & [= <-]).
  destruct (isteps_inv n σ0 σ Hn Hinv Htrap) as (Hi & Htr).
  pose proof (guest_ok_steps _ _ _ _ _ Hn Hguest) as Hgo.
  destruct (job_sim pc up m items σ Hgood Hc Hgo) with (ms := host (pc, up, m) g) as [Hsound _]; [symmetry; apply Hat|by apply host_enters_ok|].
  exists items, n, σ, o. split_and!; try done. by eapply Hsound.
Qed.

Lemma holds_at ms σ : holds ms σ -> at_guest (g_set_ip (h_gip σ) (m_cpu ms, m_mem ms)) σ.
Proof. intros (H1 & H2 & _ & H3). by split_and!. Qed.
Lemma holds_running ms σ : holds ms σ -> hinv σ -> trapno (h_cpu σ) = NONE -> running (m_cpu ms, m_mem ms).
Proof.
  intros (H1 & H2 & H3 & _) Hi Ht. unfold running, get_gpr. cbn [fst]. rewrite H1, H2. split_and!; try done. apply Hi.
Qed.
#[local] Instance compiled_CodeGen : CodeGen good code_size slots_at (lay_stub lay id_link_branch_jit).
Proof.
  destruct Hasm as [h1 h2 h3 h4]. split.
  - exact h1.
  - intros j k off tgt Hj Hk. apply (h3 j off Hj). unfold slots_at in Hk. destruct (compile j) as [items|] eqn:Ec; [|done].
    apply list_elem_of_lookup. exists k. apply lookup_zip_with_Some in Hk as (a & b & [= -> ->] & Ha & _). exact Ha.
  - intros j Hj. unfold slots_at. destruct (compile j) as [items|] eqn:Ec; [|constructor].
    rewrite fst_zip; [by apply h4|]. rewrite (h2 j items Hj Ec), length_fmap. done.
  - pose proof (lo_stub64 lay HL id_link_branch_jit) as [? ?]. unfold in_u. lia.
Qed.

(** The interpreter's counterpart of an exit, and that it moved when control
    goes on. *)
Lemma result_exit j items σ o :
  good j -> compile j = Some items -> hinv σ -> trapno (h_cpu σ) = NONE ->
  code_result (observer lay) true (job_segment j.1) E items σ o ->
  (exists n σ', isteps (S n) σ σ' /\ exit_ok slots_at (fun g => at_guest g σ') (fun _ => False) (fun _ => False) j (exit_of o)) \/
  (exists n σ1 σ2 ms, isteps n σ σ1 /\ m_cpu ms = h_cpu σ2 /\ m_mem ms = h_mem σ2 /\
     (interp_step σ1 = Raised σ2 /\ trapno (m_cpu ms) <> NONE /\ o = MRaised ms \/ interp_step σ1 = Faulted σ2 /\ o = MFault ms)).
Proof.
  intros Hgood Hc Hi Ht. destruct o as [k ms|a ms|ms|ms| |]; cbn [code_result exit_of exit_ok]; try done.
  - intros (n & σ' & Hn & Hh & _ & Hsl). left. exists n, σ'. split; [done|].
    destruct (isteps_inv _ _ _ Hn Hi Ht) as (Hi' & Ht'). split; [by eapply holds_running|].
    pose proof (lookup_lt_Some _ _ _ Hsl) as Hlt. rewrite <- (as_count Hasm _ _ Hgood Hc) in Hlt.
    apply lookup_lt_is_Some in Hlt as [off Hoff]. exists off, (h_gip σ'). split; [|by apply holds_at].
    unfold slots_at. rewrite Hc. apply lookup_zip_with_Some. exists off, (h_gip σ'). split_and!; try done.
    by rewrite list_lookup_fmap, Hsl.
  - intros (n & σ' & Hn & _ & Hres). left. exists n, σ'. split; [done|].
    destruct (isteps_inv _ _ _ Hn Hi Ht) as (Hi' & Ht').
    cbv zeta in Hres. rewrite observer_misses in Hres. destruct Hres as (c & p & c' & H1 & H2 & H3 & Hb & -> & H4 & H5).
    cbn in Hb. injection Hb as <- <-. rewrite uN_id by (pose proof (proj1 (hinv_wf σ') Hi') as (_ & [? ?] & _); unfold in_u; lia).
    assert (Hh : holds ms σ') by (unfold holds; rewrite H4; by split_and!).
    split; [by eapply holds_running|by apply holds_at].
  - intros (n & σ1 & σ2 & Hn & Hs & Hcpu & Hmem). right. exists n, σ1, σ2, ms. split_and!; try done. left. split_and!; try done.
    destruct (isteps_inv _ _ _ Hn Hi Ht) as (_ & Ht'). rewrite Hcpu.
    change (lay_weaks (observer lay)) with (lay_weaks lay) in Hs. unfold dispatch in Hs.
    destruct (fetch (h_mem σ1) (h_gip σ1)) as [raw|]; [|done].
    pose proof (Handler_trap (lay_weaks lay) (Decoder.Decode raw) raw σ1 Ht') as H2. by rewrite Hs in H2.
  - intros (n & σ1 & σ2 & Hn & Hs & Hcpu & Hmem). right. exists n, σ1, σ2, ms. split_and!; try done. by right.
Qed.

#[local] Instance compiled_RegionSound : RegionSound good slots_at interp_reaches interp_traps interp_faults run_code_of.
Proof.
  split.
  - intros g (n & σ & Hn & H1 & H2 & H3 & H4). destruct (isteps_inv n σ0 σ Hn Hinv Htrap) as (Hi & Ht).
    unfold running, get_gpr. rewrite H1, H2, H4. split_and!; [done|apply Hi|apply Hi..].
  - intros g j (n & σ & Hn & _ & _ & H3 & _) (J1 & J2 & J3). split; [rewrite J3, H3; by eapply go_text|by rewrite J1].
  - intros pc up m g x Hgood Hrun Hr Hx.
    destruct (run_sound pc up m g _ Hgood Hrun Hr Hx) as (items & n & σ & o & Hc & -> & Hn & Hi & Ht & Hres).
    destruct (result_exit _ _ _ _ Hgood Hc Hi Ht Hres) as [(n' & σ' & Hn' & Hex)|(n' & σ1 & σ2 & ms & Hn' & Hcpu & Hmem & Hend)].
    + assert (Hto : forall g', at_guest g' σ' -> interp_reaches g').
      { intros g' H. exists (n + S n')%nat, σ'. split; [by eapply isteps_trans|done]. }
      destruct o as [k ms|a ms|ms|ms| |]; cbn [exit_of exit_ok] in *; [|destruct Hex; auto|by destruct Hex|done..].
      destruct Hex as (? & off & tgt & ? & ?). split; [done|]. exists off, tgt. auto.
    + assert (Hn2 : isteps (n + n') σ0 σ1) by (by eapply isteps_trans).
      destruct Hend as [(Hs & Htr & ->)|(Hs & ->)]; cbn [exit_of exit_ok fst]; [split; [done|]|]; rewrite Hcpu, Hmem;
        [by eapply interp_traps_at|by eapply interp_faults_at].
Qed.

Notation w_ok := (w_inv compiled good code_size slots_at (lay_stub lay id_link_branch_jit)).
Notation turns := (jsteps run_code_of compiled code_size slots_at (lay_stub lay id_link_branch_jit)).

Lemma turns_sim n w g : w_ok w -> at_guest g σ0 ->
  match turns n w (JLoop None g) with
  | POk (w', js) => w_ok w' /\ jsim interp_reaches interp_traps interp_faults w' js
  | PPanic => exists m w' js, (m < n)%nat /\ turns m w (JLoop None g) = POk (w', js) /\ exhausted_in compiled code_size w' js
  end.
Proof.
  intros HI Hg. apply (jsteps_sim run_code_of compiled good code_size slots_at _ interp_reaches interp_traps interp_faults).
  - intros g' (k & σ & Hk & _ & _ & _ & Hip). rewrite Hip. by eapply go_zero.
  - done.
  - right. split; [|done]. exists 0%nat, σ0. split; [constructor|done].
Qed.
End loop.

(** ** Coming to an end *)
Section live.
Context (lay : layout) (E : Z) (texts : mem -> Prop) (host : Job -> guest -> mach).
Context (code_size : Job -> Z) (slot_offs : Job -> list Z).
Context (HL : layout_ok lay) (HF : frame_ok lay E) (HC : clob_ok lay).
Context (Hhost : host_enters lay E host) (Hasm : assembled lay texts code_size slot_offs).
Notation isteps := (isteps (lay_weaks lay)).
Notation interp_step := (dispatch (lay_weaks lay)).
Notation slots := (slots_at lay slot_offs).
Notation link := (lay_stub lay id_link_branch_jit).
Notation w_ok := (w_inv (compiled lay) (good texts) code_size slots link).
Notation step fuel := (jstep (run_code_of lay host fuel) (compiled lay) code_size slots link).
Notation turns fuel := (jsteps (run_code_of lay host fuel) (compiled lay) code_size slots link).
Notation guest_ok := (guest_ok (lay_weaks lay) texts).

(** The loop or the code is at the instruction [σ] is at. *)
Definition never (g : guest) : Prop := False.
Notation at_js σ := (jsim (fun g => at_guest g σ) never never).

Lemma at_law σ : hinv σ -> trapno (h_cpu σ) = NONE -> guest_ok σ ->
  RegionSound (good texts) slots (fun g => at_guest g σ) never never (fun _ _ => None).
Proof.
  intros Hi Ht Hgo. split; try done.
  - intros g (H1 & H2 & H3 & H4). unfold running, get_gpr. rewrite H1, H2, H4.
    split_and!; [done|apply Hi|apply Hi..].
  - intros g j (_ & _ & H3 & _) (J1 & J2 & J3). split; [rewrite J3, H3; eapply go_text; [done|constructor]|by rewrite J1].
Qed.

(** More fuel does not change a run that has ended. *)
Lemma run_more fuel fuel' j g x :
  run_code_of lay host fuel j g = Some x -> (fuel <= fuel')%nat -> run_code_of lay host fuel' j g = Some x.
Proof.
  unfold run_code_of. intros (items & Hc & (o & Ho & [= <-])%bind_Some)%bind_Some Hle. rewrite Hc. cbn [mbind option_bind].
  replace fuel' with (fuel' - fuel + fuel)%nat by lia. by rewrite (arun_more _ _ _ _ _ _ _ Ho).
Qed.

(** One run of compiled code that the interpreter would leave. *)
Lemma run_ends pc up m g σ k σ1 :
  good texts (pc, up, m) -> compiled lay (pc, up, m) = true -> running g -> at_guest (g_set_ip pc g) σ -> hinv σ -> guest_ok σ ->
  isteps k σ σ1 -> (forall σ2, interp_step σ1 <> Ret tt σ2) ->
  exists fuel x, run_code_of lay host fuel (pc, up, m) g = Some x.
Proof.
  intros Hgood Hcomp Hrun Hat Hi Hgo Hk Hstop. apply bool_decide_eq_true in Hcomp as [items Hc].
  destruct (job_sim lay E texts HL HF HC pc up m items σ Hgood Hc Hgo) with (ms := host (pc, up, m) g) as [_ Hlive];
    [symmetry; apply Hat|by eapply host_enters_ok|].
  destruct (Hlive k σ1 Hk Hstop) as (fuel & o & Ho). exists fuel, (exit_of o). unfold run_code_of. rewrite Hc. cbn [mbind option_bind].
  by rewrite Ho.
Qed.

(** One run of compiled code, with all fuels that are enough. *)
Lemma code_step w p g σ k σ1 :
  w_ok w -> at_js σ w (JCode p g) -> hinv σ -> trapno (h_cpu σ) = NONE -> guest_ok σ ->
  isteps k σ σ1 -> (forall σ2, interp_step σ1 <> Ret tt σ2) ->
  exists N w' js', (forall fuel, (N <= fuel)%nat -> step fuel w (JCode p g) = POk (w', js')) /\ w_ok w' /\
    ((exists n σ', isteps (S n) σ σ' /\ at_js σ' w' js') \/
     (exists g', js' = JLoop None g' /\ trapno g'.1 <> NONE /\ interp_traps lay σ g') \/
     (exists g', js' = JFault g' /\ interp_faults lay σ g')).
Proof.
  intros HI (pc & (up & m0 & Hp) & Hr & Hat) Hi Ht Hgo Hk Hstop. pose proof (wi_compiles _ _ _ _ _ _ HI _ _ Hp) as Hcomp.
  pose proof (wi_good _ _ _ _ _ _ HI _ _ Hp) as Hgood.
  destruct (run_ends pc up m0 g σ k σ1 Hgood Hcomp Hr Hat Hi Hgo Hk Hstop) as (N & x & Hx). exists N.
  assert (Hstep : forall fuel, (N <= fuel)%nat -> step fuel w (JCode p g) = leave_code slots link (pc, up, m0) p x w).
  { intros fuel Hf. cbn [jstep]. rewrite Hp. cbn [pderef mbind pres_bind]. by rewrite (run_more _ _ _ _ _ Hx Hf). }
  assert (Hreach : interp_reaches lay σ (g_set_ip pc g)) by (exists 0%nat, σ; split; [constructor|done]).
  destruct (run_sound lay E texts host N σ HL HF HC Hhost Hi Ht Hgo pc up m0 g x Hgood Hr Hreach Hx)
    as (items & n & σa & o & Hc & -> & Hn & Hia & Hta & Hres).
  destruct (result_exit lay E texts code_size slot_offs Hasm _ _ _ _ Hgood Hc Hia Hta Hres)
    as [(m & σ' & Hm & Hex)|(m & σ2 & σ3 & ms & Hm & Hcpu & Hmem & Hend)].
  - assert (Hn' : isteps (S (n + m)) σ σ') by (replace (S (n + m)) with (n + S m)%nat by lia; by eapply isteps_trans).
    destruct (isteps_inv lay _ _ _ Hn' Hi Ht) as (Hi' & Ht'). pose proof (guest_ok_steps _ _ _ _ _ Hn' Hgo) as Hgo'.
    destruct (leave_sim (fun _ _ => None) (compiled lay) (good texts) code_size slots link (fun g => at_guest g σ') never never
      (CG := compiled_CodeGen lay texts code_size slot_offs HL Hasm) (RS := at_law σ' Hi' Ht' Hgo') p (pc, up, m0) (exit_of o) w HI Hp Hex)
      as (w' & js' & Hl & HI' & Hjs).
    { intros g' Eo. rewrite Eo in Hex. destruct Hex as (_ & _ & _ & _ & Hip). by apply (go_zero _ _ _ Hgo _ _ Hn'). }
    exists w', js'. rewrite Hl in Hstep. split; [done|]. split; [done|]. left. by exists (n + m)%nat, σ'.
  - assert (Hn2 : isteps (n + m) σ σ2) by (by eapply isteps_trans).
    destruct Hend as [(Hs & Htr & ->)|(Hs & ->)]; cbn [exit_of leave_code] in Hstep; rewrite Hcpu, Hmem in *.
    + exists w, (JLoop None (h_cpu σ3, h_mem σ3)). split; [done|]. split; [done|]. right. left. eexists. split; [done|]. split; [done|].
      by eapply interp_traps_at.
    + exists w, (JFault (h_cpu σ3, h_mem σ3)). split; [done|]. split; [done|]. right. right. eexists. split; [done|].
      by eapply interp_faults_at.
Qed.

(** A turn of the loop enters code. *)
Lemma loop_enters run cs sl li bs g w w' js :
  jstep run (compiled lay) cs sl li w (JLoop bs g) = POk (w', js) -> js = JDone g \/ exists p, js = JCode p g.
Proof.
  cbn [jstep]. destruct (HandleTrap g.1); [intros [= <- <-]; by left|].
  intros ([] & _ & H)%pbind_ok. apply pbind_ok in H as (b & _ & H). apply pbind_ok in H as ([] & _ & H).
  apply pbind_ok in H as ([tb w1] & _ & H). apply pbind_ok in H as (w2 & _ & H). apply pbind_ok in H as (t & _ & [= <- <-]).
  right. by eexists.
Qed.

(** How a finished run of the loop looks. *)
Definition finished (σ : hstate) (r : pres (world * jstate)) : Prop :=
  match r with
  | POk (_, JDone g) => interp_traps lay σ g
  | POk (_, JFault g) => interp_faults lay σ g
  | POk _ => False
  | PPanic => True
  end.
Lemma finished_steps n σ σ' r : isteps n σ σ' -> finished σ' r -> finished σ r.
Proof.
  intros Hn. destruct r as [[w [| |g|g]]|]; try done;
    (intros (m & σ2 & Hm & H); exists (n + m)%nat, σ2; split; [by rewrite (isteps_loop_add _ _ _ _ _ Hn)|done]).
Qed.
Lemma turns_S fuel n w js w' js' : step fuel w js = POk (w', js') -> turns fuel (S n) w js = turns fuel n w' js'.
Proof. intros H. cbn [jsteps]. by rewrite H. Qed.

Lemma turns_finish k : forall σ σ1 w js,
  isteps k σ σ1 -> (forall σ2, interp_step σ1 <> Ret tt σ2) -> w_ok w -> at_js σ w js -> hinv σ -> trapno (h_cpu σ) = NONE -> guest_ok σ ->
  exists N n, forall fuel, (N <= fuel)%nat -> finished σ (turns fuel n w js).
Proof.
  induction (lt_wf k) as [k _ IH]. intros σ σ1 w js Hk Hstop HI Hjs Hi Ht Hgo.
  assert (Hcode_case : forall w p g, w_ok w -> at_js σ w (JCode p g) ->
    exists N n, forall fuel, (N <= fuel)%nat -> finished σ (turns fuel n w (JCode p g))).
  { clear w js HI Hjs. intros w p g HI Hjs.
    destruct (code_step w p g σ k σ1 HI Hjs Hi Ht Hgo Hk Hstop) as (N & w' & js' & Hst & HI' & [(m & σ' & Hm & Hjs')|[(g' & -> & Htr & Hg)|(g' & -> & Hg)]]).
    - assert (Hle : (S m <= k)%nat).
      { destruct (le_lt_dec (S m) k) as [|Hlt]; [done|]. exfalso. pose proof (isteps_det _ _ _ _ _ _ Hk Hm ltac:(lia)) as Hd.
        destruct (S m - k)%nat as [|d] eqn:Ed; [lia|]. inversion Hd as [|? ? σ2 ? Hs _]; subst. by apply (Hstop σ2). }
      destruct (isteps_inv lay _ _ _ Hm Hi Ht) as (Hi' & Ht'). pose proof (guest_ok_steps _ _ _ _ _ Hm Hgo) as Hgo'.
      destruct (IH (k - S m)%nat ltac:(lia) σ' σ1 w' js') as (N' & n & Hfin); try done.
      { by apply (isteps_det _ _ _ _ _ _ Hm Hk). }
      exists (max N N'), (S n). intros fuel Hf. rewrite (turns_S _ _ _ _ _ _ (Hst fuel ltac:(lia))).
      eapply finished_steps; [exact Hm|]. apply Hfin. lia.
    - exists N, 2%nat. intros fuel Hf. rewrite (turns_S _ _ _ _ _ _ (Hst fuel ltac:(lia))). cbn [jsteps jstep].
      unfold HandleTrap, IsTrapPending. rewrite bool_decide_false by done. exact Hg.
    - exists N, 1%nat. intros fuel Hf. rewrite (turns_S _ _ _ _ _ _ (Hst fuel ltac:(lia))). exact Hg. }
  destruct js as [bs g|p g|g|g]; [|by apply Hcode_case|by destruct Hjs as [_ []]|by destruct Hjs].
  pose proof (loop_sim (fun _ _ => None) (compiled lay) (good texts) code_size slots link (fun g => at_guest g σ) never never
    (CG := compiled_CodeGen lay texts code_size slot_offs HL Hasm) (RS := at_law σ Hi Ht Hgo) bs g w HI Hjs) as Hl.
  destruct (jstep (fun _ _ => None) (compiled lay) code_size slots link w (JLoop bs g)) as [[w' js']|] eqn:Es.
  - destruct Hl as [HI' Hjs']. destruct (loop_enters _ _ _ _ _ _ _ _ _ Es) as [->|[p ->]]; [by destruct Hjs' as [_ []]|].
    destruct (Hcode_case w' p g HI' Hjs') as (N & n & Hfin). exists N, (S n). intros fuel Hf.
    rewrite (turns_S fuel n w (JLoop bs g) w' (JCode p g) Es). by apply Hfin.
  - exists 0%nat, 1%nat. intros fuel _. cbn [jsteps]. change (step fuel w (JLoop bs g)) with (jstep (fun _ _ => None) (compiled lay) code_size slots link w (JLoop bs g)).
    by rewrite Es.
Qed.
End live.

(** ** Running a guest *)

(** The interpreter is started on the guest of the loop: [interp_traps],
    [interp_faults] and [isteps] from [start g] are about
    [Interpreter_Execute] on the registers and the memory of [g]. *)
Definition start (g : guest) : hstate := mkH g.1 (ip g.1) g.2.
Lemma start_Execute fuel weaks g : interp_loop fuel weaks (start g) = Interpreter_Execute fuel weaks g.1 g.2.
Proof. reflexivity. Qed.

(** A host and a state of the loop from which [Execute] runs the guest [g0]:
    the guest keeps to what the translator implements ([guest_ok]) and the
    code that is there already was compiled from memories among [texts]. *)
Record jit_ok (lay : layout) (E : Z) (texts : mem -> Prop) (host : Job -> guest -> mach) (code_size : Job -> Z)
    (slot_offs : Job -> list Z) (w0 : world) (g0 : guest) : Prop := {
  jo_layout : layout_ok lay; jo_frame : frame_ok lay E; jo_clob : clob_ok lay;
  jo_host : host_enters lay E host; jo_asm : assembled lay texts code_size slot_offs;
  jo_inv : hinv (start g0); jo_trap : trapno g0.1 = NONE; jo_guest : guest_ok (lay_weaks lay) texts (start g0);
  jo_world : w_inv (compiled lay) (good texts) code_size (slots_at lay slot_offs) (lay_stub lay id_link_branch_jit) w0 }.

(** [n] turns of [Execute], with [fuel] for each run of generated code. *)
Definition execute (lay : layout) (host : Job -> guest -> mach) (code_size : Job -> Z)
    (slot_offs : Job -> list Z) (fuel n : nat) (w : world) (g : guest) : pres (world * jstate) :=
  jsteps (run_code_of lay host fuel) (compiled lay) code_size (slots_at lay slot_offs)
    (lay_stub lay id_link_branch_jit) n w (JLoop None g).

(** C1 The translator as a whole is correct: [Execute] with code that the
    translator and the back end generate from the guest memory of the moment,
    in whatever order blocks are compiled, linked, cached and entered, does
    what the interpreter does, which fetches from the guest memory of the
    moment.  After any number of turns, and however long each run of generated
    code may take, the guest is in a state the interpreter reaches; [Execute]
    returns only with the trap [Interpreter_Execute] returns with, in its
    state, and a memory fault is the interpreter's; nothing panics unless a
    pool is full or a range is not compiled.  The guest must not execute an
    instruction that it modified, jump to a misaligned address or to address
    0, use an atomic operation outside its contract, or have a load into [x0]
    at offset zero in its code ([guest_ok]). *)
Theorem Execute_compiled_correct lay E texts host code_size slot_offs w0 g0 fuel n :
  jit_ok lay E texts host code_size slot_offs w0 g0 ->
  match execute lay host code_size slot_offs fuel n w0 g0 with
  | POk (_, JDone g) => interp_traps lay (start g0) g
  | POk (_, JFault g) => interp_faults lay (start g0) g
  | POk (_, JLoop _ g) => interp_reaches lay (start g0) g \/ interp_traps lay (start g0) g
  | POk (w, JCode p g) => exists pc up m, w_code w !! p = Some (pc, up, m) /\ interp_reaches lay (start g0) (g_set_ip pc g)
  | PPanic => exists m w js, (m < n)%nat /\ execute lay host code_size slot_offs fuel m w0 g0 = POk (w, js) /\
      exhausted_in (compiled lay) code_size w js
  end.
Proof.
  intros [h1 h2 h3 h4 h5 h6 h7 h8 h9].
  pose proof (turns_sim lay E texts host fuel code_size slot_offs (start g0) h1 h2 h3 h4 h5 h6 h7 h8 n w0 g0 h9 ltac:(done)) as H.
  unfold execute. destruct (jsteps _ _ _ _ _ n w0 _) as [[w js]|]; [|exact H]. destruct H as [_ H].
  destruct js as [bs g|p g|g|g]; cbn in H; [destruct H as [[_ ?]|[? _]]; auto| |by destruct H|done].
  destruct H as (pc & (up & m & ?) & _ & ?). by exists pc, up, m.
Qed.

(** C14 And it gets there: when the interpreter leaves its loop after some
    number of instructions, with a trap or a memory fault, so does [Execute],
    after finitely many turns and steps of generated code, with the state of
    the interpreter, unless a pool is full or a range is not compiled.  The
    conditions are those of [Execute_compiled_correct]. *)
Theorem Execute_compiled_finishes lay E texts host code_size slot_offs w0 g0 k o :
  jit_ok lay E texts host code_size slot_offs w0 g0 ->
  Interpreter_Execute k (lay_weaks lay) g0.1 g0.2 = Some o ->
  exists fuel0 n, forall fuel, (fuel0 <= fuel)%nat ->
    match execute lay host code_size slot_offs fuel n w0 g0 with
    | POk (_, JDone g) => interp_traps lay (start g0) g
    | POk (_, JFault g) => interp_faults lay (start g0) g
    | POk _ => False
    | PPanic => exists m w js, (m < n)%nat /\ execute lay host code_size slot_offs fuel m w0 g0 = POk (w, js) /\
        exhausted_in (compiled lay) code_size w js
    end.
Proof.
  intros [h1 h2 h3 h4 h5 h6 h7 h8 h9] Hk. rewrite <- start_Execute in Hk.
  destruct (loop_isteps _ _ _ _ Hk) as (j & σ1 & _ & Hj & Ho & Hstop).
  destruct (turns_finish lay E texts host code_size slot_offs h1 h2 h3 h4 h5 j (start g0) σ1 w0 (JLoop None g0)) as (N & n & H); try done.
  { intros σ2. by rewrite Ho. }
  { by right. }
  exists N, n. intros fuel Hf. specialize (H fuel Hf).
  pose proof (turns_sim lay E texts host fuel code_size slot_offs (start g0) h1 h2 h3 h4 h5 h6 h7 h8 n w0 g0 h9 ltac:(done)) as Hs.
  unfold execute. by destruct (jsteps _ _ _ _ _ n w0 _) as [[w [| |g|g]]|].
Qed.

(** ** A concrete guest: a jump over an unmapped word to an [ecall] *)
Definition jump_mem : mem := put_le 4 (mem_of_words 0x1000c [0x73]) 0x10004 0x0080006f.
Definition jump_cpu : CPUState := set_ip 0x10004 CPUState_init.
Definition jump_start : hstate := mkH jump_cpu 0x10004 jump_mem.
Definition jump_host (_ : Job) (g : guest) : mach := mkM (regs demo_mach) None g.1 ∅ g.2.
Definition jump_texts (m : mem) : Prop := m = jump_mem.

Lemma jump_dispatch σ : h_gip σ = 0x10004 -> h_mem σ = jump_mem ->
  exists σ', dispatch [] σ = Ret tt σ' /\ h_gip σ' = 0x1000c /\ h_mem σ' = jump_mem.
Proof.
  intros Eg Em. unfold dispatch, fetch. rewrite Eg, Em. change (load_le 4 jump_mem 0x10004) with (Some 0x0080006f).
  change (Decoder.Decode 0x0080006f) with insn._jal. destruct σ as [c gip m]. cbn in Eg, Em. subst gip m. eexists.
  split; [reflexivity|]. split; reflexivity.
Qed.
Lemma jump_ecall σ : h_gip σ = 0x1000c -> h_mem σ = jump_mem ->
  exists σ', dispatch [] σ = Raised σ' /\ trapno (h_cpu σ') = ECALL.
Proof.
  intros Eg Em. unfold dispatch, fetch. rewrite Eg, Em. change (load_le 4 jump_mem 0x1000c) with (Some 0x73).
  change (Decoder.Decode 0x73) with insn._ecall. destruct σ as [c gip m]. eexists. split; reflexivity.
Qed.
Lemma jump_run n σ : isteps [] n jump_start σ -> (h_gip σ = 0x10004 \/ h_gip σ = 0x1000c) /\ h_mem σ = jump_mem.
Proof.
  intros H. inversion H as [|n1 ? σ1 ? E1 H1]; subst; [split; [by left|reflexivity]|].
  destruct (jump_dispatch jump_start eq_refl eq_refl) as (σ' & E' & Hg & Hm). rewrite E' in E1. injection E1 as <-.
  inversion H1 as [|n2 ? σ2 ? E2 H2]; subst; [split; [by right|done]|].
  destruct (jump_ecall σ' Hg Hm) as (σ3 & E3 & _). congruence.
Qed.

(** Only the two instructions can be compiled. *)
Lemma loop_unmapped code fuel n up t : load_le 4 code (insn_ip t) = None -> translate_loop code fuel n up t = None.
Proof.
  intros Hu. destruct fuel as [|fuel]; [done|]. cbn [translate_loop]. unfold TranslateInsn, mbind, TM_bind, t_get. cbn [mbind option_bind].
  by rewrite Hu.
Qed.
Lemma Translate_unmapped code pc up : load_le 4 code pc = None -> Translate code [(pc, up)] = None.
Proof.
  intros Hu. unfold Translate. cbn [create_blocks translate_ranges]. unfold TranslateIPRange. unfold mbind, TM_bind. cbn.
  unfold t_assert. destruct (negb (up =? 0)); [|done]. cbn. rewrite lookup_empty, lookup_insert_eq. by rewrite loop_unmapped.
Qed.
Lemma jump_mapped pc : is_Some (load_le 4 jump_mem pc) -> pc = 0x10004 \/ pc = 0x1000c.
Proof.
  rewrite <- load_le_mapped. intros H. pose proof (mapped_lookup 4 _ _ 0 H ltac:(lia)) as H0. pose proof (mapped_lookup 4 _ _ 3 H ltac:(lia)) as H3.
  assert (Hd : forall x, is_Some (jump_mem !! x) -> x ∈ [0x10004; 0x10005; 0x10006; 0x10007; 0x1000c; 0x1000d; 0x1000e; 0x1000f]).
  { assert (HF : Forall (fun x => x ∈ [0x10004; 0x10005; 0x10006; 0x10007; 0x1000c; 0x1000d; 0x1000e; 0x1000f]) (map_to_list jump_mem).*1)
      by (apply (bool_decide_unpack _); vm_compute; exact I).
    intros x [v Hx]. apply elem_of_map_to_list in Hx. rewrite Forall_forall in HF. apply HF, list_elem_of_fmap. by exists (x, v). }
  apply Hd in H0, H3. rewrite Z.add_0_r in H0. clear Hd H. set_unfold. lia.
Qed.
Lemma jump_compile pc up : pc = 0x10004 \/ pc = 0x1000c ->
  compile demo_layout (pc, up, jump_mem) = None \/ compile demo_layout (pc, up, jump_mem) = compile demo_layout (pc, 1, jump_mem).
Proof.
  intros [-> | ->]; (destruct up as [|p|p]; [left; vm_compute; reflexivity|right; vm_compute; reflexivity..]).
Qed.

(** The code of a job is put down with its branch slots in the middle. *)
Definition jump_size (_ : Job) : Z := 4096.
Definition jump_offs (j : Job) : list Z :=
  match compile demo_layout j with
  | Some items => (fun i => 64 + 32 * Z.of_nat i) <$> seq 0 (length (slots_of items))
  | None => []
  end.
Lemma jump_slots j items : good jump_texts j -> compile demo_layout j = Some items -> (length (slots_of items) <= 1)%nat.
Proof.
  destruct j as [[pc up] m]. intros [Hm _] Hc. cbn in Hm. unfold jump_texts in Hm. subst m. assert (Hpc : pc = 0x10004 \/ pc = 0x1000c).
  { apply jump_mapped. destruct (compile_Some _ _ _ _ Hc) as (_ & t & _ & _ & Ht & _).
    destruct (load_le 4 jump_mem pc) eqn:El; [by eexists|]. by rewrite Translate_unmapped in Ht. }
  destruct (jump_compile pc up Hpc) as [E|E]; rewrite E in Hc; [done|].
  assert (Hb : match compile demo_layout (pc, 1, jump_mem) with Some its => bool_decide (length (slots_of its) <= 1)%nat | None => true end = true)
    by (destruct Hpc as [-> | ->]; vm_compute; reflexivity).
  rewrite Hc in Hb. by apply bool_decide_eq_true in Hb.
Qed.
Lemma jump_assembled : assembled demo_layout jump_texts jump_size jump_offs.
Proof.
  split.
  - intros j _. unfold jump_size. lia.
  - intros j items _ Hc. unfold jump_offs. rewrite Hc, length_fmap, length_seq. done.
  - intros j off Hj. unfold jump_offs, jump_size, sizeof_BranchSlot. destruct (compile _ j) as [items|] eqn:Hc; [|by intros ?%elem_of_nil].
    intros (i & -> & Hi)%list_elem_of_fmap. apply elem_of_seq in Hi. pose proof (jump_slots j items Hj Hc). lia.
  - intros j _. unfold jump_offs. destruct (compile _ j) as [items|] eqn:Hc; [|constructor].
    apply NoDup_fmap_2; [|apply NoDup_seq]. intros i i' ?. lia.
Qed.

Lemma jump_mem_wf : mem_wf jump_mem.
Proof. apply mem_wf_put, mem_of_words_wf. Qed.
Lemma jump_insns pc : page_ok jump_mem pc.
Proof.
  intros a raw _ _ Hraw.
  assert (Ha : a = 0x10004 \/ a = 0x1000c) by (apply jump_mapped; rewrite Hraw; by eexists).
  destruct Ha as [-> | ->]; [change (load_le 4 jump_mem 0x10004) with (Some 0x0080006f) in Hraw|
    change (load_le 4 jump_mem 0x1000c) with (Some 0x73) in Hraw]; injection Hraw as <-; reflexivity.
Qed.
Lemma jump_guest : guest_ok [] jump_texts jump_start.
Proof.
  split.
  - intros m ->. exact jump_mem_wf.
  - intros n σ Hn. by destruct (jump_run n σ Hn).
  - intros m n σ -> Hn. destruct (jump_run n σ Hn) as [_ Hm]. by rewrite Hm.
  - intros m n σ -> _. apply jump_insns.
  - intros n σ Hn. destruct (jump_run n σ Hn) as [[Hg|Hg] Hm].
    + destruct (jump_dispatch σ Hg Hm) as (σ' & E & _). by rewrite E.
    + destruct (jump_ecall σ Hg Hm) as (σ' & E & _). by rewrite E.
  - intros n σ σ2 Hn. destruct (jump_run n σ Hn) as [[Hg|Hg] Hm].
    + destruct (jump_dispatch σ Hg Hm) as (σ' & E & _). by rewrite E.
    + destruct (jump_ecall σ Hg Hm) as (σ' & E & Ht). rewrite E. intros [= <-]. by rewrite Ht.
  - intros n σ Hn. by destruct (jump_run n σ Hn) as [[-> | ->] _].
Qed.

Lemma jump_jit_ok : jit_ok demo_layout demo_sp jump_texts jump_host jump_size jump_offs (mkW demo_tc ∅ ∅) (jump_cpu, jump_mem).
Proof.
  split.
  - exact demo_layout_ok.
  - exact demo_frame_ok.
  - exact demo_clob_ok.
  - by intros j g.
  - exact jump_assembled.
  - apply hinv_wf. split_and!; [apply cpu_wf_set_ip; [apply cpu_wf_init|by split]|by split|exact jump_mem_wf].
  - reflexivity.
  - exact jump_guest.
  - apply (start_inv _ _ _ _ _ _ _ _ _ demo_tc_init); lia.
Qed.

Lemma Execute_compiled_correct_witness :
  exists w g, execute demo_layout jump_host jump_size jump_offs 100 6 (mkW demo_tc ∅ ∅) (jump_cpu, jump_mem) = POk (w, JDone g) /\
    interp_traps demo_layout (start (jump_cpu, jump_mem)) g.
Proof.
  assert (Hd : match execute demo_layout jump_host jump_size jump_offs 100 6 (mkW demo_tc ∅ ∅) (jump_cpu, jump_mem) with
    | POk (_, JDone _) => true | _ => false end = true) by (vm_compute; reflexivity).
  pose proof (Execute_compiled_correct demo_layout demo_sp jump_texts jump_host jump_size jump_offs (mkW demo_tc ∅ ∅)
    (jump_cpu, jump_mem) 100 6 jump_jit_ok) as H.
  destruct (execute demo_layout jump_host jump_size jump_offs 100 6 (mkW demo_tc ∅ ∅) (jump_cpu, jump_mem))
    as [[w [| |g|]]|]; try discriminate Hd.
  exists w, g. split; [reflexivity|exact H].
Defined.

Lemma jump_traps : exists o, Interpreter_Execute 2 [] jump_cpu jump_mem = Some o.
Proof.
  assert (H : match Interpreter_Execute 2 [] jump_cpu jump_mem with Some _ => true | None => false end = true) by (vm_compute; reflexivity).
  destruct (Interpreter_Execute 2 [] jump_cpu jump_mem) as [o|]; [by exists o|discriminate H].
Qed.
Lemma Execute_compiled_finishes_witness :
  exists fuel0 n, forall fuel, (fuel0 <= fuel)%nat ->
    match execute demo_layout jump_host jump_size jump_offs fuel n (mkW demo_tc ∅ ∅) (jump_cpu, jump_mem) with
    | POk (_, JDone g) => interp_traps demo_layout (start (jump_cpu, jump_mem)) g
    | POk (_, JFault g) => interp_faults demo_layout (start (jump_cpu, jump_mem)) g
    | POk _ => False
    | PPanic => True
    end.
Proof.
  destruct jump_traps as (o & Ho).
  destruct (Execute_compiled_finishes demo_layout demo_sp jump_texts jump_host jump_size jump_offs (mkW demo_tc ∅ ∅)
    (jump_cpu, jump_mem) 2 o jump_jit_ok Ho) as (fuel0 & n & H).
  exists fuel0, n. intros fuel Hf. specialize (H fuel Hf). destruct (execute _ _ _ _ _ _ _ _) as [[w [| |g|g]]|]; done.
Defined.

(** ** The inlined lookup

    On the host whose cache and stub are those of the world [w], code that
    ends in an indirect branch jumps where [brind_inlined] goes: the lookup
    that the emitter generates is the one the loop is modelled with. *)
Definition host_of (lay : layout) (escape : Z) (w : world) : layout :=
  mkLayout (lay_state lay) (lay_stack lay) (lay_cacheptr lay) (lay_stub lay)
    (fun h => default (0, 0) (l1_brind_cache (w_tc w) !! Z.to_nat h))
    (fun gip c m =>
       match qcgstub_brind gip (c, m) w with
       | POk (_, JCode p g) => (p, g.1)
       | POk (_, JLoop _ g) => (escape, g.1)
       | _ => (0, c)
       end)
    (lay_clob lay) (lay_weaks lay).

Lemma stub_keeps gip g w : match qcgstub_brind gip g w with
  | POk (_, JCode _ g') | POk (_, JLoop _ g') => g' = g_set_ip gip g
  | POk _ => False
  | PPanic => True
  end.
Proof.
  unfold qcgstub_brind. destruct (Lookup gip (w_tc w)) as [[[tb|] tc]|]; cbn [mbind pres_bind]; try done.
  destruct (CacheBrind tb tc) as [tc'|]; cbn [mbind pres_bind]; [|done]. destruct (tb_mem tc' !! tb) as [t|]; done.
Qed.

Theorem gbrind_is_brind_inlined lay escape w E seg items σ a ms :
  code_result (host_of lay escape w) true seg E items σ (MJump a ms) ->
  exists n σ' g, isteps (lay_weaks lay) (S n) σ σ' /\ at_guest (g_set_ip (h_gip σ') g) σ' /\
    match brind_inlined (h_gip σ') g w with
    | POk (_, JCode p g') => u64 a = u64 p /\ (m_cpu ms, m_mem ms) = g'
    | POk (_, JLoop _ g') => a = u64 escape /\ (m_cpu ms, m_mem ms) = g'
    | POk _ => False
    | PPanic => True
    end.
Proof.
  intros (n & σ' & Hn & _ & H). cbv zeta in H. exists n, σ'.
  assert (Ee : lay_cache (host_of lay escape w) (l1hash (h_gip σ')) = default (0, 0) (l1_brind_cache (w_tc w) !! l1idx (h_gip σ'))) by done.
  rewrite Ee in H. unfold brind_inlined.
  destruct (l1_brind_cache (w_tc w) !! l1idx (h_gip σ')) as [[cgip ptr]|]; cbn [default from_option fst snd] in H; unfold id in H.
  - cbn [fst snd] in H. destruct (cgip =? h_gip σ').
    + destruct H as (-> & H1 & H2 & _ & H3). exists (m_cpu ms, m_mem ms). split; [done|]. by split_and!.
    + destruct H as (c & p & c' & H1 & H2 & _ & Hb & -> & H4 & H5). exists (c, h_mem σ'). split; [done|]. split; [by split_and!|].
      cbn [lay_brind host_of] in Hb. pose proof (stub_keeps (h_gip σ') (c, h_mem σ') w) as Hk.
      destruct (qcgstub_brind _ _ _) as [[w' [bs g'|q g'| |]]|]; try done; injection Hb as <- <-; subst g'.
      * split; [done|]. cbn. by rewrite H4, H5.
      * split; [unfold uN; by rewrite Z.mod_mod|]. cbn. by rewrite H4, H5.
  - cbn [fst snd] in H. destruct (0 =? h_gip σ').
    + destruct H as (_ & H1 & H2 & _ & H3). exists (m_cpu ms, m_mem ms). split; [done|]. by split_and!.
    + destruct H as (c & p & c' & H1 & H2 & _). exists (c, h_mem σ'). split; [done|]. by split_and!.
Qed.
