(* ===== verification/JitFrames.v ===== *)
(** * Frames of generated code (src/dbt/qmc/qcg/jitabi.cpp)

    The routines written in assembly: [trampoline_to_jit] builds the frame of
    generated code and enters it, the escape stubs take the frame down and
    return to the caller of the trampoline, the link stubs call [TryLinkBranch]
    and go where it says, the trace stub keeps all registers.  The state is the
    sixteen registers and the memory of the stack and the [CPUState], which are
    mapped.  C functions called from a stub are a parameter that follows the
    System V convention.  The trace ring is at the end. *)

From stdpp Require Import base tactics numbers list gmap.
From S2P Require Import Prelude Common GuestState Qir ArchTraits BranchSlot Amd64.

Record hstate := mkHs { hr : list Z; hm : mem }.
Definition rget (r : Z) (s : hstate) : Z := hr s !!! Z.to_nat r.
Definition rset (r v : Z) (s : hstate) : hstate := mkHs (<[Z.to_nat r := v]> (hr s)) (hm s).
Definition hwrite (a v : Z) (s : hstate) : hstate := mkHs (hr s) (put_le 8 (hm s) a v).

Inductive hinsn :=
| Hpushq (r : Z)
| Hpopq (r : Z)
| Hmovq (s d : Z)
| Hsubq_rsp (n : Z)
| Haddq_rsp (n : Z)
| Hleaq (disp base d : Z)
| Hload (disp base d : Z)
| Hstore (s disp base : Z)
| Hxorq (r : Z)
| Hcallq_reg (r ret : Z)
| Hcallq_c (ret : Z)
| Hjmpq_reg (r : Z)
| Hretq
| Hint3.

(** How a routine is left: it enters code (with a return address), jumps,
    returns; it stops on a breakpoint or a fault. *)
Inductive hout := HEnter (target : Z) (s : hstate) | HJump (target : Z) (s : hstate) | HRet (target : Z) (s : hstate) | HStop.

Section exec.
(** The C function the routine calls, from its first to behind its last
    instruction. *)
Context (callee : hstate -> hstate).

Definition push (v : Z) (s : hstate) : hstate := let sp := u64 (rget RSP s - 8) in hwrite sp v (rset RSP sp s).
Definition pop (s : hstate) : option (Z * hstate) :=
  v ← load_le 8 (hm s) (rget RSP s); Some (v, rset RSP (u64 (rget RSP s + 8)) s).

Fixpoint run (l : list hinsn) (s : hstate) : hout :=
  match l with
  | [] => HStop
  | Hpushq r :: l => run l (push (rget r s) s)
  | Hpopq r :: l => match pop s with Some (v, s) => run l (rset r v s) | None => HStop end
  | Hmovq a b :: l => run l (rset b (rget a s) s)
  | Hsubq_rsp n :: l => run l (rset RSP (u64 (rget RSP s - n)) s)
  | Haddq_rsp n :: l => run l (rset RSP (u64 (rget RSP s + n)) s)
  | Hleaq disp base d :: l => run l (rset d (u64 (rget base s + disp)) s)
  | Hload disp base d :: l => match load_le 8 (hm s) (u64 (rget base s + disp)) with Some v => run l (rset d v s) | None => HStop end
  | Hstore r disp base :: l => run l (hwrite (u64 (rget base s + disp)) (rget r s) s)
  | Hxorq r :: l => run l (rset r 0 s)
  | Hcallq_reg r ret :: _ => HEnter (rget r s) (push ret s)
  | Hcallq_c ret :: l =>
      match pop (callee (push ret s)) with Some (_, s) => run l s | None => HStop end
  | Hjmpq_reg r :: _ => HJump (rget r s) s
  | Hretq :: _ => match pop s with Some (ra, s) => HRet ra s | None => HStop end
  | Hint3 :: _ => HStop
  end.
End exec.

(** ** The routines; [ret] is the address behind the call they make *)
Definition offs_sp_unwindptr : Z := offs_stub_tab + 8 * Z.of_nat (length all_stubs).

Definition trampoline_to_jit (ret : Z) : list hinsn :=
  [Hpushq RBP; Hpushq RBX; Hpushq R12; Hpushq R13; Hpushq R14; Hpushq R15;
   Hmovq RDI R13; Hmovq RSI RBP;
   Hsubq_rsp (spillframe_size + 8);
   Hleaq (-8) RSP RSI;
   Hstore RSI offs_sp_unwindptr R13;
   Hcallq_reg RDX ret;
   Hint3].

Definition pop_saved : list hinsn := [Hpopq R15; Hpopq R14; Hpopq R13; Hpopq R12; Hpopq RBX; Hpopq RBP].
Definition qcgstub_escape_link : list hinsn := Haddq_rsp (spillframe_size + 16) :: pop_saved ++ [Hretq].
Definition qcgstub_escape_brind : list hinsn := Haddq_rsp (spillframe_size + 16) :: pop_saved ++ [Hxorq RAX; Hretq].

Definition qcgstub_link_branch_jit (ret : Z) : list hinsn :=
  [Hload 0 RSP RSI; Hmovq R13 RDI; Hcallq_c ret; Hpopq RDI; Hjmpq_reg RDX].
Definition qcgstub_link_branch_aot (ret : Z) : list hinsn :=
  [Hload 0 RSP RSI; Hmovq R13 RDI; Hcallq_c ret; Hpopq RDI; Hjmpq_reg RDX].
Definition qcgstub_link_branch_llvmaot (ret : Z) : list hinsn :=
  [Hleaq 8 RSP RDX; Hload 0 RSP RSI; Hmovq R13 RDI; Hcallq_c ret; Hpopq RDI; Hjmpq_reg RDX].

Definition noncsr : list Z := [RAX; RCX; RDX; RSI; RDI; R8; R9; R10; R11].
Definition PUSH_NONCSR_GPR : list hinsn := Hpushq <$> noncsr.
Definition POP_NONCSR_GPR : list hinsn := Hpopq <$> reverse noncsr.
Definition qcgstub_trace (ret : Z) : list hinsn :=
  PUSH_NONCSR_GPR ++ [Hpushq R13; Hmovq R13 RDI; Hsubq_rsp 8; Hcallq_c ret; Haddq_rsp 8; Hpopq R13] ++ POP_NONCSR_GPR ++ [Hretq].

(** ** [TraceRing] *)
Definition ring_size : Z := 64.
Record TraceRing := mkRing { ring_head : Z; ring_arr : list Z }.
Definition TraceRing_init : TraceRing := mkRing 0 (replicate (Z.to_nat ring_size) 0).
Definition ring_push (gip : Z) (r : TraceRing) : TraceRing :=
  mkRing (u32 (ring_head r + 1)) (<[Z.to_nat (ring_head r mod ring_size) := gip]> (ring_arr r)).
Definition at_idx (i : Z) (r : TraceRing) : Z := ring_arr r !!! Z.to_nat (u32 (ring_head r - 1 - i) mod ring_size).
(** [__log_trace_ring]: the records that are logged. *)
Definition log_trace_ring (r : TraceRing) : list Z := (fun i => at_idx i r) <$> seqZ 0 ring_size.

(** ** Stepping *)
Lemma sixteen (l : list Z) : length l = 16%nat -> exists a b c d sp bp si di r8 r9 r10 r11 r12 r13 r14 r15,
  l = [a; c; d; b; sp; bp; si; di; r8; r9; r10; r11; r12; r13; r14; r15].
Proof. intros H. do 16 (destruct l as [|? l]; [discriminate H|]). destruct l; [|discriminate H]. repeat eexists. Qed.

Ltac hregs := cbv [rget rset hwrite hr hm RAX RCX RDX RBX RSP RBP RSI RDI R8 R9 R10 R11 R12 R13 R14 R15
  Z.to_nat Pos.to_nat Pos.iter_op Nat.add lookup_total list_lookup_total insert list_insert].
Ltac wrap := repeat match goal with |- context [u64 ?e] => rewrite (uN_id 64 e) by (unfold in_u, spillframe_size in *; lia) end.

(** The callee-saved registers, and the frame of the trampoline below the
    stack pointer [S0] of its caller. *)
Definition csr : list Z := [RBP; RBX; R12; R13; R14; R15].
Definition entry_sp (S0 : Z) : Z := S0 - (spillframe_size + 64).
Definition saved_frame (m : mem) (S0 ra : Z) (s : hstate) : Prop :=
  load_le 8 m S0 = Some ra /\ forall i r, csr !! i = Some r -> load_le 8 m (S0 - 8 - 8 * Z.of_nat i) = Some (rget r s).
(** Registers have 64 bits; the stack pointer is far from the ends. *)
Record host_ok (s : hstate) : Prop := {
  ho_len : length (hr s) = 16%nat;
  ho_regs : Forall (in_u 64) (hr s);
  ho_sp : 4096 <= rget RSP s <= 2 ^ 64 - 4096 }.

Lemma load8_put_ne m a b v : a + 8 <= b \/ b + 8 <= a -> load_le 8 (put_le 8 m a v) b = load_le 8 m b.
Proof. intros. apply load_le_put_ne. lia. Qed.
Lemma load8_put m a v : in_u 64 v -> load_le 8 (put_le 8 m a v) a = Some v.
Proof. intros H. rewrite load_le_put. f_equal. by apply uN_id. Qed.
Ltac loads := repeat first [rewrite load8_put_ne by (unfold spillframe_size in *; lia) | rewrite load8_put by assumption].


Lemma rget_rset_eq r v s : length (hr s) = 16%nat -> 0 <= r < 16 -> rget r (rset r v s) = v.
Proof. intros Hl Hr. unfold rget, rset. cbn [hr]. by rewrite list_lookup_total_insert_eq by lia. Qed.
Lemma rget_rset_ne r r' v s : r <> r' -> 0 <= r -> 0 <= r' -> rget r (rset r' v s) = rget r s.
Proof. intros Hne Hr Hr'. unfold rget, rset. cbn [hr]. by rewrite list_lookup_total_insert_ne by lia. Qed.
Lemma rset_len r v s : length (hr (rset r v s)) = length (hr s).
Proof. apply length_insert. Qed.
Lemma cons_eq (x y : Z) l l' : x = y -> l = l' -> x :: l = y :: l'. Proof. by intros -> ->. Qed.

(** A sequence of pushes, and the memory behind it. *)
Fixpoint push_mem (m : mem) (sp : Z) (vs : list Z) : mem :=
  match vs with [] => m | v :: vs => push_mem (put_le 8 m (sp - 8) v) (sp - 8) vs end.
Lemma push_mem_outside vs : forall m sp x, x < sp - 8 * Z.of_nat (length vs) \/ sp <= x -> push_mem m sp vs !! x = m !! x.
Proof.
  induction vs as [|v vs IH]; intros m sp x Hx; [done|]. cbn [push_mem]. cbn [length] in Hx. rewrite IH by lia. apply put_le_lookup_ne. lia.
Qed.
Lemma push_mem_load vs : forall m sp i v, Forall (in_u 64) vs -> vs !! i = Some v -> load_le 8 (push_mem m sp vs) (sp - 8 - 8 * Z.of_nat i) = Some v.
Proof.
  induction vs as [|v0 vs IH]; intros m sp i v HF Hi; [done|]. apply Forall_cons in HF as [Hv HF]. cbn [push_mem].
  destruct i as [|i]; cbn [lookup list_lookup] in Hi.
  - injection Hi as <-. rewrite <- (load8_put m (sp - 8) v0 Hv). replace (sp - 8 - 8 * Z.of_nat 0) with (sp - 8) by lia.
    apply load_le_ext. intros x Hx. apply push_mem_outside. lia.
  - replace (sp - 8 - 8 * Z.of_nat (S i)) with (sp - 8 - 8 - 8 * Z.of_nat i) by lia. by apply IH.
Qed.
Lemma run_pushes callee l rs : forall s sp, length (hr s) = 16%nat -> rget RSP s = sp -> 8 * Z.of_nat (length rs) <= sp < 2 ^ 64 ->
  Forall (fun r => r <> RSP /\ 0 <= r) rs ->
  run callee ((Hpushq <$> rs) ++ l) s =
  run callee l (rset RSP (sp - 8 * Z.of_nat (length rs)) (mkHs (hr s) (push_mem (hm s) sp ((fun r => rget r s) <$> rs)))).
Proof.
  induction rs as [|r rs IH]; intros s sp Hl Hsp Hb HF.
  - cbn [length fmap list_fmap app push_mem]. f_equal. rewrite Z.sub_0_r, <- Hsp. destruct s as [lr m]. unfold rset. f_equal. cbn [hr hm].
    rewrite list_insert_id; [done|]. unfold rget. apply list_lookup_lookup_total_lt. cbn [hr] in Hl |- *. rewrite Hl. unfold RSP. lia.
  - apply Forall_cons in HF as [[Hne Hr] HF]. cbn [length] in Hb. cbn [fmap list_fmap app run]. unfold push. rewrite Hsp.
    rewrite (uN_id 64) by (unfold in_u; lia). set (s1 := hwrite _ _ _).
    assert (Hg : forall r', r' <> RSP -> 0 <= r' -> rget r' s1 = rget r' s) by (intros r' ? ?; apply rget_rset_ne; [done..|unfold RSP; lia]).
    rewrite (IH s1 (sp - 8)); [|rewrite <- Hl; apply length_insert|apply (rget_rset_eq RSP (sp - 8) s); [done|unfold RSP; lia]|lia|done].
    assert (Hv : (fun r => rget r s1) <$> rs = (fun r => rget r s) <$> rs).
    { apply list_fmap_ext. intros i r' Hr'. rewrite Forall_lookup in HF. destruct (HF i r' Hr'). by apply Hg. }
    rewrite Hv. subst s1. unfold rset, hwrite. cbn [hr hm length push_mem]. do 2 f_equal. rewrite list_insert_insert_eq. f_equal. lia.
Qed.

(** The trampoline on explicit registers. *)
Definition tramp_mem (m : mem) (sp di bp b r12 r13 r14 r15 ret : Z) : mem :=
  put_le 8 (put_le 8 (push_mem m sp [bp; b; r12; r13; r14; r15]) (di + offs_sp_unwindptr) (entry_sp sp)) (entry_sp sp) ret.
Lemma trampoline_run callee ret m a b c d sp bp si di r8 r9 r10 r11 r12 r13 r14 r15 :
  4096 <= sp <= 2 ^ 64 - 4096 -> 0 <= di -> di + offs_sp_unwindptr + 8 <= 2 ^ 64 ->
  run callee (trampoline_to_jit ret) (mkHs [a; c; d; b; sp; bp; si; di; r8; r9; r10; r11; r12; r13; r14; r15] m) =
  HEnter d (mkHs [a; c; d; b; entry_sp sp; si; entry_sp sp; di; r8; r9; r10; r11; r12; di; r14; r15] (tramp_mem m sp di bp b r12 r13 r14 r15 ret)).
Proof.
  intros Hsp H0 Hst. change offs_sp_unwindptr with 344 in *.
  change (trampoline_to_jit ret) with ((Hpushq <$> csr) ++ [Hmovq RDI R13; Hmovq RSI RBP; Hsubq_rsp (spillframe_size + 8); Hleaq (-8) RSP RSI;
    Hstore RSI 344 R13; Hcallq_reg RDX ret; Hint3]).
  rewrite (run_pushes callee _ csr _ sp); [|done|done|cbn; lia|apply (bool_decide_unpack _); vm_compute; exact I].
  change ((fun r => _) <$> csr) with [bp; b; r12; r13; r14; r15]. unfold tramp_mem. cbn [hr hm]. set (pm := push_mem _ _ _). clearbody pm.
  change offs_sp_unwindptr with 344. unfold entry_sp. change spillframe_size with 1024. change (8 * Z.of_nat (length csr)) with 48.
  cbn [run]. unfold push. hregs. wrap. f_equal. f_equal; [repeat (apply cons_eq; [lia|]); done|].
  replace (sp - 48 - (1024 + 8) - 8) with (sp - (1024 + 64)) by lia. by replace (sp - 48 - (1024 + 8) + -8) with (sp - (1024 + 64)) by lia.
Qed.

Lemma trampoline_spec callee s ra ret :
  host_ok s -> in_u 64 ret -> load_le 8 (hm s) (rget RSP s) = Some ra ->
  0 <= rget RDI s -> rget RDI s + offs_sp_unwindptr + 8 <= 2 ^ 64 ->
  rget RDI s + offs_sp_unwindptr + 8 <= entry_sp (rget RSP s) \/ rget RSP s + 8 <= rget RDI s + offs_sp_unwindptr ->
  exists s', run callee (trampoline_to_jit ret) s = HEnter (rget RDX s) s' /\
    length (hr s') = 16%nat /\ rget RSP s' = entry_sp (rget RSP s) /\ rget STATE s' = rget RDI s /\ rget MEMBASE s' = rget RSI s /\
    load_le 8 (hm s') (rget RDI s + offs_sp_unwindptr) = Some (rget RSP s') /\ load_le 8 (hm s') (rget RSP s') = Some ret /\
    saved_frame (hm s') (rget RSP s) ra s.
Proof.
  intros [Hl HF Hsp] Hret Hra H0 Hst Hap. destruct s as [l m]. cbn [hr hm] in *.
  destruct (sixteen l Hl) as (a & b & c & d & sp & bp & si & di & r8 & r9 & r10 & r11 & r12 & r13 & r14 & r15 & ->). clear Hl.
  rewrite !Forall_cons in HF. destruct HF as (?&?&?&?&?&?&?&?&?&?&?&?&?&?&?&?&_).
  set (s := mkHs _ m) in *.
  assert (Er : rget RSP s = sp /\ rget RDI s = di /\ rget RSI s = si /\ rget RDX s = d) by done. destruct Er as (Esp & Edi & Esi & Ed).
  rewrite Esp, Edi in *. rewrite Esi, Ed. eexists. split; [apply trampoline_run; lia|]. cbn [hm hr]. split; [done|]. split; [done|]. split; [done|]. split; [done|].
  change (rget RSP _) with (entry_sp sp) at 1. unfold tramp_mem. assert (in_u 64 (entry_sp sp)) by (unfold entry_sp, in_u, spillframe_size; lia).
  unfold entry_sp, offs_sp_unwindptr in *. unfold spillframe_size in *. change (offs_stub_tab + 8 * Z.of_nat (length all_stubs)) with 344 in *.
  split; [|split].
  - rewrite load8_put_ne by lia. by rewrite load8_put.
  - by rewrite load8_put.
  - set (pm := push_mem _ _ _).
    assert (Hpm : forall x, sp - 48 <= x <= sp -> load_le 8 (put_le 8 (put_le 8 pm (di + 344) (sp - (1024 + 64))) (sp - (1024 + 64)) ret) x = load_le 8 pm x).
    { intros x Hx. by rewrite !load8_put_ne by lia. }
    split.
    + rewrite Hpm by lia. rewrite <- Hra. apply load_le_ext. intros x Hx. apply push_mem_outside. lia.
    + intros i r Hi. pose proof (lookup_lt_Some _ _ _ Hi) as Hlt. cbn in Hlt. rewrite Hpm by lia. apply push_mem_load; [rewrite !Forall_cons; split_and!; try assumption; constructor|].
      destruct i as [|[|[|[|[|[|i]]]]]]; try (injection Hi as <-); done.
Qed.

(** ** The way back *)
Definition kept_regs (s s' : hstate) : Prop := forall r, r ∈ csr -> rget r s' = rget r s.
Definition kept_bytes (m m' : mem) (lo hi : Z) : Prop := forall x, lo <= x < hi -> m' !! x = m !! x.
Lemma csr_Forall (P : Z -> Prop) : P RBP -> P RBX -> P R12 -> P R13 -> P R14 -> P R15 -> forall r, r ∈ csr -> P r.
Proof. intros ?????? r Hr. unfold csr in Hr. rewrite !elem_of_cons in Hr. destruct Hr as [->|[->|[->|[->|[->|[->|Hn]]]]]]; try done. by apply not_elem_of_nil in Hn. Qed.
Lemma saved_ext m m' S0 ra s : kept_bytes m m' (S0 - 48) (S0 + 8) -> saved_frame m S0 ra s -> saved_frame m' S0 ra s.
Proof.
  intros H [H1 H2]. split.
  - rewrite <- H1. apply load_le_ext. intros x Hx. apply H. lia.
  - intros i r Hi. rewrite <- (H2 i r Hi). apply load_le_ext. intros x Hx. pose proof (lookup_lt_Some _ _ _ Hi) as Hlt. cbn in Hlt. apply H. lia.
Qed.

(** A sequence of pops of the values [rvs.*2]. *)
Definition set_regs (rvs : list (Z * Z)) (s : hstate) : hstate := foldl (fun s rv => rset rv.1 rv.2 s) s rvs.
Lemma rset_sp r v x y s : r <> RSP -> 0 <= r -> rset RSP y (rset r v (rset RSP x s)) = rset r v (rset RSP y s).
Proof.
  intros Hne Hr. unfold rset. cbn [hr hm]. f_equal. rewrite (list_insert_insert_ne _ (Z.to_nat RSP)) by (unfold RSP in *; lia). by rewrite list_insert_insert_eq.
Qed.
Lemma run_pops callee l rvs : forall s sp, length (hr s) = 16%nat -> rget RSP s = sp -> 0 <= sp -> sp + 8 * Z.of_nat (length rvs) < 2 ^ 64 ->
  (forall i rv, rvs !! i = Some rv -> rv.1 <> RSP /\ 0 <= rv.1 /\ load_le 8 (hm s) (sp + 8 * Z.of_nat i) = Some rv.2) ->
  run callee ((Hpopq <$> rvs.*1) ++ l) s = run callee l (set_regs rvs (rset RSP (sp + 8 * Z.of_nat (length rvs)) s)).
Proof.
  induction rvs as [|[r v] rvs IH]; intros s sp Hl Hsp H0 Hhi Hr.
  - cbn [length fmap list_fmap app set_regs foldl]. f_equal. rewrite Z.add_0_r, <- Hsp. destruct s as [lr m]. unfold rset. f_equal. cbn [hr hm].
    rewrite list_insert_id; [done|]. unfold rget. apply list_lookup_lookup_total_lt. cbn [hr] in Hl |- *. rewrite Hl. unfold RSP. lia.
  - destruct (Hr 0%nat _ eq_refl) as (Hne & Hr0 & Hv). cbn [fst snd] in *. rewrite Z.mul_0_r, Z.add_0_r in Hv. cbn [length] in Hhi.
    cbn [fmap list_fmap app run]. unfold pop. rewrite Hsp, Hv. cbn [mbind option_bind]. rewrite (uN_id 64) by (unfold in_u; lia).
    rewrite (IH _ (sp + 8)); [|by rewrite !rset_len| |lia|lia|].
    + unfold set_regs. cbn [foldl fst snd length]. rewrite rset_sp by done. do 4 f_equal. lia.
    + rewrite rget_rset_ne by (done || unfold RSP; lia). apply rget_rset_eq; [done|unfold RSP; lia].
    + intros i rv Hi. destruct (Hr (S i) rv Hi) as (? & ? & Hl'). split_and!; [done..|]. rewrite <- Hl'. f_equal. lia.
Qed.

(** [pop_saved ++ tl] from the top of the saved registers. *)
Lemma pop_saved_run callee tl m a b c d sp bp si di r8 r9 r10 r11 r12 r13 r14 r15 S0 ra s0 :
  4096 <= S0 <= 2 ^ 64 - 4096 -> sp = S0 - 48 -> saved_frame m S0 ra s0 ->
  run callee (pop_saved ++ tl) (mkHs [a; c; d; b; sp; bp; si; di; r8; r9; r10; r11; r12; r13; r14; r15] m) =
  run callee tl (mkHs [a; c; d; rget RBX s0; S0; rget RBP s0; si; di; r8; r9; r10; r11; rget R12 s0; rget R13 s0; rget R14 s0; rget R15 s0] m).
Proof.
  intros Hs -> [_ Hf].
  change pop_saved with (Hpopq <$> ((fun r => (r, rget r s0)) <$> reverse csr).*1).
  rewrite (run_pops callee tl _ _ (S0 - 48)); [|done|done|lia|cbn; lia|].
  - replace (S0 - 48 + _) with S0 by (cbn; lia). reflexivity.
  - intros i rv Hi. apply list_lookup_fmap_Some in Hi as (r & -> & Hi). cbn [fst snd hm]. pose proof (lookup_lt_Some _ _ _ Hi) as Hlt.
    rewrite length_reverse in Hlt. cbn in Hlt.
    assert (Hcr : csr !! (5 - i)%nat = Some r).
    { destruct (reverse_lookup_Some csr i r) as [Hrev _]. destruct (Hrev Hi) as [Hx _]. by destruct i as [|[|[|[|[|[|i]]]]]]; [..|lia]. }
    split_and!.
    + intros ->. assert (RSP ∈ csr) as Hin by (by eapply list_elem_of_lookup_2). revert Hin. apply (bool_decide_unpack _). vm_compute. exact I.
    + revert r Hi Hcr. intros r _ Hcr. apply list_elem_of_lookup_2 in Hcr. revert r Hcr. apply csr_Forall; vm_compute; congruence.
    + rewrite <- (Hf _ _ Hcr). f_equal. lia.
Qed.

(** The caller of the trampoline gets control back. *)
Definition returned (s0 s : hstate) : Prop := rget RSP s = rget RSP s0 + 8 /\ kept_regs s0 s.
Lemma escape_spec callee s S0 ra s0 : length (hr s) = 16%nat -> rget RSP s = entry_sp S0 -> S0 = rget RSP s0 -> 4096 <= S0 <= 2 ^ 64 - 4096 ->
  saved_frame (hm s) S0 ra s0 ->
  (exists s', run callee qcgstub_escape_link s = HRet ra s' /\ returned s0 s' /\ rget RAX s' = rget RAX s) /\
  (exists s', run callee qcgstub_escape_brind s = HRet ra s' /\ returned s0 s' /\ rget RAX s' = 0).
Proof.
  intros Hl Hsp Es0 Hs Hf. destruct s as [l m]. cbn [hr hm] in *.
  destruct (sixteen l Hl) as (a & b & c & d & sp & bp & si & di & r8 & r9 & r10 & r11 & r12 & r13 & r14 & r15 & ->). clear Hl.
  change (sp = entry_sp S0) in Hsp. pose proof (proj1 Hf) as Hra.
  assert (Hrun : forall tl, run callee (Haddq_rsp (spillframe_size + 16) :: pop_saved ++ tl) (mkHs [a; c; d; b; sp; bp; si; di; r8; r9; r10; r11; r12; r13; r14; r15] m) =
    run callee tl (mkHs [a; c; d; rget RBX s0; S0; rget RBP s0; si; di; r8; r9; r10; r11; rget R12 s0; rget R13 s0; rget R14 s0; rget R15 s0] m)).
  { intros tl. rewrite <- (pop_saved_run callee tl m a b c d (S0 - 48) bp si di r8 r9 r10 r11 r12 r13 r14 r15 S0 ra s0) by done.
    set (l := pop_saved ++ tl). clearbody l. cbn [run]. hregs. subst sp. unfold entry_sp, spillframe_size. wrap. f_equal. f_equal. repeat (apply cons_eq; [lia|]). done. }
  unfold qcgstub_escape_link, qcgstub_escape_brind. rewrite !Hrun. clear Hrun.
  set (vbp := rget RBP s0). set (vb := rget RBX s0). set (v12 := rget R12 s0). set (v13 := rget R13 s0). set (v14 := rget R14 s0). set (v15 := rget R15 s0).
  assert (Hret : forall x, returned s0 (mkHs [x; c; d; vb; S0 + 8; vbp; si; di; r8; r9; r10; r11; v12; v13; v14; v15] m)).
  { intros x. split; [by rewrite <- Es0|]. unfold kept_regs. by apply csr_Forall. }
  split; eexists; (split; [|split; [apply Hret|reflexivity]]); cbn [run]; unfold pop; hregs; rewrite Hra; cbn [mbind option_bind]; wrap; reflexivity.
Qed.

(** ** Link stubs *)
(** A C function keeps the callee-saved registers, the stack pointer (it
    returns to its caller) and the stack above it up to [top]. *)
Record sysv (callee : hstate -> hstate) (top : Z) : Prop := {
  sv_len s : length (hr s) = 16%nat -> length (hr (callee s)) = 16%nat;
  sv_sp s : rget RSP (callee s) = rget RSP s;
  sv_csr s : kept_regs s (callee s);
  sv_stack s : kept_bytes (hm s) (hm (callee s)) (rget RSP s) top }.

(** What a link stub does: [TryLinkBranch] is entered in [sc], the stub goes to
    its second result in [s']. *)
Definition linked_by (callee : hstate -> hstate) (l : list hinsn) (s : hstate) (retaddr top : Z) (sc s' : hstate) : Prop :=
  run callee l s = HJump (rget RDX (callee sc)) s' /\ length (hr s') = 16%nat /\
  rget RDI sc = rget R13 s /\ rget RSI sc = retaddr /\ rget RSP sc = rget RSP s - 8 /\
  rget RSP s' = rget RSP s + 8 /\ rget RAX s' = rget RAX (callee sc) /\ kept_regs s s' /\ kept_bytes (hm s) (hm s') (rget RSP s + 8) top.

(** The common tail of the link stubs, behind the load of the slot address. *)
Lemma link_tail callee top ret m a b c d sp bp si di r8 r9 r10 r11 r12 r13 r14 r15 :
  sysv callee top -> in_u 64 ret -> 4096 <= sp -> sp + 8 <= top -> top <= 2 ^ 64 - 8 -> load_le 8 m sp = Some si ->
  let sc := mkHs [a; c; d; b; sp - 8; bp; si; r13; r8; r9; r10; r11; r12; r13; r14; r15] (put_le 8 m (sp - 8) ret) in
  exists s', run callee [Hmovq R13 RDI; Hcallq_c ret; Hpopq RDI; Hjmpq_reg RDX] (mkHs [a; c; d; b; sp; bp; si; di; r8; r9; r10; r11; r12; r13; r14; r15] m) =
      HJump (rget RDX (callee sc)) s' /\ length (hr s') = 16%nat /\ rget RSP s' = sp + 8 /\ rget RAX s' = rget RAX (callee sc) /\
    kept_regs sc s' /\ kept_bytes m (hm s') (sp + 8) top.
Proof.
  intros HS Hret Hsp Htop Htop2 Hsi sc.
  assert (Hsteps : run callee [Hmovq R13 RDI; Hcallq_c ret; Hpopq RDI; Hjmpq_reg RDX] (mkHs [a; c; d; b; sp; bp; si; di; r8; r9; r10; r11; r12; r13; r14; r15] m) =
    match pop (callee sc) with Some (_, s) => run callee [Hpopq RDI; Hjmpq_reg RDX] s | None => HStop end).
  { subst sc. cbn [run]. unfold push. hregs. wrap. reflexivity. }
  rewrite Hsteps. clear Hsteps.
  pose proof (sv_len _ _ HS sc eq_refl) as Hl. pose proof (sv_sp _ _ HS sc) as Esp. pose proof (sv_csr _ _ HS sc) as Hcsr. pose proof (sv_stack _ _ HS sc) as Hst.
  change (rget RSP sc) with (sp - 8) in *. change (hm sc) with (put_le 8 m (sp - 8) ret) in Hst. destruct (callee sc) as [l' m']. cbn [hr hm] in *.
  destruct (sixteen l' Hl) as (a' & b' & c' & d' & sp' & bp' & si' & di' & q8 & q9 & q10 & q11 & q12 & q13 & q14 & q15 & ->). clear Hl.
  change (sp' = sp - 8) in Esp. subst sp'.
  assert (E1 : load_le 8 m' (sp - 8) = Some ret).
  { rewrite <- (load8_put m (sp - 8) ret Hret). apply load_le_ext. intros x Hx. apply Hst. lia. }
  assert (E2 : load_le 8 m' sp = Some si).
  { rewrite <- Hsi, <- (load8_put_ne m (sp - 8) sp ret) by lia. apply load_le_ext. intros x Hx. apply Hst. lia. }
  exists (mkHs [a'; c'; d'; b'; sp + 8; bp'; si'; si; q8; q9; q10; q11; q12; q13; q14; q15] m'). split; [|split; [done|]; split; [done|]; split; [done|]; split].
  - cbn [run]. unfold pop. hregs. rewrite E1. cbn [mbind option_bind]. hregs. wrap. replace (sp - 8 + 8) with sp by lia. rewrite E2. cbn [mbind option_bind]. hregs. by wrap.
  - intros r Hr. rewrite <- (Hcsr r Hr). revert r Hr. by apply csr_Forall.
  - intros x Hx. cbn [hm]. rewrite Hst by lia. apply put_le_lookup_ne. lia.
Qed.

Lemma link_spec callee top ret s retaddr l : sysv callee top -> length (hr s) = 16%nat -> in_u 64 ret -> 4096 <= rget RSP s ->
  rget RSP s + 8 <= top -> top <= 2 ^ 64 - 8 -> load_le 8 (hm s) (rget RSP s) = Some retaddr ->
  l = qcgstub_link_branch_jit ret \/ l = qcgstub_link_branch_aot ret \/ l = qcgstub_link_branch_llvmaot ret ->
  exists sc s', linked_by callee l s retaddr top sc s' /\ (l = qcgstub_link_branch_llvmaot ret -> rget RDX sc = rget RSP s + 8).
Proof.
  intros HS Hl Hret Hsp Htop Htop2 Hra Hl3. destruct s as [lr m]. cbn [hr hm] in *.
  destruct (sixteen lr Hl) as (a & b & c & d & sp & bp & si & di & r8 & r9 & r10 & r11 & r12 & r13 & r14 & r15 & ->). clear Hl.
  change (rget RSP _) with sp in Hsp, Htop, Hra. set (s := mkHs _ m).
  assert (Hcase : exists d', (l = qcgstub_link_branch_llvmaot ret -> d' = sp + 8) /\
    run callee l s = run callee [Hmovq R13 RDI; Hcallq_c ret; Hpopq RDI; Hjmpq_reg RDX] (mkHs [a; c; d'; b; sp; bp; retaddr; di; r8; r9; r10; r11; r12; r13; r14; r15] m)).
  { assert (Hj : forall d', run callee (qcgstub_link_branch_jit ret) (mkHs [a; c; d'; b; sp; bp; si; di; r8; r9; r10; r11; r12; r13; r14; r15] m) =
      run callee [Hmovq R13 RDI; Hcallq_c ret; Hpopq RDI; Hjmpq_reg RDX] (mkHs [a; c; d'; b; sp; bp; retaddr; di; r8; r9; r10; r11; r12; r13; r14; r15] m)).
    { intros d'. unfold qcgstub_link_branch_jit. set (tl := [Hmovq _ _; _; _; _]). clearbody tl. cbn [run]. hregs. rewrite Z.add_0_r. wrap. rewrite Hra. reflexivity. }
    destruct Hl3 as [->|[->| ->]]; [exists d; split; [discriminate|apply Hj]..|]. exists (sp + 8). split; [done|]. rewrite <- Hj.
    unfold qcgstub_link_branch_llvmaot, qcgstub_link_branch_jit. set (tl := [Hload _ _ _; _; _; _; _]). clearbody tl. subst s. cbn [run]. hregs. by wrap. }
  destruct Hcase as (d' & Hd & Hrun).
  destruct (link_tail callee top ret m a b c d' sp bp retaddr di r8 r9 r10 r11 r12 r13 r14 r15 HS Hret Hsp Htop Htop2 Hra) as (s' & E & L & P & A & K & B).
  set (sc := mkHs _ (put_le 8 m (sp - 8) ret)) in *. exists sc, s'. split; [|exact Hd]. split; [by rewrite Hrun|]. split_and!; try done.
  intros r Hr. rewrite (K r Hr). revert r Hr. by apply csr_Forall.
Qed.

(** C13 The frames of generated code.  Entered as a C function, the trampoline
    enters the code with the state and the memory base in their registers, the
    spill frame above an unwind pointer that it records and a stack pointer
    that is 8 modulo 16.  If the code leaves the frame of the trampoline as it
    is, then from the same stack pointer the escape of an indirect branch
    returns to the caller of the trampoline with a null slot; a lazily linked
    slot calls [TryLinkBranch] on an aligned stack with the state and the
    return address of the slot (and for LLVM code a stack pointer that passes
    the assertion), goes where it says with the stack pointer of the code and
    the callee-saved registers unchanged, and from there the escape stub
    returns the slot to the caller, its callee-saved registers and stack
    restored. *)
Theorem jit_frame_roundtrip callee top s0 ra ret :
  host_ok s0 -> in_u 64 ret -> rget RSP s0 mod 16 = 8 -> load_le 8 (hm s0) (rget RSP s0) = Some ra ->
  0 <= rget RDI s0 -> rget RDI s0 + offs_sp_unwindptr + 8 <= 2 ^ 64 ->
  rget RDI s0 + offs_sp_unwindptr + 8 <= entry_sp (rget RSP s0) \/ rget RSP s0 + 8 <= rget RDI s0 + offs_sp_unwindptr ->
  rget RSP s0 + 8 <= top -> top <= 2 ^ 64 - 8 -> 8192 <= rget RSP s0 -> sysv callee top ->
  exists s1, run callee (trampoline_to_jit ret) s0 = HEnter (rget RDX s0) s1 /\ rget STATE s1 = rget RDI s0 /\ rget MEMBASE s1 = rget RSI s0 /\
    rget RSP s1 mod 16 = 8 /\ rget RSP s1 + 8 + spillframe_size <= rget RSP s0 - 48 /\
    load_le 8 (hm s1) (rget RDI s0 + offs_sp_unwindptr) = Some (rget RSP s1) /\
    forall s2, length (hr s2) = 16%nat -> kept_bytes (hm s1) (hm s2) (rget RSP s0 - 48) (rget RSP s0 + 8) ->
      (rget RSP s2 = rget RSP s1 -> exists s3, run callee qcgstub_escape_brind s2 = HRet ra s3 /\ returned s0 s3 /\ rget RAX s3 = 0) /\
      (forall l ret' retaddr, rget RSP s2 = rget RSP s1 - 8 -> load_le 8 (hm s2) (rget RSP s2) = Some retaddr -> in_u 64 ret' ->
         l = qcgstub_link_branch_jit ret' \/ l = qcgstub_link_branch_aot ret' \/ l = qcgstub_link_branch_llvmaot ret' ->
         exists sc s3 s4, linked_by callee l s2 retaddr top sc s3 /\ rget RSP sc mod 16 = 8 /\
           (l = qcgstub_link_branch_llvmaot ret' -> rget RDX sc = rget RSP s1) /\ rget RSP s3 = rget RSP s1 /\
           run callee qcgstub_escape_link s3 = HRet ra s4 /\ returned s0 s4 /\ rget RAX s4 = rget RAX (callee sc)).
Proof.
  intros Hok Hret Hal Hra H0 Hst Hap Htop Htop2 Hlow HS. pose proof (ho_sp _ Hok) as Hsp.
  destruct (trampoline_spec callee s0 ra ret Hok Hret Hra H0 Hst Hap) as (s1 & E & _ & Esp & Est & Emb & Hun & _ & Hf).
  exists s1. split_and!; try done; [rewrite Esp; unfold entry_sp, spillframe_size; zlia|rewrite Esp; unfold entry_sp, spillframe_size; lia|].
  intros s2 Hl Hk. split.
  - intros Es2. destruct (escape_spec callee s2 (rget RSP s0) ra s0) as [_ Hb]; try done; [congruence|by eapply saved_ext].
  - intros l ret' retaddr Es2 Hra2 Hret' Hl3. assert (He : 4096 <= entry_sp (rget RSP s0)) by (unfold entry_sp, spillframe_size; lia).
    assert (Ht : entry_sp (rget RSP s0) <= rget RSP s0 - 48) by (unfold entry_sp, spillframe_size; lia).
    destruct (link_spec callee top ret' s2 retaddr l) as (sc & s3 & HL & Hd); try done; [unfold entry_sp, spillframe_size in *; lia|lia|].
    pose proof HL as (_ & L3 & _ & _ & Hsc & Hs3 & Hax & _ & Hkb).
    destruct (escape_spec callee s3 (rget RSP s0) ra s0) as [(s4 & E4 & R4 & A4) _]; try done; [lia| |].
    { eapply saved_ext; [|exact Hf]. intros x Hx. rewrite Hkb by lia. by apply Hk. }
    exists sc, s3, s4. split_and!; try done; [rewrite Hsc, Es2, Esp; unfold entry_sp, spillframe_size; zlia|intros El; rewrite (Hd El); lia|lia|congruence].
Qed.

(** ** The trace stub *)
Definition trace_mem (m : mem) (sp a c d si di r8 r9 r10 r11 r13 ret : Z) : mem :=
  put_le 8 (push_mem m sp [a; c; d; si; di; r8; r9; r10; r11; r13]) (sp - 96) ret.

(** Every register and the stack above are as before, and the C function is
    called on an aligned stack with the state. *)
Lemma trace_spec callee top ret s ra : host_ok s -> sysv callee top -> in_u 64 ret -> load_le 8 (hm s) (rget RSP s) = Some ra ->
  rget RSP s + 8 <= top -> top <= 2 ^ 64 - 8 ->
  exists sc s', run callee (qcgstub_trace ret) s = HRet ra s' /\ rget RDI sc = rget STATE s /\ rget RSP sc = rget RSP s - 96 /\
    hr s' = <[Z.to_nat RSP := rget RSP s + 8]> (hr s) /\ kept_bytes (hm s) (hm s') (rget RSP s) top.
Proof.
  intros [Hl HF Hsp] HS Hret Hra Htop Htop2. destruct s as [lr m]. cbn [hr hm] in *.
  destruct (sixteen lr Hl) as (a & b & c & d & sp & bp & si & di & r8 & r9 & r10 & r11 & r12 & r13 & r14 & r15 & ->). clear Hl.
  rewrite !Forall_cons in HF. destruct HF as (?&?&?&?&?&?&?&?&?&?&?&?&?&?&?&?&_).
  change (rget RSP _) with sp in Hsp, Hra, Htop.
  set (tm := trace_mem m sp a c d si di r8 r9 r10 r11 r13 ret).
  enough (Hg : exists sc s', run callee (qcgstub_trace ret) (mkHs [a; c; d; b; sp; bp; si; di; r8; r9; r10; r11; r12; r13; r14; r15] m) = HRet ra s' /\
    rget RDI sc = r13 /\ rget RSP sc = sp - 96 /\ hr s' = [a; c; d; b; sp + 8; bp; si; di; r8; r9; r10; r11; r12; r13; r14; r15] /\ kept_bytes m (hm s') sp top) by exact Hg.
  set (sc := mkHs [a; c; d; b; sp - 96; bp; si; r13; r8; r9; r10; r11; r12; r13; r14; r15] tm).
  set (rvs := [(R13, r13); (R11, r11); (R10, r10); (R9, r9); (R8, r8); (RDI, di); (RSI, si); (RDX, d); (RCX, c); (RAX, a)]).
  set (tl := Haddq_rsp 8 :: (Hpopq <$> rvs.*1) ++ [Hretq]).
  assert (Hsteps : run callee (qcgstub_trace ret) (mkHs [a; c; d; b; sp; bp; si; di; r8; r9; r10; r11; r12; r13; r14; r15] m) =
    match pop (callee sc) with Some (_, s) => run callee tl s | None => HStop end).
  { subst sc tm. unfold trace_mem.
    change (qcgstub_trace ret) with ((Hpushq <$> (noncsr ++ [R13])) ++ [Hmovq R13 RDI; Hsubq_rsp 8; Hcallq_c ret] ++ tl).
    rewrite (run_pushes callee _ (noncsr ++ [R13]) _ sp); [|done|done|cbn; lia|apply (bool_decide_unpack _); vm_compute; exact I].
    change ((fun r => _) <$> noncsr ++ [R13]) with [a; c; d; si; di; r8; r9; r10; r11; r13]. cbn [hr hm].
    set (pm := push_mem _ _ _). clearbody pm tl. change (8 * Z.of_nat (length (noncsr ++ [R13]))) with 80. cbn [app run]. unfold push. hregs. wrap.
    replace (sp - 80 - 8 - 8) with (sp - 96) by lia. reflexivity. }
  rewrite Hsteps. clear Hsteps. exists sc.
  pose proof (sv_len _ _ HS sc eq_refl) as Hl. pose proof (sv_sp _ _ HS sc) as Esp. pose proof (sv_csr _ _ HS sc) as Hcsr. pose proof (sv_stack _ _ HS sc) as Hst.
  change (rget RSP sc) with (sp - 96) in *. change (hm sc) with tm in Hst. destruct (callee sc) as [l' m']. cbn [hr hm] in *.
  destruct (sixteen l' Hl) as (a' & b' & c' & d' & sp' & bp' & si' & di' & q8 & q9 & q10 & q11 & q12 & q13 & q14 & q15 & ->). clear Hl.
  change (sp' = sp - 96) in Esp. subst sp'.
  assert (b' = b /\ bp' = bp /\ q12 = r12 /\ q14 = r14 /\ q15 = r15) as (-> & -> & -> & -> & ->).
  { split_and!; [apply (Hcsr RBX)|apply (Hcsr RBP)|apply (Hcsr R12)|apply (Hcsr R14)|apply (Hcsr R15)]; unfold csr; set_solver. }
  assert (Hk : forall k, 0 <= k <= 96 -> load_le 8 m' (sp - k) = load_le 8 tm (sp - k)).
  { intros k Hk. apply load_le_ext. intros x Hx. apply Hst. lia. }
  exists (mkHs [a; c; d; b; sp + 8; bp; si; di; r8; r9; r10; r11; r12; r13; r14; r15] m'). split; [|split; [done|]; split; [done|]; split; [done|]].
  - assert (Hv : load_le 8 m' (sp - 96) = Some ret /\ load_le 8 m' (sp - 80) = Some r13 /\ load_le 8 m' (sp - 72) = Some r11 /\ load_le 8 m' (sp - 64) = Some r10 /\
      load_le 8 m' (sp - 56) = Some r9 /\ load_le 8 m' (sp - 48) = Some r8 /\ load_le 8 m' (sp - 40) = Some di /\ load_le 8 m' (sp - 32) = Some si /\
      load_le 8 m' (sp - 24) = Some d /\ load_le 8 m' (sp - 16) = Some c /\ load_le 8 m' (sp - 8) = Some a /\ load_le 8 m' sp = Some ra).
    { assert (HF : Forall (in_u 64) [a; c; d; si; di; r8; r9; r10; r11; r13]) by (rewrite !Forall_cons; split_and!; try assumption; constructor).
      assert (Hp : forall i v, [a; c; d; si; di; r8; r9; r10; r11; r13] !! i = Some v -> load_le 8 m' (sp - (8 + 8 * Z.of_nat i)) = Some v).
      { intros i v Hi. pose proof (lookup_lt_Some _ _ _ Hi) as Hlt. cbn in Hlt. rewrite Hk by lia. subst tm. unfold trace_mem. rewrite load8_put_ne by lia.
        rewrite Z.sub_add_distr. by apply push_mem_load. }
      split; [rewrite Hk by lia; by apply load8_put|]. split_and!;
        [by apply (Hp 9%nat)|by apply (Hp 8%nat)|by apply (Hp 7%nat)|by apply (Hp 6%nat)|by apply (Hp 5%nat)|by apply (Hp 4%nat)|by apply (Hp 3%nat)
        |by apply (Hp 2%nat)|by apply (Hp 1%nat)|by apply (Hp 0%nat)|].
      rewrite <- Hra. apply load_le_ext. intros x Hx. rewrite Hst by lia. subst tm. unfold trace_mem. rewrite put_le_lookup_ne by lia. apply push_mem_outside. lia. }
    destruct Hv as (V96 & Hv). unfold pop. change (rget RSP (mkHs _ m')) with (sp - 96). cbn [hm]. rewrite V96. cbn [mbind option_bind].
    subst tl. set (s1 := rset RSP _ _). change (run callee (Haddq_rsp 8 :: ?l) s1) with (run callee l (rset RSP (u64 (rget RSP s1 + 8)) s1)).
    assert (Es1 : s1 = mkHs [a'; c'; d'; b; sp - 88; bp; si'; di'; q8; q9; q10; q11; r12; q13; r14; r15] m').
    { subst s1. unfold rset. cbn [hr hm]. f_equal. cbn [Z.to_nat RSP Pos.to_nat Pos.iter_op Nat.add insert list_insert]. repeat (apply cons_eq; [try done|]); [|done].
      change (rget RSP _) with (sp - 96). rewrite (uN_id 64) by (unfold in_u; lia). lia. }
    rewrite Es1. change (rget RSP (mkHs _ m')) with (sp - 88). rewrite (uN_id 64) by (unfold in_u; lia). replace (sp - 88 + 8) with (sp - 80) by lia.
    rewrite (run_pops callee [Hretq] rvs _ (sp - 80)); [|done|apply rget_rset_eq; [done|unfold RSP; lia]|lia|cbn; lia|].
    + replace (sp - 80 + 8 * Z.of_nat (length rvs)) with sp by (cbn; lia). subst rvs. cbn [run]. unfold pop.
      unfold set_regs. cbn [foldl fst snd]. hregs. destruct Hv as (_ & _ & _ & _ & _ & _ & _ & _ & _ & _ & ->). cbn [mbind option_bind]. hregs. by wrap.
    + intros i rv Hi. cbn [rset hm]. destruct Hv as (V80 & V72 & V64 & V56 & V48 & V40 & V32 & V24 & V16 & V8 & _).
      subst rvs. do 10 (destruct i as [|i]; [injection Hi as <-; cbn [fst snd]; split; [vm_compute; congruence|]; split; [vm_compute; congruence|];
        match goal with V : load_le 8 m' ?x = Some ?v |- load_le 8 m' ?y = Some ?v => replace y with x by lia; exact V end|]). done.
  - intros x Hx. cbn [hm]. rewrite Hst by lia. subst tm. unfold trace_mem. rewrite put_le_lookup_ne by lia. apply push_mem_outside. lia.
Qed.

(** ** The trace ring *)
Lemma ring_push_inv r : length (ring_arr r) = Z.to_nat ring_size -> forall g, length (ring_arr (ring_push g r)) = Z.to_nat ring_size.
Proof. intros H g. cbn. by rewrite length_insert. Qed.
(** [at_idx i] is the record pushed [i] pushes before the last, also when the
    counter has wrapped around. *)
Lemma ring_recent gs r0 i g : length (ring_arr r0) = Z.to_nat ring_size -> in_u 32 (ring_head r0) -> (i < Z.to_nat ring_size)%nat ->
  reverse gs !! i = Some g -> at_idx (Z.of_nat i) (foldl (fun r g => ring_push g r) r0 gs) = g.
Proof.
  intros Hl Hh Hi.
  assert (HI : forall gs, length (ring_arr (foldl (fun r g => ring_push g r) r0 gs)) = Z.to_nat ring_size /\ in_u 32 (ring_head (foldl (fun r g => ring_push g r) r0 gs))).
  { intros gs'. induction gs' as [|x gs' [IH1 IH2]] using rev_ind; [done|]. rewrite foldl_app. cbn [foldl]. split; [by apply ring_push_inv|]. cbn. apply uN_range. lia. }
  revert i g Hi. induction gs as [|x gs IH] using rev_ind; intros i g Hi; [done|]. rewrite reverse_snoc, foldl_app. cbn [foldl].
  destruct (HI gs) as [Hl1 Hh1]. set (r := foldl _ r0 gs) in *. unfold at_idx. cbn [ring_push ring_head ring_arr].
  assert (Eu : forall k, u32 (u32 (ring_head r + 1) - 1 - k) = u32 (ring_head r - k)).
  { intros k. unfold u32, uN. rewrite <- Z.sub_add_distr, Zminus_mod_idemp_l. f_equal. lia. }
  rewrite Eu. unfold ring_size in *. destruct i as [|i]; cbn [lookup list_lookup].
  - intros [= <-]. rewrite Z.sub_0_r, (uN_id 32) by done. apply list_lookup_total_insert_eq. rewrite Hl1. zlia.
  - intros Hg. rewrite list_lookup_total_insert_ne.
    + rewrite <- (IH i g ltac:(lia) Hg). unfold at_idx, ring_size. do 4 f_equal. lia.
    + unfold uN, in_u in *. zlia.
Qed.

(** ** A concrete call of the trampoline *)
Definition demo_host : hstate := mkHs [0; 0; 0x5000; 3; 65544; 5; 0; 0x2000; 8; 9; 10; 11; 12; 13; 14; 15] (put_le 8 ∅ 65544 0x400000).
Lemma demo_host_ok : host_ok demo_host.
Proof. split; [reflexivity|repeat constructor; vm_compute; congruence|vm_compute; split; congruence]. Qed.
Lemma jit_frame_roundtrip_witness : exists s1, run id (trampoline_to_jit 0x600000) demo_host = HEnter 0x5000 s1 /\ rget STATE s1 = 0x2000 /\
  exists s3, run id qcgstub_escape_brind s1 = HRet 0x400000 s3 /\ returned demo_host s3.
Proof.
  destruct (jit_frame_roundtrip id (2 ^ 63) demo_host 0x400000 0x600000) as (s1 & E & Est & _ & _ & _ & _ & H).
  - exact demo_host_ok.
  - split; vm_compute; congruence.
  - reflexivity.
  - reflexivity.
  - vm_compute. congruence.
  - vm_compute. congruence.
  - left. vm_compute. congruence.
  - vm_compute. congruence.
  - vm_compute. congruence.
  - vm_compute. congruence.
  - split; [done|done|by intros s r Hr|by intros s x Hx].
  - exists s1. split; [exact E|]. split; [exact Est|]. destruct (H s1) as [He _].
    + assert (E' := E). vm_compute in E'. injection E' as <-. reflexivity.
    + by intros x Hx.
    + destruct (He eq_refl) as (s3 & E3 & R3 & _). exists s3. split; [exact E3|exact R3].
Defined.
