(* ===== verification/AotSymbol.v ===== *)
(** * Names of compiled regions ([MakeAotSymbol] of src/dbt/qmc/compile.h)

    The code of a region is named by its guest address, in hexadecimal without
    leading zeros.  Different addresses have different names. *)

From stdpp Require Import base tactics numbers list strings.
From S2P Require Import Prelude Common.

Definition AOT_SYM_PREFIX : string := "_x".

(** [std::hex] of a number of at most [n] digits, most significant first. *)
Fixpoint hex_digits (n : nat) (x : Z) (acc : string) : string :=
  match n with
  | O => acc
  | S n => let acc := String (hexdig (x mod 16)) acc in if x <? 16 then acc else hex_digits n (x / 16) acc
  end.
Definition MakeAotSymbol (ip : Z) : string := AOT_SYM_PREFIX +:+ hex_digits 8 ip "".

(** Reading a number back. *)
Fixpoint hex_value (s : string) (acc : Z) : option Z :=
  match s with
  | EmptyString => Some acc
  | String c s => d ← hexval c; hex_value s (16 * acc + d)
  end.

Lemma hex_value_digits n x acc a : 0 <= x < 16 ^ Z.of_nat n -> (0 < n)%nat ->
  exists k, hex_value (hex_digits n x acc) a = hex_value acc (a * 16 ^ k + x) /\ 0 <= k.
Proof.
  revert x acc a. induction n as [|n IH]; intros x acc a Hx Hn; [lia|]. cbn [hex_digits].
  rewrite Nat2Z.inj_succ, Z.pow_succ_r in Hx by lia. destruct (Z.ltb_spec x 16) as [H|H].
  - exists 1. split; [|lia]. cbn [hex_value]. rewrite Z.mod_small, hexval_hexdig by lia. cbn. f_equal. lia.
  - assert (Hm : (0 < n)%nat) by (destruct n; [cbn in Hx; lia|lia]).
    destruct (IH (x / 16) (String (hexdig (x mod 16)) acc) a) as (k & E & Hk); [zlia|done|].
    exists (k + 1). split; [|lia]. rewrite E. cbn [hex_value]. rewrite hexval_hexdig by zlia. cbn [mbind option_bind].
    f_equal. rewrite Z.pow_add_r by lia. zlia.
Qed.

Lemma MakeAotSymbol_inj a b : in_u 32 a -> in_u 32 b -> MakeAotSymbol a = MakeAotSymbol b -> a = b.
Proof.
  intros Ha Hb H.
  assert (Hv : forall x, in_u 32 x ->
    match MakeAotSymbol x with String _ (String _ s) => hex_value s 0 | _ => None end = Some x).
  { intros x Hx. change (hex_value (hex_digits 8 x "") 0 = Some x).
    destruct (hex_value_digits 8 x "" 0) as (k & -> & _); [exact Hx|lia|done]. }
  pose proof (Hv a Ha) as H1. pose proof (Hv b Hb) as H2. rewrite H in H1. congruence.
Qed.
