(* ===== verification/QirPrinter.v ===== *)
(** * The printer of QuickIR (src/dbt/qmc/qir_printer.cpp, qir_printer.h)

    The text the logs show of a region.  What it is good for is that it can be
    read: the text of a region determines its blocks, their edges and their
    instructions with all operands. *)

From Stdlib Require Import Ascii.
From stdpp Require Import base tactics numbers list strings.
From S2P Require Import Prelude Common VOperand RV32Insn Qir AotSymbol.
Import qir.

(** ** Names *)
Definition GetOpNameStr (op : Op) : string :=
  match op with
  | _hcall => "hcall" | _br => "br" | _brcc => "brcc" | _gbr => "gbr" | _gbrind => "gbrind" | _vmload => "vmload"
  | _vmstore => "vmstore" | _setcc => "setcc" | _mov => "mov" | _add => "add" | _sub => "sub" | _and => "and"
  | _or => "or" | _xor => "xor" | _sra => "sra" | _srl => "srl" | _sll => "sll"
  end.
Definition GetVTypeNameStr (t : VType) : string :=
  match t with UNDEF => "invalid" | I8 => "i8" | I16 => "i16" | I32 => "i32" end.
Definition GetCondCodeNameStr (cc : CondCode) : string :=
  match cc with
  | EQ => "eq" | NE => "ne" | LE => "le" | LT => "lt" | GE => "ge" | GT => "gt"
  | LEU => "leu" | LTU => "ltu" | GEU => "geu" | GTU => "gtu"
  end.
Definition GetRuntimeStubName (id : RuntimeStubId) : string :=
  match id with
  | id_escape_link => "escape_link" | id_escape_brind => "escape_brind" | id_link_branch_jit => "link_branch_jit"
  | id_link_branch_aot => "link_branch_aot" | id_link_branch_llvmaot => "link_branch_llvmaot" | id_brind => "brind"
  | id_raise => "raise" | id_trace => "trace" | id_nevercalled => "nevercalled"
  | id_rv32_ill => "rv32_ill" | id_rv32_fence => "rv32_fence" | id_rv32_fencei => "rv32_fencei"
  | id_rv32_ecall => "rv32_ecall" | id_rv32_ebreak => "rv32_ebreak" | id_rv32_lrw => "rv32_lrw" | id_rv32_scw => "rv32_scw"
  | id_rv32_amoswapw => "rv32_amoswapw" | id_rv32_amoaddw => "rv32_amoaddw" | id_rv32_amoxorw => "rv32_amoxorw"
  | id_rv32_amoandw => "rv32_amoandw" | id_rv32_amoorw => "rv32_amoorw" | id_rv32_amominw => "rv32_amominw"
  | id_rv32_amomaxw => "rv32_amomaxw" | id_rv32_amominuw => "rv32_amominuw" | id_rv32_amomaxuw => "rv32_amomaxuw"
  end.

(** ** Numbers *)
(** [ss << x] and [ss << std::hex << x]: a [u64] has at most 20 digits. *)
Fixpoint dec_digits (n : nat) (x : Z) (acc : string) : string :=
  match n with
  | O => acc
  | S n => let acc := String (hexdig (x mod 10)) acc in if x <? 10 then acc else dec_digits n (x / 10) acc
  end.
Definition dec (x : Z) : string := dec_digits 20 x "".
Definition hex (x : Z) : string := hex_digits 8 x "".
Arguments dec : simpl never.
Arguments hex : simpl never.

(** ** [PrinterVisitor] *)
Section printer.
Context (vinfo : VRegsInfo).

Definition print_vtype (t : VType) : string := ":" +:+ GetVTypeNameStr t.
Definition print_vsign (s : VSign) : string := ":" +:+ match s with VSign_U => "u" | VSign_S => "s" end.
Definition print_cc (cc : CondCode) : string := ":" +:+ GetCondCodeNameStr cc.

Definition operand_body (o : VOperand) : pres string :=
  match o with
  | VConst _ c => POk ("$" +:+ hex c)
  | VGPR _ r =>
      if IsGlobal vinfo r then (g ← pderef (GetGlobalInfo vinfo r); POk ("@" +:+ sr_name g)) else POk ("%" +:+ dec r)
  | PGPR _ r => POk ("_" +:+ dec r)
  | VSlot g _ offs => POk ((if g then "g" else "l") +:+ ":" +:+ hex offs)
  | VBad => PPanic
  end.
Definition operand_type (o : VOperand) : VType := match o with VConst t _ | VGPR t _ | PGPR t _ | VSlot _ t _ => t | VBad => UNDEF end.
Definition print_operand (o : VOperand) : pres string :=
  body ← operand_body o;
  POk (" [" +:+ body +:+ "|" +:+ GetVTypeNameStr (operand_type o) +:+ "]").

Definition print_name (n : Node) : string := "    #" +:+ dec (n_id n) +:+ " " +:+ GetOpNameStr (GetOpcode (n_inst n)).
Fixpoint print_ops (os : list VOperand) : pres string :=
  match os with [] => POk "" | o :: os => s ← print_operand o; r ← print_ops os; POk (s +:+ r) end.
Definition printOperands (i : Inst) : pres string := a ← print_ops (outputs i); b ← print_ops (inputs i); POk (a +:+ b).

(** What [visit] prints between the name and the operands. *)
Definition print_props (i : Inst) : string :=
  match i with
  | InstSetcc cc _ _ _ | InstBrcc cc _ _ => print_cc cc
  | InstVMLoad sz sgn _ _ | InstVMStore sz sgn _ _ => print_vtype sz +:+ print_vsign sgn
  | InstHcall stub _ => " [" +:+ GetRuntimeStubName stub +:+ "]"
  | _ => ""
  end.
Definition visit (n : Node) : pres string :=
  ops ← match n_inst n with InstGBr tpc => print_operand tpc | i => printOperands i end;
  POk (print_name n +:+ print_props (n_inst n) +:+ ops).
End printer.

(** ** [PrinterPass::run] *)
Definition newline : string := String (Ascii.ascii_of_nat 10) "".
Fixpoint print_ids (ids : list nat) : string :=
  match ids with [] => "" | i :: ids => dec (Z.of_nat i) +:+ " " +:+ print_ids ids end.
Fixpoint print_insts (vinfo : VRegsInfo) (l : list Node) : pres string :=
  match l with [] => POk "" | n :: l => s ← visit vinfo n; r ← print_insts vinfo l; POk (newline +:+ s +:+ r) end.
Definition print_block (vinfo : VRegsInfo) (id : nat) (bb : Block) : pres string :=
  body ← print_insts vinfo (ilist bb);
  POk (newline +:+ "bb." +:+ dec (Z.of_nat id) +:+ ":" +:+ " succs[ " +:+ print_ids (succs bb) +:+ "] preds[ " +:+
       print_ids (preds bb) +:+ "]" +:+ body).
Fixpoint print_blocks (vinfo : VRegsInfo) (id : nat) (l : list Block) : pres string :=
  match l with [] => POk "" | bb :: l => s ← print_block vinfo id bb; r ← print_blocks vinfo (S id) l; POk (s +:+ r) end.
Definition PrinterPass_run (r : Region) : pres string :=
  body ← print_blocks (vregs_info r) 0 (blist r);
  POk ("region: n_glob=" +:+ dec (NumAll (vregs_info r)) +:+ " n_loc=" +:+ dec (NumLocals (vregs_info r)) +:+ body).

(** ** Reading a text from the left *)
Fixpoint allc (C : Ascii.ascii -> bool) (s : string) : bool :=
  match s with EmptyString => true | String c s => C c && allc C s end.
Definition stops (C : Ascii.ascii -> bool) (s : string) : bool := match s with EmptyString => true | String c _ => negb (C c) end.
Lemma str_nil r : "" +:+ r = r.
Proof. reflexivity. Qed.
Lemma str_cons c s r : String c s +:+ r = String c (s +:+ r).
Proof. reflexivity. Qed.
Lemma span C s s' r r' : allc C s = true -> allc C s' = true -> stops C r = true -> stops C r' = true ->
  s +:+ r = s' +:+ r' -> s = s' /\ r = r'.
Proof.
  revert s'. induction s as [|c s IH]; intros [|c' s'] A A' S S' E; rewrite ?str_nil, ?str_cons in E.
  - done.
  - subst r. cbn in A', S. by destruct (C c').
  - subst r'. cbn in A, S'. by destruct (C c).
  - injection E as <- E. apply andb_prop in A as [_ A], A' as [_ A']. destruct (IH s' A A' S S' E) as [-> ->]; auto.
Qed.
Lemma str_assoc a b c : ((a +:+ b) +:+ c) = (a +:+ (b +:+ c)).
Proof. induction a; rewrite ?str_nil, ?str_cons; congruence. Qed.
Lemma allc_app C a b : allc C (a +:+ b) = allc C a && allc C b.
Proof. induction a; rewrite ?str_nil, ?str_cons; cbn; [done|]. by rewrite IHa, andb_assoc. Qed.

Definition is_hex (c : Ascii.ascii) : bool := bool_decide (is_Some (hexval c)).
Definition is_lower (c : Ascii.ascii) : bool := let n := Ascii.nat_of_ascii c in (97 <=? n)%nat && (n <=? 122)%nat.
(** The characters of names: letters, digits and the underscore. *)
Definition is_word (c : Ascii.ascii) : bool := is_lower c || is_hex c || bool_decide (c = "_"%char).

Lemma is_hex_hexdig d : 0 <= d < 16 -> is_hex (hexdig d) = true.
Proof. intros H. unfold is_hex. rewrite hexval_hexdig by done. done. Qed.
Lemma is_hex_word c : is_hex c = true -> is_word c = true.
Proof. intros H. unfold is_word. by rewrite H, orb_true_r. Qed.
Lemma allc_impl (C D : Ascii.ascii -> bool) s : (forall c, C c = true -> D c = true) -> allc C s = true -> allc D s = true.
Proof. intros H. induction s; cbn; [done|]. intros [? ?]%andb_prop. rewrite H by done. auto. Qed.

Lemma dec_digits_hex n x acc : 0 <= x -> allc is_hex acc = true -> allc is_hex (dec_digits n x acc) = true.
Proof.
  revert x acc. induction n as [|n IH]; intros x acc Hx Ha; cbn; [done|].
  assert (allc is_hex (String (hexdig (x mod 10)) acc) = true) by (cbn; rewrite is_hex_hexdig by zlia; done).
  destruct (x <? 10); [done|]. apply IH; [zlia|done].
Qed.
Lemma hex_digits_hex n x acc : 0 <= x -> allc is_hex acc = true -> allc is_hex (hex_digits n x acc) = true.
Proof.
  revert x acc. induction n as [|n IH]; intros x acc Hx Ha; cbn; [done|].
  assert (allc is_hex (String (hexdig (x mod 16)) acc) = true) by (cbn; rewrite is_hex_hexdig by zlia; done).
  destruct (x <? 16); [done|]. apply IH; [zlia|done].
Qed.
Fixpoint dec_value (s : string) (acc : Z) : option Z :=
  match s with
  | EmptyString => Some acc
  | String c s => d ← hexval c; dec_value s (10 * acc + d)
  end.
Lemma dec_value_digits n x acc a : 0 <= x < 10 ^ Z.of_nat n -> (0 < n)%nat ->
  exists k, dec_value (dec_digits n x acc) a = dec_value acc (a * 10 ^ k + x) /\ 0 <= k.
Proof.
  revert x acc a. induction n as [|n IH]; intros x acc a Hx Hn; [lia|]. cbn [dec_digits].
  rewrite Nat2Z.inj_succ, Z.pow_succ_r in Hx by lia. destruct (Z.ltb_spec x 10) as [H|H].
  - exists 1. split; [|lia]. cbn [dec_value]. rewrite Z.mod_small, hexval_hexdig by lia. cbn. f_equal. lia.
  - assert (Hm : (0 < n)%nat) by (destruct n; [cbn in Hx; lia|lia]).
    destruct (IH (x / 10) (String (hexdig (x mod 10)) acc) a) as (k & E & Hk); [zlia|done|].
    exists (k + 1). split; [|lia]. rewrite E. cbn [dec_value]. rewrite hexval_hexdig by zlia. cbn [mbind option_bind].
    f_equal. rewrite Z.pow_add_r by lia. zlia.
Qed.
Lemma dec_inj x y : in_u 64 x -> in_u 64 y -> dec x = dec y -> x = y.
Proof.
  intros Hx Hy E. unfold in_u in *.
  destruct (dec_value_digits 20 x "" 0) as (k & E1 & _); [lia|lia|].
  destruct (dec_value_digits 20 y "" 0) as (l & E2 & _); [lia|lia|].
  unfold dec in E. rewrite E in E1. rewrite E1 in E2. cbn [dec_value] in E2. injection E2. lia.
Qed.
Lemma hex_inj x y : in_u 32 x -> in_u 32 y -> hex x = hex y -> x = y.
Proof.
  intros Hx Hy E. unfold in_u in *.
  destruct (hex_value_digits 8 x "" 0) as (k & E1 & _); [lia|lia|].
  destruct (hex_value_digits 8 y "" 0) as (l & E2 & _); [lia|lia|].
  unfold hex in E. rewrite E in E1. rewrite E1 in E2. cbn [hex_value] in E2. injection E2. lia.
Qed.
Lemma dec_hex x : 0 <= x -> allc is_hex (dec x) = true.
Proof. intros. by apply dec_digits_hex. Qed.
Lemma hex_hex x : 0 <= x -> allc is_hex (hex x) = true.
Proof. intros. by apply hex_digits_hex. Qed.
Lemma dec_span x y r r' : in_u 64 x -> in_u 64 y -> stops is_hex r = true -> stops is_hex r' = true ->
  dec x +:+ r = dec y +:+ r' -> x = y /\ r = r'.
Proof.
  intros Hx Hy S S' E. unfold in_u in *.
  apply (span is_hex) in E as [E ->]; auto using dec_inj; apply dec_hex; lia.
Qed.

(** ** Operands *)
Lemma vtype_name_inj t t' : GetVTypeNameStr t = GetVTypeNameStr t' -> t = t'.
Proof. by destruct t, t'. Qed.
Lemma op_name_inj o o' : GetOpNameStr o = GetOpNameStr o' -> o = o'.
Proof. by destruct o, o'. Qed.
Lemma cc_name_inj c c' : GetCondCodeNameStr c = GetCondCodeNameStr c' -> c = c'.
Proof. by destruct c, c'. Qed.
Lemma stub_name_inj c c' : GetRuntimeStubName c = GetRuntimeStubName c' -> c = c'.
Proof. by destruct c, c'. Qed.
Lemma vtype_name_word t : allc is_word (GetVTypeNameStr t) = true.
Proof. by destruct t; vm_compute. Qed.
Lemma op_name_word t : allc is_word (GetOpNameStr t) = true.
Proof. by destruct t; vm_compute. Qed.
Lemma cc_name_word t : allc is_word (GetCondCodeNameStr t) = true.
Proof. by destruct t; vm_compute. Qed.
Lemma stub_name_word t : allc is_word (GetRuntimeStubName t) = true.
Proof. by destruct t; vm_compute. Qed.

(** The names of the global registers are different words. *)
Definition names_ok (g : StateInfo) : bool :=
  forallb (fun r => allc is_word (sr_name r)) g && bool_decide (NoDup (sr_name <$> g)).
(** Characters of the text of an operand before its type. *)
Definition is_body (c : Ascii.ascii) : bool := negb (bool_decide (c = "|"%char)).
Lemma word_body s : allc is_word s = true -> allc is_body s = true.
Proof.
  apply allc_impl. intros c. unfold is_body. destruct (decide (c = "|"%char)) as [->|?]; [by vm_compute|].
  by rewrite bool_decide_false.
Qed.
Lemma hex_body s : allc is_hex s = true -> allc is_body s = true.
Proof. intros. apply word_body. by apply (allc_impl is_hex), H; apply is_hex_word. Qed.

Lemma body_chars v o s : names_ok (glob_info v) = true -> voperand_wf o -> operand_body v o = POk s -> allc is_body s = true.
Proof.
  intros [N _]%andb_prop W. destruct o; cbn in W; unfold in_u in W; cbn; try discriminate.
  - intros [= <-]. rewrite allc_app. apply hex_body, hex_hex; lia.
  - destruct (IsGlobal v r) eqn:G; [|intros [= <-]; rewrite allc_app; apply hex_body, dec_hex; lia].
    unfold GetGlobalInfo. rewrite G. destruct (glob_info v !! _) eqn:L; cbn; [|done]. intros [= <-]. rewrite allc_app.
    apply word_body. rewrite forallb_forall in N. apply (N s0). by apply list_elem_of_lookup_2, list_elem_of_In in L.
  - intros [= <-]. rewrite allc_app. apply hex_body, dec_hex; lia.
  - intros [= <-]. rewrite !allc_app. destruct is_glob; apply hex_body, hex_hex; lia.
Qed.
Lemma global_name_inj v r r' s s' : names_ok (glob_info v) = true -> 0 <= r -> 0 <= r' ->
  GetGlobalInfo v r = Some s -> GetGlobalInfo v r' = Some s' -> sr_name s = sr_name s' -> r = r'.
Proof.
  unfold GetGlobalInfo. intros [_ N%bool_decide_eq_true]%andb_prop Hr Hr'. repeat case_match; try done. intros L L' E.
  assert (Z.to_nat r = Z.to_nat r'); [|lia].
  eapply (NoDup_lookup (sr_name <$> glob_info v) _ _ (sr_name s)); [done| |]; rewrite list_lookup_fmap; [by rewrite L|rewrite L'; cbn; congruence].
Qed.
Lemma body_inj v v' o o' s : glob_info v = glob_info v' -> names_ok (glob_info v) = true -> voperand_wf o -> voperand_wf o' ->
  operand_body v o = POk s -> operand_body v' o' = POk s -> operand_type o = operand_type o' -> o = o'.
Proof.
  intros G N W W' E E' T.
  assert (E2 : operand_body v o' = POk s) by (rewrite <- E'; destruct v, v'; cbn in G; subst; by destruct o'). clear E' G v'.
  destruct o, o'; cbn in W, W', T, E, E2; unfold in_u in W, W'; simplify_eq; try discriminate.
  all: repeat match goal with H : (if ?b then _ else _) = POk _ |- _ => destruct b eqn:?; cbn in H end.
  all: repeat match goal with H : pderef ?x ≫= _ = POk _ |- _ => destruct x eqn:?; cbn in H end.
  all: repeat match goal with H : POk _ = POk _ |- _ => injection H as H; subst end; rewrite ?str_cons, ?str_nil in *; simplify_eq.
  all: repeat match goal with b : bool |- _ => destruct b end; rewrite ?str_cons, ?str_nil in *; simplify_eq; try discriminate.
  all: f_equal; first [apply hex_inj; unfold in_u; auto; lia | apply dec_inj; unfold in_u; auto; lia | eapply global_name_inj; eauto; lia].
Qed.

(** A code that can be read from the left, whatever follows. *)
Lemma print_operand_read v v' o o' s s' r r' : glob_info v = glob_info v' -> names_ok (glob_info v) = true ->
  voperand_wf o -> voperand_wf o' -> print_operand v o = POk s -> print_operand v' o' = POk s' -> s +:+ r = s' +:+ r' ->
  o = o' /\ r = r'.
Proof.
  unfold print_operand. intros G N W W' E E' R.
  destruct (operand_body v o) as [b|] eqn:B; [|done]. destruct (operand_body v' o') as [b'|] eqn:B'; [|done].
  cbn in E, E'. injection E as <-. injection E' as <-. rewrite ?str_assoc, ?str_cons, ?str_nil in R. injection R as R.
  apply (span is_body) in R as [<- R]; [|by apply (body_chars v o)|by apply (body_chars v' o'); [rewrite <- G|..]|done|done].
  rewrite ?str_assoc, ?str_cons, ?str_nil in R. injection R as R.
  apply (span is_word) in R as [R R2]; [|apply vtype_name_word|apply vtype_name_word|done|done].
  rewrite ?str_cons, ?str_nil in R2. injection R2 as R2. split; [|done].
  eapply body_inj; eauto using vtype_name_inj.
Qed.
Lemma print_ops_read v v' os os' s s' r r' : glob_info v = glob_info v' -> names_ok (glob_info v) = true ->
  Forall voperand_wf os -> Forall voperand_wf os' -> length os = length os' ->
  print_ops v os = POk s -> print_ops v' os' = POk s' -> s +:+ r = s' +:+ r' -> os = os' /\ r = r'.
Proof.
  intros G N W W'. revert os' s s' W'. induction W as [|o os Ho W IH]; intros [|o' os'] s s' W' L E E' R; cbn in L, E, E'; try discriminate.
  - simplify_eq. done.
  - apply Forall_cons in W' as [Wo W']. injection L as L.
    destruct (print_operand v o) as [a|] eqn:A; [|done]. destruct (print_operand v' o') as [a'|] eqn:A'; [|done].
    cbn in E, E'. destruct (print_ops v os) as [t|]; [|done]. destruct (print_ops v' os') as [t'|] eqn:T'; [|done].
    cbn in E, E'. injection E as <-. injection E' as <-. rewrite !str_assoc in R.
    destruct (print_operand_read v v' o o' a a' _ _ G N Ho Wo A A' R) as [-> R2].
    destruct (IH os' t t' W' L eq_refl T' R2) as [-> ->]. done.
Qed.

(** ** Instructions *)
(** What may follow an instruction. *)
Definition line_end (r : string) : Prop := r = "" \/ exists t, r = newline +:+ t.
Lemma line_end_word r : line_end r -> stops is_word r = true.
Proof. by intros [->|[t ->]]. Qed.
Definition node_ok (n : Node) : Prop :=
  in_u 32 (n_id n) /\ inst_ok (n_inst n) = true /\ Forall voperand_wf (outputs (n_inst n)) /\ Forall voperand_wf (inputs (n_inst n)) /\
  match n_inst n with InstGBr t => voperand_wf t | _ => True end.

Lemma print_operand_head v o s r : print_operand v o = POk s -> exists t, s +:+ r = " [" +:+ t.
Proof. unfold print_operand. destruct (operand_body v o); [|done]. intros [= <-]. rewrite !str_assoc. eauto. Qed.
(** The operands of an instruction as one list. *)
Definition all_ops (i : Inst) : list VOperand := match i with InstGBr t => [t] | _ => outputs i ++ inputs i end.
Lemma print_ops_app v a b : print_ops v (a ++ b) = (x ← print_ops v a; y ← print_ops v b; POk (x +:+ y)).
Proof.
  induction a as [|o a IH]; cbn; [by destruct (print_ops v b)|]. rewrite IH.
  destruct (print_operand v o); cbn; [|done]. destruct (print_ops v a); cbn; [|done]. destruct (print_ops v b); cbn; [|done].
  by rewrite str_assoc.
Qed.
Lemma str_nil_r s : s +:+ "" = s.
Proof. induction s; rewrite ?str_nil, ?str_cons; congruence. Qed.
Lemma visit_all v n : visit v n = (ops ← print_ops v (all_ops (n_inst n)); POk (print_name n +:+ print_props (n_inst n) +:+ ops)).
Proof.
  unfold visit. destruct (n_inst n) eqn:E; unfold all_ops, printOperands; rewrite ?print_ops_app; cbn; try done;
    repeat match goal with |- context [print_operand v ?o] => destruct (print_operand v o); cbn end; try done.
  by rewrite str_nil_r.
Qed.
Lemma print_ops_head v o os s r : print_ops v (o :: os) = POk s -> exists t, s +:+ r = " [" +:+ t.
Proof.
  cbn [print_ops]. destruct (print_operand v o) as [a|] eqn:A; [|done]. cbn. destruct (print_ops v os); [|done].
  intros [= <-]. rewrite str_assoc. by apply (print_operand_head v o).
Qed.
Lemma props_stop v i ops r : print_ops v (all_ops i) = POk ops -> line_end r -> stops is_word (print_props i +:+ ops +:+ r) = true.
Proof.
  intros E L. destruct i; cbn [all_ops print_props outputs inputs app] in *; unfold print_cc, print_vtype; rewrite ?str_assoc; try reflexivity.
  all: try (cbn in E; simplify_eq; rewrite ?str_nil; by apply line_end_word).
  all: rewrite str_nil; destruct (print_ops_head v _ _ ops r E) as [t ->]; reflexivity.
Qed.

Lemma all_ops_wf n : node_ok n -> Forall voperand_wf (all_ops (n_inst n)).
Proof. intros (_ & _ & O & I & G). unfold all_ops. destruct (n_inst n); try (apply Forall_app; split; assumption). by repeat constructor. Qed.
Lemma cc_read c c' r r' : stops is_word r = true -> stops is_word r' = true ->
  print_cc c +:+ r = print_cc c' +:+ r' -> c = c' /\ r = r'.
Proof.
  unfold print_cc. intros S S' R. rewrite ?str_assoc, ?str_cons, ?str_nil in R. injection R as R.
  apply (span is_word) in R as [R ->]; auto using cc_name_inj, cc_name_word.
Qed.
Lemma sz_sgn_read t t' g g' r r' :
  (print_vtype t +:+ print_vsign g) +:+ r = (print_vtype t' +:+ print_vsign g') +:+ r' -> t = t' /\ g = g' /\ r = r'.
Proof.
  unfold print_vtype. intros R. rewrite ?str_assoc, ?str_cons, ?str_nil in R. injection R as R.
  apply (span is_word) in R as [R R2]; [|apply vtype_name_word|apply vtype_name_word|done|done].
  destruct g, g'; cbv [print_vsign] in R2; rewrite ?str_cons, ?str_nil in R2; simplify_eq; auto using vtype_name_inj.
Qed.
Lemma stub_read c c' r r' :
  (" [" +:+ GetRuntimeStubName c +:+ "]") +:+ r = (" [" +:+ GetRuntimeStubName c' +:+ "]") +:+ r' -> c = c' /\ r = r'.
Proof.
  intros R. rewrite ?str_assoc, ?str_cons, ?str_nil, ?str_assoc in R. injection R as R.
  apply (span is_word) in R as [R R2]; [|apply stub_name_word|apply stub_name_word|done|done].
  rewrite ?str_cons, ?str_nil in R2. simplify_eq. auto using stub_name_inj.
Qed.
(** Instructions with the same opcode are of one class. *)
Lemma props_read v v' i i' ops ops' r r' : GetOpcode i = GetOpcode i' -> inst_ok i = true -> inst_ok i' = true ->
  print_ops v (all_ops i) = POk ops -> print_ops v' (all_ops i') = POk ops' ->
  print_props i +:+ ops +:+ r = print_props i' +:+ ops' +:+ r' ->
  ops +:+ r = ops' +:+ r' /\ length (all_ops i) = length (all_ops i') /\ (all_ops i = all_ops i' -> i = i').
Proof.
  intros O K K' E E' R.
  destruct i, i'; cbn in O; try discriminate; subst; try (vm_compute in K; discriminate); try (vm_compute in K'; discriminate).
  all: try match goal with op : Op |- _ => cbn in K, K'; destruct op; try discriminate end; cbn [print_props] in R; rewrite ?str_nil in R.
  all: try (split_and!; [exact R|reflexivity|cbn; intros; simplify_eq; reflexivity]).
  all: try (apply sz_sgn_read in R as (-> & -> & R); split_and!; [exact R|reflexivity|cbn; intros; simplify_eq; reflexivity]).
  - apply stub_read in R as (-> & R). split_and!; [exact R|reflexivity|cbn; intros; simplify_eq; reflexivity].
  - destruct (print_ops_head v _ _ ops r E) as [t Et], (print_ops_head v' _ _ ops' r' E') as [t' Et'].
    rewrite Et, Et' in *. apply cc_read in R as (-> & R); [|done|done].
    split_and!; [exact R|reflexivity|cbn; intros; simplify_eq; reflexivity].
  - destruct (print_ops_head v _ _ ops r E) as [t Et], (print_ops_head v' _ _ ops' r' E') as [t' Et'].
    rewrite Et, Et' in *. apply cc_read in R as (-> & R); [|done|done].
    split_and!; [exact R|reflexivity|cbn; intros; simplify_eq; reflexivity].
Qed.
Lemma visit_read v v' n n' s s' r r' : glob_info v = glob_info v' -> names_ok (glob_info v) = true ->
  node_ok n -> node_ok n' -> line_end r -> line_end r' -> visit v n = POk s -> visit v' n' = POk s' ->
  s +:+ r = s' +:+ r' -> n_id n = n_id n' /\ n_inst n = n_inst n' /\ r = r'.
Proof.
  rewrite !visit_all. intros G N K K' L L' E E' R.
  pose proof (all_ops_wf n K) as W. pose proof (all_ops_wf n' K') as W'.
  destruct K as (Hi & Ki & _), K' as (Hi' & Ki' & _). unfold in_u in *.
  destruct (print_ops v _) as [ops|] eqn:O in E; [|done]. destruct (print_ops v' _) as [ops'|] eqn:O' in E'; [|done].
  cbn in E, E'. injection E as <-. injection E' as <-. unfold print_name in R.
  rewrite ?str_assoc, ?str_cons, ?str_nil in R. injection R as R.
  apply dec_span in R as [Ei R]; [|unfold in_u; lia|unfold in_u; lia|done|done].
  rewrite ?str_cons, ?str_nil, ?str_assoc in R. injection R as R.
  apply (span is_word) in R as [R R2]; [|apply op_name_word|apply op_name_word|by apply (props_stop v)|by apply (props_stop v')].
  apply op_name_inj in R.
  destruct (props_read v v' _ _ _ _ _ _ R Ki Ki' O O' R2) as (R3 & Len & Hinst).
  destruct (print_ops_read v v' _ _ _ _ _ _ G N W W' Len O O' R3) as [Eo ->]. auto.
Qed.

(** ** Regions *)
(** What follows the instructions of a block. *)
Definition block_end (r : string) : Prop := r = "" \/ exists t, r = newline +:+ "b" +:+ t.
Definition content (n : Node) : Z * Inst := (n_id n, n_inst n).
Lemma print_insts_cons v n l s : print_insts v (n :: l) = POk s ->
  exists a t, visit v n = POk a /\ print_insts v l = POk t /\ s = newline +:+ a +:+ t.
Proof.
  cbn [print_insts]. destruct (visit v n) as [a|]; [|done]. cbn. destruct (print_insts v l) as [t|]; [|done].
  intros [= <-]. eauto.
Qed.
Lemma visit_head v n s r : visit v n = POk s -> exists t, s +:+ r = " " +:+ t.
Proof.
  rewrite visit_all. destruct (print_ops v _); [|done]. intros [= <-]. unfold print_name.
  rewrite !str_assoc, str_cons. eexists. reflexivity.
Qed.
Lemma insts_line_end v l s r : block_end r -> print_insts v l = POk s -> line_end (s +:+ r).
Proof.
  intros B. destruct l; [intros [= <-]; rewrite str_nil; destruct B as [->|[t ->]]; [by left|right; eauto]|].
  intros (a & t & _ & _ & ->)%print_insts_cons. right. rewrite str_assoc. eauto.
Qed.
Lemma insts_read v v' l l' s s' r r' : glob_info v = glob_info v' -> names_ok (glob_info v) = true ->
  Forall node_ok l -> Forall node_ok l' -> block_end r -> block_end r' -> print_insts v l = POk s -> print_insts v' l' = POk s' ->
  s +:+ r = s' +:+ r' -> content <$> l = content <$> l' /\ r = r'.
Proof.
  intros G N K. revert l' s s'. induction K as [|n l Kn K IH]; intros [|n' l'] s s' K' B B' E E' R.
  - cbn in E, E'. simplify_eq. done.
  - injection E as <-. apply print_insts_cons in E' as (a & t & A & _ & ->). exfalso.
    rewrite str_nil, !str_assoc in R. destruct (visit_head v' n' a (t +:+ r') A) as [q Q]. rewrite Q in R.
    destruct B as [->|[q' ->]]; discriminate R.
  - injection E' as <-. apply print_insts_cons in E as (a & t & A & _ & ->). exfalso.
    rewrite str_nil, !str_assoc in R. destruct (visit_head v n a (t +:+ r) A) as [q Q]. rewrite Q in R.
    destruct B' as [->|[q' ->]]; discriminate R.
  - apply print_insts_cons in E as (a & t & A & T & ->), E' as (a' & t' & A' & T' & ->). apply Forall_cons in K' as [Kn' K'].
    rewrite !str_assoc in R. unfold newline in R. rewrite ?str_cons, ?str_nil in R. injection R as R.
    destruct (visit_read v v' n n' a a' (t +:+ r) (t' +:+ r')) as (E1 & E2 & R2); eauto using insts_line_end.
    destruct (IH l' t t' K' B B' T T' R2) as [E3 ->]. split; [|done]. rewrite !fmap_cons, E3. unfold content. congruence.
Qed.

Lemma dec_digits_cons n x acc : dec_digits (S n) x acc <> "".
Proof. revert x acc. induction n as [|n IH]; intros x acc; cbn [dec_digits]; destruct (x <? 10); try done. apply IH. Qed.
Lemma dec_head x : 0 <= x -> exists c t, dec x = String c t /\ is_hex c = true.
Proof.
  intros Hx. pose proof (dec_hex x Hx) as H. destruct (dec x) as [|c t] eqn:E; [by apply dec_digits_cons in E|].
  apply andb_prop in H as [H _]. eauto.
Qed.
Lemma ids_read l l' r r' : Forall (fun i => in_u 32 (Z.of_nat i)) l -> Forall (fun i => in_u 32 (Z.of_nat i)) l' ->
  print_ids l +:+ "]" +:+ r = print_ids l' +:+ "]" +:+ r' -> l = l' /\ r = r'.
Proof.
  intros W. revert l'. induction W as [|i l Hi W IH]; intros [|i' l'] W' R; cbn [print_ids] in R.
  - rewrite ?str_nil, ?str_cons in R. simplify_eq. done.
  - exfalso. rewrite str_nil, !str_assoc in R. destruct (dec_head (Z.of_nat i')) as (c & t & E & Hc); [lia|].
    rewrite E, !str_cons in R. injection R as <- _. by vm_compute in Hc.
  - exfalso. rewrite str_nil, !str_assoc in R. destruct (dec_head (Z.of_nat i)) as (c & t & E & Hc); [lia|].
    rewrite E, !str_cons in R. injection R as -> _. by vm_compute in Hc.
  - apply Forall_cons in W' as [Hi' W']. unfold in_u in *. rewrite !str_assoc in R.
    apply dec_span in R as [Ei R]; [|unfold in_u; lia|unfold in_u; lia|done|done].
    rewrite ?str_assoc, ?str_cons, ?str_nil in R. injection R as R.
    destruct (IH l' W' R) as [-> ->]. split; [|done]. f_equal. lia.
Qed.

(** The part of a block that is printed. *)
Definition block_content (b : Block) : list (Z * Inst) * list nat * list nat := (content <$> ilist b, succs b, preds b).
Definition block_ok (b : Block) : Prop :=
  Forall node_ok (ilist b) /\ Forall (fun i => in_u 32 (Z.of_nat i)) (succs b) /\ Forall (fun i => in_u 32 (Z.of_nat i)) (preds b).
Definition printable (r : Region) : Prop :=
  names_ok (glob_info (vregs_info r)) = true /\ Forall block_ok (blist r) /\ Z.of_nat (length (blist r)) <= 2 ^ 32 /\
  NumAll (vregs_info r) < 2 ^ 64.

Lemma print_block_inv v id b s : print_block v id b = POk s -> exists body, print_insts v (ilist b) = POk body /\
  forall r, s +:+ r = newline +:+ "b" +:+ "b." +:+ dec (Z.of_nat id) +:+ ": succs[ " +:+ print_ids (succs b) +:+ "]" +:+
    " preds[ " +:+ print_ids (preds b) +:+ "]" +:+ body +:+ r.
Proof.
  unfold print_block. destruct (print_insts v (ilist b)) as [body|]; [|done]. intros [= <-]. exists body. split; [done|].
  intros r. rewrite !str_assoc. reflexivity.
Qed.
Lemma print_blocks_end v id l s : print_blocks v id l = POk s -> block_end s.
Proof.
  destruct l as [|b l]; [intros [= <-]; by left|]. cbn [print_blocks].
  destruct (print_block v id b) as [a|] eqn:A; [|done]. cbn. destruct (print_blocks v (S id) l) as [t|]; [|done].
  intros [= <-]. right. apply print_block_inv in A as (body & _ & ->). eauto.
Qed.
Lemma blocks_read v v' l l' id s : glob_info v = glob_info v' -> names_ok (glob_info v) = true ->
  Forall block_ok l -> Forall block_ok l' -> Z.of_nat (id + length l) <= 2 ^ 32 -> Z.of_nat (id + length l') <= 2 ^ 32 ->
  print_blocks v id l = POk s -> print_blocks v' id l' = POk s -> block_content <$> l = block_content <$> l'.
Proof.
  intros G N K. revert l' id s. induction K as [|b l Kb K IH]; intros [|b' l'] id s K' L L' E E'; cbn [print_blocks] in E, E'.
  - done.
  - injection E as <-. destruct (print_block v' id b') as [a'|] eqn:A'; [|done]. cbn in E'.
    destruct (print_blocks v' (S id) l') as [t'|]; [|done]. injection E' as R. apply print_block_inv in A' as (body' & _ & HA').
    by rewrite HA' in R.
  - injection E' as <-. destruct (print_block v id b) as [a|] eqn:A; [|done]. cbn in E.
    destruct (print_blocks v (S id) l) as [t|]; [|done]. injection E as R. apply print_block_inv in A as (body & _ & HA).
    by rewrite HA in R.
  - destruct (print_block v id b) as [a|] eqn:A; [|done]. destruct (print_block v' id b') as [a'|] eqn:A'; [|done].
    cbn in E, E'. destruct (print_blocks v (S id) l) as [t|] eqn:T; [|done]. destruct (print_blocks v' (S id) l') as [t'|] eqn:T'; [|done].
    injection E as <-. injection E' as R. apply print_block_inv in A as (body & B & HA), A' as (body' & B' & HA').
    rewrite HA, HA' in R. apply Forall_cons in K' as [(Kn' & Ks' & Kp') K']. destruct Kb as (Kn & Ks & Kp).
    cbn [length] in L, L'. unfold newline in R. rewrite ?str_cons, ?str_nil in R. injection R as R.
    apply dec_span in R as [_ R]; [|unfold in_u; lia|unfold in_u; lia|done|done].
    rewrite ?str_cons, ?str_nil in R. injection R as R. apply ids_read in R as [Es R]; [|done|done].
    rewrite ?str_cons, ?str_nil in R. injection R as R. apply ids_read in R as [Ep R]; [|done|done].
    destruct (insts_read v' v (ilist b') (ilist b) body' body t' t) as [Ei Et]; eauto using print_blocks_end.
    { by rewrite <- G. }
    subst t'. rewrite !fmap_cons. f_equal; [unfold block_content; congruence|]. eapply IH; eauto; lia.
Qed.

(** C34 The printed text of a region can be read back: regions over the same
    guest registers with the same text have the same numbers of registers and
    the same blocks, with the same edges in the same order and the same
    instructions with their numbers and all their operands (the flags of
    instructions are not printed). *)
Theorem PrinterPass_run_injective r r' s : glob_info (vregs_info r) = glob_info (vregs_info r') -> printable r -> printable r' ->
  PrinterPass_run r = POk s -> PrinterPass_run r' = POk s ->
  NumLocals (vregs_info r) = NumLocals (vregs_info r') /\ block_content <$> blist r = block_content <$> blist r'.
Proof.
  intros G (N & K & L & M) (_ & K' & L' & M') E E'. unfold PrinterPass_run in *.
  destruct (print_blocks _ 0 (blist r)) as [b|] eqn:B; [|done]. destruct (print_blocks _ 0 (blist r')) as [b'|] eqn:B'; [|done].
  injection E as <-. injection E' as R.
  assert (U : forall v, NumAll v < 2 ^ 64 -> in_u 64 (NumAll v) /\ in_u 64 (NumLocals v))
    by (intros v; unfold NumAll, NumGlobals, NumLocals, in_u; lia).
  destruct (U _ M), (U _ M'). apply dec_span in R as [_ R]; [|done|done|done|done].
  rewrite ?str_cons, ?str_nil in R. injection R as R.
  assert (S : forall v l t, print_blocks v 0 l = POk t -> stops is_hex t = true)
    by (intros v l t [->|[q ->]]%print_blocks_end; done).
  apply dec_span in R as [Hl R]; [|done|done|by eapply S|by eapply S]. subst b'.
  split; [done|]. eapply (blocks_read _ _ _ _ 0); eauto.
Qed.

(** Printing reaches [unreachable] only at an operand that was never set. *)
Lemma print_operand_total v o : voperand_wf o -> o <> VBad -> exists s, print_operand v o = POk s.
Proof.
  intros W B. unfold print_operand. destruct o; cbn in *; unfold in_u in W; eauto; [|done].
  destruct (IsGlobal v r) eqn:G; [|eauto]. unfold GetGlobalInfo. rewrite G. unfold IsGlobal, NumGlobals in G. apply Z.ltb_lt in G.
  destruct (lookup_lt_is_Some_2 (glob_info v) (Z.to_nat r)) as [s ->]; [lia|]. cbn. eauto.
Qed.
Definition node_set (n : Node) : Prop := Forall (fun o => o <> VBad) (all_ops (n_inst n)).
Lemma print_ops_total v os : Forall voperand_wf os -> Forall (fun o => o <> VBad) os -> exists s, print_ops v os = POk s.
Proof.
  induction os as [|o os IH]; cbn; [eauto|]. intros [W Ws]%Forall_cons [B Bs]%Forall_cons.
  destruct (print_operand_total v o W B) as [s ->], (IH Ws Bs) as [t ->]. cbn. eauto.
Qed.
Lemma print_insts_total v l : Forall node_ok l -> Forall node_set l -> exists s, print_insts v l = POk s.
Proof.
  induction l as [|n l IH]; cbn; [eauto|]. intros [K Ks]%Forall_cons [B Bs]%Forall_cons.
  destruct (IH Ks Bs) as [t ->]. rewrite visit_all. destruct (print_ops_total v _ (all_ops_wf n K) B) as [s ->]. cbn. eauto.
Qed.
Lemma print_blocks_total v l id : Forall block_ok l -> Forall (fun b => Forall node_set (ilist b)) l -> exists s, print_blocks v id l = POk s.
Proof.
  revert id. induction l as [|b l IH]; intros id; cbn; [eauto|]. intros [K Ks]%Forall_cons [B Bs]%Forall_cons.
  destruct (IH (S id) Ks Bs) as [t ->]. unfold print_block. destruct (print_insts_total v _ (proj1 K) B) as [s ->]. cbn. eauto.
Qed.
Theorem PrinterPass_run_total r : printable r -> Forall (fun b => Forall node_set (ilist b)) (blist r) -> exists s, PrinterPass_run r = POk s.
Proof.
  intros (_ & K & _) B. unfold PrinterPass_run. destruct (print_blocks_total (vregs_info r) _ 0 K B) as [s ->]. cbn. eauto.
Qed.

(** ** An example *)
Definition demo_region (flags : Z) : Region :=
  mkRegion [mkBlock [mkNode 0 flags (InstBinop _add (VGPR I32 2) (VGPR I32 0) (VConst I32 0x1f)); mkNode 2 0 InstBr] [1%nat] [];
            mkBlock [mkNode 3 0 (InstBrcc LTU (VGPR I32 2) (VGPR I32 1)); mkNode 4 0 (InstGBr (VConst I32 0x10074))] [] [0%nat]]
    (mkVRegs [mkStateReg 4 I32 "ra"; mkStateReg 128 I32 "ip"] [I32]) 5 2.
Definition nl (a b : string) : string := a +:+ newline +:+ b.
Definition demo_text : string :=
  nl "region: n_glob=3 n_loc=1" (nl "bb.0: succs[ 1 ] preds[ ]" (nl "    #0 add [%2|i32] [@ra|i32] [$1f|i32]" (nl "    #2 br"
  (nl "bb.1: succs[ ] preds[ 0 ]" (nl "    #3 brcc:ltu [%2|i32] [@ip|i32]" "    #4 gbr [$10074|i32]"))))).
Lemma demo_printable f : printable (demo_region f).
Proof.
  split; [vm_compute; reflexivity|]. split; [|split; [cbn; lia|cbn; unfold NumAll, NumGlobals, NumLocals; cbn; lia]].
  repeat constructor; cbn; try lia.
Qed.

Lemma PrinterPass_run_injective_witness :
  PrinterPass_run (demo_region 1) = POk demo_text /\
  block_content <$> blist (demo_region 0) = block_content <$> blist (demo_region 1).
Proof.
  split; [vm_compute; reflexivity|].
  apply (PrinterPass_run_injective (demo_region 0) (demo_region 1) demo_text eq_refl (demo_printable 0) (demo_printable 1));
    vm_compute; reflexivity.
Defined.
