(* ===== verification/Logs.v ===== *)
(** * Traces and logs (src/dbt/guest/rv32_insn.cpp, src/dbt/util/logger.h, logger.cpp)

    The text of the operands of a guest instruction and of the registers of a
    trace, the log streams and the writing of a log line through the buffer
    that grows on demand. *)

From Stdlib Require Import Ascii.
From stdpp Require Import base tactics numbers list strings gmap.
From S2P Require Import Prelude Common Bitfield RV32Insn GuestState AotSymbol QirPrinter.
Import insn.

(** ** Operands of an instruction ([operator<<] of each format) *)
Definition sdec (x : Z) : string := if x <? 0 then "-" +:+ dec (- x) else dec x.
Definition DUMP_DELIM : string := ", ".
Definition tab : string := String (Ascii.ascii_of_nat 9) "".
Definition print_R (i : Z) : string := GRPToName (rd i) +:+ DUMP_DELIM +:+ GRPToName (rs1 i) +:+ DUMP_DELIM +:+ GRPToName (rs2 i).
Definition print_I (i : Z) : string := GRPToName (rd i) +:+ DUMP_DELIM +:+ GRPToName (rs1 i) +:+ DUMP_DELIM +:+ sdec (I_imm i).
Definition print_IS (i : Z) : string := GRPToName (rd i) +:+ DUMP_DELIM +:+ GRPToName (rs1 i) +:+ DUMP_DELIM +:+ sdec (u16 (IS_imm i)).
Definition print_S (i : Z) : string := GRPToName (rs2 i) +:+ DUMP_DELIM +:+ GRPToName (rs1 i) +:+ DUMP_DELIM +:+ sdec (S_imm i).
Definition print_B (i : Z) : string := GRPToName (rs1 i) +:+ DUMP_DELIM +:+ GRPToName (rs2 i) +:+ DUMP_DELIM +:+ sdec (B_imm i).
Definition print_U (i : Z) : string := GRPToName (rd i) +:+ DUMP_DELIM +:+ sdec (U_imm i).
Definition print_J (i : Z) : string := GRPToName (rd i) +:+ DUMP_DELIM +:+ sdec (J_imm i).
Definition print_A (i : Z) : string :=
  GRPToName (rd i) +:+ DUMP_DELIM +:+ GRPToName (rs1 i) +:+ DUMP_DELIM +:+ GRPToName (rs2 i) +:+ " " +:+ tab +:+ "ra=" +:+ sdec (A_rl i) +:+ sdec (A_aq i).
Definition print_insn (f : Format) (i : Z) : string :=
  match f with
  | FBase => "" | FR => print_R i | FI => print_I i | FIS => print_IS i | FS => print_S i | FB => print_B i
  | FU => print_U i | FJ => print_J i | FA => print_A i
  end.
(** The fields a format names. *)
Definition insn_fields (f : Format) (i : Z) : list Z :=
  match f with
  | FBase => [] | FR => [rd i; rs1 i; rs2 i] | FI => [rd i; rs1 i; I_imm i] | FIS => [rd i; rs1 i; IS_imm i]
  | FS => [rs2 i; rs1 i; S_imm i] | FB => [rs1 i; rs2 i; B_imm i] | FU => [rd i; U_imm i] | FJ => [rd i; J_imm i]
  | FA => [rd i; rs1 i; rs2 i; A_rl i; A_aq i]
  end.

(** ** [DumpTrace] *)
(** [%08x] and [%4.4s]. *)
Fixpoint hex_fixed (n : nat) (x : Z) (acc : string) : string :=
  match n with O => acc | S n => hex_fixed n (x / 16) (String (hexdig (x mod 16)) acc) end.
Definition hex8 (x : Z) : string := hex_fixed 8 x "".
Fixpoint spaces (n : nat) : string := match n with O => "" | S n => String " " (spaces n) end.
Definition fmt_4_4s (s : string) : string := let s := String.substring 0 4 s in spaces (4 - String.length s) +:+ s.
Fixpoint dump_regs (i : Z) (gpr : list Z) : string :=
  match gpr with [] => "" | g :: gpr => fmt_4_4s (GRPToName i) +:+ "=" +:+ hex8 g +:+ dump_regs (i + 1) gpr end.
(** The two lines: the address with the event, and the registers, which are
    formatted in a buffer of 1024 bytes. *)
Definition DumpTrace (event : string) (s : CPUState) : string * string :=
  ("#### " +:+ hex8 (ip s) +:+ " #### " +:+ event, dump_regs 0 (gpr s)).

(** ** Log streams *)
Record LogStreamI := mkLS { ls_name : string; prefix : string; level : bool; initialized : bool }.
(** The streams, by address, and [Logger::streams]. *)
Record Logger := mkLogger { all_streams : gmap nat LogStreamI; streams : gmap string nat }.
Definition set_initialized (s : LogStreamI) : LogStreamI := mkLS (ls_name s) (prefix s) (level s) true.
Definition set_level (s : LogStreamI) : LogStreamI := mkLS (ls_name s) (prefix s) true (initialized s).
(** [map::emplace] keeps an entry that is there. *)
Definition emplace (k : string) (v : nat) (m : gmap string nat) : gmap string nat :=
  match m !! k with Some _ => m | None => <[k := v]> m end.
Definition setup (a : nat) (l : Logger) : pres Logger :=
  s ← pderef (all_streams l !! a);
  if initialized s then POk l else
  POk (mkLogger (<[a := set_initialized s]> (all_streams l)) (emplace (ls_name s) a (streams l))).
Definition enable (name : string) (path : option string) (l : Logger) : pres Logger :=
  match streams l !! name with
  | None => POk l
  | Some a =>
      s ← pderef (all_streams l !! a);
      match path with
      | Some _ => PPanic
      | None => POk (mkLogger (<[a := set_level s]> (all_streams l)) (streams l))
      end
  end.

(** ** Writing a line *)
(** [%-12s]. *)
Definition fmt_m12s (s : string) : string := s +:+ spaces (12 - String.length s).
Definition slen (s : string) : Z := Z.of_nat (String.length s).
(** [commit_write] with a buffer of [size] bytes: [snprintf] returns the length
    of the whole text; the result is what is written and the new size. *)
Fixpoint commit_write (fuel : nat) (size : Z) (pre str : string) : lres (string * Z) :=
  match fuel with
  | O => LFuel
  | S fuel =>
      let text := fmt_m12s pre +:+ str +:+ newline in
      let res := slen text in
      if negb (0 <? res) then LPanic else
      if size <=? res then commit_write fuel (res + 1) pre str else LRet (text, size)
  end.
(** [commit_printf]: [format k] is the text the call [k] of [vsnprintf] makes of
    the format and its arguments; the later calls use an argument list that the
    earlier ones have already walked. *)
Fixpoint printf_retry (fuel : nat) (format : nat -> string) (k : nat) (size cur : Z) (out : string) : lres (string * Z) :=
  match fuel with
  | O => LFuel
  | S fuel =>
      let res := slen (format k) in
      if size <=? res + cur + 1 then printf_retry fuel format (S k) (res + cur + 2) cur out
      else LRet (out +:+ format k +:+ newline, size)
  end.
Definition commit_printf (fuel : nat) (format : nat -> string) (size : Z) (pre : string) : lres (string * Z) :=
  printf_retry fuel format 0 size (slen (fmt_m12s pre)) (fmt_m12s pre).
(** [write] and [operator()] of a stream. *)
Definition log_write (fuel : nat) (size : Z) (s : LogStreamI) (str : string) : lres (string * Z) :=
  if level s then commit_write fuel size (prefix s) str else LRet ("", size).
Definition log_printf (fuel : nat) (size : Z) (s : LogStreamI) (format : nat -> string) : lres (string * Z) :=
  if level s then commit_printf fuel format size (prefix s) else LRet ("", size).

(** ** What can be read from the texts *)
Lemma sdec_inj x y : - 2 ^ 32 < x < 2 ^ 32 -> - 2 ^ 32 < y < 2 ^ 32 -> sdec x = sdec y -> x = y.
Proof.
  intros Hx Hy. unfold sdec.
  assert (M : forall a b, 0 <= b -> String "-" a = dec b -> False).
  { intros a b Hb E. destruct (dec_head b Hb) as (c & t & E2 & Hc). rewrite E2 in E. injection E as <- _. by vm_compute in Hc. }
  destruct (Z.ltb_spec x 0), (Z.ltb_spec y 0); rewrite ?str_cons, ?str_nil; intros E.
  - injection E as E. apply dec_inj in E; unfold in_u; lia.
  - exfalso. by apply (M (dec (- x)) y).
  - exfalso. by apply (M (dec (- y)) x).
  - apply dec_inj in E; unfold in_u; lia.
Qed.
Lemma gpr_names_ok : forallb (allc is_word) gpr_names && bool_decide (NoDup gpr_names) && forallb (fun s => (String.length s <=? 4)%nat) gpr_names = true.
Proof. vm_compute. reflexivity. Qed.
Lemma gpr_name_lookup r : 0 <= r < 32 -> gpr_names !! Z.to_nat r = Some (GRPToName r).
Proof. intros H. unfold GRPToName. apply list_lookup_lookup_total_lt. change (length gpr_names) with 32%nat. lia. Qed.
Lemma gpr_name_word r : 0 <= r < 32 -> allc is_word (GRPToName r) = true.
Proof.
  intros H%gpr_name_lookup. pose proof gpr_names_ok as [[W _]%andb_prop _]%andb_prop. rewrite forallb_forall in W.
  apply W. by apply list_elem_of_lookup_2, list_elem_of_In in H.
Qed.
Lemma gpr_name_inj r r' : 0 <= r < 32 -> 0 <= r' < 32 -> GRPToName r = GRPToName r' -> r = r'.
Proof.
  intros H H' E. pose proof gpr_names_ok as [[_ N%bool_decide_eq_true]%andb_prop _]%andb_prop.
  pose proof (gpr_name_lookup r H) as L. pose proof (gpr_name_lookup r' H') as L'. rewrite <- E in L'.
  pose proof (NoDup_lookup _ _ _ _ N L L'). lia.
Qed.
Lemma gpr_read r r' t t' : 0 <= r < 32 -> 0 <= r' < 32 -> stops is_word t = true -> stops is_word t' = true ->
  GRPToName r +:+ t = GRPToName r' +:+ t' -> r = r' /\ t = t'.
Proof. intros H H' S S' E. apply (span is_word) in E as [E ->]; auto using gpr_name_word, gpr_name_inj. Qed.
Lemma delim_read t t' : DUMP_DELIM +:+ t = DUMP_DELIM +:+ t' -> t = t'.
Proof. intros E. unfold DUMP_DELIM in E. rewrite !str_cons, !str_nil in E. by injection E. Qed.
Lemma bit_text_inj a b c d : 0 <= a < 2 -> 0 <= b < 2 -> 0 <= c < 2 -> 0 <= d < 2 -> sdec a +:+ sdec b = sdec c +:+ sdec d -> a = c /\ b = d.
Proof.
  intros. assert (a = 0 \/ a = 1) as [-> | ->] by lia; assert (b = 0 \/ b = 1) as [-> | ->] by lia;
  assert (c = 0 \/ c = 1) as [-> | ->] by lia; assert (d = 0 \/ d = 1) as [-> | ->] by lia; try done.
Qed.
Lemma A_rl_range i : 0 <= A_rl i < 2.
Proof. unfold A_rl. rewrite (bf_range.decode_unsigned Tu8 Tu32) by (field_wf || done). apply (slice_range 25 25); lia. Qed.
Lemma A_aq_range i : 0 <= A_aq i < 2.
Proof. unfold A_aq. rewrite (bf_range.decode_unsigned Tu8 Tu32) by (field_wf || done). apply (slice_range 26 26); lia. Qed.

Ltac read_gprs R := repeat (apply gpr_read in R as [? R]; [|auto with rvdbt|auto with rvdbt|done|done]; try apply delim_read in R).
(** The text of the operands determines all fields the format names. *)
Theorem print_insn_injective f i j : print_insn f i = print_insn f j -> insn_fields f i = insn_fields f j.
Proof.
  intros R. pose proof (I_imm_range i); pose proof (I_imm_range j); pose proof (S_imm_range i); pose proof (S_imm_range j).
  pose proof (B_imm_range i); pose proof (B_imm_range j); pose proof (J_imm_range i); pose proof (J_imm_range j).
  pose proof (U_imm_range i); pose proof (U_imm_range j); pose proof (IS_imm_range i); pose proof (IS_imm_range j). unfold in_u in *.
  destruct f; cbn [print_insn insn_fields] in *; unfold print_R, print_I, print_IS, print_S, print_B, print_U, print_J, print_A in R; read_gprs R; [done|..].
  all: try (apply sdec_inj in R; [congruence|lia|lia]).
  - apply gpr_name_inj in R; [congruence|auto with rvdbt|auto with rvdbt].
  - apply sdec_inj in R; rewrite ?(uN_id 16) in * by (unfold in_u; lia); [congruence|lia|lia].
  - unfold tab in R. rewrite !str_cons, !str_nil in R. injection R as R.
    apply bit_text_inj in R as [R1 R2]; auto using A_rl_range, A_aq_range. congruence.
Qed.

(** *** The registers of a trace *)
Lemma slen_app a b : String.length (a +:+ b) = (String.length a + String.length b)%nat.
Proof. induction a; rewrite ?str_nil, ?str_cons; cbn; congruence. Qed.
Lemma hex_fixed_length n x acc : String.length (hex_fixed n x acc) = (n + String.length acc)%nat.
Proof. revert x acc. induction n as [|n IH]; intros; cbn [hex_fixed]; [done|]. rewrite IH. cbn. lia. Qed.
Lemma fmt_4_4s_length r : 0 <= r < 32 -> String.length (fmt_4_4s (GRPToName r)) = 4%nat.
Proof.
  intros H%gpr_name_lookup%list_elem_of_lookup_2%list_elem_of_In.
  assert (A : forallb (fun s => (String.length (fmt_4_4s s) =? 4)%nat) gpr_names = true) by (vm_compute; reflexivity).
  rewrite forallb_forall in A. by apply Nat.eqb_eq, A.
Qed.
Lemma dump_regs_length i l : 0 <= i -> i + Z.of_nat (length l) <= 32 -> String.length (dump_regs i l) = (13 * length l)%nat.
Proof.
  revert i. induction l as [|g l IH]; intros i Hi L; cbn [dump_regs length] in *; [done|].
  rewrite !slen_app, fmt_4_4s_length by lia. unfold hex8. rewrite hex_fixed_length, IH by lia. cbn. lia.
Qed.
(** The text fits the buffer, its terminating zero included. *)
Theorem DumpTrace_fits e s : length (gpr s) = 32%nat -> (String.length (DumpTrace e s).2 + 1 <= 1024)%nat.
Proof. intros H. cbn. rewrite dump_regs_length; lia. Qed.
Lemma app_len_inj a b r r' : String.length a = String.length b -> a +:+ r = b +:+ r' -> a = b /\ r = r'.
Proof.
  revert b. induction a as [|c a IH]; intros [|c' b] L E; cbn in L; try discriminate; rewrite ?str_nil, ?str_cons in E; [done|].
  injection E as -> E. destruct (IH b ltac:(lia) E) as [-> ->]. done.
Qed.
Lemma hex_fixed_value n x acc a : 0 <= x < 16 ^ Z.of_nat n -> hex_value (hex_fixed n x acc) a = hex_value acc (a * 16 ^ Z.of_nat n + x).
Proof.
  revert x acc. induction n as [|n IH]; intros x acc Hx; cbn [hex_fixed].
  - f_equal. cbn in *. lia.
  - rewrite Nat2Z.inj_succ, Z.pow_succ_r in * by lia. rewrite IH by zlia. cbn [hex_value]. rewrite hexval_hexdig by zlia.
    cbn [mbind option_bind]. f_equal. zlia.
Qed.
Lemma hex8_inj x y : in_u 32 x -> in_u 32 y -> hex8 x = hex8 y -> x = y.
Proof.
  intros Hx Hy E. pose proof (hex_fixed_value 8 x "" 0 Hx) as H. pose proof (hex_fixed_value 8 y "" 0 Hy) as H'.
  unfold hex8 in E. rewrite E in H. rewrite H in H'. cbn [hex_value] in H'. injection H'. lia.
Qed.
Lemma str_tail c c' a b : String c a = String c' b -> a = b.
Proof. congruence. Qed.
Lemma dump_regs_read i l l' : Forall (in_u 32) l -> Forall (in_u 32) l' -> length l = length l' -> dump_regs i l = dump_regs i l' -> l = l'.
Proof.
  intros W. revert i l'. induction W as [|x l Hx W IH]; intros i [|x' l'] W' L E; cbn in L; try discriminate; [done|].
  apply Forall_cons in W' as [Hx' W']. cbn [dump_regs] in E. apply app_len_inj in E as [_ E]; [|done].
  rewrite !str_cons, !str_nil in E. apply str_tail, app_len_inj in E as [Ex E]; [|unfold hex8; by rewrite !hex_fixed_length].
  f_equal; [by apply hex8_inj|]. eapply IH; eauto.
Qed.
(** Two traces with the same text show the same registers. *)
Theorem DumpTrace_injective e s s' : cpu_wf s -> cpu_wf s' -> DumpTrace e s = DumpTrace e s' -> gpr s = gpr s' /\ ip s = ip s'.
Proof.
  intros W W' E. unfold DumpTrace in E. apply pair_equal_spec in E as [E1 E2]. split.
  - eapply dump_regs_read; eauto using wf_gpr. by rewrite (wf_len s W), (wf_len s' W').
  - apply app_len_inj in E1 as [_ E1]; [|done]. apply app_len_inj in E1 as [E1 _]; [|unfold hex8; by rewrite !hex_fixed_length].
    apply hex8_inj; auto using wf_ip.
Qed.

(** ** Log lines *)
(** Whatever the size of the buffer, a line is written whole after at most two
    attempts, and the buffer never shrinks. *)
Theorem commit_write_whole fuel size pre str : (2 <= fuel)%nat ->
  exists size', commit_write fuel size pre str = LRet (fmt_m12s pre +:+ str +:+ newline, size') /\ size <= size'.
Proof.
  intros F. destruct fuel as [|[|fuel]]; [lia|lia|]. cbn [commit_write].
  set (res := slen (fmt_m12s pre +:+ str +:+ newline)). assert (H : 0 < res) by (unfold res, slen; rewrite !slen_app; cbn; lia).
  rewrite (proj2 (Z.ltb_lt 0 res) H). cbn [negb]. destruct (Z.leb_spec size res); [|exists size; split; [done|lia]].
  destruct (Z.leb_spec (res + 1) res); [lia|]. exists (res + 1). split; [done|lia].
Qed.
(** A formatted line that fits the buffer is written whole by the first call. *)
Theorem commit_printf_fits fuel format size pre : (1 <= fuel)%nat -> slen (fmt_m12s pre) + slen (format 0%nat) + 1 < size ->
  commit_printf fuel format size pre = LRet (fmt_m12s pre +:+ format 0%nat +:+ newline, size).
Proof.
  intros F H. destruct fuel as [|fuel]; [lia|]. unfold commit_printf. cbn [printf_retry]. destruct (Z.leb_spec size (slen (format 0%nat) + slen (fmt_m12s pre) + 1)); [lia|done].
Qed.
(** One that does not fit is what the second call of [vsnprintf] makes of the
    arguments, if that is not longer: right only if it can walk them again. *)
Theorem commit_printf_retried fuel format size pre : (2 <= fuel)%nat -> size <= slen (fmt_m12s pre) + slen (format 0%nat) + 1 ->
  slen (format 1%nat) <= slen (format 0%nat) ->
  exists size', commit_printf fuel format size pre = LRet (fmt_m12s pre +:+ format 1%nat +:+ newline, size').
Proof.
  intros F H L. destruct fuel as [|[|fuel]]; [lia|lia|]. unfold commit_printf. cbn [printf_retry].
  destruct (Z.leb_spec size (slen (format 0%nat) + slen (fmt_m12s pre) + 1)); [|lia].
  destruct (Z.leb_spec (slen (format 0%nat) + slen (fmt_m12s pre) + 2) (slen (format 1%nat) + slen (fmt_m12s pre) + 1)); [lia|]. eauto.
Qed.

(** *** The streams *)
(** Registered streams are found under their names. *)
Definition logger_inv (l : Logger) : Prop :=
  (forall n a, streams l !! n = Some a -> exists s, all_streams l !! a = Some s /\ ls_name s = n /\ initialized s = true) /\
  (forall a s, all_streams l !! a = Some s -> initialized s = true -> is_Some (streams l !! ls_name s)).
Theorem setup_inv a l l' : logger_inv l -> setup a l = POk l' -> logger_inv l'.
Proof.
  intros [I1 I2]. unfold setup. destruct (all_streams l !! a) as [s|] eqn:A; [|done]. cbn.
  destruct (initialized s) eqn:B; [intros [= <-]; done|]. intros [= <-]. unfold emplace. split; cbn.
  - intros n x. destruct (streams l !! ls_name s) as [y|] eqn:Y.
    + intros Hx. destruct (I1 n x Hx) as (t & T & N & J). exists t. split; [|done]. rewrite lookup_insert_ne; [done|]. intros <-. congruence.
    + rewrite lookup_insert. case_decide as D; [intros [= <-]; exists (set_initialized s); rewrite lookup_insert_eq; done|].
      intros Hx. destruct (I1 n x Hx) as (t & T & N & J). exists t. split; [|done]. rewrite lookup_insert_ne; [done|]. intros <-. congruence.
  - intros x t. rewrite lookup_insert. case_decide as D.
    + intros [= <-] _. cbn. destruct (streams l !! ls_name s) eqn:Y; [by rewrite Y|]. by rewrite lookup_insert_eq.
    + intros T J. destruct (I2 x t T J) as [y Hy]. destruct (streams l !! ls_name s) eqn:Y; [by rewrite Hy|].
      rewrite lookup_insert. case_decide; eauto.
Qed.
(** [enable] turns on the stream of that name and no other. *)
Theorem enable_level name l : logger_inv l -> exists l', enable name None l = POk l' /\ logger_inv l' /\
  forall a s, all_streams l !! a = Some s -> exists s', all_streams l' !! a = Some s' /\
    level s' = level s || bool_decide (streams l !! name = Some a).
Proof.
  intros [I1 I2]. unfold enable. destruct (streams l !! name) as [b|] eqn:B.
  - destruct (I1 _ _ B) as (t & T & N & J). rewrite T. cbn. eexists. split; [done|]. split.
    + split; cbn.
      * intros n x Hx. destruct (I1 n x Hx) as (u & U & Nu & Ju). destruct (decide (x = b)) as [->|].
        -- exists (set_level t). rewrite lookup_insert_eq. rewrite T in U. injection U as <-. done.
        -- exists u. rewrite lookup_insert_ne by done. done.
      * intros x u. rewrite lookup_insert. case_decide as D; [intros [= <-]; cbn; intros; eauto|eauto].
    + cbn. intros a s A. rewrite lookup_insert. case_decide as D.
      * subst a. rewrite bool_decide_true by done. eexists. split; [done|]. cbn. by rewrite orb_true_r.
      * rewrite bool_decide_false by congruence. exists s. by rewrite orb_false_r.
  - exists l. split; [done|]. split; [done|]. intros a s A. exists s. rewrite bool_decide_false by done. by rewrite orb_false_r.
Qed.
