(* ===== verification/AotFile.v ===== *)
(** * Ahead-of-time object files (src/dbt/aot/aot_file.cpp, aot_boot.cpp, aot.h)

    [AOTCompileELF] compiles the jobs of every profiled page into one arena and
    writes an object file with the code, a symbol for every region and an empty
    table; [LinkAOTObject] has it linked, looks the regions up in the symbol
    table of the result and writes the table of regions into the file;
    [BootAOTFile] loads the file at the next start and announces the regions of
    the table to the translation cache.

    What the assembler, the linker and the dynamic loader make is a parameter:
    the size of assembled code, the linked file with its symbol table and
    section headers, the address the file is loaded at and the memory then.  A
    file is its bytes by offset. *)

From stdpp Require Import base tactics numbers list strings gmap.
From S2P Require Import Prelude Common Bitfield RV32Insn GuestState Qir QirSem RV32Translator Arena BranchSlot Tcache Execute.
From S2P Require Import ModuleGraph ModuleGraphInv ModuleGraphDom ModuleGraphRegions Analyser Aot AotPages ObjProf Amd64 QEmit AotSymbol.

(** ** Data (src/dbt/aot/aot.h) *)
Definition AOT_SYM_AOTTAB : string := "_aot_tab".
Record AOTSymbol := mkAS { as_gip : Z; aot_vaddr : Z }.
Definition sizeof_AOTSymbol : Z := 16.
Definition sizeof_AOTTabHeader : Z := 8.

(** The two sections with contents, and the symbols of the object file. *)
Inductive elf_section := sec_aot | sec_aottab.
#[export] Instance elf_section_eq : EqDecision elf_section.
Proof. solve_decision. Defined.
Inductive elf_type := STT_FUNC | STT_OBJECT.
Record elf_symbol := mkSym { sym_name : string; sym_value : Z; sym_size : Z; sym_type : elf_type; sym_sec : elf_section }.

(** ** [AOTCompilerRuntime]

    [code_at] is the code in the memory of the arena. *)
Record AOTCompilerRuntime := mkRT {
  code_arena : MemArena; code_at : gmap Z (list item); elf_syma : list elf_symbol; aotsyms : list AOTSymbol }.

Definition AOT_AllocateCode (sz align : Z) (rt : AOTCompilerRuntime) : option Z * AOTCompilerRuntime :=
  let '(p, a) := Allocate sz align (code_arena rt) in (p, mkRT a (code_at rt) (elf_syma rt) (aotsyms rt)).
Definition AOT_AllowsRelocation : bool := true.
Definition AOT_AnnounceRegion (ip code_data code_size : Z) (rt : AOTCompilerRuntime) : AOTCompilerRuntime :=
  let code_offs := u64 (code_data - BaseAddr (code_arena rt)) in
  mkRT (code_arena rt) (code_at rt)
    (elf_syma rt ++ [mkSym (MakeAotSymbol ip) code_offs code_size STT_FUNC sec_aot])
    (aotsyms rt ++ [mkAS ip 0]).

Section compile.
Context (code : mem) (stub_tab : RuntimeStubId -> Z) (l1_brind_cache : Z) (host_order : list nid -> list nid).
(** [jcode.codeSize()] *)
Context (asm_size : list item -> Z).

(** [QEmit::EmitCode] *)
Definition EmitCode (jcode : list item) (rt : AOTCompilerRuntime) : pres (Z * Z * AOTCompilerRuntime) :=
  let code_sz := asm_size jcode in
  match AOT_AllocateCode code_sz 8 rt with
  | (None, _) => PPanic
  | (Some code_ptr, rt) => POk (code_ptr, code_sz, mkRT (code_arena rt) (<[code_ptr := jcode]> (code_at rt)) (elf_syma rt) (aotsyms rt))
  end.

(** [CompilerDoJob].  A job whose translation or code generation aborts, or
    does not return from the register allocator, is [LPanic]. *)
Definition job_code (segment : CodeSegment) (iprange : list IpRange) : option (list item) :=
  t ← Translate code iprange;
  qcg_GenerateCode (negb AOT_AllowsRelocation) segment stub_tab l1_brind_cache (t_rn t).
Definition AOT_DoJob (segment : CodeSegment) (iprange : list IpRange) (rt : AOTCompilerRuntime) : lres AOTCompilerRuntime :=
  match iprange with
  | [] => LPanic
  | (entry_ip, _) :: _ =>
      match job_code segment iprange with
      | None => LPanic
      | Some jcode => '(code_data, code_size, rt) ← lift (EmitCode jcode rt); LRet (AOT_AnnounceRegion entry_ip code_data code_size rt)
      end
  end.

(** [AOTCompilePage] with its jobs run, [AOTCompileObject] *)
Definition page_segment (page : PageData) : CodeSegment := mkSegment (page_vaddr page) PAGE_SIZE.
Definition AOTCompilePage_run (page : PageData) (rt : AOTCompilerRuntime) : lres AOTCompilerRuntime :=
  jobs ← AOTCompilePage code host_order page;
  lfold (AOT_DoJob (page_segment page)) jobs rt.
Definition AOTCompileObject (profile : list PageData) (rt : AOTCompilerRuntime) : lres AOTCompilerRuntime :=
  lfold AOTCompilePage_run profile rt.

(** ** [AOTCompileELF] up to the object file *)
Record ELFObject := mkObj { o_code : gmap Z (list item); o_aot_size : Z; o_aottab_size : Z; o_syms : list elf_symbol }.
Definition object_of (rt : AOTCompilerRuntime) : ELFObject :=
  let aottab_size := sizeof_AOTTabHeader + sizeof_AOTSymbol * Z.of_nat (length (aotsyms rt)) in
  mkObj (code_at rt) (GetUsedSize (code_arena rt)) aottab_size
    (elf_syma rt ++ [mkSym AOT_SYM_AOTTAB 0 aottab_size STT_OBJECT sec_aottab]).
(** [arena_mmap]: what the mapping of the arena of 256 MB returns. *)
Definition AOTCompile_object (arena_mmap : option Z) (prof : objprof.ElfProfile) : lres (AOTCompilerRuntime * ELFObject) :=
  arena ← lift (Arena.Init arena_mmap (256 * 1024 * 1024) MemArena_init);
  profile ← lift (objprof.GetProfile prof);
  rt ← AOTCompileObject profile (mkRT arena ∅ [] []);
  LRet (rt, object_of rt).
End compile.

(** ** [LinkAOTObject] *)
(** The linked file: the lookup in its symbol table (the address and the
    section), its section headers (address and offset in the file) and its
    bytes. *)
Record linked := mkLk { get_symbol : string -> option (Z * nat); lk_sections : list (Z * Z); lk_file : mem }.

Section link.
Context (elf : linked).

Definition resolve_sym (name : string) : pres (Z * nat) := pderef (get_symbol elf name).
Definition resolve_one (sym : AOTSymbol) : pres AOTSymbol :=
  '(addr, _) ← resolve_sym (MakeAotSymbol (as_gip sym)); POk (mkAS (as_gip sym) addr).
Fixpoint resolve_all (syms : list AOTSymbol) : pres (list AOTSymbol) :=
  match syms with [] => POk [] | sym :: syms => sym ← resolve_one sym; syms ← resolve_all syms; POk (sym :: syms) end.

Definition find_aottab : pres Z :=
  '(vaddr, shidx) ← resolve_sym AOT_SYM_AOTTAB;
  '(address, offset) ← pderef (lk_sections elf !! shidx);
  POk (u64 (offset + (vaddr - address))).
End link.

(** The two [write]s.  The padding of [AOTSymbol] is what the memory held. *)
Fixpoint write_syms (padding : Z) (syms : list AOTSymbol) (offs : Z) (file : mem) : mem :=
  match syms with
  | [] => file
  | sym :: syms =>
      let file := put_le 4 file offs (as_gip sym) in
      let file := put_le 4 file (offs + 4) padding in
      let file := put_le 8 file (offs + 8) (aot_vaddr sym) in
      write_syms padding syms (offs + sizeof_AOTSymbol) file
  end.
Definition write_aottab (padding : Z) (syms : list AOTSymbol) (offs : Z) (file : mem) : mem :=
  write_syms padding syms (offs + sizeof_AOTTabHeader) (put_le 8 file offs (Z.of_nat (length syms))).

(** The program headers: loaded segments with code become writable. *)
Definition PT_LOAD : Z := 1.
Definition PF_X : Z := 1.
Definition PF_W : Z := 2.
Definition sizeof_Phdr : Z := 56.
Definition patch_phdr (phtab : Z) (i : Z) (file : mem) : pres mem :=
  let phdr := phtab + sizeof_Phdr * i in
  p_type ← pderef (load_le 4 file phdr);
  if negb (p_type =? PT_LOAD) then POk file
  else
    p_flags ← pderef (load_le 4 file (phdr + 4));
    if Z.land p_flags PF_X =? 0 then POk file else POk (put_le 4 file (phdr + 4) (Z.lor p_flags PF_W)).
Fixpoint patch_phdrs (phtab : Z) (n : nat) (i : Z) (file : mem) : pres mem :=
  match n with O => POk file | S n => file ← patch_phdr phtab i file; patch_phdrs phtab n (i + 1) file end.
Definition patch_phtab (file : mem) : pres mem :=
  e_phoff ← pderef (load_le 8 file 32);
  e_phnum ← pderef (load_le 2 file 56);
  patch_phdrs e_phoff (Z.to_nat e_phnum) 0 file.

(** [ld]: what [system] left behind; [files_ok]: no call on the file failed. *)
Definition LinkAOTObject (ld : option linked) (files_ok : bool) (padding : Z) (aot_symbols : list AOTSymbol)
    : pres (list AOTSymbol * mem) :=
  elf ← pderef ld;
  syms ← resolve_all elf aot_symbols;
  aottab_offs ← find_aottab elf;
  passert files_ok;;
  file ← patch_phtab (write_aottab padding syms aottab_offs (lk_file elf));
  POk (syms, file).

(** ** [AOTCompileELF] *)
Definition AOTCompileELF (code : mem) (stub_tab : RuntimeStubId -> Z) (l1_brind_cache : Z) (host_order : list nid -> list nid)
    (asm_size : list item -> Z) (ld : ELFObject -> option linked) (files_ok : bool) (padding : Z)
    (arena_mmap : option Z) (prof : objprof.ElfProfile) : lres (option mem) :=
  if negb (objprof.HasProfile prof) then LRet None
  else
    '(rt, obj) ← AOTCompile_object code stub_tab l1_brind_cache host_order asm_size arena_mmap prof;
    '(_, file) ← lift (LinkAOTObject (ld obj) files_ok padding (aotsyms rt));
    LRet (Some file).

(** ** [BootAOTFile]

    [dl]: the load address of the file and its symbol [AOT_SYM_AOTTAB].
    When [dlopen] fails the function goes on with a null handle and does not
    survive [dlinfo]. *)
Definition announce (l_addr : Z) (sym : AOTSymbol) (tc : tcache) : pres tcache :=
  '(tb, tc) ← AllocateTBlock tc;
  Insert tb (set_tb tb (mkTB (u64 (l_addr + aot_vaddr sym)) 0 (as_gip sym) false false) tc).
Definition read_sym (m : mem) (a : Z) : pres AOTSymbol :=
  gip ← pderef (load_le 4 m a);
  vaddr ← pderef (load_le 8 m (a + 8));
  POk (mkAS gip vaddr).
Fixpoint announce_all (l_addr : Z) (m : mem) (n : nat) (a : Z) (tc : tcache) : pres tcache :=
  match n with
  | O => POk tc
  | S n =>
      sym ← read_sym m a;
      tc ← announce l_addr sym tc;
      announce_all l_addr m n (a + sizeof_AOTSymbol) tc
  end.
Definition BootAOTFile (dl : option (Z * option Z)) (m : mem) (tc : tcache) : pres tcache :=
  '(l_addr, sym) ← pderef dl;
  aottab ← pderef sym;
  n_sym ← pderef (load_le 8 m aottab);
  announce_all l_addr m (Z.to_nat n_sym) (aottab + sizeof_AOTTabHeader) tc.

(** ** The compiled object *)
Section compile_proofs.
Context (code : mem) (stub_tab : RuntimeStubId -> Z) (l1_brind_cache : Z) (host_order : list nid -> list nid).
Context (asm_size : list item -> Z).
Notation job_code := (job_code code stub_tab l1_brind_cache).
Notation DoJob := (AOT_DoJob code stub_tab l1_brind_cache asm_size).
Abbreviation job := (CodeSegment * list IpRange)%type.
(** The assembler makes something of the code of a job. *)
Definition asm_ok : Prop := forall seg j jcode, job_code seg j = Some jcode -> 0 < asm_size jcode <= 2 ^ 32.
Context (Hasm : asm_ok).

Definition job_entry (j : job) : Z := entry_of j.2.
(** The symbol of a job and its code in the arena. *)
Definition region_sym (rt : AOTCompilerRuntime) (j : job) (s : elf_symbol) : Prop :=
  exists jcode off, job_code j.1 j.2 = Some jcode /\ s = mkSym (MakeAotSymbol (job_entry j)) off (asm_size jcode) STT_FUNC sec_aot /\
    code_at rt !! (BaseAddr (code_arena rt) + off) = Some jcode /\ 0 <= off /\ off + asm_size jcode <= GetUsedSize (code_arena rt).
Record rt_inv (js : list job) (rt : AOTCompilerRuntime) : Prop := {
  ri_arena : arena_wf (code_arena rt);
  ri_syms : aotsyms rt = (fun j => mkAS (job_entry j) 0) <$> js;
  ri_elf : Forall2 (region_sym rt) js (elf_syma rt);
  ri_at p c : code_at rt !! p = Some c -> p < BaseAddr (code_arena rt) + GetUsedSize (code_arena rt) }.

Lemma rt_inv_init p arena : Arena.Init p (256 * 1024 * 1024) MemArena_init = POk arena -> rt_inv [] (mkRT arena ∅ [] []).
Proof.
  intros H. split; cbn; [|done|constructor|done].
  destruct p as [p|]; [by eapply Init_wf in H as [? _]; [|lia]|]. cbv in H. discriminate H.
Qed.

Lemma AOT_DoJob_inv seg j js rt rt' : DoJob seg j rt = LRet rt' -> rt_inv js rt -> rt_inv (js ++ [(seg, j)]) rt'.
Proof.
  intros H [Ha Hs He Hat]. unfold AOT_DoJob in H. destruct j as [|[ip e] rest]; [done|].
  destruct (job_code seg ((ip, e) :: rest)) as [jcode|] eqn:Ec; [|done]. pose proof (Hasm _ _ _ Ec) as Hz.
  apply lbind_ret in H as ([[p sz] rt1] & H1%lift_ret & [= <-]). unfold EmitCode, AOT_AllocateCode in H1.
  pose proof (Allocate_spec (asm_size jcode) 8 (code_arena rt) Ha ltac:(split; cbn; lia)) as HA.
  pose proof (Allocate_wf (asm_size jcode) 8 (code_arena rt) Ha ltac:(split; cbn; lia)) as Hw.
  destruct (Allocate (asm_size jcode) 8 (code_arena rt)) as [[q|] a']; [|done]. injection H1 as <- <- <-.
  destruct HA as (start & -> & Hst & _ & Hle & ->). cbn [snd] in Hw. destruct Ha as [Hu Hp].
  unfold AOT_AnnounceRegion, BaseAddr, GetUsedSize in *. cbn [code_arena code_at elf_syma aotsyms pool used] in *.
  replace (pool (code_arena rt) + start - pool (code_arena rt)) with start by lia.
  rewrite (uN_id 64 start) by (unfold in_u; lia). split; cbn [code_arena code_at elf_syma aotsyms].
  - done.
  - by rewrite Hs, fmap_app.
  - apply Forall2_app.
    + eapply Forall2_impl; [exact He|]. intros j s (c & off & Hc & -> & Hl & H0 & Hoff). exists c, off.
      unfold BaseAddr, GetUsedSize in *. cbn [code_arena code_at pool used]. split_and!; try done; [|lia].
      rewrite lookup_insert_ne; [done|]. pose proof (Hat _ _ Hl). pose proof (Hasm _ _ _ Hc). lia.
    + constructor; [|constructor]. exists jcode, start. unfold BaseAddr, GetUsedSize. cbn [code_arena code_at pool used fst snd].
      split_and!; try done; [by rewrite lookup_insert_eq|lia].
  - intros p c. unfold BaseAddr, GetUsedSize. cbn [code_arena pool used]. intros [[<- _]|[_ Hp']]%lookup_insert_Some; [lia|].
    specialize (Hat _ _ Hp'). lia.
Qed.

(** The jobs of the pages of a profile. *)
Definition page_job_list (page : PageData) : list job :=
  match AOTCompilePage code host_order page with LRet jobs => pair (page_segment page) <$> jobs | _ => [] end.
Definition all_jobs (profile : list PageData) : list job := mjoin (page_job_list <$> profile).

Lemma DoJobs_inv seg jobs : forall js rt rt', lfold (DoJob seg) jobs rt = LRet rt' -> rt_inv js rt -> rt_inv (js ++ (pair seg <$> jobs)) rt'.
Proof.
  induction jobs as [|j jobs IH]; intros js rt rt'; cbn [lfold].
  - intros [= <-] ?. by rewrite app_nil_r.
  - intros (rt1 & H1 & H2)%lbind_ret HI. rewrite fmap_cons, cons_middle, app_assoc. eapply IH; [exact H2|]. by eapply AOT_DoJob_inv.
Qed.
Lemma AOTCompileObject_inv profile : forall js rt rt',
  AOTCompileObject code stub_tab l1_brind_cache host_order asm_size profile rt = LRet rt' -> rt_inv js rt -> rt_inv (js ++ all_jobs profile) rt'.
Proof.
  unfold AOTCompileObject, all_jobs. induction profile as [|page profile IH]; intros js rt rt'; cbn [lfold].
  - intros [= <-] ?. by rewrite app_nil_r.
  - intros (rt1 & H1 & H2)%lbind_ret HI. rewrite fmap_cons, join_cons, app_assoc. eapply IH; [exact H2|].
    unfold AOTCompilePage_run in H1. apply lbind_ret in H1 as (jobs & Hj & H1). unfold page_job_list. rewrite Hj. by eapply DoJobs_inv.
Qed.

(** Entries are distinct over all pages. *)
Context (Hord : forall l, host_order l ≡ₚ l).
Definition profile_ok (profile : list PageData) : Prop :=
  Forall (fun page => exists g, page_ok code page g) profile /\ NoDup (pageno <$> profile).

Lemma page_job_list_spec page g : page_ok code page g ->
  Forall (fun j => job_entry j / PAGE_SIZE = pageno page /\ in_u 32 (job_entry j)) (page_job_list page) /\ NoDup (job_entry <$> page_job_list page).
Proof.
  intros Hpo. destruct (page_jobs code host_order page g Hord Hpo) as (jobs & Eq & HF & _ & Hnd & _). unfold page_job_list. rewrite Eq. split.
  - apply Forall_fmap. eapply Forall_impl; [exact HF|]. intros j (_ & ? & ?). done.
  - by rewrite <- list_fmap_compose.
Qed.
Lemma all_jobs_entries profile : profile_ok profile ->
  Forall (fun j => in_u 32 (job_entry j) /\ job_entry j / PAGE_SIZE ∈ pageno <$> profile) (all_jobs profile) /\ NoDup (job_entry <$> all_jobs profile).
Proof.
  intros [HF Hnd]. unfold all_jobs. induction profile as [|page profile IH]; [split; constructor|].
  apply Forall_cons in HF as [[g Hg] HF]. rewrite fmap_cons in Hnd. apply NoDup_cons in Hnd as [Hni Hnd]. destruct (IH HF Hnd) as [IF IN].
  destruct (page_job_list_spec page g Hg) as [PF PN]. rewrite !fmap_cons, join_cons, fmap_app. split.
  - apply Forall_app. split; (eapply Forall_impl; [eassumption|]); cbn beta; intros j; rewrite elem_of_cons; naive_solver.
  - apply NoDup_app. split; [done|]. split; [|done]. intros x Hx%list_elem_of_fmap Hy%list_elem_of_fmap.
    destruct Hx as (j & -> & Hj), Hy as (j' & Hjj & Hj'). rewrite Forall_forall in PF, IF. destruct (PF j Hj) as [Hp _].
    destruct (IF j' Hj') as [_ Hp']. rewrite Hjj in Hp. congruence.
Qed.
(** ** The compilation succeeds *)
(** What the code of the jobs takes in the arena, with its alignment. *)
Definition job_room (j : job) : Z := from_option (fun c => asm_size c + 8) 0 (job_code j.1 j.2).
Definition jobs_room (js : list job) : Z := foldr (fun j n => job_room j + n) 0 js.
Definition compiles (j : job) : Prop := is_Some (job_code j.1 j.2).
Lemma jobs_room_app a b : jobs_room (a ++ b) = jobs_room a + jobs_room b.
Proof. unfold jobs_room. induction a as [|j a IH]; cbn; [done|]. rewrite IH. lia. Qed.
Lemma jobs_room_nonneg js : 0 <= jobs_room js.
Proof.
  unfold jobs_room. induction js as [|j js IH]; cbn; [lia|]. unfold job_room at 1. unfold from_option. destruct (job_code j.1 j.2) eqn:E; [|lia].
  pose proof (Hasm _ _ _ E). lia.
Qed.
Lemma AOT_DoJob_total seg j rt : j <> [] -> compiles (seg, j) -> arena_wf (code_arena rt) ->
  GetUsedSize (code_arena rt) + job_room (seg, j) <= pool_sz (code_arena rt) ->
  exists rt', DoJob seg j rt = LRet rt' /\ arena_wf (code_arena rt') /\ pool_sz (code_arena rt') = pool_sz (code_arena rt) /\
    GetUsedSize (code_arena rt') <= GetUsedSize (code_arena rt) + job_room (seg, j).
Proof.
  intros Hj [c Hc] Ha Hr. unfold AOT_DoJob. destruct j as [|[ip e] rest]; [done|]. unfold job_room in *. cbn [fst snd] in *.
  rewrite Hc in *. cbn [from_option] in Hr. pose proof (Hasm _ _ _ Hc) as Hz. unfold EmitCode, AOT_AllocateCode.
  pose proof (Allocate_spec (asm_size c) 8 (code_arena rt) Ha ltac:(split; cbn; lia)) as HA.
  pose proof (Allocate_wf (asm_size c) 8 (code_arena rt) Ha ltac:(split; cbn; lia)) as Hw.
  unfold GetUsedSize in *. destruct (Allocate (asm_size c) 8 (code_arena rt)) as [[q|] a']; [|destruct HA; lia].
  destruct HA as (start & -> & Hst & _ & Hle & ->). cbn [lift mbind lres_bind]. eexists. split; [done|]. unfold AOT_AnnounceRegion. cbn [code_arena pool_sz used fst snd from_option]. split; [exact Hw|]. split; [done|lia].
Qed.
Lemma DoJobs_total seg jobs : forall rt, Forall (fun j => j <> []) jobs -> Forall compiles (pair seg <$> jobs) -> arena_wf (code_arena rt) ->
  GetUsedSize (code_arena rt) + jobs_room (pair seg <$> jobs) <= pool_sz (code_arena rt) ->
  exists rt', lfold (DoJob seg) jobs rt = LRet rt' /\ arena_wf (code_arena rt') /\ pool_sz (code_arena rt') = pool_sz (code_arena rt) /\
    GetUsedSize (code_arena rt') <= GetUsedSize (code_arena rt) + jobs_room (pair seg <$> jobs).
Proof.
  induction jobs as [|j jobs IH]; intros rt Hn Hc Ha Hr; cbn [lfold]; [exists rt; rewrite fmap_nil; cbn [jobs_room foldr]; split_and!; [done..|lia]|].
  apply Forall_cons in Hn as [Hj Hn]. rewrite fmap_cons in Hc, Hr |- *. apply Forall_cons in Hc as [Hcj Hc]. cbn [jobs_room foldr] in Hr |- *.
  fold (jobs_room (pair seg <$> jobs)) in *. pose proof (jobs_room_nonneg (pair seg <$> jobs)).
  destruct (AOT_DoJob_total seg j rt Hj Hcj Ha ltac:(lia)) as (rt1 & -> & Ha1 & Hp1 & Hu1). cbn [mbind lres_bind].
  destruct (IH rt1 Hn Hc Ha1 ltac:(lia)) as (rt2 & E2 & Ha2 & Hp2 & Hu2). exists rt2. split_and!; [exact E2|done|lia|lia].
Qed.
Lemma AOTCompileObject_total profile : forall rt, Forall (fun page => exists g, page_ok code page g) profile ->
  Forall compiles (all_jobs profile) -> arena_wf (code_arena rt) ->
  GetUsedSize (code_arena rt) + jobs_room (all_jobs profile) <= pool_sz (code_arena rt) ->
  exists rt', AOTCompileObject code stub_tab l1_brind_cache host_order asm_size profile rt = LRet rt'.
Proof.
  unfold AOTCompileObject, all_jobs. induction profile as [|page profile IH]; intros rt Hp Hc Ha Hr; cbn [lfold]; [eauto|].
  apply Forall_cons in Hp as [[g Hg] Hp]. rewrite fmap_cons, join_cons in Hc, Hr. apply Forall_app in Hc as [Hc1 Hc2].
  rewrite jobs_room_app in Hr. pose proof (jobs_room_nonneg (mjoin (page_job_list <$> profile))).
  destruct (page_jobs code host_order page g Hord Hg) as (jobs & Eq & HF & _). unfold AOTCompilePage_run.
  assert (Ej : page_job_list page = pair (page_segment page) <$> jobs) by (unfold page_job_list; by rewrite Eq).
  rewrite Ej in Hc1, Hr. rewrite Eq. cbn [mbind lres_bind].
  destruct (DoJobs_total (page_segment page) jobs rt) as (rt1 & -> & Ha1 & Hp1 & Hu1); [|done|done|lia|].
  { eapply Forall_impl; [exact HF|]. by intros j (? & _). }
  cbn [mbind lres_bind]. apply IH; auto; lia.
Qed.
Lemma AOTCompile_object_total arena_mmap prof profile : is_Some arena_mmap -> objprof.GetProfile prof = POk profile -> profile_ok profile ->
  Forall compiles (all_jobs profile) -> jobs_room (all_jobs profile) <= 256 * 1024 * 1024 ->
  exists rt obj, AOTCompile_object code stub_tab l1_brind_cache host_order asm_size arena_mmap prof = LRet (rt, obj).
Proof.
  intros [p ->] Hprof [Hp _] Hc Hr. unfold AOTCompile_object.
  destruct (Arena.Init (Some p) (256 * 1024 * 1024) MemArena_init) as [arena|] eqn:Ea; [|cbv in Ea; discriminate Ea].
  pose proof (Init_wf p (256 * 1024 * 1024) MemArena_init arena ltac:(lia) Ea) as (Ha & Hu & Hs). cbn [lift mbind lres_bind]. rewrite Hprof. cbn [lift mbind lres_bind].
  destruct (AOTCompileObject_total profile (mkRT arena ∅ [] []) Hp Hc Ha) as [rt ->]; [cbn [code_arena]; unfold GetUsedSize; lia|].
  cbn. eauto.
Qed.
End compile_proofs.

(** ** The table in the file *)
Lemma write_syms_outside pad syms : forall offs file x, x < offs \/ offs + 16 * Z.of_nat (length syms) <= x ->
  write_syms pad syms offs file !! x = file !! x.
Proof.
  induction syms as [|s syms IH]; intros offs file x Hx; [done|]. cbn [write_syms]. cbn [length] in Hx.
  rewrite IH by (unfold sizeof_AOTSymbol; lia). by rewrite !put_le_lookup_ne by lia.
Qed.
Definition sym_ok (s : AOTSymbol) : Prop := in_u 32 (as_gip s) /\ in_u 64 (aot_vaddr s).

(** The memory [m] has at [a] what the file has at [offs], for [n] bytes. *)
Definition same_bytes (m file : mem) (a offs n : Z) : Prop := forall i, 0 <= i < n -> m !! (a + i) = file !! (offs + i).
Lemma load_same n m file a offs sz i : same_bytes m file a offs sz -> 0 <= i -> i + Z.of_nat n <= sz ->
  load_le n m (a + i) = load_le n file (offs + i).
Proof.
  revert i. induction n as [|n IH]; intros i Hs Hi Hn; [done|]. cbn [load_le]. rewrite (Hs i) by lia.
  replace (a + i + 1) with (a + (i + 1)) by lia. replace (offs + i + 1) with (offs + (i + 1)) by lia. by rewrite IH by (done || lia).
Qed.

Lemma read_sym_ext m m' a : (forall x, a <= x < a + 16 -> m !! x = m' !! x) -> read_sym m a = read_sym m' a.
Proof.
  intros H. unfold read_sym. rewrite (load_le_ext 4 m m' a) by (intros; apply H; lia).
  by rewrite (load_le_ext 8 m m' (a + 8)) by (intros; apply H; lia).
Qed.
Lemma read_written pad syms : forall offs file i s, Forall sym_ok syms -> syms !! i = Some s ->
  read_sym (write_syms pad syms offs file) (offs + 16 * Z.of_nat i) = POk s.
Proof.
  induction syms as [|s0 syms IH]; intros offs file i s HF Hi; [done|]. apply Forall_cons in HF as [[Hg Hv] HF]. cbn [write_syms].
  destruct i as [|i]; cbn [lookup list_lookup] in Hi.
  - injection Hi as <-. rewrite Z.mul_0_r, Z.add_0_r.
    rewrite (read_sym_ext _ (put_le 8 (put_le 4 (put_le 4 file offs (as_gip s0)) (offs + 4) pad) (offs + 8) (aot_vaddr s0)))
      by (intros x Hx; apply write_syms_outside; unfold sizeof_AOTSymbol; lia).
    unfold read_sym. rewrite load_le_put, !load_le_put_ne by lia. rewrite load_le_put. cbn [pderef mbind pres_bind].
    change (8 * Z.of_nat 4) with 32. change (8 * Z.of_nat 8) with 64. rewrite !uN_id by done. by destruct s0.
  - replace (offs + 16 * Z.of_nat (S i)) with (offs + sizeof_AOTSymbol + 16 * Z.of_nat i) by (unfold sizeof_AOTSymbol; lia). by apply IH.
Qed.

(** Announcing a list of symbols. *)
Fixpoint announce_list (l_addr : Z) (syms : list AOTSymbol) (tc : tcache) : pres tcache :=
  match syms with [] => POk tc | s :: syms => tc ← announce l_addr s tc; announce_list l_addr syms tc end.
Lemma announce_all_read l_addr m syms : forall a tc,
  (forall i s, syms !! i = Some s -> read_sym m (a + 16 * Z.of_nat i) = POk s) ->
  announce_all l_addr m (length syms) a tc = announce_list l_addr syms tc.
Proof.
  induction syms as [|s syms IH]; intros a tc H; [done|]. cbn [length announce_all announce_list].
  pose proof (H 0%nat s eq_refl) as H0. rewrite Z.mul_0_r, Z.add_0_r in H0. rewrite H0. cbn [mbind pres_bind].
  destruct (announce l_addr s tc) as [tc'|]; [|done]. cbn [pres_bind]. apply IH. intros i s' Hi.
  replace (a + sizeof_AOTSymbol + 16 * Z.of_nat i) with (a + 16 * Z.of_nat (S i)) by (unfold sizeof_AOTSymbol; lia). by apply H.
Qed.

(** What is written is what a start reads back. *)
Definition tab_size (syms : list AOTSymbol) : Z := sizeof_AOTTabHeader + sizeof_AOTSymbol * Z.of_nat (length syms).
Lemma tab_outside pad syms offs file x : x < offs \/ offs + tab_size syms <= x -> write_aottab pad syms offs file !! x = file !! x.
Proof.
  unfold tab_size, write_aottab, sizeof_AOTTabHeader, sizeof_AOTSymbol. intros Hx. rewrite write_syms_outside by lia. by rewrite put_le_lookup_ne by lia.
Qed.
Lemma boot_written pad syms offs file file' l_addr tab m tc :
  Forall sym_ok syms -> Z.of_nat (length syms) < 2 ^ 64 ->
  same_bytes file' (write_aottab pad syms offs file) offs offs (tab_size syms) -> same_bytes m file' tab offs (tab_size syms) ->
  BootAOTFile (Some (l_addr, Some tab)) m tc = announce_list l_addr syms tc.
Proof.
  intros HF Hn Hff Hm.
  assert (Hmw : same_bytes m (write_aottab pad syms offs file) tab offs (tab_size syms)) by (intros i Hi; rewrite Hm, Hff by done; done).
  unfold BootAOTFile. cbn [pderef mbind pres_bind].
  pose proof (load_same 8 _ _ _ _ _ 0 Hmw ltac:(lia)) as H8. rewrite !Z.add_0_r in H8.
  rewrite H8 by (unfold tab_size, sizeof_AOTTabHeader, sizeof_AOTSymbol; lia). unfold write_aottab at 1.
  rewrite (load_le_ext 8 _ (put_le 8 file offs (Z.of_nat (length syms)))) by
    (intros x Hx; apply write_syms_outside; unfold sizeof_AOTTabHeader; lia).
  rewrite load_le_put. cbn [pderef mbind pres_bind]. change (8 * Z.of_nat 8) with 64. rewrite uN_id by (unfold in_u; lia). rewrite Nat2Z.id.
  apply announce_all_read. intros i s Hi. pose proof (lookup_lt_Some _ _ _ Hi) as Hlt.
  rewrite <- (read_written pad syms (offs + sizeof_AOTTabHeader) (put_le 8 file offs (Z.of_nat (length syms))) i s HF Hi).
  fold (write_aottab pad syms offs file). unfold read_sym. unfold tab_size, sizeof_AOTTabHeader, sizeof_AOTSymbol in *.
  replace (tab + 8 + 16 * Z.of_nat i) with (tab + (8 + 16 * Z.of_nat i)) by lia.
  replace (offs + 8 + 16 * Z.of_nat i) with (offs + (8 + 16 * Z.of_nat i)) by lia.
  rewrite (load_same 4 _ _ _ _ _ _ Hmw) by lia.
  replace (tab + (8 + 16 * Z.of_nat i) + 8) with (tab + (16 + 16 * Z.of_nat i)) by lia.
  replace (offs + (8 + 16 * Z.of_nat i) + 8) with (offs + (16 + 16 * Z.of_nat i)) by lia.
  by rewrite (load_same 8 _ _ _ _ _ _ Hmw) by lia.
Qed.

(** ** Program headers *)
Definition ph_type (file : mem) (phtab i : Z) : option Z := load_le 4 file (phtab + sizeof_Phdr * i).
Definition ph_flags (file : mem) (phtab i : Z) : option Z := load_le 4 file (phtab + sizeof_Phdr * i + 4).
(** Every header can be read. *)
Definition phdrs_mapped (file : mem) (phtab : Z) (n : nat) : Prop :=
  forall i, 0 <= i < Z.of_nat n -> is_Some (ph_type file phtab i) /\ is_Some (ph_flags file phtab i).
(** The flags of header [i] after the patch. *)
Definition patched_flags (file : mem) (phtab i : Z) : option Z :=
  t ← ph_type file phtab i; f ← ph_flags file phtab i;
  Some (if (t =? PT_LOAD) && negb (Z.land f PF_X =? 0) then uN 32 (Z.lor f PF_W) else f).

Lemma patch_phdr_spec phtab i file t f : ph_type file phtab i = Some t -> ph_flags file phtab i = Some f ->
  exists file', patch_phdr phtab i file = POk file' /\ ph_flags file' phtab i = patched_flags file phtab i /\
    forall x, ~ (phtab + sizeof_Phdr * i + 4 <= x < phtab + sizeof_Phdr * i + 8) -> file' !! x = file !! x.
Proof.
  intros Ht Hf. unfold patched_flags. rewrite Ht, Hf. cbn [mbind option_bind]. unfold patch_phdr. unfold ph_type in Ht. rewrite Ht.
  cbn [pderef mbind pres_bind]. destruct (t =? PT_LOAD); cbn [negb andb]; [|by exists file].
  pose proof Hf as Hf'. unfold ph_flags in Hf'. rewrite Hf'. cbn [pderef mbind pres_bind]. destruct (Z.land f PF_X =? 0); cbn [negb]; [by exists file|].
  eexists. split; [done|]. split.
  - unfold ph_flags. by rewrite load_le_put.
  - intros x Hx. apply put_le_lookup_ne. lia.
Qed.

Lemma ph_ext file file' phtab i : (forall x, phtab + sizeof_Phdr * i <= x < phtab + sizeof_Phdr * i + 8 -> file' !! x = file !! x) ->
  ph_type file' phtab i = ph_type file phtab i /\ ph_flags file' phtab i = ph_flags file phtab i.
Proof. intros H. unfold ph_type, ph_flags. split; apply load_le_ext; intros x Hx; apply H; lia. Qed.

Lemma patch_phdrs_spec phtab n : forall k file,
  (forall i, k <= i < k + Z.of_nat n -> is_Some (ph_type file phtab i) /\ is_Some (ph_flags file phtab i)) ->
  exists file', patch_phdrs phtab n k file = POk file' /\
    (forall i, k <= i < k + Z.of_nat n -> ph_flags file' phtab i = patched_flags file phtab i) /\
    forall x, ~ (exists i, k <= i < k + Z.of_nat n /\ phtab + sizeof_Phdr * i + 4 <= x < phtab + sizeof_Phdr * i + 8) -> file' !! x = file !! x.
Proof.
  induction n as [|n IH]; intros k file Hm; cbn [patch_phdrs]; [exists file; split_and!; [done|lia|done]|].
  destruct (Hm k) as [[t Ht] [f Hf]]; [lia|]. destruct (patch_phdr_spec phtab k file t f Ht Hf) as (f1 & -> & Hk & Ho1). cbn [mbind pres_bind].
  assert (Hext : forall i, k < i -> ph_type f1 phtab i = ph_type file phtab i /\ ph_flags f1 phtab i = ph_flags file phtab i).
  { intros i Hi. apply ph_ext. intros x Hx. apply Ho1. unfold sizeof_Phdr in *. lia. }
  destruct (IH (k + 1) f1) as (f2 & -> & Hfl & Ho2).
  { intros i Hi. destruct (Hext i ltac:(lia)) as [-> ->]. apply Hm. lia. }
  exists f2. split; [done|]. split.
  - intros i Hi. destruct (decide (i = k)) as [->|Hne].
    + rewrite <- Hk. unfold ph_flags. apply load_le_ext. intros x Hx. apply Ho2. intros (i & Hi2 & Hx2). unfold sizeof_Phdr in *. lia.
    + rewrite Hfl by lia. unfold patched_flags. by destruct (Hext i ltac:(lia)) as [-> ->].
  - intros x Hx. rewrite Ho2 by (intros (i & Hi & Hxi); apply Hx; exists i; split; [lia|done]).
    apply Ho1. intros Hx1. apply Hx. exists k. split; [lia|done].
Qed.

(** ** The translation cache after a start *)
Section boot.
Context (comp : Z -> Z -> Prop).

(** Room for [n] blocks. *)
Definition tb_room (n : Z) (tc : tcache) : Prop := used (tb_pool tc) + (alignof_TBlock + sizeof_TBlock) * n <= pool_sz (tb_pool tc).

Lemma AllocateTBlock_room n tc p tc' : arena_wf (tb_pool tc) -> AllocateTBlock tc = POk (p, tc') -> tb_room (n + 1) tc -> tb_room n tc'.
Proof.
  intros Hw. unfold AllocateTBlock, Allocate_T, tb_room. change (u64 (sizeof_TBlock * 1)) with 24.
  pose proof (Allocate_spec 24 alignof_TBlock (tb_pool tc) Hw ltac:(unfold alignof_TBlock; split; cbn; lia)) as HA.
  destruct (Allocate 24 alignof_TBlock (tb_pool tc)) as [[q|] tp]; [|done]. destruct HA as (st & -> & Hst & _ & Hle & ->).
  intros [= <- <-]. cbn [set_tb tb_pool used pool_sz]. unfold alignof_TBlock, sizeof_TBlock in *. lia.
Qed.

Lemma announce_inv l_addr s tc n : tc_inv comp tc -> comp (u64 (l_addr + aot_vaddr s)) (as_gip s) -> tcache_map tc !! as_gip s = None ->
  0 <= n -> tb_room (n + 1) tc ->
  exists tb tc', announce l_addr s tc = POk tc' /\ tc_inv comp tc' /\ tcache_map tc' = <[as_gip s := tb]> (tcache_map tc) /\ tb_room n tc'.
Proof.
  intros HI Hc Hn H0 Hroom. unfold announce. pose proof (AllocateTBlock_inv comp tc HI) as HA.
  destruct (AllocateTBlock tc) as [[p tc1]|] eqn:EA; [|unfold tb_room, alignof_TBlock, sizeof_TBlock in *; lia].
  destruct HA as (HI1 & Ht & Hm & Hcp & Hbr & Hp1 & Hp2 & Hfresh). pose proof (AllocateTBlock_room n _ _ _ (ti_tbpool _ _ HI) EA Hroom) as Hr1.
  cbn [mbind pres_bind]. set (t := mkTB (u64 (l_addr + aot_vaddr s)) 0 (as_gip s) false false).
  assert (HI2 : tc_inv comp (set_tb p t tc1)) by (apply fill_inv; [done|]; intros ip tb' Hl; rewrite Hm in Hl; by eapply Hfresh).
  destruct (Insert_inv comp p t (set_tb p t tc1) HI2) as (tc2 & E2 & HI3 & Hm2 & _); try done.
  { cbn. by rewrite lookup_insert_eq. }
  { cbn [set_tb tcache_map t tb_ip]. by rewrite Hm. }
  exists p, tc2. split; [done|]. split; [done|]. split; [rewrite Hm2; cbn [set_tb tcache_map t tb_ip]; by rewrite Hm|].
  unfold Insert in E2. cbn [set_tb tb_mem] in E2. rewrite lookup_insert_eq in E2. injection E2 as <-. exact Hr1.
Qed.

Lemma announce_list_inv l_addr syms : forall tc, tc_inv comp tc -> Forall (fun s => comp (u64 (l_addr + aot_vaddr s)) (as_gip s)) syms ->
  NoDup (as_gip <$> syms) -> Forall (fun s => tcache_map tc !! as_gip s = None) syms -> tb_room (Z.of_nat (length syms)) tc ->
  exists tc', announce_list l_addr syms tc = POk tc' /\ tc_inv comp tc' /\
    forall ip, is_Some (tcache_map tc' !! ip) <-> ip ∈ as_gip <$> syms \/ is_Some (tcache_map tc !! ip).
Proof.
  induction syms as [|s syms IH]; intros tc HI Hc Hnd Hfr Hroom.
  - exists tc. split_and!; [done..|]. intros ip. split; [by right|]. intros [?%not_elem_of_nil|?]; done.
  - apply Forall_cons in Hc as [Hc Hcs], Hfr as [Hf Hfs]. rewrite fmap_cons in Hnd. apply NoDup_cons in Hnd as [Hni Hnd].
    cbn [length] in Hroom. rewrite Nat2Z.inj_succ, <- Z.add_1_r in Hroom.
    destruct (announce_inv l_addr s tc (Z.of_nat (length syms)) HI Hc Hf ltac:(lia) Hroom) as (tb & tc1 & E1 & HI1 & Hm1 & Hr1). cbn [announce_list]. rewrite E1. cbn [mbind pres_bind].
    destruct (IH tc1 HI1 Hcs Hnd) as (tc' & -> & HI' & Hm'); [|done|].
    { apply Forall_forall. intros s' Hs'. rewrite Hm1, lookup_insert_ne; [by rewrite Forall_forall in Hfs; auto|].
      intros E. apply Hni. rewrite E. by apply list_elem_of_fmap_2. }
    exists tc'. split_and!; [done..|]. intros ip. rewrite Hm', Hm1, lookup_insert_is_Some, fmap_cons, elem_of_cons.
    destruct (decide (as_gip s = ip)); naive_solver.
Qed.
End boot.

(** ** Linking *)
(** What the linker promises of the linked file [elf] of the object [o]:
    [sec] is the index of each section, [addr] its address and [offs] its
    offset.  Symbols with distinct names are found at the address of their
    section, and the table lies apart from the headers at the start. *)
Record linked_ok (o : ELFObject) (elf : linked) (sec : elf_section -> nat) (addr offs : elf_section -> Z) (phoff : Z) (phnum : nat) : Prop := {
  lo_sections s : lk_sections elf !! sec s = Some (addr s, offs s);
  lo_symbols s : NoDup (sym_name <$> o_syms o) -> s ∈ o_syms o -> get_symbol elf (sym_name s) = Some (addr (sym_sec s) + sym_value s, sec (sym_sec s));
  lo_ranges s : 0 <= addr s < 2 ^ 63 /\ 0 <= offs s < 2 ^ 63;
  lo_phoff : load_le 8 (lk_file elf) 32 = Some phoff;
  lo_phnum : load_le 2 (lk_file elf) 56 = Some (Z.of_nat phnum);
  lo_phdrs : phdrs_mapped (lk_file elf) phoff phnum;
  lo_header : 64 <= phoff;
  lo_apart : phoff + sizeof_Phdr * Z.of_nat phnum <= offs sec_aottab \/ offs sec_aottab + o_aottab_size o <= phoff;
  lo_behind : 64 <= offs sec_aottab }.

Lemma resolve_all_spec elf (addr : Z) syms offsets : length syms = length offsets ->
  (forall i s off, syms !! i = Some s -> offsets !! i = Some off -> exists k, get_symbol elf (MakeAotSymbol (as_gip s)) = Some (addr + off, k)) ->
  resolve_all elf syms = POk (zip_with (fun s off => mkAS (as_gip s) (addr + off)) syms offsets).
Proof.
  revert offsets. induction syms as [|s syms IH]; intros [|off offsets] Hl H; try done. cbn [resolve_all zip_with].
  unfold resolve_one, resolve_sym. destruct (H 0%nat s off eq_refl eq_refl) as [k ->]. cbn [pderef mbind pres_bind].
  rewrite (IH offsets); [done|cbn in Hl; lia|]. intros i s' off' Hs Ho. by apply (H (S i)).
Qed.

(** ** From the profile to the translation cache *)
Lemma GetProfile_has prof profile : objprof.GetProfile prof = POk profile -> objprof.HasProfile prof = true.
Proof. unfold objprof.GetProfile, objprof.HasProfile. destruct (objprof.p_fmap prof); [|discriminate]. by rewrite bool_decide_true. Qed.
Lemma Init_empty mt mc tc0 tc : Tcache.Init mt mc tc0 = POk tc ->
  tcache_map tc = ∅ /\ used (tb_pool tc) = 0 /\ pool_sz (tb_pool tc) = TB_POOL_SIZE.
Proof.
  unfold Tcache.Init. intros (tp & H1 & (cp & _ & [= <-])%pbind_ok)%pbind_ok. cbn [tcache_map tb_pool].
  unfold Arena.Init in H1. destruct (pool (tb_pool tc0) =? 0); [|discriminate H1]. destruct mt; [|discriminate H1]. by injection H1 as <-.
Qed.
Section roundtrip.
Context (code : mem) (stub_tab : RuntimeStubId -> Z) (l1_brind_cache : Z) (host_order : list nid -> list nid) (asm_size : list item -> Z).
Context (ld : ELFObject -> option linked) (padding : Z) (arena_mmap : option Z) (prof : objprof.ElfProfile) (profile : list PageData).
Context (Hasm : asm_ok code stub_tab l1_brind_cache asm_size) (Hord : forall l, host_order l ≡ₚ l).
Context (Hprof : objprof.GetProfile prof = POk profile) (Hpages : profile_ok code profile).
Notation jobs := (all_jobs code host_order profile).

(** The code of a job in the loaded file: [p] is where the loader puts the
    byte of the section that has it. *)
Definition loaded_code (rt : AOTCompilerRuntime) (aot_addr l_addr : Z) (j : CodeSegment * list IpRange) (p : Z) : Prop :=
  exists jcode off, job_code code stub_tab l1_brind_cache j.1 j.2 = Some jcode /\
    code_at rt !! (BaseAddr (code_arena rt) + off) = Some jcode /\ p = l_addr + aot_addr + off.
Definition region_at (rt : AOTCompilerRuntime) (aot_addr l_addr p gip : Z) : Prop :=
  exists j, j ∈ jobs /\ job_entry j = gip /\ loaded_code rt aot_addr l_addr j p.

Lemma same_job j j' : j ∈ jobs -> j' ∈ jobs -> job_entry j = job_entry j' -> j = j'.
Proof.
  intros [i Hi]%list_elem_of_lookup [i' Hi']%list_elem_of_lookup E.
  destruct (all_jobs_entries code host_order Hord profile Hpages) as [_ Hnd].
  assert (i = i') as <-; [|congruence]. eapply (NoDup_lookup _ _ _ (job_entry j) Hnd); rewrite list_lookup_fmap, ?Hi, ?Hi'; cbn; congruence.
Qed.

Section object.
Context (rt : AOTCompilerRuntime) (obj : ELFObject).
Context (Hobj : AOTCompile_object code stub_tab l1_brind_cache host_order asm_size arena_mmap prof = LRet (rt, obj)).

Lemma object_inv : rt_inv code stub_tab l1_brind_cache asm_size jobs rt /\ obj = object_of rt.
Proof.
  unfold AOTCompile_object in Hobj. apply lbind_ret in Hobj as (arena & Ha%lift_ret & H). rewrite Hprof in H. cbn [lift mbind lres_bind] in H.
  apply lbind_ret in H as (rt' & Hrt & [= <- <-]). split; [|done]. pose proof (rt_inv_init code stub_tab l1_brind_cache asm_size _ _ Ha) as HI.
  eapply (AOTCompileObject_inv _ _ _ _ _ Hasm) in Hrt; [|exact HI]. exact Hrt.
Qed.

Lemma aotsyms_length : length (aotsyms rt) = length jobs.
Proof. destruct object_inv as [[_ Hs _ _] _]. by rewrite Hs, length_fmap. Qed.

(** The names of the symbols. *)
Lemma region_names syms js : Forall2 (region_sym code stub_tab l1_brind_cache asm_size rt) js syms ->
  sym_name <$> syms = (fun j => MakeAotSymbol (job_entry j)) <$> js.
Proof. induction 1 as [|j s js syms (c & off & _ & -> & _) _ IH]; [done|]. cbn. by f_equal. Qed.
Lemma object_names : NoDup (sym_name <$> o_syms obj).
Proof.
  destruct object_inv as [[_ _ He _] ->]. cbn [object_of o_syms]. rewrite fmap_app, (region_names _ _ He).
  destruct (all_jobs_entries code host_order Hord profile Hpages) as [HF Hnd].
  apply NoDup_app. split; [|split; [|apply NoDup_singleton]].
  - clear He. induction jobs as [|j js IH]; [constructor|]. apply Forall_cons in HF as [[Hj _] HF]. rewrite !fmap_cons in *.
    apply NoDup_cons in Hnd as [Hn Hnd]. constructor; [|by apply IH]. intros (j' & E & Hj')%list_elem_of_fmap. apply Hn.
    rewrite Forall_forall in HF. apply MakeAotSymbol_inj in E; [|done|by apply HF]. rewrite E. by apply list_elem_of_fmap_2.
  - intros x (j & -> & _)%list_elem_of_fmap Hx. apply list_elem_of_singleton in Hx. cbn in Hx. discriminate Hx.
Qed.

Section linked.
Context (elf : linked) (sec : elf_section -> nat) (addr offs : elf_section -> Z) (phoff : Z) (phnum : nat).
Context (Hlk : linked_ok obj elf sec addr offs phoff phnum).

(** The regions of the table. *)
Definition linked_syms : list AOTSymbol := zip_with (fun s v => mkAS (as_gip s) (addr sec_aot + v)) (aotsyms rt) (sym_value <$> elf_syma rt).

Lemma linked_syms_lookup i s : linked_syms !! i = Some s -> exists j jcode off, jobs !! i = Some j /\ as_gip s = job_entry j /\
  job_code code stub_tab l1_brind_cache j.1 j.2 = Some jcode /\ code_at rt !! (BaseAddr (code_arena rt) + off) = Some jcode /\
  0 <= off <= o_aot_size obj /\ aot_vaddr s = addr sec_aot + off.
Proof.
  destruct object_inv as [[_ Hs He _] ->]. unfold linked_syms. rewrite Hs. intros Hi.
  apply lookup_zip_with_Some in Hi as (a & v & -> & Ha & Hv). apply list_lookup_fmap_Some in Ha as (j & -> & Hj).
  apply list_lookup_fmap_Some in Hv as (es & -> & Hes). destruct (Forall2_lookup_lr _ _ _ _ _ _ He Hj Hes) as (c & off & Hc & -> & Hat & H0 & Hle).
  pose proof (Hasm _ _ _ Hc). exists j, c, off. cbn in *. split_and!; try done; lia.
Qed.
Lemma linked_syms_entries : as_gip <$> linked_syms = job_entry <$> jobs.
Proof.
  destruct object_inv as [[_ Hs He _] _]. unfold linked_syms. rewrite Hs. clear Hs Hobj. induction He as [|j s js syms _ _ IH]; [done|].
  cbn. by f_equal.
Qed.

Lemma resolved : resolve_all elf (aotsyms rt) = POk linked_syms.
Proof.
  pose proof object_names as Hnd. destruct object_inv as [[_ Hs He _] Eo]. apply resolve_all_spec.
  - by rewrite length_fmap, Hs, length_fmap, (Forall2_length _ _ _ He).
  - intros i s v Hi Hv. rewrite Hs in Hi. apply list_lookup_fmap_Some in Hi as (j & -> & Hj). apply list_lookup_fmap_Some in Hv as (es & -> & Hes).
    destruct (Forall2_lookup_lr _ _ _ _ _ _ He Hj Hes) as (c & off & _ & E & _). exists (sec sec_aot). cbn [as_gip].
    pose proof (lo_symbols _ _ _ _ _ _ _ Hlk es Hnd) as Hl. rewrite E in Hl |- *. apply Hl. subst obj. cbn. apply elem_of_app. left.
    rewrite <- E. by eapply list_elem_of_lookup_2.
Qed.
Lemma table_found : find_aottab elf = POk (offs sec_aottab).
Proof.
  pose proof object_names as Hnd. destruct object_inv as [_ Eo].
  pose proof (lo_symbols _ _ _ _ _ _ _ Hlk (mkSym AOT_SYM_AOTTAB 0 (o_aottab_size obj) STT_OBJECT sec_aottab) Hnd) as Hl.
  unfold find_aottab, resolve_sym. cbn [sym_name sym_value sym_sec] in Hl. rewrite Hl by (subst obj; cbn; apply elem_of_app; right; by apply list_elem_of_singleton).
  cbn [pderef mbind pres_bind]. rewrite (lo_sections _ _ _ _ _ _ _ Hlk). cbn [pderef mbind pres_bind].
  rewrite Z.add_0_r, Z.sub_diag, Z.add_0_r. f_equal. pose proof (lo_ranges _ _ _ _ _ _ _ Hlk sec_aottab). apply uN_id. unfold in_u. lia.
Qed.
Lemma table_size : tab_size linked_syms = o_aottab_size obj.
Proof.
  unfold tab_size. rewrite <- (length_fmap as_gip), linked_syms_entries, length_fmap, <- aotsyms_length.
  by destruct object_inv as [_ ->].
Qed.

Lemma linked_file : exists file, LinkAOTObject (Some elf) true padding (aotsyms rt) = POk (linked_syms, file) /\
  (forall i, 0 <= i < Z.of_nat phnum -> ph_flags file phoff i = patched_flags (lk_file elf) phoff i) /\
  same_bytes file (write_aottab padding linked_syms (offs sec_aottab) (lk_file elf)) (offs sec_aottab) (offs sec_aottab) (tab_size linked_syms).
Proof.
  unfold LinkAOTObject. cbn [pderef mbind pres_bind]. rewrite resolved. cbn [mbind pres_bind]. rewrite table_found. cbn [passert mbind pres_bind].
  set (wf := write_aottab padding linked_syms (offs sec_aottab) (lk_file elf)). destruct Hlk as [_ _ Hr Hpo Hpn Hph Hh Hap Hbe]. rewrite <- table_size in Hap.
  assert (Hout : forall x, x < 64 \/ phoff <= x < phoff + sizeof_Phdr * Z.of_nat phnum -> wf !! x = lk_file elf !! x).
  { intros x Hx. apply tab_outside. unfold sizeof_Phdr in *. lia. }
  assert (Hld : forall n a, (a + Z.of_nat n <= 64 \/ phoff <= a /\ a + Z.of_nat n <= phoff + sizeof_Phdr * Z.of_nat phnum) -> load_le n wf a = load_le n (lk_file elf) a).
  { intros n a Ha. apply load_le_ext. intros x Hx. apply Hout. lia. }
  assert (Hfl : forall i, 0 <= i < Z.of_nat phnum -> ph_type wf phoff i = ph_type (lk_file elf) phoff i /\ ph_flags wf phoff i = ph_flags (lk_file elf) phoff i).
  { intros i Hi. unfold ph_type, ph_flags. split; apply Hld; unfold sizeof_Phdr in *; lia. }
  unfold patch_phtab. rewrite !Hld by lia. rewrite Hpo, Hpn. cbn [pderef mbind pres_bind]. rewrite Nat2Z.id.
  destruct (patch_phdrs_spec phoff phnum 0 wf) as (file & -> & Hpf & Hpo2).
  { intros i Hi. destruct (Hfl i ltac:(lia)) as [-> ->]. by apply Hph. }
  exists file. split; [done|]. split.
  - intros i Hi. rewrite Hpf by lia. unfold patched_flags. by destruct (Hfl i Hi) as [-> ->].
  - intros i Hi. apply Hpo2. intros (k & Hk & Hx). unfold sizeof_Phdr in *. lia.
Qed.

(** The next start finds every region. *)
Lemma booted file l_addr m mt mc tc0 tc :
  same_bytes file (write_aottab padding linked_syms (offs sec_aottab) (lk_file elf)) (offs sec_aottab) (offs sec_aottab) (tab_size linked_syms) ->
  0 <= l_addr -> l_addr + addr sec_aot + o_aot_size obj < 2 ^ 64 ->
  same_bytes m file (l_addr + addr sec_aottab) (offs sec_aottab) (o_aottab_size obj) ->
  Tcache.Init mt mc tc0 = POk tc -> Z.of_nat (length jobs) <= 2 ^ 20 ->
  exists tc', BootAOTFile (Some (l_addr, Some (l_addr + addr sec_aottab))) m tc = POk tc' /\ tc_inv (region_at rt (addr sec_aot) l_addr) tc' /\
    forall ip, is_Some (tcache_map tc' !! ip) <-> ip ∈ job_entry <$> jobs.
Proof.
  intros Hf Hl Hb Hm Hi Hn. rewrite <- table_size in Hm. destruct (all_jobs_entries code host_order Hord profile Hpages) as [HF Hnd].
  assert (Hlen : length linked_syms = length jobs) by (by rewrite <- (length_fmap as_gip), linked_syms_entries, length_fmap).
  pose proof (lo_ranges _ _ _ _ _ _ _ Hlk sec_aot) as [Ha _].
  rewrite (boot_written padding linked_syms (offs sec_aottab) (lk_file elf) file); [| |lia|done|done].
  2:{ apply Forall_lookup. intros i s Hs. destruct (linked_syms_lookup i s Hs) as (j & c & off & Hj & Hg & _ & _ & Ho & Hv). unfold sym_ok. rewrite Hg, Hv.
      rewrite Forall_lookup in HF. split; [by apply (HF i)|unfold in_u; lia]. }
  destruct (announce_list_inv (region_at rt (addr sec_aot) l_addr) l_addr linked_syms tc) as (tc' & -> & HI & Hmap).
  - by eapply Init_inv.
  - apply Forall_lookup. intros i s Hs. destruct (linked_syms_lookup i s Hs) as (j & c & off & Hj & Hg & Hc & Hat & Ho & Hv).
    exists j. split; [by eapply list_elem_of_lookup_2|]. split; [done|]. exists c, off. split_and!; try done. rewrite Hv, uN_id by (unfold in_u; lia). lia.
  - by rewrite linked_syms_entries.
  - apply Forall_forall. intros s _. by destruct (Init_empty _ _ _ _ Hi) as [-> _].
  - destruct (Init_empty _ _ _ _ Hi) as (_ & Hu & Hs). unfold tb_room, alignof_TBlock, sizeof_TBlock. rewrite Hu, Hs, Hlen. unfold TB_POOL_SIZE. lia.
  - exists tc'. split; [done|]. split; [done|]. intros ip. rewrite Hmap, linked_syms_entries. destruct (Init_empty _ _ _ _ Hi) as [-> _].
    rewrite lookup_empty. split; [intros [?|[]]; done|by left].
Qed.
End linked.
End object.
End roundtrip.

(** C11 Ahead-of-time compilation and the next start fit together.  For a
    profile of pages whose graphs the compiler can handle, whose regions can be
    compiled and have room in the code arena of 256 MB, the object file is
    built, and with the object file linked as a linker does: the table written
    into the linked file names every region, loaded segments with code become
    writable and no other header changes; and when the file is loaded at the
    next start, the translation cache finds for the entry of every compiled job
    the code of that job in the loaded section, and nothing for any other guest
    address. *)
Theorem AOT_roundtrip code stub_tab l1_brind_cache host_order asm_size ld padding arena_mmap prof profile :
  asm_ok code stub_tab l1_brind_cache asm_size -> (forall l, host_order l ≡ₚ l) -> objprof.GetProfile prof = POk profile -> profile_ok code profile ->
  is_Some arena_mmap -> Forall (compiles code stub_tab l1_brind_cache) (all_jobs code host_order profile) ->
  jobs_room code stub_tab l1_brind_cache asm_size (all_jobs code host_order profile) <= 256 * 1024 * 1024 ->
  exists rt obj, AOTCompile_object code stub_tab l1_brind_cache host_order asm_size arena_mmap prof = LRet (rt, obj) /\
  forall elf sec addr offs phoff phnum, ld obj = Some elf -> linked_ok obj elf sec addr offs phoff phnum ->
  exists file, AOTCompileELF code stub_tab l1_brind_cache host_order asm_size ld true padding arena_mmap prof = LRet (Some file) /\
    (forall i, 0 <= i < Z.of_nat phnum -> ph_flags file phoff i = patched_flags (lk_file elf) phoff i) /\
    forall l_addr m mt mc tc0 tc, 0 <= l_addr -> l_addr + addr sec_aot + o_aot_size obj < 2 ^ 64 ->
      same_bytes m file (l_addr + addr sec_aottab) (offs sec_aottab) (o_aottab_size obj) ->
      Tcache.Init mt mc tc0 = POk tc -> Z.of_nat (length (all_jobs code host_order profile)) <= 2 ^ 20 ->
      exists tc', BootAOTFile (Some (l_addr, Some (l_addr + addr sec_aottab))) m tc = POk tc' /\
        (forall j, j ∈ all_jobs code host_order profile -> exists tb tc2 t, Lookup (job_entry j) tc' = POk (Some tb, tc2) /\
           tb_mem tc2 !! tb = Some t /\ loaded_code code stub_tab l1_brind_cache rt (addr sec_aot) l_addr j (tb_ptr t)) /\
        (forall ip, ip ∉ job_entry <$> all_jobs code host_order profile -> exists tc2, Lookup ip tc' = POk (None, tc2)).
Proof.
  intros Hasm Hord Hprof Hpages Har Hcomp Hroom.
  destruct (AOTCompile_object_total code stub_tab l1_brind_cache host_order asm_size Hasm Hord arena_mmap prof profile Har Hprof Hpages Hcomp Hroom)
    as (rt & obj & Hobj). exists rt, obj. split; [exact Hobj|]. intros elf sec addr offs phoff phnum Hld Hlk.
  destruct (linked_file code stub_tab l1_brind_cache host_order asm_size padding arena_mmap prof profile Hasm Hord Hprof Hpages rt obj Hobj
    elf sec addr offs phoff phnum Hlk) as (file & Hfile & Hfl & Hsame).
  exists file. split; [|split; [exact Hfl|]].
  - unfold AOTCompileELF. rewrite (GetProfile_has _ _ Hprof). cbn [negb]. rewrite Hobj. cbn [mbind lres_bind]. rewrite Hld, Hfile. done.
  - intros l_addr m mt mc tc0 tc Hl Hb Hm Hi Hn.
    destruct (booted code stub_tab l1_brind_cache host_order asm_size padding arena_mmap prof profile Hasm Hord Hprof Hpages rt obj Hobj
      elf sec addr offs phoff phnum Hlk file l_addr m mt mc tc0 tc Hsame Hl Hb Hm Hi Hn) as (tc' & -> & HI & Hmap).
    exists tc'. split; [done|]. split.
    + intros j Hj. destruct (Lookup_spec _ (job_entry j) tc' HI) as (tc2 & E & _ & (l & ->)).
      destruct (tcache_map tc' !! job_entry j) as [tb|] eqn:Et.
      2:{ assert (is_Some (tcache_map tc' !! job_entry j)) as [? ?] by (apply Hmap; by apply list_elem_of_fmap_2). congruence. }
      destruct (ti_map _ _ HI _ _ Et) as (t & Ht & _ & (j' & Hj' & He & Hc) & _). exists tb. eexists. exists t. split; [exact E|]. split; [done|].
      by rewrite (same_job code host_order profile Hord Hpages j j').
    + intros ip Hip. destruct (Lookup_spec _ ip tc' HI) as (tc2 & E & _).
      destruct (tcache_map tc' !! ip) as [tb|] eqn:Et; [exfalso; apply Hip, Hmap; by rewrite Et|by exists tc2].
Qed.

(** ** A concrete profile: the page of [demo_page] *)
Definition demo_elf_prof : objprof.ElfProfile := objprof.mkEP ∅ (Some (objprof.mkFH [] 1 {[0 := demo_page]})) (64 * 1024 * 1024).
(** A linker that gives the sections their own offsets as addresses. *)
Definition demo_sec (s : elf_section) : nat := match s with sec_aot => 0 | sec_aottab => 1 end.
Definition demo_addr (s : elf_section) : Z := match s with sec_aot => 0x1000 | sec_aottab => 0x10000000 end.
Fixpoint find_sym (name : string) (syms : list elf_symbol) : option elf_symbol :=
  match syms with [] => None | s :: syms => if bool_decide (sym_name s = name) then Some s else find_sym name syms end.
Definition demo_header : mem := put_le 4 (put_le 4 (put_le 2 (put_le 8 ∅ 32 64) 56 1) 64 PT_LOAD) 68 5.
Definition demo_linked (o : ELFObject) : linked :=
  mkLk (fun name => s ← find_sym name (o_syms o); Some (demo_addr (sym_sec s) + sym_value s, demo_sec (sym_sec s)))
    [(0x1000, 0x1000); (0x10000000, 0x10000000)] demo_header.

Lemma find_sym_elem syms s : NoDup (sym_name <$> syms) -> s ∈ syms -> find_sym (sym_name s) syms = Some s.
Proof.
  induction syms as [|s0 syms IH]; intros Hnd Hs; [by apply not_elem_of_nil in Hs|]. rewrite fmap_cons in Hnd. apply NoDup_cons in Hnd as [Hn Hnd].
  cbn [find_sym]. apply elem_of_cons in Hs as [->|Hs]; [by rewrite bool_decide_true|]. rewrite bool_decide_false; [by apply IH|].
  intros E. apply Hn. rewrite E. by apply list_elem_of_fmap_2.
Qed.
Lemma demo_linked_ok o : linked_ok o (demo_linked o) demo_sec demo_addr demo_addr 64 1.
Proof.
  split; try (unfold sizeof_Phdr; cbn; lia).
  - by intros [].
  - intros s Hnd Hs. cbn [get_symbol demo_linked]. by rewrite find_sym_elem.
  - intros []; cbn; lia.
  - reflexivity.
  - reflexivity.
  - intros i Hi. assert (i = 0) as -> by lia. split; eexists; reflexivity.
Qed.

Lemma demo_jobs_few : bool_decide (Z.of_nat (length (all_jobs demo_code reverse [demo_page])) <= 2 ^ 20) = true.
Proof. vm_compute. reflexivity. Qed.
Lemma demo_jobs_compile :
  forallb (fun j => bool_decide (is_Some (job_code demo_code (fun _ => 2 ^ 40) (2 ^ 34) j.1 j.2))) (all_jobs demo_code reverse [demo_page]) = true.
Proof. vm_compute. reflexivity. Qed.
Lemma demo_jobs_room :
  (jobs_room demo_code (fun _ => 2 ^ 40) (2 ^ 34) (fun _ => 64) (all_jobs demo_code reverse [demo_page]) <=? 256 * 1024 * 1024) = true.
Proof. vm_compute. reflexivity. Qed.
Lemma demo_small : match AOTCompile_object demo_code (fun _ => 2 ^ 40) (2 ^ 34) reverse (fun _ => 64) (Some (2 ^ 30)) demo_elf_prof with
  LRet (_, obj) => 0x1000 + o_aot_size obj <? 2 ^ 64 | _ => false end = true.
Proof. vm_compute. reflexivity. Qed.

Lemma AOT_roundtrip_witness : exists file tc', 
  AOTCompileELF demo_code (fun _ => 2 ^ 40) (2 ^ 34) reverse (fun _ => 64) (fun o => Some (demo_linked o)) true 0 (Some (2 ^ 30)) demo_elf_prof = LRet (Some file) /\
  BootAOTFile (Some (0, Some 0x10000000)) file demo_tc = POk tc' /\
  forall ip, ip ∉ job_entry <$> all_jobs demo_code reverse [demo_page] -> exists tc2, Lookup ip tc' = POk (None, tc2).
Proof.
  destruct (AOT_roundtrip demo_code (fun _ => 2 ^ 40) (2 ^ 34) reverse (fun _ => 64) (fun o => Some (demo_linked o)) 0 (Some (2 ^ 30)) demo_elf_prof
    [demo_page]) as (rt & obj & Hobj & Hlink).
  - intros seg j c _. lia.
  - apply reverse_Permutation.
  - reflexivity.
  - split; [|apply NoDup_singleton]. apply Forall_singleton. destruct (demo_ok_inv 4 _ demo_page_ok) as (g & Hg & Hn & Hr).
    exists g. split; [by apply built_inv|exact Hr|lia|by split].
  - by eexists.
  - apply Forall_forall. intros j Hj%list_elem_of_In. exact (proj1 (bool_decide_eq_true _) (proj1 (forallb_forall _ _) demo_jobs_compile j Hj)).
  - apply Z.leb_le, demo_jobs_room.
  - pose proof demo_small as Hc. rewrite Hobj in Hc. apply Z.ltb_lt in Hc.
    destruct (Hlink (demo_linked obj) demo_sec demo_addr demo_addr 64 1%nat eq_refl (demo_linked_ok obj)) as (file & Hf & _ & H).
    destruct (H 0 file (Some 0x10000000) (Some 0x20000000) _ demo_tc ltac:(lia) Hc ltac:(by intros i Hi) demo_tc_init) as (tc' & Hb & _ & Hn).
    + exact (proj1 (bool_decide_eq_true _) demo_jobs_few).
    + exists file, tc'. split; [exact Hf|]. split; [exact Hb|exact Hn].
Defined.
