(* ===== verification/Programs.v ===== *)
(** * The programs (src/dbt/elfrun.cpp, elfaot.cpp) and the cache files
    (src/dbt/tcache/objprof.cpp)

    Command lines, the log option, the names of the cache files and how the
    profile of a guest program is opened.  The option parser, the tokenizer,
    the digest and [realpath] are of libraries: what they return is a
    parameter. *)

From Stdlib Require Import Ascii.
From stdpp Require Import base tactics numbers list strings gmap.
From S2P Require Import Prelude Common GuestState Tcache Aot ObjProf FsManager QirPrinter Logs AotFile.
Import objprof.

(** ** Command lines *)
(** [SplitArgs]: the first [--] behind the program name separates the options
    from the guest's arguments. *)
Fixpoint find_sep (i : nat) (args : list string) : option nat :=
  match args with
  | [] => None
  | a :: args => if bool_decide (a = "--"%string) then Some i else find_sep (S i) args
  end.
Definition SplitArgs (argv : list string) : list string * list string :=
  match find_sep 1 (drop 1 argv) with
  | None => (argv, [])
  | Some split_pos => let dbt_args := take split_pos argv in (dbt_args, drop (length dbt_args + 1) argv)
  end.

Record ElfRunOptions := mkRun { guest_args : list string; fsroot : string; cache : string; use_aot : bool; logs : string }.
(** What the parser stored: the options given on the command line. *)
Record run_vmap := mkRV { rv_help : bool; rv_logs : option string; rv_fsroot : option string; rv_cache : option string; rv_aot : option bool }.
(** [bpo::notify]: defaults, and an exception for a missing required option. *)
Definition notify_run (v : run_vmap) (guest : list string) : option ElfRunOptions :=
  r ← rv_fsroot v; c ← rv_cache v;
  Some (mkRun guest r c (default false (rv_aot v)) (default ""%string (rv_logs v))).
(** [ParseOptions] of elfrun; [parse] is [None] where the parser throws. *)
Definition ParseOptions (parse : list string -> option run_vmap) (argv : list string) : option ElfRunOptions :=
  let '(dbt_args, guest) := SplitArgs argv in
  v ← parse dbt_args;
  if rv_help v then None else
  if bool_decide (guest = []) then None else notify_run v guest.

Record ElfAotOptions := mkAotO { ao_elf : string; ao_cache : string; use_llvm : bool; ao_logs : string; mgdump : string }.
Record aot_vmap := mkAV { av_help : bool; av_logs : option string; av_elf : option string; av_cache : option string;
                          av_llvm : option bool; av_mgdump : option string }.
Definition notify_aot (v : aot_vmap) : option ElfAotOptions :=
  e ← av_elf v; c ← av_cache v;
  Some (mkAotO e c (default true (av_llvm v)) (default ""%string (av_logs v)) (default ""%string (av_mgdump v))).
Definition ParseOptions_aot (parse : list string -> option aot_vmap) (argv : list string) : option ElfAotOptions :=
  v ← parse argv; if av_help v then None else notify_aot v.

(** [SetupLogger]: [tok] is what the tokenizer makes of the option. *)
Fixpoint SetupLogger (tok : list string) (l : Logger) : pres Logger :=
  match tok with [] => POk l | e :: tok => l ← enable e None l; SetupLogger tok l end.

(** ** Cache files *)
(** [objprof::Init] leaves the resolved directory with a slash behind it. *)
Definition Init_dir (realpath : option string) : pres string := buf ← pderef realpath; POk (buf +:+ "/").
Definition MakeCachePath (dir : string) (csum : list Z) (extension : string) : string := dir +:+ MakeHexStr csum +:+ extension.
Definition GetCachePath (dir : string) (p : ElfProfile) (extension : string) : pres string :=
  passert (HasProfile p);; h ← pderef (p_fmap p); POk (MakeCachePath dir (csum h) extension).
(** [FileChecksum::FromFile], from the size and the contents of the file. *)
Definition FromFile (digest : list Z -> option (list Z)) (size : option Z) (contents : Z -> option (list Z)) : pres (list Z) :=
  sz ← pderef size; m ← pderef (contents sz); pderef (digest m).

(** [objprof::Announce], with the opening of the profile and the boot of
    compiled code; [mapped] is what is at the address the file is mapped to. *)
Definition Announce_elf (digest : list Z -> option (list Z)) (size : option Z) (contents : Z -> option (list Z))
    (h : string -> open_host) (mapped : Z -> FileHeader) (dir : string) (jit_mode use_aot_files : bool)
    (dl : string -> option (Z * option Z)) (m : mem) (tc : tcache) : pres (ElfProfile * tcache) :=
  sum ← FromFile digest size contents;
  '((fmap, st), _) ← Task_OpenCacheFile (h (MakeCachePath dir sum ".prof")) (64 * 1024 * 1024) jit_mode;
  p ← Announce sum st (from_option mapped (mkFH [] 0 ∅) fmap);
  if use_aot_files && match st with RDONLY | RDWR_OLD => true | _ => false end
  then (path ← GetCachePath dir p ".aot.so"; tc ← BootAOTFile (dl path) m tc; POk (p, tc))
  else POk (p, tc).

(** ** Properties *)
Lemma find_sep_spec i l : match find_sep i l with
  | None => "--"%string ∉ l
  | Some k => exists a b, l = a ++ "--"%string :: b /\ "--"%string ∉ a /\ k = (i + length a)%nat end.
Proof.
  revert i. induction l as [|x l IH]; intros i; cbn [find_sep]; [by intros ?%elem_of_nil|].
  case_bool_decide as D; [exists [], l; split; [by rewrite D|]; split; [by intros ?%elem_of_nil|cbn; lia]|].
  specialize (IH (S i)). destruct (find_sep (S i) l).
  - destruct IH as (a & b & -> & N & ->). exists (x :: a), b. split_and!; [done|by rewrite not_elem_of_cons|cbn; lia].
  - by rewrite not_elem_of_cons.
Qed.
(** The guest's arguments are what is behind the first separator. *)
Theorem SplitArgs_spec prog args :
  match SplitArgs (prog :: args) with
  | (dbt, guest) => (dbt = prog :: args /\ guest = [] /\ "--"%string ∉ args) \/
      exists opts, args = opts ++ "--"%string :: guest /\ dbt = prog :: opts /\ "--"%string ∉ opts
  end.
Proof.
  unfold SplitArgs. change (drop 1 (prog :: args)) with args. pose proof (find_sep_spec 1 args) as H. destruct (find_sep 1 args) as [k|]; cbv zeta iota beta; [|by left].
  destruct H as (a & b & -> & N & ->). right. exists a. cbn [Nat.add take length].
  rewrite take_app_length. split_and!; [|done|done]. f_equal. rewrite Nat.add_1_r. cbn [drop].
  change ("--"%string :: b) with (["--"%string] ++ b). rewrite app_assoc.
  rewrite drop_app_length'; [done|]. rewrite length_app. cbn. lia.
Qed.

Lemma MakeHexStr_length l : String.length (MakeHexStr l) = (2 * length l)%nat.
Proof. induction l; cbn; [done|]. rewrite IHl. lia. Qed.
(** Files of different programs, and the different files of one program, have
    different names. *)
Theorem MakeCachePath_injective dir a b e f : Forall (in_u 8) a -> Forall (in_u 8) b -> length a = length b ->
  MakeCachePath dir a e = MakeCachePath dir b f -> a = b /\ e = f.
Proof.
  intros Ha Hb L E. unfold MakeCachePath in E. apply app_len_inj in E as [_ E]; [|done].
  apply app_len_inj in E as [E ->]; [|rewrite !MakeHexStr_length; lia]. split; [|done].
  pose proof (ParseHexStr_Make a Ha) as P. pose proof (ParseHexStr_Make b Hb) as Q. rewrite E in P. congruence.
Qed.

(** Opening the profile: without a file there is none and nothing is booted; a
    new file gets the checksum and no pages; an old file must have the
    checksum, and only then compiled code is booted, from the file named by
    that checksum. *)
Theorem Announce_elf_spec digest size contents h mapped dir jit_mode aot dl m tc p tc' :
  Announce_elf digest size contents h mapped dir jit_mode aot dl m tc = POk (p, tc') ->
  exists sum fmap st tr, FromFile digest size contents = POk sum /\
    Task_OpenCacheFile (h (MakeCachePath dir sum ".prof")) (64 * 1024 * 1024) jit_mode = POk ((fmap, st), tr) /\
    match st with
    | NO_FILE => HasProfile p = false /\ tc' = tc
    | RDWR_NEW => tc' = tc /\ exists q, p_fmap p = Some q /\ csum q = sum /\ n_pages q = 0 /\ page2idx p = ∅
    | _ => csum (from_option mapped (mkFH [] 0 ∅) fmap) = sum /\ p_fmap p = Some (from_option mapped (mkFH [] 0 ∅) fmap) /\
        if aot then BootAOTFile (dl (MakeCachePath dir sum ".aot.so")) m tc = POk tc' else tc' = tc
    end.
Proof.
  unfold Announce_elf. destruct (FromFile digest size contents) as [sum|] eqn:F; [|done]. cbn [mbind pres_bind].
  destruct (Task_OpenCacheFile _ _ _) as [[[fmap st] tr]|] eqn:T; [|done]. cbn [mbind pres_bind]. intros E.
  exists sum, fmap, st, tr. split; [done|]. split; [done|].
  destruct st; cbn in E; rewrite ?andb_false_r in E.
  - injection E as <- <-. done.
  - unfold passert in E. case_bool_decide as D; [|done]. cbn in E. rewrite andb_true_r in E.
    destruct aot; cbn in E; [|injection E as <- <-; done]. rewrite D in E.
    destruct (BootAOTFile _ m tc) as [tc2|] eqn:B; [|done]. injection E as <- <-. done.
  - unfold passert in E. case_bool_decide as D; [|done]. cbn in E. rewrite andb_true_r in E.
    destruct aot; cbn in E; [|injection E as <- <-; done]. rewrite D in E.
    destruct (BootAOTFile _ m tc) as [tc2|] eqn:B; [|done]. injection E as <- <-. done.
  - injection E as <- <-. split; [done|]. eexists. done.
Qed.

(** The streams the option names are on afterwards, as far as they exist. *)
Theorem SetupLogger_enables tok l : logger_inv l -> exists l', SetupLogger tok l = POk l' /\ logger_inv l'.
Proof.
  revert l. induction tok as [|e tok IH]; intros l I; cbn [SetupLogger]; [eauto|].
  destruct (enable_level e l I) as (l1 & E & I1 & _). rewrite E. cbn. by apply IH.
Qed.
