(* ===== verification/LlvmIr.v ===== *)
(** * LLVM IR

    The instructions of LLVM IR that the LLVM back end builds, with the meaning
    the language reference gives them.  Nothing here translates code: it is
    what the built functions mean.  Pointers are opaque, so the casts between
    pointer types that the builder is asked for do not appear.

    Behaviour the language leaves undefined is [FUndef]: an access that is not
    aligned as it says, an access through the null pointer (the functions do
    not have the attribute [null_pointer_is_valid]), an access outside of what
    its alias scope names, a read of memory that was not written,
    [unreachable].  A shift by the width or more gives a poison value; it
    counts as undefined here as well.  [FStuck] stands for code the verifier
    refuses.

    A function runs on the [CPUState], guest memory from address 0
    ([config::zero_membase]: the pointer to guest address 0 is null) and its
    own allocas; the indirect-branch cache and
    the runtime stubs are those of the host layout of [Amd64]. *)

From stdpp Require Import base tactics numbers list strings gmap.
From S2P Require Import Prelude GuestState Interp VOperand Qir QirSem BranchSlot Tcache Amd64.

Import qir.

(** ** Syntax *)
Inductive lty := LInt (w : Z) | LPtr.

Inductive lvalue :=
| LConst (w v : Z)
| LReg (d : nat)
| LState
| LMembase
| LFunc (name : string).

Inductive BinaryOps := Add | Sub | And | Or | Xor | AShr | LShr | Shl.
Inductive Predicate :=
| ICMP_EQ | ICMP_NE | ICMP_SLE | ICMP_SLT | ICMP_SGE | ICMP_SGT | ICMP_ULE | ICMP_ULT | ICMP_UGE | ICMP_UGT.

(** [!alias.scope] and [!noalias] of an access. *)
Inductive ascope := alias_none | alias_state | alias_vmem | alias_other.

(** The two functions that stand for branches until they are expanded. *)
Inductive intrin := intr_gbr | intr_gbrind.

(** Instructions; [d] is the number of the result.  Alignments are in
    bytes. *)
Inductive linst :=
| LAlloca (d : nat) (w n : Z)
| LGep (d : nat) (p : lvalue) (offs : Z)
| LGepEntry (d : nat) (p idx : lvalue)
| LGepField (d : nat) (p : lvalue) (k : nat)
| LIntToPtr (d : nat) (a : lvalue)
| LLoad (d : nat) (t : lty) (p : lvalue) (align : Z) (sc : ascope)
| LStore (v p : lvalue) (align : Z) (sc : ascope)
| LBinOp (d : nat) (op : BinaryOps) (a b : lvalue)
| LICmp (d : nat) (p : Predicate) (a b : lvalue)
| LZExt (d : nat) (a : lvalue) (w : Z)
| LSExt (d : nat) (a : lvalue) (w : Z)
| LTrunc (d : nat) (a : lvalue) (w : Z)
| LAddrOfRet (d : nat)
| LCall (d : nat) (f : lvalue) (args : list lvalue)
| LCallIntrin (f : intrin) (args : list lvalue)
| LTailCall (f : lvalue) (args : list lvalue)
| LCallAsm (code : string) (args : list lvalue)
| LBr (b : nat)
| LCondBr (c : lvalue) (t f : nat)
| LRetVoid
| LUnreachable.

(** A function: the number of the next result, the basic blocks, entry first. *)
Record lfunc := mkFn { fn_next : nat; fn_blocks : list (list linst) }.

(** ** Values and state *)
Inductive lptr :=
| PState (offs : Z)
| PLocal (d : nat) (offs : Z)
| PGuest (a : Z)
| PEntry (i offs : Z)
| PStub (id : RuntimeStubId)
| PCode (a : Z)
| PFunc (name : string)
| PEntrySp.
Inductive lval := VInt (w v : Z) | VPtr (p : lptr).

(** [l_loc] has the size and the bytes of every alloca. *)
Record lstate := mkL { l_regs : gmap nat lval; l_loc : gmap nat (Z * mem); l_cpu : CPUState; l_mem : mem }.
Definition set_lreg (d : nat) (v : lval) (st : lstate) : lstate :=
  mkL (<[d := v]> (l_regs st)) (l_loc st) (l_cpu st) (l_mem st).
Definition set_lloc (l : gmap nat (Z * mem)) (st : lstate) : lstate := mkL (l_regs st) l (l_cpu st) (l_mem st).
Definition set_lcpu (c : CPUState) (st : lstate) : lstate := mkL (l_regs st) (l_loc st) c (l_mem st).
Definition set_lmem (m : mem) (st : lstate) : lstate := mkL (l_regs st) (l_loc st) (l_cpu st) m.

Inductive fres :=
| FNext (st : lstate)
| FGoto (b : nat) (st : lstate)
| FGbr (gip : Z) (st : lstate)
| FGbrind (gip : Z) (st : lstate)
| FTail (name : string) (st : lstate)
| FJump (a : Z) (st : lstate)
| FAsm (code : string) (st : lstate)
| FRet (st : lstate)
| FRaised (st : lstate)
| FFaulted (st : lstate)
| FUndef
| FStuck.

Definition leval (v : lvalue) (st : lstate) : option lval :=
  match v with
  | LConst w c => Some (VInt w (uN w c))
  | LReg d => l_regs st !! d
  | LState => Some (VPtr (PState 0))
  | LMembase => Some (VPtr (PGuest 0))
  | LFunc name => Some (VPtr (PFunc name))
  end.

Definition or_bad {A} (o : option A) (k : A -> fres) : fres := match o with Some a => k a | None => FStuck end.
Definition or_undef {A} (o : option A) (k : A -> fres) : fres := match o with Some a => k a | None => FUndef end.

(** ** Arithmetic of [w] bits *)
Definition is_shift (op : BinaryOps) : bool := match op with AShr | LShr | Shl => true | _ => false end.
Definition eval_lbin (op : BinaryOps) (w a b : Z) : Z :=
  match op with
  | Add => uN w (a + b)
  | Sub => uN w (a - b)
  | And => Z.land a b
  | Or => Z.lor a b
  | Xor => Z.lxor a b
  | AShr => uN w (Z.shiftr (sN w a) b)
  | LShr => Z.shiftr a b
  | Shl => uN w (Z.shiftl a b)
  end.
Definition eval_icmp (p : Predicate) (w a b : Z) : bool :=
  match p with
  | ICMP_EQ => a =? b
  | ICMP_NE => negb (a =? b)
  | ICMP_SLE => sN w a <=? sN w b
  | ICMP_SLT => sN w a <? sN w b
  | ICMP_SGE => sN w b <=? sN w a
  | ICMP_SGT => sN w b <? sN w a
  | ICMP_ULE => a <=? b
  | ICMP_ULT => a <? b
  | ICMP_UGE => b <=? a
  | ICMP_UGT => b <? a
  end.

(** ** Memory *)
Definition scope_ok (sc : ascope) (p : lptr) : bool :=
  match sc, p with
  | alias_none, _ => true
  | alias_state, PState _ => true
  | alias_vmem, PGuest _ => true
  | alias_other, PEntry _ _ => true
  | _, _ => false
  end.
(** Allocas and the structures are aligned to eight bytes. *)
Definition aligned (p : lptr) (align : Z) : bool :=
  match p with
  | PState o | PLocal _ o | PEntry _ o | PGuest o => o mod align =? 0
  | _ => false
  end.

Section machine.
Context (lay : layout).

(** Loads of integers give a number; guest address 0 is the null pointer, any
    other guest address that is not mapped faults. *)
Definition load_int (w : Z) (p : lptr) (st : lstate) (k : Z -> fres) : fres :=
  match p with
  | PState o => or_undef (cpu_read (l_cpu st) o) (fun v => k (uN w v))
  | PLocal d o =>
      match l_loc st !! d with
      | Some (n, m) => if o + w / 8 <=? n then or_undef (load_le (Z.to_nat (w / 8)) m o) k else FUndef
      | None => FUndef
      end
  | PGuest a =>
      if a =? 0 then FUndef
      else match load_le (Z.to_nat (w / 8)) (l_mem st) a with Some v => k v | None => FFaulted st end
  | PEntry i 0 => if w =? 32 then k (lay_cache lay i).1 else FUndef
  | _ => FUndef
  end.
(** The pointers in [CPUState] and in the entries of the cache. *)
Definition load_ptr (p : lptr) : option lptr :=
  match p with
  | PState o =>
      if o =? offs_l1_brind_cache then Some (PEntry 0 0)
      else if (offs_stub_tab <=? o) && ((o - offs_stub_tab) mod 8 =? 0) then
        PStub <$> all_stubs !! Z.to_nat ((o - offs_stub_tab) / 8)
      else None
  | PEntry i 8 => Some (PCode (lay_cache lay i).2)
  | _ => None
  end.
Definition store_int (w v : Z) (p : lptr) (st : lstate) : fres :=
  match p with
  | PState o => if w =? 32 then or_undef (cpu_write (l_cpu st) o v) (fun c => FNext (set_lcpu c st)) else FUndef
  | PLocal d o =>
      match l_loc st !! d with
      | Some (n, m) =>
          if o + w / 8 <=? n then FNext (set_lloc (<[d := (n, put_le (Z.to_nat (w / 8)) m o v)]> (l_loc st)) st) else FUndef
      | None => FUndef
      end
  | PGuest a =>
      if a =? 0 then FUndef
      else match store_le (Z.to_nat (w / 8)) (l_mem st) a v with
      | Some m => FNext (set_lmem m st)
      | None => FFaulted st
      end
  | _ => FUndef
  end.

(** ** Calls: a runtime stub gets the state and a 32-bit argument *)
Definition call_stub (d : nat) (id : RuntimeStubId) (arg : Z) (st : lstate) : fres :=
  match stub_rv32 id with
  | Some op =>
      match qcgstub_rv32 (lay_weaks lay) op arg (l_cpu st) (l_mem st) with
      | Ret _ σ => FNext (set_lmem (h_mem σ) (set_lcpu (h_cpu σ) st))
      | Raised σ => FRaised (set_lmem (h_mem σ) (set_lcpu (h_cpu σ) st))
      | Faulted σ => FFaulted (set_lmem (h_mem σ) (set_lcpu (h_cpu σ) st))
      | Undefined => FUndef
      end
  | None =>
      if bool_decide (id = id_brind) then
        let '(p, c) := lay_brind lay arg (l_cpu st) (l_mem st) in
        FNext (set_lreg d (VPtr (PCode p)) (set_lcpu c st))
      else FUndef
  end.

Definition int_of (o : option lval) (k : Z -> Z -> fres) : fres :=
  match o with Some (VInt w v) => k w v | _ => FStuck end.
Definition ptr_of (o : option lval) (k : lptr -> fres) : fres :=
  match o with Some (VPtr p) => k p | _ => FStuck end.
(** The arguments of a translated region. *)
Definition region_args (args : list lvalue) (st : lstate) : bool :=
  match (fun a => leval a st) <$> args with
  | Some (VPtr (PState 0)) :: Some (VPtr (PGuest 0)) :: _ => true
  | _ => false
  end.

Definition exec_linst (i : linst) (st : lstate) : fres :=
  let ev v := leval v st in
  match i with
  | LAlloca d w n => FNext (set_lreg d (VPtr (PLocal d 0)) (set_lloc (<[d := (n * (w / 8), ∅)]> (l_loc st)) st))
  | LGep d p offs => ptr_of (ev p) (fun p =>
      match p with PState o => FNext (set_lreg d (VPtr (PState (o + offs))) st) | _ => FUndef end)
  | LGepEntry d p i => ptr_of (ev p) (fun p => int_of (ev i) (fun w i =>
      match p with PEntry j 0 => FNext (set_lreg d (VPtr (PEntry (j + sN w i) 0)) st) | _ => FUndef end))
  | LGepField d p k => ptr_of (ev p) (fun p =>
      match p with PEntry j 0 => FNext (set_lreg d (VPtr (PEntry j (8 * Z.of_nat k))) st) | _ => FUndef end)
  | LIntToPtr d a => int_of (ev a) (fun w a => if w =? 64 then FNext (set_lreg d (VPtr (PGuest a)) st) else FStuck)
  | LLoad d t p align sc => ptr_of (ev p) (fun p =>
      if negb (scope_ok sc p && aligned p align) then FUndef
      else match t with
           | LInt w => load_int w p st (fun v => FNext (set_lreg d (VInt w v) st))
           | LPtr => or_undef (load_ptr p) (fun q => FNext (set_lreg d (VPtr q) st))
           end)
  | LStore v p align sc => int_of (ev v) (fun w v => ptr_of (ev p) (fun p =>
      if negb (scope_ok sc p && aligned p align) then FUndef else store_int w v p st))
  | LBinOp d op a b => int_of (ev a) (fun w a => int_of (ev b) (fun w' b =>
      if negb (w =? w') then FStuck
      else if is_shift op && (w <=? b) then FUndef
      else FNext (set_lreg d (VInt w (eval_lbin op w a b)) st)))
  | LICmp d p a b => int_of (ev a) (fun w a => int_of (ev b) (fun w' b =>
      if negb (w =? w') then FStuck else FNext (set_lreg d (VInt 1 (if eval_icmp p w a b then 1 else 0)) st)))
  | LZExt d a w => int_of (ev a) (fun w' a => if w' <? w then FNext (set_lreg d (VInt w a) st) else FStuck)
  | LSExt d a w => int_of (ev a) (fun w' a => if w' <? w then FNext (set_lreg d (VInt w (uN w (sN w' a))) st) else FStuck)
  | LTrunc d a w => int_of (ev a) (fun w' a => if w <? w' then FNext (set_lreg d (VInt w (uN w a)) st) else FStuck)
  | LAddrOfRet d => FNext (set_lreg d (VPtr PEntrySp) st)
  | LCall d f args => ptr_of (ev f) (fun f =>
      match f, (fun a => ev a) <$> args with
      | PStub id, [Some (VPtr (PState 0)); Some (VInt 32 a)] => call_stub d id a st
      | _, _ => FUndef
      end)
  | LCallIntrin f args =>
      match (fun a => ev a) <$> args with
      | [Some (VPtr (PState 0)); Some (VPtr (PGuest 0)); Some (VInt 32 g)] =>
          match f with intr_gbr => FGbr g st | intr_gbrind => FGbrind g st end
      | _ => FStuck
      end
  | LTailCall f args => ptr_of (ev f) (fun f =>
      if negb (region_args args st) then FStuck
      else match f with PFunc name => FTail name st | PCode a => FJump a st | _ => FUndef end)
  | LCallAsm code args => if region_args args st then FAsm code st else FStuck
  | LBr b => FGoto b st
  | LCondBr c t f => int_of (ev c) (fun w c => if w =? 1 then FGoto (if c =? 1 then t else f) st else FStuck)
  | LRetVoid => FRet st
  | LUnreachable => FUndef
  end.

(** A block has to end with a terminator. *)
Fixpoint exec_lblock (l : list linst) (st : lstate) : fres :=
  match l with
  | [] => FNext st
  | i :: l => match exec_linst i st with FNext st' => exec_lblock l st' | r => r end
  end.

(** Run a function from block [b]; [None] when [fuel] blocks were entered
    without leaving it. *)
Fixpoint exec_lfunc (fuel : nat) (fn : lfunc) (b : nat) (st : lstate) : option fres :=
  match fuel with
  | O => None
  | S fuel =>
      match fn_blocks fn !! b with
      | None => Some FStuck
      | Some bb =>
          match exec_lblock bb st with
          | FGoto b' st' => exec_lfunc fuel fn b' st'
          | FNext _ => Some FStuck
          | r => Some r
          end
      end
  end.

Lemma exec_lblock_app l1 l2 st :
  exec_lblock (l1 ++ l2) st = match exec_lblock l1 st with FNext st' => exec_lblock l2 st' | r => r end.
Proof.
  revert st. induction l1 as [|i l1 IH]; intros st; cbn [exec_lblock app]; [done|].
  destruct (exec_linst i st); try done.
Qed.
End machine.
