(* ===== verification/LlvmGen.v ===== *)
(** * The LLVM back end (src/dbt/qmc/llvmgen/llvmgen.cpp, llvmgen.h)

    [QIRToLLVM] builds a function of LLVM IR for a region: virtual registers
    become memory, the fields of [CPUState] or allocas, and every instruction
    loads its operands and stores its result.  Branches out of the region are
    calls of two intrinsics, which [ExpandIntrinsics] replaces, the last time
    between the optimisation passes: by a tail call where the target is a
    function of the module, by a branch slot, or by the lookup in the
    indirect-branch cache.

    The builder's calls are modelled by the instructions they create; its
    folding of constants is not, since a folded instruction has the value of
    the instruction.  Casts between pointer types create nothing.  Names,
    attributes and branch weights have no effect on what a function does.
    Operands that are arguments of one call are loaded from left to right, an
    order the language leaves open and loads do not depend on. *)

From stdpp Require Import base tactics numbers list strings gmap.
From S2P Require Import Prelude Common GuestState VOperand Qir QirSem QSel BranchSlot Tcache Execute Amd64 AotSymbol LlvmIr.

Import qir.

(** ** The builder *)
Record IRBuilder := mkLB { lb_next : nat; lb_code : list linst }.
(** A computation fails at [unreachable] and failing assertions. *)
Definition GM (A : Type) : Type := IRBuilder -> option (A * IRBuilder).
#[export] Instance GM_ret : MRet GM := fun A a b => Some (a, b).
#[export] Instance GM_bind : MBind GM := fun A B f c b => '(a, b') ← c b; f a b'.

Definition g_of {A} (o : option A) : GM A := fun b => a ← o; Some (a, b).
Definition lb_insert (f : nat -> linst) : GM lvalue := fun b =>
  Some (LReg (lb_next b), mkLB (S (lb_next b)) (lb_code b ++ [f (lb_next b)])).
Definition lb_emit (i : linst) : GM unit := fun b => Some (tt, mkLB (lb_next b) (lb_code b ++ [i])).
(** Code for another block. *)
Definition in_block (g : GM unit) : GM (list linst) := fun b =>
  '(_, b') ← g (mkLB (lb_next b) []); Some (lb_code b', mkLB (lb_next b') (lb_code b)).

(** ** The module: its functions by name, each with its segment *)
Record LLVMGenCtx := mkCtx { fn2seg : gmap string CodeSegment }.
Definition getFunction (g : LLVMGenCtx) (name : string) : option string :=
  match fn2seg g !! name with Some _ => Some name | None => None end.

Definition AddFunction (region_ip : Z) (segment : CodeSegment) (g : LLVMGenCtx) : LLVMGenCtx :=
  let name := MakeAotSymbol region_ip in
  match getFunction g name with
  | Some _ => g
  | None => mkCtx (<[name := segment]> (fn2seg g))
  end.

(** ** [LLVMGen] *)
Definition set_scope (sc : ascope) (i : linst) : linst :=
  match i with
  | LLoad d t p a _ => LLoad d t p a sc
  | LStore v p a _ => LStore v p a sc
  | i => i
  end.
Definition AScopeState : linst -> linst := set_scope alias_state.
Definition AScopeVMem : linst -> linst := set_scope alias_vmem.
Definition AScopeOther : linst -> linst := set_scope alias_other.

Definition MakeStateEP (offs : Z) : GM lvalue := lb_insert (fun d => LGep d LState offs).
(** With [config::zero_membase]. *)
Definition MakeVMemLoc (addr : lvalue) : GM lvalue :=
  addr ← lb_insert (fun d => LZExt d addr 64);
  lb_insert (fun d => LIntToPtr d addr).
Definition MakeRStub (id : RuntimeStubId) : GM lvalue :=
  state_ep ← MakeStateEP (offs_stub_tab + RuntimeStubTab_offs id);
  lb_insert (fun d => AScopeState (LLoad d LPtr state_ep 8 alias_none)).

Definition CreateQCGFnCall (fn : lvalue) : GM unit :=
  lb_emit (LTailCall fn [LState; LMembase]);;
  lb_emit LRetVoid.

(** *** Branch slots as assembler text *)
Definition backslash : Ascii.ascii := Ascii.ascii_of_nat 92.
Fixpoint MakeAsmString (data : list Z) : string :=
  match data with
  | [] => ""
  | b :: data =>
      String backslash (String (Ascii.ascii_of_nat 120) (String (hexdig (Z.land (Z.shiftr b 4) 0xf)) (String (hexdig (Z.land b 0xf)) (MakeAsmString data))))
  end.
Definition quote : string := String (Ascii.ascii_of_nat 34) "".

(** [slot_bytes fl s]: the slot in memory; [fl] has the seven bits of the
    flags byte behind [cross_segment]. *)
Definition slot_bytes (fl : Z) (s : BranchSlot) : list Z :=
  s_code s ++ le_bytes 4 (s_gip s) ++ [u8 (2 * fl + (if s_cross_segment s then 1 else 0))].

(** [fake_payload] is not initialised: twelve bytes of code and the flags are
    what was there. *)
Record Payload := mkPayload { fake_code : list Z; fake_flags : Z }.

Definition MakeGbrAsmString (fake : Payload) (gip : Z) (cross_segment : bool) : string :=
  let slot := LinkLazyLLVMAOT offs_stub_tab (mkSlot (fake_code fake) gip cross_segment) in
  ".string " +:+ quote +:+ MakeAsmString (slot_bytes (fake_flags fake) slot) +:+ quote.

Section gen.
Context (g : LLVMGenCtx) (fake : Payload) (segment : CodeSegment).

Definition CreateQCGGbr (gip : Z) (must_expand : bool) : GM unit :=
  match getFunction g (MakeAotSymbol gip) with
  | Some tgtfn => CreateQCGFnCall (LFunc tgtfn)
  | None =>
      if must_expand then
        entrysp ← lb_insert LAddrOfRet;
        lb_emit (LCallAsm (MakeGbrAsmString fake gip (negb (InSegment segment gip))) [LState; LMembase; entrysp]);;
        lb_emit LRetVoid
      else
        lb_emit (LCallIntrin intr_gbr [LState; LMembase; LConst 32 gip]);;
        lb_emit LUnreachable
  end.

(** *** Expansion of the intrinsics

    A result [Some bs] says that the call was replaced, with [bs] the blocks
    added to the function, which has [nblocks] blocks before. *)
Definition Expand_gbr (args : list lvalue) (must_expand : bool) : GM (option (list (list linst))) :=
  if negb must_expand then mret None
  else
    match args !! 2%nat with
    | Some (LConst w gip) => CreateQCGGbr (uN w gip) true;; mret (Some [])
    | _ => g_of None
    end.

Definition brind_lookup (gipv : lvalue) (slowp_bb fastp_bb : nat) : GM lvalue :=
  cache_ep ← MakeStateEP offs_l1_brind_cache;
  cachev ← lb_insert (fun d => AScopeState (LLoad d LPtr cache_ep 8 alias_none));
  hashv ← lb_insert (fun d => LBinOp d LShr gipv (LConst 32 2));
  hashv ← lb_insert (fun d => LBinOp d And hashv (LConst 32 (Z.shiftl 1 L1_CACHE_BITS - 1)));
  entry_ep ← lb_insert (fun d => LGepEntry d cachev hashv);
  entry_gip_ep ← lb_insert (fun d => LGepField d entry_ep 0);
  entry_gipv ← lb_insert (fun d => AScopeOther (LLoad d (LInt 32) entry_gip_ep 4 alias_none));
  ne ← lb_insert (fun d => LICmp d ICMP_NE entry_gipv gipv);
  lb_emit (LCondBr ne slowp_bb fastp_bb);;
  mret entry_ep.
Definition brind_fastp (entry_ep : lvalue) : GM unit :=
  entry_code_ep ← lb_insert (fun d => LGepField d entry_ep 1);
  entry_codev ← lb_insert (fun d => AScopeOther (LLoad d LPtr entry_code_ep 8 alias_none));
  CreateQCGFnCall entry_codev.
Definition brind_slowp (gipv : lvalue) : GM unit :=
  f ← MakeRStub id_brind;
  target ← lb_insert (fun d => LCall d f [LState; gipv]);
  CreateQCGFnCall target.

Definition brind_blocks (gipv : lvalue) (nblocks : nat) : GM (option (list (list linst))) :=
  entry_ep ← brind_lookup gipv nblocks (S nblocks);
  fastp ← in_block (brind_fastp entry_ep);
  slowp ← in_block (brind_slowp gipv);
  mret (Some [slowp; fastp]).

Definition Expand_gbrind (args : list lvalue) (must_expand : bool) (nblocks : nat) : GM (option (list (list linst))) :=
  gipv ← g_of (args !! 2%nat);
  match gipv with
  | LConst w gip => CreateQCGGbr (uN w gip) must_expand;; mret (Some [])
  | _ => if negb must_expand then mret None else brind_blocks gipv nblocks
  end.

(** One block: the instructions in front of the iterator are the builder's
    code.  A replaced call takes the terminator of the block with it. *)
Fixpoint expand_insts (fuel : nat) (is_final : bool) (rest : list linst) (nblocks : nat) : GM (list (list linst)) :=
  match fuel, rest with
  | _, [] => mret []
  | O, _ => g_of None
  | S fuel, LCallIntrin f args :: rest =>
      r ← (match f with
           | intr_gbr => Expand_gbr args is_final
           | intr_gbrind => Expand_gbrind args is_final nblocks
           end);
      match r with
      | None => lb_emit (LCallIntrin f args);; expand_insts fuel is_final rest nblocks
      | Some bs => bs' ← expand_insts fuel is_final (removelast rest) (nblocks + length bs); mret (bs ++ bs')
      end
  | S fuel, i :: rest => lb_emit i;; expand_insts fuel is_final rest nblocks
  end.

(** The blocks of the function one after another; added blocks come behind
    all of them and hold no intrinsic. *)
Fixpoint expand_blocks (is_final : bool) (blocks : list (list linst)) (nblocks next : nat)
    : option (list (list linst) * list (list linst) * nat) :=
  match blocks with
  | [] => Some ([], [], next)
  | bb :: blocks =>
      '(bs, b) ← expand_insts (length bb) is_final bb nblocks (mkLB next []);
      '(blocks', bs', next') ← expand_blocks is_final blocks (nblocks + length bs) (lb_next b);
      Some (lb_code b :: blocks', bs ++ bs', next')
  end.
Definition ExpandIntrinsics (is_final : bool) (fn : lfunc) : option lfunc :=
  '(blocks, bs, next) ← expand_blocks is_final (fn_blocks fn) (length (fn_blocks fn)) (fn_next fn);
  Some (mkFn next (blocks ++ bs)).

(** ** [QIRToLLVM] *)
Definition MakeType (type : VType) : option Z := n ← VTypeToSize type; Some (8 * n).
Definition MakeConst (type : VType) (val : Z) : option lvalue := w ← MakeType type; Some (LConst w val).
Definition MakeCC (cc : CondCode) : Predicate :=
  match cc with
  | EQ => ICMP_EQ
  | NE => ICMP_NE
  | LE => ICMP_SLE
  | LT => ICMP_SLT
  | GE => ICMP_SGE
  | GT => ICMP_SGT
  | LEU => ICMP_ULE
  | LTU => ICMP_ULT
  | GEU => ICMP_UGE
  | GTU => ICMP_UGT
  end.

Fixpoint glob_locs (l : list StateReg) : GM (list lvalue) :=
  match l with
  | [] => mret []
  | info :: l => state_ep ← MakeStateEP (state_offs info); r ← glob_locs l; mret (state_ep :: r)
  end.
Fixpoint local_locs (l : list VType) : GM (list lvalue) :=
  match l with
  | [] => mret []
  | type :: l =>
      w ← g_of (MakeType type); n ← g_of (VTypeToSize type);
      ep ← lb_insert (fun d => LAlloca d w n);
      r ← local_locs l; mret (ep :: r)
  end.
Definition CreateVGPRLocs (vinfo : VRegsInfo) : GM (list lvalue) :=
  gl ← glob_locs (glob_info vinfo); ll ← local_locs (loc_info vinfo); mret (gl ++ ll).

Section region.
Context (vlocs : list lvalue) (vlocs_nglobals : Z) (nblocks : nat).

Definition MakeVOperandEP (op : VOperand) : GM (lvalue * bool) :=
  match op with
  | VGPR _ r => p ← g_of (vlocs !! Z.to_nat r); mret (p, r <? vlocs_nglobals)
  | VSlot true _ offs => p ← MakeStateEP offs; mret (p, true)
  | _ => g_of None
  end.
Definition scope_if (is_global : bool) (i : linst) : linst := if is_global then AScopeState i else i.

Definition LoadVOperand (op : VOperand) : GM lvalue :=
  match op with
  | VConst t c => g_of (MakeConst t c)
  | VGPR t _ | PGPR t _ | VSlot _ t _ =>
      '(state_ep, is_global) ← MakeVOperandEP op;
      w ← g_of (MakeType t); n ← g_of (VTypeToSize t);
      lb_insert (fun d => scope_if is_global (LLoad d (LInt w) state_ep n alias_none))
  | VBad => g_of None
  end.
Definition StoreVOperand (op : VOperand) (val : lvalue) : GM unit :=
  '(state_ep, is_global) ← MakeVOperandEP op;
  n ← g_of (VTypeToSize (type_of op));
  lb_emit (scope_if is_global (LStore val state_ep n alias_none)).

Definition MapBB (bb : nat) : option nat := if decide (bb < nblocks)%nat then Some (S bb) else None.

Definition Emit_hcall (stub : RuntimeStubId) (arg : VOperand) (is_last : bool) : GM unit :=
  f ← MakeRStub stub;
  a ← LoadVOperand arg;
  _ ← lb_insert (fun d => LCall d f [LState; a]);
  if is_last then lb_emit LRetVoid else mret tt.
Definition Emit_br (succs : list nat) : GM unit :=
  bb ← g_of (s ← succs !! 0%nat; MapBB s);
  lb_emit (LBr bb).
Definition Emit_brcc (cc : CondCode) (s1 s2 : VOperand) (succs : list nat) : GM unit :=
  lhs ← LoadVOperand s1;
  rhs ← LoadVOperand s2;
  cmp ← lb_insert (fun d => LICmp d (MakeCC cc) lhs rhs);
  bb_t ← g_of (s ← succs !! 0%nat; MapBB s);
  bb_f ← g_of (s ← succs !! 1%nat; MapBB s);
  lb_emit (LCondBr cmp bb_t bb_f).
Definition Emit_gbr (tpc : VOperand) : GM unit :=
  match tpc with VConst _ gip => CreateQCGGbr gip false | _ => g_of None end.
Definition Emit_gbrind (tpc : VOperand) : GM unit :=
  gipv ← LoadVOperand tpc;
  lb_emit (LCallIntrin intr_gbrind [LState; LMembase; gipv]);;
  lb_emit LUnreachable.

(** An access without an alignment ([MaybeAlign{}]) has that of its type. *)
Definition Emit_vmload (sz : VType) (sgn : VSign) (d ptr : VOperand) : GM unit :=
  addr ← LoadVOperand ptr;
  mem_ep ← MakeVMemLoc addr;
  w ← g_of (MakeType sz); n ← g_of (VTypeToSize sz);
  val ← lb_insert (fun r => AScopeVMem (LLoad r (LInt w) mem_ep n alias_none));
  val ← (if bool_decide (type_of d = sz) then mret val
         else w' ← g_of (MakeType (type_of d));
              match sgn with
              | VSign_S => lb_insert (fun r => LSExt r val w')
              | VSign_U => lb_insert (fun r => LZExt r val w')
              end);
  StoreVOperand d val.
(** The truncation is to the type of the value, and creates nothing. *)
Definition Emit_vmstore (sz : VType) (ptr v : VOperand) : GM unit :=
  val ← LoadVOperand v;
  n ← g_of (VTypeToSize (type_of v));
  addr ← LoadVOperand ptr;
  mem_ep ← MakeVMemLoc addr;
  lb_emit (AScopeVMem (LStore val mem_ep n alias_none)).
Definition Emit_setcc (cc : CondCode) (d sl sr : VOperand) : GM unit :=
  lhs ← LoadVOperand sl;
  rhs ← LoadVOperand sr;
  cmp ← lb_insert (fun r => LICmp r (MakeCC cc) lhs rhs);
  val ← lb_insert (fun r => LZExt r cmp 32);
  StoreVOperand d val.
Definition Emit_mov (d v : VOperand) : GM unit := val ← LoadVOperand v; StoreVOperand d val.
Definition EmitBinop (opc : BinaryOps) (d sl sr : VOperand) : GM unit :=
  lhs ← LoadVOperand sl;
  rhs ← LoadVOperand sr;
  res ← lb_insert (fun r => LBinOp r opc lhs rhs);
  StoreVOperand d res.
Definition Emit_binop (op : Op) (d sl sr : VOperand) : GM unit :=
  match op with
  | _add => EmitBinop Add d sl sr
  | _sub => EmitBinop Sub d sl sr
  | _and => EmitBinop And d sl sr
  | _or => EmitBinop Or d sl sr
  | _xor => EmitBinop Xor d sl sr
  | _sra => EmitBinop AShr d sl sr
  | _srl => EmitBinop LShr d sl sr
  | _sll => EmitBinop Shl d sl sr
  | _ => g_of None
  end.

(** [Visitor]. *)
Definition Visitor_visit (succs : list nat) (is_last : bool) (ins : Inst) : GM unit :=
  match ins with
  | InstHcall stub arg => Emit_hcall stub arg is_last
  | InstBr => Emit_br succs
  | InstBrcc cc s1 s2 => Emit_brcc cc s1 s2 succs
  | InstGBr tpc => Emit_gbr tpc
  | InstGBrind tpc => Emit_gbrind tpc
  | InstVMLoad sz sgn d ptr => Emit_vmload sz sgn d ptr
  | InstVMStore sz sgn ptr v => Emit_vmstore sz ptr v
  | InstSetcc cc d sl sr => Emit_setcc cc d sl sr
  | InstUnop op d v => if InstUnop_HasOpcode op then Emit_mov d v else g_of None
  | InstBinop op d sl sr => Emit_binop op d sl sr
  end.

Fixpoint emit_insts (succs : list nat) (l : list Inst) : GM unit :=
  match l with
  | [] => mret tt
  | ins :: l => Visitor_visit succs (bool_decide (l = [])) ins;; emit_insts succs l
  end.
Fixpoint emit_bbs (bbs : list Block) (next : nat) : option (list (list linst) * nat) :=
  match bbs with
  | [] => Some ([], next)
  | bb :: bbs =>
      '(_, b) ← emit_insts (succs bb) (n_inst <$> ilist bb) (mkLB next []);
      '(r, next') ← emit_bbs bbs (lb_next b);
      Some (lb_code b :: r, next')
  end.
End region.

Definition Run (region : Region) : option lfunc :=
  '(vlocs, b) ← CreateVGPRLocs (vregs_info region) (mkLB 0 []);
  let nblocks := length (blist region) in
  '(bbs, next) ← emit_bbs vlocs (NumGlobals (vregs_info region)) nblocks (blist region) (lb_next b);
  let entry := if decide (nblocks = 0%nat) then lb_code b else lb_code b ++ [LBr 1] in
  Some (mkFn next (entry :: bbs)).
End gen.
