(* ===== verification/LlvmGenCorrect.v ===== *)
(** * Correctness of the LLVM back end

    [Run_sim]: the function [QIRToLLVM] builds for a well-formed region does
    what the region does.  LLVM IR leaves more undefined than QuickIR does: a
    shift by 32 or more, an access to guest memory that is not aligned, and an
    access to guest address 0, which is the null pointer; [gexec_region] is
    QuickIR with these cases undefined. *)

From stdpp Require Import base tactics numbers list strings gmap.
From S2P Require Import Prelude Common GuestState Interp InterpProofs VOperand Qir QirSem QSel QSelCorrect QRegAllocInv QRegAllocOps QRegAllocCorrect QRegAllocRegion QSelWf.
From S2P Require Import BranchSlot Tcache Execute Amd64 QEmitInst AotSymbol LlvmIr LlvmGen.

Import qir.

(** ** QuickIR with LLVM's undefined cases *)
Section guarded.
Context (si : StateInfo) (clob : Z -> option Z) (weaks : list bool).

Definition shift_op (op : Op) : bool := match op with _sra | _srl | _sll => true | _ => false end.
Definition reads_lt (v : VOperand) (n : Z) (s : qstate) : bool :=
  match read_opnd si v s with Some x => x <? n | None => true end.
(** An address LLVM IR can access: aligned and not null. *)
Definition access_ok (sz : VType) (a : Z) : bool := (a mod slot_size sz =? 0) && negb (a =? 0).
Definition reads_access (v : VOperand) (sz : VType) (s : qstate) : bool :=
  match read_opnd si v s with Some x => access_ok sz x | None => true end.
Definition llvm_defined (i : Inst) (s : qstate) : bool :=
  match i with
  | InstBinop op _ _ b => negb (shift_op op) || reads_lt b 32 s
  | InstVMLoad sz _ _ p => reads_access p sz s
  | InstVMStore sz _ p _ => reads_access p sz s
  | _ => true
  end.

Definition gexec_inst (i : Inst) (s : qstate) : qres :=
  match exec_inst si clob weaks i s with
  | QStuck => QStuck
  | r => if llvm_defined i s then r else QUndef
  end.
Fixpoint gexec_list (l : list Inst) (s : qstate) : qres :=
  match l with
  | [] => QNext s
  | i :: l => match gexec_inst i s with QNext s' => gexec_list l s' | r => r end
  end.
Fixpoint gexec_region (fuel : nat) (rn : Region) (b : nat) (s : qstate) : option qres :=
  match fuel with
  | O => None
  | S fuel =>
      match blist rn !! b with
      | None => Some QStuck
      | Some bb =>
          match gexec_list (n_inst <$> ilist bb) s with
          | QJump k s' =>
              match succs bb !! k with
              | Some b' => gexec_region fuel rn b' s'
              | None => Some QStuck
              end
          | QNext _ => Some QStuck
          | r => Some r
          end
      end
  end.

(** Where nothing is undefined it is QuickIR. *)
Lemma gexec_inst_eq i s : gexec_inst i s = exec_inst si clob weaks i s \/ gexec_inst i s = QUndef.
Proof. unfold gexec_inst. destruct (exec_inst _ _ _ i s); [..|by left]; destruct (llvm_defined i s); auto. Qed.
Lemma gexec_list_eq l s : gexec_list l s = exec_list si clob weaks l s \/ gexec_list l s = QUndef.
Proof.
  revert s. induction l as [|i l IH]; intros s; [by left|]. cbn [gexec_list exec_list].
  destruct (gexec_inst_eq i s) as [->| ->]; [|by right]. destruct (exec_inst si clob weaks i s); auto.
Qed.
Lemma gexec_region_eq fuel rn b s :
  gexec_region fuel rn b s = exec_region si clob weaks fuel rn b s \/ gexec_region fuel rn b s = Some QUndef.
Proof.
  revert b s. induction fuel as [|fuel IH]; intros b s; [by left|]. cbn [gexec_region exec_region].
  destruct (blist rn !! b) as [bb|]; [|by left]. unfold exec_block.
  destruct (gexec_list_eq (n_inst <$> ilist bb) s) as [->| ->]; [|by right].
  destruct (exec_list si clob weaks (n_inst <$> ilist bb) s); auto. destruct (succs bb !! succ); auto.
Qed.
End guarded.

(** ** Building code *)
(** [g] creates [code], using the numbers from [n] to [n']. *)
Definition builds {A} (g : GM A) (a : A) (n n' : nat) (code : list linst) : Prop :=
  forall l, g (mkLB n l) = Some (a, mkLB n' (l ++ code)).

Lemma builds_ret {A} (a : A) n : builds (mret a) a n n [].
Proof. intros l. by rewrite app_nil_r. Qed.
Lemma builds_of {A} (o : option A) a n : o = Some a -> builds (g_of o) a n n [].
Proof. intros -> l. by rewrite app_nil_r. Qed.
Lemma builds_insert f n : builds (lb_insert f) (LReg n) n (S n) [f n].
Proof. by intros l. Qed.
Lemma builds_emit i n : builds (lb_emit i) tt n n [i].
Proof. by intros l. Qed.
Lemma builds_bind {A B} (g : GM A) (f : A -> GM B) a b n n1 n2 c1 c2 :
  builds g a n n1 c1 -> builds (f a) b n1 n2 c2 -> builds (g ≫= f) b n n2 (c1 ++ c2).
Proof.
  intros H1 H2 l. unfold mbind, GM_bind. rewrite H1. cbn [mbind option_bind]. rewrite H2, app_assoc. done.
Qed.
Lemma builds_in_block (g : GM unit) n n' code : builds g tt n n' code -> builds (in_block g) code n n' [].
Proof. intros H l. unfold in_block. rewrite H. cbn. by rewrite app_nil_r. Qed.

(** Computations that are the same up to the nesting of their steps. *)
Lemma builds_ext {A} (g g' : GM A) a n n' code : (forall b, g b = g' b) -> builds g a n n' code -> builds g' a n n' code.
Proof. intros H Hb l. rewrite <- H. apply Hb. Qed.
Lemma GM_assoc {A B C} (g : GM A) (f : A -> GM B) (k : B -> GM C) b :
  ((g ≫= f) ≫= k) b = (g ≫= fun x => f x ≫= k) b.
Proof. unfold mbind, GM_bind, mbind, option_bind. by destruct (g b) as [[x b1]|]. Qed.
Lemma GM_bind_ext {A B} (g : GM A) (f f' : A -> GM B) b : (forall a b, f a b = f' a b) -> (g ≫= f) b = (g ≫= f') b.
Proof. intros H. unfold mbind, GM_bind, mbind, option_bind. destruct (g b) as [[x b1]|]; [apply H|done]. Qed.
Ltac gm_assoc := intros; repeat first [reflexivity | rewrite ?GM_assoc; apply GM_bind_ext; intros].

(** [st'] differs from [st] in results from [n] on only. *)
Definition keeps (n : nat) (st st' : lstate) : Prop :=
  l_loc st' = l_loc st /\ l_cpu st' = l_cpu st /\ l_mem st' = l_mem st /\
  forall d, (d < n)%nat -> l_regs st' !! d = l_regs st !! d.
Definition below (n : nat) (v : lvalue) : Prop := match v with LReg d => (d < n)%nat | _ => True end.

Lemma keeps_refl n st : keeps n st st.
Proof. done. Qed.
Lemma keeps_trans n n' st st1 st2 : (n <= n')%nat -> keeps n st st1 -> keeps n' st1 st2 -> keeps n st st2.
Proof.
  intros Hn (A1 & A2 & A3 & A4) (B1 & B2 & B3 & B4). split_and!; try congruence.
  intros d Hd. rewrite B4, A4 by lia. done.
Qed.
Lemma keeps_set n d v st : (n <= d)%nat -> keeps n st (set_lreg d v st).
Proof. intros Hd. split_and!; try done. intros e He. cbn. by rewrite lookup_insert_ne by lia. Qed.
Lemma keeps_then n d v st st' : keeps n st st' -> (n <= d)%nat -> keeps n st (set_lreg d v st').
Proof. intros H Hd. eapply keeps_trans; [done|exact H|by apply keeps_set]. Qed.
Lemma leval_keeps n st st' v : keeps n st st' -> below n v -> leval v st' = leval v st.
Proof. intros (_ & _ & _ & H) Hv. destruct v; cbn in *; auto. Qed.
Lemma leval_set d v st : leval (LReg d) (set_lreg d v st) = Some v.
Proof. cbn. by rewrite lookup_insert_eq. Qed.
Lemma lbelow_le n n' v : (n <= n')%nat -> below n v -> below n' v.
Proof. destruct v; cbn; lia. Qed.

(** The low bytes of what was stored. *)
Lemma load_le_put_low k n m a v : (k <= n)%nat -> load_le k (put_le n m a v) a = Some (uN (8 * Z.of_nat k) v).
Proof.
  revert n m a v. induction k as [|k IH]; intros n m a v Hk.
  - cbn. f_equal. unfold uN. change (2 ^ _) with 1. by rewrite Z.mod_1_r.
  - destruct n as [|n]; [lia|]. cbn [load_le put_le]. rewrite put_le_lookup_ne by lia.
    rewrite lookup_insert_eq, IH by lia. cbn [mbind option_bind]. f_equal. bits.
Qed.

(** ** Operands *)
Section sim.
Context (lay : layout) (g : LLVMGenCtx) (fake : Payload) (segment : CodeSegment).
Context (si : StateInfo) (types : list VType).
Context (Hoffs : Forall (fun sr => valid_offs (state_offs sr) = true) si).
Context (Hgt : Forall (fun sr => sr_type sr = I32) si) (Htypes : Forall (fun t => t <> UNDEF) types).

Notation n_all := (length si + length types)%nat.
Definition vlocs_of : list lvalue := LReg <$> seq 0 n_all.
Notation ng := (Z.of_nat (length si)).
Notation bits_of t := (8 * slot_size t).

(** The registers of the region in the function's state. *)
Record lrel (s : qstate) (st : lstate) : Prop := {
  lr_cpu : l_cpu st = q_cpu s;
  lr_mem : l_mem st = q_mem s;
  lr_weak : hweak (mkH (q_cpu s) 0 (q_mem s));
  lr_glob : forall i sr, si !! i = Some sr -> l_regs st !! i = Some (VPtr (PState (state_offs sr)));
  lr_local : forall i t, types !! i = Some t ->
    l_regs st !! (length si + i)%nat = Some (VPtr (PLocal (length si + i) 0)) /\
    exists m, l_loc st !! (length si + i)%nat = Some (slot_size t * slot_size t, m) /\
      forall x, q_loc s !! Z.of_nat (length si + i) = Some x ->
        in_u 32 x /\ forall k, (k <= Z.to_nat (slot_size t))%nat -> load_le k m 0 = Some (uN (8 * Z.of_nat k) x) }.

Lemma lrel_keeps n s st st' : (n_all <= n)%nat -> keeps n st st' -> lrel s st -> lrel s st'.
Proof.
  intros Hn (K1 & K2 & K3 & K4) [h1 h2 h3 h4 h5]. split; [congruence|congruence|done| |].
  - intros i sr Hi. rewrite K4; [by apply h4|]. apply lookup_lt_Some in Hi. lia.
  - intros i t Hi. rewrite K1, K4; [by apply h5|]. apply lookup_lt_Some in Hi. lia.
Qed.

(** Operands of well-formed instructions. *)
Definition src_ok (v : VOperand) : Prop :=
  match v with
  | VConst t c => t <> UNDEF /\ in_u 32 c /\ trunc t c = c
  | VGPR t r => 0 <= r < Z.of_nat n_all /\ t <> UNDEF /\ slot_size t <= slot_size (vtype si types (Z.to_nat r))
  | _ => False
  end.
Definition dst_ok (v : VOperand) : Prop :=
  match v with
  | VGPR t r => 0 <= r < Z.of_nat n_all /\ t = vtype si types (Z.to_nat r)
  | VSlot true t o => o = offs_ip /\ t = I32
  | _ => False
  end.

Lemma vloc r : 0 <= r < Z.of_nat n_all -> vlocs_of !! Z.to_nat r = Some (LReg (Z.to_nat r)).
Proof. intros Hr. unfold vlocs_of. rewrite list_lookup_fmap, lookup_seq_lt by lia. done. Qed.
Lemma size_of t : t <> UNDEF -> VTypeToSize t = Some (slot_size t) /\ MakeType t = Some (bits_of t) /\ 1 <= slot_size t <= 4.
Proof. by destruct t. Qed.
Lemma glob_reg r sr : 0 <= r -> GetStateReg si r = Some sr -> si !! Z.to_nat r = Some sr /\ r < ng /\ valid_offs (state_offs sr) = true.
Proof.
  unfold GetStateReg. intros Hr H. destruct (Z.ltb_spec r ng); [|done]. split_and!; [done|done|].
  by eapply (proj1 (Forall_lookup _ _) Hoffs).
Qed.
Lemma local_reg r : 0 <= r < Z.of_nat n_all -> GetStateReg si r = None ->
  exists i t, types !! i = Some t /\ Z.to_nat r = (length si + i)%nat /\ vtype si types (Z.to_nat r) = t /\ t <> UNDEF /\ ng <= r.
Proof.
  unfold GetStateReg. intros Hr H. destruct (Z.ltb_spec r ng) as [Hlt|Hge].
  - apply lookup_ge_None in H. lia.
  - assert (Hlt : (Z.to_nat r - length si < length types)%nat) by lia. apply lookup_lt_is_Some in Hlt as [t Ht].
    exists (Z.to_nat r - length si)%nat, t. split_and!; [done|lia| | |done].
    + unfold vtype. rewrite (lookup_ge_None_2 si) by lia. by rewrite Ht.
    + by eapply (proj1 (Forall_lookup _ _) Htypes).
Qed.
Lemma glob_type r sr : GetStateReg si r = Some sr -> 0 <= r -> vtype si types (Z.to_nat r) = I32.
Proof.
  intros H Hr. apply glob_reg in H as (H & _); [|done]. unfold vtype. rewrite H. by eapply (proj1 (Forall_lookup _ _) Hgt).
Qed.

Lemma valid_aligned o t : valid_offs o = true -> t <> UNDEF -> (o mod slot_size t =? 0) = true.
Proof.
  intros H Ht. apply Z.eqb_eq. assert (Ho : o mod 4 = 0).
  { unfold valid_offs in H. apply orb_true_iff in H as [H|H]; [|by apply Z.eqb_eq in H as ->].
    apply andb_true_iff in H as [_ H]. by apply Z.eqb_eq. }
  destruct t; cbn; try done; zlia.
Qed.
Lemma cpu_range c m o v : hweak (mkH c 0 m) -> cpu_read c o = Some v -> in_u 32 v.
Proof. intros (Hl & Hg & Hi & _). unfold cpu_read. repeat case_match; intros [= <-]; [|done]. by apply get_gpr_range. Qed.
Lemma ltrunc_uN t x : t <> UNDEF -> in_u 32 x -> trunc t x = uN (bits_of t) x.
Proof. intros Ht Hx. destruct t; cbn; try done. symmetry. by apply uN_id. Qed.

Notation run := (exec_lblock lay).
Notation Load := (LoadVOperand vlocs_of ng).
Notation Store := (StoreVOperand vlocs_of ng).

(** Code that computes a value. *)
Definition computes (gm : GM lvalue) (t : VType) (rd : qstate -> option Z) (n : nat) : Prop :=
  exists v n' code, builds gm v n n' code /\ (n <= n')%nat /\ below n' v /\
    forall s st x, lrel s st -> rd s = Some x ->
      in_u (bits_of t) x /\ exists st', run code st = FNext st' /\ keeps n st st' /\ leval v st' = Some (VInt (bits_of t) x).

Lemma LoadVOperand_sim n op : (n_all <= n)%nat -> src_ok op -> computes (Load op) (type_of op) (read_opnd si op) n.
Proof.
  intros Hn Hop. destruct op as [t c|t r| | |]; try done; cbn [src_ok type_of] in *.
  - destruct Hop as (Ht & Hc & Htr). destruct (size_of t Ht) as (Hs & Hm & Hb).
    exists (LConst (bits_of t) c), n, []. split_and!; [|lia|done|].
    + cbn [LoadVOperand]. apply builds_of. unfold MakeConst. by rewrite Hm.
    + intros s st x _ [= <-]. rewrite ltrunc_uN in Htr by done. split; [rewrite <- Htr; apply uN_range; lia|].
      exists st. split_and!; [done|done|]. cbn. by rewrite Htr.
  - destruct Hop as (Hr & Ht & Hle). destruct (size_of t Ht) as (Hs & Hm & Hb).
    eexists (LReg n), (S n), _. split_and!; [|lia|cbn; lia|].
    + cbn [LoadVOperand MakeVOperandEP]. eapply builds_bind; [eapply builds_bind; [by apply builds_of, vloc|apply builds_ret]|].
      cbn beta iota. eapply builds_bind; [by apply builds_of|]. cbn beta. eapply builds_bind; [by apply builds_of|]. apply builds_insert.
    + cbn [app]. intros s st x HR Hx. cbn [read_opnd] in Hx. apply narrow_Some_inv in Hx as (y & Hy & ->).
      assert (Hy32 : in_u 32 y /\ exec_linst lay (scope_if (r <? ng) (LLoad n (LInt (bits_of t)) (LReg (Z.to_nat r)) (slot_size t) alias_none)) st =
        FNext (set_lreg n (VInt (bits_of t) (uN (bits_of t) y)) st)).
      { destruct (GetStateReg si r) as [sr|] eqn:Eg.
        - apply glob_reg in Eg as (Hi & Hlt & Hv); [|lia]. split; [eapply cpu_range; [apply (lr_weak _ _ HR)|done]|].
          apply Z.ltb_lt in Hlt. rewrite Hlt. cbn [scope_if AScopeState set_scope exec_linst leval]. rewrite (lr_glob _ _ HR _ _ Hi).
          cbn [ptr_of scope_ok aligned andb]. rewrite valid_aligned by done. cbn [negb load_int]. rewrite (lr_cpu _ _ HR), Hy. done.
        - apply local_reg in Eg as (i & ty & Hi & Er & Ev & Hu & Hge); [|done].
          assert (Hnl : (r <? ng) = false) by (by apply Z.ltb_ge). rewrite Hnl. rewrite Er in *.
          destruct (lr_local _ _ HR _ _ Hi) as (Hreg & m & Hl & Hval).
          replace r with (Z.of_nat (length si + i)) in Hy by lia. destruct (Hval _ Hy) as [Hy32 Hld]. split; [done|].
          cbn [scope_if exec_linst leval]. rewrite Hreg. cbn [ptr_of scope_ok aligned andb].
          rewrite Z.mod_0_l by lia. cbn [Z.eqb negb load_int]. rewrite Hl.
          replace (bits_of t / 8) with (slot_size t) by zlia. rewrite Ev in Hle.
          destruct (Z.leb_spec (0 + slot_size t) (slot_size ty * slot_size ty)) as [_|Hbad]; [|nia].
          rewrite Hld by lia. rewrite Z2Nat.id by lia. done. }
      destruct Hy32 as [Hy32 He]. rewrite ltrunc_uN by done. split; [apply uN_range; lia|].
      eexists. cbn [exec_lblock]. rewrite He. split_and!; [done|by apply keeps_set|apply leval_set].
Qed.

Lemma cpu_write_weak c m o v c' : hweak (mkH c 0 m) -> in_u 32 v -> cpu_write c o v = Some c' -> hweak (mkH c' 0 m).
Proof.
  intros (Hl & Hg & Hi & Hp & Hm) Hv. unfold cpu_write.
  repeat case_match; intros [= <-]; split_and!; try done; cbn; [by rewrite length_insert|by apply Forall_insert].
Qed.
Lemma lrel_cpu s st c : lrel s st -> hweak (mkH c 0 (q_mem s)) -> lrel (q_set_cpu c s) (set_lcpu c st).
Proof. by intros [] ?. Qed.

Lemma size_bits t : t <> UNDEF -> bits_of t / 8 = slot_size t /\ Z.of_nat (Z.to_nat (slot_size t)) = slot_size t.
Proof. by destruct t. Qed.
Lemma in_bits t x : in_u (bits_of t) x -> in_u 32 x.
Proof. unfold in_u. destruct t; cbn; lia. Qed.

(** A local gets a value. *)
Lemma lrel_local s st i t x m :
  lrel s st -> types !! i = Some t -> t <> UNDEF -> in_u (bits_of t) x ->
  l_loc st !! (length si + i)%nat = Some (slot_size t * slot_size t, m) ->
  lrel (q_set_loc (Z.of_nat (length si + i)) x s)
    (set_lloc (<[(length si + i)%nat := (slot_size t * slot_size t, put_le (Z.to_nat (slot_size t)) m 0 x)]> (l_loc st)) st).
Proof.
  intros [h1 h2 h3 h4 h5] Hi Ht Hx Hl. split; try done. intros j tj Hj. destruct (h5 j tj Hj) as (Hr & m' & Hm & Hv).
  split; [done|]. cbn [l_loc set_lloc q_loc q_set_loc]. destruct (decide (i = j)) as [->|Hne].
  - rewrite Hi in Hj. injection Hj as ->. rewrite lookup_insert_eq. eexists. split; [done|]. rewrite lookup_insert_eq.
    intros y [= <-]. split; [by eapply in_bits|]. intros k Hk. by apply load_le_put_low.
  - rewrite lookup_insert_ne by lia. exists m'. split; [done|]. rewrite lookup_insert_ne by lia. done.
Qed.

Lemma StoreVOperand_sim n op val : (n_all <= n)%nat -> dst_ok op -> below n val ->
  exists n' code, builds (Store op val) tt n n' code /\ (n <= n')%nat /\
    forall s st x, lrel s st -> leval val st = Some (VInt (bits_of (type_of op)) x) -> in_u (bits_of (type_of op)) x ->
      exists s' st', write_opnd si op x s = Some s' /\ run code st = FNext st' /\ lrel s' st'.
Proof.
  intros Hn Hop Hval. destruct op as [|t r| |[] t o|]; try done; cbn [dst_ok type_of] in *.
  - destruct Hop as [Hr ->]. set (t := vtype si types (Z.to_nat r)).
    assert (Ht : t <> UNDEF).
    { subst t. destruct (GetStateReg si r) as [sr|] eqn:Eg; [erewrite glob_type by (done || lia); done|].
      by destruct (local_reg r Hr Eg) as (? & ? & _ & _ & -> & ? & _). }
    destruct (size_of t Ht) as (Hs & Hm & Hb). eexists n, _. split_and!; [|lia|].
    + unfold StoreVOperand. cbn [MakeVOperandEP type_of].
      eapply builds_bind; [eapply builds_bind; [by apply builds_of, vloc|apply builds_ret]|].
      cbn beta iota. eapply builds_bind; [by apply builds_of|]. cbn beta. apply builds_emit.
    + cbn [app]. intros s st x HR Hv Hx. cbn [write_opnd exec_lblock]. destruct (GetStateReg si r) as [sr|] eqn:Eg.
      * assert (E32 : t = I32) by (eapply glob_type; [done|lia]). clearbody t. subst t.
        apply glob_reg in Eg as (Hi & Hlt & Ho); [|lia]. destruct (cpu_write_valid (q_cpu s) _ x Ho) as [c Hc].
        eexists _, (set_lcpu c st). apply Z.ltb_lt in Hlt. rewrite Hlt, Hc. split_and!; [done| |].
        -- cbn [scope_if AScopeState set_scope exec_linst]. rewrite Hv. cbn [int_of leval]. rewrite (lr_glob _ _ HR _ _ Hi).
           cbn [ptr_of scope_ok aligned andb]. rewrite valid_aligned by done. cbn [negb store_int]. rewrite (lr_cpu _ _ HR), Hc. done.
        -- apply lrel_cpu; [done|]. eapply cpu_write_weak; [apply (lr_weak _ _ HR)|exact Hx|done].
      * destruct (local_reg r Hr Eg) as (i & ty & Hi & Er & Ev & Hu & Hge). fold t in Ev. clearbody t. subst ty.
        assert (Hnl : (r <? ng) = false) by (by apply Z.ltb_ge). rewrite Hnl, Er.
        destruct (lr_local _ _ HR _ _ Hi) as (Hreg & m & Hl & Hloc). destruct (size_bits t Ht) as [Hs8 HsN].
        eexists _, _. split_and!; [done| |].
        -- cbn [scope_if exec_linst]. rewrite Hv. cbn [int_of leval]. rewrite Hreg. cbn [ptr_of scope_ok aligned andb].
           rewrite Z.mod_0_l by lia. cbn [Z.eqb negb store_int]. rewrite Hl, Hs8.
           destruct (Z.leb_spec (0 + slot_size t) (slot_size t * slot_size t)) as [_|?]; [done|nia].
        -- replace r with (Z.of_nat (length si + i)) by lia. by apply lrel_local.
  - destruct Hop as [-> ->]. eexists _, _. split_and!; [| |].
    + unfold StoreVOperand. cbn [MakeVOperandEP type_of]. eapply builds_bind; [eapply builds_bind; [apply builds_insert|apply builds_ret]|].
      cbn beta iota. eapply builds_bind; [by apply builds_of|]. apply builds_emit.
    + lia.
    + cbn [app type_of]. intros s st x HR Hv Hx. cbn [write_opnd]. destruct (cpu_write_valid (q_cpu s) offs_ip x eq_refl) as [c Hc].
      rewrite Hc. exists (q_set_cpu c s), (set_lcpu c (set_lreg n (VPtr (PState (0 + offs_ip))) st)). split_and!; [done| |].
      * cbn [exec_lblock exec_linst leval ptr_of scope_if AScopeState set_scope].
        rewrite (leval_keeps n st) by (done || by apply keeps_set). rewrite Hv. cbn [int_of]. cbn [l_regs set_lreg].
        rewrite lookup_insert_eq. cbn [ptr_of scope_ok aligned andb]. change (0 + offs_ip) with offs_ip.
        change (offs_ip mod 4 =? 0) with true. cbn [negb store_int]. cbn [l_cpu set_lreg].
        rewrite (lr_cpu _ _ HR), Hc. done.
      * apply lrel_cpu; [eapply lrel_keeps; [exact Hn|by apply keeps_set|done]|].
        eapply cpu_write_weak; [apply (lr_weak _ _ HR)|exact Hx|done].
Qed.

(** ** Results *)
Definition same (s : qstate) (st : lstate) : Prop := l_cpu st = q_cpu s /\ l_mem st = q_mem s.
Lemma lrel_same s st : lrel s st -> same s st.
Proof. by intros []. Qed.
Lemma same_keeps n s st st' : keeps n st st' -> same s st -> same s st'.
Proof. intros (_ & K2 & K3 & _) [? ?]. split; congruence. Qed.

(** A branch to the guest address [t], as an intrinsic or a tail call. *)
Definition leaves (t : Z) (s : qstate) (o : fres) : Prop :=
  match o with
  | FGbr gip st | FGbrind gip st => gip = t /\ same s st
  | FTail name st => name = MakeAotSymbol t /\ same s st
  | _ => False
  end.

Section blocks.
Context (nblocks : nat) (ss : list nat).
Notation target k := (s ← ss !! k; MapBB nblocks s).

Definition inst_rel (is_last : bool) (r : qres) (o : fres) : Prop :=
  match r with
  | QNext s => exists st, lrel s st /\ (o = FNext st \/ is_last = true /\ o = FRet st)
  | QJump k s => exists b st, target k = Some b /\ o = FGoto b st /\ lrel s st
  | QExit t s => leaves t s o
  | QRaised s => exists st, o = FRaised st /\ same s st
  | QFaulted s => exists st, o = FFaulted st /\ same s st
  | QUndef => o = FUndef
  | QStuck => True
  end.

Notation gexec := (gexec_inst si (lay_clob lay) (lay_weaks lay)).
Notation visit := (Visitor_visit g fake segment vlocs_of ng nblocks ss).
Definition visits (is_last : bool) (i : Inst) (n : nat) (gm : GM unit) : Prop :=
  exists n' code, builds gm tt n n' code /\ (n <= n')%nat /\
    forall s st, lrel s st -> inst_rel is_last (gexec i s) (run code st).

Lemma visits_ext is_last i n gm gm' : visits is_last i n gm -> (forall b, gm b = gm' b) -> visits is_last i n gm'.
Proof. intros (n' & code & Hb & H) He. exists n', code. split; [by eapply builds_ext|done]. Qed.

(** *** Values *)
Inductive ores := OVal (x : Z) | OUndef | OFault | OStuck.
Definition oval (o : option Z) : ores := match o with Some x => OVal x | None => OStuck end.
Definition produces (gm : GM lvalue) (t : VType) (rd : qstate -> ores) (n : nat) : Prop :=
  exists v n' code, builds gm v n n' code /\ (n <= n')%nat /\ below n' v /\
    forall s st, lrel s st ->
      match rd s with
      | OVal x => in_u (bits_of t) x /\
          exists st', run code st = FNext st' /\ keeps n st st' /\ leval v st' = Some (VInt (bits_of t) x)
      | OUndef => run code st = FUndef
      | OFault => exists st', run code st = FFaulted st' /\ same s st'
      | OStuck => True
      end.

Lemma load_produces n op : (n_all <= n)%nat -> src_ok op -> produces (Load op) (type_of op) (fun s => oval (read_opnd si op s)) n.
Proof.
  intros Hn Hop. destruct (LoadVOperand_sim n op Hn Hop) as (v & n' & code & Hb & Hle & Hbl & H). exists v, n', code.
  split_and!; try done. intros s st HR. destruct (read_opnd si op s) as [x|] eqn:E; [|done]. exact (H s st x HR E).
Qed.

Lemma write_some d x s : dst_ok d -> is_Some (write_opnd si d x s).
Proof.
  intros Hd. destruct d as [|t r| |[] t o|]; try done; cbn [dst_ok write_opnd] in *.
  - destruct (GetStateReg si r) as [sr|] eqn:E; [|by eexists]. apply glob_reg in E as (_ & _ & Ho); [|lia].
    apply fmap_is_Some. by apply cpu_write_valid.
  - destruct Hd as [-> _]. apply fmap_is_Some. by apply cpu_write_valid.
Qed.

(** A computed value is written to the result. *)
Lemma produces_store is_last n i gm d rd :
  (n_all <= n)%nat -> dst_ok d -> produces gm (type_of d) rd n ->
  (forall s st, lrel s st -> gexec i s = match rd s with
    | OVal x => or_stuck (write_opnd si d x s) QNext | OUndef => QUndef | OFault => QFaulted s | OStuck => QStuck end) ->
  visits is_last i n (v ← gm; Store d v).
Proof.
  intros Hn Hd (v & n1 & c1 & Hb1 & Hle1 & Hbl & H) He.
  destruct (StoreVOperand_sim n1 d v ltac:(lia) Hd Hbl) as (n2 & c2 & Hb2 & Hle2 & H2).
  exists n2, (c1 ++ c2). split_and!; [by eapply builds_bind|lia|]. intros s st HR. rewrite (He s st HR). specialize (H s st HR).
  rewrite exec_lblock_app. destruct (rd s) as [x| | |].
  - destruct H as (Hx & st1 & -> & Hk & Hv). destruct (H2 s st1 x) as (s' & st' & -> & -> & HR'); [|done..|].
    + eapply lrel_keeps; [exact Hn|exact Hk|exact HR].
    + cbn. exists st'. auto.
  - by rewrite H.
  - destruct H as (st' & -> & Hs). by exists st'.
  - done.
Qed.

(** Two operands. *)
Lemma pair_sim n a b : (n_all <= n)%nat -> src_ok a -> src_ok b ->
  exists va vb n1 n2 c1 c2, builds (Load a) va n n1 c1 /\ builds (Load b) vb n1 n2 c2 /\ (n <= n2)%nat /\
    below n2 va /\ below n2 vb /\
    forall s st x y, lrel s st -> read_opnd si a s = Some x -> read_opnd si b s = Some y ->
      in_u (bits_of (type_of a)) x /\ in_u (bits_of (type_of b)) y /\
      exists st', run (c1 ++ c2) st = FNext st' /\ keeps n st st' /\
        leval va st' = Some (VInt (bits_of (type_of a)) x) /\ leval vb st' = Some (VInt (bits_of (type_of b)) y).
Proof.
  intros Hn Ha Hb. destruct (LoadVOperand_sim n a Hn Ha) as (va & n1 & c1 & B1 & L1 & V1 & H1).
  destruct (LoadVOperand_sim n1 b ltac:(lia) Hb) as (vb & n2 & c2 & B2 & L2 & V2 & H2).
  exists va, vb, n1, n2, c1, c2. split_and!; try done; [lia|by eapply lbelow_le|]. intros s st x y HR Hx Hy.
  destruct (H1 s st x HR Hx) as (Hxr & st1 & R1 & K1 & E1).
  destruct (H2 s st1 y) as (Hyr & st2 & R2 & K2 & E2); [by eapply lrel_keeps|done|].
  split_and!; try done. exists st2. rewrite exec_lblock_app, R1. split_and!; try done.
  - by eapply keeps_trans.
  - by rewrite (leval_keeps n1 st1).
Qed.

(** *** Arithmetic *)
Definition lop_of (op : Op) : option BinaryOps :=
  match op with
  | _add => Some Add | _sub => Some Sub | _and => Some And | _or => Some Or | _xor => Some Xor
  | _sra => Some AShr | _srl => Some LShr | _sll => Some Shl | _ => None
  end.
Lemma lop_shift op lop : lop_of op = Some lop -> is_shift lop = shift_op op.
Proof. by destruct op; intros [= <-]. Qed.
Lemma lop_eval op lop x y : lop_of op = Some lop -> in_u 32 x -> in_u 32 y -> (shift_op op = true -> y < 32) ->
  eval_binop op x y = Some (eval_lbin lop 32 x y) /\ in_u 32 (eval_lbin lop 32 x y).
Proof.
  intros Hop Hx Hy Hs. assert (Hr : forall z, in_u 32 (u32 z)) by (intros; by apply uN_range).
  assert (Hm : shift_op op = true -> y mod 32 = y) by (intros H; apply Z.mod_small; unfold in_u in Hy; specialize (Hs H); lia).
  destruct op; try discriminate Hop; injection Hop as <-; cbn [eval_binop eval_lbin shift_op] in *; rewrite ?Hm by done; split; try done; try apply Hr.
  - rewrite <- land_u32 by done. apply Hr.
  - rewrite <- lor_u32 by done. apply Hr.
  - rewrite <- lxor_u32 by done. apply Hr.
  - rewrite <- shiftr_u32 by (done || (unfold in_u in Hy; lia)). apply Hr.
Qed.

Lemma binop_visits is_last n op d a b :
  (n_all <= n)%nat -> dst_ok d -> src_ok a -> src_ok b -> type_of a = I32 -> type_of b = I32 -> type_of d = I32 ->
  InstBinop_HasOpcode op = true -> visits is_last (InstBinop op d a b) n (visit is_last (InstBinop op d a b)).
Proof.
  intros Hn Hd Ha Hb Ta Tb Td Hop. assert (exists lop, lop_of op = Some lop) as [lop Hl] by (destruct op; try done; by eexists).
  assert (Ev : visit is_last (InstBinop op d a b) = EmitBinop vlocs_of ng lop d a b) by (destruct op; try done; by injection Hl as <-).
  rewrite Ev. unfold EmitBinop.
  destruct (pair_sim n a b Hn Ha Hb) as (va & vb & n1 & n2 & c1 & c2 & B1 & B2 & L & V1 & V2 & H).
  set (rd := fun s => match read_opnd si a s, read_opnd si b s with
    | Some x, Some y => if shift_op op && (32 <=? y) then OUndef else OVal (eval_lbin lop 32 x y) | _, _ => OStuck end).
  assert (HP : produces (lhs ← Load a; rhs ← Load b; lb_insert (fun r => LBinOp r lop lhs rhs)) I32 rd n).
  { exists (LReg n2), (S n2), (c1 ++ c2 ++ [LBinOp n2 lop va vb]). split_and!; [|lia|cbn; lia|].
    - eapply builds_bind; [done|]. eapply builds_bind; [done|]. apply builds_insert.
    - intros s st HR. subst rd. cbn beta. destruct (read_opnd si a s) as [x|] eqn:Ex; [|done].
      destruct (read_opnd si b s) as [y|] eqn:Ey; [|done].
      destruct (H s st x y HR Ex Ey) as (Hx & Hy & st' & R & K & E1 & E2). rewrite Ta in Hx, E1. rewrite Tb in Hy, E2.
      rewrite app_assoc, exec_lblock_app, R. cbn [exec_lblock exec_linst]. rewrite E1, E2. cbn [int_of].
      change (bits_of I32) with 32. change (negb (32 =? 32)) with false. cbv iota. rewrite (lop_shift op lop Hl).
      destruct (shift_op op && (32 <=? y)) eqn:Eu; [done|].
      destruct (lop_eval op lop x y Hl Hx Hy) as [_ Hr].
      { intros Hs. rewrite Hs in Eu. cbn in Eu. by apply Z.leb_gt in Eu. }
      split; [exact Hr|]. eexists. split_and!; [done| |apply leval_set].
      by apply keeps_then. }
  rewrite <- Td in HP. eapply visits_ext; [apply (produces_store is_last n _ _ d rd Hn Hd HP)|gm_assoc].
  intros s st HR. subst rd. unfold gexec_inst. cbn [exec_inst llvm_defined]. unfold reads_lt.
  destruct (read_opnd si a s) as [x|] eqn:Ex; [|done]. destruct (read_opnd si b s) as [y|] eqn:Ey; [|done]. cbn [or_stuck].
  assert (Hdef : negb (shift_op op) || (y <? 32) = negb (shift_op op && (32 <=? y))).
  { rewrite negb_andb, (Z.ltb_antisym 32 y). done. }
  rewrite Hdef. destruct (write_some d (eval_lbin lop 32 x y) s Hd) as [s1 Hs1].
  destruct (shift_op op && (32 <=? y)) eqn:Eu; cbn [negb].
  + assert (exists z, eval_binop op x y = Some z) as [z Hz] by (destruct op; try done; by eexists). rewrite Hz. cbn [or_stuck].
    destruct (write_some d z s Hd) as [s2 ->]. done.
  + destruct (H s st x y HR Ex Ey) as (Hx & Hy & _). rewrite Ta in Hx. rewrite Tb in Hy.
    destruct (lop_eval op lop x y Hl Hx Hy) as [-> _]; [|cbn [or_stuck]; by rewrite Hs1].
    intros Hs. rewrite Hs in Eu. cbn in Eu. by apply Z.leb_gt in Eu.
Qed.


Lemma icmp_cc cc x y : eval_icmp (MakeCC cc) 32 x y = eval_cc cc x y.
Proof. by destruct cc. Qed.

(** A comparison of two operands. *)
Lemma cmp_sim n cc a b : (n_all <= n)%nat -> src_ok a -> src_ok b -> type_of a = I32 -> type_of b = I32 ->
  exists n' code, builds (lhs ← Load a; rhs ← Load b; lb_insert (fun d => LICmp d (MakeCC cc) lhs rhs)) (LReg n') n (S n') code /\
    (n <= n')%nat /\ forall s st x y, lrel s st -> read_opnd si a s = Some x -> read_opnd si b s = Some y ->
      exists st', run code st = FNext st' /\ keeps n st st' /\
        leval (LReg n') st' = Some (VInt 1 (if eval_cc cc x y then 1 else 0)).
Proof.
  intros Hn Ha Hb Ta Tb. destruct (pair_sim n a b Hn Ha Hb) as (va & vb & n1 & n2 & c1 & c2 & B1 & B2 & L & V1 & V2 & H).
  exists n2, (c1 ++ c2 ++ [LICmp n2 (MakeCC cc) va vb]). split_and!; [|lia|].
  - eapply builds_bind; [done|]. eapply builds_bind; [done|]. apply builds_insert.
  - intros s st x y HR Hx Hy. destruct (H s st x y HR Hx Hy) as (_ & _ & st' & R & K & E1 & E2). rewrite Ta in E1. rewrite Tb in E2.
    rewrite app_assoc, exec_lblock_app, R. cbn [exec_lblock exec_linst]. rewrite E1, E2. cbn [int_of].
    change (bits_of I32) with 32. change (negb (32 =? 32)) with false. cbv iota. rewrite icmp_cc. eexists.
    split_and!; [done| |apply leval_set]. by apply keeps_then.
Qed.

Lemma setcc_visits is_last n cc d a b :
  (n_all <= n)%nat -> dst_ok d -> src_ok a -> src_ok b -> type_of a = I32 -> type_of b = I32 -> type_of d = I32 ->
  visits is_last (InstSetcc cc d a b) n (visit is_last (InstSetcc cc d a b)).
Proof.
  intros Hn Hd Ha Hb Ta Tb Td. cbn [Visitor_visit]. unfold Emit_setcc.
  destruct (cmp_sim n cc a b Hn Ha Hb Ta Tb) as (n1 & c1 & B & L & H).
  set (rd := fun s => match read_opnd si a s, read_opnd si b s with
    | Some x, Some y => OVal (if eval_cc cc x y then 1 else 0) | _, _ => OStuck end).
  assert (HP : produces ((lhs ← Load a; rhs ← Load b; lb_insert (fun r => LICmp r (MakeCC cc) lhs rhs)) ≫=
      fun cmp => lb_insert (fun r => LZExt r cmp 32)) (type_of d) rd n).
  { exists (LReg (S n1)), (S (S n1)), (c1 ++ [LZExt (S n1) (LReg n1) 32]). split_and!; [|lia|cbn; lia|].
    - eapply builds_bind; [done|]. apply builds_insert.
    - intros s st HR. subst rd. cbn beta. destruct (read_opnd si a s) as [x|] eqn:Ex; [|done].
      destruct (read_opnd si b s) as [y|] eqn:Ey; [|done]. rewrite Td. split; [by destruct (eval_cc cc x y)|].
      destruct (H s st x y HR Ex Ey) as (st' & R & K & E). rewrite exec_lblock_app, R. cbn [exec_lblock exec_linst]. rewrite E.
      cbn [int_of]. change (1 <? 32) with true. cbv iota. eexists. split_and!; [done| |apply leval_set].
      apply keeps_then; [done|lia]. }
  eapply visits_ext; [apply (produces_store is_last n _ _ d rd Hn Hd HP)|gm_assoc].
  intros s st HR. subst rd. unfold gexec_inst. cbn [exec_inst llvm_defined].
  destruct (read_opnd si a s) as [x|]; [|done]. destruct (read_opnd si b s) as [y|]; [|done]. cbn [or_stuck].
  destruct (write_some d (if eval_cc cc x y then 1 else 0) s Hd) as [s1 ->]. done.
Qed.

Lemma mov_visits is_last n op d v :
  (n_all <= n)%nat -> dst_ok d -> src_ok v -> type_of d = type_of v -> InstUnop_HasOpcode op = true ->
  visits is_last (InstUnop op d v) n (visit is_last (InstUnop op d v)).
Proof.
  intros Hn Hd Hv Td Hop. cbn [Visitor_visit]. rewrite Hop. unfold Emit_mov.
  pose proof (load_produces n v Hn Hv) as HP. rewrite <- Td in HP. apply (produces_store is_last n _ _ d _ Hn Hd HP).
  intros s st HR. unfold gexec_inst. cbn [exec_inst llvm_defined]. rewrite Hop. destruct (read_opnd si v s) as [x|]; [|done].
  cbn [or_stuck oval]. destruct (write_some d x s Hd) as [s1 ->]. done.
Qed.

(** *** Guest memory *)
(** The pointer to a guest address. *)
Lemma vmem_sim n ptr : (n_all <= n)%nat -> src_ok ptr -> type_of ptr = I32 ->
  exists n' code, builds (addr ← Load ptr; MakeVMemLoc addr) (LReg n') n (S n') code /\ (n <= n')%nat /\
    forall s st a, lrel s st -> read_opnd si ptr s = Some a -> in_u 32 a /\
      exists st', run code st = FNext st' /\ keeps n st st' /\ leval (LReg n') st' = Some (VPtr (PGuest a)).
Proof.
  intros Hn Hp Tp. destruct (LoadVOperand_sim n ptr Hn Hp) as (v & n1 & c1 & B1 & L1 & V1 & H).
  exists (S n1), (c1 ++ [LZExt n1 v 64] ++ [LIntToPtr (S n1) (LReg n1)]). split_and!; [|lia|].
  - eapply builds_bind; [done|]. eapply builds_bind; apply builds_insert.
  - intros s st a HR Ha. destruct (H s st a HR Ha) as (Hr & st' & R & K & E). rewrite Tp in Hr, E. split; [exact Hr|].
    rewrite exec_lblock_app, R. cbn [app exec_lblock exec_linst]. rewrite E. cbn [int_of]. change (bits_of I32 <? 64) with true. cbv iota.
    rewrite leval_set. cbn [int_of]. change (64 =? 64) with true. cbv iota. eexists. split_and!; [done| |apply leval_set].
    apply keeps_then; [by apply keeps_then|lia].
Qed.

Lemma load_cast sz sgn v : sz <> UNDEF -> in_u (bits_of sz) v ->
  u32 (cast (ITy (bits_of sz) (match sgn with VSign_S => true | VSign_U => false end)) v) =
  (if bool_decide (I32 = sz) then v else match sgn with VSign_S => uN 32 (sN (bits_of sz) v) | VSign_U => v end).
Proof.
  intros Hs Hv. pose proof (in_bits _ _ Hv) as Hv32. destruct sz; try done; cbn in Hv |- *; destruct sgn; unfold cast; cbn.
  - change (bool_decide (I32 = I8)) with false. cbv iota. rewrite (uN_id (8 * 1) v Hv). exact (uN_id 32 v Hv32).
  - done.
  - change (bool_decide (I32 = I16)) with false. cbv iota. rewrite (uN_id (8 * 2) v Hv). exact (uN_id 32 v Hv32).
  - done.
  - change (bool_decide (I32 = I32)) with true. cbv iota. rewrite (uN_id (8 * 4) v Hv). exact (uN_id 32 v Hv32).
  - change (bool_decide (I32 = I32)) with true. cbv iota. change (8 * 4) with 32. rewrite uN_sN by lia. exact (uN_id 32 v Hv32).
Qed.

(** The loaded value is extended to the result. *)
Definition extend (t sz : VType) (sgn : VSign) (val : lvalue) : GM lvalue :=
  if bool_decide (t = sz) then mret val
  else w' ← g_of (MakeType t);
       match sgn with VSign_S => lb_insert (fun r => LSExt r val w') | VSign_U => lb_insert (fun r => LZExt r val w') end.
Definition access_of (sz : VType) (sgn : VSign) : ity :=
  ITy (bits_of sz) (match sgn with VSign_S => true | VSign_U => false end).
Lemma extend_sim ld sz sgn : sz <> UNDEF ->
  exists v n2 c2, builds (extend I32 sz sgn (LReg ld)) v (S ld) n2 c2 /\ (S ld <= n2)%nat /\ below n2 v /\
    forall st x, leval (LReg ld) st = Some (VInt (bits_of sz) x) -> in_u (bits_of sz) x ->
      exists st', run c2 st = FNext st' /\ keeps (S ld) st st' /\ leval v st' = Some (VInt 32 (u32 (cast (access_of sz sgn) x))).
Proof.
  intros Hsz. unfold extend. destruct (bool_decide (I32 = sz)) eqn:Eb.
  - exists (LReg ld), (S ld), []. split_and!; [apply builds_ret|lia|cbn; lia|]. intros st x Hx Hr. exists st.
    split_and!; [done|done|]. rewrite Hx. unfold access_of. rewrite load_cast, Eb by done. apply bool_decide_eq_true in Eb as <-. done.
  - assert (Hlt : (bits_of sz <? 32) = true) by (apply bool_decide_eq_false in Eb; by destruct sz). destruct sgn.
    + exists (LReg (S ld)), (S (S ld)), [LZExt (S ld) (LReg ld) 32]. split_and!; [|lia|cbn; lia|].
      * eapply (builds_bind _ _ _ _ _ _ _ []); [by apply builds_of|]. apply builds_insert.
      * intros st x Hx Hr. cbn [exec_lblock exec_linst]. rewrite Hx. cbn [int_of]. rewrite Hlt. eexists.
        split_and!; [done|apply keeps_set; lia|]. rewrite leval_set. do 2 f_equal. symmetry.
        etrans; [exact (load_cast sz VSign_U x Hsz Hr)|]. by rewrite Eb.
    + exists (LReg (S ld)), (S (S ld)), [LSExt (S ld) (LReg ld) 32]. split_and!; [|lia|cbn; lia|].
      * eapply (builds_bind _ _ _ _ _ _ _ []); [by apply builds_of|]. apply builds_insert.
      * intros st x Hx Hr. cbn [exec_lblock exec_linst]. rewrite Hx. cbn [int_of]. rewrite Hlt. eexists.
        split_and!; [done|apply keeps_set; lia|]. by rewrite leval_set.
Qed.

Lemma access_size sz sgn : sz <> UNDEF -> access_ity sz sgn = Some (access_of sz sgn) /\ isize (access_of sz sgn) = Z.to_nat (slot_size sz).
Proof. by destruct sz. Qed.

(** The value a load produces. *)
Definition vmload_value (sz : VType) (sgn : VSign) (ptr : VOperand) (s : qstate) : ores :=
  match read_opnd si ptr s with
  | Some a =>
      if negb (access_ok sz a) then OUndef
      else match unaligned_load (access_of sz sgn) (q_mem s) a with Some v => OVal (u32 v) | None => OFault end
  | None => OStuck
  end.
Lemma vmload_produces n sz sgn ptr : (n_all <= n)%nat -> src_ok ptr -> type_of ptr = I32 -> sz <> UNDEF ->
  produces ((addr ← Load ptr; MakeVMemLoc addr) ≫= fun mem_ep => w ← g_of (MakeType sz); n ← g_of (VTypeToSize sz);
    val ← lb_insert (fun r => AScopeVMem (LLoad r (LInt w) mem_ep n alias_none)); extend I32 sz sgn val) I32 (vmload_value sz sgn ptr) n.
Proof.
  intros Hn Hp Tp Hsz. destruct (size_of sz Hsz) as (Hs1 & Hs2 & Hs3). destruct (size_bits sz Hsz) as [Hs8 HsN].
  destruct (vmem_sim n ptr Hn Hp Tp) as (n1 & c1 & B1 & L1 & H). set (ld := S n1).
  destruct (extend_sim ld sz sgn Hsz) as (v & n2 & c2 & B2 & L2 & V2 & H2).
  exists v, n2, (c1 ++ [] ++ [] ++ [AScopeVMem (LLoad ld (LInt (bits_of sz)) (LReg n1) (slot_size sz) alias_none)] ++ c2).
  split_and!; [|lia|done|].
  - eapply builds_bind; [done|]. eapply builds_bind; [by apply builds_of|]. eapply builds_bind; [by apply builds_of|].
    eapply builds_bind; [apply builds_insert|]. exact B2.
  - intros s st HR. unfold vmload_value. destruct (read_opnd si ptr s) as [a|] eqn:Ea; [|done].
    destruct (H s st a HR Ea) as (Ha & st1 & R1 & K1 & E1). cbn [app]. rewrite exec_lblock_app, R1.
    cbn [exec_lblock AScopeVMem set_scope exec_linst]. rewrite E1. cbn [ptr_of scope_ok aligned andb].
    unfold access_ok. destruct (a mod slot_size sz =? 0) eqn:Eal; cbn [negb andb]; [|done]. cbn [load_int].
    destruct (a =? 0); cbn [negb]; [done|].
    assert (Hst1 : l_mem st1 = q_mem s) by (destruct K1 as (_ & _ & -> & _); apply (lr_mem _ _ HR)).
    unfold unaligned_load. rewrite Hst1, Hs8, (proj2 (access_size sz sgn Hsz)).
    destruct (load_le (Z.to_nat (slot_size sz)) (q_mem s) a) as [x|] eqn:El; cbn [fmap option_fmap option_map].
    + assert (Hx : in_u (bits_of sz) x).
      { destruct (lr_weak _ _ HR) as (_ & _ & _ & _ & Hm). pose proof (load_le_range _ _ _ _ Hm El) as Hr. by rewrite HsN in Hr. }
      split; [apply uN_range; done|].
      destruct (H2 (set_lreg ld (VInt (bits_of sz) x) st1) x) as (st2 & R2 & K2 & E2); [apply leval_set|done|].
      exists st2. split_and!; [exact R2| |exact E2].
      apply (keeps_trans n (S ld) _ (set_lreg ld (VInt (bits_of sz) x) st1)); [subst ld; lia| |exact K2].
      apply keeps_then; [done|subst ld; lia].
    + exists st1. split; [done|]. eapply same_keeps; [done|by apply lrel_same].
Qed.

Lemma vmload_visits is_last n sz sgn d ptr :
  (n_all <= n)%nat -> dst_ok d -> src_ok ptr -> type_of ptr = I32 -> type_of d = I32 -> sz <> UNDEF ->
  visits is_last (InstVMLoad sz sgn d ptr) n (visit is_last (InstVMLoad sz sgn d ptr)).
Proof.
  intros Hn Hd Hp Tp Td Hsz. cbn [Visitor_visit]. unfold Emit_vmload.
  pose proof (vmload_produces n sz sgn ptr Hn Hp Tp Hsz) as HP. rewrite <- Td in HP.
  eapply visits_ext; [apply (produces_store is_last n _ _ d _ Hn Hd HP)|unfold extend; gm_assoc].
  intros s st HR. unfold gexec_inst, vmload_value. cbn [exec_inst llvm_defined]. unfold reads_access.
  destruct (read_opnd si ptr s) as [a|]; [|done]. cbn [or_stuck]. rewrite (proj1 (access_size sz sgn Hsz)). cbn [or_stuck].
  destruct (unaligned_load _ (q_mem s) a) as [x|]; [|by destruct (access_ok sz a)].
  destruct (write_some d (u32 x) s Hd) as [s1 Hw]. rewrite Hw. cbn [or_stuck].
  destruct (access_ok sz a); cbn [negb]; [by rewrite Hw|done].
Qed.

Lemma vmstore_visits is_last n sz ptr v :
  (n_all <= n)%nat -> src_ok ptr -> src_ok v -> type_of ptr = I32 -> type_of v = sz -> sz <> UNDEF ->
  visits is_last (InstVMStore sz VSign_U ptr v) n (visit is_last (InstVMStore sz VSign_U ptr v)).
Proof.
  intros Hn Hp Hv Tp Tv Hsz. cbn [Visitor_visit]. unfold Emit_vmstore. rewrite Tv.
  destruct (size_of sz Hsz) as (Hs1 & Hs2 & Hs3). destruct (size_bits sz Hsz) as [Hs8 HsN].
  destruct (LoadVOperand_sim n v Hn Hv) as (x & n1 & c1 & B1 & L1 & V1 & H1). rewrite Tv in H1.
  destruct (vmem_sim n1 ptr ltac:(lia) Hp Tp) as (n2 & c2 & B2 & L2 & H2).
  exists (S n2), (c1 ++ [] ++ c2 ++ [AScopeVMem (LStore x (LReg n2) (slot_size sz) alias_none)]). split_and!; [|lia|].
  - eapply builds_bind; [done|]. eapply builds_bind; [by apply builds_of|].
    apply (builds_ext ((addr ← Load ptr; MakeVMemLoc addr) ≫=
      fun mem_ep => lb_emit (AScopeVMem (LStore x mem_ep (slot_size sz) alias_none)))); [gm_assoc|].
    eapply builds_bind; [exact B2|apply builds_emit].
  - intros s st HR. unfold gexec_inst. cbn [exec_inst llvm_defined]. unfold reads_access.
    destruct (read_opnd si ptr s) as [a|] eqn:Ea; [|done]. destruct (read_opnd si v s) as [y|] eqn:Ey; [|done].
    cbn [or_stuck]. rewrite (proj1 (access_size sz VSign_U Hsz)). cbn [or_stuck app].
    destruct (H1 s st y HR Ey) as (Hy & st1 & R1 & K1 & E1).
    assert (HR1 : lrel s st1) by (eapply lrel_keeps; [exact Hn|exact K1|exact HR]).
    destruct (H2 s st1 a HR1 Ea) as (Ha & st2 & R2 & K2 & E2).
    assert (HR2 : lrel s st2) by (eapply (lrel_keeps n1); [lia|exact K2|exact HR1]).
    rewrite exec_lblock_app, R1, exec_lblock_app, R2. cbn [exec_lblock AScopeVMem set_scope exec_linst].
    rewrite (leval_keeps n1 st1) by done. rewrite E1, E2. cbn [int_of ptr_of scope_ok aligned andb].
    unfold unaligned_store. rewrite (proj2 (access_size sz VSign_U Hsz)). unfold access_of, cast. cbn [isigned ibits]. rewrite uN_id by done.
    cbn [store_int]. rewrite (lr_mem _ _ HR2), Hs8. unfold store_le.
    unfold access_ok. destruct (a mod slot_size sz =? 0); cbn [negb andb]; [|by destruct (mapped _ (q_mem s) a)].
    destruct (a =? 0); cbn [negb].
    + by destruct (mapped _ (q_mem s) a).
    + destruct (mapped _ (q_mem s) a); cbn [inst_rel].
      * exists (set_lmem (put_le (Z.to_nat (slot_size sz)) (q_mem s) a y) st2). split; [|by left].
        destruct HR2 as [h1 h2 (w1 & w2 & w3 & w4 & w5) h4 h5]. split; try done. split_and!; try done. by apply mem_wf_put.
      * exists st2. split; [done|by apply lrel_same].
Qed.

(** *** Branches *)
Lemma br_visits is_last n : is_Some (target 0%nat) -> visits is_last InstBr n (visit is_last InstBr).
Proof.
  intros [b Hb]. exists n, ([] ++ [LBr b]). split_and!; [|lia|].
  - cbn [Visitor_visit]. unfold Emit_br. eapply builds_bind; [by apply builds_of|]. apply builds_emit.
  - intros s st HR. cbn. by exists b, st.
Qed.

Lemma brcc_visits is_last n cc a b :
  (n_all <= n)%nat -> src_ok a -> src_ok b -> type_of a = I32 -> type_of b = I32 ->
  is_Some (target 0%nat) -> is_Some (target 1%nat) ->
  visits is_last (InstBrcc cc a b) n (visit is_last (InstBrcc cc a b)).
Proof.
  intros Hn Ha Hb Ta Tb [bt Ht] [bf Hf]. cbn [Visitor_visit]. unfold Emit_brcc.
  destruct (cmp_sim n cc a b Hn Ha Hb Ta Tb) as (n1 & c1 & B & L & H).
  exists (S n1), (c1 ++ [] ++ [] ++ [LCondBr (LReg n1) bt bf]). split_and!; [|lia|].
  - apply (builds_ext ((lhs ← Load a; rhs ← Load b; lb_insert (fun d => LICmp d (MakeCC cc) lhs rhs)) ≫= fun cmp =>
      bb_t ← g_of (target 0%nat); bb_f ← g_of (target 1%nat); lb_emit (LCondBr cmp bb_t bb_f))); [gm_assoc|].
    eapply builds_bind; [exact B|]. eapply builds_bind; [by apply builds_of|]. eapply builds_bind; [by apply builds_of|].
    apply builds_emit.
  - intros s st HR. unfold gexec_inst. cbn [exec_inst llvm_defined].
    destruct (read_opnd si a s) as [x|] eqn:Ex; [|done]. destruct (read_opnd si b s) as [y|] eqn:Ey; [|done]. cbn [or_stuck app].
    destruct (H s st x y HR Ex Ey) as (st' & R & K & E). rewrite exec_lblock_app, R. cbn [exec_lblock exec_linst]. rewrite E. cbn [int_of].
    change (1 =? 1) with true. cbv iota. cbn [inst_rel].
    exists (if eval_cc cc x y then bt else bf), st'. split_and!; [by destruct (eval_cc cc x y)|by destruct (eval_cc cc x y)|].
    by eapply lrel_keeps.
Qed.

Lemma gbr_visits is_last n t c : in_u 32 c -> visits is_last (InstGBr (VConst t c)) n (visit is_last (InstGBr (VConst t c))).
Proof.
  intros Hc. cbn [Visitor_visit Emit_gbr]. unfold CreateQCGGbr.
  assert (Hx : forall s, gexec (InstGBr (VConst t c)) s = QExit c s) by done.
  destruct (getFunction g (MakeAotSymbol c)) as [name|] eqn:Ef.
  - assert (name = MakeAotSymbol c) as -> by (unfold getFunction in Ef; case_match; congruence).
    exists n, ([LTailCall (LFunc (MakeAotSymbol c)) [LState; LMembase]] ++ [LRetVoid]). split_and!; [|lia|].
    + eapply builds_bind; apply builds_emit.
    + intros s st HR. rewrite Hx. cbn. split; [done|by apply lrel_same].
  - exists n, ([LCallIntrin intr_gbr [LState; LMembase; LConst 32 c]] ++ [LUnreachable]). split_and!; [|lia|].
    + eapply builds_bind; apply builds_emit.
    + intros s st HR. rewrite Hx. cbn. split; [by apply uN_id|by apply lrel_same].
Qed.

Lemma gbrind_visits is_last n v : (n_all <= n)%nat -> src_ok v -> type_of v = I32 ->
  visits is_last (InstGBrind v) n (visit is_last (InstGBrind v)).
Proof.
  intros Hn Hv Tv. cbn [Visitor_visit]. unfold Emit_gbrind. destruct (LoadVOperand_sim n v Hn Hv) as (x & n1 & c1 & B & L & V & H).
  exists n1, (c1 ++ [LCallIntrin intr_gbrind [LState; LMembase; x]] ++ [LUnreachable]). split_and!; [|lia|].
  - eapply builds_bind; [done|]. eapply builds_bind; apply builds_emit.
  - intros s st HR. unfold gexec_inst. cbn [exec_inst llvm_defined]. destruct (read_opnd si v s) as [y|] eqn:Ey; [|done]. cbn [or_stuck].
    destruct (H s st y HR Ey) as (_ & st' & R & K & E). rewrite Tv in E. rewrite exec_lblock_app, R. cbn [app exec_lblock exec_linst fmap list_fmap].
    rewrite E. cbn [leval inst_rel leaves]. split; [done|]. eapply same_keeps; [done|by apply lrel_same].
Qed.

(** *** Calls *)
Lemma rstub_sim n id : (n_all <= n)%nat ->
  exists code, builds (MakeRStub id) (LReg (S n)) n (S (S n)) code /\
    forall st, exists st', run code st = FNext st' /\ keeps n st st' /\ leval (LReg (S n)) st' = Some (VPtr (PStub id)).
Proof.
  intros Hn. eexists. split; [eapply builds_bind; apply builds_insert|]. intros st.
  cbn [app exec_lblock exec_linst leval ptr_of AScopeState set_scope]. cbn [l_regs set_lreg]. rewrite lookup_insert_eq.
  cbn [ptr_of scope_ok aligned andb].
  assert (Hnum : (0 + (offs_stub_tab + RuntimeStubTab_offs id)) mod 8 =? 0 = true) by (by destruct id).
  rewrite Hnum. cbn [negb].
  assert (Hld : load_ptr lay (PState (0 + (offs_stub_tab + RuntimeStubTab_offs id))) = Some (PStub id)) by (by destruct id).
  rewrite Hld. cbn [or_undef]. eexists. split_and!; [done| |].
  - apply keeps_then; [by apply keeps_set|lia].
  - cbn. by rewrite lookup_insert_eq.
Qed.

Lemma hcall_visits is_last n stub v : (n_all <= n)%nat -> src_ok v -> type_of v = I32 ->
  visits is_last (InstHcall stub v) n (visit is_last (InstHcall stub v)).
Proof.
  intros Hn Hv Tv. cbn [Visitor_visit]. unfold Emit_hcall. destruct (rstub_sim n stub Hn) as (c0 & B0 & H0).
  destruct (LoadVOperand_sim (S (S n)) v ltac:(lia) Hv) as (x & n1 & c1 & B1 & L1 & V1 & H1).
  set (fin := if is_last then [LRetVoid] else []).
  exists (S n1), (c0 ++ c1 ++ [LCall n1 (LReg (S n)) [LState; x]] ++ fin). split_and!; [|lia|].
  - eapply builds_bind; [done|]. eapply builds_bind; [done|]. eapply builds_bind; [apply builds_insert|].
    subst fin. destruct is_last; [apply builds_emit|apply builds_ret].
  - intros s st HR. unfold gexec_inst. cbn [exec_inst llvm_defined]. destruct (read_opnd si v s) as [y|] eqn:Ey; [|done]. cbn [or_stuck].
    destruct (H0 st) as (st1 & R0 & K0 & E0). assert (HR1 : lrel s st1) by (by eapply lrel_keeps).
    destruct (H1 s st1 y HR1 Ey) as (_ & st2 & R1 & K1 & E1). rewrite Tv in E1.
    assert (HR2 : lrel s st2) by (eapply (lrel_keeps (S (S n))); [lia|done|done]).
    rewrite exec_lblock_app, R0, exec_lblock_app, R1. cbn [app exec_lblock exec_linst fmap list_fmap].
    rewrite (leval_keeps (S (S n)) st1) by (done || cbn; lia). rewrite E0, E1. cbn [ptr_of leval]. change (bits_of I32) with 32. cbv iota.
    unfold exec_hcall, call_stub. destruct (stub_rv32 stub) as [op|]; [|done].
    rewrite (lr_cpu _ _ HR2), (lr_mem _ _ HR2). pose proof (qcgstub_weak (lay_weaks lay) op y _ _ (lr_weak _ _ HR2)) as Hw.
    destruct (qcgstub_rv32 (lay_weaks lay) op y (q_cpu s) (q_mem s)) as [u σ|σ|σ|]; cbn [inst_rel]; try done; [|by eexists..].
    set (st3 := set_lmem _ _). exists st3. split; [by destruct HR2|]. subst fin. destruct is_last; cbn; auto.
Qed.

(** *** Any instruction *)
Lemma src_of (L : nat -> Prop) v : (forall i, L i -> (i < n_all)%nat) -> in_ok si types L v -> type_of v <> UNDEF -> src_ok v.
Proof.
  intros HL Hv Ht. destruct v as [t c|t r| | |]; try done. destruct Hv as (H0 & Hr & _ & ? & ?). apply HL in Hr.
  split_and!; try done. lia.
Qed.
Lemma dst_of_ok op d : ra_out_ok si types op d -> dst_ok d.
Proof. destruct d as [|t r| |[] t o|]; cbn; try done; naive_solver. Qed.

Lemma visit_sim (L : nat -> Prop) flags is_last n i :
  (n_all <= n)%nat -> (forall j, L j -> (j < n_all)%nat) -> pre_wf si types L flags i ->
  (GetOpcode i = _br -> is_Some (target 0%nat)) -> (GetOpcode i = _brcc -> is_Some (target 0%nat) /\ is_Some (target 1%nat)) ->
  visits is_last i n (visit is_last i).
Proof.
  intros Hn HL [H1 Hin Hout Ht _ _ _ Hg] Hbr Hbrcc.
  assert (Hsrc : forall v, v ∈ inputs i -> type_of v <> UNDEF -> src_ok v).
  { intros v Hv. eapply src_of; [exact HL|]. by eapply (proj1 (Forall_forall _ _) Hin). }
  assert (Hdst : forall d, d ∈ outputs i -> dst_ok d).
  { intros d Hd. eapply dst_of_ok. by eapply (proj1 (Forall_forall _ _) Hout). }
  destruct i as [stub v| |cc a b|v|v|sz sgn d p|sz sgn p v|cc d a b|op d v|op d a b]; cbn [types_ok inputs outputs GetOpcode] in *;
    cbn [app forallb] in Ht; bool_to_prop.
  - apply hcall_visits; try done. apply Hsrc; [by left|congruence].
  - by apply br_visits, Hbr.
  - destruct (Hbrcc eq_refl). apply brcc_visits; try done; apply Hsrc; try (congruence); set_solver.
  - destruct (Hg v eq_refl) as (t & c & -> & Hc). by apply gbr_visits.
  - apply gbrind_visits; try done. apply Hsrc; [by left|congruence].
  - apply vmload_visits; try done; [apply Hdst; by left|apply Hsrc; [by left|congruence]].
  - destruct sgn; [|done]. apply vmstore_visits; try done; apply Hsrc; try congruence; set_solver.
  - apply setcc_visits; try done; [apply Hdst; by left|apply Hsrc; [set_solver|congruence]..].
  - apply mov_visits; try done; [apply Hdst; by left|apply Hsrc; [by left|congruence]].
  - apply binop_visits; try done; [apply Hdst; by left|apply Hsrc; [set_solver|congruence]..].
Qed.

(** ** Blocks *)
Lemma insts_sim l : forall (L : nat -> Prop) n,
  (n_all <= n)%nat -> (forall j, L j -> (j < n_all)%nat) -> pre_nodes si types L l ->
  Forall (fun i => (GetOpcode i = _br -> is_Some (target 0%nat)) /\
    (GetOpcode i = _brcc -> is_Some (target 0%nat) /\ is_Some (target 1%nat))) (n_inst <$> l) ->
  exists n' code, builds (emit_insts g fake segment vlocs_of ng nblocks ss (n_inst <$> l)) tt n n' code /\ (n <= n')%nat /\
    forall s st, lrel s st -> inst_rel true (gexec_list si (lay_clob lay) (lay_weaks lay) (n_inst <$> l) s) (run code st).
Proof.
  induction l as [|nd l IH]; intros L n Hn HL Hw Hss.
  - exists n, []. split_and!; [apply builds_ret|lia|]. intros s st HR. exists st. auto.
  - destruct Hw as [Hi Hl]. cbn [fmap list_fmap] in Hss |- *. apply Forall_cons in Hss as [[Hb1 Hb2] Hss].
    destruct (visit_sim L _ (bool_decide ((n_inst <$> l) = [])) n (n_inst nd) Hn HL Hi Hb1 Hb2) as (n1 & c1 & B1 & L1 & H1).
    destruct (IH (next_live si L (n_inst nd)) n1) as (n2 & c2 & B2 & L2 & H2); [lia| |done|done|].
    { intros j. unfold next_live. destruct (is_term _); [unfold is_glob; lia|]. intros [Hj|Hj]; [auto|]. destruct Hi.
      unfold dst_of in Hj. destruct (outputs (n_inst nd)) as [|[|t r| | |] [|]]; try done.
      injection Hj as <-. apply Forall_inv in pw_out as (? & _). lia. }
    exists n2, (c1 ++ c2). split_and!; [by eapply builds_bind|lia|]. intros s st HR. specialize (H1 s st HR).
    cbn [gexec_list]. rewrite exec_lblock_app. destruct (gexec (n_inst nd) s) as [s'|k s'|t s'|s'|s'| |]; cbn [inst_rel] in H1.
    + destruct H1 as (st' & HR' & [->|[Hlast ->]]); [by apply H2|]. apply bool_decide_eq_true in Hlast. rewrite Hlast. cbn. eauto.
    + destruct H1 as (b & st' & Hb & -> & HR'). cbn. by exists b, st'.
    + cbn. destruct (run c1 st); try done.
    + destruct H1 as (st' & -> & Hs). by exists st'.
    + destruct H1 as (st' & -> & Hs). by exists st'.
    + by rewrite H1.
    + done.
Qed.
End blocks.

(** *** The entry block *)
Lemma glob_locs_sim (l : list StateReg) : forall n, exists code, builds (glob_locs l) (LReg <$> seq n (length l)) n (n + length l) code /\
  forall st, exists st', run code st = FNext st' /\ keeps n st st' /\
    forall i sr, l !! i = Some sr -> l_regs st' !! (n + i)%nat = Some (VPtr (PState (state_offs sr))).
Proof.
  induction l as [|sr l IH]; intros n.
  - exists []. split; [rewrite Nat.add_0_r; apply builds_ret|]. intros st. by exists st.
  - destruct (IH (S n)) as (code & B & H). exists ([LGep n LState (state_offs sr)] ++ code ++ []). split.
    + replace (n + length (sr :: l))%nat with (S n + length l)%nat by (cbn; lia).
      cbn [glob_locs length seq fmap list_fmap]. eapply builds_bind; [apply builds_insert|]. eapply builds_bind.
      * exact B.
      * apply builds_ret.
    + intros st. rewrite app_nil_r. cbn [app exec_lblock exec_linst leval ptr_of]. rewrite Z.add_0_l.
      destruct (H (set_lreg n (VPtr (PState (state_offs sr))) st)) as (st' & R & K & Hv). exists st'. split_and!; [done| |].
      * eapply keeps_trans; [|apply keeps_set; reflexivity|exact K]. lia.
      * intros [|i] sr' Hi; cbn in Hi.
        -- injection Hi as <-. rewrite Nat.add_0_r. destruct K as (_ & _ & _ & K). rewrite K by lia. cbn. by rewrite lookup_insert_eq.
        -- replace (n + S i)%nat with (S n + i)%nat by lia. by apply Hv.
Qed.

Lemma local_locs_sim (l : list VType) : Forall (fun t => t <> UNDEF) l -> forall n, exists code,
  builds (local_locs l) (LReg <$> seq n (length l)) n (n + length l) code /\
  forall st, exists st', run code st = FNext st' /\ l_cpu st' = l_cpu st /\ l_mem st' = l_mem st /\
    (forall d, (d < n)%nat -> l_regs st' !! d = l_regs st !! d /\ l_loc st' !! d = l_loc st !! d) /\
    forall i t, l !! i = Some t -> l_regs st' !! (n + i)%nat = Some (VPtr (PLocal (n + i) 0)) /\
      l_loc st' !! (n + i)%nat = Some (slot_size t * slot_size t, ∅).
Proof.
  induction l as [|t l IH]; intros Hl n.
  - exists []. split; [rewrite Nat.add_0_r; apply builds_ret|]. intros st. by exists st.
  - apply Forall_cons in Hl as [Ht Hl]. destruct (size_of t Ht) as (Hs & Hm & Hb). destruct (size_bits t Ht) as [Hs8 _].
    destruct (IH Hl (S n)) as (code & B & H). exists ([] ++ [] ++ [LAlloca n (bits_of t) (slot_size t)] ++ code ++ []). split.
    + replace (n + length (t :: l))%nat with (S n + length l)%nat by (cbn; lia).
      cbn [local_locs length seq fmap list_fmap]. eapply builds_bind; [by apply builds_of|]. eapply builds_bind; [by apply builds_of|].
      eapply builds_bind; [apply builds_insert|]. eapply builds_bind.
      * exact B.
      * apply builds_ret.
    + intros st. rewrite app_nil_r. cbn [app exec_lblock exec_linst]. rewrite Hs8.
      edestruct (H (set_lreg n (VPtr (PLocal n 0)) (set_lloc (<[n := (slot_size t * slot_size t, ∅)]> (l_loc st)) st)))
        as (st' & R & Kc & Km & Kd & Hv). exists st'. split_and!; [exact R|done|done| |].
      * intros d Hd. destruct (Kd d ltac:(lia)) as [-> ->]. cbn. by rewrite !lookup_insert_ne by lia.
      * intros [|i] t' Hi; cbn in Hi.
        -- injection Hi as <-. rewrite Nat.add_0_r. destruct (Kd n ltac:(lia)) as [-> ->]. cbn. by rewrite !lookup_insert_eq.
        -- replace (n + S i)%nat with (S n + i)%nat by lia. by apply Hv.
Qed.

Lemma locs_sim vinfo : glob_info vinfo = si -> loc_info vinfo = types -> exists code,
  builds (CreateVGPRLocs vinfo) vlocs_of 0 n_all code /\
  forall s st, q_loc s = ∅ -> hweak (mkH (q_cpu s) 0 (q_mem s)) -> same s st -> exists st', run code st = FNext st' /\ lrel s st'.
Proof.
  intros Eg El. destruct (glob_locs_sim si 0) as (c1 & B1 & H1). destruct (local_locs_sim types Htypes (length si)) as (c2 & B2 & H2).
  exists (c1 ++ c2 ++ []). split.
  - unfold CreateVGPRLocs, vlocs_of. rewrite Eg, El. eapply builds_bind; [exact B1|]. eapply builds_bind; [exact B2|].
    rewrite seq_app, fmap_app. apply builds_ret.
  - intros s st Hl Hw [Sc Sm]. rewrite app_nil_r, exec_lblock_app. destruct (H1 st) as (st1 & -> & (K1 & K2 & K3 & _) & G1).
    destruct (H2 st1) as (st2 & -> & C2 & M2 & D2 & V2). exists st2. split; [done|]. split; [congruence|congruence|done| |].
    + intros i sr Hi. rewrite (proj1 (D2 i (lookup_lt_Some _ _ _ Hi))). by apply (G1 i sr).
    + intros i t Hi. destruct (V2 i t Hi) as [Hr Hm]. split; [done|]. exists ∅. split; [done|]. rewrite Hl. by intros x ?%lookup_empty_Some.
Qed.
End sim.

(** ** Regions *)
(** Successors are blocks of the region. *)
Definition succs_in (rn : Region) : Prop := Forall (fun b => Forall (fun s => (s < length (blist rn))%nat) (succs b)) (blist rn).

Definition func_rel (r : qres) (o : fres) : Prop :=
  match r with
  | QExit t s => leaves t s o
  | QRaised s => exists st, o = FRaised st /\ same s st
  | QFaulted s => exists st, o = FFaulted st /\ same s st
  | QUndef => o = FUndef
  | QNext _ | QJump _ _ => False
  | QStuck => True
  end.
(** Both run on, or both end. *)
Definition run_rel (o : option qres) (o' : option fres) : Prop :=
  match o with
  | None => o' = None
  | Some QStuck => True
  | Some r => exists r', o' = Some r' /\ func_rel r r'
  end.

Lemma target_map rn b bb k t : succs_in rn -> blist rn !! b = Some bb -> succs bb !! k = Some t ->
  (s ← succs bb !! k; MapBB (length (blist rn)) s) = Some (S t).
Proof.
  intros Hin Hb Hk. rewrite Hk. cbn. unfold MapBB. rewrite decide_True; [done|].
  pose proof (proj1 (Forall_lookup _ _) Hin _ _ Hb) as H. by eapply (proj1 (Forall_lookup _ _) H).
Qed.

Section region.
Context (lay : layout) (g : LLVMGenCtx) (fake : Payload) (segment : CodeSegment) (rn : Region).
Context (Hwf : sel_region_wf rn) (Hin : succs_in rn).
Notation si := (glob_info (vregs_info rn)).
Notation types := (loc_info (vregs_info rn)).
Notation nblocks := (length (blist rn)).

Definition block_sim (bb : Block) (code : list linst) : Prop :=
  forall s st, lrel si types s st ->
    inst_rel si types nblocks (succs bb) true (gexec_list si (lay_clob lay) (lay_weaks lay) (n_inst <$> ilist bb) s) (exec_lblock lay code st).

Lemma bbs_sim bbs : forall k n, (length si + length types <= n)%nat -> bbs = drop k (blist rn) -> exists codes next,
  emit_bbs g fake segment (vlocs_of si types) (NumGlobals (vregs_info rn)) nblocks bbs n = Some (codes, next) /\ Forall2 block_sim bbs codes.
Proof.
  induction bbs as [|bb bbs IH]; intros k n Hn Hd; [exists [], n; split; [done|constructor]|].
  assert (Hk : blist rn !! k = Some bb) by (rewrite <- (Nat.add_0_r k), <- lookup_drop, <- Hd; done).
  pose proof (proj1 (Forall_lookup _ _) (sr_nodes _ Hwf) _ _ Hk) as Hnodes.
  destruct (proj1 (Forall_lookup _ _) (sr_cfg _ Hwf) _ _ Hk) as (_ & _ & Hs).
  destruct (insts_sim lay g fake segment si types (sr_offs _ Hwf) (sr_gtypes _ Hwf) (sr_types _ Hwf) nblocks (succs bb) (ilist bb)
    (is_glob si) n Hn) as (n' & code & B & Hle & H); [unfold is_glob; lia|done| |].
  { eapply Forall_impl; [exact Hs|]. intros i Hi. cbn beta in Hi. unfold succs_op in Hi. split; intros E; rewrite E in Hi.
    - destruct Hi as [t Ht]. exists (S t). by eapply target_map.
    - destruct Hi as [[t Ht] [t' Ht']]. split; eexists; by eapply target_map. }
  destruct (IH (S k) n') as (codes & next & E & HF); [lia| |].
  { rewrite <- Nat.add_1_r, <- drop_drop, <- Hd. done. }
  exists (code :: codes), next. split; [|by constructor]. cbn [emit_bbs].
  specialize (B []). change (NumGlobals (vregs_info rn)) with (Z.of_nat (length si)) in *. rewrite B. cbn [mbind option_bind lb_next lb_code].
  rewrite E. done.
Qed.

(** The function exists and does what the region does. *)
Lemma Run_sim : exists fn, Run g fake segment rn = Some fn /\
  forall fuel s st, q_loc s = ∅ -> hweak (mkH (q_cpu s) 0 (q_mem s)) -> same s st ->
    run_rel (gexec_region si (lay_clob lay) (lay_weaks lay) fuel rn 0 s) (exec_lfunc lay (S fuel) fn 0 st).
Proof.
  destruct (locs_sim lay si types (sr_types _ Hwf) (vregs_info rn) eq_refl eq_refl) as (entry & Be & He).
  destruct (bbs_sim (blist rn) 0 (length si + length types)) as (codes & next & Ec & HF); [lia|done|].
  assert (Hne : nblocks <> 0%nat) by (pose proof (sr_blocks _ Hwf); by destruct (blist rn)).
  exists (mkFn next ((entry ++ [LBr 1]) :: codes)). split.
  { unfold Run. rewrite (Be []). cbn [mbind option_bind lb_next lb_code app]. rewrite Ec. cbn [mbind option_bind].
    by rewrite decide_False. }
  assert (Hrun : forall fuel b s st, lrel si types s st ->
    run_rel (gexec_region si (lay_clob lay) (lay_weaks lay) fuel rn b s)
      (exec_lfunc lay fuel (mkFn next ((entry ++ [LBr 1]) :: codes)) (S b) st)).
  { induction fuel as [|fuel IH]; intros b s st HR; [done|]. cbn [gexec_region exec_lfunc fn_blocks].
    change (((entry ++ [LBr 1]) :: codes) !! S b) with (codes !! b).
    destruct (blist rn !! b) as [bb|] eqn:Eb; [|done].
    destruct (Forall2_lookup_l _ _ _ _ _ HF Eb) as (code & Hc & Hsim). specialize (Hsim s st HR).
    rewrite Hc.
    destruct (gexec_list _ _ _ _ s) as [s'|k s'|t s'|s'|s'| |]; cbn [inst_rel] in Hsim; try done.
    - destruct Hsim as (b' & st' & Ht & -> & HR'). destruct (succs bb !! k) as [t|] eqn:Es; [|done].
      pose proof (target_map rn b bb k t Hin Eb Es) as Hm. rewrite Es in Hm. cbn in Ht, Hm. rewrite Hm in Ht. injection Ht as <-. by apply IH.
    - destruct (exec_lblock lay code st); try done; by eexists.
    - destruct Hsim as (st' & -> & Hs). eexists. split; [done|]. by exists st'.
    - destruct Hsim as (st' & -> & Hs). eexists. split; [done|]. by exists st'.
    - rewrite Hsim. by eexists. }
  intros fuel s st Hl Hw Hsame. destruct (He s st Hl Hw Hsame) as (st' & E & HR).
  change (exec_lfunc lay (S fuel) (mkFn next ((entry ++ [LBr 1]) :: codes)) 0 st) with
    (match exec_lblock lay (entry ++ [LBr 1]) st with
     | FGoto b' st' => exec_lfunc lay fuel (mkFn next ((entry ++ [LBr 1]) :: codes)) b' st'
     | FNext _ => Some FStuck | r => Some r end).
  rewrite exec_lblock_app, E. cbn [exec_lblock exec_linst]. by apply Hrun.
Qed.
End region.
