(* ===== verification/LlvmExpand.v ===== *)
(** * Expansion of the branch intrinsics

    [ExpandIntrinsics] replaces the calls that stand for branches by what the
    branches do: a function of the module is called, an unknown guest address
    is left through a branch slot embedded as assembler text, an address
    that is not constant is looked up in the indirect-branch cache in front of
    the call of the stub.  Everything else of the function stays as it is. *)

From stdpp Require Import base tactics numbers list strings gmap.
From S2P Require Import Prelude Common GuestState Interp InterpProofs VOperand Qir QirSem QSel QSelCorrect QRegAllocInv QRegAllocOps QRegAllocCorrect QRegAllocRegion QSelWf.
From S2P Require Import BranchSlot Tcache Execute Amd64 QEmitInst QEmitCorrect AotSymbol LlvmIr LlvmGen LlvmGenCorrect.

Import qir.

(** ** The text of a branch slot *)
(** What the assembler reads in a [.string] of hexadecimal escapes: the bytes
    and a terminating zero. *)
Fixpoint asm_bytes (s : string) : option (list Z) :=
  match s with
  | String q EmptyString => if decide (q = Ascii.ascii_of_nat 34) then Some [0] else None
  | String b (String x (String h (String l s))) =>
      if decide (b = backslash /\ x = Ascii.ascii_of_nat 120) then
        a ← hexval h; c ← hexval l; r ← asm_bytes s; Some (16 * a + c :: r)
      else None
  | _ => None
  end.
Fixpoint strip (p s : string) : option string :=
  match p, s with
  | EmptyString, _ => Some s
  | String a p, String b s => if decide (a = b) then strip p s else None
  | String _ _, EmptyString => None
  end.
Definition string_bytes (s : string) : option (list Z) := r ← strip (".string " +:+ quote) s; asm_bytes r.

Lemma asm_bytes_Make data : Forall (in_u 8) data -> asm_bytes (MakeAsmString data +:+ quote) = Some (data ++ [0]).
Proof.
  induction data as [|b data IH]; [by vm_compute|]. intros [Hb Hd]%Forall_cons. cbn [MakeAsmString String.append].
  assert (E1 : Z.land (Z.shiftr b 4) 0xf = b / 16).
  { change 0xf with (Z.ones 4). rewrite Z.land_ones, Z.shiftr_div_pow2 by lia.
    apply Z.mod_small. unfold in_u in Hb. change (2 ^ 4) with 16. change (2 ^ 8) with 256 in Hb. zlia. }
  assert (E2 : Z.land b 0xf = b mod 16) by (change 0xf with (Z.ones 4); by rewrite Z.land_ones by lia).
  unfold in_u in Hb. change (2 ^ 8) with 256 in Hb. rewrite E1, E2.
  change (String backslash (String (Ascii.ascii_of_nat 120) (String (hexdig (b / 16)) (String (hexdig (b mod 16)) (MakeAsmString data)))) +:+ quote)
    with (String backslash (String (Ascii.ascii_of_nat 120) (String (hexdig (b / 16)) (String (hexdig (b mod 16)) (MakeAsmString data +:+ quote))))).
  cbn [asm_bytes]. rewrite decide_True by done.
  rewrite !hexval_hexdig by zlia. cbn [mbind option_bind]. rewrite IH by done. cbn. do 2 f_equal. zlia.
Qed.

Lemma le_bytes_ok n z : Forall (in_u 8) (le_bytes n z).
Proof.
  revert z. induction n as [|n IH]; intros z; constructor; [|apply IH]. pose proof (Z.mod_pos_bound z 256). split; cbn; lia.
Qed.
Lemma slot_bytes_ok fl s : Forall (in_u 8) (s_code s) -> Forall (in_u 8) (slot_bytes fl s).
Proof.
  intros H. unfold slot_bytes. rewrite !Forall_app. split_and!; [done|apply le_bytes_ok|]. apply Forall_singleton, uN_range. lia.
Qed.
Lemma patch_bytes_ok p : Forall (in_u 8) (patch_bytes p).
Proof.
  assert (H : forall l, forallb (fun b => (0 <=? b) && (b <? 2 ^ 8)) l = true -> Forall (in_u 8) l).
  { intros l Hl. apply Forall_forall. intros x Hx. rewrite forallb_forall in Hl. apply list_elem_of_In in Hx.
    specialize (Hl x Hx). apply andb_true_iff in Hl as [?%Z.leb_le ?%Z.ltb_lt]. by split. }
  destruct p; cbn [patch_bytes]; rewrite ?Forall_app; split_and?; try apply le_bytes_ok; try (by apply H).
  constructor; [by split|apply le_bytes_ok].
Qed.

(** The slot a branch is left through: the assembled bytes, with what follows
    them in memory, are a lazily linked slot of the guest address. *)
Record slot_text (fake : Payload) (segment : CodeSegment) (gip : Z) (code : string) : Prop := {
  sx_bytes : exists s, string_bytes code = Some (slot_bytes (fake_flags fake) s ++ [0]) /\
    s_gip s = gip /\ s_cross_segment s = negb (InSegment segment gip) /\ length (s_code s) = sizeof_code /\
    forall self, exists ra, run_code self (s_code s) = Some (ACallTab (offs_stub_tab + RuntimeStubTab_offs id_link_branch_llvmaot) ra) /\
      FromCallRuntimeStubRetaddr ra = self }.

Definition payload_ok (fake : Payload) : Prop := length (fake_code fake) = sizeof_code /\ Forall (in_u 8) (fake_code fake).

Lemma MakeGbrAsmString_slot fake segment gip :
  payload_ok fake -> slot_text fake segment gip (MakeGbrAsmString fake gip (negb (InSegment segment gip))).
Proof.
  intros [Hl Hb]. split. unfold MakeGbrAsmString.
  set (s := LinkLazyLLVMAOT offs_stub_tab (mkSlot (fake_code fake) gip (negb (InSegment segment gip)))).
  assert (Hs : Forall (in_u 8) (s_code s)).
  { subst s. cbn [LinkLazyLLVMAOT CreatePatch s_code]. apply Forall_app. split; [apply patch_bytes_ok|by apply Forall_drop]. }
  exists s. split_and!; [|done|done| |].
  - unfold string_bytes. change (strip (".string " +:+ quote) (".string " +:+ quote +:+ MakeAsmString (slot_bytes (fake_flags fake) s) +:+ quote))
      with (Some (MakeAsmString (slot_bytes (fake_flags fake) s) +:+ quote)). cbn [mbind option_bind].
    apply asm_bytes_Make. by apply slot_bytes_ok.
  - by apply (CreatePatch_wf _ (mkSlot (fake_code fake) gip (negb (InSegment segment gip)))).
  - intros self. subst s. cbn [LinkLazyLLVMAOT CreatePatch s_code]. rewrite run_patch.
    exists (self + 7). split; [by vm_compute (i32 _)|]. unfold FromCallRuntimeStubRetaddr, sizeof_CallTab. lia.
Qed.

(** ** What a branch becomes *)
Section expand.
Context (lay : layout) (g : LLVMGenCtx) (fake : Payload) (segment : CodeSegment) (is_final : bool).
Notation run := (exec_lblock lay).

Definition at_state (c : CPUState) (m : mem) (st : lstate) : Prop := l_cpu st = c /\ l_mem st = m.

(** A branch to the constant address [gip]: a function of the module, a slot
    after the last expansion, the intrinsic before. *)
Definition gbr_goes (gip : Z) (c : CPUState) (m : mem) (o : fres) : Prop :=
  match getFunction g (MakeAotSymbol gip) with
  | Some name => exists st, o = FTail name st /\ at_state c m st
  | None =>
      if is_final then
        exists st, o = FAsm (MakeGbrAsmString fake gip (negb (InSegment segment gip))) st /\ at_state c m st
      else exists st, o = FGbr gip st /\ at_state c m st
  end.
(** A lookup in the cache: the code on a hit, where the stub says on a miss. *)
Definition lookup_goes (gip : Z) (c : CPUState) (m : mem) (o : fres) : Prop :=
  let e := lay_cache lay (l1hash gip) in
  if e.1 =? gip then exists st, o = FJump e.2 st /\ at_state c m st
  else exists st, o = FJump (lay_brind lay gip c m).1 st /\ at_state (lay_brind lay gip c m).2 m st.
Definition gbrind_goes (gip : Z) (c : CPUState) (m : mem) (o : fres) : Prop :=
  gbr_goes gip c m o \/
  if is_final then lookup_goes gip c m o else exists st, o = FGbrind gip st /\ at_state c m st.

Definition expands_to (o o' : fres) : Prop :=
  match o with
  | FGbr gip st => if is_final then gbr_goes gip (l_cpu st) (l_mem st) o' else o' = o
  | FGbrind gip st => gbrind_goes gip (l_cpu st) (l_mem st) o'
  | FStuck => True
  | o => o' = o
  end.

(** ** Blocks

    An intrinsic is called at the end of a block, in front of [unreachable],
    on the arguments of the function and a value the function computed. *)
Definition plain (i : linst) : Prop := match i with LCallIntrin _ _ => False | _ => True end.
Definition ends_intrin (next : nat) (f : intrin) (args : list lvalue) : Prop :=
  exists v, args = [LState; LMembase; v] /\ below next v /\ (forall w c, v = LConst w c -> w = 32) /\ (f = intr_gbr -> exists c, v = LConst 32 c).
Definition block_wf (next : nat) (bb : list linst) : Prop :=
  exists pre, Forall plain pre /\
    (bb = pre \/ exists f args, bb = pre ++ [LCallIntrin f args; LUnreachable] /\ ends_intrin next f args).

(** A block that may go on in an added block. *)
Definition ends_in (fn' : lfunc) (o o' : fres) : Prop :=
  o' = o \/ exists b st c, o' = FGoto b st /\ fn_blocks fn' !! b = Some c /\ run c st = o.
Definition block_exp (fn' : lfunc) (bb code : list linst) : Prop :=
  forall st, match run bb st with
    | FGbr _ _ as o | FGbrind _ _ as o => exists o', expands_to o o' /\ ends_in fn' o' (run code st)
    | FStuck => True
    | o => run code st = o
    end.

(** Other code does not end in an intrinsic. *)
Lemma plain_run l st : Forall plain l -> match run l st with FGbr _ _ | FGbrind _ _ => False | _ => True end.
Proof.
  intros Hp. revert st. induction Hp as [|i l Hi Hl IH]; intros st; [done|]. cbn [exec_lblock].
  assert (Hs : match exec_linst lay i st with FGbr _ _ | FGbrind _ _ => False | _ => True end).
  { destruct i; try done; cbn [exec_linst]; unfold int_of, ptr_of, load_int, store_int, call_stub, or_undef; repeat case_match; done. }
  destruct (exec_linst lay i st); try done. apply IH.
Qed.
Lemma block_exp_same fn' bb : Forall plain bb -> block_exp fn' bb bb.
Proof. intros Hp st. pose proof (plain_run bb st Hp). by destruct (run bb st). Qed.
Lemma run_step i l st st1 : exec_linst lay i st = FNext st1 -> run (i :: l) st = run l st1.
Proof. intros E. cbn. by rewrite E. Qed.

(** *** The pieces *)
Lemma gbr_builds n gip (must : bool) : exists n' code, builds (CreateQCGGbr g fake segment gip must) tt n n' code /\ (n <= n')%nat /\
  forall st, match getFunction g (MakeAotSymbol gip) with
    | Some name => run code st = FTail name st
    | None => if must then exists st', run code st = FAsm (MakeGbrAsmString fake gip (negb (InSegment segment gip))) st' /\
                 at_state (l_cpu st) (l_mem st) st'
              else run code st = FGbr (u32 gip) st
    end.
Proof.
  unfold CreateQCGGbr. destruct (getFunction g (MakeAotSymbol gip)) as [name|]; [|destruct must].
  - eexists n, _. split_and!; [eapply builds_bind; apply builds_emit|lia|done].
  - eexists _, _. split_and!; [eapply builds_bind; [apply builds_insert|eapply builds_bind; apply builds_emit]|lia|].
    intros st. cbn. eexists. split; [done|]. done.
  - eexists n, _. split_and!; [eapply builds_bind; apply builds_emit|lia|done].
Qed.

(** The expansion of a constant branch. *)
Lemma const_builds n c : exists n' code,
  builds (CreateQCGGbr g fake segment (uN 32 c) is_final;; mret (Some ([] : list (list linst)))) (Some []) n n' code /\ (n <= n')%nat /\
  forall st, gbr_goes (uN 32 c) (l_cpu st) (l_mem st) (run code st).
Proof.
  destruct (gbr_builds n (uN 32 c) is_final) as (n' & code & B & L & H). exists n', (code ++ []).
  split_and!; [eapply builds_bind; [exact B|apply builds_ret]|done|].
  intros st. rewrite app_nil_r. specialize (H st). unfold gbr_goes. destruct (getFunction g (MakeAotSymbol (uN 32 c))) as [name|].
  - by exists st.
  - destruct is_final; [done|]. exists st. rewrite H, uN_uN by lia. done.
Qed.

(** The lookup in the cache. *)
Lemma lookup_builds n v nb : below n v -> exists code,
  builds (brind_lookup v nb (S nb)) (LReg (n + 4)) n (n + 8) code /\
  forall st gip, leval v st = Some (VInt 32 gip) -> exists st', keeps n st st' /\
    leval (LReg (n + 4)) st' = Some (VPtr (PEntry (l1hash gip) 0)) /\
    run code st = FGoto (if (lay_cache lay (l1hash gip)).1 =? gip then S nb else nb) st'.
Proof.
  intros Hv. eexists. split.
  { unfold brind_lookup, MakeStateEP. do 8 (eapply builds_bind; [apply builds_insert|]). eapply builds_bind; [apply builds_emit|].
    replace (n + 4)%nat with (S (S (S (S n)))) by lia. replace (n + 8)%nat with (S (S (S (S (S (S (S (S n)))))))) by lia. apply builds_ret. }
  intros st gip Hg. rewrite app_nil_r. cbn [app].
  pose proof (l1hash_range gip) as Hh. unfold L1_CACHE_BITS in Hh.
  assert (Hv' : forall d x st, (n <= d)%nat -> leval v st = Some (VInt 32 gip) -> leval v (set_lreg d x st) = Some (VInt 32 gip)).
  { intros d x st0 Hd H. rewrite (leval_keeps n st0); [done|by apply keeps_set|done]. }
  assert (Hd1 : exec_linst lay (LGep n LState offs_l1_brind_cache) st = FNext (set_lreg n (VPtr (PState 136)) st)) by done.
  rewrite (run_step _ _ _ _ Hd1). set (st1 := set_lreg n _ st).
  assert (Hd2 : exec_linst lay (AScopeState (LLoad (S n) LPtr (LReg n) 8 alias_none)) st1 = FNext (set_lreg (S n) (VPtr (PEntry 0 0)) st1)).
  { subst st1. cbn [AScopeState set_scope exec_linst]. rewrite leval_set. done. }
  rewrite (run_step _ _ _ _ Hd2). set (st2 := set_lreg (S n) _ st1).
  assert (Hv2 : leval v st2 = Some (VInt 32 gip)) by (do 2 (apply Hv'; [lia|]); done).
  assert (Hd3 : exec_linst lay (LBinOp (S (S n)) LShr v (LConst 32 2)) st2 = FNext (set_lreg (S (S n)) (VInt 32 (Z.shiftr gip 2)) st2)).
  { cbn [exec_linst]. rewrite Hv2. done. }
  rewrite (run_step _ _ _ _ Hd3). set (st3 := set_lreg (S (S n)) _ st2).
  assert (Hd4 : exec_linst lay (LBinOp (S (S (S n))) And (LReg (S (S n))) (LConst 32 (Z.shiftl 1 L1_CACHE_BITS - 1))) st3 =
    FNext (set_lreg (S (S (S n))) (VInt 32 (l1hash gip)) st3)).
  { cbn [exec_linst]. subst st3. rewrite leval_set. done. }
  rewrite (run_step _ _ _ _ Hd4). set (st4 := set_lreg (S (S (S n))) _ st3).
  assert (Hc4 : leval (LReg (S n)) st4 = Some (VPtr (PEntry 0 0))).
  { subst st4 st3 st2. cbn. rewrite !lookup_insert_ne, lookup_insert_eq by lia. done. }
  assert (Hd5 : exec_linst lay (LGepEntry (S (S (S (S n)))) (LReg (S n)) (LReg (S (S (S n))))) st4 =
    FNext (set_lreg (S (S (S (S n)))) (VPtr (PEntry (l1hash gip) 0)) st4)).
  { cbn [exec_linst]. rewrite Hc4. subst st4. rewrite leval_set. cbn [ptr_of int_of].
    rewrite sN_id by (done || (unfold in_s; cbn; lia)). done. }
  rewrite (run_step _ _ _ _ Hd5). set (st5 := set_lreg (S (S (S (S n)))) _ st4).
  assert (Hd6 : exec_linst lay (LGepField (S (S (S (S (S n))))) (LReg (S (S (S (S n))))) 0) st5 =
    FNext (set_lreg (S (S (S (S (S n))))) (VPtr (PEntry (l1hash gip) 0)) st5)).
  { cbn [exec_linst]. subst st5. rewrite leval_set. done. }
  rewrite (run_step _ _ _ _ Hd6). set (st6 := set_lreg (S (S (S (S (S n))))) _ st5).
  set (e := lay_cache lay (l1hash gip)).
  assert (Hd7 : exec_linst lay (AScopeOther (LLoad (S (S (S (S (S (S n)))))) (LInt 32) (LReg (S (S (S (S (S n)))))) 4 alias_none)) st6 =
    FNext (set_lreg (S (S (S (S (S (S n)))))) (VInt 32 e.1) st6)).
  { cbn [AScopeOther set_scope exec_linst]. subst st6. rewrite leval_set. done. }
  rewrite (run_step _ _ _ _ Hd7). set (st7 := set_lreg (S (S (S (S (S (S n)))))) _ st6).
  assert (Hv7 : leval v st7 = Some (VInt 32 gip)) by (do 5 (apply Hv'; [lia|]); exact Hv2).
  assert (Hd8 : exec_linst lay (LICmp (S (S (S (S (S (S (S n))))))) ICMP_NE (LReg (S (S (S (S (S (S n))))))) v) st7 =
    FNext (set_lreg (S (S (S (S (S (S (S n))))))) (VInt 1 (if e.1 =? gip then 0 else 1)) st7)).
  { cbn [exec_linst]. rewrite Hv7. subst st7. rewrite leval_set. cbn [int_of]. change (negb (32 =? 32)) with false. cbv iota.
    cbn [eval_icmp]. by destruct (e.1 =? gip). }
  rewrite (run_step _ _ _ _ Hd8). set (st8 := set_lreg (S (S (S (S (S (S (S n))))))) _ st7).
  exists st8. split_and!.
  - do 8 (apply keeps_then; [|lia]). done.
  - replace (n + 4)%nat with (S (S (S (S n)))) by lia. subst st8 st7 st6 st5. cbn.
    rewrite !lookup_insert_ne, lookup_insert_eq by lia. done.
  - cbn [exec_lblock exec_linst]. subst st8. rewrite leval_set. cbn [int_of]. change (1 =? 1) with true. cbv iota. by destruct (e.1 =? gip).
Qed.

Lemma fastp_builds n ep : below n ep -> exists n' code, builds (brind_fastp ep) tt n n' code /\ (n <= n')%nat /\
  forall st i, leval ep st = Some (VPtr (PEntry i 0)) ->
    exists st', run code st = FJump (lay_cache lay i).2 st' /\ at_state (l_cpu st) (l_mem st) st'.
Proof.
  intros He. eexists _, _. split_and!.
  - do 2 (eapply builds_bind; [apply builds_insert|]). eapply builds_bind; apply builds_emit.
  - lia.
  - intros st i H. cbn [app]. erewrite run_step by (cbn [exec_linst]; rewrite H; reflexivity).
    erewrite run_step by (cbn [AScopeOther set_scope exec_linst]; rewrite leval_set; reflexivity).
    cbn [exec_lblock exec_linst]. rewrite leval_set. cbn. by eexists.
Qed.
Lemma slowp_builds n v : below n v -> exists n' code, builds (brind_slowp v) tt n n' code /\ (n <= n')%nat /\
  forall st gip, leval v st = Some (VInt 32 gip) ->
    exists st', run code st = FJump (lay_brind lay gip (l_cpu st) (l_mem st)).1 st' /\
      at_state (lay_brind lay gip (l_cpu st) (l_mem st)).2 (l_mem st) st'.
Proof.
  intros Hv. destruct (rstub_sim lay [] [] n id_brind) as (c0 & B0 & H0); [cbn; lia|]. eexists _, _. split_and!.
  - eapply builds_bind; [exact B0|]. eapply builds_bind; [apply builds_insert|]. eapply builds_bind; apply builds_emit.
  - lia.
  - intros st gip H. rewrite exec_lblock_app. destruct (H0 st) as (st1 & -> & K & E1).
    assert (Ev : leval v st1 = Some (VInt 32 gip)) by (by rewrite (leval_keeps n st)). destruct K as (_ & Kc & Km & _).
    cbn [app]. destruct (lay_brind lay gip (l_cpu st) (l_mem st)) as [p c] eqn:Eb.
    assert (Hcall : exec_linst lay (LCall (S (S n)) (LReg (S n)) [LState; v]) st1 = FNext (set_lreg (S (S n)) (VPtr (PCode p)) (set_lcpu c st1))).
    { cbn [exec_linst fmap list_fmap]. rewrite E1, Ev. cbn [ptr_of leval]. unfold call_stub. cbn [stub_rv32].
      rewrite bool_decide_true by done. by rewrite Kc, Km, Eb. }
    rewrite (run_step _ _ _ _ Hcall). cbn [exec_lblock exec_linst]. rewrite leval_set. cbn. eexists. split; [done|]. split; [done|exact Km].
Qed.

(** *** A block *)
Lemma expand_pre pre : Forall plain pre -> forall fuel rest nb n l,
  expand_insts g fake segment (length pre + fuel) is_final (pre ++ rest) nb (mkLB n l) =
  expand_insts g fake segment fuel is_final rest nb (mkLB n (l ++ pre)).
Proof.
  induction 1 as [|i pre Hi Hp IH]; intros fuel rest nb n l; [by rewrite app_nil_r|].
  cbn [length Nat.add app]. destruct i; try done; cbn [expand_insts]; unfold mbind, GM_bind, lb_emit; cbn [mbind option_bind];
    cbn [lb_next lb_code]; rewrite IH, <- app_assoc; done.
Qed.
Lemma expand_plain bb nb n : Forall plain bb -> expand_insts g fake segment (length bb) is_final bb nb (mkLB n []) = Some ([], mkLB n bb).
Proof.
  intros H. pose proof (expand_pre bb H 0 [] nb n []) as E. rewrite Nat.add_0_r, app_nil_r in E. rewrite E. done.
Qed.

(** The block in front of an intrinsic ends before it, or runs into it. *)
Lemma run_into pre i l st : Forall plain pre ->
  (exists st1, run pre st = FNext st1 /\ run (pre ++ i :: l) st = run (i :: l) st1) \/
  (forall l', run (pre ++ l') st = run pre st) /\ match run pre st with FGbr _ _ | FGbrind _ _ => False | _ => True end.
Proof.
  intros Hp. pose proof (plain_run pre st Hp) as Hno. rewrite exec_lblock_app.
  destruct (run pre st) as [st1| | | | | | | | | | |] eqn:E; [left; by exists st1|..];
    right; (split; [|done]); intros l'; by rewrite exec_lblock_app, E.
Qed.

(** The code that takes the place of an intrinsic. *)
Definition replaces (nb : nat) (f : intrin) (args : list lvalue) (r : option (list (list linst))) (code : list linst) : Prop :=
  match r with
  | None => code = [] /\ is_final = false
  | Some bs => forall fn' st, (forall i c, bs !! i = Some c -> fn_blocks fn' !! (nb + i)%nat = Some c) ->
      match exec_linst lay (LCallIntrin f args) st with
      | FGbr _ _ as o | FGbrind _ _ as o => exists o', expands_to o o' /\ ends_in fn' o' (run code st)
      | _ => True
      end
  end.
Lemma gbr_replaced n nb c : exists r n' code,
  builds (Expand_gbr g fake segment [LState; LMembase; LConst 32 c] is_final) r n n' code /\ (n <= n')%nat /\
  replaces nb intr_gbr [LState; LMembase; LConst 32 c] r code.
Proof.
  unfold Expand_gbr. destruct is_final eqn:Ef; cbn [negb].
  - destruct (const_builds n c) as (n' & code & B & L & H). rewrite Ef in B. cbn [lookup list_lookup].
    exists (Some []), n', code. split_and!; [exact B|done|]. intros fn' st _. cbn. rewrite Ef. eexists. split; [apply H|by left].
  - exists None, n, []. split_and!; [apply builds_ret|lia|done].
Qed.
Lemma lookup_replaced n nb v : below n v -> is_final = true -> exists r n' code,
  builds (brind_blocks v nb) r n n' code /\ (n <= n')%nat /\ replaces nb intr_gbrind [LState; LMembase; v] r code.
Proof.
  intros Hv Hf. destruct (lookup_builds n v nb Hv) as (c1 & B1 & H1).
  destruct (fastp_builds (n + 8) (LReg (n + 4)) ltac:(cbn; lia)) as (n2 & c2 & B2 & L2 & H2).
  destruct (slowp_builds n2 v) as (n3 & c3 & B3 & L3 & H3); [eapply lbelow_le; [|done]; lia|].
  exists (Some [c3; c2]), n3, (c1 ++ [] ++ [] ++ []). split_and!; [|lia|].
  { unfold brind_blocks. eapply builds_bind; [exact B1|]. eapply builds_bind; [exact (builds_in_block _ _ _ _ B2)|].
    eapply builds_bind; [exact (builds_in_block _ _ _ _ B3)|]. exact (builds_ret _ _). }
  intros fn' st Hfn. rewrite !app_nil_r. cbn [exec_linst fmap list_fmap leval].
  destruct (leval v st) as [[w gip|p]|] eqn:Ev; try done. destruct (decide (w = 32)) as [->|Hw]; [|by repeat case_match].
  destruct (H1 st gip Ev) as (st' & K & E4 & Hrun). pose proof K as (_ & Kc & Km & _). rewrite Hrun.
  cbn [expands_to]. unfold gbrind_goes. rewrite Hf. unfold lookup_goes. destruct ((lay_cache lay (l1hash gip)).1 =? gip) eqn:Eh.
  - destruct (H2 st' _ E4) as (st2 & R2 & A2). eexists. split; [right; exists st2; split; [reflexivity|]|].
    + by rewrite Kc, Km in A2.
    + right. exists (S nb), st', c2. split_and!; [done| |exact R2]. rewrite <- (Nat.add_1_r nb). by apply Hfn.
  - destruct (H3 st' gip) as (st2 & R2 & A2); [by rewrite (leval_keeps n st)|]. rewrite Kc, Km in *.
    eexists. split; [right; exists st2; split; [reflexivity|exact A2]|].
    right. exists nb, st', c3. split_and!; [done| |exact R2]. rewrite <- (Nat.add_0_r nb) at 1. by apply Hfn.
Qed.

Lemma gbrind_replaced n nb v : below n v -> (forall w c, v = LConst w c -> w = 32) -> exists r n' code,
  builds (Expand_gbrind g fake segment [LState; LMembase; v] is_final nb) r n n' code /\ (n <= n')%nat /\
  replaces nb intr_gbrind [LState; LMembase; v] r code.
Proof.
  intros Hv Hw. unfold Expand_gbrind. cbn [lookup list_lookup].
  assert (Hgen : exists r n' code, builds (if negb is_final then mret None else brind_blocks v nb) r n n' code /\ (n <= n')%nat /\
    replaces nb intr_gbrind [LState; LMembase; v] r code).
  { destruct is_final eqn:Ef; cbn [negb]; [by apply lookup_replaced|]. exists None, n, []. split_and!; [apply builds_ret|lia|done]. }
  destruct Hgen as (r & n' & code & B & L & H).  destruct v as [w c|d| | |name].
  - rewrite (Hw w c eq_refl) in *. destruct (const_builds n c) as (n1 & code1 & B1 & L1 & H1).
    exists (Some []), n1, ([] ++ code1). split_and!; [eapply builds_bind; [by apply builds_of|exact B1]|done|].
    intros fn' st _. cbn. eexists. split; [left; apply H1|by left].
  - exists r, n', ([] ++ code). split_and!; [eapply builds_bind; [by apply builds_of|exact B]|done|done].
  - exists r, n', ([] ++ code). split_and!; [eapply builds_bind; [by apply builds_of|exact B]|done|done].
  - exists r, n', ([] ++ code). split_and!; [eapply builds_bind; [by apply builds_of|exact B]|done|done].
  - exists r, n', ([] ++ code). split_and!; [eapply builds_bind; [by apply builds_of|exact B]|done|done].
Qed.

Lemma intrin_replaced n0 n nb f args : (n0 <= n)%nat -> ends_intrin n0 f args -> exists r n' code,
  builds (match f with intr_gbr => Expand_gbr g fake segment args is_final | intr_gbrind => Expand_gbrind g fake segment args is_final nb end)
    r n n' code /\ (n <= n')%nat /\ replaces nb f args r code.
Proof.
  intros Hn (v & -> & Hv & Hw & Hg). destruct f.
  - destruct (Hg eq_refl) as [c ->]. apply gbr_replaced.
  - apply gbrind_replaced; [by eapply lbelow_le|done].
Qed.

Definition added (fn' : lfunc) (nb : nat) (bs : list (list linst)) : Prop :=
  forall i c, bs !! i = Some c -> fn_blocks fn' !! (nb + i)%nat = Some c.

Lemma block_expanded n0 n nb bb : (n0 <= n)%nat -> block_wf n0 bb -> exists bs n' code,
  expand_insts g fake segment (length bb) is_final bb nb (mkLB n []) = Some (bs, mkLB n' code) /\ (n <= n')%nat /\
  forall fn', added fn' nb bs -> block_exp fn' bb code.
Proof.
  intros Hn (pre & Hp & [->|(f & args & -> & Hi)]).
  { exists [], n, pre. split_and!; [by apply expand_plain|lia|]. intros fn' _. by apply block_exp_same. }
  destruct (intrin_replaced n0 n nb f args Hn Hi) as (r & n' & code & B & L & H).
  rewrite length_app. cbn [length]. rewrite (expand_pre pre Hp 2). cbn [app expand_insts].
  specialize (B pre). unfold mbind at 1, GM_bind at 1. rewrite B. cbn [mbind option_bind].
  assert (Hend : forall st1, match exec_linst lay (LCallIntrin f args) st1 with FNext _ => False | _ => True end).
  { intros st1. cbn [exec_linst]. repeat case_match; done. }
  destruct r as [bs|].
  - exists bs, n', (pre ++ code). split_and!; [|done|].
    { change (Some (bs ++ [], mkLB n' (pre ++ code)) = Some (bs, mkLB n' (pre ++ code))). by rewrite app_nil_r. }
    intros fn' Ha st. destruct (run_into pre (LCallIntrin f args) [LUnreachable] st Hp) as [(st1 & E & ->)|[E Hno]].
    + rewrite exec_lblock_app, E. specialize (H fn' st1 Ha). specialize (Hend st1). cbn [exec_lblock].
      destruct (exec_linst lay (LCallIntrin f args) st1) eqn:Ex; try done;
        exfalso; revert Ex; cbn [exec_linst]; repeat case_match; done.
    + pose proof (E (LCallIntrin f args :: [LUnreachable])) as E1. rewrite E1, E. by destruct (run pre st).
  - destruct H as [-> Hf]. exists [], n', (pre ++ [LCallIntrin f args; LUnreachable]). split_and!; [|done|].
    + unfold mbind, GM_bind, lb_emit, mret, GM_ret. cbn. rewrite app_nil_r, <- app_assoc. done.
    + intros fn' _ st. destruct (run (pre ++ _) st) as [| |gip st1|gip st1| | | | | | | |]; try done.
      * exists (FGbr gip st1). split; [cbn; by rewrite Hf|by left].
      * exists (FGbrind gip st1). split; [|by left]. right. rewrite Hf. by exists st1.
Qed.

(** ** The function *)
Lemma blocks_expanded n0 blocks : Forall (block_wf n0) blocks -> forall nb n, (n0 <= n)%nat -> exists blocks' bs n',
  expand_blocks g fake segment is_final blocks nb n = Some (blocks', bs, n') /\ length blocks' = length blocks /\
  forall fn', added fn' nb bs -> Forall2 (block_exp fn') blocks blocks'.
Proof.
  induction 1 as [|bb blocks Hb Hbs IH]; intros nb n Hn.
  { exists [], [], n. split_and!; [done|done|]. intros; constructor. }
  destruct (block_expanded n0 n nb bb Hn Hb) as (bs & n1 & code & E & L & H).
  destruct (IH (nb + length bs)%nat n1 ltac:(lia)) as (blocks' & bs' & n' & E' & Hl & H').
  exists (code :: blocks'), (bs ++ bs'), n'. split_and!; [|cbn; lia|].
  - cbn [expand_blocks]. rewrite E. cbn [mbind option_bind lb_next lb_code]. rewrite E'. done.
  - intros fn' Ha. constructor; [apply H|apply H'].
    + intros i c Hi. apply Ha. by apply lookup_app_l_Some.
    + intros i c Hi. rewrite <- Nat.add_assoc. apply Ha. rewrite lookup_app_r by lia. by replace (length bs + i - length bs)%nat with i by lia.
Qed.

(** Runs of the function and of its expansion. *)
Definition run_expands (o o' : option fres) : Prop :=
  match o with
  | Some FStuck | None => True
  | Some o => exists r, o' = Some r /\ expands_to o r
  end.

Definition is_branch (o : fres) : Prop := match o with FGbr _ _ | FGbrind _ _ => True | _ => False end.
Definition stays (o : fres) : Prop := match o with FNext _ | FGoto _ _ => True | _ => False end.
Lemma expands_leaves o o' : is_branch o -> expands_to o o' -> ~ stays o'.
Proof.
  assert (Hg : forall gip c m, gbr_goes gip c m o' -> ~ stays o').
  { intros gip c m. unfold gbr_goes. destruct (getFunction _ _), is_final; intros (st & -> & _); auto. }
  destruct o as [| |gip st|gip st| | | | | | | |]; try done; intros _; cbn [expands_to].
  - destruct is_final; [apply Hg|]. intros ->. auto.
  - unfold gbrind_goes, lookup_goes. intros [H|H]; [by eapply Hg|].
    destruct is_final; [destruct (_ =? _)|]; destruct H as (st' & -> & _); auto.
Qed.
(** A block that ends in a branch leaves the expanded function. *)
Lemma branch_ends o fn' r fuel : is_branch o -> (exists o', expands_to o o' /\ ends_in fn' o' r) ->
  run_expands (Some o) (match r with FGoto b' st' => exec_lfunc lay (S fuel) fn' b' st' | FNext _ => Some FStuck | r => Some r end).
Proof.
  intros Hb (o' & He & Hi). pose proof (expands_leaves o o' Hb He) as Hs.
  assert (Ho : exists r', (match r with FGoto b' st' => exec_lfunc lay (S fuel) fn' b' st' | FNext _ => Some FStuck | r => Some r end) = Some r' /\ r' = o').
  { destruct Hi as [->|(b & st & c & -> & Hc & Hr)].
    - exists o'. destruct o'; try done; by destruct Hs.
    - exists o'. cbn [exec_lfunc]. rewrite Hc, Hr. destruct o'; try done; by destruct Hs. }
  destruct Ho as (r' & -> & ->). destruct o; try done; by exists o'.
Qed.

Lemma ExpandIntrinsics_sim fn : Forall (block_wf (fn_next fn)) (fn_blocks fn) -> exists fn',
  ExpandIntrinsics g fake segment is_final fn = Some fn' /\
  forall fuel b st, (b < length (fn_blocks fn))%nat ->
    run_expands (exec_lfunc lay fuel fn b st) (exec_lfunc lay (S fuel) fn' b st) /\
    (exec_lfunc lay fuel fn b st = None -> exec_lfunc lay fuel fn' b st = None).
Proof.
  intros Hwf. destruct (blocks_expanded _ _ Hwf (length (fn_blocks fn)) (fn_next fn) ltac:(lia)) as (blocks' & bs & n' & E & Hl & H).
  exists (mkFn n' (blocks' ++ bs)). split; [unfold ExpandIntrinsics; by rewrite E|].
  set (fn' := mkFn n' (blocks' ++ bs)).
  assert (HF : Forall2 (block_exp fn') (fn_blocks fn) blocks').
  { apply H. intros i c Hi. cbn. rewrite lookup_app_r by lia. by replace (length (fn_blocks fn) + i - length blocks')%nat with i by lia. }
  induction fuel as [|fuel IH]; intros b st Hb; [done|].
  apply lookup_lt_is_Some in Hb as [bb Hbb]. destruct (Forall2_lookup_l _ _ _ _ _ HF Hbb) as (code & Hc & Hx).
  assert (Hc' : fn_blocks fn' !! b = Some code) by (by apply lookup_app_l_Some). specialize (Hx st).
  assert (Hu : forall k, exec_lfunc lay (S k) fn' b st =
    match run code st with FGoto b' st' => exec_lfunc lay k fn' b' st' | FNext _ => Some FStuck | r => Some r end).
  { intros k. cbn [exec_lfunc]. rewrite Hc'. done. }
  rewrite !Hu. cbn [exec_lfunc]. rewrite Hbb. destruct (run bb st) as [st'|b' st'|gip st'|gip st'| | | | | | | |] eqn:Er.
  all: try (split; done). all: try (rewrite Hx; split; [by eexists|done]).
  - rewrite Hx. destruct (decide (b' < length (fn_blocks fn))%nat) as [Hlt|Hge]; [by apply IH|].
    destruct fuel as [|fuel]; [done|]. cbn [exec_lfunc]. rewrite (lookup_ge_None_2 (fn_blocks fn)) by lia. done.
  - split; [|done]. pose proof (branch_ends (FGbr gip st') fn' (run code st) fuel I Hx) as HB. by destruct (run code st).
  - split; [|done]. pose proof (branch_ends (FGbrind gip st') fn' (run code st) fuel I Hx) as HB. by destruct (run code st).
Qed.
End expand.
