(* ===== verification/LlvmCompile.v ===== *)
(** * From guest code to LLVM functions

    The translator, the LLVM back end and the last expansion of the branches
    one after the other: the function that is handed to LLVM's code generator
    does what the interpreter does on the guest code.  The passes that LLVM
    runs on it in between keep the behaviour of a function by their own
    contract. *)

From stdpp Require Import base tactics numbers list strings gmap.
From S2P Require Import Prelude Common Bitfield RV32Insn RV32Decode GuestState Interp InterpProofs VOperand Qir QirSem QirBuilder RV32Translator.
From S2P Require Import TranslatorEmit TranslatorSim TranslatorCorrect TranslatorRegion TranslatorMain.
From S2P Require Import ArchTraits QSel QSelCorrect QRegAllocInv QRegAllocOps QRegAllocCorrect QRegAllocRegion QSelWf TranslatorWf.
From S2P Require Import BranchSlot Tcache Execute Amd64 QEmitInst QEmitCorrect QCompile Jit.
From S2P Require Import AotSymbol LlvmIr LlvmGen LlvmGenCorrect LlvmExpand.

Import qir.

(** ** Built functions have their intrinsics at the end of blocks *)
Definition adds_plain {A} (gm : GM A) : Prop := forall b a b', gm b = Some (a, b') ->
  (lb_next b <= lb_next b')%nat /\ exists c, lb_code b' = lb_code b ++ c /\ Forall plain c.

Lemma plain_ret {A} (a : A) : adds_plain (mret a).
Proof. intros b x b' [= <- <-]. split; [done|]. exists []. by rewrite app_nil_r. Qed.
Lemma plain_of {A} (o : option A) : adds_plain (g_of o).
Proof. intros b x b'. unfold g_of. destruct o; [|done]. intros [= <- <-]. split; [done|]. exists []. by rewrite app_nil_r. Qed.
Lemma plain_insert f : (forall d, plain (f d)) -> adds_plain (lb_insert f).
Proof. intros Hf b x b' [= <- <-]. cbn. split; [lia|]. exists [f (lb_next b)]. split; [done|]. by apply Forall_singleton. Qed.
Lemma plain_emit i : plain i -> adds_plain (lb_emit i).
Proof. intros Hi b x b' [= <- <-]. cbn. split; [lia|]. exists [i]. split; [done|]. by apply Forall_singleton. Qed.
Lemma plain_bind {A B} (g : GM A) (f : A -> GM B) : adds_plain g -> (forall a, adds_plain (f a)) -> adds_plain (g ≫= f).
Proof.
  intros Hg Hf b x b' H. unfold mbind, GM_bind in H. apply bind_Some in H as ([a b1] & H1 & H2).
  destruct (Hg _ _ _ H1) as (L1 & c1 & E1 & P1). destruct (Hf _ _ _ _ H2) as (L2 & c2 & E2 & P2).
  split; [lia|]. exists (c1 ++ c2). rewrite E2, E1, app_assoc. split; [done|]. by apply Forall_app.
Qed.
Ltac plain :=
  repeat first
    [ apply plain_bind; [|intros]
    | apply plain_ret | apply plain_of
    | apply plain_insert; intros; try exact I
    | apply plain_emit; try exact I
    | progress cbn [scope_if AScopeState AScopeVMem AScopeOther set_scope plain]
    | case_match ].

Section blocks.
Context (g : LLVMGenCtx) (fake : Payload) (segment : CodeSegment) (vlocs : list lvalue) (ng : Z) (nblocks : nat) (ss : list nat).
Notation Load := (LoadVOperand vlocs ng).
Notation Store := (StoreVOperand vlocs ng).

Lemma plain_scope b i : plain i -> plain (scope_if b i).
Proof. by destruct b, i. Qed.
Lemma plain_ep op : adds_plain (MakeVOperandEP vlocs ng op).
Proof. destruct op as [| | |[]|]; cbn [MakeVOperandEP]; plain. Qed.
Lemma plain_load op : adds_plain (Load op).
Proof.
  destruct op as [| | |[]|]; cbn [LoadVOperand]; try apply plain_of;
    (apply plain_bind; [apply plain_ep|]); intros [p gl]; plain; by apply plain_scope.
Qed.
Lemma plain_store op v : adds_plain (Store op v).
Proof. unfold StoreVOperand. apply plain_bind; [apply plain_ep|]. intros [p gl]. plain; by apply plain_scope. Qed.
Lemma plain_vmem a : adds_plain (MakeVMemLoc a).
Proof. unfold MakeVMemLoc. plain. Qed.
Lemma plain_rstub id : adds_plain (MakeRStub id).
Proof. unfold MakeRStub, MakeStateEP. plain. Qed.

(** An instruction adds code without intrinsics, unless it leaves the
    region. *)
Lemma plain_visit is_last i : (forall v, i <> InstGBr v) -> (forall v, i <> InstGBrind v) ->
  adds_plain (Visitor_visit g fake segment vlocs ng nblocks ss is_last i).
Proof.
  intros H1 H2. destruct i; cbn [Visitor_visit]; try (by destruct (H1 tpc)); try (by destruct (H2 tpc));
    unfold Emit_hcall, Emit_br, Emit_brcc, Emit_vmload, Emit_vmstore, Emit_setcc, Emit_mov, Emit_binop, EmitBinop;
    repeat first [apply plain_load | apply plain_store | apply plain_vmem | apply plain_rstub | progress plain]; try exact I;
    first [apply plain_ep | by apply plain_scope].
Qed.

Lemma load_below op b v b' : Load op b = Some (v, b') ->
  below (lb_next b') v /\ forall w c, v = LConst w c -> MakeType (type_of op) = Some w.
Proof.
  destruct op as [t c0|t r|t r|gl t o|]; cbn [LoadVOperand type_of]; try done.
  { unfold g_of, MakeConst. intros H. apply bind_Some in H as (x & H & [= <- <-]). apply bind_Some in H as (w & Hw & [= <-]).
    split; [done|]. intros w' c' [= <- _]. done. }
  all: unfold mbind at 1, GM_bind at 1; intros H; apply bind_Some in H as ([[p is_g] b1] & _ & H);
    unfold mbind, GM_bind in H; apply bind_Some in H as ([w b2] & _ & H); apply bind_Some in H as ([n b3] & _ & H);
    injection H as <- <-; cbn; (split; [lia|done]).
Qed.

Lemma block_wf_mono n n' bb : (n <= n')%nat -> block_wf n bb -> block_wf n' bb.
Proof.
  intros Hn (pre & Hp & [->|(f & args & -> & v & -> & Hv & Hw)]); exists pre; (split; [done|]); [by left|]. right.
  exists f, [LState; LMembase; v]. split; [done|]. exists v. split_and!; try done; [by eapply lbelow_le|by apply Hw..].
Qed.
Lemma block_wf_pre n pre bb : Forall plain pre -> block_wf n bb -> block_wf n (pre ++ bb).
Proof.
  intros Hp (pre' & Hp' & Hbb). exists (pre ++ pre'). split; [by apply Forall_app|].
  destruct Hbb as [->|(f & args & -> & H)]; [by left|]. right. exists f, args. by rewrite app_assoc.
Qed.

(** Code added in front of the end of a block. *)
Definition adds_block (gm : GM unit) : Prop := forall b a b', gm b = Some (a, b') ->
  (lb_next b <= lb_next b')%nat /\ exists c, lb_code b' = lb_code b ++ c /\ block_wf (lb_next b') c.
Lemma plain_block gm : adds_plain gm -> adds_block gm.
Proof. intros H b a b' E. destruct (H b a b' E) as (L & c & Ec & Hp). split; [done|]. exists c. split; [done|]. exists c. auto. Qed.
Lemma intrin_adds n f v : below n v -> (forall w c, v = LConst w c -> w = 32) -> (f = intr_gbr -> exists c, v = LConst 32 c) ->
  block_wf n [LCallIntrin f [LState; LMembase; v]; LUnreachable].
Proof. intros. exists []. split; [constructor|]. right. eexists f, _. split; [done|]. by exists v. Qed.

Lemma exit_visit is_last i : (exists t c, i = InstGBr (VConst t c)) \/ (exists v, i = InstGBrind v /\ type_of v = I32) ->
  adds_block (Visitor_visit g fake segment vlocs ng nblocks ss is_last i).
Proof.
  intros [(t & c & ->)|(v & -> & Tv)]; cbn [Visitor_visit].
  - cbn [Emit_gbr]. unfold CreateQCGGbr. destruct (getFunction _ _); [apply plain_block; unfold CreateQCGFnCall; plain|].
    intros b a b' [= <- <-]. cbn. split; [lia|]. eexists. split; [by rewrite <- app_assoc|]. apply intrin_adds; [done| |by exists c].
    by intros w c' [= <- _].
  - unfold Emit_gbrind. intros b a b' H. unfold mbind, GM_bind in H. apply bind_Some in H as ([x b1] & H1 & H).
    injection H as <- <-. destruct (plain_load v b x b1 H1) as (L1 & c1 & E1 & P1). destruct (load_below v b x b1 H1) as [Hb Hw].
    cbn [lb_next lb_code]. split; [done|]. exists (c1 ++ [LCallIntrin intr_gbrind [LState; LMembase; x]; LUnreachable]).
    split; [by rewrite E1, <- !app_assoc|]. apply block_wf_pre; [done|]. apply intrin_adds; [done| |done].
    intros w c Hx. specialize (Hw w c Hx). rewrite Tv in Hw. by injection Hw as <-.
Qed.

Lemma insts_block l : jumps_op (GetOpcode <$> l) = true ->
  Forall (fun i => (forall v, i = InstGBr v -> exists t c, v = VConst t c) /\ (forall v, i = InstGBrind v -> type_of v = I32)) l ->
  adds_block (emit_insts g fake segment vlocs ng nblocks ss l).
Proof.
  induction l as [|i l IH]; intros Hj Hl; [apply plain_block, plain_ret|]. cbn [fmap list_fmap jumps_op] in Hj.
  apply andb_true_iff in Hj as [Hi Hj]. apply Forall_cons in Hl as [[Hg Hgi] Hl]. cbn [emit_insts].
  assert (Hcase : adds_plain (Visitor_visit g fake segment vlocs ng nblocks ss (bool_decide (l = [])) i) \/ l = [] /\
    ((exists t c, i = InstGBr (VConst t c)) \/ (exists v, i = InstGBrind v /\ type_of v = I32))).
  { destruct i as [| | |v|v| | | | |]; try (left; by apply plain_visit).
    - right. cbn in Hi. rewrite bool_decide_eq_true in Hi. apply fmap_nil_inv in Hi. destruct (Hg v eq_refl) as (t & c & ->).
      split; [done|]. left. by exists t, c.
    - right. cbn in Hi. rewrite bool_decide_eq_true in Hi. apply fmap_nil_inv in Hi. split; [done|]. right. exists v. auto. }
  intros b a b' H. unfold mbind, GM_bind in H. apply bind_Some in H as ([[] b1] & H1 & H2). destruct Hcase as [Hp|[-> Hx]].
  - destruct (Hp _ _ _ H1) as (L1 & c1 & E1 & P1). destruct (IH Hj Hl _ _ _ H2) as (L2 & c2 & E2 & P2).
    split; [lia|]. exists (c1 ++ c2). rewrite E2, E1, app_assoc. split; [done|]. by apply block_wf_pre.
  - injection H2 as _ <-. by eapply exit_visit.
Qed.
End blocks.

Section func.
Context (g : LLVMGenCtx) (fake : Payload) (segment : CodeSegment) (vlocs : list lvalue) (ng : Z) (nblocks : nat).
Definition exits_const (i : Inst) : Prop :=
  (forall v, i = InstGBr v -> exists t c, v = VConst t c) /\ (forall v, i = InstGBrind v -> type_of v = I32).

Lemma bbs_block bbs : Forall (fun b => jumps_op (GetOpcode <$> (n_inst <$> ilist b)) = true /\ Forall exits_const (n_inst <$> ilist b)) bbs ->
  forall n codes next, emit_bbs g fake segment vlocs ng nblocks bbs n = Some (codes, next) ->
  (n <= next)%nat /\ Forall (block_wf next) codes.
Proof.
  induction 1 as [|bb bbs [Hj Hx] Hbs IH]; intros n codes next H; [injection H as <- <-; by split|].
  cbn [emit_bbs] in H. apply bind_Some in H as ([[] b] & H1 & H). apply bind_Some in H as ([r next'] & H2 & [= <- <-]).
  destruct (insts_block g fake segment vlocs ng nblocks (succs bb) _ Hj Hx _ _ _ H1) as (L1 & c & E1 & W1). cbn in L1, E1.
  destruct (IH _ _ _ H2) as [L2 W2]. split; [lia|]. constructor; [|done]. rewrite E1. by eapply block_wf_mono.
Qed.
End func.

Lemma plain_locs vinfo : adds_plain (CreateVGPRLocs vinfo).
Proof.
  assert (Hg : forall l, adds_plain (glob_locs l)) by (induction l; cbn [glob_locs]; unfold MakeStateEP; plain; done).
  assert (Hl : forall l, adds_plain (local_locs l)) by (induction l; cbn [local_locs]; plain; done).
  unfold CreateVGPRLocs. apply plain_bind; [done|]. intros. apply plain_bind; [done|]. intros. apply plain_ret.
Qed.

Lemma Run_wf g fake segment rn fn : sel_region_wf rn -> Run g fake segment rn = Some fn -> Forall (block_wf (fn_next fn)) (fn_blocks fn).
Proof.
  intros Hwf H. unfold Run in H. apply bind_Some in H as ([vlocs b] & H1 & H). apply bind_Some in H as ([bbs next] & H2 & [= <-]).
  destruct (plain_locs _ _ _ _ H1) as (L1 & c & E1 & P1). cbn in L1, E1.
  destruct (bbs_block g fake segment vlocs (NumGlobals (vregs_info rn)) (length (blist rn)) (blist rn)) with (n := lb_next b) (codes := bbs) (next := next)
    as [L2 W2]; [|done|].
  { apply Forall_lookup. intros k bb Hk. destruct (proj1 (Forall_lookup _ _) (sr_cfg _ Hwf) _ _ Hk) as (_ & Hj & _). split; [done|].
    pose proof (proj1 (Forall_lookup _ _) (sr_nodes _ Hwf) _ _ Hk) as Hn. clear - Hn. revert Hn. generalize (is_glob (glob_info (vregs_info rn))).
    induction (ilist bb) as [|nd l IH]; intros L; [constructor|]. intros [Hi Hl]. constructor; [|by eapply IH]. destruct Hi. split.
    - intros v Hv. destruct (pw_gbr v Hv) as (t & c & -> & _). by exists t, c.
    - intros v Hv. rewrite Hv in pw_types. cbn in pw_types. by bool_to_prop. }
  cbn [fn_next fn_blocks]. constructor; [|done]. rewrite E1. destruct (decide _); [exists c; auto|].
  exists (c ++ [LBr 1]). split; [|by left]. apply Forall_app. split; [done|]. by apply Forall_singleton.
Qed.

(** ** Successors of translated blocks are blocks of the region *)
Notation nblk t := (length (blist (t_rn t))).
Record succ_inv (t : TState) : Prop := {
  si_succs : succs_in (t_rn t);
  si_ip2bb : map_Forall (fun _ b => (b < nblk t)%nat) (ip2bb t) }.
(** The step keeps the invariant and no block goes away. *)
Definition keeps_succs {A} (P : A -> TState -> Prop) (c : TM A) : Prop := forall t a t', succ_inv t -> c t = Some (a, t') ->
  succ_inv t' /\ (nblk t <= nblk t')%nat /\ P a t'.
Definition anything {A} (a : A) (t : TState) : Prop := True.
Notation ks := (keeps_succs anything).

Lemma succs_in_shape rn rn' : succs <$> blist rn' = succs <$> blist rn -> succs_in rn -> succs_in rn'.
Proof.
  intros He H. assert (Hl : length (blist rn') = length (blist rn)) by (rewrite <- (length_fmap succs (blist rn)), <- He; by rewrite length_fmap).
  apply Forall_lookup. intros k b Hk. rewrite Hl.
  assert (Hk' : (succs <$> blist rn) !! k = Some (succs b)) by (rewrite <- He, list_lookup_fmap, Hk; done).
  rewrite list_lookup_fmap in Hk'. apply fmap_Some in Hk' as (b0 & Hb0 & ->). by eapply (proj1 (Forall_lookup _ _) H).
Qed.
Lemma shape_upd f b rn : succs <$> blist (upd_ilist f b rn) = succs <$> blist rn.
Proof.
  cbn. apply list_eq. intros k. rewrite !list_lookup_fmap. destruct (decide (b = k)) as [->|Hne].
  - rewrite list_lookup_alter_eq. by destruct (blist rn !! k).
  - by rewrite list_lookup_alter_ne.
Qed.
Lemma shape_Create i qb rn : succs <$> blist (Builder_Create i qb rn).2 = succs <$> blist rn.
Proof.
  assert (Hf : forall rn b pos, succs <$> blist (ApplyFolder rn b pos) = succs <$> blist rn).
  { intros rn0 b pos. unfold ApplyFolder. destruct (_ ≫= _) as [node|]; [|done]. destruct (FolderVisitor_visit (n_inst node)) as [i' [mov|]]; [|apply shape_upd].
    cbn [Create]. apply (shape_upd _ _ (mkRegion _ _ _ _)). }
  unfold Builder_Create. cbn [Create snd]. rewrite Hf. apply (shape_upd _ _ (mkRegion _ _ _ _)).
Qed.
Lemma same_shape t t' : succs <$> blist (t_rn t') = succs <$> blist (t_rn t) -> ip2bb t' = ip2bb t -> succ_inv t ->
  succ_inv t' /\ (nblk t <= nblk t')%nat.
Proof.
  intros He Hi [H1 H2]. assert (Hl : nblk t' = nblk t) by (rewrite <- (length_fmap succs (blist (t_rn t))), <- He; by rewrite length_fmap).
  split; [|lia]. split; [by eapply succs_in_shape|]. by rewrite Hi, Hl.
Qed.

Lemma ks_bind {A B} (c : TM A) (f : A -> TM B) P Q : keeps_succs P c -> (forall a, keeps_succs Q (f a)) -> keeps_succs Q (c ≫= f).
Proof.
  intros Hc Hf t b t' Ht H. unfold mbind, TM_bind in H. apply bind_Some in H as ([a t1] & H1 & H2).
  destruct (Hc _ _ _ Ht H1) as (Ht1 & L1 & _). destruct (Hf _ _ _ _ Ht1 H2) as (Ht2 & L2 & HQ). split_and!; [done|lia|done].
Qed.
Lemma ks_ret {A} (a : A) : ks (mret a).
Proof. intros t x t' Ht [= <- <-]. split_and!; [done|done|exact I]. Qed.
Lemma ks_fail {A} : ks (t_fail : TM A).
Proof. by intros t x t' Ht. Qed.
Lemma ks_assert b : ks (t_assert b).
Proof. destruct b; [apply ks_ret|apply ks_fail]. Qed.
Lemma ks_get : ks t_get.
Proof. intros t x t' Ht [= <- <-]. split_and!; [done|done|exact I]. Qed.
Lemma ks_create i : ks (qb_Create i).
Proof.
  intros t x t' Ht H. unfold qb_Create, t_modify in H. pose proof (shape_Create i (t_qb t) (t_rn t)) as Hs.
  destruct (Builder_Create i (t_qb t) (t_rn t)) as [qb rn]. injection H as _ <-.
  destruct (same_shape t (set_qb qb (set_rn rn t))) as [H1 H2]; [exact Hs|done|done|]. split_and!; [exact H1|exact H2|exact I].
Qed.
Lemma ks_vtemp ty : ks (vtemp ty).
Proof. intros t x t' [H1 H2] [= _ <-]. split_and!; [by split|done|exact I]. Qed.
Lemma ks_set b : ks (qb_set b).
Proof. intros t x t' [H1 H2] [= _ <-]. split_and!; [by split|done|exact I]. Qed.
Lemma ks_modify f : (forall t, t_rn (f t) = t_rn t) -> (forall t, ip2bb (f t) = ip2bb t) -> ks (t_modify f).
Proof. intros H1 H2 t x t' Ht [= _ <-]. destruct (same_shape t (f t)) as [K1 K2]; [by rewrite H1|apply H2|done|]. split_and!; [exact K1|exact K2|exact I]. Qed.
Lemma ks_vgpr id ty : ks (vgpr id ty).
Proof. unfold vgpr. eapply ks_bind; [apply ks_assert|]. intros. apply ks_ret. Qed.
Lemma ks_gprop id ty : ks (gprop id ty).
Proof. unfold gprop. case_match; [apply ks_ret|apply ks_vgpr]. Qed.
Lemma ks_block : keeps_succs (fun b t => (b < nblk t)%nat) qb_CreateBlock.
Proof.
  intros t b t' [H1 H2] [= <- <-]. cbn [set_rn t_rn blist ip2bb]. rewrite length_app. cbn [length]. split_and!; [|lia|lia]. split; cbn.
  - apply Forall_app. split; [|by repeat constructor]. eapply Forall_impl; [exact H1|]. intros b Hb. eapply Forall_impl; [exact Hb|].
    intros s. cbn. rewrite length_app. lia.
  - intros ip b Hb. specialize (H2 ip b Hb). cbn in H2. rewrite length_app. cbn. lia.
Qed.
Lemma succ_add b t : succ_inv t -> (b < nblk t)%nat -> succ_inv (set_rn (AddSucc (b_bb (t_qb t)) b (t_rn t)) t) /\
  nblk (set_rn (AddSucc (b_bb (t_qb t)) b (t_rn t)) t) = nblk t.
Proof.
  intros [H1 H2] Hb. assert (Hl : length (blist (AddSucc (b_bb (t_qb t)) b (t_rn t))) = nblk t) by (cbn; by rewrite !length_alter).
  split; [|exact Hl]. split; cbn [set_rn t_rn ip2bb]; [|by rewrite Hl].
  unfold succs_in. rewrite Hl. cbn. apply Forall_alter; [apply Forall_alter; [exact H1|]|].
  - intros x Hx _. apply Forall_app. split; [by eapply (proj1 (Forall_lookup _ _) H1)|]. by apply Forall_singleton.
  - intros x Hx Hs. exact Hs.
Qed.

Ltac ks_step :=
  first
    [ eapply ks_bind; [|intros]
    | apply ks_ret | apply ks_fail | apply ks_assert | apply ks_get | apply ks_create | apply ks_vtemp | apply ks_set
    | apply ks_vgpr | apply ks_gprop | apply ks_modify; done | case_match ].

Lemma ks_gbr ip : ks (MakeGBr ip).
Proof.
  intros t x t' Ht H. unfold MakeGBr, mbind, TM_bind in H. cbn [t_get mbind option_bind] in H.
  destruct (ip2bb t !! ip) as [b|] eqn:Eb; [|by apply (ks_create _ t x t' Ht H)].
  apply bind_Some in H as ([[] t1] & H1 & H2). destruct (ks_create _ _ _ _ Ht H1) as (Ht1 & L1 & _). injection H2 as _ <-.
  destruct (succ_add b t1 Ht1) as [H2 E2]; [pose proof (si_ip2bb _ Ht ip b Eb); cbn in *; lia|]. split_and!; [done|lia|exact I].
Qed.
Lemma ks_target ip : keeps_succs (fun b t => (b < nblk t)%nat) (make_target ip).
Proof.
  intros t x t' Ht H. unfold make_target, mbind at 1, TM_bind at 1 in H. cbn [t_get mbind option_bind] in H.
  destruct (ip2bb t !! ip) as [b|] eqn:Eb.
  - injection H as <- <-. split_and!; [done|done|]. exact (si_ip2bb _ Ht ip b Eb).
  - unfold mbind, TM_bind in H. apply bind_Some in H as ([b t1] & H1 & H). destruct (ks_block _ _ _ Ht H1) as (Ht1 & L1 & Hb).
    apply bind_Some in H as ([[] t2] & H2 & H). destruct (ks_set _ _ _ _ Ht1 H2) as (Ht2 & L2 & _).
    apply bind_Some in H as ([[] t3] & H3 & H). destruct (ks_create _ _ _ _ Ht2 H3) as (Ht3 & L3 & _).
    injection H as <- <-. split_and!; [done|lia|lia].
Qed.
Lemma ks_brcc i cc : ks (TranslateBrcc i cc).
Proof.
  intros t x t' Ht H. unfold TranslateBrcc, mbind, TM_bind in H. cbn [t_get mbind option_bind] in H.
  apply bind_Some in H as ([bf t1] & H1 & H). destruct (ks_target _ _ _ _ Ht H1) as (Ht1 & L1 & Hbf).
  apply bind_Some in H as ([bt t2] & H2 & H). destruct (ks_target _ _ _ _ Ht1 H2) as (Ht2 & L2 & Hbt).
  apply bind_Some in H as ([[] t3] & H3 & H). destruct (ks_set _ _ _ _ Ht2 H3) as (Ht3 & L3 & _).
  apply bind_Some in H as ([s1 t4] & H4 & H). destruct (ks_gprop _ _ _ _ _ Ht3 H4) as (Ht4 & L4 & _).
  apply bind_Some in H as ([s2 t5] & H5 & H). destruct (ks_gprop _ _ _ _ _ Ht4 H5) as (Ht5 & L5 & _).
  apply bind_Some in H as ([[] t6] & H6 & H). destruct (ks_create _ _ _ _ Ht5 H6) as (Ht6 & L6 & _).
  cbn in H. injection H as _ <-. destruct (succ_add bt t6 Ht6 ltac:(lia)) as [Ht7 E7].
  destruct (succ_add bf _ Ht7 ltac:(lia)) as [Ht8 E8]. split_and!; [exact Ht8| |exact I].
  transitivity (nblk t6); [lia|]. rewrite <- E7, <- E8. reflexivity.
Qed.

Lemma ks_V op i : ks (V op i).
Proof.
  destruct op; cbn [V]; first
    [ apply ks_brcc
    | unfold V_lui, V_auipc, V_jal, V_jalr, translate_link, TranslateLoad, TranslateStore, translate_addr, TranslateHelper,
        TRANSLATOR_ArithmRI, TRANSLATOR_ArithmRR, TranslateSetcc_I, TranslateSetcc_R;
      repeat first [apply ks_gbr | ks_step]].
Qed.
Lemma ks_H op i : ks (H op i).
Proof. unfold H, PreSideeff. repeat first [apply ks_V | ks_step]. Qed.
Lemma ks_loop code fuel n b : ks (translate_loop code fuel n b).
Proof.
  revert n. induction fuel as [|fuel IH]; intros n; [apply ks_fail|]. cbn [translate_loop]. unfold TranslateInsn.
  repeat first [apply ks_H | apply ks_gbr | apply IH | ks_step].
Qed.
Lemma ks_range code ip b : ks (TranslateIPRange code ip b).
Proof. unfold TranslateIPRange. repeat first [apply ks_loop | ks_step]. Qed.
Lemma ks_ranges code rs : ks (translate_ranges code rs).
Proof.
  induction rs as [|[a b] rs IH]; [apply ks_ret|]. cbn [translate_ranges]. eapply ks_bind; [apply ks_range|]. intros. apply IH.
Qed.
Lemma ks_blocks rs : ks (create_blocks rs).
Proof.
  induction rs as [|[a b] rs IH]; [apply ks_ret|]. cbn [create_blocks]. intros t x t' Ht H. unfold mbind, TM_bind in H.
  apply bind_Some in H as ([k t1] & H1 & H). destruct (ks_block _ _ _ Ht H1) as (Ht1 & L1 & Hk).
  apply bind_Some in H as ([[] t2] & H2 & H). injection H2 as <-.
  match type of H with create_blocks rs ?s = _ => assert (Ht2 : succ_inv s) end.
  { destruct Ht1 as [K1 K2]. split; cbn [t_rn ip2bb]; [exact K1|]. destruct (ip2bb t1 !! a); [done|]. by apply map_Forall_insert_2. }
  destruct (IH _ _ _ Ht2 H) as (Ht3 & L3 & _). cbn in L3. split_and!; [done|lia|exact I].
Qed.

Lemma Translate_succs code rs t : Translate code rs = Some t -> succs_in (t_rn t).
Proof.
  intros H. unfold Translate in H. apply fmap_Some in H as (([] & t') & H & ->). cbn [snd].
  assert (Hi : succ_inv T_init) by (split; [constructor|apply map_Forall_empty]).
  assert (Hk : ks (create_blocks rs;; translate_ranges code rs)) by (eapply ks_bind; [apply ks_blocks|intros; apply ks_ranges]).
  destruct (Hk _ _ _ Hi H) as ([Hs _] & _). exact Hs.
Qed.

(** ** From the region to the expanded function *)
Lemma exec_lfunc_more lay k fuel fn b st o : exec_lfunc lay fuel fn b st = Some o -> exec_lfunc lay (k + fuel) fn b st = Some o.
Proof.
  revert b st. induction fuel as [|fuel IH]; intros b st; [done|]. rewrite Nat.add_succ_r. cbn [exec_lfunc].
  destruct (fn_blocks fn !! b) as [bb|]; [|done]. destruct (exec_lblock lay bb st); try done. apply IH.
Qed.

(** The region's entry state. *)
Definition q_entry (st : lstate) : qstate := mkQ (l_cpu st) ∅ ∅ ∅ (l_mem st).

Section compile.
Context (lay : layout) (g : LLVMGenCtx) (fake : Payload) (segment : CodeSegment).
Notation isteps := (isteps (lay_weaks lay)).
Notation interp_step := (dispatch (lay_weaks lay)).
Notation gexec t fuel st := (gexec_region state_info (lay_clob lay) (lay_weaks lay) fuel (t_rn t) 0 (q_entry st)).

(** The function's state is that of the interpreter. *)
Definition lholds (st : lstate) (σ : hstate) : Prop :=
  gpr (l_cpu st) = gpr (h_cpu σ) /\ trapno (l_cpu st) = trapno (h_cpu σ) /\ in_u 32 (ip (l_cpu st)) /\ l_mem st = h_mem σ.

(** A function that ends with [o] has done what the interpreter does from
    [σ]: it calls the function of the guest address the interpreter gets to, or
    is left through its slot, or goes where the indirect-branch cache and the
    stub say for it; or it traps or faults as the interpreter does. *)
Definition llvm_result (σ : hstate) (o : fres) : Prop :=
  match o with
  | FTail name st => exists n σ', isteps (S n) σ σ' /\ lholds st σ' /\ name = MakeAotSymbol (h_gip σ')
  | FAsm text st => exists n σ', isteps (S n) σ σ' /\ lholds st σ' /\ slot_text fake segment (h_gip σ') text
  | FJump a _ => exists n σ' c, isteps (S n) σ σ' /\ gpr c = gpr (h_cpu σ') /\ trapno c = trapno (h_cpu σ') /\ in_u 32 (ip c) /\
      lookup_goes lay (h_gip σ') c (h_mem σ') o
  | FRaised st => exists n σ1 σ2, isteps n σ σ1 /\ interp_step σ1 = Raised σ2 /\ l_cpu st = h_cpu σ2 /\ l_mem st = h_mem σ2
  | FFaulted st => exists n σ1 σ2, isteps n σ σ1 /\ interp_step σ1 = Faulted σ2 /\ l_cpu st = h_cpu σ2 /\ l_mem st = h_mem σ2
  | _ => False
  end.

Lemma lholds_at st s σ : at_state (q_cpu s) (q_mem s) st -> sim s σ -> lholds st σ.
Proof.
  intros [H1 H2] [Hq ? Hg Ht Hm]. unfold lholds. rewrite H1, H2, Hg, Ht, Hm. split_and!; try done. apply (wf_ip _ (qwf_cpu _ Hq)).
Qed.
Lemma entry_sim st σ : hinv σ -> lholds st σ -> sim (q_entry st) σ.
Proof.
  intros Hi (Hg & Ht & Hip & Hm). pose proof (proj1 (hinv_wf σ) Hi) as ([Hl Hr H0 _] & _ & Hmw).
  split; [|done..]. split; cbn [q_entry q_cpu q_loc q_pgpr q_frame q_mem]; try apply map_Forall_empty; [|by rewrite Hm].
  split; unfold get_gpr in *; by rewrite ?Hg.
Qed.

Lemma gbr_result σ σ' n s t o : payload_ok fake -> isteps (S n) σ σ' -> sim s σ' -> h_gip σ' = t ->
  gbr_goes g fake segment true t (q_cpu s) (q_mem s) o -> llvm_result σ o.
Proof.
  intros Hp Hn Hs <-. unfold gbr_goes. destruct (getFunction g _) as [name|] eqn:Ef; intros (st & -> & Ha).
  - exists n, σ'. split_and!; [done|by eapply lholds_at|]. unfold getFunction in Ef. case_match; congruence.
  - exists n, σ'. split_and!; [done|by eapply lholds_at|]. by apply MakeGbrAsmString_slot.
Qed.
Lemma exit_result σ σ' n s t o1 o : payload_ok fake -> isteps (S n) σ σ' -> sim s σ' -> h_gip σ' = t ->
  leaves t s o1 -> expands_to lay g fake segment true o1 o -> llvm_result σ o.
Proof.
  intros Hp Hn Hs Ht Hl He. destruct o1 as [| |gip st|gip st|name st| | | | | | |]; try done; destruct Hl as [-> [Hc Hm]]; cbn [expands_to] in He.
  - rewrite Hc, Hm in He. by eapply gbr_result.
  - rewrite Hc, Hm in He. destruct He as [He|He]; [by eapply gbr_result|].
    assert (Hj : exists a st', o = FJump a st') by (unfold lookup_goes in He; destruct (_ =? _); destruct He as (st' & -> & _); eauto).
    destruct Hj as (a & st' & ->). exists n, σ', (q_cpu s). destruct Hs as [Hq ? Hg Htr Hmm]. subst t. rewrite <- Hmm.
    split_and!; try done. apply (wf_ip _ (qwf_cpu _ Hq)).
  - subst o. exists n, σ'. split_and!; [done| |by rewrite Ht]. by eapply lholds_at.
Qed.

(** An end of the region, of the built function and of the expanded one. *)
Lemma expanded_result inside σ r o1 o : payload_ok fake -> region_moves (lay_weaks lay) inside r σ -> func_rel r o1 ->
  expands_to lay g fake segment true o1 o -> llvm_result σ o.
Proof.
  assert (Hto : forall n σ1 σ2, rsteps (lay_weaks lay) inside n σ1 σ2 -> isteps n σ1 σ2) by apply rsteps_isteps.
  intros Hp Hm Hf Hex. destruct r as [| |tpc s|s|s| |]; try done.
  - destruct Hm as (k & σ' & Hk%Hto & Hs & Hgip). by eapply exit_result.
  - destruct Hf as (st1 & -> & Hc & Hmm). cbn in Hex. subst o. destruct Hm as (k & σ1 & σ2 & Hk%Hto & Hs & Hac & Ham). exists k, σ1, σ2. split_and!; congruence.
  - destruct Hf as (st1 & -> & Hc & Hmm). cbn in Hex. subst o. destruct Hm as (k & σ1 & σ2 & Hk%Hto & Hs & Hac & Ham). exists k, σ1, σ2. split_and!; congruence.
Qed.
Lemma moves_func inside r σ o : r = QUndef \/ region_moves (lay_weaks lay) inside r σ -> run_rel (Some r) o ->
  exists o1, o = Some o1 /\ func_rel r o1 /\ o1 <> FStuck.
Proof.
  intros Hres Hf. assert (exists o1, o = Some o1 /\ func_rel r o1) as (o1 & Ho1 & Hf1) by (destruct Hres as [->|Hm]; [exact Hf|by destruct r]).
  exists o1. split_and!; [done..|]. intros ->. destruct Hres as [->|Hm]; [done|]. by destruct r as [| |? ?|?|?| |]; try done; destruct Hf1 as (? & ? & _).
Qed.

(** Every end of the expanded function, and that it ends.  The module may
    have got more functions between the two steps. *)
Lemma llvm_code_sim g0 code first second rs t :
  mem_wf code -> TranslatorMain.code_ok code ((first, second) :: rs) -> ranges_wf ((first, second) :: rs) ->
  Translate code ((first, second) :: rs) = Some t -> NumAll (vregs_info (t_rn t)) < 2 ^ 16 -> payload_ok fake ->
  exists fn fn', Run g0 fake segment (t_rn t) = Some fn /\ ExpandIntrinsics g fake segment true fn = Some fn' /\
    forall st σ, hinv σ -> lholds st σ -> h_gip σ = first -> ~ goes_bad (lay_weaks lay) code (in_ranges ((first, second) :: rs)) σ ->
      (forall fuel o, exec_lfunc lay fuel fn' 0 st = Some o -> llvm_result σ o \/ o = FUndef /\ exists n, gexec t n st = Some QUndef) /\
      (forall k σ1, isteps k σ σ1 -> (forall σ2, interp_step σ1 <> Ret tt σ2) -> exists fuel o, exec_lfunc lay fuel fn' 0 st = Some o).
Proof.
  intros Hw Hok Hrs Et HN Hp. destruct (Translate_entry code first second rs t Hw Hok Hrs Et) as [Hb Hg].
  pose proof (Translate_region_wf code _ t Hw Hok Hrs ltac:(done) Et ltac:(lia)) as Hwf.
  destruct (Run_sim lay g0 fake segment (t_rn t) Hwf (Translate_succs _ _ _ Et)) as (fn & Hrun & Hfn). rewrite Hg in Hfn.
  destruct (ExpandIntrinsics_sim lay g fake segment true fn (Run_wf g0 fake segment _ _ Hwf Hrun)) as (fn' & Hexp & Hfn').
  exists fn, fn'. split_and!; try done. intros st σ Hi Hh Hip Hnb.
  pose proof (entry_sim st σ Hi Hh) as Hsim.
  destruct (Translate_blocks (lay_clob lay) (lay_weaks lay) code _ Hw Hok _ t (proj1 Hrs) (proj2 Hrs) ltac:(done) Et) as [_ Hblk].
  assert (Hnw : no_wrap t) by (unfold no_wrap; lia).
  assert (Hpos : (0 < length (fn_blocks fn))%nat).
  { unfold Run in Hrun. apply bind_Some in Hrun as ([v b] & _ & Hr). apply bind_Some in Hr as ([bbs nx] & _ & [= <-]). cbn. lia. }
  assert (Hweak : hweak (mkH (l_cpu st) 0 (l_mem st))).
  { pose proof (proj1 (hinv_wf σ) Hi) as ([Hl Hr _ _] & _ & Hmw). destruct Hh as (H1 & _ & H3 & H4).
    unfold hweak. cbn [h_cpu h_gip h_mem]. rewrite H1, H4. by split_and!. }
  (* an end of the region is an end of the function *)
  assert (Hend : forall n r, gexec t n st = Some r -> exists o, exec_lfunc lay (S (S n)) fn' 0 st = Some o /\
    (llvm_result σ o \/ o = FUndef /\ exists n, gexec t n st = Some QUndef)).
  { intros n r Hr. pose proof (Hfn n (q_entry st) st eq_refl Hweak (conj eq_refl eq_refl)) as Hf. rewrite Hr in Hf.
    destruct (Hfn' (S n) 0%nat st Hpos) as [He _].
    assert (Hres : r = QUndef \/ region_moves (lay_weaks lay) (in_ranges ((first, second) :: rs)) r σ).
    { destruct (gexec_region_eq state_info (lay_clob lay) (lay_weaks lay) n (t_rn t) 0 (q_entry st)) as [Eq|Eq]; [|left; congruence].
      right. rewrite Hr in Eq. symmetry in Eq.
      destruct (region_sound_entry (lay_clob lay) (lay_weaks lay) code _ t Hblk Hnw n 0 first (q_entry st) σ r) as [?|?]; done. }
    destruct (moves_func _ r σ _ Hres Hf) as (o1 & Ho1 & Hf1 & Hns).
    rewrite Ho1 in He. assert (exists o, exec_lfunc lay (S (S n)) fn' 0 st = Some o /\ expands_to lay g fake segment true o1 o) as (o & Ho & Hex) by by destruct o1.
    exists o. split; [exact Ho|]. destruct Hres as [->|Hm]; [|left; by eapply expanded_result].
    right. cbn in Hf1. subst o1. split; [exact Hex|]. by exists n. }
  split.
  - intros fuel o Ho. destruct fuel as [|fuel]; [done|].
    destruct (gexec t fuel st) as [r|] eqn:Hr.
    + destruct (Hend fuel r Hr) as (o' & Ho' & Hres). apply (exec_lfunc_more lay 1) in Ho. cbn [Nat.add] in Ho. congruence.
    + pose proof (Hfn fuel (q_entry st) st eq_refl Hweak (conj eq_refl eq_refl)) as Hf. rewrite Hr in Hf. cbn in Hf.
      destruct (Hfn' (S fuel) 0%nat st Hpos) as [_ Hn]. specialize (Hn Hf). congruence.
  - intros k σ1 Hk Hstop.
    destruct (region_progress (lay_clob lay) (lay_weaks lay) code _ t Hblk Hnw k 0 first (q_entry st) σ σ1) as [r Hr]; try done; [by left|].
    destruct (gexec t (S (S k)) st) as [r'|] eqn:Hg'.
    + destruct (Hend _ r' Hg') as (o & Ho & _). by exists (S (S (S (S k)))), o.
    + destruct (gexec_region_eq state_info (lay_clob lay) (lay_weaks lay) (S (S k)) (t_rn t) 0 (q_entry st)) as [Eq|Eq]; congruence.
Qed.
End compile.

(** ** The theorems *)
(** C10 [LLVMGen] of a well-formed region builds a function, and the function
    does what the region does: it calls the branch intrinsic, or the function,
    of the guest address the region leaves for, with the registers and the
    memory the region leaves, or traps or faults as the region does, and it
    runs on as long as the region does.  Its behaviour is undefined exactly
    where that of the region is or the region shifts by 32 or more, accesses
    guest memory that is not aligned, or accesses guest address 0, the null
    pointer. *)
Theorem QIRToLLVM_Run_correct lay g fake segment rn :
  sel_region_wf rn -> succs_in rn -> exists fn, Run g fake segment rn = Some fn /\
    forall fuel s st, q_loc s = ∅ -> hweak (mkH (q_cpu s) 0 (q_mem s)) -> same s st ->
      run_rel (gexec_region (glob_info (vregs_info rn)) (lay_clob lay) (lay_weaks lay) fuel rn 0 s) (exec_lfunc lay (S fuel) fn 0 st).
Proof. intros Hwf Hin. by apply Run_sim. Qed.

(** C39 The expansion of the branch intrinsics of a function exists, and the
    expanded function ends as the function does, a branch apart: a branch to a
    function of the module calls that function; in the last expansion any
    other direct branch is the branch slot of its guest address in the text of
    the assembler, and an indirect branch goes to the code the indirect-branch
    cache has for its address, or where the lookup stub says. *)
Theorem ExpandIntrinsics_correct lay g fake segment is_final fn :
  Forall (block_wf (fn_next fn)) (fn_blocks fn) -> exists fn', ExpandIntrinsics g fake segment is_final fn = Some fn' /\
    forall fuel b st, (b < length (fn_blocks fn))%nat ->
      run_expands lay g fake segment is_final (exec_lfunc lay fuel fn b st) (exec_lfunc lay (S fuel) fn' b st).
Proof.
  intros Hwf. destruct (ExpandIntrinsics_sim lay g fake segment is_final fn Hwf) as (fn' & E & H).
  exists fn'. split; [done|]. intros fuel b st Hb. apply (H fuel b st Hb).
Qed.

(** C9 Guest code of the memory [code], translated, compiled to an LLVM
    function and expanded, the module having got more functions in between or
    not: the function, started then or later with the guest state of the
    interpreter, ends only where the interpreter gets to (calling the function
    of that guest address, in the branch slot of that address, or at the code
    the indirect-branch cache or the lookup stub has for it) or traps or faults
    as the interpreter does, with its registers and memory, unless its
    behaviour is undefined because the region shifts by 32 or more, accesses
    memory unaligned or accesses guest address 0; and it ends when the
    interpreter comes to a trap or a fault.  The interpreter fetches from its
    current memory.  Excepted are runs on which, within the ranges, it comes to
    an instruction modified since the translation, traps on a misaligned jump
    target or leaves the contract of an atomic operation.  The ranges must hold
    no load into [x0] at offset zero. *)
Theorem llvm_code_correct lay g0 g fake segment code first second rs t :
  mem_wf code -> TranslatorMain.code_ok code ((first, second) :: rs) -> ranges_wf ((first, second) :: rs) ->
  Translate code ((first, second) :: rs) = Some t -> NumAll (vregs_info (t_rn t)) < 2 ^ 16 -> payload_ok fake ->
  exists fn fn', Run g0 fake segment (t_rn t) = Some fn /\ ExpandIntrinsics g fake segment true fn = Some fn' /\
    forall st σ, hinv σ -> lholds st σ -> h_gip σ = first -> ~ goes_bad (lay_weaks lay) code (in_ranges ((first, second) :: rs)) σ ->
      (forall fuel o, exec_lfunc lay fuel fn' 0 st = Some o -> llvm_result lay fake segment σ o \/
         o = FUndef /\ exists n, gexec_region state_info (lay_clob lay) (lay_weaks lay) n (t_rn t) 0 (q_entry st) = Some QUndef) /\
      (forall k σ1, isteps (lay_weaks lay) k σ σ1 -> (forall σ2, dispatch (lay_weaks lay) σ1 <> Ret tt σ2) ->
         exists fuel o, exec_lfunc lay fuel fn' 0 st = Some o).
Proof. apply llvm_code_sim. Qed.

(** ** Concrete programs *)
Definition demo_ctx : LLVMGenCtx := mkCtx ∅.
Definition demo_fake : Payload := mkPayload (replicate 12 0) 0.
Lemma demo_fake_ok : payload_ok demo_fake.
Proof. split; [done|]. by repeat constructor. Qed.

Definition q_start : lstate := mkL ∅ ∅ CPUState_init ∅.
Lemma QIRToLLVM_Run_correct_witness : exists fn, Run demo_ctx demo_fake (mkSegment 0 4096) demo_qregion = Some fn /\
  run_rel (gexec_region demo_si (lay_clob demo_layout) [] 1 demo_qregion 0 (q_entry q_start)) (exec_lfunc demo_layout 2 fn 0 q_start).
Proof.
  destruct (QIRToLLVM_Run_correct demo_layout demo_ctx demo_fake (mkSegment 0 4096) demo_qregion) as (fn & E & H).
  - exact demo_qregion_sel_wf.
  - apply (bool_decide_unpack _). vm_compute. exact I.
  - exists fn. split; [exact E|]. apply H; [reflexivity| |by split].
    split; [reflexivity|]. split; [apply (bool_decide_unpack _); vm_compute; exact I|]. split; [done|]. split; [done|apply map_Forall_empty].
Defined.

(** A function that branches to the constant guest address 64. *)
Definition gbr_fn : lfunc := mkFn 0 [[LCallIntrin intr_gbr [LState; LMembase; LConst 32 64]; LUnreachable]].
Lemma ExpandIntrinsics_correct_witness : exists fn', ExpandIntrinsics demo_ctx demo_fake (mkSegment 0 4096) true gbr_fn = Some fn' /\
  run_expands demo_layout demo_ctx demo_fake (mkSegment 0 4096) true (Some (FGbr 64 q_start)) (exec_lfunc demo_layout 2 fn' 0 q_start).
Proof.
  destruct (ExpandIntrinsics_correct demo_layout demo_ctx demo_fake (mkSegment 0 4096) true gbr_fn) as (fn' & E & H).
  - constructor; [|constructor]. exists []. split; [constructor|]. right. exists intr_gbr, [LState; LMembase; LConst 32 64].
    split; [reflexivity|]. exists (LConst 32 64). split; [reflexivity|]. split; [exact I|]. split; [congruence|by exists 64].
  - exists fn'. split; [exact E|]. apply (H 1%nat 0%nat q_start). cbn. lia.
Defined.

Lemma ecall_gen : match Translate ecall_mem [(0, 4)] with Some t => bool_decide (NumAll (vregs_info (t_rn t)) < 2 ^ 16) | None => false end = true.
Proof. vm_compute. reflexivity. Qed.
Definition ecall_lstate : lstate := mkL ∅ ∅ CPUState_init ecall_mem.
Lemma llvm_code_correct_witness : exists t fn fn' fuel o, Translate ecall_mem [(0, 4)] = Some t /\
  Run demo_ctx demo_fake (mkSegment 0 4096) (t_rn t) = Some fn /\ ExpandIntrinsics demo_ctx demo_fake (mkSegment 0 4096) true fn = Some fn' /\
  exec_lfunc demo_layout fuel fn' 0 ecall_lstate = Some o /\
  (llvm_result demo_layout demo_fake (mkSegment 0 4096) (mkH CPUState_init 0 ecall_mem) o \/
   o = FUndef /\ exists n, gexec_region state_info (lay_clob demo_layout) [] n (t_rn t) 0 (q_entry ecall_lstate) = Some QUndef).
Proof.
  pose proof ecall_gen as Hc. destruct (Translate ecall_mem [(0, 4)]) as [t|] eqn:Et; [|discriminate Hc]. apply bool_decide_eq_true in Hc.
  destruct (llvm_code_correct demo_layout demo_ctx demo_ctx demo_fake (mkSegment 0 4096) ecall_mem 0 4 [] t) as (fn & fn' & Hrun & Hexp & H).
  - apply mem_of_words_wf.
  - apply code_okb_ok. vm_compute. reflexivity.
  - split; [apply (bool_decide_unpack _); vm_compute; exact I|]. by repeat constructor.
  - exact Et.
  - exact Hc.
  - exact demo_fake_ok.
  - destruct (H ecall_lstate (mkH CPUState_init 0 ecall_mem)) as [Hsound Hstop].
    + apply hinv_wf. split_and!; [apply cpu_wf_init|by split|apply mem_of_words_wf].
    + by split_and!.
    + reflexivity.
    + by apply ecall_not_bad.
    + destruct (Hstop 0%nat (mkH CPUState_init 0 ecall_mem)) as (n & o & Ho); [constructor|intros σ2; by apply ecall_stops|].
      exists t, fn, fn', n, o. split; [reflexivity|]. split; [exact Hrun|]. split; [exact Hexp|]. split; [exact Ho|by apply (Hsound n)].
Defined.

(** ** Where LLVM IR is undefined and the interpreter is not *)
Definition llvm_run (code : mem) (r : IpRange) (c : CPUState) (m : mem) (fuel : nat) : option fres :=
  t ← Translate code [r];
  fn ← Run demo_ctx demo_fake (mkSegment 0 4096) (t_rn t);
  fn' ← ExpandIntrinsics demo_ctx demo_fake (mkSegment 0 4096) true fn;
  exec_lfunc demo_layout fuel fn' 0 (mkL ∅ ∅ c m).
Definition interp_gpr (c : CPUState) (m : mem) (r : Z) : option Z :=
  match dispatch [] (mkH c 0 m) with Ret _ σ => Some (get_gpr (h_cpu σ) r) | _ => None end.
(** [sll x1, x2, x3], [lw x1, 2(x0)] and [lw x1, 0(x0)], each in front of
    [ecall]. *)
Definition sll_mem : mem := mem_of_words 0 [0x003110b3; 0x73].
Definition sll_cpu : CPUState := set_gpr 3 32 (set_gpr 2 7 CPUState_init).
Definition lw_mem : mem := mem_of_words 0 [0x00202083; 0x73].
Definition lw0_mem : mem := mem_of_words 0 [0x00002083; 0x73].

(** [sll] by 32 is the shift by 0 of the interpreter and a shift by the width
    in LLVM IR; [lw] of an address that is not a multiple of 4 reads its four
    bytes in the interpreter and is an access below its declared alignment in
    LLVM IR; [lw] of address 0 is an access through the null pointer. *)
Example llvm_undefined :
  llvm_run sll_mem (0, 8) sll_cpu sll_mem 4 = Some FUndef /\ interp_gpr sll_cpu sll_mem 1 = Some 7 /\
  llvm_run lw_mem (0, 8) CPUState_init lw_mem 4 = Some FUndef /\ interp_gpr CPUState_init lw_mem 1 = Some 0x730020 /\
  llvm_run lw0_mem (0, 8) CPUState_init lw0_mem 4 = Some FUndef /\ interp_gpr CPUState_init lw0_mem 1 = Some 0x00002083.
Proof. split_and!; vm_compute; reflexivity. Qed.
