(* ===== verification/LlvmAot.v ===== *)
(** * Ahead-of-time compilation with LLVM (src/dbt/aot/llvmaot.cpp)

    [LLVMAOTCompileELF] up to the LLVM pipeline: the functions of the known
    entries of all pages are declared, then page after page the functions of
    its regions are declared and built.  Afterwards every declared function is
    built, once, and the last expansion of each does what the interpreter does
    on the guest code of its region. *)

From stdpp Require Import base tactics numbers list strings gmap.
From S2P Require Import Prelude Common Bitfield RV32Insn GuestState Interp InterpProofs VOperand Qir QirSem QirBuilder RV32Translator.
From S2P Require Import TranslatorSim TranslatorCorrect TranslatorRegion TranslatorMain BranchSlot Tcache Execute Amd64 QSel QSelCorrect QEmitCorrect Jit.
From S2P Require Import ModuleGraph ModuleGraphInv ModuleGraphDom ModuleGraphRegions Analyser Aot AotPages AotSymbol AotFile.
From S2P Require Import LlvmIr LlvmGen LlvmGenCorrect LlvmExpand LlvmCompile.

Import qir.

(** ** The module

    The declared functions with their segments, the bodies in the order they
    are built, and the table of regions. *)
Record LLVMModule := mkMod { m_ctx : LLVMGenCtx; m_bodies : list (string * lfunc); m_aot_symbols : list AOTSymbol }.

Definition DeclareKnownRegionEntries (page : PageData) (ctx : LLVMGenCtx) : LLVMGenCtx :=
  let segment := mkSegment (page_vaddr page) PAGE_SIZE in
  foldl (fun ctx idx =>
    if negb (is_executed page idx) then ctx
    else if Z.testbit (brind_target page) idx || Z.testbit (segment_entry page) idx
    then AddFunction (idx_ip page idx) segment ctx else ctx) ctx (seqZ 0 page_bits).

Section compile.
Context (code : mem) (host_order : list nid -> list nid) (fake : Payload).

(** [CompilerGenRegionIR] and [QIRToLLVM]: the segment is the one the function
    was declared with. *)
Definition LLVM_DoJob (ipranges : list IpRange) (m : LLVMModule) : lres LLVMModule :=
  match ipranges with
  | [] => LPanic
  | (entry_ip, _) :: _ =>
      let name := MakeAotSymbol entry_ip in
      match Translate code ipranges, fn2seg (m_ctx m) !! name with
      | Some t, Some segment =>
          match Run (m_ctx m) fake segment (t_rn t) with
          | Some fn => LRet (mkMod (m_ctx m) (m_bodies m ++ [(name, fn)]) (m_aot_symbols m ++ [mkAS entry_ip 0]))
          | None => LPanic
          end
      | _, _ => LPanic
      end
  end.

(** The regions and their ranges are those of [AOTCompilePage]. *)
Definition LLVMAOTTranslatePage (page : PageData) (m : LLVMModule) : lres LLVMModule :=
  jobs ← AOTCompilePage code host_order page;
  let ctx := foldl (fun ctx j => AddFunction (entry_of j) (page_segment page) ctx) (m_ctx m) jobs in
  lfold LLVM_DoJob jobs (mkMod ctx (m_bodies m) (m_aot_symbols m)).

(** [LLVMAOTCompileELF] in front of the pipeline *)
Definition LLVMAOTCompile_module (profile : list PageData) : lres LLVMModule :=
  let ctx := foldl (fun ctx page => DeclareKnownRegionEntries page ctx) (mkCtx ∅) profile in
  lfold LLVMAOTTranslatePage profile (mkMod ctx [] []).
(** The last expansion, of every function. *)
Fixpoint expand_bodies (ctx : LLVMGenCtx) (bodies : list (string * lfunc)) : option (list (string * lfunc)) :=
  match bodies with
  | [] => Some []
  | (name, fn) :: bodies =>
      segment ← fn2seg ctx !! name;
      fn' ← ExpandIntrinsics ctx fake segment true fn;
      r ← expand_bodies ctx bodies;
      Some ((name, fn') :: r)
  end.
Definition AddAOTTabSection_size (m : LLVMModule) : Z := sizeof_AOTTabHeader + sizeof_AOTSymbol * Z.of_nat (length (m_aot_symbols m)).
End compile.

(** ** Declared functions *)
(** Every declared function belongs to a guest address, with the segment of
    its page. *)
Definition ip_segment (ip : Z) : CodeSegment := mkSegment (u32 (Z.shiftl (ip / PAGE_SIZE) PAGE_BITS)) PAGE_SIZE.
Definition declares (P : Z -> Prop) (ctx : LLVMGenCtx) : Prop :=
  (forall ip, P ip -> in_u 32 ip /\ fn2seg ctx !! MakeAotSymbol ip = Some (ip_segment ip)) /\
  (forall name, is_Some (fn2seg ctx !! name) -> exists ip, P ip /\ name = MakeAotSymbol ip).

Lemma declares_ext P Q ctx : (forall ip, P ip <-> Q ip) -> declares P ctx -> declares Q ctx.
Proof. intros H [H1 H2]. split; [intros ip Hq; by apply H1, H|]. intros name Hn. destruct (H2 name Hn) as (ip & Hp & ->). exists ip. by rewrite <- H. Qed.
Lemma declares_init : declares (fun _ => False) (mkCtx ∅).
Proof. split; [done|]. cbn. intros name [? H]. by rewrite lookup_empty in H. Qed.
Lemma AddFunction_declares P ip ctx : in_u 32 ip -> declares P ctx -> declares (fun x => P x \/ x = ip) (AddFunction ip (ip_segment ip) ctx).
Proof.
  intros Hip [H1 H2]. unfold AddFunction, getFunction. destruct (fn2seg ctx !! MakeAotSymbol ip) as [seg|] eqn:E.
  - destruct (H2 (MakeAotSymbol ip)) as (ip' & Hp & En); [by rewrite E|]. apply MakeAotSymbol_inj in En as <-; [|done|by apply H1].
    apply (declares_ext P); [|done]. intros x. split; [by left|]. by intros [?| ->].
  - split; cbn [fn2seg].
    + intros x [Hx| ->]; [|by rewrite lookup_insert_eq]. destruct (H1 x Hx) as [? Hs]. split; [done|]. rewrite lookup_insert_ne; [done|]. congruence.
    + intros name. rewrite lookup_insert_is_Some'. intros [<-|Hn]; [by exists ip; split; [right|]|]. destruct (H2 name Hn) as (x & Hp & ->). exists x. auto.
Qed.
(** A page's functions. *)
Lemma page_segment_ip page ip : ip / PAGE_SIZE = pageno page -> page_segment page = ip_segment ip.
Proof. intros H. unfold ip_segment, page_segment, page_vaddr. by rewrite H. Qed.
Lemma declare_jobs_declares page (jobs : list (list IpRange)) : forall P ctx,
  Forall (fun j => entry_of j / PAGE_SIZE = pageno page /\ in_u 32 (entry_of j)) jobs -> declares P ctx ->
  declares (fun x => P x \/ x ∈ entry_of <$> jobs) (foldl (fun ctx j => AddFunction (entry_of j) (page_segment page) ctx) ctx jobs).
Proof.
  induction jobs as [|j jobs IH]; intros P ctx HF HD; cbn [foldl].
  - apply (declares_ext P); [|done]. intros x. split; [by left|]. intros [?|?%not_elem_of_nil]; done.
  - apply Forall_cons in HF as [[Hp Hu] HF]. 
    assert (HA : declares (fun x => P x \/ x = entry_of j) (AddFunction (entry_of j) (page_segment page) ctx)).
    { rewrite (page_segment_ip _ _ Hp). by apply AddFunction_declares. }
    eapply declares_ext; [|exact (IH _ _ HF HA)]. intros x. rewrite fmap_cons, elem_of_cons. tauto.
Qed.
Lemma declare_known_declares page idxs : forall P ctx, 0 <= pageno page < 2 ^ 20 -> Forall (fun idx => 0 <= idx < page_bits) idxs -> declares P ctx ->
  declares (fun x => P x \/ exists idx, idx ∈ idxs /\ is_known_entry page idx = true /\ x = idx_ip page idx)
    (foldl (fun ctx idx =>
       if negb (is_executed page idx) then ctx
       else if Z.testbit (brind_target page) idx || Z.testbit (segment_entry page) idx
       then AddFunction (idx_ip page idx) (mkSegment (page_vaddr page) PAGE_SIZE) ctx else ctx) ctx idxs).
Proof.
  induction idxs as [|idx idxs IH]; intros P ctx Hp HF HD; cbn [foldl].
  - apply (declares_ext P); [|done]. intros x. split; [by left|]. intros [?|(? & ?%not_elem_of_nil & _)]; done.
  - apply Forall_cons in HF as [Hi HF].
    assert (Hstep : declares (fun x => P x \/ is_known_entry page idx = true /\ x = idx_ip page idx)
      (if negb (is_executed page idx) then ctx
       else if Z.testbit (brind_target page) idx || Z.testbit (segment_entry page) idx
       then AddFunction (idx_ip page idx) (mkSegment (page_vaddr page) PAGE_SIZE) ctx else ctx)).
    { unfold is_known_entry. destruct (is_executed page idx); cbn [negb andb].
      - destruct (_ || _).
        + change (mkSegment (page_vaddr page) PAGE_SIZE) with (page_segment page).
          rewrite (page_segment_ip page (idx_ip page idx)) by (by apply idx_ip_page).
          eapply declares_ext; [|apply AddFunction_declares; [apply uN_range; lia|exact HD]]. intros x. cbn. naive_solver.
        + apply (declares_ext P); [naive_solver|done].
      - apply (declares_ext P); [naive_solver|done]. }
    eapply declares_ext; [|apply (IH _ _ Hp HF Hstep)]. intros x. setoid_rewrite elem_of_cons. naive_solver.
Qed.

(** ** Built functions *)
Section proofs.
Context (lay : layout) (code : mem) (host_order : list nid -> list nid) (fake : Payload).
Context (Hw : mem_wf code) (Hord : forall l, host_order l ≡ₚ l) (Hfake : payload_ok fake).

(** A job the translator takes: it has no load into [x0] at offset zero and
    its registers fit [RegN]. *)
Definition translates (j : list IpRange) : Prop :=
  TranslatorMain.code_ok code j /\ exists t, Translate code j = Some t /\ NumAll (vregs_info (t_rn t)) < 2 ^ 16.
Definition job_wf (j : list IpRange) : Prop := j <> [] /\ ranges_wf j /\ in_u 32 (entry_of j).
Definition built_from (j : list IpRange) (b : string * lfunc) : Prop :=
  b.1 = MakeAotSymbol (entry_of j) /\ exists t g0, Translate code j = Some t /\ Run g0 fake (ip_segment (entry_of j)) (t_rn t) = Some b.2.
Record mod_inv (P : Z -> Prop) (js : list (list IpRange)) (m : LLVMModule) : Prop := {
  mi_ctx : declares P (m_ctx m);
  mi_bodies : Forall2 built_from js (m_bodies m);
  mi_syms : m_aot_symbols m = (fun j => mkAS (entry_of j) 0) <$> js }.

Lemma Run_total g0 seg j t : TranslatorMain.code_ok code j -> Translate code j = Some t -> NumAll (vregs_info (t_rn t)) < 2 ^ 16 -> job_wf j -> exists fn, Run g0 fake seg (t_rn t) = Some fn.
Proof.
  intros Hok Et Hn (Hne & Hr & _). destruct j as [|[first second] rs]; [done|].
  destruct (llvm_code_sim lay g0 fake seg g0 code first second rs t Hw Hok Hr Et Hn Hfake) as (fn & _ & Hrun & _). by exists fn.
Qed.

Lemma LLVM_DoJob_inv P js m j : mod_inv P js m -> P (entry_of j) -> job_wf j -> translates j ->
  exists m', LLVM_DoJob code fake j m = LRet m' /\ mod_inv P (js ++ [j]) m'.
Proof.
  intros [HD HB HS] HP Hj (Hok & t & Et & Hn). destruct (proj1 HD _ HP) as [Hu Hseg].
  destruct (Run_total (m_ctx m) (ip_segment (entry_of j)) j t Hok Et Hn Hj) as [fn Hrun].
  destruct j as [|[ip e] rs]; [by destruct Hj|]. unfold LLVM_DoJob. change (entry_of ((ip, e) :: rs)) with ip in *. rewrite Et, Hseg, Hrun.
  eexists. split; [done|]. split; cbn [m_ctx m_bodies m_aot_symbols]; [done| |by rewrite HS, fmap_app].
  apply Forall2_app; [done|]. constructor; [|constructor]. split; [done|]. by exists t, (m_ctx m).
Qed.
Lemma LLVM_DoJobs_inv P jobs : forall js m, mod_inv P js m -> Forall (fun j => P (entry_of j) /\ job_wf j /\ translates j) jobs ->
  exists m', lfold (LLVM_DoJob code fake) jobs m = LRet m' /\ mod_inv P (js ++ jobs) m'.
Proof.
  induction jobs as [|j jobs IH]; intros js m HI HF; cbn [lfold]; [exists m; by rewrite app_nil_r|].
  apply Forall_cons in HF as [(HP & Hj & Ht) HF]. destruct (LLVM_DoJob_inv P js m j HI HP Hj Ht) as (m1 & -> & HI1). cbn [mbind lres_bind].
  rewrite cons_middle, app_assoc. by apply IH.
Qed.

Notation page_jobs_of page := (snd <$> page_job_list code host_order page).
Notation jobs_of profile := (snd <$> all_jobs code host_order profile).
Lemma page_jobs_wf page g : page_ok code page g ->
  AOTCompilePage code host_order page = LRet (page_jobs_of page) /\
  Forall (fun j => job_wf j /\ entry_of j / PAGE_SIZE = pageno page) (page_jobs_of page) /\
  forall idx, 0 <= idx < page_bits -> is_known_entry page idx = true -> idx_ip page idx ∈ entry_of <$> page_jobs_of page.
Proof.
  intros Hpo. destruct (page_jobs code host_order page g Hord Hpo) as (jobs & Eq & HF & HR & _ & Hk). unfold page_job_list. rewrite Eq.
  rewrite <- list_fmap_compose. rewrite (list_fmap_ext _ id) by done. rewrite list_fmap_id. split; [done|]. split; [|exact Hk].
  apply Forall_forall. intros j Hj. rewrite Forall_forall in HF, HR. destruct (HF j Hj) as (? & ? & ?). split; [|done]. split; [done|]. split; [by apply HR|done].
Qed.

Lemma TranslatePages_inv profile : forall P js m, Forall (fun page => exists g, page_ok code page g) profile ->
  Forall translates (jobs_of profile) -> mod_inv P js m ->
  exists m', lfold (LLVMAOTTranslatePage code host_order fake) profile m = LRet m' /\
    mod_inv (fun x => P x \/ x ∈ entry_of <$> jobs_of profile) (js ++ jobs_of profile) m'.
Proof.
  unfold all_jobs. induction profile as [|page profile IH]; intros P js m HF Ht HI.
  - exists m. split; [done|]. destruct HI as [HD HB HS]. split; [|by rewrite app_nil_r..].
    apply (declares_ext P); [|done]. intros x. split; [by left|]. intros [?|?%not_elem_of_nil]; done.
  - apply Forall_cons in HF as [[g Hg] HF]. rewrite fmap_cons, join_cons, fmap_app in Ht |- *. apply Forall_app in Ht as [Ht1 Ht2].
    destruct (page_jobs_wf page g Hg) as (Eq & HW & _). set (pj := page_jobs_of page) in *.
    destruct (LLVM_DoJobs_inv (fun x => P x \/ x ∈ entry_of <$> pj) pj js
      (mkMod (foldl (fun ctx j => AddFunction (entry_of j) (page_segment page) ctx) (m_ctx m) pj) (m_bodies m) (m_aot_symbols m))) as (m1 & E1 & HI1).
    + destruct HI as [HD HB HS]. split; [|done|done]. cbn [m_ctx]. apply declare_jobs_declares; [|done].
      eapply Forall_impl; [exact HW|]. by intros j [(_ & _ & ?) ?].
    + apply Forall_forall. intros j Hj. rewrite Forall_forall in HW, Ht1. split_and!; [right; by apply list_elem_of_fmap_2|by apply HW|by apply Ht1].
    + destruct (IH _ _ _ HF Ht2 HI1) as (m2 & E2 & [HD2 HB2 HS2]). exists m2. split.
      * cbn [lfold]. assert (LLVMAOTTranslatePage code host_order fake page m = LRet m1) as -> by (unfold LLVMAOTTranslatePage; by rewrite Eq). exact E2.
      * rewrite app_assoc. split; [|done|done]. eapply declares_ext; [|exact HD2]. intros x. cbn beta. rewrite fmap_app, elem_of_app. tauto.
Qed.

(** What is declared at first is declared again with the jobs of its page. *)
Lemma declared_known profile : forall P ctx, Forall (fun page => exists g, page_ok code page g) profile -> declares P ctx ->
  exists Q, declares (fun x => P x \/ Q x) (foldl (fun ctx page => DeclareKnownRegionEntries page ctx) ctx profile) /\
    forall x, Q x -> x ∈ entry_of <$> jobs_of profile.
Proof.
  unfold all_jobs. induction profile as [|page profile IH]; intros P ctx HF HD; cbn [foldl].
  - exists (fun _ => False). split; [|done]. eapply declares_ext; [|exact HD]. tauto.
  - apply Forall_cons in HF as [[g Hg] HF]. destruct (page_jobs_wf page g Hg) as (_ & _ & Hk).
    pose proof (declare_known_declares page (seqZ 0 page_bits) P ctx (po_no _ _ _ Hg)) as H1.
    destruct (IH _ _ HF (H1 ltac:(apply Forall_forall; intros idx Hi%elem_of_seqZ; lia) HD)) as (Q & HQ & Hin).
    exists (fun x => (exists idx, idx ∈ seqZ 0 page_bits /\ is_known_entry page idx = true /\ x = idx_ip page idx) \/ Q x). split.
    + eapply declares_ext; [|exact HQ]. intros x. cbn beta. tauto.
    + intros x. rewrite fmap_cons, join_cons, !fmap_app, elem_of_app. intros [(idx & Hi%elem_of_seqZ & Hkn & ->)|HQx]; [left; apply Hk; [lia|done]|right; auto].
Qed.

(** The function of a job after the last expansion does what the interpreter
    does. *)
Definition runs_job (j : list IpRange) (fn' : lfunc) : Prop := exists t, Translate code j = Some t /\
  forall st σ, hinv σ -> lholds st σ -> h_gip σ = entry_of j -> ~ goes_bad (lay_weaks lay) code (in_ranges j) σ ->
    (forall fuel o, exec_lfunc lay fuel fn' 0 st = Some o -> llvm_result lay fake (ip_segment (entry_of j)) σ o \/
       o = FUndef /\ exists n, gexec_region state_info (lay_clob lay) (lay_weaks lay) n (t_rn t) 0 (q_entry st) = Some QUndef) /\
    (forall k σ1, isteps (lay_weaks lay) k σ σ1 -> (forall σ2, dispatch (lay_weaks lay) σ1 <> Ret tt σ2) ->
       exists fuel o, exec_lfunc lay fuel fn' 0 st = Some o).

Lemma expand_built g j b : built_from j b -> job_wf j -> translates j ->
  exists fn', ExpandIntrinsics g fake (ip_segment (entry_of j)) true b.2 = Some fn' /\ runs_job j fn'.
Proof.
  intros (_ & t & g0 & Et & Hrun) (Hne & Hr & Hu) (Hok & t' & Et' & Hn). assert (t' = t) as -> by congruence.
  destruct j as [|[first second] rs]; [done|]. change (entry_of ((first, second) :: rs)) with first in *.
  destruct (llvm_code_sim lay g fake (ip_segment first) g0 code first second rs t Hw Hok Hr Et Hn Hfake) as (fn & fn' & Hrun' & Hexp & H).
  assert (fn = b.2) as -> by congruence. exists fn'. split; [done|]. exists t. split; [done|]. exact H.
Qed.

Lemma expand_bodies_spec g js bodies : Forall2 built_from js bodies -> Forall (fun j => job_wf j /\ translates j) js ->
  (forall j, j ∈ js -> fn2seg g !! MakeAotSymbol (entry_of j) = Some (ip_segment (entry_of j))) ->
  exists bodies', expand_bodies fake g bodies = Some bodies' /\ Forall2 (fun j b => b.1 = MakeAotSymbol (entry_of j) /\ runs_job j b.2) js bodies'.
Proof.
  induction 1 as [|j [name fn] js bodies Hb _ IH]; intros HF Hg; [by exists []|]. apply Forall_cons in HF as [[Hj Ht] HF].
  destruct (expand_built g j _ Hb Hj Ht) as (fn' & Hexp & Hrun). cbn [snd] in Hexp. destruct IH as (bodies' & Hexps & HF2); [done|intros j' Hj'; apply Hg; by apply list_elem_of_further|].
  exists ((name, fn') :: bodies'). pose proof (proj1 Hb) as En. cbn in En. split; [|by constructor].
  cbn [expand_bodies]. rewrite En, (Hg j) by apply list_elem_of_here. cbn [mbind option_bind]. rewrite Hexp. cbn [mbind option_bind]. by rewrite Hexps.
Qed.

Lemma module_spec profile : profile_ok code profile -> Forall translates (jobs_of profile) ->
  exists m bodies, LLVMAOTCompile_module code host_order fake profile = LRet m /\ expand_bodies fake (m_ctx m) (m_bodies m) = Some bodies /\
    Forall2 (fun j b => b.1 = MakeAotSymbol (entry_of j) /\ runs_job j b.2) (jobs_of profile) bodies /\
    declares (fun x => x ∈ entry_of <$> jobs_of profile) (m_ctx m) /\ m_aot_symbols m = (fun j => mkAS (entry_of j) 0) <$> jobs_of profile.
Proof.
  intros [HF Hnd] Ht. destruct (declared_known profile _ _ HF declares_init) as (Q & HQ & Hin).
  destruct (TranslatePages_inv profile (fun x => False \/ Q x) [] (mkMod (foldl (fun ctx page => DeclareKnownRegionEntries page ctx) (mkCtx ∅) profile) [] []) HF Ht) as (m & Em & [HD HB HS]).
  { split; [exact HQ|constructor|done]. }
  assert (HD' : declares (fun x => x ∈ entry_of <$> jobs_of profile) (m_ctx m)).
  { eapply declares_ext; [|exact HD]. intros x. split; [intros [[[]|Hq]|Hx]; auto|by right]. }
  destruct (expand_bodies_spec (m_ctx m) (jobs_of profile) (m_bodies m)) as (bodies & Eb & HB'); [done| | |].
  - apply Forall_forall. intros j Hj. split; [|by rewrite Forall_forall in Ht; auto].
    apply list_elem_of_fmap in Hj as (sj & -> & (pj & Hsj & (page & -> & Hpage)%list_elem_of_fmap)%list_elem_of_join).
    rewrite Forall_forall in HF. destruct (HF page Hpage) as [g Hg]. destruct (page_jobs_wf page g Hg) as (_ & HW & _). rewrite Forall_forall in HW.
    apply HW. by apply list_elem_of_fmap_2.
  - intros j Hj. apply HD'. by apply list_elem_of_fmap_2.
  - by exists m, bodies.
Qed.
End proofs.

(** C12 The LLVM compiler builds a closed module of correct functions.  For a
    profile whose pages the compiler can handle and whose jobs the translator
    takes (no load into [x0] at offset zero), [LLVMAOTCompileELF] builds a
    module from the guest memory [code], and the last expansion takes every
    function of it; a function is declared exactly when it is the function of a
    compiled job, each is built once, the table lists the entries of the jobs,
    and each function, run later with the guest state of the interpreter at the
    entry of its job, does what the interpreter does, unless a shift by 32 or
    more, an unaligned access or an access to guest address 0 makes it
    undefined.  Excepted are runs on which the interpreter, within the job,
    comes to an instruction that is not the one in [code], traps on a
    misaligned jump target or leaves the contract of an atomic operation. *)
Theorem LLVMAOT_module_correct lay code host_order fake profile :
  mem_wf code -> (forall l, host_order l ≡ₚ l) -> payload_ok fake -> profile_ok code profile ->
  Forall (translates code) (snd <$> all_jobs code host_order profile) ->
  exists m bodies, LLVMAOTCompile_module code host_order fake profile = LRet m /\ expand_bodies fake (m_ctx m) (m_bodies m) = Some bodies /\
    (forall name, is_Some (fn2seg (m_ctx m) !! name) <-> name ∈ bodies.*1) /\ NoDup bodies.*1 /\
    as_gip <$> m_aot_symbols m = job_entry <$> all_jobs code host_order profile /\
    Forall2 (fun j b => b.1 = MakeAotSymbol (entry_of j) /\ runs_job lay code fake j b.2) (snd <$> all_jobs code host_order profile) bodies.
Proof.
  intros Hw Hord Hfake Hp Ht. destruct (module_spec lay code host_order fake Hw Hord Hfake profile Hp Ht) as (m & bodies & Em & Eb & HB & HD & HS).
  assert (Hnames : bodies.*1 = MakeAotSymbol <$> (job_entry <$> all_jobs code host_order profile)).
  { clear Em Eb HD HS Ht. unfold job_entry. change (fun j : CodeSegment * list IpRange => entry_of j.2) with (entry_of ∘ snd (A := CodeSegment) (B := list IpRange)).
    rewrite (list_fmap_compose snd entry_of). induction HB as [|j b js bs [E _] _ IH]; [done|]. cbn. by rewrite E, IH. }
  destruct (all_jobs_entries code host_order Hord profile Hp) as [HF Hnd].
  assert (Hent : forall x, x ∈ job_entry <$> all_jobs code host_order profile <-> x ∈ entry_of <$> (snd <$> all_jobs code host_order profile)).
  { intros x. by rewrite <- list_fmap_compose. }
  exists m, bodies. split_and!; [done..| | | |exact HB].
  - intros name. rewrite Hnames. split.
    + intros Hn. destruct (proj2 HD name Hn) as (ip & Hip & ->). apply list_elem_of_fmap_2. by apply Hent.
    + intros (ip & -> & Hip)%list_elem_of_fmap. apply Hent in Hip. destruct (proj1 HD ip Hip) as [_ ->]. by eexists.
  - rewrite Hnames. apply NoDup_fmap_2_strong; [|done]. intros x y (jx & -> & Hx)%list_elem_of_fmap (jy & -> & Hy)%list_elem_of_fmap.
    rewrite Forall_forall in HF. apply MakeAotSymbol_inj; by apply HF.
  - rewrite HS, <- list_fmap_compose. change (as_gip ∘ (fun j : list IpRange => mkAS (entry_of j) 0)) with entry_of. by rewrite <- list_fmap_compose.
Qed.

(** ** The profile of [demo_page] *)
Lemma demo_code_wf : mem_wf demo_code. Proof. apply mem_of_words_wf. Qed.
Definition translates_b (code : mem) (j : list IpRange) : bool :=
  code_okb code && match Translate code j with Some t => bool_decide (NumAll (vregs_info (t_rn t)) < 2 ^ 16) | None => false end.
Lemma translates_b_ok code j : translates_b code j = true -> translates code j.
Proof.
  unfold translates_b. intros [Hok%(code_okb_ok code j) H]%andb_true_iff. split; [done|].
  destruct (Translate code j) as [t|] eqn:E; [|done]. apply bool_decide_eq_true in H. by exists t.
Qed.
Lemma translates_all code js : forallb (translates_b code) js = true -> Forall (translates code) js.
Proof. induction js as [|j js IH]; cbn [forallb]; [constructor|]. intros [H1 H2]%andb_true_iff. constructor; [by apply translates_b_ok|auto]. Qed.
Lemma demo_translates : forallb (translates_b demo_code) (snd <$> all_jobs demo_code reverse [demo_page]) = true.
Proof. vm_compute. reflexivity. Qed.

Lemma LLVMAOT_module_correct_witness : exists m bodies, LLVMAOTCompile_module demo_code reverse demo_fake [demo_page] = LRet m /\
  expand_bodies demo_fake (m_ctx m) (m_bodies m) = Some bodies /\ NoDup bodies.*1.
Proof.
  destruct (LLVMAOT_module_correct demo_layout demo_code reverse demo_fake [demo_page]) as (m & bodies & Em & Eb & _ & Hnd & _).
  - exact demo_code_wf.
  - apply reverse_Permutation.
  - exact demo_fake_ok.
  - split; [|apply NoDup_singleton]. apply Forall_singleton. destruct (demo_ok_inv 4 _ demo_page_ok) as (g & Hg & Hn & Hr).
    exists g. split; [by apply built_inv|exact Hr|lia|by split].
  - exact (translates_all _ _ demo_translates).
  - exists m, bodies. split; [exact Em|]. split; [exact Eb|exact Hnd].
Defined.
